(* ===== verification/_CoqProject ===== *)
-Q . S2P
Prelude.v
Crc32c.v
Blkio.v
GroupCommit.v
Dev.v
Mux.v
Alloc.v
Volume.v
Anchor.v
Page.v
Ram.v
Metabuf.v
Keys.v
Kv.v
Node.v
PageLogic.v
BTree.v
MetaLive.v
TreeSpec.v
Check.v
Frame.v
Orphans.v
DeltaIndex.v
DeltaRec.v
Delta.v
DeltaLog.v
Mem.v
DeltaHeal.v
DeltaAppend.v
DeltaSession.v
DeltaTruncate.v
Overlay.v
Engine.v
Fold.v
FoldSpec.v
EngineSession.v
Rows.v
Recipes.v
RowsSpec.v
ScanSpec.v
Namespace.v
