(* ===== verification/Prelude.v ===== *)
(** * InvariantFS: verification of the metadata engine

    InvariantFS keeps the whole namespace of a volume (inodes, directory
    entries, extended attributes, recipes) in a copy-on-write B+-tree, with an
    append-only delta log in front of it.  This library models the C code of
    that engine, from the checksum up to the rows, and proves what makes it
    correct.  Sources are named relative to src/src/.

    ** How the program is put together

    A volume is one or two block devices (core/blkio.c) behind a multiplexer
    that mirrors a metadata span (core/volume.c).  Blocks are handed out by a
    bitmap allocator with zones (core/volume.c).  Metadata pages carry a CRC32C
    and a generation (core/vol_metabuf.c); the root descriptor RT30 has two
    root slots and names the head of the delta log, and is mirrored in a tail
    anchor (core/vol_anchor.c).  The B+-tree (core/vol_btree.c) writes every
    page at a new block; publishing a root is the only overwrite.  Updates go
    to the delta log (core/vol_delta.c): a chain of segments, an in-memory
    index of the latest record per key, group commit, and replay at mount.  A
    read looks into the log first and into the tree second.  A fold
    (core/vol_fold.c) merges the log into a copy of the tree, publishes it and
    resets the log; the pages and segments nobody reaches are then reclaimed
    (core/vol_reclaim.c and the collectors of core/vol_btree.c).

    ** Files

    - Prelude: machine integers, byte strings, little- and big-endian codecs,
      the state-and-error monad [M S A] (an operation answers [Some a], or
      [None] for the error code, and a new state in both cases), tactics, hint
      databases.
    - Crc32c: core/crc32c.c.  Blkio, GroupCommit: core/blkio.c, the second as
      a step relation of several threads.  Dev: the interface [Dev]/[DevLaws] a
      storage offers; Ram and Mem: two implementations used by witnesses.
    - Mux: the multiplexer of core/volume.c, an instance of [Dev].
    - Alloc: the allocator of core/volume.c.  Volume: the handle and the codecs
      of its descriptors.  Anchor: core/vol_anchor.c.  Page, Metabuf:
      core/vol_metabuf.c.
    - Keys: key order, key layouts and row codecs.  Kv: sorted association
      lists.  Node: the node codec.  PageLogic: the page-store interface and
      its weakest preconditions.  BTree: the tree over that interface.
      MetaLive: the page store of Metabuf as an instance of the interface.
      TreeSpec: the tree on a volume, as a finite map.
    - Check: tree check, reachability and reclaim.  Frame, Orphans: what other
      owners keep, and the orphan collector.
    - DeltaIndex, DeltaRec, Delta, DeltaLog, DeltaHeal, DeltaAppend,
      DeltaSession, DeltaTruncate: core/vol_delta.c: the hash index, the record
      format, all operations, and the proofs about them by topic.
    - Overlay, Rows, Recipes, Fold: the rest of the engine: key resolution over
      both tiers, the namespace rows, recipe blobs, and the fold.

    ** State and operations

    A C function on [invfs_volume *v] is a definition of the same name in the
    monad over [vol D X]: [D] is the storage, [X] the part of the handle the
    layer below does not know (the delta log for Delta and above).  Failing
    system calls are answers of the storage, so every error path of the code is
    a branch of its definition.  Integers are [Z] with their wrap-around
    written out where the C type can wrap.  Code outside the sources is a
    parameter: the CRC32 instruction of the CPU, the storage, the clock and
    environment variables, BLAKE3, and the content release calls of the delta
    log's retirement.

    ** What the theorems show

    - Tree: update, delete, search, scan and arbitrary sequences of updates
      implement a finite map, and an older root keeps its contents.  The check
      accepts only well-formed trees; reclaim and the orphan collector free no
      page a root reaches.
    - Delta log: a session of appends, look-ups, drains and remounts refines a
      finite map; mount recovers what was appended; a failed commit is rolled
      back exactly and healed; truncation restores the earlier log.
    - Page store, root slots, anchor: what is published is what the next open
      reads, and a foreign anchor is refused.
    - Storage: reads return what was written through bounce buffers and through
      the multiplexer, barriers make it durable, group commit acknowledges no
      write before its flush and always progresses.
    - Allocator: no block is handed out twice; frees are exact.
    - Codecs: keys, rows, nodes, records and descriptors round-trip, keys of
      different objects differ, and the byte order is the intended order.

    ** Bounds and fuel

    Loops of the code with a counter have the counter's bound as fuel.
    Descents use [BT_MAX_DEPTH], the code's own limit; chain walks use the
    number of blocks of the volume, which a chain of distinct segments cannot
    exceed; walks over pages use the page count, each step marking a new page.
    The theorems give results, not only partial correctness, under the stated
    bounds.

    ** Not modelled

    The excision of damaged ranges, opening and closing a volume as one
    operation, save points beyond the truncation they perform, the content
    path (reading, writing, encoding file data), sweep and tier policies, seal,
    the container recipes, plugins, and the command-line and FUSE front ends:
    they are outside the metadata engine or are mostly operating-system and
    vendored calls.  Memory does not run out in the model. *)

From stdpp Require Export base list numbers gmap option.
From Stdlib Require Export ZArith Lia.

#[global] Open Scope Z_scope.

Create HintDb invfs.
Create Rewrite HintDb len.

(** ** Machine integers *)

Definition u8 (x : Z) : Z := x mod 2 ^ 8.
Definition u16 (x : Z) : Z := x mod 2 ^ 16.
Definition u32 (x : Z) : Z := x mod 2 ^ 32.
Definition u64 (x : Z) : Z := x mod 2 ^ 64.

Lemma u16_small x : 0 <= x < 2 ^ 16 -> u16 x = x.
Proof. intros; by apply Z.mod_small. Qed.
Lemma u32_small x : 0 <= x < 2 ^ 32 -> u32 x = x.
Proof. intros; by apply Z.mod_small. Qed.
Lemma u64_small x : 0 <= x < 2 ^ 64 -> u64 x = x.
Proof. intros; by apply Z.mod_small. Qed.
Lemma u32_range x : 0 <= u32 x < 2 ^ 32.
Proof. apply Z.mod_pos_bound; lia. Qed.
Lemma u64_range x : 0 <= u64 x < 2 ^ 64.
Proof. apply Z.mod_pos_bound; lia. Qed.

(** [(acc << n) | x] for an [x] of [n] bits. *)
Lemma lor_shiftl acc n x : 0 <= n -> 0 <= x < 2 ^ n -> Z.lor (Z.shiftl acc n) x = acc * 2 ^ n + x.
Proof.
  intros Hn Hx. pose proof (Z.add_lor_land (Z.shiftl acc n) x) as E.
  assert (Z.land (Z.shiftl acc n) x = 0) as Hz.
  { apply Z.bits_inj'. intros i Hi. rewrite Z.land_spec, Z.shiftl_spec, Z.testbit_0_l by lia.
    destruct (Z.ltb_spec i n); [by rewrite Z.testbit_neg_r by lia|].
    replace (Z.testbit x i) with false; [by rewrite andb_false_r|].
    symmetry. destruct (Z.eq_dec x 0) as [->|]; [apply Z.testbit_0_l|].
    apply Z.bits_above_log2; [lia|].
    apply Z.log2_lt_pow2; [lia|]. apply Z.lt_le_trans with (2 ^ n); [lia|].
    apply Z.pow_le_mono_r; lia. }
  rewrite Hz, Z.shiftl_mul_pow2 in E by lia. rewrite Z.shiftl_mul_pow2 by lia. lia.
Qed.

(** ** Bytes and byte strings *)

Definition is_byte (b : Z) : Prop := 0 <= b < 256.
Abbreviation bytes := (list Z).
Abbreviation bytes_ok := (Forall is_byte).

(** Lengths are used as integers nearly everywhere. *)
Abbreviation zlen l := (Z.of_nat (length l)).

Definition bytes_okb (bs : bytes) : bool :=
  forallb (fun b => (0 <=? b) && (b <? 256)) bs.

Lemma bytes_okb_ok bs : bytes_okb bs = true -> bytes_ok bs.
Proof.
  unfold bytes_okb. rewrite forallb_forall, Forall_forall. intros H b Hb.
  apply H in Hb. unfold is_byte. lia.
Qed.

(** [a[i]] of a C byte or word array; 0 outside the array. *)
Definition nthZ (l : list Z) (i : Z) : Z := nth (Z.to_nat i) l 0.

(** [n] bytes of [bs] from [off] on. *)
Definition slice (bs : bytes) (off n : Z) : bytes :=
  take (Z.to_nat n) (drop (Z.to_nat off) bs).

Definition zeros (n : Z) : bytes := replicate (Z.to_nat n) 0.

Lemma length_zeros n : length (zeros n) = Z.to_nat n.
Proof. apply length_replicate. Qed.

Lemma zeros_ok n : bytes_ok (zeros n).
Proof. apply Forall_replicate. unfold is_byte; lia. Qed.
#[export] Hint Resolve zeros_ok : invfs.

Lemma length_slice bs off n :
  0 <= off -> 0 <= n -> off + n <= zlen bs -> zlen (slice bs off n) = n.
Proof. intros. unfold slice. rewrite length_take, length_drop. lia. Qed.

Lemma slice_ok bs off n : bytes_ok bs -> bytes_ok (slice bs off n).
Proof. intros. unfold slice. by apply Forall_take, Forall_drop. Qed.
#[export] Hint Resolve slice_ok : invfs.

Lemma slice_app_l a b n : zlen a = n -> slice (a ++ b) 0 n = a.
Proof.
  intros <-. unfold slice. rewrite Nat2Z.id. simpl. rewrite drop_0.
  by rewrite take_app_length.
Qed.

Lemma slice_app_r a b off n :
  zlen a <= off -> slice (a ++ b) off n = slice b (off - zlen a) n.
Proof.
  intros. unfold slice. rewrite drop_app_ge by lia. do 2 f_equal. lia.
Qed.

Lemma slice_app_in a b off n :
  0 <= off -> 0 <= n -> off + n <= zlen a -> slice (a ++ b) off n = slice a off n.
Proof.
  intros. unfold slice. rewrite drop_app_le by lia. apply take_app_le. rewrite length_drop. lia.
Qed.

Lemma slice_all b n : zlen b = n -> slice b 0 n = b.
Proof. intros H. rewrite <- (app_nil_r b) at 1. by apply slice_app_l. Qed.

(** *** Little- and big-endian fields *)

Fixpoint le_bytes (n : nat) (x : Z) : bytes :=
  match n with
  | O => []
  | S n => x mod 256 :: le_bytes n (x / 256)
  end.

Fixpoint le_val (bs : bytes) : Z :=
  match bs with
  | [] => 0
  | b :: t => b + 256 * le_val t
  end.

Definition be_bytes (n : nat) (x : Z) : bytes := rev (le_bytes n x).
Definition be_val (bs : bytes) : Z := le_val (rev bs).

Lemma length_le_bytes n x : length (le_bytes n x) = n.
Proof. revert x; induction n; intros; simpl; auto. Qed.

Lemma length_be_bytes n x : length (be_bytes n x) = n.
Proof. unfold be_bytes. by rewrite length_rev, length_le_bytes. Qed.
#[export] Hint Rewrite length_le_bytes length_be_bytes length_zeros : len.

Lemma le_bytes_ok n x : bytes_ok (le_bytes n x).
Proof.
  revert x; induction n; intros; simpl; constructor; auto.
  apply Z.mod_pos_bound; lia.
Qed.

Lemma be_bytes_ok n x : bytes_ok (be_bytes n x).
Proof. unfold be_bytes. apply Forall_rev, le_bytes_ok. Qed.
#[export] Hint Resolve le_bytes_ok be_bytes_ok : invfs.

Lemma le_val_bytes n x : le_val (le_bytes n x) = x mod 256 ^ Z.of_nat n.
Proof.
  revert x; induction n as [|n IH]; intros x.
  - simpl. by rewrite Z.mod_1_r.
  - cbn [le_bytes le_val]. rewrite IH, Nat2Z.inj_succ, Z.pow_succ_r by lia.
    rewrite Z.rem_mul_r by lia. done.
Qed.

Lemma le_val_bytes_small n x :
  0 <= x < 256 ^ Z.of_nat n -> le_val (le_bytes n x) = x.
Proof. intros. rewrite le_val_bytes. by apply Z.mod_small. Qed.

Lemma be_val_bytes_small n x :
  0 <= x < 256 ^ Z.of_nat n -> be_val (be_bytes n x) = x.
Proof.
  intros. unfold be_val, be_bytes. rewrite rev_involutive.
  by apply le_val_bytes_small.
Qed.

Lemma le_val_range bs : bytes_ok bs -> 0 <= le_val bs < 256 ^ zlen bs.
Proof.
  induction 1 as [|b t Hb _ IH]; [simpl; lia|].
  cbn [le_val length]. rewrite Nat2Z.inj_succ, Z.pow_succ_r by lia.
  unfold is_byte in Hb. nia.
Qed.

Lemma be_val_range bs : bytes_ok bs -> 0 <= be_val bs < 256 ^ zlen bs.
Proof.
  intros. unfold be_val. rewrite <- (length_rev bs).
  by apply le_val_range, Forall_rev.
Qed.

Lemma le_bytes_val bs : bytes_ok bs -> le_bytes (length bs) (le_val bs) = bs.
Proof.
  induction 1 as [|b t Hb _ IH]; [done|].
  cbn [le_val le_bytes length]. unfold is_byte in Hb.
  rewrite (Z.mul_comm 256), Z.mod_add, Z.div_add by lia.
  rewrite Z.mod_small, Z.div_small by lia. by rewrite Z.add_0_l, IH.
Qed.

(** ** State and failure

    An engine call takes the volume by reference, may fail, and keeps the
    mutations it made before failing: the monad threads the state through
    both outcomes. *)

Definition M (S A : Type) : Type := S -> option A * S.

Section monad.
Context {S : Type}.

Definition mret {A} (a : A) : M S A := fun s => (Some a, s).
Definition mfail {A} : M S A := fun s => (None, s).
Definition mbind' {A B} (m : M S A) (k : A -> M S B) : M S B :=
  fun s => match m s with
           | (Some a, s') => k a s'
           | (None, s') => (None, s')
           end.
Definition mget : M S S := fun s => (Some s, s).
Definition mmod (f : S -> S) : M S unit := fun s => (Some tt, f s).
Definition mguard (b : bool) : M S unit := if b then mret tt else mfail.

(** Run [m] and report whether it succeeded; never fails itself. *)
Definition mtry {A} (m : M S A) : M S (option A) :=
  fun s => let '(r, s') := m s in (Some r, s').

Lemma mbind_Some {A B} (m : M S A) (k : A -> M S B) s b s2 :
  mbind' m k s = (Some b, s2) <->
  exists a s1, m s = (Some a, s1) /\ k a s1 = (Some b, s2).
Proof.
  unfold mbind'. destruct (m s) as [[a|] s1]; split; [eauto| |done|].
  - intros (? & ? & ? & ?); by simplify_eq.
  - by intros (? & ? & ? & ?).
Qed.

Lemma mguard_Some (b : bool) s u s2 :
  mguard b s = (Some u, s2) <-> b = true /\ s2 = s.
Proof.
  destruct b, u; unfold mguard, mret, mfail; split; try done;
    [intros [= ->]; done | by intros [_ ->] | by intros [? _]].
Qed.
End monad.

(** Did the call succeed? *)
Definition is_ok {A} (r : option A) : bool :=
  match r with Some _ => true | None => false end.

(** Case analysis on the first step of a run. *)
Lemma mbind_run {S A B} (m : M S A) (k : A -> M S B) s r s2 :
  mbind' m k s = (r, s2) ->
  (exists a s1, m s = (Some a, s1) /\ k a s1 = (r, s2)) \/
  (m s = (None, s2) /\ r = None).
Proof.
  unfold mbind'. destruct (m s) as [[a|] s1]; intros H; [left; eauto|].
  simplify_eq. by right.
Qed.

Lemma mbind_eq {S A B} (m : M S A) (k : A -> M S B) s a s1 :
  m s = (Some a, s1) -> mbind' m k s = k a s1.
Proof. unfold mbind'. by intros ->. Qed.

Declare Scope invfs_scope.
Delimit Scope invfs_scope with invfs.
Notation "'let*' x ':=' m 'in' k" := (mbind' m (fun x => k))
  (at level 10, x pattern, m at level 200, k at level 200)
  : invfs_scope.
Notation "m ;;; k" := (mbind' m (fun _ => k))
  (at level 100, right associativity) : invfs_scope.
#[global] Open Scope invfs_scope.

(** Split a successful run into the successful runs of its parts. *)
Ltac minv1 H :=
  lazymatch type of H with
  | mbind' _ _ _ = (Some _, _) =>
      let a := fresh "r" in let s := fresh "s" in
      let H1 := fresh "Hrun" in
      apply mbind_Some in H as (a & s & H1 & H); minv1 H1; minv1 H
  | mguard _ _ = (Some _, _) => apply mguard_Some in H as [H ->]
  | mret _ _ = (Some _, _) => unfold mret in H; simplify_eq
  | mget _ = (Some _, _) => unfold mget in H; simplify_eq
  | mmod _ _ = (Some _, _) => unfold mmod in H; simplify_eq
  | mfail _ = (Some _, _) => discriminate H
  | _ => idtac
  end.
Ltac minv H := minv1 H; simpl in *.

(** ** Boolean tests *)

Ltac zbool :=
  repeat match goal with
  | H : (_ <? _) = true |- _ => apply Z.ltb_lt in H
  | H : (_ <? _)%nat = true |- _ => apply Nat.ltb_lt in H
  | H : (_ <? _)%nat = false |- _ => apply Nat.ltb_ge in H
  | H : (_ <? _) = false |- _ => apply Z.ltb_ge in H
  | H : (_ <=? _) = true |- _ => apply Z.leb_le in H
  | H : (_ <=? _) = false |- _ => apply Z.leb_gt in H
  | H : (_ =? _) = true |- _ => apply Z.eqb_eq in H
  | H : (_ =? _) = false |- _ => apply Z.eqb_neq in H
  | H : (_ && _)%bool = true |- _ => apply andb_prop in H as [? ?]
  | H : (_ || _)%bool = false |- _ => apply orb_false_elim in H as [? ?]
  | H : negb _ = true |- _ => apply negb_true_iff in H
  | H : negb _ = false |- _ => apply negb_false_iff in H
  end.

(** ** Numbers in environment variables *)

Definition is_space (b : Z) : bool := (b =? 32) || ((9 <=? b) && (b <=? 13)).
Fixpoint skip_space (l : bytes) : bytes :=
  match l with
  | b :: t => if is_space b then skip_space t else l
  | [] => []
  end.
(** Decimal digits: their value, the rest, and whether there was one. *)
Fixpoint digits (acc : Z) (seen : bool) (l : bytes) : Z * bytes * bool :=
  match l with
  | b :: t => if (48 <=? b) && (b <=? 57) then digits (acc * 10 + (b - 48)) true t else (acc, l, seen)
  | [] => (acc, [], seen)
  end.
(** C's [strtoull(s, &end, 10)]; the flag is [end != s]. *)
Definition strtoull (s : bytes) : Z * bytes * bool :=
  let l := skip_space s in
  let '(neg, l) := match l with
                   | 43 :: t => (false, t)
                   | 45 :: t => (true, t)
                   | _ => (false, l)
                   end in
  let '(n, rest, seen) := digits 0 false l in
  if negb seen then (0, s, false)
  else if 2 ^ 64 <=? n then (2 ^ 64 - 1, rest, true)
  else (if neg then u64 (- n) else n, rest, true).
