(* ===== verification/Crc32c.v ===== *)
(** * CRC32C (src/src/core/crc32c.c)

    The table construction, the slice-by-8 software path, the SSE4.2 path
    over the processor's two CRC instructions, and the dispatch between them.
    The reference is the bit-serial CRC with the reflected Castagnoli
    polynomial; both paths are shown equal to it at every length and buffer
    alignment, and incremental updates compose. *)

From S2P Require Import Prelude.
From Stdlib Require Import Btauto.

Module Crc32c.

(** ** Tables: [crc32c_init] *)

(** One bit of the reflected division.
    Source: core/crc32c.c:50-50 [crc32c_init] *)
Definition crc_bit (c : Z) : Z :=
  if Z.testbit c 0 then Z.lxor 0x82F63B78 (Z.shiftr c 1) else Z.shiftr c 1.

(** [crc32c_table[i]].
    Source: core/crc32c.c:47-52 [crc32c_init] *)
Definition crc32c_table : list Z :=
  map (fun i => Nat.iter 8 crc_bit i) (seqZ 0 256).

(** Row [k] of [crc32c_table8]: row 0 is the byte table, each later row
    folds one more zero byte into the previous one.
    Source: core/crc32c.c:55-69 [crc32c_init] *)
Fixpoint crc32c_row (k : nat) : list Z :=
  match k with
  | O => crc32c_table
  | S k => map (fun c => Z.lxor (nthZ crc32c_table (Z.land c 0xFF))
                                (Z.shiftr c 8)) (crc32c_row k)
  end.

(** Source: core/crc32c.c:43-71 [crc32c_init] *)
Definition crc32c_table8 : list (list Z) := map crc32c_row (seq 0 8).

Definition table8 (k : nat) (i : Z) : Z := nthZ (nth k crc32c_table8 []) i.

(** ** The slice-by-8 path: [crc32c_slice8] *)

(** [c = (c >> 8) ^ crc32c_table[(c ^ *p++) & 0xFF]].
    Source: core/crc32c.c:129-129 [crc32c_slice8] *)
Definition crc_byte (c b : Z) : Z :=
  Z.lxor (Z.shiftr c 8) (nthZ crc32c_table (Z.land (Z.lxor c b) 0xFF)).

(** One pass of the eight-byte loop over the two little-endian words.
    Source: core/crc32c.c:136-144 [crc32c_slice8] *)
Definition slice8_step (c lo hi : Z) : Z :=
  let lo := Z.lxor lo c in
  Z.lxor (Z.lxor (Z.lxor (Z.lxor (Z.lxor (Z.lxor (Z.lxor
    (table8 7 (Z.land lo 0xFF))
    (table8 6 (Z.land (Z.shiftr lo 8) 0xFF)))
    (table8 5 (Z.land (Z.shiftr lo 16) 0xFF)))
    (table8 4 (Z.land (Z.shiftr lo 24) 0xFF)))
    (table8 3 (Z.land hi 0xFF)))
    (table8 2 (Z.land (Z.shiftr hi 8) 0xFF)))
    (table8 1 (Z.land (Z.shiftr hi 16) 0xFF)))
    (table8 0 (Z.land (Z.shiftr hi 24) 0xFF)).

(** [~c] on a 32-bit register. *)
Definition not32 (c : Z) : Z := Z.lxor c 0xFFFFFFFF.

(** [while (len && ((uintptr_t)p & 7))]: the bytes before the first
    eight-byte boundary; [addr] is the address of [p].
    Source: core/crc32c.c:128-131 [crc32c_slice8] *)
Fixpoint align_prologue (step : Z -> Z -> Z) (c addr : Z) (p : bytes)
  : Z * bytes :=
  match p with
  | [] => (c, [])
  | b :: p' => if Z.land addr 7 =? 0 then (c, p)
               else align_prologue step (step c b) (addr + 1) p'
  end.

(** [while (len >= 8)], then the byte tail.
    Source: core/crc32c.c:132-149 [crc32c_slice8] *)
Fixpoint words_then_tail (word : Z -> bytes -> Z) (step : Z -> Z -> Z)
    (c : Z) (p : bytes) : Z :=
  match p with
  | b0 :: b1 :: b2 :: b3 :: b4 :: b5 :: b6 :: b7 :: p' =>
      words_then_tail word step (word c [b0; b1; b2; b3; b4; b5; b6; b7]) p'
  | _ => fold_left step p c
  end.

(** Source: core/crc32c.c:133-144 [crc32c_slice8] *)
Definition slice8_word (c : Z) (w : bytes) : Z :=
  slice8_step c (le_val (take 4 w)) (le_val (drop 4 w)).

(** Source: core/crc32c.c:124-151 [crc32c_slice8] *)
Definition crc32c_slice8 (crc addr : Z) (p : bytes) : Z :=
  let '(c, p) := align_prologue crc_byte (not32 crc) addr p in
  not32 (words_then_tail slice8_word crc_byte c p).

(** ** The SSE4.2 path: [crc32c_hw]

    [mm_crc32_u8] and [mm_crc32_u64] are the processor's instructions. *)
Section hw.
Context (mm_crc32_u8 : Z -> Z -> Z) (mm_crc32_u64 : Z -> Z -> Z).

(** Source: core/crc32c.c:111-113 [crc32c_hw] *)
Definition hw_word (c : Z) (w : bytes) : Z := mm_crc32_u64 c (le_val w).

(** Source: core/crc32c.c:99-121 [crc32c_hw] *)
Definition crc32c_hw (crc addr : Z) (p : bytes) : Z :=
  let '(c, p) := align_prologue mm_crc32_u8 (not32 crc) addr p in
  not32 (words_then_tail hw_word mm_crc32_u8 c p).

(** [invfs_crc32c_update] on x86: the instruction path unless the probe
    found no SSE4.2 or the fallback is pinned.
    Source: core/crc32c.c:212-223 [invfs_crc32c_update] *)
Definition invfs_crc32c_update_x86 (have_sse42 pinned : bool)
    (crc addr : Z) (p : bytes) : Z :=
  if have_sse42 && negb pinned then crc32c_hw crc addr p
  else crc32c_slice8 crc addr p.
End hw.

(** The software build of the two entry points, buffers eight-byte aligned;
    the engine's files checksum through these.
    Source: core/crc32c.c:212-223 [invfs_crc32c_update] *)
Definition invfs_crc32c_update (crc : Z) (p : bytes) : Z :=
  crc32c_slice8 crc 0 p.
(** Source: core/crc32c.c:199-210 [invfs_crc32c] *)
Definition invfs_crc32c (p : bytes) : Z := invfs_crc32c_update 0 p.

(** [invfs_crc32c_slice8_table]: 0 outside the table.
    Source: core/crc32c.c:190-197 [invfs_crc32c_slice8_table] *)
Definition invfs_crc32c_slice8_table (k i : Z) : Z :=
  if (8 <=? k) || (256 <=? i) then 0 else table8 (Z.to_nat k) i.

(** ** Reference: bit-serial CRC *)

Definition crc_ref_byte (c b : Z) : Z := Nat.iter 8 crc_bit (Z.lxor c b).
Definition crc_ref (crc : Z) (p : bytes) : Z :=
  not32 (fold_left crc_ref_byte p (not32 crc)).

Example crc32c_check :
  invfs_crc32c [0x31;0x32;0x33;0x34;0x35;0x36;0x37;0x38;0x39] = 0xE3069283.
Proof. vm_compute. reflexivity. Qed.

(** ** Linearity of the bit-serial step *)

Ltac zxor :=
  apply Z.bits_inj'; intros ? ?;
  rewrite ?Z.lxor_spec, ?Z.bits_0; btauto.

Definition adv (c : Z) : Z := Nat.iter 8 crc_bit c.

Lemma crc_bit_lxor a b : crc_bit (Z.lxor a b) = Z.lxor (crc_bit a) (crc_bit b).
Proof.
  unfold crc_bit. rewrite Z.lxor_spec, Z.shiftr_lxor.
  destruct (Z.testbit a 0), (Z.testbit b 0); cbn [xorb]; zxor.
Qed.

Lemma iter_crc_bit_lxor n a b :
  Nat.iter n crc_bit (Z.lxor a b) =
  Z.lxor (Nat.iter n crc_bit a) (Nat.iter n crc_bit b).
Proof. induction n as [|n IH]; [done|]. by rewrite !Nat.iter_succ, IH, crc_bit_lxor. Qed.

Lemma adv_lxor a b : adv (Z.lxor a b) = Z.lxor (adv a) (adv b).
Proof. apply iter_crc_bit_lxor. Qed.

Lemma iter_adv_lxor n a b :
  Nat.iter n adv (Z.lxor a b) = Z.lxor (Nat.iter n adv a) (Nat.iter n adv b).
Proof. induction n as [|n IH]; [done|]. by rewrite !Nat.iter_succ, IH, adv_lxor. Qed.

(** Shifting in eight zero bits undoes a shift by eight. *)
Lemma iter_crc_bit_shiftl n x : Nat.iter n crc_bit (Z.shiftl x (Z.of_nat n)) = x.
Proof.
  revert x. induction n as [|n IH]; intros x; [by rewrite Z.shiftl_0_r|].
  rewrite Nat.iter_succ_r. rewrite <- (IH x) at 2. f_equal.
  unfold crc_bit. rewrite Z.shiftl_spec_low by lia.
  rewrite Nat2Z.inj_succ, Z.shiftr_shiftl_l by lia. f_equal; lia.
Qed.

Lemma adv_shiftl x : adv (Z.shiftl x 8) = x.
Proof. apply (iter_crc_bit_shiftl 8). Qed.

Lemma low_byte_split x :
  x = Z.lxor (Z.shiftl (Z.shiftr x 8) 8) (Z.land x 0xFF).
Proof.
  apply Z.bits_inj'; intros n Hn. change 0xFF with (Z.ones 8).
  rewrite Z.lxor_spec, Z.land_spec, Z.testbit_ones_nonneg by lia.
  destruct (Z.ltb_spec n 8).
  - rewrite Z.shiftl_spec_low by lia. by rewrite andb_true_r, xorb_false_l.
  - rewrite Z.shiftl_spec, Z.shiftr_spec by lia.
    rewrite andb_false_r, xorb_false_r. f_equal; lia.
Qed.

Lemma adv_split x : adv x = Z.lxor (Z.shiftr x 8) (adv (Z.land x 0xFF)).
Proof. rewrite (low_byte_split x) at 1. by rewrite adv_lxor, adv_shiftl. Qed.

Lemma land_255_range x : 0 <= Z.land x 0xFF < 256.
Proof. change 0xFF with (Z.ones 8). rewrite Z.land_ones by lia. apply Z.mod_pos_bound; lia. Qed.

Lemma nthZ_map_seqZ (f : Z -> Z) n i :
  0 <= i < n -> nthZ (map f (seqZ 0 n)) i = f i.
Proof.
  intros Hi. unfold nthZ.
  assert (H : map f (seqZ 0 n) !! Z.to_nat i = Some (f i)).
  { change (map f) with (fmap (M:=list) f). rewrite list_lookup_fmap.
    rewrite lookup_seqZ_lt by lia. cbn. do 2 f_equal. lia. }
  by apply (nth_lookup_Some _ _ 0) in H.
Qed.

Lemma nthZ_map (f : Z -> Z) l i :
  0 <= i < zlen l -> nthZ (map f l) i = f (nthZ l i).
Proof.
  intros. unfold nthZ.
  rewrite (nth_indep _ 0 (f 0)) by (rewrite length_map; lia). apply map_nth.
Qed.

Lemma table_lookup i : 0 <= i < 256 -> nthZ crc32c_table i = adv i.
Proof. apply (nthZ_map_seqZ (fun i => Nat.iter 8 crc_bit i)). Qed.

Lemma adv_table c : Z.lxor (nthZ crc32c_table (Z.land c 0xFF)) (Z.shiftr c 8) = adv c.
Proof.
  rewrite table_lookup by apply land_255_range.
  by rewrite Z.lxor_comm, <- adv_split.
Qed.

Lemma shiftr_byte_xor c b : is_byte b -> Z.shiftr (Z.lxor c b) 8 = Z.shiftr c 8.
Proof.
  intros Hb. rewrite Z.shiftr_lxor.
  replace (Z.shiftr b 8) with 0; [apply Z.lxor_0_r|].
  rewrite Z.shiftr_div_pow2 by lia. unfold is_byte in Hb.
  by rewrite Z.div_small by lia.
Qed.

Lemma crc_byte_ref c b : is_byte b -> crc_byte c b = crc_ref_byte c b.
Proof.
  intros Hb. unfold crc_byte, crc_ref_byte. fold (adv (Z.lxor c b)).
  rewrite adv_split, (shiftr_byte_xor c b Hb).
  by rewrite table_lookup by apply land_255_range.
Qed.

Lemma length_row k : length (crc32c_row k) = 256%nat.
Proof.
  induction k as [|k IH]; cbn [crc32c_row]; [|by rewrite length_map].
  unfold crc32c_table. by rewrite length_map, length_seqZ.
Qed.

Lemma row_lookup k i :
  0 <= i < 256 -> nthZ (crc32c_row k) i = Nat.iter (S k) adv i.
Proof.
  intros Hi. induction k as [|k IH]; [by apply table_lookup|].
  cbn [crc32c_row]. rewrite nthZ_map by (rewrite length_row; lia).
  rewrite IH, adv_table. symmetry. apply Nat.iter_succ.
Qed.

Lemma table8_lookup k i :
  (k < 8)%nat -> 0 <= i < 256 -> table8 k i = Nat.iter (S k) adv i.
Proof.
  intros Hk Hi. unfold table8, crc32c_table8.
  rewrite (nth_indep _ [] (crc32c_row 0)) by (rewrite length_map, length_seq; lia).
  rewrite map_nth, seq_nth by lia. by apply row_lookup.
Qed.

(** ** The eight-byte step *)

(** Peel the low byte of a register off [n + 1] advances. *)
Lemma iter_adv_peel n x :
  Nat.iter (S n) adv x =
  Z.lxor (Nat.iter (S n) adv (Z.land x 0xFF)) (Nat.iter n adv (Z.shiftr x 8)).
Proof.
  rewrite (Nat.iter_succ_r n _ adv x), adv_split, iter_adv_lxor.
  rewrite Z.lxor_comm. f_equal. symmetry. apply Nat.iter_succ_r.
Qed.

Lemma le_val4 b0 b1 b2 b3 :
  is_byte b0 -> is_byte b1 -> is_byte b2 -> is_byte b3 ->
  let w := le_val [b0; b1; b2; b3] in
  Z.land w 0xFF = b0 /\ Z.land (Z.shiftr w 8) 0xFF = b1 /\
  Z.land (Z.shiftr w 16) 0xFF = b2 /\ Z.land (Z.shiftr w 24) 0xFF = b3 /\
  0 <= w < 2 ^ 32.
Proof.
  unfold is_byte. intros ? ? ? ?. cbn [le_val].
  change 0xFF with (Z.ones 8). rewrite !Z.land_ones, !Z.shiftr_div_pow2 by lia.
  change (2 ^ 8) with 256. change (2 ^ 16) with 65536.
  change (2 ^ 24) with 16777216. change (2 ^ 32) with 4294967296.
  repeat split; Z.div_mod_to_equations; lia.
Qed.

Lemma shiftr_shiftr8 x n :
  0 <= n -> Z.shiftr (Z.shiftr x n) 8 = Z.shiftr x (n + 8).
Proof. intros. by rewrite Z.shiftr_shiftr by lia. Qed.

Lemma shiftr32_small x : 0 <= x < 2 ^ 32 -> Z.shiftr x 32 = 0.
Proof. intros. rewrite Z.shiftr_div_pow2 by lia. by apply Z.div_small. Qed.

Lemma lxor_range32 a b :
  0 <= a < 2 ^ 32 -> 0 <= b < 2 ^ 32 -> 0 <= Z.lxor a b < 2 ^ 32.
Proof.
  intros Ha Hb.
  assert (Hn : 0 <= Z.lxor a b) by (apply Z.lxor_nonneg; lia).
  split; [done|].
  destruct (Z.eq_dec (Z.lxor a b) 0) as [->|Hz]; [lia|].
  apply Z.log2_lt_pow2; [lia|].
  eapply Z.le_lt_trans; [apply Z.log2_lxor; lia|].
  apply Z.max_lub_lt.
  - destruct (Z.eq_dec a 0) as [->|]; [cbn; lia|]. apply Z.log2_lt_pow2; lia.
  - destruct (Z.eq_dec b 0) as [->|]; [cbn; lia|]. apply Z.log2_lt_pow2; lia.
Qed.

(** Four advances consume a 32-bit register byte by byte. *)
Lemma iter_adv_word n x :
  0 <= x < 2 ^ 32 ->
  Nat.iter (4 + n) adv x =
  Z.lxor (Z.lxor (Z.lxor (Nat.iter (4 + n) adv (Z.land x 0xFF))
    (Nat.iter (3 + n) adv (Z.land (Z.shiftr x 8) 0xFF)))
    (Nat.iter (2 + n) adv (Z.land (Z.shiftr x 16) 0xFF)))
    (Nat.iter (1 + n) adv (Z.land (Z.shiftr x 24) 0xFF)).
Proof.
  intros Hx. cbn [Nat.add].
  rewrite (iter_adv_peel _ x), (iter_adv_peel _ (Z.shiftr x 8)),
    (shiftr_shiftr8 x 8), (iter_adv_peel _ (Z.shiftr x 16)),
    (shiftr_shiftr8 x 16), (iter_adv_peel _ (Z.shiftr x 24)),
    (shiftr_shiftr8 x 24) by lia.
  change (24 + 8) with 32.
  rewrite (shiftr32_small x Hx).
  replace (Nat.iter n adv 0) with 0.
  2: { clear. induction n as [|n IH]; [done|]. by rewrite Nat.iter_succ, <- IH. }
  zxor.
Qed.

Lemma iter_adv_unroll c b n :
  Nat.iter n adv (crc_ref_byte c b) = Nat.iter (S n) adv (Z.lxor c b).
Proof. rewrite Nat.iter_succ_r. reflexivity. Qed.

Lemma crc_ref_byte_lxor c b : crc_ref_byte c b = adv (Z.lxor c b).
Proof. reflexivity. Qed.

Lemma slice8_word_ref c w :
  0 <= c < 2 ^ 32 -> bytes_ok w -> length w = 8%nat ->
  slice8_word c w = fold_left crc_ref_byte w c.
Proof.
  intros Hc Hw Hlen.
  destruct w as [|b0 [|b1 [|b2 [|b3 [|b4 [|b5 [|b6 [|b7 [|]]]]]]]]]; try discriminate.
  rewrite !Forall_cons_iff in Hw. destruct Hw as (?&?&?&?&?&?&?&?&_).
  unfold slice8_word. cbn [take drop].
  destruct (le_val4 b0 b1 b2 b3) as (A0&A1&A2&A3&Ar); try done.
  destruct (le_val4 b4 b5 b6 b7) as (B0&B1&B2&B3&_); try done.
  set (lo := le_val [b0; b1; b2; b3]) in *.
  set (hi := le_val [b4; b5; b6; b7]) in *.
  unfold slice8_step. rewrite B0, B1, B2, B3.
  pose proof (lxor_range32 lo c Ar Hc) as Hr.
  rewrite !table8_lookup by (try lia; first [apply land_255_range | done]).
  pose proof (iter_adv_word 4 _ Hr) as E. cbn [Nat.add] in E. rewrite <- E.
  rewrite iter_adv_lxor.
  pose proof (iter_adv_word 4 _ Ar) as E'. cbn [Nat.add] in E'.
  rewrite E', A0, A1, A2, A3.
  cbn [fold_left]. rewrite !crc_ref_byte_lxor, !adv_lxor.
  rewrite !Nat.iter_succ. cbn [Nat.iter nat_rect]. zxor.
Qed.

(** ** Loops *)

Lemma crc_bit_range c : 0 <= c < 2 ^ 32 -> 0 <= crc_bit c < 2 ^ 32.
Proof.
  intros. assert (0 <= Z.shiftr c 1 < 2 ^ 32).
  { rewrite Z.shiftr_div_pow2 by lia. change (2 ^ 1) with 2.
    Z.div_mod_to_equations; lia. }
  unfold crc_bit. destruct (Z.testbit c 0); [|done].
  apply lxor_range32; lia.
Qed.

Lemma iter_crc_bit_range n x :
  0 <= x < 2 ^ 32 -> 0 <= Nat.iter n crc_bit x < 2 ^ 32.
Proof.
  induction n as [|n IH]; intros; [done|].
  rewrite Nat.iter_succ. by apply crc_bit_range, IH.
Qed.

Lemma crc_ref_byte_range c b :
  0 <= c < 2 ^ 32 -> is_byte b -> 0 <= crc_ref_byte c b < 2 ^ 32.
Proof.
  intros Hc Hb. apply iter_crc_bit_range, lxor_range32; unfold is_byte in *; lia.
Qed.

Lemma crc_ref_range p c :
  0 <= c < 2 ^ 32 -> bytes_ok p -> 0 <= fold_left crc_ref_byte p c < 2 ^ 32.
Proof.
  intros Hc Hp. revert c Hc. induction Hp as [|b p Hb _ IH]; intros c Hc; [done|].
  by apply IH, crc_ref_byte_range.
Qed.

(** A pair of byte and word steps that agree with the reference. *)
Section loops.
Context (step : Z -> Z -> Z) (word : Z -> bytes -> Z).
Hypothesis step_ref :
  forall c b, 0 <= c < 2 ^ 32 -> is_byte b -> step c b = crc_ref_byte c b.
Hypothesis word_ref :
  forall c w, 0 <= c < 2 ^ 32 -> bytes_ok w -> length w = 8%nat ->
  word c w = fold_left crc_ref_byte w c.

Lemma fold_step_ref p c :
  0 <= c < 2 ^ 32 -> bytes_ok p -> fold_left step p c = fold_left crc_ref_byte p c.
Proof using step_ref.
  intros Hc Hp. revert c Hc. induction Hp as [|b p Hb _ IH]; intros; cbn; [done|].
  rewrite step_ref by done. apply IH, crc_ref_byte_range; done.
Qed.

Lemma align_prologue_ref p c addr c' p' :
  0 <= c < 2 ^ 32 -> bytes_ok p ->
  align_prologue step c addr p = (c', p') ->
  fold_left crc_ref_byte p c = fold_left crc_ref_byte p' c' /\
  0 <= c' < 2 ^ 32 /\ bytes_ok p'.
Proof using step_ref.
  intros Hc Hp. revert c addr Hc.
  induction Hp as [|b p Hb Hp IH]; intros c addr Hc; cbn.
  - intros [= <- <-]. auto.
  - destruct (_ =? 0).
    + intros [= <- <-]. auto.
    + rewrite step_ref by done. intros. apply IH in H; [done|].
      by apply crc_ref_byte_range.
Qed.

Lemma words_then_tail_ref p c :
  0 <= c < 2 ^ 32 -> bytes_ok p ->
  words_then_tail word step c p = fold_left crc_ref_byte p c.
Proof using step_ref word_ref.
  remember (length p) as n eqn:Hn. revert p c Hn.
  induction n as [n IH] using lt_wf_ind; intros p c -> Hc Hp.
  destruct p as [|b0 [|b1 [|b2 [|b3 [|b4 [|b5 [|b6 [|b7 p]]]]]]]];
    try (cbn [words_then_tail]; by rewrite fold_step_ref).
  change (b0 :: b1 :: b2 :: b3 :: b4 :: b5 :: b6 :: b7 :: p)
    with ([b0; b1; b2; b3; b4; b5; b6; b7] ++ p) in *.
  apply Forall_app in Hp as [Hw Hp]. rewrite fold_left_app.
  cbn [words_then_tail app]. rewrite word_ref by done.
  apply IH with (m := length p); [cbn; lia|done| |done].
  by apply crc_ref_range.
Qed.

Lemma loops_ref crc addr p :
  0 <= crc < 2 ^ 32 -> bytes_ok p ->
  (let '(c, p) := align_prologue step (not32 crc) addr p in
   not32 (words_then_tail word step c p)) = crc_ref crc p.
Proof using step_ref word_ref.
  intros Hc Hp. destruct (align_prologue _ _ _ _) as [c' p'] eqn:E.
  apply align_prologue_ref in E as (E & Hc' & Hp'); [|by apply lxor_range32; lia|done].
  unfold crc_ref. by rewrite E, words_then_tail_ref.
Qed.
End loops.

(** ** Results *)

Lemma slice8_ref crc addr p :
  0 <= crc < 2 ^ 32 -> bytes_ok p -> crc32c_slice8 crc addr p = crc_ref crc p.
Proof.
  intros. apply loops_ref; auto using slice8_word_ref.
  intros. by apply crc_byte_ref.
Qed.

(** C38: the slice-by-8 software path computes the bit-serial CRC32C of the
    buffer, whatever the buffer's alignment and length. *)
Theorem crc32c_slice8_correct crc addr p :
  0 <= crc < 2 ^ 32 -> bytes_ok p -> crc32c_slice8 crc addr p = crc_ref crc p.
Proof. apply slice8_ref. Qed.

Lemma crc32c_slice8_correct_witness :
  crc32c_slice8 0 3 (seqZ 0 40) = crc_ref 0 (seqZ 0 40).
Proof.
  apply crc32c_slice8_correct; [lia|].
  by apply bytes_okb_ok.
Defined.

(** On x86 the checksum does not depend on which path runs.  Given the
    two CRC instructions' documented effect (one byte step, and eight byte
    steps over the little-endian operand), [invfs_crc32c_update] returns the
    same value with and without SSE4.2, with and without the pin, at any
    buffer address. *)
Theorem crc32c_dispatch_agrees mm_crc32_u8 mm_crc32_u64
    (intel_u8 : forall c b, 0 <= c < 2 ^ 32 -> is_byte b ->
       mm_crc32_u8 c b = crc_ref_byte c b)
    (intel_u64 : forall c v, 0 <= c < 2 ^ 32 -> 0 <= v < 2 ^ 64 ->
       mm_crc32_u64 c v = fold_left crc_ref_byte (le_bytes 8 v) c)
    have_sse42 pinned crc addr p :
  0 <= crc < 2 ^ 32 -> bytes_ok p ->
  invfs_crc32c_update_x86 mm_crc32_u8 mm_crc32_u64 have_sse42 pinned crc addr p =
  invfs_crc32c_update crc p.
Proof.
  intros. unfold invfs_crc32c_update_x86, invfs_crc32c_update.
  rewrite !slice8_ref by done. destruct (_ && _); [|done].
  apply loops_ref; auto. intros c w Hc Hw Hl. unfold hw_word.
  rewrite intel_u64; [|done|].
  - by rewrite <- Hl, le_bytes_val.
  - pose proof (le_val_range w Hw) as Hr. rewrite Hl in Hr. done.
Qed.

Lemma crc32c_dispatch_agrees_witness :
  invfs_crc32c_update_x86 crc_ref_byte
    (fun c v => fold_left crc_ref_byte (le_bytes 8 v) c)
    true false 5 1 (seqZ 0 20) = invfs_crc32c_update 5 (seqZ 0 20).
Proof.
  apply (crc32c_dispatch_agrees crc_ref_byte
           (fun c v => fold_left crc_ref_byte (le_bytes 8 v) c)); [done|done|lia|].
  by apply bytes_okb_ok.
Defined.

Lemma not32_range c : 0 <= c < 2 ^ 32 -> 0 <= not32 c < 2 ^ 32.
Proof. intros. apply lxor_range32; lia. Qed.

Lemma not32_involutive c : not32 (not32 c) = c.
Proof. unfold not32. rewrite Z.lxor_assoc, Z.lxor_nilpotent. apply Z.lxor_0_r. Qed.

Lemma crc_ref_app crc a b : crc_ref crc (a ++ b) = crc_ref (crc_ref crc a) b.
Proof. unfold crc_ref. by rewrite not32_involutive, fold_left_app. Qed.

Lemma crc_range p : bytes_ok p -> 0 <= invfs_crc32c p < 2 ^ 32.
Proof.
  intros. unfold invfs_crc32c, invfs_crc32c_update. rewrite slice8_ref by (try done; lia).
  apply not32_range, crc_ref_range; [apply not32_range; lia|done].
Qed.
#[export] Hint Resolve crc_range : invfs.

Lemma update_app a b :
  bytes_ok a -> bytes_ok b ->
  invfs_crc32c_update (invfs_crc32c a) b = invfs_crc32c (a ++ b).
Proof.
  intros. pose proof (crc_range a). unfold invfs_crc32c, invfs_crc32c_update in *.
  rewrite !slice8_ref; auto; try lia; [|by apply Forall_app].
  by rewrite crc_ref_app.
Qed.

End Crc32c.
