(* ===== verification/Blkio.v ===== *)
(** * Backing store (src/src/core/blkio.c)

    One [blkio] handle over a file or a device: the byte-granular transfers,
    the read-modify-write path for stores that only take aligned transfers,
    and [blkio_flush] with its group-commit watermarks and deferred-commit
    policy, as one thread runs it (GroupCommit.v interleaves several).

    The kernel side of the descriptor is a byte memory, the contents as of
    the last completed [fsync], and a plan of outcomes for the coming system
    calls, so that short transfers and errors are quantified over.  Offsets
    are below 2^63 and counters below 2^64 throughout. *)

From S2P Require Import Prelude.

Module Blkio.

(** ** Byte memories *)

Abbreviation mem := (gmap Z Z).
Definition byte_at (m : mem) (a : Z) : Z := default 0 (m !! a).
Definition mem_read (m : mem) (off n : Z) : bytes :=
  map (byte_at m) (seqZ off n).
Fixpoint mem_write (m : mem) (off : Z) (bs : bytes) : mem :=
  match bs with
  | [] => m
  | b :: t => mem_write (<[off := b]> m) (off + 1) t
  end.

(** ** The descriptor *)

(** What the next system call does: everything asked, at most [n] bytes, or
    an error. *)
Inductive outcome := Full | Short (n : Z) | Err.

Record kfile := KFile {
  k_mem : mem;              (* contents, as a read sees them *)
  k_stable : mem;           (* contents at the last completed fsync *)
  k_size : Z;
  k_plan : list outcome;
  k_now : Z                 (* CLOCK_MONOTONIC, in ms *)
}.

Definition next_outcome (k : kfile) : outcome * kfile :=
  match k_plan k with
  | [] => (Full, k)
  | o :: t => (o, KFile (k_mem k) (k_stable k) (k_size k) t (k_now k))
  end.

Definition granted (o : outcome) (n : Z) : Z :=
  match o with Full => n | Short m => Z.min m n | Err => -1 end.

(** [pread(2)]: the bytes moved, [None] for an error or the end of file. *)
Definition sys_pread (off n : Z) (k : kfile) : option bytes * kfile :=
  let '(o, k) := next_outcome k in
  let got := Z.min (granted o n) (k_size k - off) in
  if got <=? 0 then (None, k) else (Some (mem_read (k_mem k) off got), k).

(** [pwrite(2)]: how many bytes of the buffer were taken. *)
Definition sys_pwrite (off : Z) (buf : bytes) (k : kfile)
  : option Z * kfile :=
  let '(o, k) := next_outcome k in
  let n := granted o (zlen buf) in
  if n <=? 0 then (None, k)
  else (Some n,
        KFile (mem_write (k_mem k) off (take (Z.to_nat n) buf))
              (k_stable k) (Z.max (k_size k) (off + n)) (k_plan k) (k_now k)).

(** [fsync(2)] *)
Definition sys_fsync (k : kfile) : bool * kfile :=
  let '(o, k) := next_outcome k in
  match o with
  | Err => (false, k)
  | _ => (true, KFile (k_mem k) (k_mem k) (k_size k) (k_plan k) (k_now k))
  end.

(** ** The handle *)

(** Source: core/blkio.h:70-157 [blkio] *)
Record blkio := mkBlkio {
  io_k : kfile;
  io_fd_ok : bool;          (* fd >= 0 *)
  io_pos : Z;
  io_cap : Z;
  io_is_dev : bool;
  io_aligned : bool;
  io_bounce : mem;
  n_read : Z; n_write : Z; b_read : Z; b_write : Z;
  write_gen : Z;
  flushed_gen : Z;
  commit_bytes : Z; commit_ms : Z; idle_ms : Z;
  dirty_bytes : Z;
  last_write_ms : Z;
  force_flush : bool
}.

Definition set_io_k x io := mkBlkio x (io_fd_ok io) (io_pos io) (io_cap io)
  (io_is_dev io) (io_aligned io) (io_bounce io) (n_read io) (n_write io)
  (b_read io) (b_write io) (write_gen io) (flushed_gen io) (commit_bytes io)
  (commit_ms io) (idle_ms io) (dirty_bytes io) (last_write_ms io)
  (force_flush io).
Definition set_io_fd_ok x io := mkBlkio (io_k io) x (io_pos io) (io_cap io)
  (io_is_dev io) (io_aligned io) (io_bounce io) (n_read io) (n_write io)
  (b_read io) (b_write io) (write_gen io) (flushed_gen io) (commit_bytes io)
  (commit_ms io) (idle_ms io) (dirty_bytes io) (last_write_ms io)
  (force_flush io).
Definition set_io_pos x io := mkBlkio (io_k io) (io_fd_ok io) x (io_cap io)
  (io_is_dev io) (io_aligned io) (io_bounce io) (n_read io) (n_write io)
  (b_read io) (b_write io) (write_gen io) (flushed_gen io) (commit_bytes io)
  (commit_ms io) (idle_ms io) (dirty_bytes io) (last_write_ms io)
  (force_flush io).
Definition set_io_cap x io := mkBlkio (io_k io) (io_fd_ok io) (io_pos io) x
  (io_is_dev io) (io_aligned io) (io_bounce io) (n_read io) (n_write io)
  (b_read io) (b_write io) (write_gen io) (flushed_gen io) (commit_bytes io)
  (commit_ms io) (idle_ms io) (dirty_bytes io) (last_write_ms io)
  (force_flush io).
Definition set_io_is_dev x io := mkBlkio (io_k io) (io_fd_ok io) (io_pos io)
  (io_cap io) x (io_aligned io) (io_bounce io) (n_read io) (n_write io)
  (b_read io) (b_write io) (write_gen io) (flushed_gen io) (commit_bytes io)
  (commit_ms io) (idle_ms io) (dirty_bytes io) (last_write_ms io)
  (force_flush io).
Definition set_io_aligned x io := mkBlkio (io_k io) (io_fd_ok io) (io_pos
  io) (io_cap io) (io_is_dev io) x (io_bounce io) (n_read io) (n_write io)
  (b_read io) (b_write io) (write_gen io) (flushed_gen io) (commit_bytes io)
  (commit_ms io) (idle_ms io) (dirty_bytes io) (last_write_ms io)
  (force_flush io).
Definition set_io_bounce x io := mkBlkio (io_k io) (io_fd_ok io) (io_pos io)
  (io_cap io) (io_is_dev io) (io_aligned io) x (n_read io) (n_write io)
  (b_read io) (b_write io) (write_gen io) (flushed_gen io) (commit_bytes io)
  (commit_ms io) (idle_ms io) (dirty_bytes io) (last_write_ms io)
  (force_flush io).
Definition set_n_read x io := mkBlkio (io_k io) (io_fd_ok io) (io_pos io)
  (io_cap io) (io_is_dev io) (io_aligned io) (io_bounce io) x (n_write io)
  (b_read io) (b_write io) (write_gen io) (flushed_gen io) (commit_bytes io)
  (commit_ms io) (idle_ms io) (dirty_bytes io) (last_write_ms io)
  (force_flush io).
Definition set_n_write x io := mkBlkio (io_k io) (io_fd_ok io) (io_pos io)
  (io_cap io) (io_is_dev io) (io_aligned io) (io_bounce io) (n_read io) x
  (b_read io) (b_write io) (write_gen io) (flushed_gen io) (commit_bytes io)
  (commit_ms io) (idle_ms io) (dirty_bytes io) (last_write_ms io)
  (force_flush io).
Definition set_b_read x io := mkBlkio (io_k io) (io_fd_ok io) (io_pos io)
  (io_cap io) (io_is_dev io) (io_aligned io) (io_bounce io) (n_read io)
  (n_write io) x (b_write io) (write_gen io) (flushed_gen io) (commit_bytes
  io) (commit_ms io) (idle_ms io) (dirty_bytes io) (last_write_ms io)
  (force_flush io).
Definition set_b_write x io := mkBlkio (io_k io) (io_fd_ok io) (io_pos io)
  (io_cap io) (io_is_dev io) (io_aligned io) (io_bounce io) (n_read io)
  (n_write io) (b_read io) x (write_gen io) (flushed_gen io) (commit_bytes
  io) (commit_ms io) (idle_ms io) (dirty_bytes io) (last_write_ms io)
  (force_flush io).
Definition set_write_gen x io := mkBlkio (io_k io) (io_fd_ok io) (io_pos io)
  (io_cap io) (io_is_dev io) (io_aligned io) (io_bounce io) (n_read io)
  (n_write io) (b_read io) (b_write io) x (flushed_gen io) (commit_bytes io)
  (commit_ms io) (idle_ms io) (dirty_bytes io) (last_write_ms io)
  (force_flush io).
Definition set_flushed_gen x io := mkBlkio (io_k io) (io_fd_ok io) (io_pos
  io) (io_cap io) (io_is_dev io) (io_aligned io) (io_bounce io) (n_read io)
  (n_write io) (b_read io) (b_write io) (write_gen io) x (commit_bytes io)
  (commit_ms io) (idle_ms io) (dirty_bytes io) (last_write_ms io)
  (force_flush io).
Definition set_commit_bytes x io := mkBlkio (io_k io) (io_fd_ok io) (io_pos
  io) (io_cap io) (io_is_dev io) (io_aligned io) (io_bounce io) (n_read io)
  (n_write io) (b_read io) (b_write io) (write_gen io) (flushed_gen io) x
  (commit_ms io) (idle_ms io) (dirty_bytes io) (last_write_ms io)
  (force_flush io).
Definition set_commit_ms x io := mkBlkio (io_k io) (io_fd_ok io) (io_pos io)
  (io_cap io) (io_is_dev io) (io_aligned io) (io_bounce io) (n_read io)
  (n_write io) (b_read io) (b_write io) (write_gen io) (flushed_gen io)
  (commit_bytes io) x (idle_ms io) (dirty_bytes io) (last_write_ms io)
  (force_flush io).
Definition set_idle_ms x io := mkBlkio (io_k io) (io_fd_ok io) (io_pos io)
  (io_cap io) (io_is_dev io) (io_aligned io) (io_bounce io) (n_read io)
  (n_write io) (b_read io) (b_write io) (write_gen io) (flushed_gen io)
  (commit_bytes io) (commit_ms io) x (dirty_bytes io) (last_write_ms io)
  (force_flush io).
Definition set_dirty_bytes x io := mkBlkio (io_k io) (io_fd_ok io) (io_pos
  io) (io_cap io) (io_is_dev io) (io_aligned io) (io_bounce io) (n_read io)
  (n_write io) (b_read io) (b_write io) (write_gen io) (flushed_gen io)
  (commit_bytes io) (commit_ms io) (idle_ms io) x (last_write_ms io)
  (force_flush io).
Definition set_last_write_ms x io := mkBlkio (io_k io) (io_fd_ok io) (io_pos
  io) (io_cap io) (io_is_dev io) (io_aligned io) (io_bounce io) (n_read io)
  (n_write io) (b_read io) (b_write io) (write_gen io) (flushed_gen io)
  (commit_bytes io) (commit_ms io) (idle_ms io) (dirty_bytes io) x
  (force_flush io).
Definition set_force_flush x io := mkBlkio (io_k io) (io_fd_ok io) (io_pos
  io) (io_cap io) (io_is_dev io) (io_aligned io) (io_bounce io) (n_read io)
  (n_write io) (b_read io) (b_write io) (write_gen io) (flushed_gen io)
  (commit_bytes io) (commit_ms io) (idle_ms io) (dirty_bytes io)
  (last_write_ms io) x.

Definition BLKIO_ALIGN : Z := 4096.
Definition BLKIO_BOUNCE : Z := 1024 * 1024.

(** ** Raw transfers *)

(** The loop over short transfers; the bytes that did arrive are reported on
    failure too, since they are in the caller's buffer. *)
Fixpoint raw_pread_loop (fuel : nat) (off len : Z) (acc : bytes) (k : kfile)
  : bool * bytes * kfile :=
  if len <=? zlen acc then (true, acc, k) else
  match fuel with
  | O => (false, acc, k)
  | S fuel =>
      match sys_pread (off + zlen acc) (len - zlen acc) k with
      | (None, k) => (false, acc, k)
      | (Some bs, k) => raw_pread_loop fuel off len (acc ++ bs) k
      end
  end.

(** Source: core/blkio.c [raw_pread] *)
Definition raw_pread (off len : Z) (io : blkio) : bool * bytes * blkio :=
  let io := set_n_read (n_read io + 1) io in
  let io := set_b_read (b_read io + len) io in
  let '(ok, bs, k) := raw_pread_loop (Z.to_nat len) off len [] (io_k io) in
  (ok, bs, set_io_k k io).

Fixpoint raw_pwrite_loop (fuel : nat) (off : Z) (buf : bytes) (k : kfile)
  : bool * kfile :=
  match buf with
  | [] => (true, k)
  | _ =>
      match fuel with
      | O => (false, k)
      | S fuel =>
          match sys_pwrite off buf k with
          | (None, k) => (false, k)
          | (Some n, k) =>
              raw_pwrite_loop fuel (off + n) (drop (Z.to_nat n) buf) k
          end
      end
  end.

(** Source: core/blkio.c [raw_pwrite] *)
Definition raw_pwrite (off : Z) (buf : bytes) : M blkio unit := fun io =>
  let io := set_n_write (n_write io + 1) io in
  let io := set_b_write (b_write io + zlen buf) io in
  let '(ok, k) := raw_pwrite_loop (length buf) off buf (io_k io) in
  ((if ok then Some tt else None), set_io_k k io).

(** ** Aligned stores *)

Definition align_down (x : Z) : Z := Z.land x (Z.lnot (BLKIO_ALIGN - 1)).
Definition align_up (x : Z) : Z := align_down (x + BLKIO_ALIGN - 1).

(** [raw_pread(io, off, io->bounce + at, len)] *)
Definition bounce_fill (off at_ len : Z) : M blkio unit := fun io =>
  let '(ok, bs, io) := raw_pread off len io in
  ((if ok then Some tt else None),
   set_io_bounce (mem_write (io_bounce io) at_ bs) io).

(** Source: core/blkio.c [dev_pread] *)
Fixpoint dev_pread (fuel : nat) (off len : Z) (out : bytes)
  : M blkio bytes :=
  if len =? 0 then mret out else
  match fuel with
  | O => mfail
  | S fuel =>
      let base := align_down off in
      let skip := off - base in
      let want := Z.min len (BLKIO_BOUNCE - skip) in
      let span := align_up (skip + want) in
      let* io := mget in
      let* span :=
        (if io_cap io <? base + span then
           mguard (base <? io_cap io) ;;;
           let span := io_cap io - base in
           mguard (negb (span <? skip + want)) ;;;
           mret span
         else mret span) in
      bounce_fill base 0 span ;;;
      let* io := mget in
      dev_pread fuel (off + want) (len - want)
        (out ++ mem_read (io_bounce io) skip want)
  end.

(** The blocks of the span that the payload does not cover are read back.
    Source: core/blkio.c:565-586 [dev_pwrite] *)
Definition dev_read_back (base skip span tail : Z) : M blkio unit :=
  if negb (skip =? 0) && negb (tail =? 0) && (span =? 2 * BLKIO_ALIGN) then
    bounce_fill base 0 span
  else
    (if negb (skip =? 0) then bounce_fill base 0 BLKIO_ALIGN else mret tt) ;;;
    (if negb (tail =? 0) then
       let last := span - BLKIO_ALIGN in
       if negb (negb (skip =? 0) && (last =? 0)) then
         bounce_fill (base + last) last BLKIO_ALIGN
       else mret tt
     else mret tt).

(** Source: core/blkio.c [dev_pwrite] *)
Fixpoint dev_pwrite (fuel : nat) (off : Z) (in_ : bytes) : M blkio unit :=
  if zlen in_ =? 0 then mret tt else
  match fuel with
  | O => mfail
  | S fuel =>
      let base := align_down off in
      let skip := off - base in
      let want := Z.min (zlen in_) (BLKIO_BOUNCE - skip) in
      let span := align_up (skip + want) in
      let* io := mget in
      mguard (negb (io_cap io <? base + span)) ;;;
      let tail := Z.land (skip + want) (BLKIO_ALIGN - 1) in
      dev_read_back base skip span tail ;;;
      mmod (fun io => set_io_bounce
        (mem_write (io_bounce io) skip (take (Z.to_nat want) in_)) io) ;;;
      let* io := mget in
      raw_pwrite base (mem_read (io_bounce io) 0 span) ;;;
      dev_pwrite fuel (off + want) (drop (Z.to_nat want) in_)
  end.

(** ** Public transfers *)

(** Source: core/blkio.c [blkio_pread] *)
Definition blkio_pread (off len : Z) : M blkio bytes := fun io =>
  if len =? 0 then (Some [], io)
  else if io_aligned io then dev_pread (Z.to_nat len) off len [] io
  else let '(ok, bs, io) := raw_pread off len io in
       ((if ok then Some bs else None), io).

(** Source: core/blkio.c [blkio_pwrite] *)
Definition blkio_pwrite (off : Z) (buf : bytes) : M blkio unit := fun io =>
  let io := set_dirty_bytes (dirty_bytes io + zlen buf) io in
  let io := set_last_write_ms (k_now (io_k io)) io in
  if zlen buf =? 0 then (Some tt, io) else
  let '(rc, io) := (if io_aligned io then dev_pwrite (length buf) off buf io
                    else raw_pwrite off buf io) in
  (rc, set_write_gen (write_gen io + 1) io).

(** Source: core/blkio.c [blkio_seek] *)
Definition blkio_seek (off : Z) : M blkio unit :=
  mmod (set_io_pos off).

(** Source: core/blkio.c [blkio_read] *)
Definition blkio_read (len : Z) : M blkio bytes :=
  let* io := mget in
  let* bs := blkio_pread (io_pos io) len in
  mmod (fun io => set_io_pos (io_pos io + len) io) ;;; mret bs.

(** Source: core/blkio.c [blkio_write] *)
Definition blkio_write (buf : bytes) : M blkio unit :=
  let* io := mget in
  blkio_pwrite (io_pos io) buf ;;;
  mmod (fun io => set_io_pos (io_pos io + zlen buf) io).

(** [ftruncate]: bytes past the new end are gone.
    Source: core/blkio.c [blkio_chsize] *)
Definition blkio_chsize (size : Z) (ftruncate_ok : bool) : M blkio unit :=
  let* io := mget in
  if io_is_dev io then mguard (size <=? io_cap io)
  else
    mguard ftruncate_ok ;;;
    mmod (fun io =>
      let k := io_k io in
      let m := filter (fun ab => fst ab < size) (k_mem k) in
      let io := set_io_k (KFile m (k_stable k) size (k_plan k)
                                (k_now k)) io in
      let io := set_io_cap size io in
      let io := if io_aligned io
                then set_io_cap (io_cap io - io_cap io mod BLKIO_ALIGN) io
                else io in
      set_write_gen (write_gen io + 1) io).

(** ** Commit policy and flush *)

(** Source: core/blkio.c [blkio_set_commit] *)
Definition blkio_set_commit (bytes ms idle : Z) (io : blkio) : blkio :=
  let io := set_commit_bytes bytes io in
  let io := set_commit_ms ms io in
  let io := set_idle_ms idle io in
  let io := set_dirty_bytes 0 io in
  set_last_write_ms (k_now (io_k io)) io.

(** Source: core/blkio.c [blkio_force_flush] *)
Definition blkio_force_flush (io : blkio) : blkio := set_force_flush true io.

(** Suffix of a size in the environment: bare numbers are MiB. *)
Inductive size_suffix := SufK | SufM | SufG | SufNone.

Definition INVFS_MIN_COMMIT_BYTES : Z := 4096.

(** Source: core/blkio.c [pf_parse_bytes] *)
Definition pf_parse_bytes (v : option (Z * size_suffix)) : Z :=
  match v with
  | None => 0                  (* absent, empty or no digits *)
  | Some (n, suf) =>
      let n := u64 (match suf with
                    | SufK => n * 1024
                    | SufM => n * (1024 * 1024)
                    | SufG => n * (1024 * 1024 * 1024)
                    | SufNone => n * (1024 * 1024)
                    end) in
      if negb (n =? 0) && (n <? INVFS_MIN_COMMIT_BYTES) then 0 else n
  end.

(** The environment variables that steer the policy. *)
Record commit_env := {
  env_strict : bool;
  env_none : bool;
  env_bytes : option (Z * size_suffix);
  env_ms : option Z;
  env_idle_ms : option Z
}.

(** Source: core/blkio.c [blkio_apply_env_policy] *)
Definition blkio_apply_env_policy (e : commit_env) (io : blkio) : blkio :=
  if env_strict e then blkio_set_commit 0 0 0 io
  else if env_none e then
    blkio_set_commit (u64 (-1)) (u64 (-1)) (u64 (-1)) io
  else
    let b := pf_parse_bytes (env_bytes e) in
    let t := default 0 (env_ms e) in
    let d := default 0 (env_idle_ms e) in
    if negb (b =? 0) || negb (t =? 0) || negb (d =? 0)
    then blkio_set_commit b t d io else io.

(** Source: core/blkio.c [pf_should_flush] *)
Definition pf_should_flush (io : blkio) : bool :=
  if force_flush io then true
  else if (commit_bytes io =? 0) && (commit_ms io =? 0) && (idle_ms io =? 0)
  then true
  else
    let now := k_now (io_k io) in
    let last := last_write_ms io in
    if negb (commit_bytes io =? 0) && (commit_bytes io <=? dirty_bytes io)
    then true
    else if negb (commit_ms io =? 0) && (commit_ms io <=? u64 (now - last))
    then true
    else negb (idle_ms io =? 0) && (idle_ms io <=? u64 (now - last)).

(** Source: core/blkio.c [blkio_flush_raw] *)
Definition blkio_flush_raw : M blkio unit := fun io =>
  if io_fd_ok io then
    let '(ok, k) := sys_fsync (io_k io) in
    ((if ok then Some tt else None), set_io_k k io)
  else (None, io).           (* fsync(-1): EBADF *)

(** [blkio_flush] with no other flusher running.
    Source: core/blkio.c [blkio_flush] *)
Definition blkio_flush : M blkio unit := fun io =>
  let my_gen := write_gen io in
  let fd_ok := io_fd_ok io in
  if negb (pf_should_flush io) then
    (Some tt, set_last_write_ms (k_now (io_k io)) io)
  else if fd_ok && (my_gen <=? flushed_gen io) then (Some tt, io)
  else
    let cover := write_gen io in
    let '(rc, io) := blkio_flush_raw io in
    let io := match rc with
              | Some _ => if flushed_gen io <? cover
                          then set_flushed_gen cover io else io
              | None => io
              end in
    let io := set_dirty_bytes 0 io in
    let io := set_last_write_ms (k_now (io_k io)) io in
    (rc, set_force_flush false io).

(** ** Memories *)

Lemma mem_write_app m off a b :
  mem_write m off (a ++ b) = mem_write (mem_write m off a) (off + zlen a) b.
Proof.
  revert m off; induction a as [|x a IH]; intros m off; simpl.
  - f_equal; lia.
  - rewrite IH. f_equal; lia.
Qed.

Lemma byte_at_insert m a b x : byte_at (<[a := b]> m) x =
  if decide (x = a) then b else byte_at m x.
Proof. unfold byte_at. rewrite lookup_insert. by repeat case_decide; subst. Qed.

Lemma byte_at_write_out m off bs a :
  ~ (off <= a < off + zlen bs) ->
  byte_at (mem_write m off bs) a = byte_at m a.
Proof.
  revert m off; induction bs as [|b bs IH]; intros m off Ha; [done|].
  cbn [mem_write length] in *. rewrite IH by lia.
  rewrite byte_at_insert, decide_False by lia. done.
Qed.

Lemma byte_at_write_in m off bs a :
  off <= a < off + zlen bs ->
  byte_at (mem_write m off bs) a = nthZ bs (a - off).
Proof.
  revert m off; induction bs as [|b bs IH]; intros m off Ha;
    cbn [mem_write length] in *; [lia|].
  destruct (decide (a = off)) as [->|Hne].
  - rewrite byte_at_write_out by lia.
    rewrite byte_at_insert, decide_True by done.
    unfold nthZ. by rewrite Z.sub_diag.
  - rewrite IH by lia. unfold nthZ.
    replace (Z.to_nat (a - off)) with (S (Z.to_nat (a - (off + 1)))) by lia.
    done.
Qed.

Lemma length_mem_read m off n : length (mem_read m off n) = Z.to_nat n.
Proof. unfold mem_read. by rewrite length_map, length_seqZ. Qed.
#[export] Hint Rewrite length_mem_read : len.

Lemma mem_read_app m off a b :
  0 <= a -> 0 <= b ->
  mem_read m off (a + b) = mem_read m off a ++ mem_read m (off + a) b.
Proof. intros. unfold mem_read. by rewrite seqZ_app, map_app by lia. Qed.

Lemma nthZ_mem_read m off n i :
  0 <= i < n -> nthZ (mem_read m off n) i = byte_at m (off + i).
Proof.
  intros. unfold nthZ. apply nth_lookup_Some. unfold mem_read.
  rewrite list_lookup_fmap, lookup_seqZ_lt by lia. simpl. f_equal. f_equal. lia.
Qed.

Lemma mem_read_ext m1 m2 o1 o2 n :
  (forall i, 0 <= i < n -> byte_at m1 (o1 + i) = byte_at m2 (o2 + i)) ->
  mem_read m1 o1 n = mem_read m2 o2 n.
Proof.
  intros H. unfold mem_read. apply list_eq. intros j.
  rewrite !list_lookup_fmap.
  destruct (decide (Z.of_nat j < n)).
  - rewrite !lookup_seqZ_lt by lia. simpl. f_equal. apply H. lia.
  - by rewrite !lookup_seqZ_ge by lia.
Qed.

(** Reading back what was written. *)
Lemma mem_read_write m off bs : mem_read (mem_write m off bs) off (zlen bs) = bs.
Proof.
  apply nth_ext with 0 0.
  - rewrite length_mem_read. lia.
  - rewrite length_mem_read. intros j Hj.
    pose proof (nthZ_mem_read (mem_write m off bs) off (zlen bs) (Z.of_nat j))
      as E. unfold nthZ in E. rewrite Nat2Z.id in E. rewrite E by lia.
    rewrite byte_at_write_in by lia. unfold nthZ. f_equal. lia.
Qed.

(** Reading away from what was written. *)
Lemma mem_read_write_out m off bs off' n :
  off' + n <= off \/ off + zlen bs <= off' ->
  mem_read (mem_write m off bs) off' n = mem_read m off' n.
Proof.
  intros. apply mem_read_ext. intros. by rewrite byte_at_write_out by lia.
Qed.

(** ** Raw transfers *)

(** Two kernel sides that differ only in the plan. *)
Definition k_same (k k' : kfile) : Prop :=
  k_mem k' = k_mem k /\ k_stable k' = k_stable k /\ k_size k' = k_size k /\
  k_now k' = k_now k.

Lemma k_same_refl k : k_same k k.
Proof. done. Qed.
Lemma k_same_trans k1 k2 k3 : k_same k1 k2 -> k_same k2 k3 -> k_same k1 k3.
Proof. unfold k_same. intuition congruence. Qed.
#[local] Hint Resolve k_same_refl : invfs.

Lemma next_outcome_same k o k' : next_outcome k = (o, k') -> k_same k k'.
Proof. unfold next_outcome. destruct (k_plan k); intros; by simplify_eq. Qed.

Lemma sys_pread_spec off n k r k' :
  sys_pread off n k = (r, k') ->
  k_same k k' /\
  (forall bs, r = Some bs -> exists got, 0 < got <= n /\
     bs = mem_read (k_mem k) off got).
Proof.
  unfold sys_pread. destruct (next_outcome k) as [o k1] eqn:Ho. intros H.
  apply next_outcome_same in Ho as Hs.
  destruct (_ <=? 0) eqn:Hc; simplify_eq; split; auto; intros; simplify_eq.
  zbool. eexists. split; [|by rewrite (proj1 Hs)].
  destruct o; simpl in *; lia.
Qed.

Lemma raw_pread_loop_spec fuel off len acc k ok bs k' n0 :
  0 <= n0 <= len -> acc = mem_read (k_mem k) off n0 ->
  raw_pread_loop fuel off len acc k = (ok, bs, k') ->
  k_same k k' /\ (ok = true -> bs = mem_read (k_mem k) off len).
Proof.
  revert k acc n0. induction fuel as [|fuel IH]; intros k acc n0 Hn Hacc H;
    simpl in H; destruct (_ <=? _) eqn:Hle; simplify_eq; zbool;
    autorewrite with len in *.
  - split; [done|]. intros _. f_equal. lia.
  - split; [done|]. done.
  - split; [done|]. intros _. f_equal. lia.
  - destruct (sys_pread _ _ k) as [[b|] k1] eqn:Hs.
    + apply sys_pread_spec in Hs as [Hk Hb].
      destruct (Hb _ eq_refl) as (got & Hg & ->).
      autorewrite with len in *. rewrite Z2Nat.id in * by lia.
      eapply (IH k1 _ (n0 + got)) in H as [Hk' Hok]; [| lia |].
      * rewrite (proj1 Hk) in Hok. eauto using k_same_trans.
      * rewrite (proj1 Hk). by rewrite mem_read_app by lia.
    + simplify_eq. apply sys_pread_spec in Hs as [Hk _]. done.
Qed.

(** Everything a transfer leaves alone: all of the handle but the kernel
    side, the bounce buffer and the statistics. *)
Definition io_hdr (io : blkio) :=
  (io_fd_ok io, io_pos io, io_cap io, io_is_dev io, io_aligned io,
   write_gen io, flushed_gen io, commit_bytes io, commit_ms io, idle_ms io,
   dirty_bytes io, last_write_ms io, force_flush io).

(** A transfer that only read. *)
Definition io_same (io io' : blkio) : Prop :=
  io_hdr io' = io_hdr io /\ k_same (io_k io) (io_k io').

Lemma io_same_refl io : io_same io io.
Proof. split; auto with invfs. Qed.
Lemma io_same_trans a b c : io_same a b -> io_same b c -> io_same a c.
Proof. intros [? ?] [? ?]. split; [congruence|eauto using k_same_trans]. Qed.
#[local] Hint Resolve io_same_refl : invfs.

Lemma io_same_mem io io' : io_same io io' -> k_mem (io_k io') = k_mem (io_k io).
Proof. by intros (_ & ? & _). Qed.

Lemma raw_pread_spec off len io ok bs io' :
  0 <= len -> raw_pread off len io = (ok, bs, io') ->
  io_same io io' /\ io_bounce io' = io_bounce io /\
  (ok = true -> bs = mem_read (k_mem (io_k io)) off len).
Proof.
  intros Hlen. unfold raw_pread.
  destruct (raw_pread_loop _ _ _ _ _) as [[ok1 b1] k1] eqn:Hl. intros.
  simplify_eq. apply (raw_pread_loop_spec _ _ _ _ _ _ _ _ 0) in Hl as [Hk Hok];
    [|lia|done]. done.
Qed.

Lemma raw_pwrite_loop_spec fuel off buf k ok k' :
  raw_pwrite_loop fuel off buf k = (ok, k') ->
  (exists n, 0 <= n <= zlen buf /\ (ok = true -> n = zlen buf) /\
     k_mem k' = mem_write (k_mem k) off (take (Z.to_nat n) buf)) /\
  k_stable k' = k_stable k /\ k_now k' = k_now k /\ k_size k <= k_size k'.
Proof.
  revert off buf k. induction fuel as [|fuel IH]; intros off buf k H; simpl in H.
  - destruct buf; simplify_eq; (split; [exists 0|]); simpl; repeat split; try lia;
      try done.
  - destruct buf as [|b buf']; simplify_eq.
    { split; [exists 0|]; simpl; repeat split; try lia; done. }
    remember (b :: buf') as buf. clear Heqbuf.
    unfold sys_pwrite in H. destruct (next_outcome k) as [o k1] eqn:Ho.
    apply next_outcome_same in Ho as (Hm & Hs & Hz & Hn).
    destruct (_ <=? 0) eqn:Hc; simplify_eq; zbool.
    { split; [exists 0|split; [done|split; [done|lia]]].
      simpl. split; [lia|]. split; [done|]. by rewrite Hm. }
    set (g := granted o (zlen buf)) in *.
    assert (Hg : 0 < g <= zlen buf) by (destruct o; simpl in *; lia).
    apply IH in H as ((n & Hn1 & Hok & Hmem) & Hst & Hnow & Hsz); simpl in *.
    rewrite length_drop in *. split; [|repeat split; [congruence..|lia]].
    exists (g + n). split; [lia|]. split; [intros; specialize (Hok H); lia|].
    rewrite Hmem, Hm. rewrite Z2Nat.inj_add by lia.
    rewrite <- (take_drop (Z.to_nat g) buf) at 3.
    rewrite take_app_add', mem_write_app by (rewrite length_take; lia).
    f_equal. rewrite length_take. lia.
Qed.

(** [m'] is [m] with [buf] written at [off]; after a failed write only the
    bytes of the target range are in doubt. *)
Definition wrote (m m' : mem) (off : Z) (buf : bytes) (ok : bool) : Prop :=
  (forall a, ~ (off <= a < off + zlen buf) -> byte_at m' a = byte_at m a) /\
  (ok = true -> forall a, off <= a < off + zlen buf ->
     byte_at m' a = nthZ buf (a - off)).

Lemma wrote_mem_write m off buf ok : wrote m (mem_write m off buf) off buf ok.
Proof.
  split; intros; [by apply byte_at_write_out|by apply byte_at_write_in].
Qed.

(** A transfer that wrote. *)
Definition io_wrote (io io' : blkio) (off : Z) (buf : bytes) (ok : bool) :=
  io_hdr io' = io_hdr io /\
  wrote (k_mem (io_k io)) (k_mem (io_k io')) off buf ok /\
  k_stable (io_k io') = k_stable (io_k io) /\
  k_now (io_k io') = k_now (io_k io) /\
  k_size (io_k io) <= k_size (io_k io').

Lemma raw_pwrite_run off buf io r io' :
  raw_pwrite off buf io = (r, io') ->
  io_hdr io' = io_hdr io /\ io_bounce io' = io_bounce io /\
  (exists n, 0 <= n <= zlen buf /\ (is_ok r = true -> n = zlen buf) /\
     k_mem (io_k io') = mem_write (k_mem (io_k io)) off (take (Z.to_nat n) buf)) /\
  k_stable (io_k io') = k_stable (io_k io) /\
  k_now (io_k io') = k_now (io_k io) /\
  k_size (io_k io) <= k_size (io_k io').
Proof.
  unfold raw_pwrite. destruct (raw_pwrite_loop _ _ _ _) as [ok k1] eqn:Hl.
  intros. simplify_eq. apply raw_pwrite_loop_spec in Hl as (Hn & ? & ? & ?).
  simpl in *. repeat split; try done. destruct ok; done.
Qed.

Lemma raw_pwrite_spec off buf io r io' :
  raw_pwrite off buf io = (r, io') -> io_wrote io io' off buf (is_ok r).
Proof.
  intros H. apply raw_pwrite_run in H as (Hh & _ & (n & Hn & Hok & Hm) & ? & ? & ?).
  repeat split; try done; rewrite Hm.
  - intros a Ha. apply byte_at_write_out. rewrite length_take. lia.
  - intros Hr a Ha. rewrite (Hok Hr), Nat2Z.id, firstn_all.
    by apply byte_at_write_in.
Qed.

(** ** Aligned transfers *)

Lemma align_down_mod x : align_down x = x - x mod BLKIO_ALIGN.
Proof.
  unfold align_down. rewrite <- Z.ldiff_land.
  change (BLKIO_ALIGN - 1) with (Z.ones 12). change BLKIO_ALIGN with (2 ^ 12).
  rewrite Z.ldiff_ones_r by lia. rewrite Z.shiftl_mul_pow2, Z.shiftr_div_pow2 by lia.
  pose proof (Z.div_mod x (2 ^ 12)). lia.
Qed.

Lemma align_down_bounds x : 0 <= x ->
  0 <= align_down x <= x /\ x < align_down x + BLKIO_ALIGN /\
  align_down x mod BLKIO_ALIGN = 0.
Proof.
  intros. rewrite align_down_mod.
  pose proof (Z.mod_pos_bound x BLKIO_ALIGN ltac:(unfold BLKIO_ALIGN; lia)).
  pose proof (Z.mod_le x BLKIO_ALIGN ltac:(lia) ltac:(unfold BLKIO_ALIGN; lia)).
  repeat split; try lia. rewrite Zminus_mod_idemp_r. by rewrite Z.sub_diag.
Qed.

Lemma align_up_bounds x : 0 <= x ->
  x <= align_up x < x + BLKIO_ALIGN /\ align_up x mod BLKIO_ALIGN = 0.
Proof.
  intros. unfold align_up.
  pose proof (align_down_bounds (x + BLKIO_ALIGN - 1)) as (?&?&?);
    unfold BLKIO_ALIGN in *; lia.
Qed.

Lemma tail_mod x : Z.land x (BLKIO_ALIGN - 1) = x mod BLKIO_ALIGN.
Proof.
  change (BLKIO_ALIGN - 1) with (Z.ones 12). by rewrite Z.land_ones.
Qed.

Lemma bounce_fill_spec off at_ len io r io' :
  0 <= len -> bounce_fill off at_ len io = (r, io') ->
  io_same io io' /\
  (is_ok r = true ->
     forall i, byte_at (io_bounce io') i =
       if decide (at_ <= i < at_ + len)
       then byte_at (k_mem (io_k io)) (off + (i - at_))
       else byte_at (io_bounce io) i).
Proof.
  intros Hlen. unfold bounce_fill.
  destruct (raw_pread off len io) as [[ok bs] io1] eqn:Hr. intros. simplify_eq.
  apply raw_pread_spec in Hr as (Hs & Hb & Hok); [|done]. split; [done|].
  destruct ok; [|done]. intros _ i. rewrite Hok by done. simpl. rewrite Hb.
  case_decide.
  - rewrite byte_at_write_in by (autorewrite with len; lia).
    apply nthZ_mem_read. lia.
  - apply byte_at_write_out. autorewrite with len. lia.
Qed.

Lemma dev_pread_spec fuel off len out io r io' :
  0 <= off -> 0 <= len -> dev_pread fuel off len out io = (r, io') ->
  io_same io io' /\
  (forall bs, r = Some bs ->
     bs = out ++ mem_read (k_mem (io_k io)) off len).
Proof.
  revert off len out io. induction fuel as [|fuel IH]; intros off len out io Ho Hl H;
    cbn [dev_pread] in H; destruct (len =? 0) eqn:Hz; zbool;
    try (unfold mret, mfail in H; simplify_eq; split; auto with invfs; intros;
         simplify_eq; by rewrite app_nil_r).
  set (base := align_down off) in *. set (skip := off - base) in *.
  set (want := Z.min len (BLKIO_BOUNCE - skip)) in *.
  pose proof (align_down_bounds off Ho) as (Hb1 & Hb2 & Hb3).
  assert (Hw : 0 < want <= len) by (unfold BLKIO_ALIGN, BLKIO_BOUNCE in *; lia).
  pose proof (align_up_bounds (skip + want) ltac:(lia)) as [Hu _].
  set (span0 := align_up (skip + want)) in *. cbn [mbind' mget] in H.
  apply mbind_run in H as [(span & s1 & Hspan & H) | [Hspan ->]].
  2: { destruct (_ <? _) in Hspan; [|done].
       unfold mbind', mguard, mret, mfail in Hspan.
       repeat case_match; simplify_eq; split; auto with invfs; done. }
  assert (skip + want <= span /\ s1 = io) as [Hsp ->].
  { destruct (_ <? _) in Hspan; minv Hspan; zbool; simplify_eq;
      split; done || lia. }
  apply mbind_run in H as [([] & s2 & Hfill & H) | [Hfill ->]].
  2: { apply bounce_fill_spec in Hfill as [? _]; [|lia]. done. }
  apply bounce_fill_spec in Hfill as [Hs2 Hbn]; [|lia]. specialize (Hbn eq_refl).
  cbn [mbind' mget] in H.
  apply IH in H as [Hs3 Hout]; [| lia | lia].
  split; [eauto using io_same_trans|]. intros bs ->.
  rewrite (Hout _ eq_refl), <- app_assoc, (io_same_mem _ _ Hs2). f_equal.
  replace len with (want + (len - want)) at 2 by lia.
  rewrite mem_read_app by lia. f_equal. apply mem_read_ext. intros i Hi.
  rewrite Hbn, decide_True by lia. f_equal. lia.
Qed.

Lemma tail_span x : 0 <= x ->
  Z.land x (BLKIO_ALIGN - 1) = 0 -> align_up x = x.
Proof.
  intros Hx. rewrite tail_mod. intros Ht.
  pose proof (align_up_bounds x Hx) as [Hu Hm].
  assert (H : (align_up x - x) mod BLKIO_ALIGN = 0).
  { by rewrite Zminus_mod, Hm, Ht. }
  rewrite Z.mod_small in H; lia.
Qed.

(** A read-back that is done only when [b] holds. *)
Lemma fill_if_spec (b : bool) off at_ len io r io' :
  0 <= len ->
  (if b then bounce_fill off at_ len else mret tt) io = (r, io') ->
  io_same io io' /\
  (is_ok r = true ->
     forall i, byte_at (io_bounce io') i =
       if decide (b = true /\ at_ <= i < at_ + len)
       then byte_at (k_mem (io_k io)) (off + (i - at_))
       else byte_at (io_bounce io) i).
Proof.
  intros Hlen. destruct b.
  - intros H. apply bounce_fill_spec in H as [Hs Hb]; [|done]. split; [done|].
    intros Hr i. rewrite (Hb Hr). by repeat case_decide; try tauto.
  - intros H. unfold mret in H. simplify_eq. split; [apply io_same_refl|].
    intros _ i. rewrite decide_False; [done|]. by intros [? _].
Qed.

(** After the read-back the bounce buffer holds the store's bytes at every
    position of the span outside the payload. *)
Lemma dev_read_back_spec base skip want span tail io r io' :
  0 <= skip < BLKIO_ALIGN -> 0 < want ->
  skip + want <= span < skip + want + BLKIO_ALIGN ->
  (tail = 0 -> span = skip + want) ->
  dev_read_back base skip span tail io = (r, io') ->
  io_same io io' /\
  (is_ok r = true -> forall i, 0 <= i < span ->
     ~ (skip <= i < skip + want) ->
     byte_at (io_bounce io') i = byte_at (k_mem (io_k io)) (base + i)).
Proof.
  intros Hsk Hw Hu Ht. unfold dev_read_back.
  destruct (_ && (span =? _))%bool eqn:Hc.
  { intros H. apply bounce_fill_spec in H as [Hs Hb]; [|lia]. split; [done|].
    intros Hr i Hi _. rewrite (Hb Hr), decide_True by lia. f_equal. lia. }
  clear Hc. intros H.
  apply mbind_run in H as [([] & s1 & H1 & H2) | [H1 ->]];
    apply fill_if_spec in H1 as [Hs1 Hb1]; try lia; [|done].
  specialize (Hb1 eq_refl).
  assert (Hif : forall (b c : bool) (m n : M blkio unit),
            (if b then if c then m else n else n) = if b && c then m else n)
    by (intros [] []; done).
  rewrite Hif in H2. clear Hif.
  apply fill_if_spec in H2 as [Hs2 Hb2]; [|lia].
  split; [eauto using io_same_trans|]. intros Hr i Hi Hni.
  rewrite (Hb2 Hr), Hb1, (io_same_mem _ _ Hs1). clear Hb1 Hb2.
  repeat case_decide.
  1, 2: f_equal; lia.
  exfalso. destruct (skip =? 0) eqn:Es, (tail =? 0) eqn:Et,
    (span - BLKIO_ALIGN =? 0) eqn:El; simpl in *; zbool; lia.
Qed.

Lemma wrote_app m m1 m2 off a b ok :
  wrote m m1 off a true -> wrote m1 m2 (off + zlen a) b ok ->
  wrote m m2 off (a ++ b) ok.
Proof.
  intros [Ho1 Hi1] [Ho2 Hi2]. split.
  - intros x Hx. rewrite length_app in Hx. rewrite Ho2 by lia. apply Ho1. lia.
  - intros Hok x Hx. rewrite length_app in Hx. unfold nthZ in *.
    destruct (decide (x < off + zlen a)).
    + rewrite Ho2 by lia. rewrite Hi1 by (done || lia). by rewrite app_nth1 by lia.
    + rewrite (Hi2 Hok) by lia. rewrite app_nth2 by lia. f_equal. lia.
Qed.

Lemma wrote_app_fail m m1 m2 off a b :
  wrote m m1 off a true -> wrote m1 m2 (off + zlen a) b false ->
  wrote m m2 off (a ++ b) false.
Proof. apply wrote_app. Qed.

Lemma io_wrote_none io off buf : io_wrote io io off buf false.
Proof. repeat split; auto; lia. Qed.

Lemma io_wrote_same io io1 io' off buf ok :
  io_same io io1 -> io_wrote io1 io' off buf ok -> io_wrote io io' off buf ok.
Proof.
  intros (Hh & Hm & Hs & Hz & Hn) (Hh' & Hw & Hs' & Hn' & Hz').
  rewrite Hm in Hw. repeat split; try apply Hw; congruence || lia.
Qed.

(** One round of the aligned write: the bounce buffer written at the block
    boundary amounts to the payload written at its own offset. *)
Lemma dev_chunk_wrote base skip want pay span io io' r :
  0 <= skip -> zlen pay = want -> skip + want <= span ->
  (forall i, 0 <= i < span -> ~ (skip <= i < skip + want) ->
     byte_at (io_bounce io) i = byte_at (k_mem (io_k io)) (base + i)) ->
  let bn := mem_write (io_bounce io) skip pay in
  raw_pwrite base (mem_read bn 0 span) (set_io_bounce bn io) = (r, io') ->
  io_wrote io io' (base + skip) pay (is_ok r).
Proof.
  intros Hsk Hp Hsp Hb bn H.
  apply raw_pwrite_run in H as (Hh & _ & (n & Hn & Hok & Hm) & ? & ? & ?).
  simpl in *. autorewrite with len in *. rewrite Z2Nat.id in * by lia.
  assert (Hread : forall i, 0 <= i < n ->
            nthZ (take (Z.to_nat n) (mem_read bn 0 span)) i = byte_at bn i).
  { intros i Hi. unfold nthZ. rewrite nth_firstn.
    destruct (_ <? _)%nat eqn:E; [|apply Nat.ltb_ge in E; lia].
    pose proof (nthZ_mem_read bn 0 span i ltac:(lia)) as E'. exact E'. }
  repeat split; try done; rewrite Hm.
  - intros a Ha. destruct (decide (base <= a < base + n)).
    + rewrite byte_at_write_in by (rewrite length_take; autorewrite with len; lia).
      rewrite Hread by lia. unfold bn. rewrite byte_at_write_out by lia.
      rewrite Hb by lia. f_equal. lia.
    + apply byte_at_write_out. rewrite length_take. autorewrite with len. lia.
  - intros Hr a Ha. specialize (Hok Hr).
    rewrite byte_at_write_in by (rewrite length_take; autorewrite with len; lia).
    rewrite Hread by lia. unfold bn. rewrite byte_at_write_in by lia. f_equal. lia.
Qed.

Lemma dev_pwrite_spec fuel off buf io r io' :
  0 <= off -> dev_pwrite fuel off buf io = (r, io') ->
  io_wrote io io' off buf (is_ok r).
Proof.
  revert off buf io. induction fuel as [|fuel IH]; intros off buf io Ho H;
    cbn [dev_pwrite] in H; destruct (_ =? 0) eqn:Hz in H; zbool;
    try (unfold mret, mfail in H; simplify_eq;
         repeat split; auto; simpl; done || lia).
  set (base := align_down off) in *. set (skip := off - base) in *.
  set (want := Z.min (zlen buf) (BLKIO_BOUNCE - skip)) in *.
  pose proof (align_down_bounds off Ho) as (Hb1 & Hb2 & Hb3).
  assert (Hw : 0 < want <= zlen buf)
    by (unfold BLKIO_ALIGN, BLKIO_BOUNCE in *; lia).
  pose proof (align_up_bounds (skip + want) ltac:(lia)) as [Hu _].
  cbn [mbind' mget] in H.
  apply mbind_run in H as [([] & s1 & Hg & H) | [Hg ->]].
  2: { unfold mguard, mret, mfail in Hg. case_match; simplify_eq.
       apply io_wrote_none. }
  apply mguard_Some in Hg as [_ ->].
  apply mbind_run in H as [([] & s1 & Hrb & H) | [Hrb ->]].
  2: { apply (dev_read_back_spec _ _ want) in Hrb as [? _]; [|lia..|by apply tail_span; lia].
       eapply io_wrote_same; [done|apply io_wrote_none]. }
  apply (dev_read_back_spec _ _ want) in Hrb as [Hs1 Hbn];
    [|lia..|by apply tail_span; lia]. specialize (Hbn eq_refl).
  cbn [mbind' mmod mget] in H.
  set (pay := take (Z.to_nat want) buf) in *.
  assert (Hpay : zlen pay = want) by (unfold pay; rewrite length_take; lia).
  rewrite <- (take_drop (Z.to_nat want) buf). fold pay.
  apply mbind_run in H as [([] & s2 & Hraw & H) | [Hraw ->]];
    apply (dev_chunk_wrote base skip want) in Hraw as Hc; try lia;
    try (by rewrite (io_same_mem _ _ Hs1)); clear Hraw;
    replace (base + skip) with off in Hc by lia;
    eapply io_wrote_same in Hc; try done.
  - apply IH in H; [|lia]. destruct Hc as (Hh & Hm & Hs & Hn & Hz1).
    destruct H as (Hh' & Hm' & Hs' & Hn' & Hz').
    repeat split; try congruence; try lia; eapply wrote_app; try done;
      by rewrite Hpay.
  - destruct Hc as (Hh & Hm & Hs & Hn & Hz1).
    repeat split; try done. intros a Ha. apply Hm. rewrite length_app in Ha. lia.
Qed.

(** ** Public transfers *)

Lemma blkio_pread_spec off len io r io' :
  0 <= off -> 0 <= len -> blkio_pread off len io = (r, io') ->
  io_same io io' /\
  (forall bs, r = Some bs -> bs = mem_read (k_mem (io_k io)) off len).
Proof.
  intros Ho Hl. unfold blkio_pread. destruct (len =? 0) eqn:Hz.
  { intros. zbool. simplify_eq. split; [apply io_same_refl|]. intros. by simplify_eq. }
  destruct (io_aligned io).
  - intros H. apply dev_pread_spec in H as [? Hb]; [|done..]. eauto.
  - destruct (raw_pread off len io) as [[ok bs] io1] eqn:Hr. intros. simplify_eq.
    apply raw_pread_spec in Hr as (? & ? & Hok); [|done]. split; [done|].
    intros. destruct ok; simplify_eq. auto.
Qed.

(** What [blkio_pwrite] does to a handle. *)
Definition pwrote (io io' : blkio) (off : Z) (buf : bytes) (ok : bool) : Prop :=
  wrote (k_mem (io_k io)) (k_mem (io_k io')) off buf ok /\
  k_stable (io_k io') = k_stable (io_k io) /\
  k_size (io_k io) <= k_size (io_k io') /\
  io_aligned io' = io_aligned io /\ io_cap io' = io_cap io /\
  io_fd_ok io' = io_fd_ok io /\ flushed_gen io' = flushed_gen io /\
  write_gen io' = write_gen io + (if zlen buf =? 0 then 0 else 1) /\
  commit_bytes io' = commit_bytes io /\ commit_ms io' = commit_ms io /\
  idle_ms io' = idle_ms io /\ force_flush io' = force_flush io.

Lemma io_wrote_pwrote io0 io io' off buf ok :
  io0 = set_last_write_ms (k_now (io_k io))
          (set_dirty_bytes (dirty_bytes io + zlen buf) io) ->
  zlen buf <> 0 -> io_wrote io0 io' off buf ok ->
  pwrote io (set_write_gen (write_gen io' + 1) io') off buf ok.
Proof.
  intros -> Hz (Hh & Hw & Hs & Hn & Hsz). unfold io_hdr in Hh. simpl in *.
  simplify_eq. unfold pwrote. simpl.
  rewrite (proj2 (Z.eqb_neq (zlen buf) 0) Hz).
  repeat split; try apply Hw; congruence || lia.
Qed.

Lemma blkio_pwrite_spec off buf io r io' :
  0 <= off -> blkio_pwrite off buf io = (r, io') ->
  pwrote io io' off buf (is_ok r).
Proof.
  intros Ho. unfold blkio_pwrite. destruct (zlen buf =? 0) eqn:Hz.
  { intros. simplify_eq. zbool. unfold pwrote. rewrite Hz. simpl.
    repeat split; auto; lia. }
  zbool. set (io0 := set_last_write_ms _ _). change (io_aligned io0) with (io_aligned io).
  destruct (if io_aligned io then _ else _) as [rc io1] eqn:Hrun. intros.
  simplify_eq. eapply io_wrote_pwrote; [done|done|].
  destruct (io_aligned io);
    [by eapply dev_pwrite_spec|by apply raw_pwrite_spec].
Qed.

(** ** No faults, no failures *)

(** No planned fault, and a capacity the store really has. *)
Definition healthy (io : blkio) : Prop :=
  k_plan (io_k io) = [] /\ io_fd_ok io = true /\
  io_cap io <= k_size (io_k io) /\ io_cap io mod BLKIO_ALIGN = 0.

Lemma sys_pread_live off n k :
  k_plan k = [] -> 0 < n -> off + n <= k_size k ->
  sys_pread off n k = (Some (mem_read (k_mem k) off n), k).
Proof.
  intros Hp Hn Hs. unfold sys_pread, next_outcome. rewrite Hp. simpl.
  rewrite Z.min_l by lia. by rewrite (proj2 (Z.leb_gt n 0)) by lia.
Qed.

Lemma raw_pread_loop_live off n k :
  k_plan k = [] -> 0 < n -> off + n <= k_size k ->
  raw_pread_loop (Z.to_nat n) off n [] k
    = (true, mem_read (k_mem k) off n, k).
Proof.
  intros Hp Hn Hs. destruct (Z.to_nat n) as [|f] eqn:Ef; [lia|].
  cbn [raw_pread_loop length app]. rewrite (proj2 (Z.leb_gt n (Z.of_nat 0))) by lia.
  rewrite sys_pread_live by (done || lia).
  rewrite Z.sub_0_r, Z.add_0_r. destruct f; cbn [raw_pread_loop];
    rewrite length_mem_read, Z2Nat.id, Z.leb_refl by lia; done.
Qed.

Lemma raw_pread_live off len io :
  k_plan (io_k io) = [] -> 0 < len -> off + len <= k_size (io_k io) ->
  exists io', raw_pread off len io
    = (true, mem_read (k_mem (io_k io)) off len, io') /\
    io_k io' = io_k io /\ io_hdr io' = io_hdr io.
Proof.
  intros. unfold raw_pread. simpl. rewrite raw_pread_loop_live by done. eauto.
Qed.

Lemma raw_pwrite_live off buf io :
  k_plan (io_k io) = [] ->
  exists io', raw_pwrite off buf io = (Some tt, io') /\
    k_plan (io_k io') = [].
Proof.
  intros Hp. unfold raw_pwrite. simpl. destruct buf as [|b buf]; [eauto|].
  cbn [raw_pwrite_loop length]. remember (b :: buf) as buf' eqn:Eb.
  assert (0 < zlen buf') by (subst; simpl; lia). clear Eb.
  unfold sys_pwrite, next_outcome. rewrite Hp. simpl.
  rewrite (proj2 (Z.leb_gt (zlen buf') 0)) by lia.
  rewrite Nat2Z.id, drop_all. destruct (length buf); simpl; eauto.
Qed.

Lemma bounce_fill_live off at_ len io :
  k_plan (io_k io) = [] -> 0 < len -> off + len <= k_size (io_k io) ->
  exists io', bounce_fill off at_ len io = (Some tt, io') /\
    io_k io' = io_k io /\ io_hdr io' = io_hdr io.
Proof.
  intros. destruct (raw_pread_live off len io) as (io' & E & ? & ?); [done..|].
  unfold bounce_fill. rewrite E. eauto.
Qed.

(** An aligned store's capacity bounds the widened request too. *)
Lemma span_in_cap off len cap want :
  0 <= off -> off + len <= cap -> cap mod BLKIO_ALIGN = 0 -> 0 < want <= len ->
  align_down off + align_up (off - align_down off + want) <= cap.
Proof.
  intros Ho Hc Hm Hw. pose proof (align_down_bounds off Ho) as (Hb1 & Hb2 & Hb3).
  set (b := align_down off) in *.
  pose proof (align_up_bounds (off - b + want) ltac:(lia)) as [Hu Hum].
  set (s := align_up _) in *.
  assert (Hx : (cap - (b + s)) mod BLKIO_ALIGN = 0).
  { rewrite Zminus_mod, Zplus_mod, Hm, Hb3, Hum. done. }
  destruct (decide (cap < b + s)); [|lia].
  apply Z.mod_divide in Hx as [q Hq]; [|done]. unfold BLKIO_ALIGN in *. lia.
Qed.

Lemma dev_pread_live fuel off len out io :
  healthy io -> 0 <= off -> 0 <= len <= Z.of_nat fuel -> off + len <= io_cap io ->
  exists bs io', dev_pread fuel off len out io = (Some bs, io') /\
    io_k io' = io_k io /\ io_hdr io' = io_hdr io.
Proof.
  revert off len out io. induction fuel as [|fuel IH]; intros off len out io Hh Ho Hl Hc;
    cbn [dev_pread]; destruct (len =? 0) eqn:Hz; zbool; unfold mret; eauto; [lia|].
  pose proof (align_down_bounds off Ho) as (Hb1 & Hb2 & Hb3).
  set (want := Z.min len _).
  assert (Hw : 0 < want <= len) by (unfold BLKIO_ALIGN, BLKIO_BOUNCE in *; lia).
  pose proof (span_in_cap off len (io_cap io) want Ho Hc ltac:(apply Hh) Hw) as Hsp.
  pose proof (align_up_bounds (off - align_down off + want) ltac:(lia)) as [Hu _].
  destruct Hh as (Hp & Hf & Hs & Hm).
  cbn [mbind' mget]. rewrite (proj2 (Z.ltb_ge _ _)) by lia.
  erewrite mbind_eq by done.
  destruct (bounce_fill_live (align_down off) 0
    (align_up (off - align_down off + want)) io) as (io1 & E1 & Hk1 & Hh1);
    [done|lia|lia|].
  rewrite (mbind_eq _ _ _ _ _ E1). cbn [mbind' mget].
  unfold io_hdr in Hh1. simplify_eq.
  edestruct (IH (off + want) (len - want)) as (bs & io2 & E2 & Hk2 & Hh2);
    [| | | |exists bs, io2; split; [exact E2|]]; [|lia|lia|lia|].
  - unfold healthy. repeat split; congruence.
  - split; [congruence|]. rewrite Hh2. unfold io_hdr. congruence.
Qed.

Lemma fill_if_live (b : bool) off at_ len io :
  k_plan (io_k io) = [] -> 0 < len -> off + len <= k_size (io_k io) ->
  exists io', (if b then bounce_fill off at_ len else mret tt) io = (Some tt, io') /\
    io_k io' = io_k io /\ io_hdr io' = io_hdr io.
Proof.
  intros. destruct b; [by apply bounce_fill_live|]. unfold mret. eauto.
Qed.

Lemma dev_read_back_live base skip span tail io :
  k_plan (io_k io) = [] -> BLKIO_ALIGN <= span -> base + span <= k_size (io_k io) ->
  exists io', dev_read_back base skip span tail io = (Some tt, io') /\
    io_k io' = io_k io /\ io_hdr io' = io_hdr io.
Proof.
  intros Hp Hs Hz. unfold dev_read_back. assert (0 < BLKIO_ALIGN) by done.
  destruct (_ && (span =? _))%bool; [apply bounce_fill_live; done || lia|].
  edestruct (fill_if_live (negb (skip =? 0)) base 0 BLKIO_ALIGN io)
    as (io1 & E1 & Hk & Hh); [done..|lia|].
  rewrite (mbind_eq _ _ _ _ _ E1).
  assert (Hif : forall (b c : bool) (m n : M blkio unit),
            (if b then if c then m else n else n) = if b && c then m else n)
    by (intros [] []; done).
  rewrite Hif.
  match goal with |- context [if ?b then bounce_fill ?o ?a ?l else mret tt] =>
    edestruct (fill_if_live b o a l io1) as (io2 & E2 & Hk2 & Hh2) end;
    [by rewrite Hk|done|rewrite Hk; lia|].
  exists io2. repeat split; [done|congruence..].
Qed.

Lemma dev_pwrite_live fuel off buf io :
  healthy io -> 0 <= off -> zlen buf <= Z.of_nat fuel ->
  off + zlen buf <= io_cap io ->
  exists io', dev_pwrite fuel off buf io = (Some tt, io') /\
    k_plan (io_k io') = [].
Proof.
  revert off buf io. induction fuel as [|fuel IH]; intros off buf io Hh Ho Hl Hc;
    cbn [dev_pwrite]; destruct (zlen buf =? 0) eqn:Hz; zbool; unfold mret.
  1, 3: eexists; split; [done|apply Hh]. 1: lia.
  pose proof (align_down_bounds off Ho) as (Hb1 & Hb2 & Hb3).
  set (want := Z.min (zlen buf) _).
  assert (Hw : 0 < want <= zlen buf) by (unfold BLKIO_ALIGN, BLKIO_BOUNCE in *; lia).
  pose proof (span_in_cap off (zlen buf) (io_cap io) want Ho Hc ltac:(apply Hh) Hw) as Hsp.
  pose proof (align_up_bounds (off - align_down off + want) ltac:(lia)) as [Hu Hum].
  set (span := align_up _) in *.
  assert (Hal : BLKIO_ALIGN <= span).
  { destruct (decide (BLKIO_ALIGN <= span)); [done|]. rewrite Z.mod_small in Hum; lia. }
  destruct Hh as (Hp & Hf & Hs & Hm). cbn [mbind' mget].
  rewrite (proj2 (Z.ltb_ge _ _)) by lia. erewrite mbind_eq by done.
  edestruct (dev_read_back_live (align_down off)) as (io1 & E1 & Hk1 & Hh1);
    [exact Hp|exact Hal|lia|].
  rewrite (mbind_eq _ _ _ _ _ E1). cbn [mbind' mmod mget].
  set (io2 := set_io_bounce _ io1).
  destruct (raw_pwrite_live (align_down off) (mem_read (io_bounce io2) 0 span) io2)
    as (io3 & E3 & Hp3); [simpl; congruence|].
  rewrite (mbind_eq _ _ _ _ _ E3).
  apply raw_pwrite_run in E3 as (Hh3 & _ & _ & _ & _ & Hsz3).
  unfold io_hdr in Hh1, Hh3. simpl in *. simplify_eq. rewrite Hk1 in Hsz3.
  edestruct (IH (off + want) (drop (Z.to_nat want) buf) io3) as (io4 & E4 & Hp4);
    [| | | |exists io4; split; [exact E4|done]]; rewrite ?length_drop; try lia.
  unfold healthy. repeat split; congruence || lia.
Qed.

Lemma blkio_pread_live off len io :
  healthy io -> 0 <= off -> 0 <= len -> off + len <= io_cap io ->
  exists bs io', blkio_pread off len io = (Some bs, io') /\ healthy io'.
Proof.
  intros Hh Ho Hl Hc. unfold blkio_pread.
  destruct (len =? 0) eqn:Hz; [eauto|]. zbool. destruct (io_aligned io).
  - destruct (dev_pread_live (Z.to_nat len) off len [] io) as (bs & io' & E & Hk & Hhd);
      [done..|lia|done|]. exists bs, io'. split; [done|].
    unfold io_hdr in Hhd. simplify_eq. unfold healthy in *. intuition congruence.
  - destruct Hh as (Hp & Hf & Hs & Hm).
    destruct (raw_pread_live off len io) as (io' & E & Hk & Hhd); [done|lia|lia|].
    rewrite E. eexists _, _. split; [done|].
    unfold io_hdr in Hhd. simplify_eq. unfold healthy. intuition congruence.
Qed.

Lemma blkio_pwrite_live off buf io :
  healthy io -> 0 <= off -> off + zlen buf <= io_cap io ->
  exists io', blkio_pwrite off buf io = (Some tt, io') /\ healthy io'.
Proof.
  intros Hh Ho Hc.
  assert (exists io', blkio_pwrite off buf io = (Some tt, io') /\
            k_plan (io_k io') = []) as (io' & E & Hp).
  { unfold blkio_pwrite. set (io0 := set_last_write_ms _ _).
    destruct (_ =? 0); [eexists; split; [done|apply Hh]|].
    change (io_aligned io0) with (io_aligned io). destruct (io_aligned io).
    - edestruct (dev_pwrite_live (length buf) off buf io0) as (io1 & E & Hp);
        [exact Hh|done|lia|done|]. rewrite E. eauto.
    - destruct (raw_pwrite_live off buf io0) as (io1 & E & Hp); [apply Hh|].
      rewrite E. eauto. }
  exists io'. split; [done|].
  apply blkio_pwrite_spec in E as (_ & _ & Hz & _ & Hcap & Hfd & _); [|done].
  destruct Hh as (_ & Hf & Hs & Hm). unfold healthy. repeat split; congruence || lia.
Qed.

(** ** Durability *)

(** The watermark's meaning: no write counted since the last completed flush
    means that nothing is owed. *)
Definition durable (io : blkio) : Prop :=
  forall a, byte_at (k_stable (io_k io)) a = byte_at (k_mem (io_k io)) a.
Definition gc_inv (io : blkio) : Prop :=
  flushed_gen io <= write_gen io /\ (flushed_gen io = write_gen io -> durable io).

Lemma sys_fsync_spec k ok k' :
  sys_fsync k = (ok, k') ->
  k_mem k' = k_mem k /\ k_size k' = k_size k /\ k_now k' = k_now k /\
  k_stable k' = (if ok then k_mem k else k_stable k).
Proof.
  unfold sys_fsync. destruct (next_outcome k) as [o k1] eqn:Ho.
  apply next_outcome_same in Ho as (? & ? & ? & ?).
  destruct o; intros; simplify_eq; simpl; repeat split; congruence.
Qed.

(** A flush that is not deferred. *)
Lemma blkio_flush_spec io r io' :
  pf_should_flush io = true -> blkio_flush io = (r, io') ->
  k_mem (io_k io') = k_mem (io_k io) /\ write_gen io' = write_gen io /\
  (is_ok r = true -> gc_inv io ->
     flushed_gen io' = write_gen io /\ durable io') /\
  (is_ok r = false ->
     flushed_gen io' = flushed_gen io /\
     k_stable (io_k io') = k_stable (io_k io)).
Proof.
  intros Hp. unfold blkio_flush. rewrite Hp. simpl.
  destruct (io_fd_ok io && _) eqn:Hskip.
  { intros. simplify_eq. zbool. repeat split; try done; intros; destruct H2.
    - lia.
    - intros a. apply H3. lia. }
  unfold blkio_flush_raw. destruct (io_fd_ok io) eqn:Hfd; simpl in Hskip; zbool.
  - destruct (sys_fsync (io_k io)) as [ok k1] eqn:Hs.
    apply sys_fsync_spec in Hs as (Hm & Hz & Hn & Hst). destruct ok; intros; simplify_eq.
    + simpl. rewrite (proj2 (Z.ltb_lt _ _)) by lia. simpl. repeat split; try done.
      unfold durable. simpl. intros; congruence.
    + simpl. repeat split; done.
  - intros. simplify_eq. simpl. repeat split; done.
Qed.

Lemma blkio_flush_deferred io :
  pf_should_flush io = false ->
  blkio_flush io = (Some tt, set_last_write_ms (k_now (io_k io)) io).
Proof. intros Hp. unfold blkio_flush. by rewrite Hp. Qed.

Lemma gc_inv_flush io r io' :
  gc_inv io -> blkio_flush io = (r, io') -> gc_inv io'.
Proof.
  intros Hi H. destruct (pf_should_flush io) eqn:Hp.
  - apply blkio_flush_spec in H as (Hm & Hw & Hok & Hko); [|done].
    destruct r as [u|]; simpl in *.
    + destruct (Hok eq_refl Hi) as [Hf Hd]. split; [lia|done].
    + destruct (Hko eq_refl) as [Hf Hs]. destruct Hi as [? Hd].
      unfold gc_inv, durable in *. rewrite Hf, Hw, Hs, Hm. done.
  - rewrite blkio_flush_deferred in H by done. by simplify_eq.
Qed.

Lemma gc_inv_pwrite off buf io r io' :
  0 <= off -> gc_inv io -> blkio_pwrite off buf io = (r, io') -> gc_inv io'.
Proof.
  intros Ho [Hle Hd] H.
  apply blkio_pwrite_spec in H as (Hw & Hst & _ & _ & _ & _ & Hf & Hg & _); [|done].
  unfold gc_inv, durable in *. rewrite Hf, Hg, Hst.
  destruct (_ =? 0) eqn:Hz; [|split; lia]. zbool. split; [lia|].
  intros E a. rewrite Hd by lia. symmetry. apply Hw. lia.
Qed.

Lemma gc_inv_same io io' : io_same io io' -> gc_inv io -> gc_inv io'.
Proof.
  intros (Hh & Hm & Hs & _) [? Hd]. unfold io_hdr in Hh. simplify_eq.
  unfold gc_inv, durable in *. rewrite Hm, Hs.
  by replace (flushed_gen io') with (flushed_gen io);
    replace (write_gen io') with (write_gen io).
Qed.

(** The handle's life: transfers, flushes and resizes in any order, with the
    outcomes of the coming system calls and the clock set at will. *)
Inductive io_step : blkio -> blkio -> Prop :=
  | step_read off len io r io' :
      0 <= off -> 0 <= len -> blkio_pread off len io = (r, io') -> io_step io io'
  | step_write off buf io r io' :
      0 <= off -> blkio_pwrite off buf io = (r, io') -> io_step io io'
  | step_flush io r io' : blkio_flush io = (r, io') -> io_step io io'
  | step_chsize size ok io r io' :
      blkio_chsize size ok io = (r, io') -> io_step io io'
  | step_force io : io_step io (blkio_force_flush io)
  | step_commit b ms idle io : io_step io (blkio_set_commit b ms idle io)
  | step_world plan now io :
      let k := io_k io in
      io_step io
        (set_io_k (KFile (k_mem k) (k_stable k) (k_size k) plan now) io).

Lemma gc_inv_chsize size ok io r io' :
  gc_inv io -> blkio_chsize size ok io = (r, io') -> gc_inv io'.
Proof.
  intros [Hle Hd]. unfold blkio_chsize. cbn [mbind' mget].
  destruct (io_is_dev io), ok; try destruct (_ <=? _);
    unfold mbind', mguard, mret, mfail, mmod; intros; simplify_eq; try done.
  unfold gc_inv, durable. destruct (io_aligned _); simpl; (split; [lia|]); intros; lia.
Qed.

Lemma gc_inv_step io io' : io_step io io' -> gc_inv io -> gc_inv io'.
Proof.
  destruct 1; intros; eauto using gc_inv_flush, gc_inv_pwrite, gc_inv_chsize.
  apply blkio_pread_spec in H1 as [Hs _]; eauto using gc_inv_same.
Qed.

(** ** Results *)

(** C35: byte-granular writes are exact on every store.  Whatever short
    transfers the system calls made, whatever the bounce buffer held before
    and however the range straddles alignment blocks, a successful
    [blkio_pwrite] followed by a successful [blkio_pread] of any range returns
    the old contents overlaid with the written bytes; and a write that fails
    has changed no byte outside its own range. *)
Theorem blkio_write_read off buf io r io1 :
  0 <= off -> blkio_pwrite off buf io = (r, io1) ->
  (forall off' n bs io2, r = Some tt -> 0 <= off' -> 0 <= n ->
     blkio_pread off' n io1 = (Some bs, io2) ->
     bs = mem_read (mem_write (k_mem (io_k io)) off buf) off' n) /\
  (forall a, ~ (off <= a < off + zlen buf) ->
     byte_at (k_mem (io_k io1)) a = byte_at (k_mem (io_k io)) a).
Proof.
  intros Ho Hw. apply blkio_pwrite_spec in Hw as ([Hout Hin] & _); [|done].
  split; [|done]. intros off' n bs io2 -> Ho' Hn Hr.
  apply blkio_pread_spec in Hr as [_ Hbs]; [|done..].
  rewrite (Hbs _ eq_refl). apply mem_read_ext. intros i Hi.
  destruct (decide (off <= off' + i < off + zlen buf)).
  - by rewrite Hin, byte_at_write_in by done.
  - by rewrite Hout, byte_at_write_out by done.
Qed.

(** A device-like handle of four blocks with stale bytes in the bounce
    buffer and one short transfer ahead. *)
Definition demo_dev : blkio :=
  mkBlkio (KFile {[100 := 7; 5000 := 9]} ∅ 16384 [Short 1000] 0) true 0 16384
    true true {[0 := 255; 4096 := 254]} 0 0 0 0 0 0 0 0 0 0 0 false.

Definition demo_buf : bytes := [1; 2; 3; 4; 5; 6; 7; 8].

Lemma blkio_write_read_witness :
  fst (blkio_pwrite 4090 demo_buf demo_dev) = Some tt /\
  forall bs io2,
    blkio_pread 4089 10 (snd (blkio_pwrite 4090 demo_buf demo_dev))
      = (Some bs, io2) ->
    bs = [0; 1; 2; 3; 4; 5; 6; 7; 8; 0].
Proof.
  assert (E : fst (blkio_pwrite 4090 demo_buf demo_dev) = Some tt)
    by (vm_compute; reflexivity).
  split; [exact E|]. intros bs io2 H.
  destruct (blkio_write_read 4090 demo_buf demo_dev _ _ ltac:(lia)
              (surjective_pairing _)) as [Hr _].
  rewrite (Hr 4089 10 bs io2 E ltac:(lia) ltac:(lia) H).
  vm_compute. reflexivity.
Defined.

(** C40: group commit keeps the barrier's promise.  From a freshly opened
    handle and after any sequence of reads, writes, flushes, resizes and
    policy changes, with any short transfers and errors, a [blkio_flush] that
    is not deferred by the commit policy and returns success leaves every
    byte the store would return on stable storage, even when it skipped the
    system call because an earlier flush already covered the writes. *)
Theorem blkio_flush_durable io0 io r io' :
  write_gen io0 = 0 -> flushed_gen io0 = 0 -> durable io0 ->
  rtc io_step io0 io -> pf_should_flush io = true ->
  blkio_flush io = (r, io') -> r = Some tt ->
  forall a, byte_at (k_stable (io_k io')) a = byte_at (k_mem (io_k io)) a.
Proof.
  intros Hw Hf Hd Hrun Hp H -> a.
  assert (Hi : gc_inv io).
  { assert (Hi0 : gc_inv io0) by (split; [lia|done]). clear Hp H Hw Hf Hd.
    induction Hrun as [|x y z Hs _ IH]; eauto using gc_inv_step. }
  apply blkio_flush_spec in H as (Hm & _ & Hok & _); [|done].
  destruct (Hok eq_refl Hi) as [_ Hdur]. rewrite <- Hm. apply Hdur.
Qed.

(** An image file opened for the strict policy. *)
Definition demo_file : blkio :=
  mkBlkio (KFile ∅ ∅ 8192 [] 0) true 0 8192 false false ∅
    0 0 0 0 0 0 0 0 0 0 0 false.

Lemma blkio_flush_durable_witness :
  byte_at (k_stable (io_k (snd (blkio_flush
    (snd (blkio_pwrite 10 [1; 2; 3] demo_file)))))) 11
  = byte_at (k_mem (io_k (snd (blkio_pwrite 10 [1; 2; 3] demo_file)))) 11.
Proof.
  refine (blkio_flush_durable demo_file _ _ _ eq_refl eq_refl
    (fun _ => eq_refl) _ _ (surjective_pairing _) _ 11).
  - eapply rtc_once, (step_write 10 [1; 2; 3]); [lia|apply surjective_pairing].
  - vm_compute. reflexivity.
  - vm_compute. reflexivity.
Defined.

(** Under a deferred-commit policy a failed flush is not retried by the
    next barrier.  A forced flush whose [fsync] fails clears [force_flush]
    and the byte accumulator, so the next [blkio_flush] is deferred and
    reports success without a system call, while the failed bytes are still
    not covered.  The comment above [blkio_flush] says the next barrier
    retries. *)
Theorem deferred_flush_hides_failure io r1 io1 :
  0 < commit_bytes io -> commit_ms io = 0 -> idle_ms io = 0 ->
  force_flush io = true -> flushed_gen io < write_gen io ->
  blkio_flush io = (r1, io1) -> r1 = None ->
  fst (blkio_flush io1) = Some tt /\
  k_stable (io_k (snd (blkio_flush io1))) = k_stable (io_k io) /\
  flushed_gen (snd (blkio_flush io1)) < write_gen (snd (blkio_flush io1)).
Proof.
  intros Hpos Hm Hi Hff Hg H ->.
  assert (Hs : pf_should_flush io = true) by (unfold pf_should_flush; by rewrite Hff).
  pose proof H as H'. apply blkio_flush_spec in H' as (_ & Hw & _ & Hko); [|done].
  destruct (Hko eq_refl) as [Hf1 Hst].
  assert (Hfields : force_flush io1 = false /\ dirty_bytes io1 = 0 /\
            commit_bytes io1 = commit_bytes io /\ commit_ms io1 = 0 /\ idle_ms io1 = 0).
  { unfold blkio_flush, blkio_flush_raw in H. rewrite Hs in H. simpl in H.
    rewrite (proj2 (Z.leb_gt _ _)), andb_false_r in H by lia.
    destruct (io_fd_ok io); [destruct (sys_fsync _) as [[] k]|];
      simplify_eq; simpl; auto. }
  destruct Hfields as (Ef & Ed & Ec & Em & Ei).
  assert (Hd : pf_should_flush io1 = false).
  { unfold pf_should_flush. rewrite Ef, Ed, Ec, Em, Ei. simpl.
    rewrite (proj2 (Z.eqb_neq _ _)) by lia. simpl.
    by rewrite (proj2 (Z.leb_gt (commit_bytes io) 0)) by lia. }
  rewrite blkio_flush_deferred by done. simpl. repeat split; [done|lia].
Qed.

Definition demo_deferred : blkio :=
  blkio_force_flush (blkio_set_commit 65536 0 0
    (mkBlkio (KFile {[3 := 5]} ∅ 8192 [Err] 0) true 0 8192 false false ∅
       0 0 0 0 1 0 0 0 0 0 0 false)).

Lemma deferred_flush_hides_failure_witness :
  let io1 := snd (blkio_flush demo_deferred) in
  fst (blkio_flush demo_deferred) = None /\
  fst (blkio_flush io1) = Some tt.
Proof.
  split; [vm_compute; reflexivity|].
  refine (proj1 (deferred_flush_hides_failure demo_deferred _ _ _ eq_refl eq_refl
    eq_refl _ (surjective_pairing _) _)); vm_compute; congruence.
Defined.

End Blkio.
