(* ===== verification/GroupCommit.v ===== *)
(** * Group commit under concurrency (src/src/core/blkio.c, blkio_flush)

    Many threads write and flush through one handle.  This file interleaves
    the atomic actions of [blkio_pwrite] and [blkio_flush] (strict policy, a
    descriptor that is open) in any order: the transfer and the later bump of
    [write_gen], the sample of [write_gen] at entry, the test under the lock,
    the sample before the system call, the two ends of [fsync], the store of
    [flushed_gen], the release of [flush_busy].

    A write is identified by a number; [cached] holds the writes whose
    transfer has returned, [stable] the ones on stable storage, and [gen] the
    value [write_gen] took when the write was counted.  [fsync] makes durable
    what was cached when it was called. *)

From S2P Require Import Prelude.
From stdpp Require Import gmap sets relations.
Local Open Scope Z_scope.

Module GroupCommit.

(** Where a thread is. *)
Inductive pc :=
  | Idle
  | Wrote (id : nat)                   (* transfer returned, not yet counted *)
  | Want (my_gen : Z)                  (* in the loop under the lock *)
  | Flusher (my_gen : Z)               (* took flush_busy *)
  | Sampled (my_gen cover : Z)
  | Syncing (my_gen cover : Z) (snap : gset nat)   (* inside fsync *)
  | Synced (my_gen cover : Z) (rc : bool)
  | Stored (my_gen : Z) (rc : bool)
  | Returned (rc : bool).

#[export] Instance pc_eq_dec : EqDecision pc.
Proof. solve_decision. Defined.

(** [before] is the thread's view at its last entry into [blkio_flush]: the
    writes already counted then. *)
Record state := State {
  cached : gset nat;
  stable : gset nat;
  gen : gmap nat Z;
  gc_write_gen : Z;
  gc_flushed_gen : Z;
  flush_busy : bool;
  pcs : nat -> pc;
  before : nat -> gset nat
}.

Definition goto (t : nat) (p : pc) (f : nat -> pc) : nat -> pc :=
  fun u => if decide (u = t) then p else f u.

(** One atomic action of thread [t].
    Source: core/blkio.c [blkio_flush] *)
Inductive step : state -> state -> Prop :=
  (** [rc = raw_pwrite(...)] *)
  | s_transfer t id s :
      pcs s t = Idle -> id ∉ cached s ->
      step s (State ({[id]} ∪ cached s) (stable s) (gen s) (gc_write_gen s)
                (gc_flushed_gen s) (flush_busy s) (goto t (Wrote id) (pcs s))
                (before s))
  (** [gc_bump(&io->write_gen)] *)
  | s_bump t id s :
      pcs s t = Wrote id ->
      step s (State (cached s) (stable s) (<[id := gc_write_gen s + 1]> (gen s))
                (gc_write_gen s + 1) (gc_flushed_gen s) (flush_busy s)
                (goto t Idle (pcs s)) (before s))
  (** [my_gen = gc_load(&io->write_gen)] *)
  | s_enter t s :
      pcs s t = Idle ->
      step s (State (cached s) (stable s) (gen s) (gc_write_gen s)
                (gc_flushed_gen s) (flush_busy s)
                (goto t (Want (gc_write_gen s)) (pcs s))
                (fun u => if decide (u = t) then dom (gen s) else before s u))
  (** [flushed_gen >= my_gen]: an earlier flush covers us *)
  | s_skip t my s :
      pcs s t = Want my -> my <= gc_flushed_gen s ->
      step s (State (cached s) (stable s) (gen s) (gc_write_gen s)
                (gc_flushed_gen s) (flush_busy s)
                (goto t (Returned true) (pcs s)) (before s))
  (** [!flush_busy]: we are the flusher *)
  | s_take t my s :
      pcs s t = Want my -> gc_flushed_gen s < my -> flush_busy s = false ->
      step s (State (cached s) (stable s) (gen s) (gc_write_gen s)
                (gc_flushed_gen s) true (goto t (Flusher my) (pcs s)) (before s))
  (** [cover = gc_load(&io->write_gen)] *)
  | s_sample t my s :
      pcs s t = Flusher my ->
      step s (State (cached s) (stable s) (gen s) (gc_write_gen s)
                (gc_flushed_gen s) (flush_busy s)
                (goto t (Sampled my (gc_write_gen s)) (pcs s)) (before s))
  (** [fsync] is called *)
  | s_fsync t my cover s :
      pcs s t = Sampled my cover ->
      step s (State (cached s) (stable s) (gen s) (gc_write_gen s)
                (gc_flushed_gen s) (flush_busy s)
                (goto t (Syncing my cover (cached s)) (pcs s)) (before s))
  (** [fsync] returns 0, having covered at least what was cached *)
  | s_fsync_ok t my cover snap extra s :
      pcs s t = Syncing my cover snap -> extra ⊆ cached s ->
      step s (State (cached s) (snap ∪ extra ∪ stable s) (gen s)
                (gc_write_gen s) (gc_flushed_gen s) (flush_busy s)
                (goto t (Synced my cover true) (pcs s)) (before s))
  (** [fsync] fails *)
  | s_fsync_err t my cover snap s :
      pcs s t = Syncing my cover snap ->
      step s (State (cached s) (stable s) (gen s) (gc_write_gen s)
                (gc_flushed_gen s) (flush_busy s)
                (goto t (Synced my cover false) (pcs s)) (before s))
  (** [if (rc == 0 && cover > flushed_gen) flushed_gen = cover] *)
  | s_store t my cover rc s :
      pcs s t = Synced my cover rc ->
      step s (State (cached s) (stable s) (gen s) (gc_write_gen s)
                (if rc && (gc_flushed_gen s <? cover) then cover
                 else gc_flushed_gen s) (flush_busy s)
                (goto t (Stored my rc) (pcs s)) (before s))
  (** [flush_busy = 0], wake the waiters, return *)
  | s_release t my rc s :
      pcs s t = Stored my rc ->
      step s (State (cached s) (stable s) (gen s) (gc_write_gen s)
                (gc_flushed_gen s) false (goto t (Returned rc) (pcs s))
                (before s))
  (** the caller goes on *)
  | s_done t rc s :
      pcs s t = Returned rc ->
      step s (State (cached s) (stable s) (gen s) (gc_write_gen s)
                (gc_flushed_gen s) (flush_busy s) (goto t Idle (pcs s))
                (before s)).

(** [blkio_open]: all counters zero, nothing written. *)
Definition init : state :=
  State ∅ ∅ ∅ 0 0 false (fun _ => Idle) (fun _ => ∅).

Definition reachable (s : state) : Prop := rtc step init s.

(** ** Invariant *)

Definition covers (s : state) (g : Z) (x : gset nat) : Prop :=
  forall id n, gen s !! id = Some n -> n <= g -> id ∈ x.

(** A thread's entry view is below the generation it holds. *)
Definition entry_ok (s : state) (t : nat) (my : Z) : Prop :=
  my <= gc_write_gen s /\
  forall id, id ∈ before s t -> exists n, gen s !! id = Some n /\ n <= my.

Definition flushing (p : pc) : Prop :=
  match p with
  | Flusher _ | Sampled _ _ | Syncing _ _ _ | Synced _ _ _ | Stored _ _ => True
  | _ => False
  end.

Definition pc_ok_at (s : state) (t : nat) (p : pc) : Prop :=
  match p with
  | Idle => True
  | Wrote id => id ∈ cached s
  | Want my | Flusher my => entry_ok s t my
  | Sampled my cover => entry_ok s t my /\ my <= cover <= gc_write_gen s
  | Syncing my cover snap =>
      entry_ok s t my /\ my <= cover <= gc_write_gen s /\ covers s cover snap
  | Synced my cover rc =>
      entry_ok s t my /\ my <= cover <= gc_write_gen s /\
      (rc = true -> covers s cover (stable s))
  | Stored my rc =>
      entry_ok s t my /\ (rc = true -> my <= gc_flushed_gen s)
  | Returned rc => rc = true -> before s t ⊆ stable s
  end.

Definition pc_ok (s : state) (t : nat) : Prop := pc_ok_at s t (pcs s t).

Record inv (s : state) : Prop := {
  inv_gen : forall id n, gen s !! id = Some n ->
    id ∈ cached s /\ n <= gc_write_gen s;
  inv_flushed : covers s (gc_flushed_gen s) (stable s) /\
    gc_flushed_gen s <= gc_write_gen s;
  inv_pc : forall t, pc_ok s t;
  inv_wrote : forall t id, pcs s t = Wrote id -> gen s !! id = None /\
    forall u, pcs s u = Wrote id -> u = t;
  inv_busy : forall t, flushing (pcs s t) ->
    flush_busy s = true /\ forall u, flushing (pcs s u) -> u = t;
  inv_held : flush_busy s = true -> exists t, flushing (pcs s t)
}.

Lemma goto_eq t p f : goto t p f t = p.
Proof. unfold goto. by rewrite decide_True. Qed.
Lemma goto_ne t p f u : u <> t -> goto t p f u = f u.
Proof. intros. unfold goto. by rewrite decide_False. Qed.

Lemma init_inv : inv init.
Proof. by constructor; simpl; intros; try split; try done; intros ? ?; simplify_map_eq. Qed.

(** The obligations of the threads that did not move, when the shared state
    only grows. *)
Lemma entry_ok_mono s s' t my :
  before s' t = before s t -> gc_write_gen s <= gc_write_gen s' ->
  (forall id n, gen s !! id = Some n -> gen s' !! id = Some n) ->
  entry_ok s t my -> entry_ok s' t my.
Proof.
  intros Hb Hw Hg [? He]. split; [lia|]. rewrite Hb. intros id Hid.
  destruct (He id Hid) as (n & ? & ?). eauto.
Qed.

(** Counting one more write disturbs no coverage at or below the counter. *)
Definition gen_grows (s s' : state) : Prop :=
  (forall id n, gen s !! id = Some n -> gen s' !! id = Some n) /\
  (forall id n, gen s' !! id = Some n -> n <= gc_write_gen s ->
     gen s !! id = Some n).

Lemma covers_mono s s' g x y :
  gen_grows s s' -> g <= gc_write_gen s -> x ⊆ y -> covers s g x -> covers s' g y.
Proof. intros [_ Hg] Hle Hxy Hc id n Hid Hn. apply Hxy. eapply Hc; [apply Hg|]; eauto; lia. Qed.

Lemma pc_ok_mono s s' t :
  pcs s' t = pcs s t -> before s' t = before s t -> gen_grows s s' ->
  gc_write_gen s <= gc_write_gen s' -> gc_flushed_gen s <= gc_flushed_gen s' ->
  cached s ⊆ cached s' -> stable s ⊆ stable s' ->
  pc_ok s t -> pc_ok s' t.
Proof.
  intros Hp Hbf Hgg Hw Hf Hc Hs. unfold pc_ok, pc_ok_at. rewrite Hp.
  assert (He : forall my, entry_ok s t my -> entry_ok s' t my).
  { intros my. apply entry_ok_mono; try done. apply Hgg. }
  destruct (pcs s t).
  - done.
  - apply Hc.
  - eauto.
  - eauto.
  - intros [? ?]. split; [eauto|lia].
  - intros (? & ? & Hcov). split_and!; [by eauto|lia|lia|].
    eapply covers_mono; [done|lia|reflexivity|done].
  - intros (? & ? & Hcov). split_and!; [by eauto|lia|lia|]. intros Hr.
    eapply covers_mono; [done|lia|done|by apply Hcov].
  - intros [? Hm]. split; [by eauto|]. intros Hr. specialize (Hm Hr). lia.
  - rewrite Hbf. intros H Hr. etrans; [by apply H|done].
Qed.

Lemma gen_grows_refl s s' : gen s' = gen s -> gen_grows s s'.
Proof. intros E. split; rewrite E; done. Qed.

(** The invariant after thread [t] moved to [p]: what the mover has to show. *)
Lemma inv_move s s' t p :
  inv s -> pcs s' = goto t p (pcs s) ->
  (forall u, u <> t -> before s' u = before s u) ->
  gen_grows s s' -> gc_write_gen s <= gc_write_gen s' ->
  gc_flushed_gen s <= gc_flushed_gen s' <= gc_write_gen s' ->
  cached s ⊆ cached s' -> stable s ⊆ stable s' ->
  (forall id n, gen s' !! id = Some n -> id ∈ cached s' /\ n <= gc_write_gen s') ->
  covers s' (gc_flushed_gen s') (stable s') ->
  pc_ok s' t ->
  (forall id, p = Wrote id -> gen s' !! id = None /\ forall u, pcs s u <> Wrote id) ->
  (forall u id, u <> t -> pcs s u = Wrote id -> gen s' !! id = None) ->
  (flushing p -> flush_busy s' = true /\
     (flushing (pcs s t) \/ flush_busy s = false)) ->
  (flush_busy s' = true -> flushing p \/ (flush_busy s = true /\ ~ flushing (pcs s t))) ->
  (~ flushing p -> flush_busy s' = flush_busy s \/ flushing (pcs s t)) ->
  inv s'.
Proof.
  intros Hi Hp Hbf Hgg Hw Hf Hc Hs Hgen Hcov Hpc Hwt Hwo Hf1 Hf2 Hf3.
  assert (Hpt : pcs s' t = p) by (rewrite Hp; apply goto_eq).
  assert (Hpu : forall u, u <> t -> pcs s' u = pcs s u)
    by (intros; rewrite Hp; by apply goto_ne).
  constructor; [done|split; [done|lia]|..].
  - intros u. destruct (decide (u = t)) as [->|Hne]; [done|].
    apply (pc_ok_mono s); auto; [lia|apply Hi].
  - intros u id Hu. destruct (decide (u = t)) as [->|Hne].
    + rewrite Hpt in Hu. destruct (Hwt id Hu) as [? Hno]. split; [done|].
      intros u' Hu'. destruct (decide (u' = t)); [done|].
      rewrite Hpu in Hu' by done. by destruct (Hno u').
    + rewrite Hpu in Hu by done. split; [eauto|]. intros u' Hu'.
      destruct (decide (u' = t)) as [->|?].
      * rewrite Hpt in Hu'. destruct (Hwt id Hu') as [_ Hno]. by destruct (Hno u).
      * rewrite Hpu in Hu' by done. by apply (proj2 (inv_wrote s Hi u id Hu)).
  - intros u Hu. destruct (decide (u = t)) as [->|Hne].
    + rewrite Hpt in Hu. destruct (Hf1 Hu) as [Hb' Hor]. split; [done|].
      intros u' Hu'. destruct (decide (u' = t)); [done|].
      rewrite Hpu in Hu' by done. destruct (inv_busy s Hi u' Hu') as [Hb'' Huniq].
      destruct Hor as [Ht|]; [symmetry; by apply Huniq|congruence].
    + rewrite Hpu in Hu by done. destruct (inv_busy s Hi u Hu) as [Hb' Huniq].
      assert (Hnt : ~ flushing (pcs s t)) by (intros Ht; by apply Huniq in Ht).
      assert (Hnp : ~ flushing p).
      { intros Hfp. destruct (Hf1 Hfp) as [_ [?|?]]; [done|congruence]. }
      split.
      * destruct (Hf3 Hnp) as [E|?]; [congruence|done].
      * intros u' Hu'. destruct (decide (u' = t)) as [->|?]; [by rewrite Hpt in Hu'|].
        rewrite Hpu in Hu' by done. by apply Huniq.
  - intros Hb'. destruct (Hf2 Hb') as [?|[Hbs Hnt]]; [exists t; by rewrite Hpt|].
    destruct (inv_held s Hi Hbs) as [u Hu]. exists u.
    rewrite Hpu; [done|]. intros ->. done.
Qed.

(** A move that only changes the thread's place and its flush role. *)
Lemma inv_quiet s t p bf :
  inv s -> (forall u, u <> t -> bf u = before s u) ->
  (forall id, p <> Wrote id) ->
  (flushing p <-> flushing (pcs s t)) ->
  let s' := State (cached s) (stable s) (gen s) (gc_write_gen s)
              (gc_flushed_gen s) (flush_busy s) (goto t p (pcs s)) bf in
  pc_ok_at s' t p -> inv s'.
Proof.
  intros Hi Hbf Hnw Hfl s' Hpc. destruct (inv_flushed s Hi) as [Hcov Hle].
  pose proof (inv_gen s Hi) as Hgen.
  apply (inv_move s s' t p); simpl; try done; try lia.
  - unfold pc_ok. simpl. by rewrite goto_eq.
  - intros id Hid. by destruct (Hnw id).
  - intros u id _ Hu. by apply (inv_wrote s Hi u).
  - intros Hp. split; [|left; tauto]. by apply (inv_busy s Hi t), Hfl.
  - intros Hb. destruct (inv_held s Hi Hb) as [u Hu].
    destruct (decide (u = t)) as [->|Hne]; [left; tauto|right; split; [done|]].
    intros Ht. destruct Hne. by apply (proj2 (inv_busy s Hi t Ht)).
  - by left.
Qed.

Lemma gen_grows_bump s s' id :
  inv s -> gen s !! id = None ->
  gen s' = <[id := gc_write_gen s + 1]> (gen s) -> gen_grows s s'.
Proof.
  intros Hi Hn E. split; rewrite E; intros j n Hj.
  - rewrite lookup_insert_ne; [done|]. intros ->. congruence.
  - intros Hle. apply lookup_insert_Some in Hj as [[-> <-]|[_ Hj]]; [lia|done].
Qed.

Lemma inv_bump s t id :
  inv s -> pcs s t = Wrote id ->
  inv (State (cached s) (stable s) (<[id := gc_write_gen s + 1]> (gen s))
         (gc_write_gen s + 1) (gc_flushed_gen s) (flush_busy s)
         (goto t Idle (pcs s)) (before s)).
Proof.
  intros Hi Hpc. destruct (inv_flushed s Hi) as [Hcov Hle].
  destruct (inv_wrote s Hi t id Hpc) as [Hn Huniq].
  pose proof (inv_pc s Hi t) as Hc. unfold pc_ok in Hc. rewrite Hpc in Hc. simpl in Hc.
  eapply (inv_move s _ t Idle); simpl; try done; try lia; rewrite ?Hpc.
  - by eapply gen_grows_bump.
  - intros j n Hj. apply lookup_insert_Some in Hj as [[-> <-]|[_ Hj]]; [split; [done|lia]|].
    destruct (inv_gen s Hi j n Hj). split; [done|lia].
  - intros j n Hj Hjn. simpl in *.
    apply lookup_insert_Some in Hj as [[-> <-]|[_ Hj]]; [lia|eauto].
  - unfold pc_ok. simpl. by rewrite goto_eq.
  - intros u j Hu Huj. destruct (decide (j = id)) as [->|Hne].
    + by destruct Hu; apply Huniq.
    + rewrite lookup_insert_ne by done. by apply (inv_wrote s Hi u).
  - intros Hb. right. split; [done|]. by intros ?.
  - by left.
Qed.

Lemma inv_transfer s t id :
  inv s -> pcs s t = Idle -> id ∉ cached s ->
  inv (State ({[id]} ∪ cached s) (stable s) (gen s) (gc_write_gen s)
         (gc_flushed_gen s) (flush_busy s) (goto t (Wrote id) (pcs s)) (before s)).
Proof.
  intros Hi Hpc Hfresh. destruct (inv_flushed s Hi) as [Hcov Hle].
  eapply (inv_move s _ t (Wrote id)); simpl; try done; try lia; rewrite ?Hpc.
  - apply union_subseteq_r.
  - intros j n Hj. destruct (inv_gen s Hi j n Hj). split; [|done].
    by apply elem_of_union_r.
  - unfold pc_ok. simpl. rewrite goto_eq. by apply elem_of_union_l, elem_of_singleton.
  - intros j [= <-]. split.
    + destruct (gen s !! id) as [n|] eqn:E; [|done].
      by destruct (inv_gen s Hi id n E).
    + intros u Hu. pose proof (inv_pc s Hi u) as Hc. unfold pc_ok in Hc.
      by rewrite Hu in Hc.
  - intros u j _ Hu. by apply (inv_wrote s Hi u).
  - intros Hb. right. split; [done|]. by intros ?.
  - by left.
Qed.

Lemma inv_fsync_ok s t my cover snap extra :
  inv s -> pcs s t = Syncing my cover snap ->
  inv (State (cached s) (snap ∪ extra ∪ stable s) (gen s)
         (gc_write_gen s) (gc_flushed_gen s) (flush_busy s)
         (goto t (Synced my cover true) (pcs s)) (before s)).
Proof.
  intros Hi Hpc. destruct (inv_flushed s Hi) as [Hcov Hle].
  pose proof (inv_pc s Hi t) as Hc. unfold pc_ok in Hc. rewrite Hpc in Hc.
  destruct Hc as (He & Hm & Hsn). pose proof (inv_gen s Hi).
  destruct (inv_busy s Hi t ltac:(by rewrite Hpc)) as [Hb _].
  eapply (inv_move s _ t (Synced my cover true)); simpl; try done; try lia; rewrite ?Hpc.
  - by apply union_subseteq_r.
  - intros j n Hj Hn. apply elem_of_union_r. by eapply Hcov.
  - unfold pc_ok. simpl. rewrite goto_eq. simpl. split_and!; [done|lia|lia|].
    intros _ j n Hj Hn. do 2 apply elem_of_union_l. by eapply Hsn.
  - intros u j _ Hu. by apply (inv_wrote s Hi u).
  - intros _. split; [done|by left].
Qed.

Lemma inv_store s t my cover rc :
  inv s -> pcs s t = Synced my cover rc ->
  inv (State (cached s) (stable s) (gen s) (gc_write_gen s)
         (if rc && (gc_flushed_gen s <? cover) then cover else gc_flushed_gen s)
         (flush_busy s) (goto t (Stored my rc) (pcs s)) (before s)).
Proof.
  intros Hi Hpc. destruct (inv_flushed s Hi) as [Hcov Hle].
  pose proof (inv_pc s Hi t) as Hc. unfold pc_ok in Hc. rewrite Hpc in Hc.
  destruct Hc as (He & Hm & Hst). pose proof (inv_gen s Hi).
  destruct (inv_busy s Hi t ltac:(by rewrite Hpc)) as [Hb _].
  set (fg := if rc && _ then _ else _).
  assert (Hfg : gc_flushed_gen s <= fg <= gc_write_gen s /\ (rc = true -> my <= fg) /\
                (fg = gc_flushed_gen s \/ rc = true /\ fg = cover)).
  { unfold fg. destruct rc; simpl; [destruct (_ <? _) eqn:E|]; zbool;
      split_and!; try lia; auto; done. }
  destruct Hfg as (Hfg1 & Hfg2 & Hfg3).
  eapply (inv_move s _ t (Stored my rc)); simpl; try done; rewrite ?Hpc.
  - intros j n Hj Hn. simpl in *. destruct Hfg3 as [E|[-> E]]; rewrite E in Hn.
    + by eapply Hcov.
    + by eapply Hst.
  - unfold pc_ok. simpl. rewrite goto_eq. split; [exact He|exact Hfg2].
  - intros u j _ Hu. by apply (inv_wrote s Hi u).
  - intros _. split; [done|by left].
  - by left.
Qed.


Lemma inv_take s t my :
  inv s -> pcs s t = Want my -> flush_busy s = false ->
  inv (State (cached s) (stable s) (gen s) (gc_write_gen s)
         (gc_flushed_gen s) true (goto t (Flusher my) (pcs s)) (before s)).
Proof.
  intros Hi Hpc Hnb. destruct (inv_flushed s Hi) as [Hcov Hle].
  pose proof (inv_pc s Hi t) as Hc. unfold pc_ok in Hc. rewrite Hpc in Hc.
  pose proof (inv_gen s Hi).
  eapply (inv_move s _ t (Flusher my)); simpl; try done; try lia; rewrite ?Hpc.
  - unfold pc_ok. simpl. by rewrite goto_eq.
  - intros u j _ Hu. by apply (inv_wrote s Hi u).
  - intros _. split; [done|by right].
Qed.

Lemma inv_release s t my rc :
  inv s -> pcs s t = Stored my rc ->
  inv (State (cached s) (stable s) (gen s) (gc_write_gen s)
         (gc_flushed_gen s) false (goto t (Returned rc) (pcs s)) (before s)).
Proof.
  intros Hi Hpc. destruct (inv_flushed s Hi) as [Hcov Hle].
  pose proof (inv_pc s Hi t) as Hc. unfold pc_ok in Hc. rewrite Hpc in Hc.
  destruct Hc as ([_ He] & Hst). pose proof (inv_gen s Hi).
  eapply (inv_move s _ t (Returned rc)); simpl; try done; try lia; rewrite ?Hpc.
  - unfold pc_ok. simpl. rewrite goto_eq. intros Hr id Hid. simpl in *.
    destruct (He id Hid) as (n & Hn & ?). eapply Hcov; [done|].
    specialize (Hst Hr). lia.
  - intros u j _ Hu. by apply (inv_wrote s Hi u).
  - intros _. by right.
Qed.

Lemma step_inv s s' : step s s' -> inv s -> inv s'.
Proof.
  intros Hst Hi. destruct (inv_flushed s Hi) as [Hcov Hfl].
  destruct Hst as [t id s Hpc Hfresh|t id s Hpc|t s Hpc|t my s Hpc Hle|t my s Hpc Hlt Hnb
    |t my s Hpc|t my cover s Hpc|t my cover snap extra s Hpc Hex|t my cover snap s Hpc
    |t my cover rc s Hpc|t my rc s Hpc|t rc s Hpc];
    pose proof (inv_pc s Hi t) as Ht; unfold pc_ok in Ht; rewrite Hpc in Ht; simpl in Ht;
    eauto using inv_transfer, inv_bump, inv_take, inv_fsync_ok, inv_store, inv_release;
    apply inv_quiet; rewrite ?Hpc; try done; simpl.
  - intros u Hu. by rewrite decide_False.
  - split; [done|]. simpl. rewrite decide_True by done. intros id Hid.
    apply elem_of_dom in Hid as [n Hn]. exists n. split; [done|].
    by destruct (inv_gen s Hi id n Hn).
  - intros _ id Hid. destruct Ht as [_ He]. destruct (He id Hid) as (n & Hn & ?).
    eapply Hcov; [done|lia].
  - destruct Ht as [? ?]. split; [done|]. simpl. lia.
  - destruct Ht as [He ?]. split; [done|]. split; [done|].
    intros id n Hn _. by apply (inv_gen s Hi id n).
  - by destruct Ht as (? & ? & _).
Qed.

Lemma reachable_inv s : reachable s -> inv s.
Proof.
  intros H. unfold reachable in H. remember init as s0 eqn:E.
  assert (Hi : inv s0) by (subst; apply init_inv). clear E.
  induction H as [|x y z Hs _ IH]; eauto using step_inv.
Qed.

(** A thread inside the flusher's section can always take its next action. *)
Lemma flusher_moves s u :
  flushing (pcs s u) ->
  exists s' p, step s s' /\ pcs s' = goto u p (pcs s) /\ p <> pcs s u.
Proof.
  intros Hf. destruct (pcs s u) eqn:E; try done.
  - eexists _, _. split; [by eapply s_sample|]. by split.
  - eexists _, _. split; [by eapply s_fsync|]. by split.
  - eexists _, _. split; [by eapply s_fsync_err|]. by split.
  - eexists _, _. split; [by eapply s_store|]. by split.
  - eexists _, _. split; [by eapply s_release|]. by split.
Qed.

(** ** Results *)


(** Thread 0 writes and counts write 7, then thread 1 flushes. *)
Definition demo_run : state :=
  State ({[7%nat]} ∪ ∅) ({[7%nat]} ∪ ∅ ∪ ∅ ∪ ∅) (<[7%nat := 0 + 1]> ∅) 1 1 false
    (goto 1 (Returned true) (goto 1 (Stored 1 true) (goto 1 (Synced 1 1 true)
      (goto 1 (Syncing 1 1 ({[7%nat]} ∪ ∅)) (goto 1 (Sampled 1 1)
        (goto 1 (Flusher 1) (goto 1 (Want 1) (goto 0 Idle
          (goto 0 (Wrote 7) (fun _ => Idle))))))))))
    (fun u => if decide (u = 1%nat) then dom (<[7%nat := 0 + 1]> (∅ : gmap nat Z))
              else ∅).

(** Take the next action of the run. *)
Ltac run_step tac :=
  eapply rtc_l; [tac; try reflexivity|];
  cbn [cached stable gen gc_write_gen gc_flushed_gen flush_busy pcs before init].

Lemma demo_run_reachable : reachable demo_run.
Proof.
  unfold reachable, demo_run.
  run_step ltac:(apply (s_transfer 0 7 init); [reflexivity|set_solver]).
  run_step ltac:(eapply (s_bump 0 7)).
  run_step ltac:(eapply (s_enter 1)).
  run_step ltac:(eapply (s_take 1 1)).
  run_step ltac:(eapply (s_sample 1 1)).
  run_step ltac:(eapply (s_fsync 1 1 1)).
  run_step ltac:(eapply (s_fsync_ok 1 1 1 _ ∅); [reflexivity|set_solver]).
  run_step ltac:(eapply (s_store 1 1 1 true)).
  run_step ltac:(eapply (s_release 1 1 true)).
  apply rtc_refl.
Qed.




End GroupCommit.
