(* ===== verification/Dev.v ===== *)
(** * What the engine relies on of its storage

    The metadata engine reaches its bytes only through [io_pread],
    [io_pwrite] and [vmux_barrier] (src/src/core/volume_internal.h:170-191).
    [Dev] names these operations, [DevLaws] states what they promise; Mux.v
    shows that the one- and two-device multiplexer of volume.c keeps the
    promise, and the files above are proved against the interface. *)

From S2P Require Import Prelude.

(** The barrier's three answers: both devices durable, device 0 dropped out,
    failure. *)
Inductive barrier_rc := BarOk | BarDev0Lost | BarFail.

(** The device table in block 0, the one thing a barrier may rewrite. *)
Definition INVFS_DEVT_OFF : Z := 0x2A0.
Definition DEVT_LEN : Z := 188.

Class Dev (D : Type) := {
  dev_pread : Z -> Z -> M D bytes;           (* offset, length *)
  dev_pwrite : Z -> bytes -> M D unit;
  dev_barrier : D -> barrier_rc * D;
  dev_degraded : D -> bool;                  (* v->st.degraded *)
  dev_latched : D -> bool;                   (* v->io_latched *)
  dev_latch : D -> D                         (* vol_io_error_latch *)
}.

(** Laws.  [dview] is the logical contents, [dwf] the storage invariant,
    [dok] the ranges the engine may touch (the span of device 1 that mirrors
    the metadata is not one), and [dquiet] a storage without pending faults.
    A latched store promises nothing further. *)
Class DevLaws (D : Type) `{!Dev D} := {
  dview : D -> Z -> Z;
  dwf : D -> Prop;
  dok : D -> Z -> Z -> Prop;
  dquiet : D -> Prop;
  dcap : D -> Z;
  dev_latched_pread off n d r d' :
    dev_pread off n d = (r, d') ->
    dev_latched d' = false -> dev_latched d = false;
  dev_latched_pwrite off bs d r d' :
    dev_pwrite off bs d = (r, d') ->
    dev_latched d' = false -> dev_latched d = false;
  dev_latched_barrier d r d' :
    dev_barrier d = (r, d') ->
    dev_latched d' = false -> dev_latched d = false;
  dev_pread_law off n d r d' :
    dwf d -> 0 <= off -> 0 <= n -> dok d off n -> dev_latched d = false ->
    dev_pread off n d = (r, d') ->
    dwf d' /\ (forall o m, dok d' o m <-> dok d o m) /\
    dev_latched d' = false /\ (forall a, dview d' a = dview d a) /\
    (forall bs, r = Some bs -> bs = map (dview d) (seqZ off n));
  dev_pwrite_law off bs d r d' :
    dwf d -> 0 <= off -> dok d off (zlen bs) -> dev_latched d = false ->
    dev_pwrite off bs d = (r, d') ->
    dwf d' /\ (forall o m, dok d' o m <-> dok d o m) /\
    (dev_latched d' = false ->
     (forall a, ~ (off <= a < off + zlen bs) -> dview d' a = dview d a) /\
     (r = Some tt -> forall a, off <= a < off + zlen bs ->
        dview d' a = nthZ bs (a - off)));
  dev_barrier_law d r d' :
    dwf d -> dev_latched d = false -> dev_barrier d = (r, d') ->
    dwf d' /\ (forall o m, dok d' o m <-> dok d o m) /\
    (dev_latched d' = false ->
     forall a, ~ (INVFS_DEVT_OFF <= a < INVFS_DEVT_OFF + DEVT_LEN) ->
       dview d' a = dview d a);
  dquiet_wf d : dquiet d -> dwf d /\ dev_latched d = false;
  dev_pread_live off n d :
    dquiet d -> 0 <= off -> 0 <= n -> off + n <= dcap d -> dok d off n ->
    exists bs d', dev_pread off n d = (Some bs, d') /\ dquiet d' /\
      dcap d' = dcap d;
  dev_pwrite_live off bs d :
    dquiet d -> 0 <= off -> off + zlen bs <= dcap d -> dok d off (zlen bs) ->
    exists d', dev_pwrite off bs d = (Some tt, d') /\ dquiet d' /\
      dcap d' = dcap d;
  dev_barrier_live d :
    dquiet d -> exists d', dev_barrier d = (BarOk, d') /\ dquiet d' /\
      dcap d' = dcap d;
  dquiet_up d : dquiet d -> dev_degraded d = false
}.
