(* ===== verification/Mux.v ===== *)
(** * The device multiplexer (src/src/core/volume.c, vmux)

    A volume lives on one device, or on two: the metadata span is written
    through to both, raw data lives on device 0 and the shadow zone on
    device 1.  A failing device 0 is dropped for the session, a failing
    device 1 latches the volume.  The file models the routing, the mirror,
    the fail-over reads, the barrier with its device-table bump and the
    error latch of vol_crash.c, and shows that they implement [Dev]. *)

From S2P Require Import Prelude Crc32c Blkio Dev.

Module Mux.
Import Crc32c Blkio.

(** Source: core/invarifs.h:412-422 [invfs_devt] *)
Record invfs_devt := Devt {
  devt_version : Z;
  devt_dev_count : Z;
  devt_flags : Z;
  devt_dev_blocks0 : Z;
  devt_dev_blocks1 : Z;
  sync_seq : Z;
  devt_uuid : bytes;
  dev1_hint : bytes;
  devt_crc32c : Z
}.

(** The wire image: magic "DEVT", then the fields. *)
Definition devt_bytes (d : invfs_devt) : bytes :=
  [68; 69; 86; 84] ++ le_bytes 4 (devt_version d) ++
  le_bytes 4 (devt_dev_count d) ++ le_bytes 4 (devt_flags d) ++
  le_bytes 8 (devt_dev_blocks0 d) ++ le_bytes 8 (devt_dev_blocks1 d) ++
  le_bytes 8 (sync_seq d) ++ slice (devt_uuid d ++ zeros 16) 0 16 ++
  slice (dev1_hint d ++ zeros 128) 0 128 ++ le_bytes 4 (devt_crc32c d).

Definition devt_set_crc (c : Z) (d : invfs_devt) : invfs_devt :=
  Devt (devt_version d) (devt_dev_count d) (devt_flags d)
    (devt_dev_blocks0 d) (devt_dev_blocks1 d) (sync_seq d) (devt_uuid d)
    (dev1_hint d) c.
Definition devt_bump (d : invfs_devt) : invfs_devt :=
  Devt (devt_version d) (devt_dev_count d) (devt_flags d)
    (devt_dev_blocks0 d) (devt_dev_blocks1 d) (u64 (sync_seq d + 1))
    (devt_uuid d) (dev1_hint d) (devt_crc32c d).

(** Source: core/volume.c [devt_crc] *)
Definition devt_crc (d : invfs_devt) : Z :=
  invfs_crc32c (devt_bytes (devt_set_crc 0 d)).

(** The storage part of the volume handle. *)
Record mux := mkMux {
  io : blkio;
  io2 : blkio;
  io_open0 : bool; io_open1 : bool;
  ndev : Z;
  degraded : bool;
  dev_skip0 : bool; dev_skip1 : bool;
  meta_end_bytes : Z;
  dev0_blocks : Z;
  mux_pos : Z;
  metaread_logged : bool;
  devt : invfs_devt;
  needs_recovery : bool;
  io_latched : bool;
  inode_area_pos : Z;
  inode_area_durable : Z
}.

Definition set_io x v := mkMux x (io2 v) (io_open0 v) (io_open1 v) (ndev v)
  (degraded v) (dev_skip0 v) (dev_skip1 v) (meta_end_bytes v) (dev0_blocks
  v) (mux_pos v) (metaread_logged v) (devt v) (needs_recovery v) (io_latched
  v) (inode_area_pos v) (inode_area_durable v).
Definition set_io2 x v := mkMux (io v) x (io_open0 v) (io_open1 v) (ndev v)
  (degraded v) (dev_skip0 v) (dev_skip1 v) (meta_end_bytes v) (dev0_blocks
  v) (mux_pos v) (metaread_logged v) (devt v) (needs_recovery v) (io_latched
  v) (inode_area_pos v) (inode_area_durable v).
Definition set_io_open0 x v := mkMux (io v) (io2 v) x (io_open1 v) (ndev v)
  (degraded v) (dev_skip0 v) (dev_skip1 v) (meta_end_bytes v) (dev0_blocks
  v) (mux_pos v) (metaread_logged v) (devt v) (needs_recovery v) (io_latched
  v) (inode_area_pos v) (inode_area_durable v).
Definition set_io_open1 x v := mkMux (io v) (io2 v) (io_open0 v) x (ndev v)
  (degraded v) (dev_skip0 v) (dev_skip1 v) (meta_end_bytes v) (dev0_blocks
  v) (mux_pos v) (metaread_logged v) (devt v) (needs_recovery v) (io_latched
  v) (inode_area_pos v) (inode_area_durable v).
Definition set_ndev x v := mkMux (io v) (io2 v) (io_open0 v) (io_open1 v) x
  (degraded v) (dev_skip0 v) (dev_skip1 v) (meta_end_bytes v) (dev0_blocks
  v) (mux_pos v) (metaread_logged v) (devt v) (needs_recovery v) (io_latched
  v) (inode_area_pos v) (inode_area_durable v).
Definition set_degraded x v := mkMux (io v) (io2 v) (io_open0 v) (io_open1
  v) (ndev v) x (dev_skip0 v) (dev_skip1 v) (meta_end_bytes v) (dev0_blocks
  v) (mux_pos v) (metaread_logged v) (devt v) (needs_recovery v) (io_latched
  v) (inode_area_pos v) (inode_area_durable v).
Definition set_dev_skip0 x v := mkMux (io v) (io2 v) (io_open0 v) (io_open1
  v) (ndev v) (degraded v) x (dev_skip1 v) (meta_end_bytes v) (dev0_blocks
  v) (mux_pos v) (metaread_logged v) (devt v) (needs_recovery v) (io_latched
  v) (inode_area_pos v) (inode_area_durable v).
Definition set_dev_skip1 x v := mkMux (io v) (io2 v) (io_open0 v) (io_open1
  v) (ndev v) (degraded v) (dev_skip0 v) x (meta_end_bytes v) (dev0_blocks
  v) (mux_pos v) (metaread_logged v) (devt v) (needs_recovery v) (io_latched
  v) (inode_area_pos v) (inode_area_durable v).
Definition set_meta_end_bytes x v := mkMux (io v) (io2 v) (io_open0 v)
  (io_open1 v) (ndev v) (degraded v) (dev_skip0 v) (dev_skip1 v) x
  (dev0_blocks v) (mux_pos v) (metaread_logged v) (devt v) (needs_recovery
  v) (io_latched v) (inode_area_pos v) (inode_area_durable v).
Definition set_dev0_blocks x v := mkMux (io v) (io2 v) (io_open0 v)
  (io_open1 v) (ndev v) (degraded v) (dev_skip0 v) (dev_skip1 v)
  (meta_end_bytes v) x (mux_pos v) (metaread_logged v) (devt v)
  (needs_recovery v) (io_latched v) (inode_area_pos v) (inode_area_durable
  v).
Definition set_mux_pos x v := mkMux (io v) (io2 v) (io_open0 v) (io_open1 v)
  (ndev v) (degraded v) (dev_skip0 v) (dev_skip1 v) (meta_end_bytes v)
  (dev0_blocks v) x (metaread_logged v) (devt v) (needs_recovery v)
  (io_latched v) (inode_area_pos v) (inode_area_durable v).
Definition set_metaread_logged x v := mkMux (io v) (io2 v) (io_open0 v)
  (io_open1 v) (ndev v) (degraded v) (dev_skip0 v) (dev_skip1 v)
  (meta_end_bytes v) (dev0_blocks v) (mux_pos v) x (devt v) (needs_recovery
  v) (io_latched v) (inode_area_pos v) (inode_area_durable v).
Definition set_devt x v := mkMux (io v) (io2 v) (io_open0 v) (io_open1 v)
  (ndev v) (degraded v) (dev_skip0 v) (dev_skip1 v) (meta_end_bytes v)
  (dev0_blocks v) (mux_pos v) (metaread_logged v) x (needs_recovery v)
  (io_latched v) (inode_area_pos v) (inode_area_durable v).
Definition set_needs_recovery x v := mkMux (io v) (io2 v) (io_open0 v)
  (io_open1 v) (ndev v) (degraded v) (dev_skip0 v) (dev_skip1 v)
  (meta_end_bytes v) (dev0_blocks v) (mux_pos v) (metaread_logged v) (devt
  v) x (io_latched v) (inode_area_pos v) (inode_area_durable v).
Definition set_io_latched x v := mkMux (io v) (io2 v) (io_open0 v) (io_open1
  v) (ndev v) (degraded v) (dev_skip0 v) (dev_skip1 v) (meta_end_bytes v)
  (dev0_blocks v) (mux_pos v) (metaread_logged v) (devt v) (needs_recovery
  v) x (inode_area_pos v) (inode_area_durable v).
Definition set_inode_area_pos x v := mkMux (io v) (io2 v) (io_open0 v)
  (io_open1 v) (ndev v) (degraded v) (dev_skip0 v) (dev_skip1 v)
  (meta_end_bytes v) (dev0_blocks v) (mux_pos v) (metaread_logged v) (devt
  v) (needs_recovery v) (io_latched v) x (inode_area_durable v).
Definition set_inode_area_durable x v := mkMux (io v) (io2 v) (io_open0 v)
  (io_open1 v) (ndev v) (degraded v) (dev_skip0 v) (dev_skip1 v)
  (meta_end_bytes v) (dev0_blocks v) (mux_pos v) (metaread_logged v) (devt
  v) (needs_recovery v) (io_latched v) (inode_area_pos v) x.

Definition INVFS_BLOCK_SIZE : Z := 4096.

(** Run a transfer on one of the two handles. *)
Definition on_io {A} (m : M blkio A) : M mux A := fun v =>
  let '(r, b) := m (io v) in (r, set_io b v).
Definition on_io2 {A} (m : M blkio A) : M mux A := fun v =>
  let '(r, b) := m (io2 v) in (r, set_io2 b v).

(** Source: core/vol_crash.c [vol_io_error_latch] *)
Definition vol_io_error_latch (v : mux) : mux :=
  let v := set_needs_recovery true v in
  let v := set_io_latched true v in
  set_inode_area_pos (inode_area_durable v) v.

(** Source: core/volume.c [mux_dev0_bytes] *)
Definition mux_dev0_bytes (v : mux) : Z := dev0_blocks v * INVFS_BLOCK_SIZE.

(** Source: core/volume.c [vmux_seek] *)
Definition vmux_seek (off : Z) : M mux unit := mmod (set_mux_pos off).

(** Source: core/volume.c [vmux_pread1] *)
Definition vmux_pread1 (off len : Z) : M mux bytes :=
  let* v := mget in
  if off <? meta_end_bytes v then
    let use0 := io_open0 v && negb (dev_skip0 v) in
    let* r := (if use0 then mtry (on_io (blkio_pread off len)) else mret None) in
    match r with
    | Some bs => mret bs
    | None =>
        (if use0 then mmod (set_metaread_logged true) else mret tt) ;;;
        if io_open1 v && negb (dev_skip1 v) then on_io2 (blkio_pread off len)
        else mfail
    end
  else if off <? mux_dev0_bytes v then
    if negb (io_open0 v) || dev_skip0 v then mfail
    else on_io (blkio_pread off len)
  else if negb (io_open1 v) || dev_skip1 v then mfail
  else on_io2 (blkio_pread (off - mux_dev0_bytes v) len).

Definition single (v : mux) : bool := (ndev v <? 2) && negb (degraded v).

(** How much of [off, off+len) lies on one side of the routing boundaries. *)
Definition mux_piece (v : mux) (off len : Z) : Z :=
  let n := len in
  let n := if (off <? meta_end_bytes v) && (meta_end_bytes v <? off + n)
           then meta_end_bytes v - off else n in
  if (off <? mux_dev0_bytes v) && (mux_dev0_bytes v <? off + n)
  then mux_dev0_bytes v - off else n.

Fixpoint vmux_pread_loop (fuel : nat) (off len : Z) (out : bytes)
  : M mux bytes :=
  if len =? 0 then mret out else
  match fuel with
  | O => mfail
  | S fuel =>
      let* v := mget in
      let n := mux_piece v off len in
      let* bs := vmux_pread1 off n in
      vmux_pread_loop fuel (off + n) (len - n) (out ++ bs)
  end.

(** Source: core/volume.c [vmux_pread] *)
Definition vmux_pread (off len : Z) : M mux bytes := fun v =>
  if single v then on_io (blkio_pread off len) v
  else vmux_pread_loop (Z.to_nat len) off len [] v.

(** Source: core/volume.c [vmux_read] *)
Definition vmux_read (len : Z) : M mux bytes :=
  let* v := mget in
  let off := mux_pos v in
  let* bs := vmux_pread off len in
  mmod (set_mux_pos (off + len)) ;;; mret bs.

(** Source: core/volume.c [vmux_pwrite1] *)
Definition vmux_pwrite1 (off : Z) (buf : bytes) : M mux unit :=
  let* v := mget in
  if off <? meta_end_bytes v then
    mguard (negb (degraded v)) ;;;
    let* wrote0 :=
      (if io_open0 v && negb (dev_skip0 v) then
         let* r := mtry (on_io (blkio_pwrite off buf)) in
         match r with
         | None => mmod (set_dev_skip0 true) ;;; mret false
         | Some _ => mret true
         end
       else mret false) in
    let* wrote :=
      (if io_open1 v && negb (dev_skip1 v) then
         let* r := mtry (on_io2 (blkio_pwrite off buf)) in
         match r with
         | None => mmod vol_io_error_latch ;;; mfail
         | Some _ => mret true
         end
       else mret wrote0) in
    mguard wrote
  else if off <? mux_dev0_bytes v then
    if negb (io_open0 v) || dev_skip0 v then
      (if degraded v && negb (metaread_logged v)
       then mmod (set_metaread_logged true) else mret tt) ;;;
      mfail
    else on_io (blkio_pwrite off buf)
  else if negb (io_open1 v) || dev_skip1 v then mfail
  else on_io2 (blkio_pwrite (off - mux_dev0_bytes v) buf).

Fixpoint vmux_pwrite_loop (fuel : nat) (off : Z) (in_ : bytes) : M mux unit :=
  if zlen in_ =? 0 then mret tt else
  match fuel with
  | O => mfail
  | S fuel =>
      let* v := mget in
      let n := mux_piece v off (zlen in_) in
      vmux_pwrite1 off (take (Z.to_nat n) in_) ;;;
      vmux_pwrite_loop fuel (off + n) (drop (Z.to_nat n) in_)
  end.

(** Source: core/volume.c [vmux_pwrite] *)
Definition vmux_pwrite (off : Z) (buf : bytes) : M mux unit := fun v =>
  if single v then on_io (blkio_pwrite off buf) v
  else vmux_pwrite_loop (length buf) off buf v.

(** Source: core/volume.c [vmux_write] *)
Definition vmux_write (buf : bytes) : M mux unit :=
  let* v := mget in
  let off := mux_pos v in
  vmux_pwrite off buf ;;;
  mmod (set_mux_pos (off + zlen buf)).

(** Source: core/volume.c [vmux_close] *)
Definition vmux_close (v : mux) : mux := set_io_open1 false (set_io_open0 false v).

(** Source: core/volume.c [vol_write_devt] *)
Definition vol_write_devt : M mux unit :=
  let* v := mget in
  if negb (ndev v =? 2) then mret tt else
  let t := devt_set_crc (devt_crc (devt v)) (devt v) in
  vmux_seek INVFS_DEVT_OFF ;;;
  vmux_write (devt_bytes t) ;;;
  mmod (set_devt t).

(** Source: core/volume.c [vmux_barrier] *)
Definition vmux_barrier (v : mux) : barrier_rc * mux :=
  if single v then
    let '(r, v) := on_io blkio_flush v in
    ((if is_ok r then BarOk else BarFail), v)
  else
    let '(r0, v) :=
      (if io_open0 v && negb (dev_skip0 v) then
         let '(r, v) := on_io blkio_flush v in
         if is_ok r then (Some tt, v)
         else
           let v := set_dev_skip0 true v in
           let v := set_devt (devt_bump (devt v)) v in
           vol_write_devt v
       else (Some tt, v)) in
    if negb (is_ok r0) then (BarFail, v)
    else if io_open1 v then
      let '(r, v) := on_io2 blkio_flush v in
      if is_ok r then ((if dev_skip0 v then BarDev0Lost else BarOk), v)
      else (BarFail, v)
    else ((if dev_skip0 v then BarDev0Lost else BarOk), v).

#[export] Instance mux_dev : Dev mux := {
  dev_pread := vmux_pread;
  dev_pwrite := vmux_pwrite;
  dev_barrier := vmux_barrier;
  dev_degraded := degraded;
  dev_latched := io_latched;
  dev_latch := vol_io_error_latch
}.

(** ** Logical contents *)

Abbreviation mem0 v := (k_mem (io_k (io v))).
Abbreviation mem1 v := (k_mem (io_k (io2 v))).

Definition use0 (v : mux) : bool := io_open0 v && negb (dev_skip0 v).
Definition use1 (v : mux) : bool := io_open1 v && negb (dev_skip1 v).

(** Device 0 is the source of metadata unless only device 1 is usable. *)
Definition src0 (v : mux) : bool := use0 v || negb (use1 v).

(** The byte the engine sees at a volume offset.  The span of device 1 that
    holds the metadata mirror has no meaning of its own. *)
Definition mview (v : mux) (a : Z) : Z :=
  if single v then byte_at (mem0 v) a
  else if a <? meta_end_bytes v then
    if src0 v then byte_at (mem0 v) a else byte_at (mem1 v) a
  else if a <? mux_dev0_bytes v then byte_at (mem0 v) a
  else if a <? mux_dev0_bytes v + meta_end_bytes v then 0
  else byte_at (mem1 v) (a - mux_dev0_bytes v).

(** The two metadata copies agree while both are in use; block 0 is
    metadata. *)
Definition mwf (v : mux) : Prop :=
  0 <= meta_end_bytes v <= mux_dev0_bytes v /\
  (single v = false -> INVFS_BLOCK_SIZE <= meta_end_bytes v) /\
  (single v = false -> io_latched v = false -> use0 v = true -> use1 v = true ->
   forall a, a < meta_end_bytes v -> byte_at (mem1 v) a = byte_at (mem0 v) a).

Definition mok (v : mux) (off n : Z) : Prop :=
  single v = true \/ off + n <= mux_dev0_bytes v \/
  mux_dev0_bytes v + meta_end_bytes v <= off.

(** What the logical view depends on. *)
Definition geo (v : mux) :=
  (io_open0 v, io_open1 v, ndev v, degraded v, dev_skip1 v, meta_end_bytes v,
   dev0_blocks v).
Definition core (v : mux) := (geo v, dev_skip0 v, io_latched v, mem0 v, mem1 v).

Lemma geo_facts v v' : geo v' = geo v ->
  single v' = single v /\ mux_dev0_bytes v' = mux_dev0_bytes v /\
  meta_end_bytes v' = meta_end_bytes v /\ use1 v' = use1 v /\
  io_open0 v' = io_open0 v /\ io_open1 v' = io_open1 v /\
  degraded v' = degraded v.
Proof.
  unfold geo, single, mux_dev0_bytes, use1. intros E. simplify_eq.
  repeat split; congruence.
Qed.

Lemma mok_geo v v' off n : geo v' = geo v -> mok v' off n <-> mok v off n.
Proof.
  intros E. destruct (geo_facts _ _ E) as (Es & Ed & Em & _).
  unfold mok. by rewrite Es, Ed, Em.
Qed.

Lemma core_facts v v' : core v' = core v ->
  geo v' = geo v /\ io_latched v' = io_latched v /\
  (forall a, mview v' a = mview v a) /\ (mwf v -> mwf v').
Proof.
  unfold core. intros E. assert (Eg : geo v' = geo v) by congruence.
  destruct (geo_facts _ _ Eg) as (Es & Ed & Em & Eu & E0 & _).
  assert (Esk : dev_skip0 v' = dev_skip0 v) by congruence.
  assert (El : io_latched v' = io_latched v) by congruence.
  assert (Ea : mem0 v' = mem0 v) by congruence.
  assert (Eb : mem1 v' = mem1 v) by congruence.
  split_and!; [done|done|..]; unfold mview, mwf, src0, use0;
    by rewrite ?Es, ?Ed, ?Em, ?Eu, ?E0, ?Esk, ?El, ?Ea, ?Eb.
Qed.

Lemma on_io_read off len v r v' :
  0 <= off -> 0 <= len -> on_io (blkio_pread off len) v = (r, v') ->
  core v' = core v /\ (forall bs, r = Some bs -> bs = mem_read (mem0 v) off len).
Proof.
  unfold on_io. intros Ho Hl. destruct (blkio_pread off len (io v)) as [r0 b] eqn:E.
  intros. simplify_eq. apply blkio_pread_spec in E as [Hs Hb]; [|done..].
  split; [|done]. unfold core. simpl. by rewrite (io_same_mem _ _ Hs).
Qed.

Lemma on_io2_read off len v r v' :
  0 <= off -> 0 <= len -> on_io2 (blkio_pread off len) v = (r, v') ->
  core v' = core v /\ (forall bs, r = Some bs -> bs = mem_read (mem1 v) off len).
Proof.
  unfold on_io2. intros Ho Hl. destruct (blkio_pread off len (io2 v)) as [r0 b] eqn:E.
  intros. simplify_eq. apply blkio_pread_spec in E as [Hs Hb]; [|done..].
  split; [|done]. unfold core. simpl. by rewrite (io_same_mem _ _ Hs).
Qed.

Lemma mok_sub v off n off' n' :
  mok v off n -> off <= off' -> off' + n' <= off + n -> mok v off' n'.
Proof.
  intros [?|[?|?]] ? ?; [by left|right; left; lia|right; right; lia].
Qed.

(** A range that one routing decision serves. *)
Definition one_side (v : mux) (off n : Z) : Prop :=
  off + n <= meta_end_bytes v \/
  (meta_end_bytes v <= off /\ off + n <= mux_dev0_bytes v) \/
  mux_dev0_bytes v <= off.

Lemma mux_piece_spec v off len :
  0 <= meta_end_bytes v <= mux_dev0_bytes v -> 0 <= off -> 0 < len ->
  0 < mux_piece v off len <= len /\ one_side v off (mux_piece v off len).
Proof.
  intros Hm Ho Hl. unfold mux_piece, one_side.
  set (n1 := if _ && (_ <? off + len) then _ else _).
  assert (H1 : 0 < n1 <= len /\ (off + n1 <= meta_end_bytes v \/ meta_end_bytes v <= off)).
  { unfold n1. destruct (_ && _) eqn:E; zbool; [lia|].
    apply andb_false_iff in E as [?|?]; zbool; lia. }
  clearbody n1. destruct (_ && _) eqn:E; zbool; [lia|].
  apply andb_false_iff in E as [?|?]; zbool; lia.
Qed.

Lemma map_view_eq v (m : mem) off off' n :
  (forall i, 0 <= i < n -> mview v (off + i) = byte_at m (off' + i)) ->
  map (mview v) (seqZ off n) = mem_read m off' n.
Proof.
  intros H. unfold mem_read. apply list_eq. intros j. rewrite !list_lookup_fmap.
  destruct (decide (Z.of_nat j < n)).
  - rewrite !lookup_seqZ_lt by lia. simpl. f_equal. apply H. lia.
  - by rewrite !lookup_seqZ_ge by lia.
Qed.

Ltac ltb_true := rewrite (proj2 (Z.ltb_lt _ _)) by lia.
Ltac ltb_false := rewrite (proj2 (Z.ltb_ge _ _)) by lia.

Lemma mview_meta v a : single v = false -> a < meta_end_bytes v ->
  mview v a = if src0 v then byte_at (mem0 v) a else byte_at (mem1 v) a.
Proof. intros Hs Ha. unfold mview. rewrite Hs. by ltb_true. Qed.
Lemma mview_dev0 v a : single v = false ->
  meta_end_bytes v <= a < mux_dev0_bytes v -> mview v a = byte_at (mem0 v) a.
Proof. intros Hs Ha. unfold mview. rewrite Hs. ltb_false. by ltb_true. Qed.
Lemma mview_dev1 v a : single v = false -> 0 <= meta_end_bytes v <= mux_dev0_bytes v ->
  mux_dev0_bytes v + meta_end_bytes v <= a ->
  mview v a = byte_at (mem1 v) (a - mux_dev0_bytes v).
Proof. intros Hs Hm Ha. unfold mview. rewrite Hs. by do 3 ltb_false. Qed.

(** ** Reads *)

Lemma vmux_pread1_spec off n v r v' :
  mwf v -> single v = false -> io_latched v = false -> 0 <= off -> 0 <= n ->
  one_side v off n -> mok v off n ->
  vmux_pread1 off n v = (r, v') ->
  core v' = core v /\ (forall bs, r = Some bs -> bs = map (mview v) (seqZ off n)).
Proof.
  intros (Hm & Hblk & Hag) Hs Hl Ho Hn Hside Hok. unfold vmux_pread1. cbn [mbind' mget].
  specialize (Hag Hs Hl). fold (use0 v) (use1 v).
  assert (Esrc : src0 v = use0 v || negb (use1 v)) by done.
  destruct (off <? meta_end_bytes v) eqn:E1; zbool.
  { assert (Hin : off + n <= meta_end_bytes v) by (destruct Hside as [|[[]|]]; lia).
    destruct (use0 v) eqn:Eu.
    - unfold mbind', mtry. destruct (on_io _ v) as [[bs|] v1] eqn:Er;
        apply on_io_read in Er as [Hc Hb]; try done.
      + intros [= <- <-]. split; [done|]. intros ? [= <-].
        rewrite (Hb _ eq_refl). symmetry. apply map_view_eq. intros i Hi.
        rewrite mview_meta, Esrc by (done || lia). done.
      + unfold mmod. destruct (use1 v) eqn:Eu1; unfold mfail; intros H.
        * apply on_io2_read in H as [Hc' Hb']; [|done..].
          split; [etrans; [exact Hc'|exact Hc]|]. intros bs ->.
          rewrite (Hb' _ eq_refl). symmetry. apply map_view_eq. intros i Hi.
          rewrite mview_meta, Esrc by (done || lia).
          assert (Em : mem1 v1 = mem1 v) by (unfold core in Hc; congruence).
          cbn [set_metaread_logged io2]. rewrite Em.
          rewrite Hag by (done || lia). done.
        * injection H as <- <-. split; [exact Hc|done].
    - unfold mret. cbn [mbind']. destruct (use1 v) eqn:Eu1; unfold mfail; intros H.
      + apply on_io2_read in H as [Hc' Hb']; [|done..]. split; [done|]. intros bs ->.
        rewrite (Hb' _ eq_refl). symmetry. apply map_view_eq. intros i Hi.
        rewrite mview_meta, Esrc by (done || lia). done.
      + by simplify_eq. }
  destruct (off <? mux_dev0_bytes v) eqn:E2; zbool.
  { assert (Hin : off + n <= mux_dev0_bytes v) by (destruct Hside as [|[[]|]]; lia).
    destruct (negb _ || dev_skip0 v); unfold mfail; intros H; [by simplify_eq|].
    apply on_io_read in H as [Hc Hb]; [|done..]. split; [done|]. intros bs ->.
    rewrite (Hb _ eq_refl). symmetry. apply map_view_eq. intros i Hi.
    by rewrite mview_dev0 by (done || lia). }
  destruct (negb _ || dev_skip1 v); unfold mfail; intros H; [by simplify_eq|].
  apply on_io2_read in H as [Hc Hb]; [|lia|done]. split; [done|]. intros bs ->.
  rewrite (Hb _ eq_refl). symmetry. apply map_view_eq. intros i Hi.
  destruct Hok as [?|[?|?]]; [congruence|lia|].
  rewrite mview_dev1 by (done || lia). f_equal. lia.
Qed.

Lemma vmux_pread_loop_spec fuel off len out v r v' :
  mwf v -> single v = false -> io_latched v = false -> 0 <= off -> 0 <= len ->
  mok v off len -> vmux_pread_loop fuel off len out v = (r, v') ->
  core v' = core v /\
  (forall bs, r = Some bs -> bs = out ++ map (mview v) (seqZ off len)).
Proof.
  revert off len out v. induction fuel as [|fuel IH];
    intros off len out v Hw Hs Hl Ho Hn Hok H; cbn [vmux_pread_loop] in H;
    destruct (len =? 0) eqn:Hz; zbool;
    try (unfold mret, mfail in H; simplify_eq; split; [done|]; intros; simplify_eq;
         by rewrite app_nil_r).
  cbn [mbind' mget] in H. set (n := mux_piece v off len) in *.
  destruct (mux_piece_spec v off len) as [Hp Hside]; [apply Hw|done|lia|]. fold n in Hp, Hside.
  assert (Hok1 : mok v off n) by (eapply mok_sub; [done|lia..]).
  apply mbind_run in H as [(bs1 & v1 & H1 & H) | [H1 ->]];
    apply vmux_pread1_spec in H1 as [Hc Hb]; try done; try lia.
  destruct (core_facts _ _ Hc) as (Hg & Hl' & Hv & Hw').
  apply IH in H as [Hc2 Hb2]; try lia; auto.
  2: by rewrite (proj1 (geo_facts _ _ Hg)).
  2: congruence.
  2: { apply (mok_geo v); [done|]. eapply mok_sub; [exact Hok|lia..]. }
  split; [congruence|]. intros bs ->. rewrite (Hb2 _ eq_refl), <- app_assoc.
  f_equal. rewrite (Hb _ eq_refl). rewrite (map_ext _ _ Hv).
  rewrite <- map_app, <- seqZ_app by lia. do 2 f_equal. lia.
Qed.

Lemma vmux_pread_spec off len v r v' :
  mwf v -> io_latched v = false -> 0 <= off -> 0 <= len -> mok v off len ->
  vmux_pread off len v = (r, v') ->
  core v' = core v /\ (forall bs, r = Some bs -> bs = map (mview v) (seqZ off len)).
Proof.
  intros Hw Hl Ho Hn Hok. unfold vmux_pread. destruct (single v) eqn:Hs; intros H.
  - apply on_io_read in H as [Hc Hb]; [|done..]. split; [done|]. intros bs ->.
    rewrite (Hb _ eq_refl). symmetry. apply map_view_eq. intros.
    unfold mview. by rewrite Hs.
  - by apply vmux_pread_loop_spec in H.
Qed.

(** ** Writes *)

Lemma on_io_write off buf v r v' :
  0 <= off -> on_io (blkio_pwrite off buf) v = (r, v') ->
  geo v' = geo v /\ dev_skip0 v' = dev_skip0 v /\ io_latched v' = io_latched v /\
  mem1 v' = mem1 v /\ wrote (mem0 v) (mem0 v') off buf (is_ok r).
Proof.
  unfold on_io. intros Ho. destruct (blkio_pwrite off buf (io v)) as [r0 b] eqn:E.
  intros. simplify_eq. by apply blkio_pwrite_spec in E as [Hw _].
Qed.

Lemma on_io2_write off buf v r v' :
  0 <= off -> on_io2 (blkio_pwrite off buf) v = (r, v') ->
  geo v' = geo v /\ dev_skip0 v' = dev_skip0 v /\ io_latched v' = io_latched v /\
  mem0 v' = mem0 v /\ wrote (mem1 v) (mem1 v') off buf (is_ok r).
Proof.
  unfold on_io2. intros Ho. destruct (blkio_pwrite off buf (io2 v)) as [r0 b] eqn:E.
  intros. simplify_eq. by apply blkio_pwrite_spec in E as [Hw _].
Qed.

(** The outcome of a write, at the logical level. *)
Definition mwrote (v v' : mux) (off : Z) (buf : bytes) (ok : bool) : Prop :=
  geo v' = geo v /\ mwf v' /\ (io_latched v' = false -> io_latched v = false) /\
  (io_latched v' = false ->
   (forall a, ~ (off <= a < off + zlen buf) -> mview v' a = mview v a) /\
   (ok = true -> forall a, off <= a < off + zlen buf ->
      mview v' a = nthZ buf (a - off))).

(** A metadata write, from what it did to each copy: outside the range both
    are unchanged, the copy that is read afterwards holds the payload, and
    a switch from one copy to the other happens only between equal copies. *)
Lemma meta_write_view v v' off buf ok :
  mwf v -> single v = false -> io_latched v = false -> 0 <= off ->
  off + zlen buf <= meta_end_bytes v -> geo v' = geo v ->
  (forall a, ~ (off <= a < off + zlen buf) -> byte_at (mem0 v') a = byte_at (mem0 v) a) ->
  (forall a, ~ (off <= a < off + zlen buf) -> byte_at (mem1 v') a = byte_at (mem1 v) a) ->
  (io_latched v' = false -> use0 v' = true -> use0 v = true /\
     forall a, off <= a < off + zlen buf -> byte_at (mem0 v') a = nthZ buf (a - off)) ->
  (io_latched v' = false -> use1 v = true ->
     forall a, off <= a < off + zlen buf -> byte_at (mem1 v') a = nthZ buf (a - off)) ->
  (ok = true -> use0 v' = true \/ use1 v = true) ->
  mwrote v v' off buf ok.
Proof.
  intros (Hm & Hblk & Hag) Hs Hl Ho Hin Hg F0 F1 I0 I1 Hok.
  destruct (geo_facts _ _ Hg) as (Es & Ed & Em & Eu1 & _).
  specialize (Hag Hs Hl). split; [done|]. split; [|split; [done|intros Hl'; split]].
  - split; [lia|]. rewrite Es, Em, Eu1. split; [done|]. intros _ Hl' Hu0 Hu1 a Ha.
    destruct (I0 Hl' Hu0) as [Hu0v Hb0].
    destruct (decide (off <= a < off + zlen buf)).
    + by rewrite Hb0, I1.
    + by rewrite F0, F1, Hag.
  - intros a Ha. unfold mview. rewrite Es, Ed, Em, Hs.
    destruct (a <? meta_end_bytes v) eqn:E1; zbool.
    2: { destruct (a <? _); [by apply F0|]. destruct (a <? _) eqn:E2; [done|]. zbool.
         apply F1. lia. }
    unfold src0. rewrite Eu1. destruct (use0 v') eqn:E0; simpl.
    { destruct (I0 Hl' eq_refl) as [-> _]. by apply F0. }
    destruct (use1 v) eqn:E1'; simpl.
    + rewrite orb_false_r. destruct (use0 v) eqn:E0'; [|by apply F1].
      rewrite F1 by done. by apply Hag.
    + rewrite orb_true_r. by apply F0.
  - intros Hr a Ha. unfold mview. rewrite Es, Em, Hs. ltb_true.
    unfold src0. rewrite Eu1. destruct (use0 v') eqn:E0; simpl; [by apply I0|].
    destruct (Hok Hr) as [?|E1]; [done|]. rewrite E1. simpl. by apply I1.
Qed.
Lemma use0_geo v v' : geo v' = geo v -> dev_skip0 v' = dev_skip0 v -> use0 v' = use0 v.
Proof. unfold geo, use0. intros E ->. simplify_eq. congruence. Qed.

(** The device-0 half of a metadata write. *)
Lemma meta_dev0_spec off buf v r v1 :
  0 <= off ->
  (if use0 v then
     let* r := mtry (on_io (blkio_pwrite off buf)) in
     match r with
     | None => mmod (set_dev_skip0 true) ;;; mret false
     | Some _ => mret true
     end
   else mret false) v = (r, v1) ->
  geo v1 = geo v /\ io_latched v1 = io_latched v /\ mem1 v1 = mem1 v /\
  (forall a, ~ (off <= a < off + zlen buf) -> byte_at (mem0 v1) a = byte_at (mem0 v) a) /\
  r = Some (use0 v1) /\
  (use0 v1 = true -> use0 v = true /\
     forall a, off <= a < off + zlen buf -> byte_at (mem0 v1) a = nthZ buf (a - off)).
Proof.
  intros Ho. destruct (use0 v) eqn:Eu.
  2: { intros [= <- <-]. rewrite Eu. done. }
  unfold mbind', mtry. destruct (on_io _ v) as [r0 v0] eqn:E.
  apply on_io_write in E as (Hg & Hsk & Hl & Hm & Hw); [|done].
  pose proof (use0_geo _ _ Hg Hsk) as Eu0. destruct r0 as [[]|]; intros [= <- <-].
  - split_and!; try done; [apply Hw|by rewrite Eu0, Eu|].
    intros _. split; [done|]. by apply Hw.
  - unfold use0. simpl. rewrite andb_false_r. split_and!; try done. apply Hw.
Qed.

Lemma data_write_view v v' off buf ok :
  mwf v -> single v = false -> 0 <= off -> mok v off (zlen buf) ->
  geo v' = geo v -> dev_skip0 v' = dev_skip0 v -> io_latched v' = io_latched v ->
  ((meta_end_bytes v <= off /\ off + zlen buf <= mux_dev0_bytes v /\
    mem1 v' = mem1 v /\ wrote (mem0 v) (mem0 v') off buf ok) \/
   (mux_dev0_bytes v + meta_end_bytes v <= off /\ mem0 v' = mem0 v /\
    wrote (mem1 v) (mem1 v') (off - mux_dev0_bytes v) buf ok)) ->
  mwrote v v' off buf ok.
Proof.
  intros (Hm & Hblk & Hag) Hs Ho Hok Hg Hsk Hl Hor.
  destruct (geo_facts _ _ Hg) as (Es & Ed & Em & Eu1 & _).
  pose proof (use0_geo _ _ Hg Hsk) as Eu0.
  split; [done|]. split; [|split; [by rewrite Hl|intros _; split]].
  - split; [lia|]. rewrite Es, Em, Eu1, Eu0, Hl. split; [done|]. intros H1 H2 H3 H4 a Ha.
    destruct Hor as [(? & ? & E & Hw)|(? & E & Hw)]; rewrite E.
    + rewrite (Hag H1 H2 H3 H4) by done. symmetry. apply Hw. lia.
    + rewrite (proj1 Hw) by lia. by apply Hag.
  - intros a Ha. unfold mview, src0. rewrite Es, Ed, Em, Hs, Eu0, Eu1.
    destruct Hor as [(? & ? & E & Hw)|(? & E & Hw)]; rewrite E;
      repeat match goal with |- context [?x <? ?y] => destruct (x <? y) eqn:?; zbool end;
      try done; try (apply Hw; lia).
    + destruct (_ || _); [apply Hw; lia|done].
    + destruct (_ || _); [done|apply Hw; lia].
  - intros Hr a Ha. destruct Hor as [(? & ? & E & Hw)|(? & E & Hw)].
    + rewrite mview_dev0 by (rewrite ?Es, ?Ed, ?Em; done || lia). by apply Hw.
    + rewrite mview_dev1 by (rewrite ?Es, ?Ed, ?Em; done || lia).
      rewrite (proj2 Hw) by (done || lia). f_equal. lia.
Qed.

Lemma mwrote_none v off buf : mwf v -> mwrote v v off buf false.
Proof. by intros Hw. Qed.

Lemma mwrote_core v v0 v' off buf ok :
  core v0 = core v -> mwrote v0 v' off buf ok -> mwrote v v' off buf ok.
Proof.
  intros Hc (Hg & Hw & Hl & Hv). destruct (core_facts _ _ Hc) as (Hg0 & Hl0 & Hv0 & _).
  split; [congruence|]. split; [done|]. split; [by rewrite <- Hl0|].
  intros H. destruct (Hv H) as [H1 H2]. split; [|done]. intros. by rewrite H1, Hv0.
Qed.

(** The device-1 half. *)
Lemma meta_dev1_spec off buf (b w0 : bool) v1 r v2 :
  0 <= off ->
  (if b then
     let* r := mtry (on_io2 (blkio_pwrite off buf)) in
     match r with
     | None => mmod vol_io_error_latch ;;; mfail
     | Some _ => mret true
     end
   else mret w0) v1 = (r, v2) ->
  geo v2 = geo v1 /\ dev_skip0 v2 = dev_skip0 v1 /\ mem0 v2 = mem0 v1 /\
  (forall a, ~ (off <= a < off + zlen buf) -> byte_at (mem1 v2) a = byte_at (mem1 v1) a) /\
  (io_latched v2 = false -> r = Some (b || w0) /\ io_latched v1 = false /\
     (b = true -> forall a, off <= a < off + zlen buf ->
        byte_at (mem1 v2) a = nthZ buf (a - off))) /\
  (is_ok r = true -> r = Some (b || w0)).
Proof.
  intros Ho. destruct b; [|by intros [= <- <-]].
  unfold mbind', mtry. destruct (on_io2 _ v1) as [r0 v0] eqn:E.
  apply on_io2_write in E as (Hg & Hsk & Hl & Hm & Hw); [|done].
  destruct r0 as [[]|]; intros [= <- <-].
  - split_and!; try done; [apply Hw|]. intros Hl2. split_and!; [done|congruence|].
    intros _. by apply Hw.
  - split_and!; try done. apply Hw.
Qed.

Lemma vmux_pwrite1_meta off buf v r v' :
  mwf v -> single v = false -> io_latched v = false -> 0 <= off ->
  off + zlen buf <= meta_end_bytes v -> off < meta_end_bytes v ->
  vmux_pwrite1 off buf v = (r, v') -> mwrote v v' off buf (is_ok r).
Proof.
  intros Hw Hs Hl Ho Hin Hlt. unfold vmux_pwrite1. cbn [mbind' mget].
  fold (use0 v) (use1 v). ltb_true.
  intros H. apply mbind_run in H as [([] & v0 & Hgd & H) | [Hgd ->]].
  2: { unfold mguard, mret, mfail in Hgd. destruct (negb _); simplify_eq.
       by apply mwrote_none. }
  apply mguard_Some in Hgd as [_ ->].
  apply mbind_run in H as [(w0 & v1 & H0 & H) | [H0 ->]];
    apply meta_dev0_spec in H0 as (Hg & Hl1 & Hm1 & F0 & Er & I0); try done.
  injection Er as ->.
  assert (H2 : exists r1, (is_ok r = true -> r1 = Some true) /\
    (if use1 v then
       let* r := mtry (on_io2 (blkio_pwrite off buf)) in
       match r with
       | None => mmod vol_io_error_latch ;;; mfail
       | Some _ => mret true
       end
     else mret (use0 v1)) v1 = (r1, v')).
  { apply mbind_run in H as [(w & v2 & H1 & H) | [H1 ->]]; [|by exists None].
    exists (Some w). unfold mguard, mret, mfail in H. by destruct w; simplify_eq. }
  clear H. destruct H2 as (r1 & Hr & H1).
  apply meta_dev1_spec in H1 as (Hg2 & Hsk2 & Hm0 & F1 & I1 & Hr1); [|done].
  pose proof (use0_geo _ _ Hg2 Hsk2) as Eu0. rewrite Hm1 in F1.
  apply (meta_write_view v v'); rewrite ?Hm0, ?Eu0; try done.
  - congruence.
  - intros Hl2 Hu. destruct (I1 Hl2) as (_ & _ & Hb). by apply Hb.
  - intros Hok. specialize (Hr Hok). subst r1. specialize (Hr1 eq_refl).
    injection Hr1 as E. symmetry in E. apply orb_true_iff in E as [E|E]; [by right|].
    left. congruence.
Qed.

Lemma vmux_pwrite1_spec off buf v r v' :
  mwf v -> single v = false -> io_latched v = false -> 0 <= off ->
  one_side v off (zlen buf) -> mok v off (zlen buf) -> buf <> [] ->
  vmux_pwrite1 off buf v = (r, v') -> mwrote v v' off buf (is_ok r).
Proof.
  intros Hw Hs Hl Ho Hside Hok Hne H. pose proof (proj1 Hw) as Hm.
  assert (Hlen : 0 < zlen buf) by (destruct buf; simpl; [done|lia]).
  destruct (decide (off < meta_end_bytes v)) as [Hlt|Hge].
  { eapply vmux_pwrite1_meta; eauto. destruct Hside as [|[[]|]]; lia. }
  unfold vmux_pwrite1 in H. cbn [mbind' mget] in H.
  rewrite (proj2 (Z.ltb_ge _ _)) in H by lia.
  destruct (off <? mux_dev0_bytes v) eqn:E2; zbool.
  - assert (off + zlen buf <= mux_dev0_bytes v) by (destruct Hside as [|[[]|]]; lia).
    destruct (negb _ || _).
    + destruct (_ && _); unfold mbind', mmod, mfail, mret in H;
        injection H as <- <-; simpl.
      * by apply (mwrote_core v v).
      * by apply mwrote_none.
    + apply on_io_write in H as (Hg & Hsk & Hl' & Hm1 & Hwr); [|done].
      apply data_write_view; try done. left. split_and!; done || lia.
  - destruct (negb _ || _); [unfold mfail in H; injection H as <- <-; by apply mwrote_none|].
    apply on_io2_write in H as (Hg & Hsk & Hl' & Hm1 & Hwr); [|lia].
    apply data_write_view; try done. right. split_and!; [|done..].
    destruct Hok as [?|[?|?]]; [congruence|lia|done].
Qed.

Lemma mwrote_app v v1 v2 off a b ok :
  mwrote v v1 off a true -> mwrote v1 v2 (off + zlen a) b ok ->
  mwrote v v2 off (a ++ b) ok.
Proof.
  intros (Hg1 & Hw1 & Hl1 & Hv1) (Hg2 & Hw2 & Hl2 & Hv2).
  split; [congruence|]. split; [done|]. split; [auto|]. intros Hl.
  destruct (Hv1 (Hl2 Hl)) as [F1 I1]. destruct (Hv2 Hl) as [F2 I2].
  rewrite length_app, Nat2Z.inj_add. split.
  - intros x Hx. rewrite F2 by lia. apply F1. lia.
  - intros Hok x Hx. unfold nthZ in *. destruct (decide (x < off + zlen a)).
    + rewrite F2 by lia. rewrite I1 by (done || lia). by rewrite app_nth1 by lia.
    + rewrite I2 by (done || lia). rewrite app_nth2 by lia. f_equal. lia.
Qed.

Lemma mwrote_fail_app v v1 off a b :
  mwrote v v1 off a false -> mwrote v v1 off (a ++ b) false.
Proof.
  intros (Hg & Hw & Hl & Hv). do 3 (split; [done|]). intros Hl'.
  destruct (Hv Hl') as [F _]. split; [|done]. intros x Hx. apply F.
  rewrite length_app in Hx. lia.
Qed.

(** Whatever happens, the geometry stays, the latch is never released and a
    dropped device 0 never comes back. *)
Definition keeps (v v' : mux) : Prop :=
  geo v' = geo v /\ (io_latched v = true -> io_latched v' = true) /\
  (dev_skip0 v = true -> dev_skip0 v' = true).

Lemma keeps_refl v : keeps v v.
Proof. done. Qed.
Lemma keeps_trans a b c : keeps a b -> keeps b c -> keeps a c.
Proof. intros (? & ? & ?) (? & ? & ?). split_and!; [congruence|auto..]. Qed.

Definition keeps_run {A} (m : M mux A) : Prop :=
  forall v r v', m v = (r, v') -> keeps v v'.

Lemma mkeeps_bind {A B} (m : M mux A) (k : A -> M mux B) :
  keeps_run m -> (forall a, keeps_run (k a)) -> keeps_run (mbind' m k).
Proof.
  intros Hm Hk v r v' H. apply mbind_run in H as [(a & v1 & H1 & H) | [H1 ->]];
    eauto using keeps_trans. eapply keeps_trans; [by eapply Hm|by eapply Hk].
Qed.
Lemma mkeeps_ret {A} (a : A) : keeps_run (mret a).
Proof. by intros v r v' [= <- <-]. Qed.
Lemma mkeeps_fail {A} : keeps_run (mfail : M mux A).
Proof. by intros v r v' [= <- <-]. Qed.
Lemma mkeeps_get : keeps_run mget.
Proof. by intros v r v' [= <- <-]. Qed.
Lemma mkeeps_guard b : keeps_run (mguard b).
Proof. destruct b; [apply mkeeps_ret|apply mkeeps_fail]. Qed.
Lemma keeps_mod f : (forall v, keeps v (f v)) -> keeps_run (mmod f).
Proof. by intros Hf v r v' [= <- <-]. Qed.
Lemma mkeeps_try {A} (m : M mux A) : keeps_run m -> keeps_run (mtry m).
Proof.
  intros Hm v r v'. unfold mtry. destruct (m v) as [r0 v0] eqn:E.
  intros [= <- <-]. eauto.
Qed.
Lemma keeps_on_io {A} (m : M blkio A) : keeps_run (on_io m).
Proof. intros v r v'. unfold on_io. destruct (m _). by intros [= <- <-]. Qed.
Lemma keeps_on_io2 {A} (m : M blkio A) : keeps_run (on_io2 m).
Proof. intros v r v'. unfold on_io2. destruct (m _). by intros [= <- <-]. Qed.

Create HintDb keeps.
#[local] Hint Resolve mkeeps_bind mkeeps_ret mkeeps_fail mkeeps_get mkeeps_guard
  mkeeps_try keeps_on_io keeps_on_io2 : keeps.
#[local] Hint Extern 1 (keeps_run (mmod _)) => by apply keeps_mod : keeps.
#[local] Hint Extern 2 (keeps_run (match ?x with _ => _ end)) => destruct x : keeps.

Lemma keeps_pread1 off n : keeps_run (vmux_pread1 off n).
Proof. unfold vmux_pread1. auto 20 with keeps. Qed.
Lemma keeps_pwrite1 off buf : keeps_run (vmux_pwrite1 off buf).
Proof. unfold vmux_pwrite1. auto 20 with keeps. Qed.
Lemma keeps_pwrite_loop fuel off buf : keeps_run (vmux_pwrite_loop fuel off buf).
Proof.
  revert off buf. induction fuel; intros; simpl; destruct (_ =? 0);
    auto using keeps_pwrite1 with keeps.
Qed.
Lemma keeps_pread_loop fuel off len out : keeps_run (vmux_pread_loop fuel off len out).
Proof.
  revert off len out. induction fuel; intros; simpl; destruct (_ =? 0);
    auto using keeps_pread1 with keeps.
Qed.
Lemma keeps_pwrite off buf : keeps_run (vmux_pwrite off buf).
Proof.
  intros v r v'. unfold vmux_pwrite. destruct (single v);
    [apply keeps_on_io|apply keeps_pwrite_loop].
Qed.
#[local] Hint Resolve keeps_pwrite : keeps.

Lemma vmux_pwrite_loop_spec fuel off buf v r v' :
  mwf v -> single v = false -> io_latched v = false -> 0 <= off ->
  mok v off (zlen buf) -> vmux_pwrite_loop fuel off buf v = (r, v') ->
  mwrote v v' off buf (is_ok r).
Proof.
  revert off buf v. induction fuel as [|fuel IH];
    intros off buf v Hw Hs Hl Ho Hok H; cbn [vmux_pwrite_loop] in H;
    destruct (_ =? 0) eqn:Hz in H; zbool;
    try (unfold mret, mfail in H; injection H as <- <-;
         do 3 (split; [done|]); intros _; split; [done|]; simpl; done || lia).
  cbn [mbind' mget] in H. set (n := mux_piece v off (zlen buf)) in *.
  destruct (mux_piece_spec v off (zlen buf)) as [Hp Hside]; [apply Hw|done|lia|].
  fold n in Hp, Hside. rewrite <- (take_drop (Z.to_nat n) buf).
  set (a := take (Z.to_nat n) buf) in *. set (b := drop (Z.to_nat n) buf) in *.
  assert (Ha : zlen a = n) by (unfold a; rewrite length_take; lia).
  assert (Hb : zlen b = zlen buf - n) by (unfold b; rewrite length_drop; lia).
  apply mbind_run in H as [([] & v1 & H1 & H) | [H1 ->]].
  - pose proof (keeps_pwrite1 _ _ _ _ _ H1) as (Hg1 & Hl1 & _).
    apply vmux_pwrite1_spec in H1; rewrite ?Ha; try done;
      [|by eapply mok_sub; [exact Hok|lia..]|intros ->; simpl in *; lia].
    destruct (io_latched v1) eqn:El.
    + apply keeps_pwrite_loop in H as (Hg2 & Hl2 & _). specialize (Hl2 El).
      assert (Hg : geo v' = geo v) by congruence.
      destruct (geo_facts _ _ Hg) as (Es & Ed & Em & _).
      split; [done|]. split; [|rewrite Hl2; done].
      unfold mwf. rewrite Es, Ed, Em, Hl2. split_and!; try apply Hw. done.
    + eapply mwrote_app; [exact H1|]. rewrite Ha.
      apply IH in H; try done; try lia; [apply H1| |].
      * by rewrite (proj1 (geo_facts _ _ Hg1)).
      * apply (mok_geo v); [done|]. eapply mok_sub; [exact Hok|lia..].
  - apply vmux_pwrite1_spec in H1; rewrite ?Ha; try done;
      [|by eapply mok_sub; [exact Hok|lia..]|intros ->; simpl in *; lia].
    by apply mwrote_fail_app.
Qed.

Lemma vmux_pwrite_spec off buf v r v' :
  mwf v -> io_latched v = false -> 0 <= off -> mok v off (zlen buf) ->
  vmux_pwrite off buf v = (r, v') -> mwrote v v' off buf (is_ok r).
Proof.
  intros Hw Hl Ho Hok. unfold vmux_pwrite. destruct (single v) eqn:Hs; intros H;
    [|by eapply vmux_pwrite_loop_spec].
  apply on_io_write in H as (Hg & Hsk & Hl' & Hm1 & Hwr); [|done].
  destruct (geo_facts _ _ Hg) as (Es & Ed & Em & _).
  split; [done|]. split; [|split; [by rewrite Hl'|intros _; split]].
  - unfold mwf. rewrite Es, Ed, Em, Hs. split_and!; [apply Hw..|done|done].
  - intros a Ha. unfold mview. rewrite Es, Hs. by apply Hwr.
  - intros Hr a Ha. unfold mview. rewrite Es, Hs. by apply Hwr.
Qed.

(** ** Barrier *)

Lemma blkio_flush_mem b r b' : blkio_flush b = (r, b') -> k_mem (io_k b') = k_mem (io_k b).
Proof.
  destruct (pf_should_flush b) eqn:E; intros H.
  - by apply blkio_flush_spec in H as [? _].
  - rewrite blkio_flush_deferred in H by done. by injection H as <- <-.
Qed.

Lemma on_io_flush v r v' : on_io blkio_flush v = (r, v') -> core v' = core v.
Proof.
  unfold on_io. destruct (blkio_flush _) as [r0 b] eqn:E. intros [= <- <-].
  unfold core. simpl. by rewrite (blkio_flush_mem _ _ _ E).
Qed.
Lemma on_io2_flush v r v' : on_io2 blkio_flush v = (r, v') -> core v' = core v.
Proof.
  unfold on_io2. destruct (blkio_flush _) as [r0 b] eqn:E. intros [= <- <-].
  unfold core. simpl. by rewrite (blkio_flush_mem _ _ _ E).
Qed.

(** Dropping device 0 does not change the contents. *)
Lemma skip0_view v :
  mwf v -> single v = false -> io_latched v = false ->
  mwf (set_dev_skip0 true v) /\ forall a, mview (set_dev_skip0 true v) a = mview v a.
Proof.
  intros (Hm & Hblk & Hag) Hs Hl.
  assert (E0 : use0 (set_dev_skip0 true v) = false).
  { unfold use0. simpl. by rewrite andb_false_r. }
  split.
  - split_and!; [apply Hm..|exact Hblk|]. intros _ _ Hu. by rewrite E0 in Hu.
  - intros a. unfold mview, src0. rewrite E0. change (single _) with (single v).
    change (use1 _) with (use1 v). change (mux_dev0_bytes _) with (mux_dev0_bytes v).
    simpl. rewrite Hs. destruct (a <? meta_end_bytes v) eqn:Ea; [|done]. zbool.
    destruct (use1 v) eqn:E1; simpl; [|by rewrite orb_true_r].
    rewrite orb_false_r. destruct (use0 v) eqn:E0'; [|done]. by apply Hag.
Qed.

Lemma length_devt_bytes d : zlen (devt_bytes d) = DEVT_LEN.
Proof.
  unfold devt_bytes. rewrite !length_app, !length_le_bytes.
  rewrite !Nat2Z.inj_add, !length_slice by (rewrite ?length_app; autorewrite with len; lia).
  done.
Qed.

Definition in_devt (a : Z) : Prop := INVFS_DEVT_OFF <= a < INVFS_DEVT_OFF + DEVT_LEN.

(** Same contents outside the device table. *)
Definition settled (v v' : mux) : Prop :=
  geo v' = geo v /\ mwf v' /\ (io_latched v' = false -> io_latched v = false) /\
  (io_latched v' = false -> forall a, ~ in_devt a -> mview v' a = mview v a).

Lemma settled_core v v' : mwf v -> core v' = core v -> settled v v'.
Proof.
  intros Hw Hc. destruct (core_facts _ _ Hc) as (Hg & Hl & Hv & Hw').
  split_and!; auto. by rewrite Hl.
Qed.

Lemma settled_trans a b c : settled a b -> settled b c -> settled a c.
Proof.
  intros (Hg1 & Hw1 & Hl1 & Hv1) (Hg2 & Hw2 & Hl2 & Hv2).
  split_and!; [congruence|done|auto|]. intros Hl x Hx.
  rewrite Hv2, Hv1; auto.
Qed.

Lemma vmux_write_core buf v r v' :
  vmux_write buf v = (r, v') ->
  exists r0 v1, vmux_pwrite (mux_pos v) buf v = (r0, v1) /\ core v' = core v1.
Proof.
  unfold vmux_write. rewrite (mbind_eq _ _ _ v v) by done. intros H.
  apply mbind_run in H as [([] & v1 & H1 & H) | [H1 ->]]; [|by eauto].
  unfold mmod in H. injection H as <- <-. by eauto.
Qed.

Lemma vol_write_devt_settled v r v' :
  mwf v -> single v = false -> io_latched v = false ->
  vol_write_devt v = (r, v') -> settled v v'.
Proof.
  intros Hw Hs Hl. unfold vol_write_devt. rewrite (mbind_eq _ _ _ v v) by done.
  destruct (negb _); [intros [= <- <-]; by apply settled_core|].
  set (t := devt_set_crc _ _). set (v0 := set_mux_pos INVFS_DEVT_OFF v).
  rewrite (mbind_eq _ _ _ tt v0) by done. intros H.
  pose proof (proj1 (proj2 Hw) Hs) as Hb0. pose proof (proj1 Hw) as Hm.
  assert (HB : INVFS_BLOCK_SIZE = 4096) by done.
  assert (HD : INVFS_DEVT_OFF = 672 /\ DEVT_LEN = 188) by done.
  assert (Hset : forall r0 v1, vmux_write (devt_bytes t) v0 = (r0, v1) -> settled v v1).
  { intros r0 v1 Hwr. apply vmux_write_core in Hwr as (r1 & v2 & E & Hc).
    change (mux_pos v0) with INVFS_DEVT_OFF in E.
    apply vmux_pwrite_spec in E as (Hg & Hw1 & Hl1 & Hv1); try done.
    2: { rewrite length_devt_bytes. right; left.
         change (mux_dev0_bytes v0) with (mux_dev0_bytes v). lia. }
    rewrite length_devt_bytes in Hv1.
    eapply settled_trans; [|by apply settled_core].
    split_and!; try done. intros Hl' a Ha. destruct (Hv1 Hl') as [F _].
    by rewrite F. }
  apply mbind_run in H as [([] & v1 & H1 & H) | [H1 ->]]; [|by eapply Hset].
  unfold mmod in H. injection H as <- <-. apply Hset in H1.
  eapply settled_trans; [exact H1|]. apply settled_core; [apply H1|done].
Qed.

Lemma vmux_barrier_settled v r v' :
  mwf v -> io_latched v = false -> vmux_barrier v = (r, v') -> settled v v'.
Proof.
  intros Hw Hl. unfold vmux_barrier. destruct (single v) eqn:Hs.
  { destruct (on_io blkio_flush v) as [r0 v1] eqn:E. apply on_io_flush in E.
    intros [= <- <-]. by apply settled_core. }
  destruct (if io_open0 v && _ then _ else _) as [r0 v1] eqn:E0.
  assert (H1 : settled v v1).
  { destruct (_ && _) in E0; [|injection E0 as <- <-; by apply settled_core].
    destruct (on_io blkio_flush v) as [r1 v2] eqn:Ef. apply on_io_flush in Ef as Hc.
    destruct (core_facts _ _ Hc) as (Hg & Hl2 & Hv2 & Hw2). specialize (Hw2 Hw).
    destruct (is_ok r1); [injection E0 as <- <-; by apply settled_core|].
    assert (Hs2 : single v2 = false) by (by rewrite (proj1 (geo_facts _ _ Hg))).
    destruct (skip0_view v2) as [Hw3 Hv3]; [done|done|congruence|].
    apply vol_write_devt_settled in E0; try done; [|simpl; congruence].
    eapply settled_trans; [|exact E0]. split; [exact Hg|]. split; [exact Hw3|].
    split; [intros _; exact Hl|]. intros _ a _.
    etrans; [exact (Hv3 a)|exact (Hv2 a)]. }
  destruct (negb (is_ok r0)); [by intros [= <- <-]|].
  destruct (io_open1 v1); [|by intros [= <- <-]].
  destruct (on_io2 blkio_flush v1) as [r2 v2] eqn:Ef. apply on_io2_flush in Ef.
  assert (H2 : settled v v2).
  { eapply settled_trans; [exact H1|]. apply settled_core; [apply H1|done]. }
  destruct (is_ok r2); by intros [= <- <-].
Qed.

(** ** No faults, no failures *)

(** Every device in service and without pending faults. *)
Definition in_service (v : mux) : Prop :=
  degraded v = false /\ io_open0 v = true /\ dev_skip0 v = false /\
  healthy (io v) /\
  (single v = false -> io_open1 v = true /\ dev_skip1 v = false /\
     healthy (io2 v) /\ mux_dev0_bytes v <= io_cap (io v) /\
     meta_end_bytes v <= io_cap (io2 v)).

Definition mcap (v : mux) : Z :=
  if single v then io_cap (io v) else mux_dev0_bytes v + io_cap (io2 v).

Lemma healthy_pread off len b :
  healthy b -> 0 <= off -> 0 <= len -> off + len <= io_cap b ->
  exists bs b', blkio_pread off len b = (Some bs, b') /\ healthy b' /\
    io_cap b' = io_cap b.
Proof.
  intros Hh Ho Hl Hc. destruct (blkio_pread_live off len b) as (bs & b' & E & Hh');
    [done..|]. exists bs, b'. split_and!; try done.
  apply blkio_pread_spec in E as [[Hs _] _]; [|done..].
  unfold io_hdr in Hs. congruence.
Qed.

Lemma healthy_pwrite off buf b :
  healthy b -> 0 <= off -> off + zlen buf <= io_cap b ->
  exists b', blkio_pwrite off buf b = (Some tt, b') /\ healthy b' /\
    io_cap b' = io_cap b.
Proof.
  intros Hh Ho Hc. destruct (blkio_pwrite_live off buf b) as (b' & E & Hh'); [done..|].
  exists b'. split_and!; try done. apply blkio_pwrite_spec in E; [|done]. apply E.
Qed.

Lemma on_io_live {A} (m : M blkio A) a b' v :
  m (io v) = (Some a, b') -> healthy b' -> io_cap b' = io_cap (io v) ->
  in_service v ->
  exists v', on_io m v = (Some a, v') /\ in_service v' /\ geo v' = geo v /\
    mcap v' = mcap v.
Proof.
  intros E Hh Hc (? & ? & ? & ? & Hd). exists (set_io b' v). unfold on_io. rewrite E.
  split_and!; try done; [|unfold mcap; simpl; by rewrite Hc].
  do 4 (split; [done|]). intros Hs. destruct (Hd Hs) as (? & ? & ? & ? & ?).
  split_and!; try done; simpl; by rewrite Hc.
Qed.

Lemma on_io2_live {A} (m : M blkio A) a b' v :
  m (io2 v) = (Some a, b') -> healthy b' -> io_cap b' = io_cap (io2 v) ->
  in_service v ->
  exists v', on_io2 m v = (Some a, v') /\ in_service v' /\ geo v' = geo v /\
    mcap v' = mcap v.
Proof.
  intros E Hh Hc (? & ? & ? & ? & Hd). exists (set_io2 b' v). unfold on_io2. rewrite E.
  split_and!; try done; [|unfold mcap; simpl; by rewrite Hc].
  do 4 (split; [done|]). intros Hs. destruct (Hd Hs) as (? & ? & ? & ? & ?).
  split_and!; try done; simpl; by rewrite Hc.
Qed.

Lemma vmux_pread1_live off n v :
  in_service v -> mwf v -> single v = false -> 0 <= off -> 0 <= n ->
  off + n <= mcap v -> one_side v off n -> mok v off n ->
  exists bs v', vmux_pread1 off n v = (Some bs, v') /\ in_service v' /\
    geo v' = geo v /\ mcap v' = mcap v.
Proof.
  intros Hq Hw Hs Ho Hn Hc Hside Hok. pose proof (proj1 Hw) as Hm.
  destruct Hq as (Hd & Ho0 & Hsk & Hh & Htwo). pose proof (Htwo Hs) as (Ho1 & Hsk1 & Hh1 & Hc0 & Hc1).
  assert (Hq : in_service v) by done.
  unfold mcap in Hc. rewrite Hs in Hc. unfold vmux_pread1.
  rewrite (mbind_eq _ _ _ v v) by done. rewrite Ho0, Hsk, Ho1, Hsk1.
  destruct (off <? meta_end_bytes v) eqn:E1; zbool.
  { destruct (healthy_pread off n (io v)) as (bs & b' & E & Hh' & Hcap);
      [done..|destruct Hside as [|[[]|]]; lia|].
    destruct (on_io_live _ _ _ _ E Hh' Hcap Hq) as (v' & Ev & ? & ? & ?).
    exists bs, v'. cbn [andb negb]. unfold mbind', mtry. rewrite Ev. done. }
  destruct (off <? mux_dev0_bytes v) eqn:E2; zbool; cbn [negb orb].
  - destruct (healthy_pread off n (io v)) as (bs & b' & E & Hh' & Hcap);
      [done..|destruct Hside as [|[[]|]]; lia|].
    destruct (on_io_live _ _ _ _ E Hh' Hcap Hq) as (v' & Ev & ? & ? & ?).
    by exists bs, v'.
  - destruct (healthy_pread (off - mux_dev0_bytes v) n (io2 v))
      as (bs & b' & E & Hh' & Hcap); [done|lia|lia|lia|].
    destruct (on_io2_live _ _ _ _ E Hh' Hcap Hq) as (v' & Ev & ? & ? & ?).
    by exists bs, v'.
Qed.

Lemma vmux_pread_loop_live fuel off len out v :
  in_service v -> mwf v -> io_latched v = false -> single v = false -> 0 <= off ->
  0 <= len <= Z.of_nat fuel -> off + len <= mcap v -> mok v off len ->
  exists bs v', vmux_pread_loop fuel off len out v = (Some bs, v') /\ in_service v' /\
    mcap v' = mcap v.
Proof.
  revert off len out v. induction fuel as [|fuel IH];
    intros off len out v Hq Hw Hl Hs Ho Hn Hc Hok; cbn [vmux_pread_loop];
    destruct (len =? 0) eqn:Hz; zbool; unfold mret; eauto; [lia|].
  rewrite (mbind_eq _ _ _ v v) by done. set (n := mux_piece v off len).
  destruct (mux_piece_spec v off len) as [Hp Hside]; [apply Hw|done|lia|]. fold n in Hp, Hside.
  assert (Hok1 : mok v off n) by (eapply mok_sub; [exact Hok|lia..]).
  destruct (vmux_pread1_live off n v) as (bs & v1 & E & Hq1 & Hg1 & Hc1); try done; try lia.
  rewrite (mbind_eq _ _ _ _ _ E).
  apply vmux_pread1_spec in E as [Hcore _]; try done; try lia.
  destruct (core_facts _ _ Hcore) as (_ & Hl1 & _ & Hw1).
  destruct (IH (off + n) (len - n) (out ++ bs) v1) as (bs2 & v2 & E2 & ? & ?);
    auto; try lia; try congruence.
  - by rewrite (proj1 (geo_facts _ _ Hg1)).
  - apply (mok_geo v); [done|]. eapply mok_sub; [exact Hok|lia..].
  - exists bs2, v2. split_and!; [done..|congruence].
Qed.

Lemma vmux_pwrite1_live off buf v :
  in_service v -> mwf v -> single v = false -> 0 <= off ->
  off + zlen buf <= mcap v -> one_side v off (zlen buf) -> mok v off (zlen buf) ->
  buf <> [] ->
  exists v', vmux_pwrite1 off buf v = (Some tt, v') /\ in_service v' /\
    geo v' = geo v /\ mcap v' = mcap v /\ io_latched v' = io_latched v.
Proof.
  intros Hq Hw Hs Ho Hc Hside Hok Hne. pose proof (proj1 Hw) as Hm.
  destruct Hq as (Hd & Ho0 & Hsk & Hh & Htwo). pose proof (Htwo Hs) as (Ho1 & Hsk1 & Hh1 & Hc0 & Hc1).
  assert (Hq : in_service v) by done.
  assert (Hlen : 0 < zlen buf) by (destruct buf; simpl; [done|lia]).
  unfold mcap in Hc. rewrite Hs in Hc. unfold vmux_pwrite1.
  rewrite (mbind_eq _ _ _ v v) by done. rewrite Hd, Ho0, Hsk, Ho1, Hsk1. cbn [andb negb orb].
  destruct (off <? meta_end_bytes v) eqn:E1; zbool.
  { assert (Hin : off + zlen buf <= meta_end_bytes v) by (destruct Hside as [|[[]|]]; lia).
    destruct (healthy_pwrite off buf (io v)) as (b' & E & Hh' & Hcap); [done..|lia|].
    destruct (on_io_live _ _ _ _ E Hh' Hcap Hq) as (v1 & Ev & Hq1 & Hg1 & Hcap1).
    assert (Ev2 : io2 v1 = io2 v /\ io_latched v1 = io_latched v).
    { unfold on_io in Ev. rewrite E in Ev. by injection Ev as <-. }
    destruct Ev2 as [Eio2 El].
    destruct (healthy_pwrite off buf (io2 v1)) as (b2 & E2 & Hh2 & Hcap2);
      rewrite ?Eio2; [done..|lia|].
    destruct (on_io2_live _ _ _ _ E2 Hh2 Hcap2 Hq1) as (v2 & Ev2 & Hq2 & Hg2 & Hcap2').
    exists v2. split.
    - unfold mbind', mguard, mtry, mret. rewrite Ev, Ev2. done.
    - split_and!; [done|congruence|congruence|].
      unfold on_io2 in Ev2. rewrite E2 in Ev2. by injection Ev2 as <-. }
  destruct (off <? mux_dev0_bytes v) eqn:E2; zbool.
  - destruct (healthy_pwrite off buf (io v)) as (b' & E & Hh' & Hcap);
      [done..|destruct Hside as [|[[]|]]; lia|].
    destruct (on_io_live _ _ _ _ E Hh' Hcap Hq) as (v' & Ev & ? & ? & ?).
    exists v'. split_and!; try done. unfold on_io in Ev. rewrite E in Ev. by injection Ev as <-.
  - destruct (healthy_pwrite (off - mux_dev0_bytes v) buf (io2 v))
      as (b' & E & Hh' & Hcap); [done|lia|lia|].
    destruct (on_io2_live _ _ _ _ E Hh' Hcap Hq) as (v' & Ev & ? & ? & ?).
    exists v'. split_and!; try done. unfold on_io2 in Ev. rewrite E in Ev. by injection Ev as <-.
Qed.

Lemma vmux_pwrite_loop_live fuel off buf v :
  in_service v -> mwf v -> io_latched v = false -> single v = false -> 0 <= off ->
  zlen buf <= Z.of_nat fuel -> off + zlen buf <= mcap v -> mok v off (zlen buf) ->
  exists v', vmux_pwrite_loop fuel off buf v = (Some tt, v') /\ in_service v' /\
    mcap v' = mcap v /\ io_latched v' = false.
Proof.
  revert off buf v. induction fuel as [|fuel IH];
    intros off buf v Hq Hw Hl Hs Ho Hn Hc Hok; cbn [vmux_pwrite_loop];
    destruct (zlen buf =? 0) eqn:Hz; zbool; unfold mret; eauto; [lia|].
  rewrite (mbind_eq _ _ _ v v) by done. set (n := mux_piece v off (zlen buf)).
  destruct (mux_piece_spec v off (zlen buf)) as [Hp Hside]; [apply Hw|done|lia|].
  fold n in Hp, Hside. set (a := take (Z.to_nat n) buf). set (b := drop (Z.to_nat n) buf).
  assert (Ha : zlen a = n) by (unfold a; rewrite length_take; lia).
  assert (Hb : zlen b = zlen buf - n) by (unfold b; rewrite length_drop; lia).
  assert (Hok1 : mok v off n) by (eapply mok_sub; [exact Hok|lia..]).
  assert (Hne : a <> []) by (intros E; rewrite E in Ha; simpl in Ha; lia).
  destruct (vmux_pwrite1_live off a v) as (v1 & E & Hq1 & Hg1 & Hc1 & Hl1);
    rewrite ?Ha; try done; try lia.
  rewrite (mbind_eq _ _ _ _ _ E).
  apply vmux_pwrite1_spec in E as (_ & Hw1 & _); rewrite ?Ha; try done.
  destruct (IH (off + n) b v1) as (v2 & E2 & ? & ? & ?); try done; try lia; try congruence.
  - by rewrite (proj1 (geo_facts _ _ Hg1)).
  - apply (mok_geo v); [done|]. eapply mok_sub; [exact Hok|lia..].
  - exists v2. split_and!; [done..|congruence|done].
Qed.

Definition mquiet (v : mux) : Prop := in_service v /\ mwf v /\ io_latched v = false.

Lemma vmux_pread_live off n v :
  mquiet v -> 0 <= off -> 0 <= n -> off + n <= mcap v -> mok v off n ->
  exists bs v', vmux_pread off n v = (Some bs, v') /\ mquiet v' /\ mcap v' = mcap v.
Proof.
  intros (Hq & Hw & Hl) Ho Hn Hc Hok.
  assert (exists bs v', vmux_pread off n v = (Some bs, v') /\ in_service v' /\
            mcap v' = mcap v) as (bs & v' & E & Hq' & Hc').
  { unfold vmux_pread. destruct (single v) eqn:Hs.
    - unfold mcap in Hc. rewrite Hs in Hc.
      destruct (healthy_pread off n (io v)) as (bs & b' & E & Hh' & Hcap); try done; [apply Hq|].
      destruct (on_io_live _ _ _ _ E Hh' Hcap Hq) as (v' & Ev & ? & ? & ?).
      by exists bs, v'.
    - apply vmux_pread_loop_live; try done. lia. }
  exists bs, v'. split_and!; try done.
  apply vmux_pread_spec in E as [Hcore _]; try done.
  destruct (core_facts _ _ Hcore) as (_ & Hl1 & _ & Hw1). split_and!; auto. congruence.
Qed.

Lemma vmux_pwrite_live off buf v :
  mquiet v -> 0 <= off -> off + zlen buf <= mcap v -> mok v off (zlen buf) ->
  exists v', vmux_pwrite off buf v = (Some tt, v') /\ mquiet v' /\ mcap v' = mcap v.
Proof.
  intros (Hq & Hw & Hl) Ho Hc Hok.
  assert (exists v', vmux_pwrite off buf v = (Some tt, v') /\ in_service v' /\
            mcap v' = mcap v /\ io_latched v' = false) as (v' & E & Hq' & Hc' & Hl').
  { unfold vmux_pwrite. destruct (single v) eqn:Hs.
    - unfold mcap in Hc. rewrite Hs in Hc.
      destruct (healthy_pwrite off buf (io v)) as (b' & E & Hh' & Hcap); try done; [apply Hq|].
      destruct (on_io_live _ _ _ _ E Hh' Hcap Hq) as (v' & Ev & ? & ? & ?).
      exists v'. split_and!; try done. unfold on_io in Ev. rewrite E in Ev. by injection Ev as <-.
    - apply vmux_pwrite_loop_live; try done. }
  exists v'. split_and!; try done. split_and!; try done.
  by apply vmux_pwrite_spec in E as (_ & ? & _).
Qed.

Lemma blkio_flush_live b : healthy b ->
  exists b', blkio_flush b = (Some tt, b') /\ healthy b' /\ io_cap b' = io_cap b.
Proof.
  intros (Hp & Hf & Hs & Hm). unfold blkio_flush.
  destruct (pf_should_flush b); cbn [negb]; [|by eexists].
  rewrite Hf. destruct (_ <=? _); cbn [andb]; [by eexists|].
  unfold blkio_flush_raw, sys_fsync, next_outcome. rewrite Hf, Hp. simpl.
  destruct (_ <? _); eexists; (split; [reflexivity|]); simpl; unfold healthy; simpl;
    rewrite ?Hp; done.
Qed.

Lemma vmux_barrier_live v :
  mquiet v -> exists v', vmux_barrier v = (BarOk, v') /\ mquiet v' /\ mcap v' = mcap v.
Proof.
  intros (Hq & Hw & Hl).
  assert (exists v', vmux_barrier v = (BarOk, v') /\ in_service v' /\ mcap v' = mcap v /\
            io_latched v' = false) as (v' & E & Hq' & Hc' & Hl').
  { destruct Hq as (Hd & Ho0 & Hsk & Hh & Htwo). assert (Hq : in_service v) by done.
    destruct (blkio_flush_live (io v)) as (b' & E & Hh' & Hcap); [done|].
    destruct (on_io_live _ _ _ _ E Hh' Hcap Hq) as (v1 & Ev & Hq1 & Hg1 & Hc1).
    assert (Hl1 : io_latched v1 = false).
    { unfold on_io in Ev. rewrite E in Ev. by injection Ev as <-. }
    unfold vmux_barrier. destruct (single v) eqn:Hs; rewrite ?Ho0, ?Hsk; cbn [andb negb];
      rewrite Ev; cbn [is_ok negb]; [by exists v1|].
    destruct Hq1 as (Hd1 & ? & Hsk1 & ? & Htwo1). assert (Hq1 : in_service v1) by done.
    assert (Hs1 : single v1 = false) by (by rewrite (proj1 (geo_facts _ _ Hg1))).
    destruct (Htwo1 Hs1) as (-> & _ & Hh1 & _).
    destruct (blkio_flush_live (io2 v1)) as (b2 & E2 & Hh2 & Hcap2); [done|].
    destruct (on_io2_live _ _ _ _ E2 Hh2 Hcap2 Hq1) as (v2 & Ev2 & Hq2 & Hg2 & Hc2).
    rewrite Ev2. cbn [is_ok]. destruct Hq2 as (? & ? & Hsk2 & ?).
    rewrite Hsk2. exists v2. split_and!; try done; [congruence|].
    unfold on_io2 in Ev2. rewrite E2 in Ev2. by injection Ev2 as <-. }
  exists v'. split_and!; try done. split_and!; try done.
  by apply vmux_barrier_settled in E as (_ & ? & _).
Qed.

(** ** The multiplexer implements the storage interface *)

Lemma keeps_pread off n : keeps_run (vmux_pread off n).
Proof.
  intros v r v'. unfold vmux_pread. destruct (single v);
    [apply keeps_on_io|apply keeps_pread_loop].
Qed.

Lemma keeps_unlatched v v' : keeps v v' -> io_latched v' = false -> io_latched v = false.
Proof. intros (_ & H & _) Hl. destruct (io_latched v); [|done]. by rewrite H in Hl. Qed.

Lemma keeps_devt : keeps_run vol_write_devt.
Proof. unfold vol_write_devt, vmux_seek, vmux_write. auto 20 with keeps. Qed.

Lemma keeps_barrier v r v' : vmux_barrier v = (r, v') -> keeps v v'.
Proof.
  unfold vmux_barrier. destruct (single v).
  { destruct (on_io _ v) as [r0 v1] eqn:E. intros [= <- <-]. by apply keeps_on_io in E. }
  destruct (if io_open0 v && _ then _ else _) as [r0 v1] eqn:E0.
  assert (H1 : keeps v v1).
  { destruct (_ && _) in E0; [|by injection E0 as <- <-].
    destruct (on_io _ v) as [r1 v2] eqn:Ef. apply keeps_on_io in Ef as H.
    destruct (is_ok r1); [by injection E0 as <- <-|].
    apply keeps_devt in E0. eapply keeps_trans; [exact H|].
    eapply keeps_trans; [|exact E0]. done. }
  destruct (negb (is_ok r0)); [by intros [= <- <-]|].
  destruct (io_open1 v1); [|by intros [= <- <-]].
  destruct (on_io2 _ v1) as [r2 v2] eqn:Ef. apply keeps_on_io2 in Ef.
  pose proof (keeps_trans _ _ _ H1 Ef). destruct (is_ok r2); by intros [= <- <-].
Qed.

#[export] Program Instance mux_dev_laws : DevLaws mux := {
  dview := mview;
  dwf := mwf;
  dok := mok;
  dquiet := mquiet;
  dcap := mcap
}.
Next Obligation. intros off n v r v' H. by eapply keeps_unlatched, keeps_pread. Qed.
Next Obligation. intros off bs v r v' H. by eapply keeps_unlatched, keeps_pwrite. Qed.
Next Obligation. intros v r v' H. by eapply keeps_unlatched, keeps_barrier. Qed.
Next Obligation.
  intros off n v r v' Hw Ho Hn Hok Hl H. simpl in *.
  apply vmux_pread_spec in H as [Hc Hb]; try done.
  destruct (core_facts _ _ Hc) as (Hg & Hl' & Hv & Hw').
  split_and!; auto; [|congruence]. intros. by apply mok_geo.
Qed.
Next Obligation.
  intros off bs v r v' Hw Ho Hok Hl H. simpl in *.
  apply vmux_pwrite_spec in H as (Hg & Hw' & _ & Hv); try done.
  split_and!; auto; [intros; by apply mok_geo|]. intros Hl'.
  destruct (Hv Hl') as [F I]. split; [done|]. intros ->. by apply I.
Qed.
Next Obligation.
  intros v r v' Hw Hl H. simpl in *.
  apply vmux_barrier_settled in H as (Hg & Hw' & _ & Hv); try done.
  split_and!; auto. intros. by apply mok_geo.
Qed.
Next Obligation. by intros v (_ & ? & ?). Qed.
Next Obligation. intros off n v Hq Ho Hn Hc Hok. by apply vmux_pread_live. Qed.
Next Obligation. intros off bs v Hq Ho Hc Hok. by apply vmux_pwrite_live. Qed.
Next Obligation. intros v Hq. by apply vmux_barrier_live. Qed.
Next Obligation. by intros v ((? & _) & _). Qed.

(** ** Durability of the barrier *)

(** The strict policy: no flush is ever deferred. *)
Definition strict (b : blkio) : Prop :=
  commit_bytes b = 0 /\ commit_ms b = 0 /\ idle_ms b = 0.
Definition tracked (b : blkio) : Prop := gc_inv b /\ strict b.

Lemma strict_flush b : strict b -> pf_should_flush b = true.
Proof. intros (E1 & E2 & E3). unfold pf_should_flush. rewrite E1, E2, E3. by destruct (force_flush b). Qed.

Lemma tracked_pwrite off buf b r b' :
  0 <= off -> blkio_pwrite off buf b = (r, b') -> tracked b -> tracked b'.
Proof.
  intros Ho H [Hi (? & ? & ?)]. split; [by eapply gc_inv_pwrite|].
  apply blkio_pwrite_spec in H as (_ & _ & _ & _ & _ & _ & _ & _ & Hc & Hm & Hd & _); [|done].
  unfold strict. split_and!; congruence.
Qed.

Lemma strict_flushed b r b' : blkio_flush b = (r, b') -> strict b -> strict b'.
Proof.
  intros H Hs. unfold blkio_flush in H. rewrite (strict_flush _ Hs) in H. simpl in H.
  destruct (_ && _); [injection H as <- <-; done|].
  destruct (blkio_flush_raw b) as [r0 b0] eqn:E.
  assert (Hs0 : strict b0).
  { unfold blkio_flush_raw in E. destruct (io_fd_ok b); [destruct (sys_fsync _)|];
      injection E as <- <-; done. }
  injection H as <- <-. destruct r0; [destruct (_ <? _)|]; done.
Qed.

Lemma tracked_flush b r b' :
  blkio_flush b = (r, b') -> tracked b ->
  tracked b' /\ (is_ok r = true -> durable b').
Proof.
  intros H [Hi Hs]. split; [split; [by eapply gc_inv_flush|by eapply strict_flushed]|].
  intros Hr. apply blkio_flush_spec in H as (_ & _ & Hok & _); [|by apply strict_flush].
  by apply Hok.
Qed.

Definition tracks (v : mux) : Prop := tracked (io v) /\ tracked (io2 v).
Definition tracks_run {A} (m : M mux A) : Prop :=
  forall v r v', m v = (r, v') -> tracks v -> tracks v'.

Lemma tracks_bind {A B} (m : M mux A) (k : A -> M mux B) :
  tracks_run m -> (forall a, tracks_run (k a)) -> tracks_run (mbind' m k).
Proof.
  intros Hm Hk v r v' H Ht. apply mbind_run in H as [(a & v1 & H1 & H) | [H1 ->]];
    [eapply Hk; eauto|eauto].
Qed.
Lemma tracks_const {A} (m : M mux A) :
  (forall v, io (snd (m v)) = io v /\ io2 (snd (m v)) = io2 v) -> tracks_run m.
Proof.
  intros Hm v r v' H [? ?]. destruct (Hm v) as [E1 E2]. rewrite H in E1, E2. simpl in *.
  split; congruence.
Qed.
Lemma tracks_try {A} (m : M mux A) : tracks_run m -> tracks_run (mtry m).
Proof.
  intros Hm v r v'. unfold mtry. destruct (m v) as [r0 v0] eqn:E.
  intros [= <- <-]. eauto.
Qed.
Lemma tracks_write off buf : 0 <= off ->
  tracks_run (on_io (blkio_pwrite off buf)) /\ tracks_run (on_io2 (blkio_pwrite off buf)).
Proof.
  intros Ho. split; intros v r v'; unfold on_io, on_io2;
    destruct (blkio_pwrite _ _ _) as [r0 b] eqn:E; intros [= <- <-] [? ?];
    split; simpl; eauto using tracked_pwrite.
Qed.

#[local] Hint Resolve tracks_bind tracks_try : keeps.
#[local] Hint Extern 1 (tracks_run (on_io _)) => apply tracks_write; lia : keeps.
#[local] Hint Extern 1 (tracks_run (on_io2 _)) => apply tracks_write; lia : keeps.
#[local] Hint Extern 1 (tracks_run _) => apply tracks_const; done : keeps.
#[local] Hint Extern 2 (tracks_run (match ?x with _ => _ end)) => destruct x eqn:? : keeps.

Lemma tracks_guard b : tracks_run (mguard b).
Proof. destruct b; apply tracks_const; done. Qed.
#[local] Hint Resolve tracks_guard : keeps.

Lemma tracks_pwrite1 off buf : 0 <= off -> tracks_run (vmux_pwrite1 off buf).
Proof.
  intros Ho. unfold vmux_pwrite1. apply tracks_bind; [auto with keeps|]. intros v.
  destruct (off <? meta_end_bytes v); [auto 20 with keeps|].
  destruct (off <? mux_dev0_bytes v) eqn:E; zbool; [auto 20 with keeps|].
  destruct (_ || _); [auto with keeps|]. apply tracks_write. lia.
Qed.

Lemma tracks_pwrite off buf v r v' :
  0 <= off -> 0 <= meta_end_bytes v <= mux_dev0_bytes v ->
  vmux_pwrite off buf v = (r, v') -> tracks v -> tracks v'.
Proof.
  intros Ho Hm. unfold vmux_pwrite. destruct (single v); [by apply tracks_write|].
  generalize (length buf) as fuel. intros fuel. revert off buf v Ho Hm.
  induction fuel as [|fuel IH]; intros off buf v Ho Hm H; cbn [vmux_pwrite_loop] in H;
    destruct (zlen buf =? 0) eqn:Hz; try (injection H as <- <-; done).
  rewrite (mbind_eq _ _ _ v v) in H by done. intros Ht. zbool.
  destruct (mux_piece_spec v off (zlen buf)) as [Hp Hside]; [done|done|lia|].
  apply mbind_run in H as [([] & v1 & H1 & H) | [H1 ->]].
  - pose proof (keeps_pwrite1 _ _ _ _ _ H1) as [Hg _].
    destruct (geo_facts _ _ Hg) as (_ & Ed & Em & _).
    assert (Hm1 : 0 <= meta_end_bytes v1 <= mux_dev0_bytes v1) by (by rewrite Ed, Em).
    eapply (IH _ _ v1); [| |exact H|]; [lia|done|].
    eapply tracks_pwrite1; eauto.
  - eapply tracks_pwrite1; eauto.
Qed.

Lemma tracks_devt v r v' :
  0 <= meta_end_bytes v <= mux_dev0_bytes v ->
  vol_write_devt v = (r, v') -> tracks v -> tracks v'.
Proof.
  intros Hm H Ht. unfold vol_write_devt in H. rewrite (mbind_eq _ _ _ v v) in H by done.
  destruct (negb _); [by injection H as <- <-|].
  rewrite (mbind_eq _ _ _ tt (set_mux_pos INVFS_DEVT_OFF v)) in H by done.
  assert (Hw : forall buf r0 v1,
    vmux_write buf (set_mux_pos INVFS_DEVT_OFF v) = (r0, v1) -> tracks v1).
  { clear -Ht Hm. intros buf r0 v1 H. unfold vmux_write in H.
    rewrite (mbind_eq mget _ _ _ _ eq_refl) in H.
    apply mbind_run in H as [([] & v2 & H1 & H) | [H1 ->]];
      apply tracks_pwrite in H1; try done.
    by injection H as <- <-. }
  apply mbind_run in H as [([] & v1 & H1 & H) | [H1 ->]]; apply Hw in H1; [|done].
  by injection H as <- <-.
Qed.

(** ** Results *)

(** C37: a two-device volume reads back what was written, through any device-0
    failure.  A successful metadata or data write, followed by a barrier that
    may lose device 0, followed by a successful read that may fail over to
    the mirror, returns the old contents overlaid with the written bytes, as
    long as no device-1 failure latched the volume; the only other bytes a
    barrier may change are those of the device table. *)
Theorem mux_write_read off buf v v1 rc v2 off' n bs v3 :
  mwf v -> io_latched v2 = false -> 0 <= off -> 0 <= off' -> 0 <= n ->
  mok v off (zlen buf) -> mok v off' n ->
  vmux_pwrite off buf v = (Some tt, v1) -> vmux_barrier v1 = (rc, v2) ->
  vmux_pread off' n v2 = (Some bs, v3) ->
  zlen bs = n /\
  forall i, 0 <= i < n -> ~ in_devt (off' + i) ->
    nthZ bs i = if decide (off <= off' + i < off + zlen buf)
                then nthZ buf (off' + i - off) else mview v (off' + i).
Proof.
  intros Hw Hl2 Ho Ho' Hn Hok Hok' H1 H2 H3.
  assert (Hl1 : io_latched v1 = false) by (eapply keeps_unlatched; [eapply keeps_barrier|]; eauto).
  assert (Hl : io_latched v = false) by (eapply keeps_unlatched; [eapply keeps_pwrite|]; eauto).
  apply vmux_pwrite_spec in H1 as (Hg1 & Hw1 & _ & Hv1); try done.
  destruct (Hv1 Hl1) as [F1 I1]. specialize (I1 eq_refl).
  apply vmux_barrier_settled in H2 as (Hg2 & Hw2 & _ & Hv2); try done. specialize (Hv2 Hl2).
  apply vmux_pread_spec in H3 as [_ Hbs]; try done.
  2: { apply (mok_geo v); [congruence|done]. }
  rewrite (Hbs _ eq_refl). split; [rewrite length_map, length_seqZ; lia|].
  intros i Hi Hd. unfold nthZ at 1.
  rewrite (nth_lookup_Some _ _ _ (mview v2 (off' + i))).
  - rewrite Hv2 by done. case_decide; auto.
  - rewrite list_lookup_fmap, lookup_seqZ_lt by lia. simpl. do 2 f_equal. lia.
Qed.

(** Two devices; the next system call on device 0 fails. *)
Definition demo_blk (plan : list outcome) : blkio :=
  mkBlkio (KFile ∅ ∅ 32768 plan 0) true 0 32768 false false ∅
    0 0 0 0 0 0 0 0 0 0 0 false.
Definition demo_mux : mux :=
  mkMux (demo_blk [Err]) (demo_blk []) true true 2 false false false 4096 4 0 false
    (Devt 1 2 0 4 8 0 [] [] 0) false false 0 0.

Lemma demo_mux_wf : mwf demo_mux.
Proof. split; [vm_compute; split; discriminate|]. split; [vm_compute; discriminate|]. done. Qed.

Lemma mux_write_read_witness :
  let v1 := snd (vmux_pwrite 100 [1; 2; 3] demo_mux) in
  let v2 := snd (vmux_barrier v1) in
  fst (vmux_barrier v1) = BarDev0Lost /\
  exists bs, fst (vmux_pread 99 4 v2) = Some bs /\ nthZ bs 1 = 1.
Proof.
  intros v1 v2. split; [vm_compute; reflexivity|].
  destruct (vmux_pread 99 4 v2) as [[bs|] v3] eqn:E;
    [|apply (f_equal fst) in E; vm_compute in E; discriminate].
  exists bs. split; [reflexivity|].
  destruct (mux_write_read 100 [1; 2; 3] demo_mux v1 (fst (vmux_barrier v1)) v2 99 4 bs v3)
    as [_ H]; try lia; try exact demo_mux_wf.
  - vm_compute. reflexivity.
  - right. left. vm_compute. discriminate.
  - right. left. vm_compute. discriminate.
  - transitivity (fst (vmux_pwrite 100 [1; 2; 3] demo_mux), v1);
      [apply surjective_pairing|f_equal; vm_compute; reflexivity].
  - apply surjective_pairing.
  - exact E.
  - rewrite H; [vm_compute; reflexivity|lia|]. intros Hd. unfold in_devt in Hd.
    vm_compute in Hd. destruct Hd as [Hd _]. apply Hd. reflexivity.
Defined.

(** C39: the barrier makes the volume durable.  Under the strict commit policy,
    when the barrier answers 0 or 1 every byte written before it to a
    single-device volume is on stable storage, and on a two-device volume
    every byte of device 1 is, which holds the metadata mirror; when it
    answers 0 device 0 is durable too. *)
Theorem vmux_barrier_durable v rc v' :
  0 <= meta_end_bytes v <= mux_dev0_bytes v -> tracks v ->
  vmux_barrier v = (rc, v') -> rc <> BarFail ->
  (single v = true -> durable (io v')) /\
  (single v = false -> io_open1 v = true -> durable (io2 v')) /\
  (single v = false -> rc = BarOk -> io_open0 v = true -> durable (io v')).
Proof.
  intros Hm [Ht0 Ht1] H Hrc. unfold vmux_barrier in H. destruct (single v) eqn:Hs.
  { unfold on_io in H. destruct (blkio_flush (io v)) as [r b] eqn:E.
    apply tracked_flush in E as [_ Hd]; [|done]. destruct r; injection H as <- <-; [|done].
    split_and!; [|done..]. intros _. by apply Hd. }
  split; [done|].
  destruct (if io_open0 v && _ then _ else _) as [r0 v1] eqn:E0.
  assert (H1 : tracks v1 /\ io_open1 v1 = io_open1 v /\
    (is_ok r0 = true -> dev_skip0 v1 = false -> io_open0 v = true -> durable (io v1))).
  { destruct (io_open0 v) eqn:Eo, (dev_skip0 v) eqn:Esk; simpl in E0;
      try (injection E0 as <- <-; split_and!; done || congruence).
    unfold on_io in E0. destruct (blkio_flush (io v)) as [r b] eqn:E.
    apply tracked_flush in E as [Htb Hd]; [|done]. destruct (is_ok r) eqn:Er.
    - injection E0 as <- <-. split_and!; [done|done|]. intros. by apply Hd.
    - pose proof (keeps_devt _ _ _ E0) as (Hg & _ & Hsk0).
      apply tracks_devt in E0 as Ht; [|done|done].
      split_and!; [done|by destruct (geo_facts _ _ Hg) as (_&_&_&_&_&->&_)|].
      intros _ Hsk. rewrite Hsk0 in Hsk; done. }
  destruct H1 as (Ht & Eo1 & Hd0). destruct (is_ok r0) eqn:Er0; simpl in H;
    [|injection H as <- <-; done].
  rewrite Eo1 in H. destruct (io_open1 v).
  - unfold on_io2 in H. destruct (blkio_flush (io2 v1)) as [r b] eqn:E.
    apply tracked_flush in E as [_ Hd]; [|apply Ht].
    destruct (is_ok r); [|injection H as <- <-; done]. injection H as Hrc' <-. simpl in *.
    split; [intros; by apply Hd|]. intros _ -> Ho. apply Hd0; [done| |done].
    by destruct (dev_skip0 v1).
  - injection H as Hrc' <-. split; [done|]. intros _ -> Ho. apply Hd0; [done| |done].
    by destruct (dev_skip0 v1).
Qed.

Lemma demo_tracks : tracks demo_mux.
Proof.
  split; (split; [split; [vm_compute; discriminate|intros _ a; reflexivity]
                 |split; [reflexivity|split; reflexivity]]).
Qed.

Lemma vmux_barrier_durable_witness :
  let v1 := snd (vmux_pwrite 100 [1; 2; 3] demo_mux) in
  durable (io2 (snd (vmux_barrier v1))) /\ fst (vmux_barrier v1) = BarDev0Lost.
Proof.
  intros v1. assert (E : fst (vmux_barrier v1) = BarDev0Lost) by (vm_compute; reflexivity).
  split; [|exact E].
  assert (Ht : tracks v1).
  { refine (tracks_pwrite 100 [1; 2; 3] demo_mux _ _ _ _ (surjective_pairing _) demo_tracks);
      [lia|vm_compute; split; discriminate]. }
  refine (proj1 (proj2 (vmux_barrier_durable v1 _ _ _ Ht (surjective_pairing _) _)) _ _).
  - vm_compute. split; discriminate.
  - rewrite E. discriminate.
  - vm_compute. reflexivity.
  - vm_compute. reflexivity.
Defined.

End Mux.
