(* ===== verification/Alloc.v ===== *)
(** * Block allocator (src/src/core/volume.c, volume_internal.h)

    The allocation bitmap and its bit operations, the zone allocator with its
    cursors, free counters and failure hints, the ENOSPC floor and the
    read-only space latch, and the free path with the save-point pin.  The
    model covers volumes without tier copies or raw mirrors, for which
    [wp25_on_free] does nothing. *)

From S2P Require Import Prelude.

Module Alloc.

(** ** Bitmaps: bit_get, bit_set, bit_clr *)

(** Source: core/volume_internal.h:1161-1161 [bit_get] *)
Definition bit_get (b : bytes) (i : Z) : bool :=
  Z.testbit (nthZ b (i / 8)) (i mod 8).

Definition upd_byte (f : Z -> Z) (b : bytes) (k : Z) : bytes :=
  alter f (Z.to_nat k) b.

(** Source: core/volume_internal.h:1163-1163 [bit_set] *)
Definition bit_set (b : bytes) (i : Z) : bytes :=
  upd_byte (fun x => u8 (Z.lor x (Z.shiftl 1 (i mod 8)))) b (i / 8).

(** Source: core/volume_internal.h:1165-1165 [bit_clr] *)
Definition bit_clr (b : bytes) (i : Z) : bytes :=
  upd_byte (fun x => Z.ldiff x (Z.shiftl 1 (i mod 8))) b (i / 8).

(** ** State *)

(** The superblock fields the engine works with.
    Source: core/invarifs.h:190-223 [invfs_superblock] *)
Record superblock := mkSb {
  sb_uuid : bytes;
  sb_state : Z;
  sb_block_size : Z;
  total_blocks : Z;
  metadata_zone_start : Z; metadata_zone_blocks : Z;
  raw_zone_start : Z; raw_zone_blocks : Z;
  shadow_zone_start : Z; shadow_zone_blocks : Z;
  reserved_blocks : Z;
  hard_min_blocks : Z;
  vol_flags : Z;
  format_version : Z;
  meta_reserved_pct : Z;
  meta_mapper_pba : Z; meta_mapper_blocks : Z
}.

Definition set_vol_flags x s :=
  mkSb (sb_uuid s) (sb_state s) (sb_block_size s) (total_blocks s)
    (metadata_zone_start s) (metadata_zone_blocks s) (raw_zone_start s)
    (raw_zone_blocks s) (shadow_zone_start s) (shadow_zone_blocks s)
    (reserved_blocks s) (hard_min_blocks s) x (format_version s)
    (meta_reserved_pct s) (meta_mapper_pba s) (meta_mapper_blocks s).

Definition INVFS_BLOCK_SIZE : Z := 4096.
Definition VOLF_READONLY : Z := 0x1.
Definition VOLF_RO_SPACE : Z := 0x4.
Definition VOLF_META : Z := 0x10.

(** [cursor], [free] and [fail_run] of one zone. *)
Record zone := mkZone { z_cursor : Z; z_free : Z; z_fail_run : Z }.

Inductive zone_id := ZRaw | ZShadow | ZArena.
Inductive alloc_type := AllocData | AllocMeta.

(** The allocator's part of [invfs_volume]. *)
Record avol := mkAvol {
  sb : superblock;
  bitmap : bytes;
  bitmap_blocks : Z;
  meta_type_bitmap : option bytes;
  seal_dirty : option bytes;
  raw_z : zone; shadow_z : zone; arena_z : zone;
  arena_start : Z; arena_blocks : Z;
  free_blocks : Z;
  meta_free_blocks : Z;
  bm_lo : Z; bm_hi : Z;
  a_ndev : Z;
  a_dev0_blocks : Z;
  retain_release : bool;
  spn_armed : bool;
  spn_nopin : bool;
  spn_bitmap : option bytes;
  meta_mapper : option (list Z);
  meta_mapper_n : Z
}.

Definition set_sb x v := mkAvol x (bitmap v) (bitmap_blocks v)
  (meta_type_bitmap v) (seal_dirty v) (raw_z v) (shadow_z v) (arena_z v)
  (arena_start v) (arena_blocks v) (free_blocks v) (meta_free_blocks v)
  (bm_lo v) (bm_hi v) (a_ndev v) (a_dev0_blocks v) (retain_release v)
  (spn_armed v) (spn_nopin v) (spn_bitmap v) (meta_mapper v) (meta_mapper_n
  v).
Definition set_bitmap x v := mkAvol (sb v) x (bitmap_blocks v)
  (meta_type_bitmap v) (seal_dirty v) (raw_z v) (shadow_z v) (arena_z v)
  (arena_start v) (arena_blocks v) (free_blocks v) (meta_free_blocks v)
  (bm_lo v) (bm_hi v) (a_ndev v) (a_dev0_blocks v) (retain_release v)
  (spn_armed v) (spn_nopin v) (spn_bitmap v) (meta_mapper v) (meta_mapper_n
  v).
Definition set_bitmap_blocks x v := mkAvol (sb v) (bitmap v) x
  (meta_type_bitmap v) (seal_dirty v) (raw_z v) (shadow_z v) (arena_z v)
  (arena_start v) (arena_blocks v) (free_blocks v) (meta_free_blocks v)
  (bm_lo v) (bm_hi v) (a_ndev v) (a_dev0_blocks v) (retain_release v)
  (spn_armed v) (spn_nopin v) (spn_bitmap v) (meta_mapper v) (meta_mapper_n
  v).
Definition set_meta_type_bitmap x v := mkAvol (sb v) (bitmap v)
  (bitmap_blocks v) x (seal_dirty v) (raw_z v) (shadow_z v) (arena_z v)
  (arena_start v) (arena_blocks v) (free_blocks v) (meta_free_blocks v)
  (bm_lo v) (bm_hi v) (a_ndev v) (a_dev0_blocks v) (retain_release v)
  (spn_armed v) (spn_nopin v) (spn_bitmap v) (meta_mapper v) (meta_mapper_n
  v).
Definition set_seal_dirty x v := mkAvol (sb v) (bitmap v) (bitmap_blocks v)
  (meta_type_bitmap v) x (raw_z v) (shadow_z v) (arena_z v) (arena_start v)
  (arena_blocks v) (free_blocks v) (meta_free_blocks v) (bm_lo v) (bm_hi v)
  (a_ndev v) (a_dev0_blocks v) (retain_release v) (spn_armed v) (spn_nopin
  v) (spn_bitmap v) (meta_mapper v) (meta_mapper_n v).
Definition set_raw_z x v := mkAvol (sb v) (bitmap v) (bitmap_blocks v)
  (meta_type_bitmap v) (seal_dirty v) x (shadow_z v) (arena_z v)
  (arena_start v) (arena_blocks v) (free_blocks v) (meta_free_blocks v)
  (bm_lo v) (bm_hi v) (a_ndev v) (a_dev0_blocks v) (retain_release v)
  (spn_armed v) (spn_nopin v) (spn_bitmap v) (meta_mapper v) (meta_mapper_n
  v).
Definition set_shadow_z x v := mkAvol (sb v) (bitmap v) (bitmap_blocks v)
  (meta_type_bitmap v) (seal_dirty v) (raw_z v) x (arena_z v) (arena_start
  v) (arena_blocks v) (free_blocks v) (meta_free_blocks v) (bm_lo v) (bm_hi
  v) (a_ndev v) (a_dev0_blocks v) (retain_release v) (spn_armed v)
  (spn_nopin v) (spn_bitmap v) (meta_mapper v) (meta_mapper_n v).
Definition set_arena_z x v := mkAvol (sb v) (bitmap v) (bitmap_blocks v)
  (meta_type_bitmap v) (seal_dirty v) (raw_z v) (shadow_z v) x (arena_start
  v) (arena_blocks v) (free_blocks v) (meta_free_blocks v) (bm_lo v) (bm_hi
  v) (a_ndev v) (a_dev0_blocks v) (retain_release v) (spn_armed v)
  (spn_nopin v) (spn_bitmap v) (meta_mapper v) (meta_mapper_n v).
Definition set_arena_start x v := mkAvol (sb v) (bitmap v) (bitmap_blocks v)
  (meta_type_bitmap v) (seal_dirty v) (raw_z v) (shadow_z v) (arena_z v) x
  (arena_blocks v) (free_blocks v) (meta_free_blocks v) (bm_lo v) (bm_hi v)
  (a_ndev v) (a_dev0_blocks v) (retain_release v) (spn_armed v) (spn_nopin
  v) (spn_bitmap v) (meta_mapper v) (meta_mapper_n v).
Definition set_arena_blocks x v := mkAvol (sb v) (bitmap v) (bitmap_blocks
  v) (meta_type_bitmap v) (seal_dirty v) (raw_z v) (shadow_z v) (arena_z v)
  (arena_start v) x (free_blocks v) (meta_free_blocks v) (bm_lo v) (bm_hi v)
  (a_ndev v) (a_dev0_blocks v) (retain_release v) (spn_armed v) (spn_nopin
  v) (spn_bitmap v) (meta_mapper v) (meta_mapper_n v).
Definition set_free_blocks x v := mkAvol (sb v) (bitmap v) (bitmap_blocks v)
  (meta_type_bitmap v) (seal_dirty v) (raw_z v) (shadow_z v) (arena_z v)
  (arena_start v) (arena_blocks v) x (meta_free_blocks v) (bm_lo v) (bm_hi
  v) (a_ndev v) (a_dev0_blocks v) (retain_release v) (spn_armed v)
  (spn_nopin v) (spn_bitmap v) (meta_mapper v) (meta_mapper_n v).
Definition set_meta_free_blocks x v := mkAvol (sb v) (bitmap v)
  (bitmap_blocks v) (meta_type_bitmap v) (seal_dirty v) (raw_z v) (shadow_z
  v) (arena_z v) (arena_start v) (arena_blocks v) (free_blocks v) x (bm_lo
  v) (bm_hi v) (a_ndev v) (a_dev0_blocks v) (retain_release v) (spn_armed v)
  (spn_nopin v) (spn_bitmap v) (meta_mapper v) (meta_mapper_n v).
Definition set_bm_lo x v := mkAvol (sb v) (bitmap v) (bitmap_blocks v)
  (meta_type_bitmap v) (seal_dirty v) (raw_z v) (shadow_z v) (arena_z v)
  (arena_start v) (arena_blocks v) (free_blocks v) (meta_free_blocks v) x
  (bm_hi v) (a_ndev v) (a_dev0_blocks v) (retain_release v) (spn_armed v)
  (spn_nopin v) (spn_bitmap v) (meta_mapper v) (meta_mapper_n v).
Definition set_bm_hi x v := mkAvol (sb v) (bitmap v) (bitmap_blocks v)
  (meta_type_bitmap v) (seal_dirty v) (raw_z v) (shadow_z v) (arena_z v)
  (arena_start v) (arena_blocks v) (free_blocks v) (meta_free_blocks v)
  (bm_lo v) x (a_ndev v) (a_dev0_blocks v) (retain_release v) (spn_armed v)
  (spn_nopin v) (spn_bitmap v) (meta_mapper v) (meta_mapper_n v).
Definition set_a_ndev x v := mkAvol (sb v) (bitmap v) (bitmap_blocks v)
  (meta_type_bitmap v) (seal_dirty v) (raw_z v) (shadow_z v) (arena_z v)
  (arena_start v) (arena_blocks v) (free_blocks v) (meta_free_blocks v)
  (bm_lo v) (bm_hi v) x (a_dev0_blocks v) (retain_release v) (spn_armed v)
  (spn_nopin v) (spn_bitmap v) (meta_mapper v) (meta_mapper_n v).
Definition set_a_dev0_blocks x v := mkAvol (sb v) (bitmap v) (bitmap_blocks
  v) (meta_type_bitmap v) (seal_dirty v) (raw_z v) (shadow_z v) (arena_z v)
  (arena_start v) (arena_blocks v) (free_blocks v) (meta_free_blocks v)
  (bm_lo v) (bm_hi v) (a_ndev v) x (retain_release v) (spn_armed v)
  (spn_nopin v) (spn_bitmap v) (meta_mapper v) (meta_mapper_n v).
Definition set_retain_release x v := mkAvol (sb v) (bitmap v) (bitmap_blocks
  v) (meta_type_bitmap v) (seal_dirty v) (raw_z v) (shadow_z v) (arena_z v)
  (arena_start v) (arena_blocks v) (free_blocks v) (meta_free_blocks v)
  (bm_lo v) (bm_hi v) (a_ndev v) (a_dev0_blocks v) x (spn_armed v)
  (spn_nopin v) (spn_bitmap v) (meta_mapper v) (meta_mapper_n v).
Definition set_spn_armed x v := mkAvol (sb v) (bitmap v) (bitmap_blocks v)
  (meta_type_bitmap v) (seal_dirty v) (raw_z v) (shadow_z v) (arena_z v)
  (arena_start v) (arena_blocks v) (free_blocks v) (meta_free_blocks v)
  (bm_lo v) (bm_hi v) (a_ndev v) (a_dev0_blocks v) (retain_release v) x
  (spn_nopin v) (spn_bitmap v) (meta_mapper v) (meta_mapper_n v).
Definition set_spn_nopin x v := mkAvol (sb v) (bitmap v) (bitmap_blocks v)
  (meta_type_bitmap v) (seal_dirty v) (raw_z v) (shadow_z v) (arena_z v)
  (arena_start v) (arena_blocks v) (free_blocks v) (meta_free_blocks v)
  (bm_lo v) (bm_hi v) (a_ndev v) (a_dev0_blocks v) (retain_release v)
  (spn_armed v) x (spn_bitmap v) (meta_mapper v) (meta_mapper_n v).
Definition set_spn_bitmap x v := mkAvol (sb v) (bitmap v) (bitmap_blocks v)
  (meta_type_bitmap v) (seal_dirty v) (raw_z v) (shadow_z v) (arena_z v)
  (arena_start v) (arena_blocks v) (free_blocks v) (meta_free_blocks v)
  (bm_lo v) (bm_hi v) (a_ndev v) (a_dev0_blocks v) (retain_release v)
  (spn_armed v) (spn_nopin v) x (meta_mapper v) (meta_mapper_n v).
Definition set_meta_mapper x v := mkAvol (sb v) (bitmap v) (bitmap_blocks v)
  (meta_type_bitmap v) (seal_dirty v) (raw_z v) (shadow_z v) (arena_z v)
  (arena_start v) (arena_blocks v) (free_blocks v) (meta_free_blocks v)
  (bm_lo v) (bm_hi v) (a_ndev v) (a_dev0_blocks v) (retain_release v)
  (spn_armed v) (spn_nopin v) (spn_bitmap v) x (meta_mapper_n v).
Definition set_meta_mapper_n x v := mkAvol (sb v) (bitmap v) (bitmap_blocks
  v) (meta_type_bitmap v) (seal_dirty v) (raw_z v) (shadow_z v) (arena_z v)
  (arena_start v) (arena_blocks v) (free_blocks v) (meta_free_blocks v)
  (bm_lo v) (bm_hi v) (a_ndev v) (a_dev0_blocks v) (retain_release v)
  (spn_armed v) (spn_nopin v) (spn_bitmap v) (meta_mapper v) x.

Definition get_zone (z : zone_id) (v : avol) : zone :=
  match z with ZRaw => raw_z v | ZShadow => shadow_z v | ZArena => arena_z v end.
Definition set_zone (z : zone_id) (x : zone) (v : avol) : avol :=
  match z with
  | ZRaw => set_raw_z x v | ZShadow => set_shadow_z x v | ZArena => set_arena_z x v
  end.

(** Source: core/volume_internal.h:1172-1178 [vol_bm_dirty] *)
Definition vol_bm_dirty (i : Z) (v : avol) : avol :=
  let byte := i / 8 in
  if bm_hi v <? bm_lo v then set_bm_hi (byte + 1) (set_bm_lo byte v)
  else
    let v := if byte <? bm_lo v then set_bm_lo byte v else v in
    if bm_hi v <? byte + 1 then set_bm_hi (byte + 1) v else v.

(** Source: core/vol_anchor.c [anchor_pba] *)
Definition anchor_pba (s : superblock) : Z :=
  if total_blocks s =? 0 then 0
  else if total_blocks s <? 2 then 0
  else total_blocks s - 1.

(** Source: core/vol_anchor.c [anchor_block_protected] *)
Definition anchor_block_protected (s : superblock) (pba : Z) : bool :=
  if total_blocks s =? 0 then false else pba =? anchor_pba s.

(** Set or clear a run of bits, [k] blocks from [pba] on. *)
Fixpoint run_bits (f : bytes -> Z -> bytes) (b : bytes) (pba : Z) (k : nat) : bytes :=
  match k with
  | O => b
  | S k => run_bits f (f b pba) (pba + 1) k
  end.
Definition set_run (b : bytes) (pba n : Z) : bytes :=
  run_bits bit_set b pba (Z.to_nat n).
Definition clr_run (b : bytes) (pba n : Z) : bytes :=
  run_bits bit_clr b pba (Z.to_nat n).

(** Source: core/vol_seal.c [seal_dirty_mark] *)
Definition seal_dirty_mark (pba n : Z) (v : avol) : avol :=
  let ss := shadow_zone_start (sb v) in
  let se := ss + shadow_zone_blocks (sb v) in
  match seal_dirty v with
  | None => v
  | Some d =>
      if n =? 0 then v
      else if (pba + n <=? ss) || (se <=? pba) then v
      else
        let '(pba, n) := if pba <? ss then (ss, n - (ss - pba)) else (pba, n) in
        let end_ := if se <? pba + n then se else pba + n in
        set_seal_dirty (Some (set_run d (pba - ss) (end_ - pba))) v
  end.

(** ** Allocation *)

Definition flag_set (s : superblock) (f : Z) : bool :=
  negb (Z.land (vol_flags s) f =? 0).

(** The zone whose counters an allocation uses. *)
Definition zone_of (v : avol) (zone_start : Z) : zone_id :=
  if zone_start =? shadow_zone_start (sb v) then ZShadow
  else if (a_ndev v =? 2) && negb (arena_blocks v =? 0) &&
          (zone_start =? arena_start v) then ZArena
  else ZRaw.

(** The scan of the zone from the cursor, wrapping once; the answer is the
    first and the last block of the run.
    Source: core/volume.c:2147-2183 [alloc_blocks] *)
Fixpoint scan_run (fuel : nat) (b : bytes) (s : superblock)
    (zone_start zone_end n i start : Z) : option (Z * Z) :=
  match fuel with
  | O => None
  | S fuel =>
      let '(i, start) := if zone_end <=? i then (zone_start, 0) else (i, start) in
      if negb (bit_get b i) && negb (anchor_block_protected s i) then
        let start := if start =? 0 then i else start in
        if i - start + 1 =? n then Some (start, i)
        else scan_run fuel b s zone_start zone_end n (i + 1) start
      else scan_run fuel b s zone_start zone_end n (i + 1) 0
  end.

(** The ENOSPC policy and the space latch.
    Source: core/volume.c:2110-2133 [alloc_blocks] *)
Definition space_guard (use_reserve : bool) : M avol unit :=
  let* v := mget in
  let guard := (if use_reserve then 0 else reserved_blocks (sb v))
               + hard_min_blocks (sb v) in
  if free_blocks v <=? guard then
    (if (free_blocks v <=? hard_min_blocks (sb v)) &&
        negb (flag_set (sb v) VOLF_READONLY)
     then mmod (fun v => set_sb (set_vol_flags
            (Z.lor (vol_flags (sb v)) (Z.lor VOLF_READONLY VOLF_RO_SPACE))
            (sb v)) v)
     else mret tt) ;;;
    mfail
  else mret tt.

(** Mark the run [start, last] allocated.
    Source: core/volume.c:2156-2168 [alloc_blocks] *)
Definition mark_run (zone_start n : Z) (type : alloc_type) (start last : Z)
    (v : avol) : avol :=
  let v := set_bitmap (set_run (bitmap v) start (last - start + 1)) v in
  let v := match type, meta_type_bitmap v with
           | AllocMeta, Some t =>
               set_meta_type_bitmap (Some (set_run t start (last - start + 1))) v
           | _, _ => v
           end in
  let v := vol_bm_dirty start v in
  let v := vol_bm_dirty last v in
  if zone_start =? shadow_zone_start (sb v) then seal_dirty_mark start n v else v.

(** Take the run.
    Source: core/volume.c:2155-2178 [alloc_blocks] *)
Definition take_run (z : zone_id) (zone_start zone_end n : Z) (type : alloc_type)
    (start last : Z) (v : avol) : avol :=
  let v := mark_run zone_start n type start last v in
  let zn := get_zone z v in
  let cursor := if last + 1 <? zone_end then last + 1 else zone_start in
  let v := set_zone z (mkZone cursor (u64 (z_free zn - n)) (z_fail_run zn)) v in
  let v := set_free_blocks (u64 (free_blocks v - n)) v in
  match type with
  | AllocMeta => set_meta_free_blocks (u64 (meta_free_blocks v - n)) v
  | AllocData => v
  end.

(** Source: core/volume.c [alloc_blocks] *)
Definition alloc_blocks (zone_start zone_len n : Z) (use_reserve : bool)
    (type : alloc_type) : M avol Z :=
  let zone_end := zone_start + zone_len in
  let* v := mget in
  let z := zone_of v zone_start in
  mguard (negb (flag_set (sb v) VOLF_READONLY)) ;;;
  mguard (negb (z_free (get_zone z v) <? n)) ;;;
  mguard (negb (negb (z_fail_run (get_zone z v) =? 0) &&
                (z_fail_run (get_zone z v) <=? n))) ;;;
  space_guard use_reserve ;;;
  mguard (match type with
          | AllocData =>
              negb ((0 <? meta_reserved_pct (sb v)) &&
                    (u64 (free_blocks v - n) <?
                     total_blocks (sb v) * meta_reserved_pct (sb v) / 100))
          | AllocMeta => true
          end) ;;;
  let cur := z_cursor (get_zone z v) in
  let i := if (cur <? zone_start) || (zone_end <=? cur) then zone_start else cur in
  match scan_run (Z.to_nat zone_len) (bitmap v) (sb v) zone_start zone_end n i 0 with
  | Some (start, last) =>
      mmod (take_run z zone_start zone_end n type start last) ;;; mret start
  | None =>
      mmod (fun v =>
        let zn := get_zone z v in
        if (z_fail_run zn =? 0) || (n <? z_fail_run zn)
        then set_zone z (mkZone (z_cursor zn) (z_free zn) n) v else v) ;;;
      mfail
  end.

(** Source: core/volume.c [alloc_raw_or_shadow] *)
Definition alloc_raw_or_shadow (nblocks : Z) : M avol Z :=
  let* v := mget in
  let* r := mtry (alloc_blocks (raw_zone_start (sb v)) (raw_zone_blocks (sb v))
                    nblocks false AllocData) in
  match r with
  | Some pba => mret pba
  | None => alloc_blocks (shadow_zone_start (sb v)) (shadow_zone_blocks (sb v))
              nblocks false AllocData
  end.

(** ** Metadata extents *)

Definition INVFS_META_EXT_ENTRIES : Z := 16384.

(** Source: core/invarifs.h:915-915 [invfs_meta_ext_pba] *)
Definition invfs_meta_ext_pba (e : Z) : Z := Z.land e 0x0FFFFFFFFFFFFFFF.
(** Source: core/invarifs.h:916-916 [invfs_meta_ext_class] *)
Definition invfs_meta_ext_class (e : Z) : Z := u8 (Z.land (Z.shiftr e 60) 0xF).
(** Source: core/invarifs.h:917-917 [invfs_meta_ext_size] *)
Definition invfs_meta_ext_size (e : Z) : Z :=
  u64 (Z.shiftl 65536 (invfs_meta_ext_class e)).

(** The first free mapper slot. *)
Fixpoint free_slot (l : list Z) (idx : Z) : Z :=
  match l with
  | [] => idx
  | e :: t => if invfs_meta_ext_pba e =? 0 then idx else free_slot t (idx + 1)
  end.

(** Source: core/invarifs.h:918-920 [invfs_meta_ext_encode] *)
Definition invfs_meta_ext_encode (pba size_class : Z) : Z :=
  Z.lor pba (u64 (Z.shiftl (Z.land size_class 0xF) 60)).

(** Source: core/volume.c [alloc_meta_extent] *)
Definition alloc_meta_extent (size_class : Z) : M avol Z :=
  let nblocks := u64 (Z.shiftl 65536 size_class) / INVFS_BLOCK_SIZE in
  let* v := mget in
  match meta_mapper v with
  | None => mfail
  | Some _ =>
      mguard (negb ((0 <? meta_reserved_pct (sb v)) &&
                    (u64 (free_blocks v - nblocks) <?
                     total_blocks (sb v) * meta_reserved_pct (sb v) / 100))) ;;;
      let* pba := alloc_blocks (shadow_zone_start (sb v)) (shadow_zone_blocks (sb v))
                    nblocks false AllocMeta in
      let* v := mget in
      mguard (meta_mapper_n v <? INVFS_META_EXT_ENTRIES) ;;;
      let tab := default [] (meta_mapper v) in
      let idx := free_slot tab 0 in
      mguard (idx <? INVFS_META_EXT_ENTRIES) ;;;
      mmod (set_meta_mapper (Some
        (<[Z.to_nat idx := invfs_meta_ext_encode pba size_class]> tab))) ;;;
      (if meta_mapper_n v <=? idx then mmod (set_meta_mapper_n (idx + 1)) else mret tt) ;;;
      mret (idx + 1)
  end.

(** All of the run's blocks are free. *)
Definition run_free (b : bytes) (pba n : Z) : bool :=
  forallb (fun k => negb (bit_get b k)) (seqZ pba n).

(** Source: core/volume.c [extend_meta_extent] *)
Definition extend_meta_extent (extent_idx new_size_class : Z) : M avol bool :=
  let* v := mget in
  if (INVFS_META_EXT_ENTRIES <=? extent_idx) || (meta_mapper_n v <=? extent_idx)
  then mret false else
  let tab := default [] (meta_mapper v) in
  let old_entry := nthZ tab extent_idx in
  let old_pba := invfs_meta_ext_pba old_entry in
  let old_class := invfs_meta_ext_class old_entry in
  let old_blocks := invfs_meta_ext_size old_entry / INVFS_BLOCK_SIZE in
  if new_size_class <=? old_class then mret false else
  let new_blocks := u64 (Z.shiftl 65536 new_size_class) / INVFS_BLOCK_SIZE in
  if new_blocks <=? old_blocks then mret false else
  let adj_blocks := new_blocks - old_blocks in
  let adj_pba := old_pba + old_blocks in
  if run_free (bitmap v) adj_pba adj_blocks then
    mmod (fun v =>
      let v := set_bitmap (set_run (bitmap v) adj_pba adj_blocks) v in
      let v := match meta_type_bitmap v with
               | Some t => set_meta_type_bitmap (Some (set_run t adj_pba adj_blocks)) v
               | None => v
               end in
      let v := vol_bm_dirty old_pba v in
      let v := vol_bm_dirty (adj_pba + adj_blocks - 1) v in
      let v := set_free_blocks (u64 (free_blocks v - adj_blocks)) v in
      let v := set_meta_free_blocks (u64 (meta_free_blocks v - adj_blocks)) v in
      set_meta_mapper (Some (<[Z.to_nat extent_idx :=
        invfs_meta_ext_encode old_pba new_size_class]> tab)) v) ;;;
    mret true
  else mret false.

(** ** Freeing *)

(** Source: core/volume.c [vol_set_readonly] *)
Definition vol_set_readonly (ro : bool) (v : avol) : avol :=
  set_sb (set_vol_flags
    (if ro then Z.lor (vol_flags (sb v)) VOLF_READONLY
     else Z.ldiff (vol_flags (sb v)) (Z.lor VOLF_READONLY VOLF_RO_SPACE)) (sb v)) v.

(** Source: core/volume.c [vol_readonly_unlatch] *)
Definition vol_readonly_unlatch (v : avol) : avol :=
  let watermark := hard_min_blocks (sb v) + total_blocks (sb v) / 50 in
  let both := Z.lor VOLF_READONLY VOLF_RO_SPACE in
  if (Z.land (vol_flags (sb v)) both =? both) && (watermark <? free_blocks v)
  then set_sb (set_vol_flags (Z.ldiff (vol_flags (sb v)) both) (sb v)) v
  else v.

(** Source: core/volume.c [vol_write_guard] *)
Definition vol_write_guard (v : avol) : Z :=
  reserved_blocks (sb v) + hard_min_blocks (sb v).

(** Source: core/vol_spt0.c [spt0_block_pinned] *)
Definition spt0_block_pinned (v : avol) (pba nblocks : Z) : bool :=
  match spn_bitmap v with
  | Some m =>
      if negb (spn_armed v) || spn_nopin v then false
      else if total_blocks (sb v) <=? pba then false
      else
        let end_ := Z.min (pba + nblocks) (total_blocks (sb v)) in
        existsb (bit_get m) (seqZ pba (end_ - pba))
  | None => false
  end.

(** Give the run back to its zone's counters.
    Source: core/volume.c:3315-3332 [vol_free_run] *)
Definition credit_zone (pba nblocks : Z) (v : avol) : avol :=
  let credit z v :=
    let zn := get_zone z v in
    set_zone z (mkZone (if pba <? z_cursor zn then pba else z_cursor zn)
                  (u64 (z_free zn + nblocks)) 0) v in
  if shadow_zone_start (sb v) <=? pba then credit ZShadow v
  else if (a_ndev v =? 2) && (a_dev0_blocks v <=? pba) then v
  else if (a_ndev v =? 2) && (arena_start v <=? pba) then credit ZArena v
  else if raw_zone_start (sb v) <=? pba then credit ZRaw v
  else v.

(** Source: core/volume.c [vol_free_run] *)
Definition vol_free_run (pba nblocks : Z) (v : avol) : avol :=
  let end_ := Z.min (pba + nblocks) (total_blocks (sb v)) in
  let v := set_bitmap (clr_run (bitmap v) pba (end_ - pba)) v in
  let v := if pba <? end_ then vol_bm_dirty (end_ - 1) (vol_bm_dirty pba v) else v in
  let v := seal_dirty_mark pba (end_ - pba) v in
  let v := set_free_blocks (u64 (free_blocks v + nblocks)) v in
  vol_readonly_unlatch (credit_zone pba nblocks v).

(** The per-block split of a partly pinned run.
    Source: core/volume.c:3383-3390 [vol_free_blocks] *)
Fixpoint free_split (k : nat) (i run : Z) (v : avol) : avol :=
  match k with
  | O => if run =? 0 then v else vol_free_run (i - run) run v
  | S k =>
      if negb (spt0_block_pinned v i 1) then free_split k (i + 1) (run + 1) v
      else
        let v := if run =? 0 then v else vol_free_run (i - run) run v in
        free_split k (i + 1) 0 v
  end.

(** Source: core/volume.c [vol_free_blocks] *)
Definition vol_free_blocks (pba nblocks : Z) (v : avol) : avol :=
  let end_ := Z.min (pba + nblocks) (total_blocks (sb v)) in
  if negb (retain_release v) && spt0_block_pinned v pba (end_ - pba) then v
  else if retain_release v || negb (spt0_block_pinned v pba (end_ - pba)) then
    vol_free_run pba (end_ - pba) v
  else free_split (Z.to_nat (end_ - pba)) pba 0 v.

(** ** Counting *)

(** Free blocks among the [n] blocks from [start] on. *)
Fixpoint count_clear_bits (b : bytes) (i : Z) (k : nat) : Z :=
  match k with
  | O => 0
  | S k => (if bit_get b i then 0 else 1) + count_clear_bits b (i + 1) k
  end.
Definition count_free (b : bytes) (start n : Z) : Z :=
  count_clear_bits b start (Z.to_nat n).

(** Source: core/volume.c [vol_count_free] *)
Definition vol_count_free (v : avol) : Z :=
  count_free (bitmap v) 0 (total_blocks (sb v)).

(** Source: core/volume.c [zone_count_free] *)
Definition zone_count_free (v : avol) (start len : Z) : Z :=
  count_free (bitmap v) start (Z.min (start + len) (total_blocks (sb v)) - start).

(** Source: core/volume.c [alloc_state_reset] *)
Definition alloc_state_reset (v : avol) : avol :=
  let s := sb v in
  let v := set_raw_z (mkZone (raw_zone_start s)
             (zone_count_free v (raw_zone_start s) (raw_zone_blocks s)) 0) v in
  let v := set_shadow_z (mkZone (shadow_zone_start s)
             (zone_count_free v (shadow_zone_start s) (shadow_zone_blocks s)) 0) v in
  let v := set_arena_z (mkZone (arena_start v)
             (if arena_blocks v =? 0 then 0
              else zone_count_free v (arena_start v) (arena_blocks v)) 0) v in
  let meta_lo := metadata_zone_start s in
  let meta_hi := Z.min (meta_lo + metadata_zone_blocks s) (total_blocks s) in
  let v := match meta_type_bitmap v with
           | None => set_meta_type_bitmap
                       (Some (zeros (bitmap_blocks v * INVFS_BLOCK_SIZE))) v
           | Some _ => v
           end in
  let v := set_meta_free_blocks
             (if meta_lo <? meta_hi then zone_count_free v meta_lo (meta_hi - meta_lo)
              else 0) v in
  set_bm_hi 0 (set_bm_lo 1 v).

(** ** Bits *)

Lemma testbit_u8 x k : 0 <= k < 8 -> Z.testbit (u8 x) k = Z.testbit x k.
Proof. intros. unfold u8. rewrite Z.mod_pow2_bits_low by lia. done. Qed.

Lemma nthZ_upd f b k j :
  0 <= k < zlen b -> 0 <= j ->
  nthZ (upd_byte f b k) j = if decide (j = k) then f (nthZ b k) else nthZ b j.
Proof.
  intros Hk Hj. unfold nthZ, upd_byte. case_decide as E.
  - subst. destruct (nth_lookup_or_length b (Z.to_nat k) 0) as [E|E]; [|lia].
    apply nth_lookup_Some. by rewrite list_lookup_alter_eq, E.
  - rewrite !nth_lookup. rewrite list_lookup_alter_ne; [done|lia].
Qed.

Lemma bit_pos_ne i j : j <> i -> j / 8 = i / 8 -> j mod 8 <> i mod 8.
Proof.
  intros Hne E1 E2. apply Hne. rewrite (Z.div_mod i 8), (Z.div_mod j 8) by lia. lia.
Qed.

Lemma byte_index i (b : bytes) : 0 <= i < 8 * zlen b -> 0 <= i / 8 < zlen b.
Proof. intros. split; [apply Z.div_pos; lia|apply Z.div_lt_upper_bound; lia]. Qed.

(** The bit a mask selects. *)
Lemma mask_bit k m : 0 <= k -> m <> k -> Z.testbit (Z.shiftl 1 k) m = false.
Proof.
  intros Hk Hne. rewrite Z.shiftl_1_l. apply Z.pow2_bits_false. lia.
Qed.

Lemma bit_get_set b i j :
  0 <= i < 8 * zlen b -> 0 <= j ->
  bit_get (bit_set b i) j = (j =? i) || bit_get b j.
Proof.
  intros Hi Hj. unfold bit_get, bit_set.
  pose proof (Z.mod_pos_bound i 8 ltac:(lia)). pose proof (Z.mod_pos_bound j 8 ltac:(lia)).
  rewrite nthZ_upd; [|by apply byte_index|apply Z.div_pos; lia].
  case_decide as E.
  - rewrite testbit_u8, Z.lor_spec by lia. rewrite E.
    destruct (j =? i) eqn:Eji; zbool.
    + subst. rewrite Z.shiftl_1_l, Z.pow2_bits_true by lia. apply orb_true_r.
    + rewrite mask_bit; [apply orb_false_r|lia|by apply bit_pos_ne].
  - destruct (j =? i) eqn:Eji; zbool; [subst; done|done].
Qed.

Lemma bit_get_clr b i j :
  0 <= i < 8 * zlen b -> 0 <= j ->
  bit_get (bit_clr b i) j = negb (j =? i) && bit_get b j.
Proof.
  intros Hi Hj. unfold bit_get, bit_clr.
  pose proof (Z.mod_pos_bound i 8 ltac:(lia)). pose proof (Z.mod_pos_bound j 8 ltac:(lia)).
  rewrite nthZ_upd; [|by apply byte_index|apply Z.div_pos; lia].
  case_decide as E.
  - rewrite Z.ldiff_spec. rewrite E. destruct (j =? i) eqn:Eji; zbool.
    + subst. rewrite Z.shiftl_1_l, Z.pow2_bits_true by lia. apply andb_false_r.
    + rewrite mask_bit; [apply andb_true_r|lia|by apply bit_pos_ne].
  - destruct (j =? i) eqn:Eji; zbool; [subst; done|done].
Qed.

Lemma length_bit_set b i : length (bit_set b i) = length b.
Proof. apply length_alter. Qed.
Lemma length_bit_clr b i : length (bit_clr b i) = length b.
Proof. apply length_alter. Qed.

Lemma length_set_run b p n : length (set_run b p n) = length b.
Proof.
  unfold set_run. generalize (Z.to_nat n) as k. intros k. revert b p.
  induction k; intros; simpl; [done|]. by rewrite IHk, length_bit_set.
Qed.
Lemma length_clr_run b p n : length (clr_run b p n) = length b.
Proof.
  unfold clr_run. generalize (Z.to_nat n) as k. intros k. revert b p.
  induction k; intros; simpl; [done|]. by rewrite IHk, length_bit_clr.
Qed.

Definition in_run (p n j : Z) : bool := (p <=? j) && (j <? p + n).

Lemma in_run_succ p k j :
  in_run p (Z.of_nat (S k)) j = (j =? p) || in_run (p + 1) (Z.of_nat k) j.
Proof.
  unfold in_run. apply eq_true_iff_eq.
  rewrite orb_true_iff, !andb_true_iff, Z.eqb_eq, !Z.leb_le, !Z.ltb_lt. lia.
Qed.

Lemma bit_get_set_run b p n j :
  0 <= p -> 0 <= n -> p + n <= 8 * zlen b -> 0 <= j ->
  bit_get (set_run b p n) j = in_run p n j || bit_get b j.
Proof.
  intros Hp Hn Hl Hj. unfold set_run. rewrite <- (Z2Nat.id n) by done.
  rewrite <- (Z2Nat.id n) in Hl by done. rewrite Nat2Z.id.
  generalize dependent (Z.to_nat n). intros k. revert b p Hp.
  induction k as [|k IH]; intros b p Hp Hl; simpl run_bits.
  - unfold in_run. destruct (_ <=? _) eqn:E1, (_ <? _) eqn:E2; zbool; try done. lia.
  - rewrite IH by (rewrite ?length_bit_set; lia).
    rewrite bit_get_set, in_run_succ by lia.
    destruct (j =? p), (in_run _ _ _); done.
Qed.

Lemma bit_get_clr_run b p n j :
  0 <= p -> 0 <= n -> p + n <= 8 * zlen b -> 0 <= j ->
  bit_get (clr_run b p n) j = negb (in_run p n j) && bit_get b j.
Proof.
  intros Hp Hn Hl Hj. unfold clr_run. rewrite <- (Z2Nat.id n) by done.
  rewrite <- (Z2Nat.id n) in Hl by done. rewrite Nat2Z.id.
  generalize dependent (Z.to_nat n). intros k. revert b p Hp.
  induction k as [|k IH]; intros b p Hp Hl; simpl run_bits.
  - unfold in_run. destruct (_ <=? _) eqn:E1, (_ <? _) eqn:E2; zbool; try done. lia.
  - rewrite IH by (rewrite ?length_bit_clr; lia).
    rewrite bit_get_clr, in_run_succ by lia.
    destruct (j =? p), (in_run _ _ _); done.
Qed.

(** ** Counting *)

Lemma count_bits_app b s m n :
  count_clear_bits b s (m + n) =
  count_clear_bits b s m + count_clear_bits b (s + Z.of_nat m) n.
Proof.
  revert s; induction m as [|m IH]; intros s; cbn [count_clear_bits Nat.add].
  - rewrite Z.add_0_r. lia.
  - rewrite IH. replace (s + 1 + Z.of_nat m) with (s + Z.of_nat (S m)) by lia. lia.
Qed.

Lemma count_app b s m n : 0 <= m -> 0 <= n ->
  count_free b s (m + n) = count_free b s m + count_free b (s + m) n.
Proof.
  intros. unfold count_free. rewrite Z2Nat.inj_add, count_bits_app by lia.
  by rewrite Z2Nat.id.
Qed.

Lemma count_bits_ext b b' s k :
  (forall j, s <= j < s + Z.of_nat k -> bit_get b' j = bit_get b j) ->
  count_clear_bits b' s k = count_clear_bits b s k.
Proof.
  revert s. induction k as [|k IH]; intros s H; cbn [count_clear_bits]; [done|].
  rewrite H by lia. rewrite IH; [done|]. intros j Hj. apply H. lia.
Qed.

Lemma count_ext b b' s n :
  (forall j, s <= j < s + n -> bit_get b' j = bit_get b j) ->
  count_free b' s n = count_free b s n.
Proof. intros H. apply count_bits_ext. intros j Hj. apply H. lia. Qed.

Lemma count_bits_const b s k (v : bool) :
  (forall j, s <= j < s + Z.of_nat k -> bit_get b j = v) ->
  count_clear_bits b s k = if v then 0 else Z.of_nat k.
Proof.
  revert s. induction k as [|k IH]; intros s H; cbn [count_clear_bits]; [by destruct v|].
  rewrite H by lia. rewrite IH by (intros j Hj; apply H; lia). destruct v; lia.
Qed.

Lemma count_bits_bound b s k : 0 <= count_clear_bits b s k <= Z.of_nat k.
Proof.
  revert s. induction k as [|k IH]; intros s; cbn [count_clear_bits]; [lia|].
  specialize (IH (s + 1)). destruct (bit_get b s); lia.
Qed.

Lemma count_clear b s n :
  0 <= n -> (forall j, s <= j < s + n -> bit_get b j = false) -> count_free b s n = n.
Proof.
  intros Hn H. unfold count_free. rewrite (count_bits_const _ _ _ false); [lia|].
  intros j Hj. apply H. lia.
Qed.
Lemma count_set b s n :
  (forall j, s <= j < s + n -> bit_get b j = true) -> count_free b s n = 0.
Proof.
  intros H. unfold count_free. rewrite (count_bits_const _ _ _ true); [done|].
  intros j Hj. apply H. lia.
Qed.

Lemma count_bound b s n : 0 <= n -> 0 <= count_free b s n <= n.
Proof.
  intros Hn. unfold count_free. pose proof (count_bits_bound b s (Z.to_nat n)). lia.
Qed.

(** A run that changes inside a counted range. *)
Lemma count_three b s m p n :
  s <= p -> p + n <= s + m -> 0 <= n ->
  count_free b s m = count_free b s (p - s) + count_free b p n
                     + count_free b (p + n) (s + m - (p + n)).
Proof.
  intros. replace m with ((p - s) + (n + (s + m - (p + n)))) at 1 by lia.
  rewrite count_app, count_app by lia.
  replace (s + (p - s)) with p by lia. lia.
Qed.

Lemma count_set_run b s m p n :
  0 <= s -> s <= p -> p + n <= s + m -> 0 <= n -> p + n <= 8 * zlen b ->
  (forall j, p <= j < p + n -> bit_get b j = false) ->
  count_free (set_run b p n) s m = count_free b s m - n.
Proof.
  intros Hs Hp Hm Hn Hl Hf.
  assert (Hb : forall j, 0 <= j -> bit_get (set_run b p n) j = in_run p n j || bit_get b j)
    by (intros; apply bit_get_set_run; lia).
  rewrite (count_three _ s m p n), (count_three b s m p n) by lia.
  rewrite (count_clear b p n), (count_set (set_run b p n) p n); auto.
  - rewrite (count_ext b (set_run b p n) s), (count_ext b (set_run b p n) (p + n)); [lia|..];
      intros j Hj; rewrite Hb by lia; unfold in_run.
    + rewrite (proj2 (Z.ltb_ge _ _)), andb_false_r by lia. done.
    + rewrite (proj2 (Z.leb_gt _ _)) by lia. done.
  - intros j Hj. rewrite Hb by lia. unfold in_run.
    rewrite (proj2 (Z.leb_le _ _)), (proj2 (Z.ltb_lt _ _)) by lia. done.
Qed.

Lemma count_clr_run b s m p n :
  0 <= s -> s <= p -> p + n <= s + m -> 0 <= n -> p + n <= 8 * zlen b ->
  (forall j, p <= j < p + n -> bit_get b j = true) ->
  count_free (clr_run b p n) s m = count_free b s m + n.
Proof.
  intros Hs Hp Hm Hn Hl Hf.
  assert (Hb : forall j, 0 <= j -> bit_get (clr_run b p n) j
                         = negb (in_run p n j) && bit_get b j)
    by (intros; apply bit_get_clr_run; lia).
  rewrite (count_three _ s m p n), (count_three b s m p n) by lia.
  rewrite (count_set b p n), (count_clear (clr_run b p n) p n); auto.
  - rewrite (count_ext b (clr_run b p n) s), (count_ext b (clr_run b p n) (p + n)); [lia|..];
      intros j Hj; rewrite Hb by lia; unfold in_run.
    + rewrite (proj2 (Z.ltb_ge _ _)), andb_false_r by lia. done.
    + rewrite (proj2 (Z.leb_gt _ _)) by lia. done.
  - intros j Hj. rewrite Hb by lia. unfold in_run.
    rewrite (proj2 (Z.leb_le _ _)), (proj2 (Z.ltb_lt _ _)) by lia. done.
Qed.

Lemma count_run_out b b' s m p n :
  (forall j, 0 <= j -> in_run p n j = false -> bit_get b' j = bit_get b j) ->
  0 <= s -> s + m <= p \/ p + n <= s -> count_free b' s m = count_free b s m.
Proof.
  intros H Hs Hd. apply count_ext. intros j Hj. apply H; [lia|].
  unfold in_run. destruct (_ <=? _) eqn:E1, (_ <? _) eqn:E2; zbool; try done. lia.
Qed.

(** ** The scan *)

Definition usable (b : bytes) (s : superblock) (j : Z) : Prop :=
  bit_get b j = false /\ anchor_block_protected s j = false.

Lemma usable_bool b s j :
  negb (bit_get b j) && negb (anchor_block_protected s j) = true <-> usable b s j.
Proof. unfold usable. by rewrite andb_true_iff, !negb_true_iff. Qed.

(** The run being built: [start] is 0 or the first block of a usable run that
    ends just before [i]. *)
Definition building (b : bytes) (s : superblock) (zs n i start : Z) : Prop :=
  start = 0 \/
  (zs <= start < i /\ i - start < n /\ forall j, start <= j < i -> usable b s j).

(** One step of the scan inside the zone. *)
Lemma scan_step fuel b s zs ze n i start :
  0 < zs -> zs <= i < ze -> 0 < n -> building b s zs n i start ->
  let st := if start =? 0 then i else start in
  (usable b s i /\ i - st + 1 = n /\ (forall j, st <= j <= i -> usable b s j) /\ zs <= st /\
   scan_run (S fuel) b s zs ze n i start = Some (st, i)) \/
  (exists start', building b s zs n (i + 1) start' /\
   (start' = 0 -> ~ usable b s i) /\
   (start' <> 0 -> start' = st) /\
   scan_run (S fuel) b s zs ze n i start = scan_run fuel b s zs ze n (i + 1) start').
Proof.
  intros Hz Hi Hn Hb st. cbn [scan_run]. rewrite (proj2 (Z.leb_gt ze i)) by lia.
  destruct (negb _ && _) eqn:Eu.
  - apply usable_bool in Eu. fold st.
    assert (Hrun : zs <= st <= i /\ i - st + 1 <= n /\ forall j, st <= j <= i -> usable b s j).
    { unfold st. destruct (start =? 0) eqn:E0; zbool.
      - split_and!; try lia. intros j Hj. by replace j with i by lia.
      - destruct Hb as [?|(Hs & Hd & Hu)]; [lia|]. split_and!; try lia.
        intros j Hj. destruct (decide (j = i)) as [->|]; [done|apply Hu; lia]. }
    destruct Hrun as (Hst & Hlen & Hall).
    destruct (i - st + 1 =? n) eqn:En; zbool.
    + left. split_and!; done || lia.
    + right. exists st. split_and!; try done; try lia. right. split_and!; try lia.
      intros j Hj. apply Hall. lia.
  - right. exists 0. split_and!; try done; [by left|]. intros _ Hu.
    apply usable_bool in Hu. congruence.
Qed.

Lemma scan_sound fuel b s zs ze n i start st la :
  0 < zs -> zs <= i <= ze -> zs < ze -> 0 < n -> building b s zs n i start ->
  scan_run fuel b s zs ze n i start = Some (st, la) ->
  zs <= st /\ la < ze /\ la - st + 1 = n /\ forall j, st <= j <= la -> usable b s j.
Proof.
  intros Hz. revert i start. induction fuel as [|fuel IH]; intros i start Hi Hze Hn Hb H; [done|].
  assert (Hwrap : exists i' start', zs <= i' < ze /\ building b s zs n i' start' /\
    scan_run (S fuel) b s zs ze n i' start' = Some (st, la)).
  { destruct (decide (i < ze)); [exists i, start; split_and!; done || lia|].
    exists zs, 0. split_and!; [lia..|by left|].
    rewrite <- H. cbn [scan_run]. rewrite (proj2 (Z.leb_gt ze zs)) by lia.
    by rewrite (proj2 (Z.leb_le ze i)) by lia. }
  clear H Hb Hi. destruct Hwrap as (i' & start' & Hi & Hb & H).
  destruct (scan_step fuel b s zs ze n i' start') as
    [(Hu & Hlen & Hall & Hst & E)|(s2 & Hb2 & _ & _ & E)]; try done; rewrite E in H.
  - simplify_eq. split_and!; try done. lia.
  - apply IH in H; try done. lia.
Qed.

(** A usable run of [n] blocks from [w] on. *)
Definition free_window (b : bytes) (s : superblock) (w n : Z) : Prop :=
  forall j, w <= j < w + n -> usable b s j.

Lemma scan_seg k fuel b s zs ze n i start :
  0 < zs -> zs <= i -> i + Z.of_nat k <= ze -> 0 < n -> (k <= fuel)%nat ->
  building b s zs n i start -> scan_run fuel b s zs ze n i start = None ->
  (forall w, (if start =? 0 then i else start) <= w -> w + n <= i + Z.of_nat k ->
     ~ free_window b s w n) /\
  exists start', building b s zs n (i + Z.of_nat k) start' /\
    scan_run (fuel - k) b s zs ze n (i + Z.of_nat k) start' = None.
Proof.
  intros Hz. revert fuel i start.
  induction k as [|k IH]; intros fuel i start Hi Hk Hn Hf Hb H.
  { rewrite Z.add_0_r, Nat.sub_0_r. split; [|eauto]. intros w Hw Hwn.
    destruct (start =? 0) eqn:E; zbool; [lia|]. destruct Hb as [?|(? & ? & _)]; lia. }
  destruct fuel as [|fuel]; [lia|].
  destruct (scan_step fuel b s zs ze n i start) as
    [(_ & _ & _ & _ & E)|(s2 & Hb2 & Hnu & Hst & E)]; try done; try lia; rewrite E in H;
    [done|].
  apply IH in H as [Hw Hrest]; try done; try lia. split.
  - intros w Hw1 Hw2 Hfree. destruct (decide (s2 = 0)) as [->|Hs2].
    + destruct (decide (i < w)) as [|Hle]; [apply (Hw w); simpl; try lia; done|].
      apply (Hnu eq_refl), Hfree. split; [lia|].
      destruct (start =? 0) eqn:E0; zbool; [lia|]. destruct Hb as [?|(? & ? & _)]; lia.
    + specialize (Hst Hs2). apply (Hw w); [|lia|done].
      rewrite (proj2 (Z.eqb_neq s2 0)) by done. lia.
  - destruct Hrest as (s3 & Hb3 & E3). exists s3.
    replace (i + Z.of_nat (S k)) with (i + 1 + Z.of_nat k) by lia. done.
Qed.

(** A scan that finds nothing has looked at every run on either side of the
    cursor. *)
Lemma scan_complete b s zs ze n i :
  0 < zs -> zs <= i < ze -> 0 < n ->
  scan_run (Z.to_nat (ze - zs)) b s zs ze n i 0 = None ->
  forall w, (i <= w /\ w + n <= ze) \/ (zs <= w /\ w + n <= i) -> ~ free_window b s w n.
Proof.
  intros Hz Hi Hn H.
  assert (Hk : Z.of_nat (Z.to_nat (ze - i)) = ze - i) by lia.
  apply (scan_seg (Z.to_nat (ze - i))) in H as [H1 (s' & Hb' & H2)]; try lia; [|by left].
  rewrite Hk in *. replace (i + (ze - i)) with ze in * by lia.
  intros w [[? ?]|[? ?]]; [by apply H1|].
  assert (E : scan_run (Z.to_nat (ze - zs) - Z.to_nat (ze - i)) b s zs ze n zs 0 = None).
  { destruct (Z.to_nat (ze - zs) - Z.to_nat (ze - i))%nat as [|f] eqn:Ef; [done|].
    rewrite <- H2. cbn [scan_run]. rewrite (proj2 (Z.leb_gt ze zs)) by lia.
    by rewrite Z.leb_refl. }
  apply (scan_seg (Z.to_nat (i - zs))) in E as [H3 _]; try lia; [|by left].
  apply H3; [done|]. lia.
Qed.

(** ** Invariant *)

(** Zones in ascending order inside the device, a bitmap that covers it. *)
Record layout (s : superblock) : Prop := {
  lay_meta : 0 < metadata_zone_start s /\ 0 <= metadata_zone_blocks s;
  lay_raw : metadata_zone_start s + metadata_zone_blocks s <= raw_zone_start s /\
    0 <= raw_zone_blocks s;
  lay_shadow : raw_zone_start s + raw_zone_blocks s <= shadow_zone_start s /\
    raw_zone_start s < shadow_zone_start s /\ 0 <= shadow_zone_blocks s;
  lay_end : shadow_zone_start s + shadow_zone_blocks s = total_blocks s;
  lay_size : total_blocks s < 2 ^ 60
}.

(** The cached counters agree with the bitmap (single-device volume). *)
Record alloc_inv (v : avol) : Prop := {
  ai_layout : layout (sb v);
  ai_ndev : a_ndev v <> 2;
  ai_bitmap : total_blocks (sb v) <= 8 * zlen (bitmap v);
  ai_free : free_blocks v = vol_count_free v;
  ai_raw : z_free (raw_z v) =
    count_free (bitmap v) (raw_zone_start (sb v)) (raw_zone_blocks (sb v));
  ai_shadow : z_free (shadow_z v) =
    count_free (bitmap v) (shadow_zone_start (sb v)) (shadow_zone_blocks (sb v))
}.

(** The two zones the allocator serves. *)
Inductive data_zone (s : superblock) : zone_id -> Z -> Z -> Prop :=
  | dz_raw : data_zone s ZRaw (raw_zone_start s) (raw_zone_blocks s)
  | dz_shadow : data_zone s ZShadow (shadow_zone_start s) (shadow_zone_blocks s).

Lemma data_zone_of v z zs zl :
  alloc_inv v -> data_zone (sb v) z zs zl -> zone_of v zs = z.
Proof.
  intros Hi Hd. pose proof (lay_shadow _ (ai_layout v Hi)). pose proof (ai_ndev v Hi).
  unfold zone_of. destruct Hd.
  - rewrite (proj2 (Z.eqb_neq _ _)) by lia.
    by rewrite (proj2 (Z.eqb_neq (a_ndev v) 2)).
  - by rewrite Z.eqb_refl.
Qed.

Lemma data_zone_in s z zs zl :
  layout s -> data_zone s z zs zl -> 0 < zs /\ 0 <= zl /\ zs + zl <= total_blocks s.
Proof. intros [? ? ? ? ?] Hd. destruct Hd; lia. Qed.

(** The fields the allocator's answers depend on, apart from the bitmap and
    the counters. *)
Definition acfg (v : avol) :=
  (sb v, a_ndev v, arena_start v, arena_blocks v, a_dev0_blocks v,
   (retain_release v, spn_armed v, spn_nopin v, spn_bitmap v, bitmap_blocks v)).
Definition acore (v : avol) :=
  (acfg v, bitmap v, raw_z v, shadow_z v, arena_z v, free_blocks v).

Lemma bm_dirty_core i v : acore (vol_bm_dirty i v) = acore v.
Proof.
  unfold vol_bm_dirty. destruct (_ <? _); [done|].
  destruct (_ <? bm_lo v); destruct (_ <? _); done.
Qed.

Lemma seal_mark_core p n v : acore (seal_dirty_mark p n v) = acore v.
Proof.
  unfold seal_dirty_mark. destruct (seal_dirty v); [|done].
  destruct (n =? 0); [done|]. destruct (_ || _); [done|]. by destruct (p <? _).
Qed.

Lemma acore_fields v v' : acore v' = acore v ->
  acfg v' = acfg v /\ sb v' = sb v /\ a_ndev v' = a_ndev v /\ bitmap v' = bitmap v /\
  raw_z v' = raw_z v /\ shadow_z v' = shadow_z v /\ arena_z v' = arena_z v /\
  free_blocks v' = free_blocks v.
Proof.
  unfold acore. intros E. assert (Ec : acfg v' = acfg v) by congruence.
  assert (Es : sb v' = sb v /\ a_ndev v' = a_ndev v) by (unfold acfg in Ec; by simplify_eq).
  split; [done|]. destruct Es. split_and!; congruence.
Qed.

Lemma acfg_fields v v' : acfg v' = acfg v -> sb v' = sb v /\ a_ndev v' = a_ndev v.
Proof. unfold acfg. intros. by simplify_eq. Qed.
Lemma acfg_blocks v v' : acfg v' = acfg v ->
  bitmap_blocks v' = bitmap_blocks v /\ retain_release v' = retain_release v.
Proof. unfold acfg. intros. by simplify_eq. Qed.

Lemma mark_run_core zs n ty start last v :
  last - start + 1 = n ->
  acore (mark_run zs n ty start last v) =
  acore (set_bitmap (set_run (bitmap v) start n) v).
Proof.
  intros <-. unfold mark_run.
  assert (E : forall zs n v, acore (if zs =? shadow_zone_start (sb v)
            then seal_dirty_mark start n v else v) = acore v).
  { intros. destruct (_ =? _); [apply seal_mark_core|done]. }
  rewrite E, !bm_dirty_core. destruct ty; [done|]. by destruct (meta_type_bitmap v) eqn:Em; simpl; rewrite Em.
Qed.

Lemma take_run_facts z zs ze n ty start last v :
  last - start + 1 = n ->
  let v' := take_run z zs ze n ty start last v in
  acfg v' = acfg v /\ bitmap v' = set_run (bitmap v) start n /\
  free_blocks v' = u64 (free_blocks v - n) /\
  z_free (get_zone z v') = u64 (z_free (get_zone z v) - n) /\
  (forall z', z' <> z -> get_zone z' v' = get_zone z' v).
Proof.
  intros Hn. unfold take_run. apply mark_run_core with (zs := zs) (ty := ty) (v := v) in Hn.
  apply acore_fields in Hn as (Ec & _ & _ & Eb & Er & Es & Ea & Ef).
  generalize dependent (mark_run zs n ty start last v). intros v4 Ec Eb Er Es Ea Ef.
  simpl in *. destruct ty, z; simpl in *;
    (split_and!; [exact Ec|exact Eb|by rewrite Ef|by rewrite ?Er, ?Es, ?Ea|]);
    intros [] Hne; done.
Qed.

Lemma layout_flags s f : layout s -> layout (set_vol_flags f s).
Proof. by intros [? ? ? ? ?]; constructor. Qed.

(** Only flags and hints differ. *)
Definition aquiet (v v' : avol) : Prop :=
  (exists f, sb v' = set_vol_flags f (sb v)) /\ a_ndev v' = a_ndev v /\
  bitmap v' = bitmap v /\ free_blocks v' = free_blocks v /\
  z_free (raw_z v') = z_free (raw_z v) /\ z_free (shadow_z v') = z_free (shadow_z v) /\
  bitmap_blocks v' = bitmap_blocks v /\ bm_lo v' = bm_lo v.

Lemma sb_same_flags v : sb v = set_vol_flags (vol_flags (sb v)) (sb v).
Proof. by destruct v as [[]]. Qed.

Lemma aquiet_refl v : aquiet v v.
Proof. split_and!; try done. eexists. apply sb_same_flags. Qed.

Lemma alloc_inv_quiet v v' : aquiet v v' -> alloc_inv v -> alloc_inv v'.
Proof.
  intros ((f & Es) & En & Eb & Ef & Er & Eh & _) [Hl Hn Hb Hf Hr Hs].
  constructor; rewrite ?Es, ?En, ?Eb, ?Ef, ?Er, ?Eh; try done.
  - by apply layout_flags.
  - rewrite Hf. unfold vol_count_free. by rewrite Eb, Es.
Qed.

Lemma space_guard_run ur v r v' :
  space_guard ur v = (r, v') ->
  (r = Some tt /\ v' = v /\
   (if ur then 0 else reserved_blocks (sb v)) + hard_min_blocks (sb v) < free_blocks v) \/
  (r = None /\ aquiet v v' /\
   free_blocks v <= (if ur then 0 else reserved_blocks (sb v)) + hard_min_blocks (sb v)).
Proof.
  unfold space_guard. cbn [mbind' mget]. destruct (_ <=? _) eqn:E; zbool.
  - destruct (_ && _); unfold mbind', mmod, mret, mfail; intros [= <- <-]; right;
      split_and!; try done; try apply aquiet_refl.
    split_and!; try done. by eexists.
  - intros [= <- <-]. left. split_and!; done || lia.
Qed.

Definition scan_from (v : avol) (zs zl : Z) : Z :=
  let cur := z_cursor (get_zone (zone_of v zs) v) in
  if (cur <? zs) || (zs + zl <=? cur) then zs else cur.

Lemma scan_from_in v zs zl : 0 < zl -> zs <= scan_from v zs zl < zs + zl.
Proof.
  intros. unfold scan_from. destruct (_ || _) eqn:E; zbool; lia.
Qed.

(** The allocator's two outcomes. *)
Lemma alloc_blocks_run zs zl n ur ty v r v' :
  alloc_blocks zs zl n ur ty v = (r, v') ->
  (exists start last,
     scan_run (Z.to_nat zl) (bitmap v) (sb v) zs (zs + zl) n (scan_from v zs zl) 0
       = Some (start, last) /\
     n <= z_free (get_zone (zone_of v zs) v) /\
     r = Some start /\ v' = take_run (zone_of v zs) zs (zs + zl) n ty start last v) \/
  (r = None /\ aquiet v v').
Proof.
  unfold alloc_blocks. rewrite (mbind_eq _ _ _ v v) by done.
  assert (Hfail : forall b (k : M avol Z), mbind' (mguard b) (fun _ => k) v = (r, v') ->
            (b = true /\ k v = (r, v')) \/ (r = None /\ v' = v)).
  { intros [] k; [by left|]. intros [= <- <-]. by right. }
  intros H. apply Hfail in H as [[_ H]|[-> ->]]; [|right; split; [done|apply aquiet_refl]].
  apply Hfail in H as [[Hz H]|[-> ->]]; [|right; split; [done|apply aquiet_refl]].
  apply Hfail in H as [[_ H]|[-> ->]]; [|right; split; [done|apply aquiet_refl]].
  zbool. unfold mbind' at 1 in H. destruct (space_guard ur v) as [rg vg] eqn:Eg.
  apply space_guard_run in Eg as [(-> & -> & _)|(-> & Hq & _)];
    [|injection H as <- <-; by right].
  apply Hfail in H as [[_ H]|[-> ->]]; [|right; split; [done|apply aquiet_refl]].
  change (if _ || _ then zs else _) with (scan_from v zs zl) in H.
  destruct (scan_run _ _ _ _ _ _ _ _) as [[start last]|] eqn:Es.
  - left. exists start, last. unfold mbind', mmod, mret in H. simplify_eq.
    split_and!; done || lia.
  - right. unfold mbind', mmod, mfail in H. simplify_eq. split; [done|].
    destruct (_ || _); [|apply aquiet_refl].
    destruct (zone_of v zs); (split_and!; try done; exists (vol_flags (sb v)); exact (sb_same_flags v)).
Qed.


Lemma u64_id x : 0 <= x < 2 ^ 60 -> u64 x = x.
Proof. intros. apply u64_small. lia. Qed.

(** The zone an allocation does not use, and its extent. *)
Lemma alloc_inv_zones v :
  alloc_inv v -> forall z zs zl, data_zone (sb v) z zs zl ->
  z_free (get_zone z v) = count_free (bitmap v) zs zl.
Proof. intros [] z zs zl Hd. by destruct Hd. Qed.

Lemma alloc_inv_intro v :
  layout (sb v) -> a_ndev v <> 2 -> total_blocks (sb v) <= 8 * zlen (bitmap v) ->
  free_blocks v = vol_count_free v ->
  (forall z zs zl, data_zone (sb v) z zs zl ->
     z_free (get_zone z v) = count_free (bitmap v) zs zl) ->
  alloc_inv v.
Proof.
  intros Hl Hn Hb Hf Hz. constructor; try done.
  - apply (Hz ZRaw). constructor.
  - apply (Hz ZShadow). constructor.
Qed.

Lemma data_zones_disjoint s z zs zl z' zs' zl' :
  layout s -> data_zone s z zs zl -> data_zone s z' zs' zl' -> z' <> z ->
  zs' + zl' <= zs \/ zs + zl <= zs'.
Proof. intros [? ? ? ? ?] H H' Hne. destruct H, H'; try done; lia. Qed.

(** Taking a run of clear blocks keeps the counters exact. *)
Lemma take_run_inv z zs zl n ty start last v :
  alloc_inv v -> data_zone (sb v) z zs zl -> 0 < n ->
  zs <= start -> last < zs + zl -> last - start + 1 = n ->
  (forall j, start <= j <= last -> bit_get (bitmap v) j = false) ->
  alloc_inv (take_run z zs (zs + zl) n ty start last v).
Proof.
  intros Hi Hd Hn Hs Hla Hlen Hfree.
  destruct (take_run_facts z zs (zs + zl) n ty start last v Hlen)
    as (Ec & Eb & Ef & Ez & Eo).
  destruct (acfg_fields _ _ Ec) as [Es En].
  pose proof (ai_layout v Hi) as Hl. pose proof (lay_size _ Hl).
  destruct (data_zone_in _ _ _ _ Hl Hd) as (? & ? & ?).
  pose proof (ai_bitmap v Hi). set (v' := take_run _ _ _ _ _ _ _ v) in *.
  assert (Hc : forall s m, 0 <= s -> s <= start -> start + n <= s + m ->
            count_free (bitmap v') s m = count_free (bitmap v) s m - n).
  { intros. rewrite Eb. apply count_set_run; try lia. intros j Hj. apply Hfree. lia. }
  pose proof (count_bound (bitmap v') 0 (total_blocks (sb v)) ltac:(lia)).
  pose proof (count_bound (bitmap v) 0 (total_blocks (sb v)) ltac:(lia)).
  pose proof (count_bound (bitmap v') zs zl ltac:(lia)).
  pose proof (count_bound (bitmap v) zs zl ltac:(lia)).
  apply alloc_inv_intro; rewrite ?Es, ?En; try done; try apply Hi.
  - rewrite Eb, length_set_run. done.
  - rewrite Ef. unfold vol_count_free. rewrite Es, Hc, (ai_free v Hi) by lia.
    unfold vol_count_free. apply u64_id. rewrite <- Hc; lia.
  - intros z' zs' zl' Hd'. destruct (decide (zs' = zs)) as [E|Hne].
    + assert (z' = z /\ zl' = zl) as [-> ->].
      { pose proof (lay_shadow _ Hl). destruct Hd, Hd'; try done; lia. }
      subst zs'. rewrite Ez, (alloc_inv_zones v Hi _ _ _ Hd), Hc by lia.
      apply u64_id. rewrite <- Hc; lia.
    + assert (Hz : z' <> z) by (intros ->; destruct Hd; inversion Hd'; done).
      rewrite Eo by done. rewrite (alloc_inv_zones v Hi _ _ _ Hd').
      destruct (data_zone_in _ _ _ _ Hl Hd') as (? & ? & ?). symmetry.
      apply (count_run_out _ _ _ _ start n); [|lia|].
      * intros j Hj Hr. rewrite Eb, bit_get_set_run by lia. by rewrite Hr.
      * pose proof (data_zones_disjoint _ _ _ _ _ _ _ Hl Hd Hd' Hz). lia.
Qed.

(** ** Results *)

(** Allocation, with what it keeps. *)
Lemma alloc_blocks_spec z zs zl n ur ty v r v' :
  alloc_inv v -> data_zone (sb v) z zs zl -> 0 < n ->
  alloc_blocks zs zl n ur ty v = (r, v') ->
  alloc_inv v' /\ (exists f, sb v' = set_vol_flags f (sb v)) /\
  match r with
  | Some start =>
      zs <= start /\ start + n <= zs + zl /\
      (forall j, start <= j < start + n -> usable (bitmap v) (sb v) j) /\
      (forall j, 0 <= j -> bit_get (bitmap v') j =
                           in_run start n j || bit_get (bitmap v) j) /\
      free_blocks v' = free_blocks v - n
  | None => bitmap v' = bitmap v /\ free_blocks v' = free_blocks v
  end.
Proof.
  intros Hi Hd Hn H. pose proof (ai_layout v Hi) as Hl.
  destruct (data_zone_in _ _ _ _ Hl Hd) as (? & ? & ?).
  apply alloc_blocks_run in H as [(start & last & Es & Hz & -> & ->)|(-> & Hq)].
  2: { split; [by eapply alloc_inv_quiet|]. by destruct Hq as (? & _ & ? & ? & _). }
  rewrite (data_zone_of v z zs zl Hi Hd) in *.
  destruct (decide (zl = 0)) as [->|]; [done|].
  pose proof (scan_from_in v zs zl ltac:(lia)).
  apply scan_sound in Es as (Hs1 & Hs2 & Hs3 & Hu); try lia; [|by left].
  destruct (take_run_facts z zs (zs + zl) n ty start last v Hs3) as (Ec & Eb & Ef & _).
  pose proof (ai_bitmap v Hi).
  assert (Hi' : alloc_inv (take_run z zs (zs + zl) n ty start last v)).
  { apply take_run_inv; try done. intros j Hj. by apply Hu. }
  split; [done|]. split_and!; try lia.
  - injection Ec as -> _. eexists. apply sb_same_flags.
  - intros j Hj. apply Hu. lia.
  - intros j Hj. rewrite Eb. apply bit_get_set_run; lia.
  - rewrite Ef. pose proof (lay_size _ Hl). rewrite (ai_free v Hi). unfold vol_count_free.
    pose proof (count_bound (bitmap v) 0 (total_blocks (sb v)) ltac:(lia)).
    apply u64_id. pose proof (ai_free _ Hi') as E. rewrite Ef, (ai_free v Hi) in E.
    unfold vol_count_free in E.
    assert (n <= count_free (bitmap v) 0 (total_blocks (sb v))); [|lia].
    rewrite (count_three _ 0 _ start n) by lia.
    rewrite (count_clear _ start n) by (try lia; intros j Hj; apply Hu; lia).
    pose proof (count_bound (bitmap v) 0 (start - 0) ltac:(lia)).
    pose proof (count_bound (bitmap v) (start + n) (0 + total_blocks (sb v) - (start + n))
      ltac:(lia)). lia.
Qed.


(** Forty blocks: metadata 1-3, raw 4-19, shadow 20-39. *)
Definition demo_sb : superblock :=
  mkSb (zeros 16) 0 4096 40 1 3 4 16 20 20 0 2 VOLF_META 0 0 0 0.
Definition demo_avol : avol :=
  let v := mkAvol demo_sb (15 :: zeros 4) 1 None None (mkZone 0 0 0) (mkZone 0 0 0)
    (mkZone 0 0 0) 0 0 36 0 1 0 1 0 false false false None None 0 in
  alloc_state_reset v.

Lemma demo_inv : alloc_inv demo_avol.
Proof.
  constructor; try (vm_compute; reflexivity || discriminate).
  constructor; vm_compute; repeat split; discriminate.
Qed.


(** Allocation is complete up to the cursor.  When the volume is
    writable, the reserve and the zone counters admit the request and no
    failure hint blocks it, a zone that holds a usable run of [n] blocks
    entirely on one side of the allocation cursor satisfies the request; in
    particular one free block is always found. *)
Theorem alloc_blocks_complete z zs zl n (ur : bool) v w :
  alloc_inv v -> data_zone (sb v) z zs zl -> 0 < n ->
  flag_set (sb v) VOLF_READONLY = false ->
  z_fail_run (get_zone z v) = 0 \/ n < z_fail_run (get_zone z v) ->
  (if ur then 0 else reserved_blocks (sb v)) + hard_min_blocks (sb v) < free_blocks v ->
  free_window (bitmap v) (sb v) w n ->
  (scan_from v zs zl <= w /\ w + n <= zs + zl) \/
  (zs <= w /\ w + n <= scan_from v zs zl) ->
  exists start, fst (alloc_blocks zs zl n ur AllocMeta v) = Some start.
Proof.
  intros Hi Hd Hn Hro Hhint Hspace Hw Hside. pose proof (ai_layout v Hi) as Hl.
  destruct (data_zone_in _ _ _ _ Hl Hd) as (? & ? & ?).
  assert (Hzl : 0 < zl).
  { destruct (decide (0 < zl)); [done|]. unfold scan_from in Hside.
    destruct (_ || _) eqn:E in Hside; zbool; lia. }
  pose proof (scan_from_in v zs zl Hzl) as Hfrom.
  assert (Hroom : n <= z_free (get_zone z v)).
  { rewrite (alloc_inv_zones v Hi _ _ _ Hd).
    rewrite (count_three _ zs zl w n) by lia.
    rewrite (count_clear _ w n) by (try lia; intros j Hj; by apply Hw).
    pose proof (count_bound (bitmap v) zs (w - zs) ltac:(lia)).
    pose proof (count_bound (bitmap v) (w + n) (zs + zl - (w + n)) ltac:(lia)). lia. }
  unfold alloc_blocks. rewrite (mbind_eq _ _ _ v v) by done.
  rewrite (data_zone_of v z zs zl Hi Hd), Hro.
  rewrite (proj2 (Z.ltb_ge (z_free (get_zone z v)) n)) by lia.
  assert (Eh : negb (z_fail_run (get_zone z v) =? 0) &&
               (z_fail_run (get_zone z v) <=? n) = false).
  { destruct Hhint as [->|Hh]; [done|]. rewrite (proj2 (Z.leb_gt _ n)) by lia.
    apply andb_false_r. }
  rewrite Eh. do 3 rewrite (mbind_eq _ _ _ tt v) by done.
  assert (Eg : space_guard ur v = (Some tt, v)).
  { unfold space_guard. rewrite (mbind_eq _ _ _ v v) by done.
    by rewrite (proj2 (Z.leb_gt (free_blocks v) _)) by exact Hspace. }
  rewrite (mbind_eq _ _ _ _ _ Eg), (mbind_eq _ _ _ tt v) by done.
  assert (Ef : (if (z_cursor (get_zone z v) <? zs) || (zs + zl <=? z_cursor (get_zone z v))
                then zs else z_cursor (get_zone z v)) = scan_from v zs zl).
  { unfold scan_from. by rewrite (data_zone_of v z zs zl Hi Hd). }
  rewrite Ef. destruct (scan_run _ _ _ _ _ _ _ _) as [[start last]|] eqn:Es; [by eexists|].
  exfalso. replace zl with (zs + zl - zs) in Es at 1 by lia.
  refine (scan_complete (bitmap v) (sb v) zs (zs + zl) n _ _ Hfrom Hn Es w _ Hw); lia.
Qed.

Lemma alloc_blocks_complete_witness :
  exists start, fst (alloc_blocks 20 20 1 false AllocMeta demo_avol) = Some start.
Proof.
  apply (alloc_blocks_complete ZShadow 20 20 1 false demo_avol 25 demo_inv (dz_shadow demo_sb));
    try reflexivity.
  - left. reflexivity.
  - intros j Hj. replace j with 25 by lia. split; vm_compute; reflexivity.
  - left. vm_compute. split; discriminate.
Defined.

(** A free run that straddles the cursor is missed.  Blocks 4-11 of the
    raw zone are free and the rest of the zone is taken, but the cursor
    stands at block 8 (where an earlier free rewound it): the request for
    five blocks is answered ENOSPC, and the failure hint it leaves makes
    every later request of that size fail without a scan. *)
Theorem alloc_misses_straddling_run :
  exists v, alloc_inv v /\ free_window (bitmap v) (sb v) 4 8 /\
    fst (alloc_blocks 4 16 5 false AllocMeta v) = None /\
    z_fail_run (raw_z (snd (alloc_blocks 4 16 5 false AllocMeta v))) = 5.
Proof.
  pose (v0 := alloc_state_reset (set_free_blocks 28
    (set_bitmap [15; 240; 15; 0; 0] demo_avol))).
  exists (set_raw_z (mkZone 8 (z_free (raw_z v0)) 0) v0). split_and!.
  - constructor; try (vm_compute; reflexivity || discriminate).
    constructor; vm_compute; repeat split; discriminate.
  - intros j Hj.
    assert (Hc : forallb (fun j => negb (bit_get [15; 240; 15; 0; 0] j) &&
      negb (anchor_block_protected demo_sb j)) (seqZ 4 8) = true) by (vm_compute; reflexivity).
    rewrite forallb_forall in Hc. apply usable_bool, (Hc j), list_elem_of_In, elem_of_seqZ. lia.
  - vm_compute. reflexivity.
  - vm_compute. reflexivity.
Qed.

(** ** Freeing *)

Lemma unlatch_facts v :
  let v' := vol_readonly_unlatch v in
  (exists f, sb v' = set_vol_flags f (sb v)) /\ bitmap v' = bitmap v /\
  a_ndev v' = a_ndev v /\ free_blocks v' = free_blocks v /\
  (forall z, get_zone z v' = get_zone z v) /\ retain_release v' = retain_release v /\
  spn_bitmap v' = spn_bitmap v.
Proof.
  unfold vol_readonly_unlatch. destruct (_ && _); simpl.
  - split_and!; try done. by eexists.
  - split_and!; try done. eexists. apply sb_same_flags.
Qed.

(** The zone a freed block is credited to, on a single-device volume. *)
Lemma credit_zone_facts z zs zl p n v :
  layout (sb v) -> a_ndev v <> 2 -> data_zone (sb v) z zs zl -> zs <= p < zs + zl ->
  let v' := credit_zone p n v in
  sb v' = sb v /\ bitmap v' = bitmap v /\ a_ndev v' = a_ndev v /\
  free_blocks v' = free_blocks v /\
  z_free (get_zone z v') = u64 (z_free (get_zone z v) + n) /\
  (forall z', z' <> z -> get_zone z' v' = get_zone z' v) /\
  z_fail_run (get_zone z v') = 0.
Proof.
  intros Hl Hn Hd Hp v'. pose proof (lay_shadow _ Hl). unfold v', credit_zone.
  rewrite (proj2 (Z.eqb_neq (a_ndev v) 2)) by done. cbn [andb]. destruct Hd.
  - rewrite (proj2 (Z.leb_gt (shadow_zone_start _) p)) by lia.
    rewrite (proj2 (Z.leb_le (raw_zone_start _) p)) by lia.
    split_and!; try done. by intros [].
  - rewrite (proj2 (Z.leb_le (shadow_zone_start _) p)) by lia.
    split_and!; try done. by intros [].
Qed.

(** Before the counters are credited: only the bitmap has moved. *)
Definition freed_bits (p n : Z) (v : avol) : avol :=
  let end_ := Z.min (p + n) (total_blocks (sb v)) in
  let v := set_bitmap (clr_run (bitmap v) p (end_ - p)) v in
  let v := if p <? end_ then vol_bm_dirty (end_ - 1) (vol_bm_dirty p v) else v in
  seal_dirty_mark p (end_ - p) v.

Lemma vol_free_run_split p n v :
  vol_free_run p n v =
  vol_readonly_unlatch (credit_zone p n
    (set_free_blocks (u64 (free_blocks (freed_bits p n v) + n)) (freed_bits p n v))).
Proof. done. Qed.

Lemma freed_bits_core p n v :
  p + n <= total_blocks (sb v) ->
  acore (freed_bits p n v) = acore (set_bitmap (clr_run (bitmap v) p n) v).
Proof.
  intros Hp. unfold freed_bits. rewrite Z.min_l by done.
  replace (p + n - p) with n by lia. rewrite seal_mark_core.
  destruct (_ <? _); [by rewrite !bm_dirty_core|done].
Qed.

(** What freeing a run of one zone does, counters aside. *)
Lemma vol_free_run_facts z zs zl p n v :
  alloc_inv v -> data_zone (sb v) z zs zl -> 0 < n -> zs <= p -> p + n <= zs + zl ->
  let v' := vol_free_run p n v in
  (exists f, sb v' = set_vol_flags f (sb v)) /\ a_ndev v' = a_ndev v /\
  bitmap v' = clr_run (bitmap v) p n /\
  free_blocks v' = u64 (free_blocks v + n) /\
  z_free (get_zone z v') = u64 (z_free (get_zone z v) + n) /\
  (forall z', z' <> z -> get_zone z' v' = get_zone z' v).
Proof.
  intros Hi Hd Hn Hp Hpn v'. pose proof (ai_layout v Hi) as Hl.
  destruct (data_zone_in _ _ _ _ Hl Hd) as (? & ? & ?).
  unfold v'. rewrite vol_free_run_split.
  pose proof (freed_bits_core p n v ltac:(lia)) as Ec.
  apply acore_fields in Ec as (_ & Es & En & Eb & Er & Eh & Ea & Ef). simpl in *.
  generalize dependent (freed_bits p n v). intros v1 Es En Eb Er Eh Ea Ef.
  set (v2 := set_free_blocks _ v1).
  destruct (credit_zone_facts z zs zl p n v2) as (Es2 & Eb2 & En2 & Ef2 & Ez2 & Eo2 & _);
    try (simpl; rewrite ?Es; done || lia).
  { simpl. rewrite En. apply (ai_ndev v Hi). }
  destruct (unlatch_facts (credit_zone p n v2)) as ((f & Es3) & Eb3 & En3 & Ef3 & Ez3 & _).
  assert (Ezz : forall z', get_zone z' v2 = get_zone z' v) by (by intros []; simpl).
  split_and!.
  - exists f. by rewrite Es3, Es2, <- Es.
  - by rewrite En3, En2, <- En.
  - by rewrite Eb3, Eb2, <- Eb.
  - rewrite Ef3, Ef2. simpl. by rewrite Ef.
  - by rewrite Ez3, Ez2, Ezz.
  - intros z' Hne. by rewrite Ez3, Eo2, Ezz.
Qed.

Lemma credit_zone_cfg p n v :
  acfg (credit_zone p n v) = acfg v /\ bitmap (credit_zone p n v) = bitmap v.
Proof.
  unfold credit_zone. destruct (_ <=? p); [done|]. destruct (_ && _); [done|].
  destruct (_ && _); [done|]. by destruct (_ <=? p).
Qed.

(** The metadata counter and the pin state are not a free's business. *)
Lemma free_run_meta p n v :
  meta_free_blocks (vol_free_run p n v) = meta_free_blocks v /\
  retain_release (vol_free_run p n v) = retain_release v.
Proof.
  assert (Hd : forall i w, meta_free_blocks (vol_bm_dirty i w) = meta_free_blocks w /\
            retain_release (vol_bm_dirty i w) = retain_release w).
  { intros i w. unfold vol_bm_dirty. destruct (_ <? _); [done|].
    by destruct (_ <? bm_lo w); destruct (_ <? _). }
  assert (Hs : forall q m w, meta_free_blocks (seal_dirty_mark q m w) = meta_free_blocks w /\
            retain_release (seal_dirty_mark q m w) = retain_release w).
  { intros q m w. unfold seal_dirty_mark. destruct (seal_dirty w); [|done].
    destruct (m =? 0); [done|]. destruct (_ || _); [done|]. by destruct (q <? _). }
  assert (Hc : forall w, meta_free_blocks (credit_zone p n w) = meta_free_blocks w /\
            retain_release (credit_zone p n w) = retain_release w).
  { intros w. unfold credit_zone. destruct (_ <=? p); [done|]. destruct (_ && _); [done|].
    destruct (_ && _); [done|]. by destruct (_ <=? p). }
  assert (Hu : forall w, meta_free_blocks (vol_readonly_unlatch w) = meta_free_blocks w /\
            retain_release (vol_readonly_unlatch w) = retain_release w).
  { intros w. unfold vol_readonly_unlatch. by destruct (_ && _). }
  rewrite vol_free_run_split. rewrite (proj1 (Hu _)), (proj2 (Hu _)).
  rewrite (proj1 (Hc _)), (proj2 (Hc _)). cbn [meta_free_blocks retain_release set_free_blocks].
  unfold freed_bits. rewrite (proj1 (Hs _ _ _)), (proj2 (Hs _ _ _)).
  destruct (p <? _); [|done]. rewrite !(proj1 (Hd _ _)), !(proj2 (Hd _ _)). done.
Qed.

Lemma free_run_bitmap p n v :
  p + n <= total_blocks (sb v) -> bitmap (vol_free_run p n v) = clr_run (bitmap v) p n.
Proof.
  intros Hp. rewrite vol_free_run_split.
  destruct (acore_fields _ _ (freed_bits_core p n v Hp)) as (_ & _ & _ & Eb & _).
  set (v1 := freed_bits p n v) in *. clearbody v1.
  destruct (unlatch_facts (credit_zone p n (set_free_blocks (u64 (free_blocks v1 + n)) v1)))
    as (_ & -> & _). rewrite (proj2 (credit_zone_cfg p n _)). exact Eb.
Qed.

(** Freeing one block, on any volume. *)
Lemma free_one p v :
  0 <= p < total_blocks (sb v) ->
  let v' := vol_free_blocks p 1 v in
  (exists f, sb v' = set_vol_flags f (sb v)) /\ bitmap_blocks v' = bitmap_blocks v /\
  (bitmap v' = bitmap v \/ bitmap v' = bit_clr (bitmap v) p).
Proof.
  intros Hp v'.
  assert (Hrun : let w := vol_free_run p 1 v in
    (exists f, sb w = set_vol_flags f (sb v)) /\ bitmap_blocks w = bitmap_blocks v /\
    bitmap w = bit_clr (bitmap v) p).
  { cbv zeta. rewrite vol_free_run_split. pose proof (freed_bits_core p 1 v ltac:(lia)) as Ec.
    apply acore_fields in Ec as (Ec & Es & _ & Eb & _). simpl in *.
    generalize dependent (freed_bits p 1 v). intros v1 Ec Es Eb.
    set (v2 := set_free_blocks _ v1).
    assert (sb v2 = sb v1 /\ bitmap v2 = bitmap v1 /\ bitmap_blocks v2 = bitmap_blocks v1)
      as (Sv2 & Bv2 & Nv2) by done.
    clearbody v2. destruct (credit_zone_cfg p 1 v2) as [Ec2 Eb2].
    destruct (acfg_fields _ _ Ec2) as [Es2 _]. destruct (acfg_blocks _ _ Ec2) as [En2 _].
    destruct (acfg_blocks _ _ Ec) as [En _]. simpl in En. change (clr_run _ p 1) with (bit_clr (bitmap v) p) in Eb.
    destruct (unlatch_facts (credit_zone p 1 v2)) as ((f & Es3) & Eb3 & _).
    split_and!; [exists f; congruence| |congruence].
    transitivity (bitmap_blocks (credit_zone p 1 v2)); [|congruence].
    unfold vol_readonly_unlatch. by destruct (_ && _). }
  unfold v', vol_free_blocks. rewrite Z.min_l by lia. replace (p + 1 - p) with 1 by lia.
  destruct (negb (retain_release v) && _) eqn:E1.
  { split_and!; [exists (vol_flags (sb v)); exact (sb_same_flags v)|done|by left]. }
  destruct (retain_release v || _) eqn:E2.
  { destruct Hrun as (? & ? & ?). split_and!; auto. }
  exfalso. destruct (retain_release v), (spt0_block_pinned v p 1); done.
Qed.

(** Credits stay below the wrap of a 64-bit counter. *)
Lemma credit_exact b s m p n :
  0 <= s -> s <= p -> p + n <= s + m -> 0 <= n -> p + n <= 8 * zlen b -> m < 2 ^ 60 ->
  (forall j, p <= j < p + n -> bit_get b j = true) ->
  u64 (count_free b s m + n) = count_free (clr_run b p n) s m.
Proof.
  intros. rewrite count_clr_run by done. apply u64_id.
  pose proof (count_bound (clr_run b p n) s m ltac:(lia)) as Hb.
  rewrite count_clr_run in Hb by done.
  pose proof (count_bound b s m ltac:(lia)). lia.
Qed.

Lemma vol_free_run_inv z zs zl p n v :
  alloc_inv v -> data_zone (sb v) z zs zl -> 0 < n -> zs <= p -> p + n <= zs + zl ->
  (forall j, p <= j < p + n -> bit_get (bitmap v) j = true) ->
  alloc_inv (vol_free_run p n v) /\ free_blocks (vol_free_run p n v) = free_blocks v + n.
Proof.
  intros Hi Hd Hn Hp Hpn Hset. pose proof (ai_layout v Hi) as Hl.
  destruct (data_zone_in _ _ _ _ Hl Hd) as (? & ? & ?). pose proof (lay_size _ Hl).
  pose proof (ai_bitmap v Hi).
  destruct (vol_free_run_facts z zs zl p n v) as ((f & Es) & En & Eb & Ef & Ez & Eo); try done.
  set (v' := vol_free_run p n v) in *.
  assert (Hfree : free_blocks v' = count_free (bitmap v') 0 (total_blocks (sb v))).
  { rewrite Ef, (ai_free v Hi), Eb. unfold vol_count_free. apply credit_exact; done || lia. }
  split.
  - apply alloc_inv_intro; rewrite ?Es, ?En; try apply Hi.
    + by apply layout_flags.
    + rewrite Eb, length_clr_run. done.
    + rewrite Hfree. unfold vol_count_free. by rewrite Es.
    + intros z' zs' zl' Hd'.
      assert (Hd2 : data_zone (sb v) z' zs' zl') by (destruct Hd'; [exact (dz_raw (sb v))|exact (dz_shadow (sb v))]).
      clear Hd'. destruct (decide (zs' = zs)) as [E|Hne].
      * assert (z' = z /\ zl' = zl) as [-> ->].
        { pose proof (lay_shadow _ Hl). destruct Hd, Hd2; try done; lia. }
        subst zs'. rewrite Ez, (alloc_inv_zones v Hi _ _ _ Hd), Eb.
        apply credit_exact; done || lia.
      * assert (Hz : z' <> z) by (intros ->; destruct Hd; inversion Hd2; done).
        rewrite Eo by done. rewrite (alloc_inv_zones v Hi _ _ _ Hd2).
        destruct (data_zone_in _ _ _ _ Hl Hd2) as (? & ? & ?). symmetry.
        apply (count_run_out _ _ _ _ p n); [|lia|].
        -- intros j Hj Hr. rewrite Eb, bit_get_clr_run by lia. by rewrite Hr.
        -- pose proof (data_zones_disjoint _ _ _ _ _ _ _ Hl Hd Hd2 Hz). lia.
  - rewrite Hfree, Eb, count_clr_run by (done || lia). by rewrite (ai_free v Hi).
Qed.

(** A run given back, or pinned and kept: either way the books are right and
    the other bits are what they were. *)
Lemma vol_free_blocks_keeps z zs zl p n v :
  alloc_inv v -> data_zone (sb v) z zs zl -> 0 < n -> zs <= p -> p + n <= zs + zl ->
  (forall j, p <= j < p + n -> bit_get (bitmap v) j = true) ->
  let v' := vol_free_blocks p n v in
  alloc_inv v' /\ (exists f, sb v' = set_vol_flags f (sb v)) /\
  forall j, 0 <= j -> in_run p n j = false -> bit_get (bitmap v') j = bit_get (bitmap v) j.
Proof.
  intros Hi Hd Hn Hp Hpn Hset v'. pose proof (ai_layout v Hi) as Hl.
  destruct (data_zone_in _ _ _ _ Hl Hd) as (? & ? & ?). pose proof (ai_bitmap v Hi).
  unfold v', vol_free_blocks. rewrite Z.min_l by lia. replace (p + n - p) with n by lia.
  destruct (negb (retain_release v) && spt0_block_pinned v p n) eqn:E1.
  { split_and!; [done| |done]. eexists. apply sb_same_flags. }
  destruct (retain_release v || negb (spt0_block_pinned v p n)) eqn:E2.
  2: { apply orb_false_iff in E2 as [E2 E3]. apply negb_false_iff in E3. by rewrite E2, E3 in E1. }
  destruct (vol_free_run_inv z zs zl p n v) as [Hi' _]; try done.
  destruct (vol_free_run_facts z zs zl p n v) as (Hs & _ & Eb & _); try done.
  split_and!; [done|done|]. intros j Hj Hr. rewrite Eb, bit_get_clr_run by lia. by rewrite Hr.
Qed.

(** Freeing is exact.  Giving back a run of allocated, unpinned blocks of
    the raw or shadow zone clears exactly its bits and credits exactly its
    length, so all counters still agree with the bitmap; a run of which the
    armed save point pins any block is left allocated as a whole, the
    unpinned blocks included, although the comment in the code promises the
    pinned run is split. *)
Theorem vol_free_blocks_exact z zs zl p n v :
  alloc_inv v -> data_zone (sb v) z zs zl -> 0 < n -> zs <= p -> p + n <= zs + zl ->
  (forall j, p <= j < p + n -> bit_get (bitmap v) j = true) ->
  let v' := vol_free_blocks p n v in
  (retain_release v = true \/ spt0_block_pinned v p n = false ->
     alloc_inv v' /\ free_blocks v' = free_blocks v + n /\
     forall j, 0 <= j -> bit_get (bitmap v') j =
                         negb (in_run p n j) && bit_get (bitmap v) j) /\
  (retain_release v = false -> spt0_block_pinned v p n = true -> v' = v).
Proof.
  intros Hi Hd Hn Hp Hpn Hset v'. pose proof (ai_layout v Hi) as Hl.
  destruct (data_zone_in _ _ _ _ Hl Hd) as (? & ? & ?). pose proof (ai_bitmap v Hi).
  unfold v', vol_free_blocks. rewrite Z.min_l by lia.
  replace (p + n - p) with n by lia. split.
  - intros Hor. rewrite (proj2 (andb_false_iff _ _)) by (destruct Hor as [->| ->]; auto).
    rewrite (proj2 (orb_true_iff _ _)) by (destruct Hor as [->| ->]; auto).
    destruct (vol_free_run_inv z zs zl p n v) as [Hi' Hf]; try done.
    destruct (vol_free_run_facts z zs zl p n v) as (_ & _ & Eb & _); try done.
    split_and!; try done. intros j Hj. rewrite Eb. apply bit_get_clr_run; lia.
  - intros -> ->. done.
Qed.

Lemma vol_free_blocks_exact_witness :
  let v1 := snd (alloc_blocks 4 16 5 false AllocData demo_avol) in
  alloc_inv (vol_free_blocks 4 5 v1) /\
  free_blocks (vol_free_blocks 4 5 v1) = free_blocks demo_avol.
Proof.
  intros v1.
  assert (Hi : alloc_inv v1).
  { constructor; try (vm_compute; reflexivity || discriminate).
    constructor; vm_compute; repeat split; discriminate. }
  destruct (vol_free_blocks_exact ZRaw 4 16 4 5 v1 Hi) as [H _]; try lia.
  - exact (dz_raw (sb v1)).
  - intros j Hj.
    assert (Hc : forallb (bit_get (bitmap v1)) (seqZ 4 5) = true) by (vm_compute; reflexivity).
    rewrite forallb_forall in Hc. apply (Hc j), list_elem_of_In, elem_of_seqZ. lia.
  - destruct H as (H1 & H2 & _); [right; vm_compute; reflexivity|].
    split; [exact H1|]. rewrite H2. vm_compute. reflexivity.
Defined.

(** ** The space latch *)

Lemma land_pow2 x k : 0 <= k -> Z.land x (2 ^ k) = if Z.testbit x k then 2 ^ k else 0.
Proof.
  intros Hk. apply Z.bits_inj'. intros m Hm. rewrite Z.land_spec.
  destruct (decide (m = k)) as [->|Hne].
  - rewrite Z.pow2_bits_true by done. rewrite andb_true_r.
    destruct (Z.testbit x k); [by rewrite Z.pow2_bits_true|by rewrite Z.bits_0].
  - rewrite Z.pow2_bits_false by done. rewrite andb_false_r.
    destruct (Z.testbit x k); [by rewrite Z.pow2_bits_false|by rewrite Z.bits_0].
Qed.

Lemma flag_bit s k : 0 <= k -> flag_set s (2 ^ k) = Z.testbit (vol_flags s) k.
Proof.
  intros Hk. unfold flag_set. rewrite land_pow2 by done.
  destruct (Z.testbit _ k); [|done].
  by rewrite (proj2 (Z.eqb_neq (2 ^ k) 0)) by lia.
Qed.

Lemma both_bits x : (Z.land x 5 =? 5) = Z.testbit x 0 && Z.testbit x 2.
Proof.
  change 5 with (Z.lor (2 ^ 0) (2 ^ 2)) at 1. rewrite Z.land_lor_distr_r, !land_pow2 by lia.
  by destruct (Z.testbit x 0), (Z.testbit x 2).
Qed.

Lemma ldiff_bit x m k : 0 <= k -> Z.testbit (Z.ldiff x m) k = Z.testbit x k && negb (Z.testbit m k).
Proof. intros. by rewrite Z.ldiff_spec. Qed.

Lemma space_guard_latches ur v :
  flag_set (sb v) VOLF_READONLY = false -> 0 <= reserved_blocks (sb v) ->
  free_blocks v <= hard_min_blocks (sb v) ->
  space_guard ur v =
  (None, set_sb (set_vol_flags (Z.lor (vol_flags (sb v)) 5) (sb v)) v).
Proof.
  intros Hro Hr Hf. unfold space_guard. rewrite (mbind_eq _ _ _ v v) by done.
  rewrite (proj2 (Z.leb_le (free_blocks v) _)) by (destruct ur; lia).
  by rewrite (proj2 (Z.leb_le (free_blocks v) (hard_min_blocks _))), Hro by done.
Qed.

(** The read-only latch.  While the volume is read-only no allocation
    changes anything; an allocation that finds the free count at the floor
    latches the volume read-only for lack of space; that latch is released
    only once the free count exceeds the floor plus a fiftieth of the volume,
    leaving the other flags alone, and a read-only hold set by the operator
    is never released by freeing. *)
Theorem space_latch zs zl n ur ty v :
  (flag_set (sb v) VOLF_READONLY = true -> alloc_blocks zs zl n ur ty v = (None, v)) /\
  (flag_set (sb v) VOLF_READONLY = false ->
   n <= z_free (get_zone (zone_of v zs) v) ->
   z_fail_run (get_zone (zone_of v zs) v) = 0 -> 0 <= reserved_blocks (sb v) ->
   free_blocks v <= hard_min_blocks (sb v) ->
   let v' := snd (alloc_blocks zs zl n ur ty v) in
   flag_set (sb v') VOLF_READONLY = true /\ flag_set (sb v') VOLF_RO_SPACE = true) /\
  (let watermark := hard_min_blocks (sb v) + total_blocks (sb v) / 50 in
   let v' := vol_readonly_unlatch v in
   (flag_set (sb v) VOLF_RO_SPACE = false \/ free_blocks v <= watermark -> v' = v) /\
   (flag_set (sb v) VOLF_READONLY = true -> flag_set (sb v) VOLF_RO_SPACE = true ->
    watermark < free_blocks v ->
    flag_set (sb v') VOLF_READONLY = false /\ flag_set (sb v') VOLF_RO_SPACE = false /\
    forall k, 0 <= k -> k <> 0 -> k <> 2 ->
      Z.testbit (vol_flags (sb v')) k = Z.testbit (vol_flags (sb v)) k)).
Proof.
  assert (E0 : forall s, flag_set s VOLF_READONLY = Z.testbit (vol_flags s) 0)
    by (intros s; apply (flag_bit s 0); lia).
  assert (E2 : forall s, flag_set s VOLF_RO_SPACE = Z.testbit (vol_flags s) 2)
    by (intros s; apply (flag_bit s 2); lia).
  assert (Eu : vol_readonly_unlatch v =
    if (Z.testbit (vol_flags (sb v)) 0 && Z.testbit (vol_flags (sb v)) 2) &&
       (hard_min_blocks (sb v) + total_blocks (sb v) / 50 <? free_blocks v)
    then set_sb (set_vol_flags (Z.ldiff (vol_flags (sb v)) 5) (sb v)) v else v)
    by (rewrite <- both_bits; done).
  split_and!.
  - intros Hro. unfold alloc_blocks. rewrite (mbind_eq _ _ _ v v) by done. by rewrite Hro.
  - intros Hro Hz Hh Hr Hf.
    assert (Ea : alloc_blocks zs zl n ur ty v =
      (None, set_sb (set_vol_flags (Z.lor (vol_flags (sb v)) 5) (sb v)) v)).
    { unfold alloc_blocks. rewrite (mbind_eq _ _ _ v v) by done.
      rewrite Hro, (proj2 (Z.ltb_ge _ n)), Hh by lia.
      do 3 rewrite (mbind_eq _ _ _ tt v) by done.
      unfold mbind' at 1. by rewrite (space_guard_latches ur v Hro Hr Hf). }
    cbv zeta. rewrite Ea, E0, E2. cbn [snd set_sb sb set_vol_flags vol_flags]. rewrite !Z.lor_spec.
    split; apply orb_true_r.
  - cbv zeta. rewrite !E0, !E2, Eu. split.
    + intros [->|Hle]; [by rewrite andb_false_r|].
      by rewrite (proj2 (Z.ltb_ge _ (free_blocks v))), andb_false_r by lia.
    + intros -> -> Hw. rewrite (proj2 (Z.ltb_lt _ (free_blocks v))) by lia.
      cbn [andb set_sb sb set_vol_flags vol_flags]. rewrite !ldiff_bit by lia.
      split_and!; [apply andb_false_r..|]. intros k Hk H0k H2k. rewrite ldiff_bit by done.
      change 5 with (Z.lor (2 ^ 0) (2 ^ 2)).
      rewrite Z.lor_spec, !Z.pow2_bits_false by lia. apply andb_true_r.
Qed.

(** Metadata taken from the shared pool drives [meta_free_blocks] below
    zero.  The counter starts as the number of free blocks of the metadata
    zone, which a fresh volume has none of, and a metadata allocation from
    the shadow zone subtracts from it: the 64-bit counter wraps, the very
    value the comment in [alloc_state_reset] says initialising it prevents. *)
Theorem meta_counter_wraps :
  meta_free_blocks demo_avol = 0 /\
  fst (alloc_blocks 20 20 1 false AllocMeta demo_avol) = Some 20 /\
  meta_free_blocks (snd (alloc_blocks 20 20 1 false AllocMeta demo_avol)) = 2 ^ 64 - 1.
Proof. vm_compute. done. Qed.

(** ** The rest of the layout *)

(** The dirty range of the bitmap starts inside it. *)
Definition lo_ok (a a' : avol) : Prop := 0 <= bm_lo a -> 0 <= bm_lo a'.

Lemma lo_dirty i a : 0 <= i -> lo_ok a (vol_bm_dirty i a).
Proof.
  intros Hi Ha. pose proof (Z.div_pos i 8 Hi ltac:(lia)). unfold vol_bm_dirty. destruct (_ <? _); [done|]. cbv zeta.
  destruct (_ <? bm_lo a); cbn; destruct (_ <? _); done.
Qed.

Lemma lo_seal p n a : bm_lo (seal_dirty_mark p n a) = bm_lo a.
Proof.
  unfold seal_dirty_mark. destruct (seal_dirty a); [|done]. destruct (_ =? 0); [done|]. destruct (_ || _); [done|].
  destruct (if _ <? _ then _ else _). done.
Qed.

Lemma lo_zone z x a : bm_lo (set_zone z x a) = bm_lo a.
Proof. by destruct z. Qed.

Lemma lo_take_run z zs ze n ty st la a : 0 <= st -> 0 <= la -> lo_ok a (take_run z zs ze n ty st la a).
Proof.
  intros Hs Hl Ha. unfold take_run, mark_run.
  match goal with |- context [vol_bm_dirty la (vol_bm_dirty st ?x)] => set (a1 := x) end.
  assert (0 <= bm_lo (vol_bm_dirty la (vol_bm_dirty st a1))).
  { apply lo_dirty; [done|]. apply lo_dirty; [done|]. unfold a1. cbv zeta. destruct ty; [done|]. by destruct (meta_type_bitmap _). }
  cbv zeta. destruct (zs =? _), ty; cbn; by rewrite lo_zone, ?lo_seal.
Qed.

Lemma lo_free_run p n a : 0 <= p -> lo_ok a (vol_free_run p n a).
Proof.
  intros Hp Ha. rewrite vol_free_run_split. assert (0 <= bm_lo (freed_bits p n a)).
  { unfold freed_bits. cbv zeta. rewrite lo_seal. destruct (Z.ltb_spec p (Z.min (p + n) (total_blocks (sb a)))); [|done].
    apply lo_dirty; [lia|]. by apply lo_dirty. }
  unfold vol_readonly_unlatch, credit_zone. cbv zeta. destruct (_ && _); cbn [bm_lo set_sb];
    repeat (case_match; cbn [bm_lo set_free_blocks]); rewrite ?lo_zone; done.
Qed.

Lemma lo_free_block p a : 0 <= p < total_blocks (sb a) -> lo_ok a (vol_free_blocks p 1 a).
Proof.
  intros Hp Ha. unfold vol_free_blocks. rewrite Z.min_l by lia. replace (p + 1 - p) with 1 by lia.
  destruct (negb (retain_release a) && _) eqn:E1; [done|].
  destruct (retain_release a || _) eqn:E2; [apply lo_free_run; [lia|done]|].
  destruct (retain_release a), (spt0_block_pinned a p 1); done.
Qed.

(** What an allocation leaves of the allocator's layout. *)
Lemma alloc_rest z zs zl n ur ty v r v' :
  alloc_inv v -> data_zone (sb v) z zs zl -> 0 < n -> alloc_blocks zs zl n ur ty v = (r, v') ->
  lo_ok v v' /\ length (bitmap v') = length (bitmap v) /\ bitmap_blocks v' = bitmap_blocks v.
Proof.
  intros Hi Hd Hn H. pose proof (ai_layout v Hi) as Hl. destruct (data_zone_in _ _ _ _ Hl Hd) as (? & ? & ?).
  apply alloc_blocks_run in H as [(start & last & Es & Hz & -> & ->)|(-> & Hq)].
  - rewrite (data_zone_of v z zs zl Hi Hd) in *. destruct (decide (zl = 0)) as [->|]; [done|].
    pose proof (scan_from_in v zs zl ltac:(lia)).
    apply scan_sound in Es as (Hs1 & Hs2 & Hs3 & _); try lia; [|by left].
    destruct (take_run_facts z zs (zs + zl) n ty start last v Hs3) as (Ec & Eb & _).
    split; [apply lo_take_run; lia|]. split; [by rewrite Eb, length_set_run|]. by injection Ec.
  - destruct Hq as (_ & _ & Eb & _ & _ & _ & En & El). split; [|by rewrite Eb]. intros ?. by rewrite El.
Qed.

End Alloc.
