(* ===== verification/Volume.v ===== *)
(** * The volume handle and its descriptors (invarifs.h, volume_internal.h)

    The part of [invfs_volume] that the metadata engine works on, over any
    storage that implements [Dev]; the on-disk codecs of the RT30 root
    descriptor and of the ANC0 tail anchor; the small state changes every
    component shares. *)

From S2P Require Import Prelude Crc32c Dev Alloc.

Module Volume.
Import Crc32c Alloc.

(** ** RT30 root descriptor *)

(** Source: core/invarifs.h:604-612 [invfs_rt] *)
Record invfs_rt := mkRt {
  rt_magic : bytes;
  rt_version : Z;
  rt_page_size : Z;
  root_slot0 : Z; root_slot1 : Z;
  delta_pba : Z;
  rt_seq : Z;
  rt_crc32c : Z
}.

Definition INVFS_RT_OFF : Z := 0x9D0.
Definition INVFS_RT_VERSION : Z := 1.
Definition RT_LEN : Z := 48.
Definition RT_CRC_OFF : Z := 44.        (* offsetof(invfs_rt, crc32c) *)
Definition RT_MAGIC : bytes := [82; 84; 51; 48].

(** The packed image, without and with its checksum field. *)
Definition rt_body (r : invfs_rt) : bytes :=
  rt_magic r ++ le_bytes 4 (rt_version r) ++ le_bytes 4 (rt_page_size r) ++
  le_bytes 8 (root_slot0 r) ++ le_bytes 8 (root_slot1 r) ++
  le_bytes 8 (delta_pba r) ++ le_bytes 8 (rt_seq r).
Definition rt_bytes (r : invfs_rt) : bytes :=
  rt_body r ++ le_bytes 4 (rt_crc32c r).

Definition field (bs : bytes) (off n : Z) : Z := le_val (slice bs off n).

Definition rt_parse (bs : bytes) : invfs_rt :=
  mkRt (slice bs 0 4) (field bs 4 4) (field bs 8 4) (field bs 12 8) (field bs 20 8)
    (field bs 28 8) (field bs 36 8) (field bs 44 4).

Definition rt_zero : invfs_rt := mkRt (zeros 4) 0 0 0 0 0 0 0.

(** [invfs_crc32c(&rt, offsetof(invfs_rt, crc32c))] *)
Definition rt_crc (r : invfs_rt) : Z := invfs_crc32c (rt_body r).

(** A named, current, checksummed descriptor.
    Source: core/vol_metabuf.c:395-397 [mbuf_rt30_load] *)
Definition rt_valid (r : invfs_rt) : bool :=
  bool_decide (rt_magic r = RT_MAGIC) && (rt_version r =? INVFS_RT_VERSION) &&
  (rt_crc r =? rt_crc32c r).

(** ** ANC0 tail anchor *)

(** Source: core/invarifs.h:798-809 [invfs_anc0] *)
Record invfs_anc0 := mkAnc {
  anc_magic : bytes;
  anc_version : Z;
  anc_total_blocks : Z;
  anc_block_size : Z;
  anc_format_version : Z;
  anc_uuid : bytes;
  anc_rt : invfs_rt;
  anc_spt0 : bytes;                      (* the SPT0 descriptor, 32 bytes *)
  anc_crc32c : Z
}.

Definition ANC_LEN : Z := 124.
Definition ANC_MAGIC : bytes := [65; 78; 67; 48].
Definition INVFS_ANC0_VERSION : Z := 1.

Definition anc_body (a : invfs_anc0) : bytes :=
  anc_magic a ++ le_bytes 4 (anc_version a) ++ le_bytes 8 (anc_total_blocks a) ++
  le_bytes 4 (anc_block_size a) ++ le_bytes 4 (anc_format_version a) ++
  anc_uuid a ++ rt_bytes (anc_rt a) ++ anc_spt0 a.
Definition anc_bytes (a : invfs_anc0) : bytes :=
  anc_body a ++ le_bytes 4 (anc_crc32c a).

Definition anc_parse (bs : bytes) : invfs_anc0 :=
  mkAnc (slice bs 0 4) (field bs 4 4) (field bs 8 8) (field bs 16 4) (field bs 20 4)
    (slice bs 24 16) (rt_parse (slice bs 40 48)) (slice bs 88 32) (field bs 120 4).

Definition anc_zero : invfs_anc0 :=
  mkAnc (zeros 4) 0 0 0 0 (zeros 16) rt_zero (zeros 32) 0.

(** Source: core/vol_anchor.h:34-38 [INVFS_ANCHOR_OK] *)
Inductive anchor_st :=
  | AnchorOk | AnchorAbsent | AnchorRefusedGeometry | AnchorRefusedDamage | AnchorIo.

(** ** Block pointers *)

(** Source: core/invarifs.h:835-840 [invfs_blkptr] *)
Record invfs_blkptr := mkPtr {
  bp_pba : Z;
  bp_checksum : Z;
  bp_gen : Z;
  bp_flags : Z
}.

(** The null pointer ([pba == 0]). *)
Definition null_ptr : invfs_blkptr := mkPtr 0 0 0 0.

(** ** The handle *)

(** The orphan collector's work state: candidate pages, one membership bit
    per block, the seed pass and statistics.
    Source: core/volume_internal.h:822-841 [invfs_orphan] *)
Record invfs_orphan := mkOrph {
  o_pba : list Z;
  o_inlist : option bytes;
  o_seed_cursor : Z;
  o_seed_done : bool;
  o_budget : Z;
  o_calls : Z; o_cand_reads : Z; o_seed_reads : Z; o_mark_reads : Z;
  o_freed : Z; o_cands : Z; o_peak : Z;
  o_settled : bool
}.

Definition set_o_pba x o := mkOrph x (o_inlist o) (o_seed_cursor o)
  (o_seed_done o) (o_budget o) (o_calls o) (o_cand_reads o) (o_seed_reads o)
  (o_mark_reads o) (o_freed o) (o_cands o) (o_peak o) (o_settled o).
Definition set_o_inlist x o := mkOrph (o_pba o) x (o_seed_cursor o)
  (o_seed_done o) (o_budget o) (o_calls o) (o_cand_reads o) (o_seed_reads o)
  (o_mark_reads o) (o_freed o) (o_cands o) (o_peak o) (o_settled o).
Definition set_o_seed_cursor x o := mkOrph (o_pba o) (o_inlist o) x
  (o_seed_done o) (o_budget o) (o_calls o) (o_cand_reads o) (o_seed_reads o)
  (o_mark_reads o) (o_freed o) (o_cands o) (o_peak o) (o_settled o).
Definition set_o_seed_done x o := mkOrph (o_pba o) (o_inlist o)
  (o_seed_cursor o) x (o_budget o) (o_calls o) (o_cand_reads o)
  (o_seed_reads o) (o_mark_reads o) (o_freed o) (o_cands o) (o_peak o)
  (o_settled o).
Definition set_o_budget x o := mkOrph (o_pba o) (o_inlist o) (o_seed_cursor
  o) (o_seed_done o) x (o_calls o) (o_cand_reads o) (o_seed_reads o)
  (o_mark_reads o) (o_freed o) (o_cands o) (o_peak o) (o_settled o).
Definition set_o_calls x o := mkOrph (o_pba o) (o_inlist o) (o_seed_cursor
  o) (o_seed_done o) (o_budget o) x (o_cand_reads o) (o_seed_reads o)
  (o_mark_reads o) (o_freed o) (o_cands o) (o_peak o) (o_settled o).
Definition set_o_cand_reads x o := mkOrph (o_pba o) (o_inlist o)
  (o_seed_cursor o) (o_seed_done o) (o_budget o) (o_calls o) x (o_seed_reads
  o) (o_mark_reads o) (o_freed o) (o_cands o) (o_peak o) (o_settled o).
Definition set_o_seed_reads x o := mkOrph (o_pba o) (o_inlist o)
  (o_seed_cursor o) (o_seed_done o) (o_budget o) (o_calls o) (o_cand_reads
  o) x (o_mark_reads o) (o_freed o) (o_cands o) (o_peak o) (o_settled o).
Definition set_o_mark_reads x o := mkOrph (o_pba o) (o_inlist o)
  (o_seed_cursor o) (o_seed_done o) (o_budget o) (o_calls o) (o_cand_reads
  o) (o_seed_reads o) x (o_freed o) (o_cands o) (o_peak o) (o_settled o).
Definition set_o_freed x o := mkOrph (o_pba o) (o_inlist o) (o_seed_cursor
  o) (o_seed_done o) (o_budget o) (o_calls o) (o_cand_reads o) (o_seed_reads
  o) (o_mark_reads o) x (o_cands o) (o_peak o) (o_settled o).
Definition set_o_cands x o := mkOrph (o_pba o) (o_inlist o) (o_seed_cursor
  o) (o_seed_done o) (o_budget o) (o_calls o) (o_cand_reads o) (o_seed_reads
  o) (o_mark_reads o) (o_freed o) x (o_peak o) (o_settled o).
Definition set_o_peak x o := mkOrph (o_pba o) (o_inlist o) (o_seed_cursor o)
  (o_seed_done o) (o_budget o) (o_calls o) (o_cand_reads o) (o_seed_reads o)
  (o_mark_reads o) (o_freed o) (o_cands o) x (o_settled o).
Definition set_o_settled x o := mkOrph (o_pba o) (o_inlist o) (o_seed_cursor
  o) (o_seed_done o) (o_budget o) (o_calls o) (o_cand_reads o) (o_seed_reads
  o) (o_mark_reads o) (o_freed o) (o_cands o) (o_peak o) x.

Definition orph_init : invfs_orphan := mkOrph [] None 0 false 0 0 0 0 0 0 0 0 false.

(** [D] is the storage, [X] the state of the delta log. *)
Record vol (D X : Type) := mkVol {
  v_dev : D;
  v_a : avol;
  mb_boot_cursor : Z; mb_boot_end : Z;
  mb_alloc_cursor : Z; mb_alloc_fail_run : Z;
  rt_present : bool;
  rt : invfs_rt;
  anchor_state : anchor_st;
  anchor : invfs_anc0;
  anchor_adopted : bool;
  anchor_refresh_failed : bool;
  spt0 : bytes;
  orph : invfs_orphan;
  mbuf_ready : bool;
  pinned_root : invfs_blkptr;            (* of the live save point *)
  fold_pre_root : invfs_blkptr;
  v_x : X
}.
#[global] Arguments mkVol {D X}.
#[global] Arguments v_dev {D X} v.
#[global] Arguments v_a {D X} v.
#[global] Arguments mb_boot_cursor {D X} v.
#[global] Arguments mb_boot_end {D X} v.
#[global] Arguments mb_alloc_cursor {D X} v.
#[global] Arguments mb_alloc_fail_run {D X} v.
#[global] Arguments rt_present {D X} v.
#[global] Arguments rt {D X} v.
#[global] Arguments anchor_state {D X} v.
#[global] Arguments anchor {D X} v.
#[global] Arguments anchor_adopted {D X} v.
#[global] Arguments anchor_refresh_failed {D X} v.
#[global] Arguments spt0 {D X} v.
#[global] Arguments orph {D X} v.
#[global] Arguments mbuf_ready {D X} v.
#[global] Arguments pinned_root {D X} v.
#[global] Arguments fold_pre_root {D X} v.
#[global] Arguments v_x {D X} v.

Definition set_v_dev {D X} x (v : vol D X) : vol D X := mkVol x (v_a v) (mb_boot_cursor v)
  (mb_boot_end v) (mb_alloc_cursor v) (mb_alloc_fail_run v) (rt_present v) (rt v)
  (anchor_state v) (anchor v) (anchor_adopted v) (anchor_refresh_failed v) (spt0 v) (orph v)
  (mbuf_ready v) (pinned_root v) (fold_pre_root v) (v_x v).
Definition set_v_a {D X} x (v : vol D X) : vol D X := mkVol (v_dev v) x (mb_boot_cursor v)
  (mb_boot_end v) (mb_alloc_cursor v) (mb_alloc_fail_run v) (rt_present v) (rt v)
  (anchor_state v) (anchor v) (anchor_adopted v) (anchor_refresh_failed v) (spt0 v) (orph v)
  (mbuf_ready v) (pinned_root v) (fold_pre_root v) (v_x v).
Definition set_mb_boot_cursor {D X} x (v : vol D X) : vol D X := mkVol (v_dev v) (v_a v) x
  (mb_boot_end v) (mb_alloc_cursor v) (mb_alloc_fail_run v) (rt_present v) (rt v)
  (anchor_state v) (anchor v) (anchor_adopted v) (anchor_refresh_failed v) (spt0 v) (orph v)
  (mbuf_ready v) (pinned_root v) (fold_pre_root v) (v_x v).
Definition set_mb_boot_end {D X} x (v : vol D X) : vol D X := mkVol (v_dev v) (v_a v)
  (mb_boot_cursor v) x (mb_alloc_cursor v) (mb_alloc_fail_run v) (rt_present v) (rt v)
  (anchor_state v) (anchor v) (anchor_adopted v) (anchor_refresh_failed v) (spt0 v) (orph v)
  (mbuf_ready v) (pinned_root v) (fold_pre_root v) (v_x v).
Definition set_mb_alloc_cursor {D X} x (v : vol D X) : vol D X := mkVol (v_dev v) (v_a v)
  (mb_boot_cursor v) (mb_boot_end v) x (mb_alloc_fail_run v) (rt_present v) (rt v)
  (anchor_state v) (anchor v) (anchor_adopted v) (anchor_refresh_failed v) (spt0 v) (orph v)
  (mbuf_ready v) (pinned_root v) (fold_pre_root v) (v_x v).
Definition set_mb_alloc_fail_run {D X} x (v : vol D X) : vol D X := mkVol (v_dev v) (v_a v)
  (mb_boot_cursor v) (mb_boot_end v) (mb_alloc_cursor v) x (rt_present v) (rt v)
  (anchor_state v) (anchor v) (anchor_adopted v) (anchor_refresh_failed v) (spt0 v) (orph v)
  (mbuf_ready v) (pinned_root v) (fold_pre_root v) (v_x v).
Definition set_rt_present {D X} x (v : vol D X) : vol D X := mkVol (v_dev v) (v_a v)
  (mb_boot_cursor v) (mb_boot_end v) (mb_alloc_cursor v) (mb_alloc_fail_run v) x (rt v)
  (anchor_state v) (anchor v) (anchor_adopted v) (anchor_refresh_failed v) (spt0 v) (orph v)
  (mbuf_ready v) (pinned_root v) (fold_pre_root v) (v_x v).
Definition set_rt {D X} x (v : vol D X) : vol D X := mkVol (v_dev v) (v_a v) (mb_boot_cursor v)
  (mb_boot_end v) (mb_alloc_cursor v) (mb_alloc_fail_run v) (rt_present v) x (anchor_state v)
  (anchor v) (anchor_adopted v) (anchor_refresh_failed v) (spt0 v) (orph v) (mbuf_ready v)
  (pinned_root v) (fold_pre_root v) (v_x v).
Definition set_anchor_state {D X} x (v : vol D X) : vol D X := mkVol (v_dev v) (v_a v)
  (mb_boot_cursor v) (mb_boot_end v) (mb_alloc_cursor v) (mb_alloc_fail_run v) (rt_present v)
  (rt v) x (anchor v) (anchor_adopted v) (anchor_refresh_failed v) (spt0 v) (orph v)
  (mbuf_ready v) (pinned_root v) (fold_pre_root v) (v_x v).
Definition set_anchor {D X} x (v : vol D X) : vol D X := mkVol (v_dev v) (v_a v)
  (mb_boot_cursor v) (mb_boot_end v) (mb_alloc_cursor v) (mb_alloc_fail_run v) (rt_present v)
  (rt v) (anchor_state v) x (anchor_adopted v) (anchor_refresh_failed v) (spt0 v) (orph v)
  (mbuf_ready v) (pinned_root v) (fold_pre_root v) (v_x v).
Definition set_anchor_adopted {D X} x (v : vol D X) : vol D X := mkVol (v_dev v) (v_a v)
  (mb_boot_cursor v) (mb_boot_end v) (mb_alloc_cursor v) (mb_alloc_fail_run v) (rt_present v)
  (rt v) (anchor_state v) (anchor v) x (anchor_refresh_failed v) (spt0 v) (orph v)
  (mbuf_ready v) (pinned_root v) (fold_pre_root v) (v_x v).
Definition set_anchor_refresh_failed {D X} x (v : vol D X) : vol D X := mkVol (v_dev v) (v_a v)
  (mb_boot_cursor v) (mb_boot_end v) (mb_alloc_cursor v) (mb_alloc_fail_run v) (rt_present v)
  (rt v) (anchor_state v) (anchor v) (anchor_adopted v) x (spt0 v) (orph v) (mbuf_ready v)
  (pinned_root v) (fold_pre_root v) (v_x v).
Definition set_spt0 {D X} x (v : vol D X) : vol D X := mkVol (v_dev v) (v_a v)
  (mb_boot_cursor v) (mb_boot_end v) (mb_alloc_cursor v) (mb_alloc_fail_run v) (rt_present v)
  (rt v) (anchor_state v) (anchor v) (anchor_adopted v) (anchor_refresh_failed v) x (orph v)
  (mbuf_ready v) (pinned_root v) (fold_pre_root v) (v_x v).
Definition set_orph {D X} x (v : vol D X) : vol D X := mkVol (v_dev v) (v_a v)
  (mb_boot_cursor v) (mb_boot_end v) (mb_alloc_cursor v) (mb_alloc_fail_run v) (rt_present v)
  (rt v) (anchor_state v) (anchor v) (anchor_adopted v) (anchor_refresh_failed v) (spt0 v) x
  (mbuf_ready v) (pinned_root v) (fold_pre_root v) (v_x v).
Definition set_mbuf_ready {D X} x (v : vol D X) : vol D X := mkVol (v_dev v) (v_a v)
  (mb_boot_cursor v) (mb_boot_end v) (mb_alloc_cursor v) (mb_alloc_fail_run v) (rt_present v)
  (rt v) (anchor_state v) (anchor v) (anchor_adopted v) (anchor_refresh_failed v) (spt0 v)
  (orph v) x (pinned_root v) (fold_pre_root v) (v_x v).
Definition set_pinned_root {D X} x (v : vol D X) : vol D X := mkVol (v_dev v) (v_a v)
  (mb_boot_cursor v) (mb_boot_end v) (mb_alloc_cursor v) (mb_alloc_fail_run v) (rt_present v)
  (rt v) (anchor_state v) (anchor v) (anchor_adopted v) (anchor_refresh_failed v) (spt0 v)
  (orph v) (mbuf_ready v) x (fold_pre_root v) (v_x v).
Definition set_fold_pre_root {D X} x (v : vol D X) : vol D X := mkVol (v_dev v) (v_a v)
  (mb_boot_cursor v) (mb_boot_end v) (mb_alloc_cursor v) (mb_alloc_fail_run v) (rt_present v)
  (rt v) (anchor_state v) (anchor v) (anchor_adopted v) (anchor_refresh_failed v) (spt0 v)
  (orph v) (mbuf_ready v) (pinned_root v) x (v_x v).
Definition set_v_x {D X} x (v : vol D X) : vol D X := mkVol (v_dev v) (v_a v) (mb_boot_cursor v)
  (mb_boot_end v) (mb_alloc_cursor v) (mb_alloc_fail_run v) (rt_present v) (rt v)
  (anchor_state v) (anchor v) (anchor_adopted v) (anchor_refresh_failed v) (spt0 v) (orph v)
  (mbuf_ready v) (pinned_root v) (fold_pre_root v) x.

Section volume.
Context {D X : Type} `{!Dev D}.

Definition on_dev {A} (m : M D A) : M (vol D X) A := fun v =>
  let '(r, d) := m (v_dev v) in (r, set_v_dev d v).
Definition on_alloc {A} (m : M avol A) : M (vol D X) A := fun v =>
  let '(r, a) := m (v_a v) in (r, set_v_a a v).
Definition on_a (f : avol -> avol) : M (vol D X) unit :=
  mmod (fun v => set_v_a (f (v_a v)) v).

Definition io_pread (off n : Z) : M (vol D X) bytes := on_dev (dev_pread off n).
Definition io_pwrite (off : Z) (bs : bytes) : M (vol D X) unit :=
  on_dev (dev_pwrite off bs).
Definition vol_barrier : M (vol D X) barrier_rc := fun v =>
  let '(r, d) := dev_barrier (v_dev v) in (Some r, set_v_dev d v).

(** Allocation state is shared with Alloc.v. *)
Definition vsb (v : vol D X) : superblock := sb (v_a v).

(** Write back the dirty byte range of the bitmap, in whole blocks; [io_seek]
    and [io_write] are one positioned write.
    Source: core/vol_btree.c [vol_bitmap_flush] *)
Definition vol_bitmap_flush : M (vol D X) unit :=
  let* v := mget in
  let a := v_a v in
  let bm_bytes := bitmap_blocks a * INVFS_BLOCK_SIZE in
  let base := metadata_zone_start (sb a) * INVFS_BLOCK_SIZE in
  if bm_hi a <? bm_lo a then mret tt else
  let hi := Z.min (bm_hi a) bm_bytes in
  let lo := bm_lo a - bm_lo a mod INVFS_BLOCK_SIZE in
  let hi := (hi + INVFS_BLOCK_SIZE - 1) / INVFS_BLOCK_SIZE * INVFS_BLOCK_SIZE in
  let hi := Z.min hi bm_bytes in
  (if lo <? hi then io_pwrite (base + lo) (slice (bitmap a) lo (hi - lo)) else mret tt) ;;;
  on_a (fun a => set_bm_hi 0 (set_bm_lo 1 a)).

End volume.

(** ** Codecs *)

Lemma field_skip m a b off n :
  length a = m -> Z.of_nat m <= off -> field (a ++ b) off n = field b (off - Z.of_nat m) n.
Proof. intros <- ?. unfold field. by rewrite slice_app_r. Qed.

Lemma slice_skip m a b off n :
  length a = m -> Z.of_nat m <= off -> slice (a ++ b) off n = slice b (off - Z.of_nat m) n.
Proof. intros <- ?. by rewrite slice_app_r. Qed.

Lemma field_here n x m rest :
  m = Z.of_nat n -> 0 <= x < 256 ^ m -> field (le_bytes n x ++ rest) 0 m = x.
Proof.
  intros -> Hx. unfold field. rewrite slice_app_l by (by autorewrite with len).
  by apply le_val_bytes_small.
Qed.

Lemma slice_here m a n rest : length a = m -> n = Z.of_nat m -> slice (a ++ rest) 0 n = a.
Proof. intros <- ->. by apply slice_app_l. Qed.

(** Walk to the field a parser reads and take it: field lengths come from
    [le_bytes] or from the context. *)
Ltac field_len := apply length_le_bytes || eassumption.
Ltac at_field :=
  repeat (
    first
      [ rewrite field_here by (reflexivity || assumption)
      | erewrite slice_here by (field_len || reflexivity)
      | erewrite field_skip by (field_len || (apply Z.leb_le; reflexivity))
      | erewrite slice_skip by (field_len || (apply Z.leb_le; reflexivity)) ];
    try match goal with
    | |- context [?x - Z.of_nat ?m] =>
        let z := eval vm_compute in (x - Z.of_nat m) in change (x - Z.of_nat m) with z
    end).

Record rt_ok (r : invfs_rt) : Prop := {
  ro_magic : length (rt_magic r) = 4%nat;
  ro_version : 0 <= rt_version r < 256 ^ 4;
  ro_page : 0 <= rt_page_size r < 256 ^ 4;
  ro_slot0 : 0 <= root_slot0 r < 256 ^ 8;
  ro_slot1 : 0 <= root_slot1 r < 256 ^ 8;
  ro_delta : 0 <= delta_pba r < 256 ^ 8;
  ro_seq : 0 <= rt_seq r < 256 ^ 8;
  ro_crc : 0 <= rt_crc32c r < 256 ^ 4;
  ro_bytes : bytes_ok (rt_magic r)
}.

Record anc_ok (a : invfs_anc0) : Prop := {
  ao_magic : length (anc_magic a) = 4%nat;
  ao_version : 0 <= anc_version a < 256 ^ 4;
  ao_total : 0 <= anc_total_blocks a < 256 ^ 8;
  ao_bsize : 0 <= anc_block_size a < 256 ^ 4;
  ao_format : 0 <= anc_format_version a < 256 ^ 4;
  ao_uuid : length (anc_uuid a) = 16%nat;
  ao_rt : rt_ok (anc_rt a);
  ao_spt0 : length (anc_spt0 a) = 32%nat;
  ao_crc : 0 <= anc_crc32c a < 256 ^ 4
}.

Lemma length_rt_bytes r : rt_ok r -> length (rt_bytes r) = 48%nat.
Proof. intros []. unfold rt_bytes, rt_body. rewrite !length_app. autorewrite with len. lia. Qed.

Lemma rt_body_ok r : rt_ok r -> bytes_ok (rt_body r).
Proof. intros []. unfold rt_body. rewrite !Forall_app. auto 10 with invfs. Qed.

Lemma rt_bytes_ok r : rt_ok r -> bytes_ok (rt_bytes r).
Proof. intros. unfold rt_bytes. apply Forall_app. auto using rt_body_ok, le_bytes_ok. Qed.

Lemma rt_roundtrip r : rt_ok r -> rt_parse (rt_bytes r) = r.
Proof.
  intros [Hm ? ? ? ? ? ? ? _]. unfold rt_parse, rt_bytes, rt_body. rewrite <- !app_assoc.
  rewrite <- (app_nil_r (le_bytes 4 (rt_crc32c r))).
  destruct r as [mg ve ps s0 s1 dp sq cr]; cbn [rt_magic rt_version rt_page_size root_slot0
    root_slot1 delta_pba rt_seq rt_crc32c] in *.
  f_equal; at_field; done.
Qed.

Lemma anc_roundtrip a : anc_ok a -> anc_parse (anc_bytes a) = a.
Proof.
  intros [Hm ? ? ? ? Hu Hr Hs ?]. pose proof (length_rt_bytes _ Hr).
  pose proof (rt_roundtrip _ Hr) as Ert.
  unfold anc_parse, anc_bytes, anc_body. rewrite <- !app_assoc.
  rewrite <- (app_nil_r (le_bytes 4 (anc_crc32c a))).
  destruct a as [mg ve tb bs fv uu r sp cr]; cbn [anc_magic anc_version anc_total_blocks
    anc_block_size anc_format_version anc_uuid anc_rt anc_spt0 anc_crc32c] in *.
  f_equal; at_field; done.
Qed.

Lemma length_anc_bytes a : anc_ok a -> zlen (anc_bytes a) = ANC_LEN.
Proof.
  intros [? _ _ _ _ ? Hr ? _]. unfold anc_bytes, anc_body.
  rewrite !length_app, !length_le_bytes, (length_rt_bytes _ Hr).
  change ANC_LEN with 124. lia.
Qed.

(** ** What device access does to the handle *)

Section laws.
Context {D X : Type} `{!Dev D, !DevLaws D}.
Implicit Types v : vol D X.

Definition view v : Z -> Z := dview (v_dev v).
Definition vrange v (off n : Z) : bytes := map (view v) (seqZ off n).
Definition latched v : bool := dev_latched (v_dev v).

(** The storage of [v'] is the storage of [v] with the same rights; nothing
    else of the handle changed. *)
Definition vdev v v' : Prop :=
  v' = set_v_dev (v_dev v') v /\ dwf (v_dev v') /\
  (forall o m, dok (v_dev v') o m <-> dok (v_dev v) o m).

(** ... and the same contents. *)
Definition vsame v v' : Prop :=
  vdev v v' /\ latched v' = false /\ forall a, view v' a = view v a.

Lemma vdev_refl v : dwf (v_dev v) -> vdev v v.
Proof. intros. split_and!; try done. by destruct v. Qed.

Lemma vdev_trans v1 v2 v3 : vdev v1 v2 -> vdev v2 v3 -> vdev v1 v3.
Proof.
  intros (E1 & _ & O1) (E2 & W2 & O2). split_and!; [|done|].
  - rewrite E2, E1. done.
  - intros. rewrite O2. apply O1.
Qed.

Lemma vdev_a v v' : vdev v v' -> v_a v' = v_a v.
Proof. intros [-> _]. done. Qed.

Lemma vsame_refl v : dwf (v_dev v) -> latched v = false -> vsame v v.
Proof. intros. split_and!; try done. by destruct v. Qed.

Lemma vsame_trans v1 v2 v3 : vsame v1 v2 -> vsame v2 v3 -> vsame v1 v3.
Proof.
  intros (D1 & _ & V1) (D2 & L & V2). split_and!; [by eapply vdev_trans..|done|].
  intros a. by rewrite V2, V1.
Qed.

Lemma vrange_ext v v' off n :
  (forall a, off <= a < off + n -> view v' a = view v a) -> vrange v' off n = vrange v off n.
Proof.
  intros H. unfold vrange. apply map_ext_in. intros a Ha.
  apply list_elem_of_In, elem_of_seqZ in Ha. apply H. lia.
Qed.

Lemma length_vrange v off n : 0 <= n -> zlen (vrange v off n) = n.
Proof. intros. unfold vrange. rewrite length_map, length_seqZ. lia. Qed.

(** The range that was just written. *)
Lemma vrange_eq v off bs :
  (forall a, off <= a < off + zlen bs -> view v a = nthZ bs (a - off)) ->
  vrange v off (zlen bs) = bs.
Proof.
  intros H. unfold vrange. apply list_eq. intros i.
  rewrite list_lookup_fmap.
  destruct (decide (Z.of_nat i < zlen bs)).
  - rewrite lookup_seqZ_lt by lia. simpl. rewrite H by lia.
    unfold nthZ. replace (Z.to_nat (off + Z.of_nat i - off)) with i by lia.
    destruct (lookup_lt_is_Some_2 bs i) as [x Hx]; [lia|]. rewrite Hx.
    by rewrite (nth_lookup_Some _ _ _ _ Hx).
  - rewrite lookup_seqZ_ge by lia. simpl. symmetry. apply lookup_ge_None_2. lia.
Qed.

Lemma io_pread_spec off n v r v' :
  dwf (v_dev v) -> latched v = false -> 0 <= off -> 0 <= n -> dok (v_dev v) off n ->
  io_pread off n v = (r, v') ->
  vsame v v' /\ forall bs, r = Some bs -> bs = vrange v off n.
Proof.
  unfold io_pread, on_dev. intros Hw Hl Ho Hn Hok.
  destruct (dev_pread off n (v_dev v)) as [r0 d] eqn:E. intros [= <- <-].
  apply dev_pread_law in E as (? & ? & ? & ? & Hb); try done.
Qed.

Lemma io_pwrite_spec off bs v r v' :
  dwf (v_dev v) -> latched v = false -> 0 <= off -> dok (v_dev v) off (zlen bs) ->
  io_pwrite off bs v = (r, v') ->
  vdev v v' /\
  (latched v' = false ->
   (forall a, ~ (off <= a < off + zlen bs) -> view v' a = view v a) /\
   (r = Some tt -> vrange v' off (zlen bs) = bs)).
Proof.
  unfold io_pwrite, on_dev. intros Hw Hl Ho Hok.
  destruct (dev_pwrite off bs (v_dev v)) as [r0 d] eqn:E. intros [= <- <-].
  apply dev_pwrite_law in E as (? & ? & Hv); try done.
  split; [done|]. intros Hl'. destruct (Hv Hl') as [F I]. split; [done|].
  intros Hr. apply vrange_eq. intros a Ha. by apply I.
Qed.

Lemma vol_barrier_spec v r v' :
  dwf (v_dev v) -> latched v = false -> vol_barrier v = (r, v') ->
  vdev v v' /\
  (latched v' = false ->
   forall a, ~ (INVFS_DEVT_OFF <= a < INVFS_DEVT_OFF + DEVT_LEN) -> view v' a = view v a).
Proof.
  unfold vol_barrier. intros Hw Hl. destruct (dev_barrier (v_dev v)) as [r0 d] eqn:E.
  intros [= <- <-]. by apply dev_barrier_law in E as (? & ? & Hv).
Qed.

Lemma latched_pread off n v r v' :
  io_pread off n v = (r, v') -> latched v' = false -> latched v = false.
Proof.
  unfold io_pread, on_dev. destruct (dev_pread _ _ _) eqn:E. intros [= <- <-].
  by eapply dev_latched_pread.
Qed.

Lemma latched_pwrite off bs v r v' :
  io_pwrite off bs v = (r, v') -> latched v' = false -> latched v = false.
Proof.
  unfold io_pwrite, on_dev. destruct (dev_pwrite _ _ _) eqn:E. intros [= <- <-].
  by eapply dev_latched_pwrite.
Qed.

Lemma latched_barrier v r v' :
  vol_barrier v = (r, v') -> latched v' = false -> latched v = false.
Proof.
  unfold vol_barrier. destruct (dev_barrier _) eqn:E. intros [= <- <-].
  by eapply dev_latched_barrier.
Qed.
End laws.

End Volume.
