(* ===== verification/Anchor.v ===== *)
(** * The ANC0 tail anchor (vol_anchor.c)

    The last block of a volume mirrors the RT30 root descriptor and the SPT0
    save-point descriptor of block 0, under a fingerprint of the image.  The
    delta log's healing step, which runs before every fence, is an argument
    here: Delta.v supplies it. *)

From S2P Require Import Prelude Crc32c Blkio Dev Alloc Volume.

Module Anchor.
Import Crc32c Alloc Volume.

(** The checksum covers the bytes before its own field.
    Source: core/vol_anchor.c [anchor_crc] *)
Definition anchor_crc (a : invfs_anc0) : Z := invfs_crc32c (anc_body a).

(** [uuid] may be absent.
    Source: core/vol_anchor.c [anchor_fp_matches] *)
Definition anchor_fp_matches (a : invfs_anc0) (total_blocks block_size format_version : Z)
    (uuid : option bytes) : bool :=
  (anc_total_blocks a =? total_blocks) && (anc_block_size a =? block_size) &&
  (anc_format_version a =? format_version) &&
  match uuid with Some u => bool_decide (anc_uuid a = u) | None => true end.

(** Source: core/vol_anchor.c [anchor_state_of] *)
Definition anchor_state_of (a : invfs_anc0) : anchor_st :=
  if negb (bool_decide (anc_magic a = ANC_MAGIC)) then AnchorAbsent
  else if negb (anc_version a =? INVFS_ANC0_VERSION) ||
          negb (anchor_crc a =? anc_crc32c a) then AnchorRefusedDamage
  else AnchorOk.

Definition set_anc_crc (c : Z) (a : invfs_anc0) : invfs_anc0 :=
  mkAnc (anc_magic a) (anc_version a) (anc_total_blocks a) (anc_block_size a)
    (anc_format_version a) (anc_uuid a) (anc_rt a) (anc_spt0 a) c.

(** Source: core/vol_anchor.c [anchor_write_raw] *)
Definition anchor_write_raw (pba : Z) (a : invfs_anc0) : M Blkio.blkio unit :=
  mguard (negb (pba =? 0)) ;;;
  Blkio.blkio_pwrite (pba * INVFS_BLOCK_SIZE) (anc_bytes a) ;;;
  let* _ := mtry Blkio.blkio_flush in
  mret tt.

Section anchor.
Context {D X : Type} `{!Dev D} (vol_delta_heal : M (vol D X) unit).

(** Source: core/vol_anchor.c [anchor_build] *)
Definition anchor_build (v : vol D X) : invfs_anc0 :=
  let a := mkAnc ANC_MAGIC INVFS_ANC0_VERSION (total_blocks (vsb v)) INVFS_BLOCK_SIZE
    (format_version (vsb v)) (sb_uuid (vsb v)) (rt v) (spt0 v) 0 in
  set_anc_crc (anchor_crc a) a.

Definition anchor_verdict (st : anchor_st) : M (vol D X) anchor_st :=
  mmod (fun v => set_anchor_adopted false (set_anchor_state st v)) ;;; mret st.

(** Source: core/vol_anchor.c [anchor_probe] *)
Definition anchor_probe : M (vol D X) anchor_st :=
  let* v := mget in
  let s := vsb v in
  let pba := anchor_pba s in
  if pba =? 0 then anchor_verdict AnchorAbsent else
  let* r := mtry (io_pread (pba * INVFS_BLOCK_SIZE) ANC_LEN) in
  match r with
  | None => anchor_verdict AnchorIo
  | Some bs =>
      let a := anc_parse bs in
      match anchor_state_of a with
      | AnchorOk =>
          if negb (anchor_fp_matches a (total_blocks s) (sb_block_size s)
                     (format_version s) (Some (sb_uuid s)))
          then anchor_verdict AnchorRefusedGeometry
          else
            mmod (fun v => set_anchor a (set_anchor_state AnchorOk v)) ;;;
            mret AnchorOk
      | st => anchor_verdict st
      end
  end.

(** Source: core/vol_anchor.c [anchor_refresh] *)
Definition anchor_refresh : M (vol D X) unit :=
  let* v := mget in
  match anchor_state v with
  | AnchorOk =>
      let pba := anchor_pba (vsb v) in
      if pba =? 0 then mret tt else
      let* r := mtry (io_pwrite (pba * INVFS_BLOCK_SIZE) (anc_bytes (anchor_build v))) in
      match r with
      | None => mmod (set_anchor_refresh_failed true) ;;; mfail
      | Some _ =>
          let* _ := mtry vol_delta_heal in
          let* _ := vol_barrier in
          mret tt
      end
  | _ => mret tt
  end.

(** [a] is the descriptor the probe found there, if any.
    Source: core/vol_anchor.c [anchor_invalidate_at] *)
Definition anchor_invalidate_at (old_pba : Z) (a : option invfs_anc0) : M (vol D X) unit :=
  match a with
  | Some _ =>
      if old_pba =? 0 then mret tt else
      io_pwrite (old_pba * INVFS_BLOCK_SIZE) (zeros INVFS_BLOCK_SIZE) ;;;
      let* _ := mtry vol_delta_heal in
      let* _ := vol_barrier in
      mmod (fun v => set_anchor_adopted false (set_anchor_state AnchorAbsent v))
  | None => mret tt
  end.
End anchor.

(** What the fences rely on of the delta log's healing step: it writes only
    bytes of its own area, and keeps the rest of the handle. *)
Class HealLaws {D X : Type} `{!Dev D, !DevLaws D} (heal : M (vol D X) unit) := {
  heal_area : X -> Z -> Prop;
  heal_inv : X -> D -> Prop;
  heal_inv_dok x d d' :
    (forall o m, dok d' o m <-> dok d o m) -> heal_inv x d -> heal_inv x d';
  heal_latched v r v' : heal v = (r, v') -> latched v' = false -> latched v = false;
  heal_law v r v' :
    dwf (v_dev v) -> latched v' = false -> heal_inv (v_x v) (v_dev v) -> heal v = (r, v') ->
    v' = set_v_x (v_x v') (set_v_dev (v_dev v') v) /\ dwf (v_dev v') /\
    (forall o m, dok (v_dev v') o m <-> dok (v_dev v) o m) /\
    heal_inv (v_x v') (v_dev v') /\
    (forall a, heal_area (v_x v') a -> heal_area (v_x v) a) /\
    (forall a, ~ heal_area (v_x v) a -> view v' a = view v a)
}.

Section laws.
Context {D X : Type} `{!Dev D, !DevLaws D}.
Context (heal : M (vol D X) unit) `{!HealLaws heal}.
Implicit Types v : vol D X.

Definition in_anchor v (a : Z) : Prop :=
  anchor_pba (vsb v) * INVFS_BLOCK_SIZE <= a < anchor_pba (vsb v) * INVFS_BLOCK_SIZE + ANC_LEN.
Definition in_devt (a : Z) : Prop := INVFS_DEVT_OFF <= a < INVFS_DEVT_OFF + DEVT_LEN.

(** A fence: storage, delta state and the refresh flag may change. *)
Definition fenced v v' : Prop :=
  v' = set_anchor_refresh_failed (anchor_refresh_failed v')
         (set_v_x (v_x v') (set_v_dev (v_dev v') v)) /\
  dwf (v_dev v') /\ (forall o m, dok (v_dev v') o m <-> dok (v_dev v) o m) /\
  heal_inv (v_x v') (v_dev v') /\ (forall a, heal_area (v_x v') a -> heal_area (v_x v) a).

Lemma fenced_refl v : dwf (v_dev v) -> heal_inv (v_x v) (v_dev v) -> fenced v v.
Proof. intros. split_and!; try done. by destruct v. Qed.

Lemma fenced_trans v1 v2 v3 : fenced v1 v2 -> fenced v2 v3 -> fenced v1 v3.
Proof.
  intros (E1 & _ & O1 & _ & A1) (E2 & W & O2 & I & A2). split_and!; try done.
  - rewrite E2, E1. done.
  - intros. rewrite O2. apply O1.
  - auto.
Qed.

Lemma vdev_fenced v v' : vdev v v' -> heal_inv (v_x v) (v_dev v) -> fenced v v'.
Proof.
  intros (E & W & O) Hi. assert (Ex : v_x v' = v_x v) by (by rewrite E).
  split_and!; try done.
  - rewrite E. by destruct v.
  - rewrite Ex. by eapply heal_inv_dok.
  - by rewrite Ex.
Qed.

Lemma fenced_sb v v' : fenced v v' -> vsb v' = vsb v.
Proof. by intros [-> _]. Qed.

Lemma fence_spec v v' r1 v1 r2 :
  dwf (v_dev v) -> latched v' = false -> heal_inv (v_x v) (v_dev v) ->
  heal v = (r1, v1) -> vol_barrier v1 = (r2, v') ->
  fenced v v' /\ latched v = false /\
  forall a, ~ heal_area (v_x v) a -> ~ in_devt a -> view v' a = view v a.
Proof.
  intros Hw Hl Hi E1 E2. assert (L1 := latched_barrier _ _ _ E2 Hl).
  assert (L := heal_latched _ _ _ E1 L1).
  apply heal_law in E1 as (Ev & W1 & O1 & I1 & A1 & V1); try done.
  apply vol_barrier_spec in E2 as [D2 V2]; try done.
  split_and!; [|done|].
  - eapply fenced_trans; [|by apply vdev_fenced]. split_and!; try done.
    rewrite Ev. by destruct v.
  - intros a Ha Hd. by rewrite V2, V1.
Qed.

Lemma anchor_refresh_run v r v' :
  anchor_refresh heal v = (r, v') ->
  (r = Some tt /\ v' = v /\ (anchor_state v <> AnchorOk \/ anchor_pba (vsb v) = 0)) \/
  (exists v1, r = None /\ v' = set_anchor_refresh_failed true v1 /\
     io_pwrite (anchor_pba (vsb v) * INVFS_BLOCK_SIZE) (anc_bytes (anchor_build v)) v
       = (None, v1)) \/
  (exists v1 r2 v2 r3, r = Some tt /\
     io_pwrite (anchor_pba (vsb v) * INVFS_BLOCK_SIZE) (anc_bytes (anchor_build v)) v
       = (Some tt, v1) /\
     heal v1 = (r2, v2) /\ vol_barrier v2 = (r3, v')).
Proof.
  unfold anchor_refresh. rewrite (mbind_eq _ _ _ v v) by done. cbv zeta.
  destruct (anchor_state v); try (intros [= <- <-]; left; split_and!; auto; by left).
  destruct (_ =? 0) eqn:Ez; zbool; [intros [= <- <-]; auto|].
  unfold mbind', mtry, mmod, mfail, mret. destruct (io_pwrite _ _ v) as [[[]|] v1] eqn:E1.
  - destruct (heal v1) as [r2 v2] eqn:E2. unfold vol_barrier at 1.
    destruct (dev_barrier (v_dev v2)) as [r3 d] eqn:E3. intros [= <- <-].
    right; right. exists v1, r2, v2, (Some r3). unfold vol_barrier. rewrite E3. done.
  - intros [= <- <-]. right; left. by exists v1.
Qed.

(** The refresh mirrors the descriptors of the handle, or says it could not. *)
Lemma anchor_refresh_spec v r v' :
  dwf (v_dev v) -> latched v' = false -> heal_inv (v_x v) (v_dev v) ->
  0 <= anchor_pba (vsb v) ->
  dok (v_dev v) (anchor_pba (vsb v) * INVFS_BLOCK_SIZE) ANC_LEN ->
  anc_ok (anchor_build v) ->
  anchor_refresh heal v = (r, v') ->
  fenced v v' /\ latched v = false /\
  (forall a, ~ in_anchor v a -> ~ heal_area (v_x v) a -> ~ in_devt a ->
     view v' a = view v a) /\
  (r = None -> anchor_refresh_failed v' = true) /\
  (r = Some tt -> anchor_state v = AnchorOk -> anchor_pba (vsb v) <> 0 ->
   (forall a, in_anchor v a -> ~ heal_area (v_x v) a) ->
   vrange v' (anchor_pba (vsb v) * INVFS_BLOCK_SIZE) ANC_LEN = anc_bytes (anchor_build v)).
Proof.
  intros Hw Hl Hi Hp Hok Ha H. pose proof (length_anc_bytes _ Ha) as Hlen.
  assert (Hoff : 0 <= anchor_pba (vsb v) * INVFS_BLOCK_SIZE) by (unfold INVFS_BLOCK_SIZE; lia).
  apply anchor_refresh_run in H as [(-> & -> & Hst)|[(v1 & -> & -> & E1)|
    (v1 & r2 & v2 & r3 & -> & E1 & E2 & E3)]].
  - split_and!; try done; [by apply fenced_refl|]. intros _ ? ?. by destruct Hst.
  - assert (L := latched_pwrite _ _ _ _ _ E1 Hl).
    apply io_pwrite_spec in E1 as [D1 V1]; [|done..|by rewrite Hlen]. specialize (V1 Hl).
    split_and!; try done.
    + eapply fenced_trans; [by apply vdev_fenced|]. apply vdev_fenced in D1; [|done].
      destruct D1 as (_ & ? & _ & ? & _). by split_and!.
    + intros a Hna _ _. apply V1. by rewrite Hlen.
  - assert (L1 : latched v1 = false)
      by (eapply heal_latched, latched_barrier; eauto).
    assert (L := latched_pwrite _ _ _ _ _ E1 L1).
    apply io_pwrite_spec in E1 as [D1 V1]; [|done..|by rewrite Hlen].
    destruct (V1 L1) as [F1 I1]. rewrite Hlen in I1, F1.
    assert (Ex : v_x v1 = v_x v) by (by destruct D1 as [-> _]).
    apply vdev_fenced in D1; [|done]. pose proof D1 as (_ & W1 & _ & Hi1 & _).
    eapply fence_spec in E3 as (D3 & _ & V3); try done. rewrite Ex in V3.
    split_and!; try done.
    + by eapply fenced_trans.
    + intros a Hna Hnh Hnd. by rewrite V3, F1.
    + intros _ _ Hnz Hsep. rewrite <- I1 by done. apply vrange_ext. intros a Hin.
      apply V3; [by apply Hsep|]. unfold in_devt, INVFS_DEVT_OFF, DEVT_LEN, INVFS_BLOCK_SIZE in *.
      lia.
Qed.

(** ** Probing *)

Lemma anchor_build_ok v :
  0 <= total_blocks (vsb v) < 2 ^ 64 -> 0 <= format_version (vsb v) < 2 ^ 32 ->
  length (sb_uuid (vsb v)) = 16%nat -> bytes_ok (sb_uuid (vsb v)) -> rt_ok (rt v) ->
  length (spt0 v) = 32%nat -> bytes_ok (spt0 v) -> anc_ok (anchor_build v).
Proof.
  intros ? ? ? ? Hr ? ?. constructor; cbn; try done.
  apply crc_range. unfold anc_body; cbn [anc_magic anc_version anc_total_blocks
    anc_block_size anc_format_version anc_uuid anc_rt anc_spt0].
  rewrite !Forall_app. split_and!; auto using rt_bytes_ok with invfs.
  by apply bytes_okb_ok.
Qed.

Lemma anchor_build_state v : anchor_state_of (anchor_build v) = AnchorOk.
Proof.
  unfold anchor_state_of, anchor_build, set_anc_crc, anchor_crc, anc_body.
  cbn [anc_magic anc_version anc_crc32c anc_total_blocks anc_block_size anc_format_version
    anc_uuid anc_rt anc_spt0].
  rewrite bool_decide_eq_true_2 by done. by rewrite !Z.eqb_refl.
Qed.

Lemma anchor_probe_run v st v' :
  anchor_probe v = (Some st, v') ->
  (st <> AnchorOk /\ exists v1, v' = set_anchor_adopted false (set_anchor_state st v1) /\
     (v1 = v \/ exists r, io_pread (anchor_pba (vsb v) * INVFS_BLOCK_SIZE) ANC_LEN v = (r, v1))) \/
  (st = AnchorOk /\ exists bs v1,
     io_pread (anchor_pba (vsb v) * INVFS_BLOCK_SIZE) ANC_LEN v = (Some bs, v1) /\
     v' = set_anchor (anc_parse bs) (set_anchor_state AnchorOk v1) /\
     anchor_state_of (anc_parse bs) = AnchorOk /\
     anchor_fp_matches (anc_parse bs) (total_blocks (vsb v)) (sb_block_size (vsb v))
       (format_version (vsb v)) (Some (sb_uuid (vsb v))) = true).
Proof.
  unfold anchor_probe. rewrite (mbind_eq _ _ _ v v) by done. cbv zeta.
  destruct (_ =? 0).
  { intros [= <- <-]. left. split; [done|]. exists v. auto. }
  unfold mbind' at 1. unfold mtry. destruct (io_pread _ _ v) as [[bs|] v1] eqn:E.
  2: { intros [= <- <-]. left. split; [done|]. exists v1. eauto. }
  destruct (anchor_state_of (anc_parse bs)) eqn:Es;
    try (intros [= <- <-]; left; split; [done|]; exists v1; eauto; fail).
  destruct (anchor_fp_matches _ _ _ _ _) eqn:Ef; intros [= <- <-]; [right|left].
  - split; [done|]. by exists bs, v1.
  - split; [done|]. exists v1. eauto.
Qed.

(** What a probe of a block that holds the descriptor [a] decides. *)
Lemma anchor_probe_mirror v a st v' :
  dwf (v_dev v) -> latched v = false -> 0 < anchor_pba (vsb v) ->
  dok (v_dev v) (anchor_pba (vsb v) * INVFS_BLOCK_SIZE) ANC_LEN ->
  vrange v (anchor_pba (vsb v) * INVFS_BLOCK_SIZE) ANC_LEN = anc_bytes a ->
  anc_ok a -> anchor_state_of a = AnchorOk ->
  anchor_probe v = (Some st, v') ->
  exists v1, vsame v v1 /\
  let fp := anchor_fp_matches a (total_blocks (vsb v)) (sb_block_size (vsb v))
              (format_version (vsb v)) (Some (sb_uuid (vsb v))) in
  (st = AnchorIo /\ v' = set_anchor_adopted false (set_anchor_state st v1)) \/
  (st = AnchorOk /\ fp = true /\ v' = set_anchor a (set_anchor_state AnchorOk v1)) \/
  (st = AnchorRefusedGeometry /\ fp = false /\
   v' = set_anchor_adopted false (set_anchor_state st v1)).
Proof.
  intros Hw Hl Hp Hok Hv Ha Hs.
  unfold anchor_probe. rewrite (mbind_eq _ _ _ v v) by done. cbv zeta.
  rewrite (proj2 (Z.eqb_neq _ _)) by lia.
  unfold mbind' at 1. unfold mtry.
  destruct (io_pread _ _ v) as [[bs|] v1] eqn:E;
    (apply io_pread_spec in E as [Hsame Hbs];
     [|done|done|unfold INVFS_BLOCK_SIZE; lia|done|done]); intros H; exists v1; (split; [done|]).
  2: { left. by injection H as <- <-. }
  rewrite (Hbs _ eq_refl), Hv, (anc_roundtrip _ Ha), Hs in H.
  destruct (anchor_fp_matches _ _ _ _ _); injection H as <- <-; right; [left|right]; done.
Qed.
End laws.

End Anchor.
