(* ===== verification/Page.v ===== *)
(** * Base pages and block pointers (vol_metabuf.c)

    The checksummed 4 KiB page, the block pointer that pins a page by
    address, generation and checksum, and what the trees built of such pages
    rely on of the store that holds them. *)

From S2P Require Import Prelude Crc32c Alloc Volume.

Module Page.
Import Crc32c Alloc Volume.

(** ** Pages *)

Definition INVFS_PAGE_SIZE_DEFAULT : Z := 4096.
Definition PAGE_HDR : Z := 20.
Definition PAGE_CRC_OFF : Z := 16.
Definition PAGE_MAGIC : bytes := [66; 80; 71; 51].
Definition INVFS_PAGE_LEVEL_LEAF : Z := 0.
Definition INVFS_MBUF_BOOT_PAGES : Z := 2.

(** Fields of the page header. *)
Definition page_magic (p : bytes) : bytes := slice p 0 4.
Definition page_gen (p : bytes) : Z := field p 4 8.
Definition page_level (p : bytes) : Z := field p 12 2.
Definition page_nentries (p : bytes) : Z := field p 14 2.
Definition page_checksum (p : bytes) : Z := field p 16 4.

(** Store [bs] at offset [off] of a buffer. *)
Definition put (p : bytes) (off : Z) (bs : bytes) : bytes :=
  take (Z.to_nat off) p ++ bs ++ drop (Z.to_nat off + length bs) p.

(** Source: core/vol_metabuf.c [mbuf_page_crc] *)
Definition mbuf_page_crc (page : bytes) : Z :=
  let c := invfs_crc32c (slice page 0 PAGE_CRC_OFF) in
  invfs_crc32c_update c
    (slice page (PAGE_CRC_OFF + 4) (INVFS_BLOCK_SIZE - PAGE_CRC_OFF - 4)).

(** Source: core/vol_metabuf.c [mbuf_page_init] *)
Definition mbuf_page_init (level gen : Z) : bytes :=
  PAGE_MAGIC ++ le_bytes 8 gen ++ le_bytes 2 level ++ le_bytes 2 0 ++ le_bytes 4 0 ++
  zeros (INVFS_BLOCK_SIZE - PAGE_HDR).

(** Source: core/vol_metabuf.c [mbuf_page_seal] *)
Definition mbuf_page_seal (page : bytes) : bytes :=
  put page PAGE_CRC_OFF (le_bytes 4 (mbuf_page_crc page)).

(** Source: core/vol_metabuf.c [mbuf_page_validate] *)
Definition mbuf_page_validate (page : bytes) : bool :=
  bool_decide (page_magic page = PAGE_MAGIC) && (page_checksum page =? mbuf_page_crc page).

(** Source: core/vol_metabuf.c [mbuf_ptr_set] *)
Definition mbuf_ptr_set (pba : Z) (page : bytes) (flags : Z) : invfs_blkptr :=
  mkPtr pba (page_checksum page) (page_gen page) flags.

Definition INVFS_BP_LEAF : Z := 1.
Definition INVFS_BP_INTERNAL : Z := 2.
Definition INVFS_BP_ROOT : Z := 4.

(** ** What a tree of pages relies on *)

Class PageStore (V : Type) := {
  ps_alloc : Z -> M V Z;                       (* mbuf_alloc *)
  ps_write : Z -> bytes -> M V bytes;          (* mbuf_write *)
  ps_read : invfs_blkptr -> M V bytes;         (* mbuf_read_ptr *)
  ps_free : Z -> M V unit;                     (* mbuf_free *)
  ps_note : Z -> V -> V                        (* btree_orphan_note_alloc *)
}.

(** [ps_live] are the pages the volume owns, [ps_page] their contents.  A
    store that has latched an I/O error promises nothing further, so each law
    speaks of runs that end unlatched ([ps_ok]). *)
Class PageStoreLaws (V : Type) `{!PageStore V} := {
  ps_wf : V -> Prop;
  ps_ok : V -> bool;
  ps_live : V -> Z -> Prop;
  ps_page : V -> Z -> bytes;
  ps_live_range v p : ps_wf v -> ps_live v p -> 0 < p < 2 ^ 52;
  ps_ok_alloc gen v r v' : ps_alloc gen v = (r, v') -> ps_ok v' = true -> ps_ok v = true;
  ps_ok_write p pg v r v' : ps_write p pg v = (r, v') -> ps_ok v' = true -> ps_ok v = true;
  ps_ok_read ptr v r v' : ps_read ptr v = (r, v') -> ps_ok v' = true -> ps_ok v = true;
  ps_ok_free p v r v' : ps_free p v = (r, v') -> ps_ok v' = true -> ps_ok v = true;
  ps_alloc_law gen v r v' :
    ps_wf v -> ps_ok v' = true -> ps_alloc gen v = (r, v') ->
    ps_wf v' /\ (forall q, ps_live v q -> ps_page v' q = ps_page v q) /\
    (forall q, ps_live v q -> ps_live v' q) /\
    (forall p, r = Some p -> ~ ps_live v p /\ ps_live v' p);
  ps_write_law p pg v r v' :
    ps_wf v -> ps_ok v' = true -> ps_live v p ->
    zlen pg = INVFS_BLOCK_SIZE -> bytes_ok pg -> ps_write p pg v = (r, v') ->
    ps_wf v' /\ (forall q, q <> p -> ps_live v q -> ps_page v' q = ps_page v q) /\
    (forall q, ps_live v' q <-> ps_live v q) /\
    (forall s, r = Some s -> s = mbuf_page_seal pg /\ ps_page v' p = s);
  ps_read_law ptr v r v' :
    ps_wf v -> ps_ok v' = true -> ps_live v (bp_pba ptr) -> ps_read ptr v = (r, v') ->
    ps_wf v' /\ (forall q, ps_live v q -> ps_page v' q = ps_page v q) /\
    (forall q, ps_live v' q <-> ps_live v q) /\
    (forall pg, r = Some pg ->
       pg = ps_page v (bp_pba ptr) /\ page_checksum pg = bp_checksum ptr /\
       page_gen pg = bp_gen ptr /\ mbuf_page_validate pg = true);
  ps_free_law p v r v' :
    ps_wf v -> ps_ok v' = true -> ps_live v p -> ps_free p v = (r, v') ->
    r = Some tt /\
    ps_wf v' /\ (forall q, ps_live v q -> ps_page v' q = ps_page v q) /\
    (forall q, ps_live v' q -> ps_live v q) /\
    (forall q, q <> p -> ps_live v q -> ps_live v' q);
  ps_note_law p v :
    ps_ok (ps_note p v) = ps_ok v /\ (ps_wf v -> ps_wf (ps_note p v)) /\
    (forall q, ps_page (ps_note p v) q = ps_page v q) /\
    (forall q, ps_live (ps_note p v) q <-> ps_live v q)
}.

(** ** Sealing *)

Lemma length_put p off bs :
  0 <= off -> off + zlen bs <= zlen p -> length (put p off bs) = length p.
Proof. intros. unfold put. rewrite !length_app, length_take, length_drop. lia. Qed.

Lemma put_ok p off bs : bytes_ok p -> bytes_ok bs -> bytes_ok (put p off bs).
Proof. intros. unfold put. rewrite !Forall_app. auto using Forall_take, Forall_drop. Qed.
#[local] Hint Resolve put_ok : invfs.

Lemma slice_put_before p off bs o n :
  0 <= o -> 0 <= n -> o + n <= off -> off <= zlen p -> slice (put p off bs) o n = slice p o n.
Proof.
  intros. unfold slice, put. rewrite drop_app_le by (rewrite length_take; lia).
  rewrite skipn_firstn_comm, take_app_le by (rewrite length_take, length_drop; lia).
  rewrite take_take. f_equal. lia.
Qed.

Lemma slice_put_after p off bs o n :
  0 <= off -> off + zlen bs <= o -> off + zlen bs <= zlen p ->
  slice (put p off bs) o n = slice p o n.
Proof.
  intros. unfold slice, put. rewrite drop_app_ge by (rewrite length_take; lia).
  rewrite drop_app_ge by (rewrite length_take; lia).
  rewrite drop_drop, length_take. do 2 f_equal. lia.
Qed.

Lemma slice_put_at p off bs n :
  0 <= off <= zlen p -> n = zlen bs -> slice (put p off bs) off n = bs.
Proof.
  intros Ho ->. unfold slice, put.
  rewrite drop_app_ge by (rewrite length_take; lia).
  rewrite length_take, Nat.min_l, Nat.sub_diag, drop_0, Nat2Z.id by lia.
  apply take_app_length.
Qed.

Lemma page_crc_range p : bytes_ok p -> 0 <= mbuf_page_crc p < 2 ^ 32.
Proof.
  intros. unfold mbuf_page_crc. rewrite update_app by auto with invfs.
  apply crc_range, Forall_app. auto with invfs.
Qed.

Lemma length_seal p : zlen p = INVFS_BLOCK_SIZE -> zlen (mbuf_page_seal p) = INVFS_BLOCK_SIZE.
Proof.
  intros Hp. unfold mbuf_page_seal. rewrite length_put; [done|done|].
  rewrite length_le_bytes, Hp. by apply Z.leb_le.
Qed.

Lemma seal_ok p : bytes_ok p -> bytes_ok (mbuf_page_seal p).
Proof. intros. unfold mbuf_page_seal. auto with invfs. Qed.

(** Sealing changes the checksum field only. *)
Lemma seal_slice_before p o n :
  zlen p = INVFS_BLOCK_SIZE -> 0 <= o -> 0 <= n -> o + n <= PAGE_CRC_OFF ->
  slice (mbuf_page_seal p) o n = slice p o n.
Proof. intros Hp ? ? ?. apply slice_put_before; try done. rewrite Hp. done. Qed.

Lemma seal_slice_after p o n :
  zlen p = INVFS_BLOCK_SIZE -> PAGE_HDR <= o -> slice (mbuf_page_seal p) o n = slice p o n.
Proof.
  intros Hp ?. apply slice_put_after; rewrite ?length_le_bytes, ?Hp; done.
Qed.

Lemma page_crc_seal p : zlen p = INVFS_BLOCK_SIZE -> mbuf_page_crc (mbuf_page_seal p) = mbuf_page_crc p.
Proof.
  intros Hp. unfold mbuf_page_crc.
  rewrite seal_slice_before by done. by rewrite seal_slice_after by done.
Qed.

Lemma seal_checksum p :
  zlen p = INVFS_BLOCK_SIZE -> bytes_ok p ->
  page_checksum (mbuf_page_seal p) = mbuf_page_crc p.
Proof.
  intros Hp Hb. unfold page_checksum, field, mbuf_page_seal.
  rewrite slice_put_at by (rewrite ?length_le_bytes, ?Hp; done).
  apply le_val_bytes_small. by apply page_crc_range.
Qed.

Lemma seal_header p :
  zlen p = INVFS_BLOCK_SIZE ->
  page_magic (mbuf_page_seal p) = page_magic p /\ page_gen (mbuf_page_seal p) = page_gen p /\
  page_level (mbuf_page_seal p) = page_level p /\
  page_nentries (mbuf_page_seal p) = page_nentries p.
Proof.
  intros Hp. unfold page_magic, page_gen, page_level, page_nentries, field.
  by rewrite !seal_slice_before by done.
Qed.

(** A sealed page with the page magic validates. *)
Lemma seal_validates p :
  zlen p = INVFS_BLOCK_SIZE -> bytes_ok p -> page_magic p = PAGE_MAGIC ->
  mbuf_page_validate (mbuf_page_seal p) = true.
Proof.
  intros Hp Hb Hm. unfold mbuf_page_validate. destruct (seal_header p Hp) as (-> & _).
  rewrite bool_decide_eq_true_2 by done.
  by rewrite (seal_checksum p Hp Hb), (page_crc_seal p Hp), Z.eqb_refl.
Qed.

(** The empty page. *)
Lemma length_page_init level gen : zlen (mbuf_page_init level gen) = INVFS_BLOCK_SIZE.
Proof.
  unfold mbuf_page_init. rewrite !length_app, !length_le_bytes, length_zeros. done.
Qed.

Lemma page_init_ok level gen : bytes_ok (mbuf_page_init level gen).
Proof. unfold mbuf_page_init. rewrite !Forall_app. split_and!; auto with invfs. by apply bytes_okb_ok. Qed.

End Page.
