(* ===== verification/Ram.v ===== *)
(** * A plain memory as storage

    The smallest implementation of the storage interface of Dev.v: an array
    of blocks without faults, whose transfers stay within one block.  The
    examples of the files above run on it, and it shows that the laws of the
    interface can all hold at once. *)

From S2P Require Import Prelude Dev Alloc Page.

Module Ram.
Import Alloc Page.

Record ram := mkRam { ram_blocks : list bytes }.

(** The block that holds byte [a], and where in it. *)
Definition blk (a : Z) : nat := Z.to_nat (a / INVFS_BLOCK_SIZE).
Definition ofs (a : Z) : Z := a mod INVFS_BLOCK_SIZE.

Definition ram_range (d : ram) (off n : Z) : bool :=
  (0 <=? off) && (0 <=? n) && (ofs off + n <=? INVFS_BLOCK_SIZE) &&
  (off / INVFS_BLOCK_SIZE <? zlen (ram_blocks d)).

#[export] Instance ram_dev : Dev ram := {
  dev_pread off n d :=
    if ram_range d off n then (Some (slice (nth (blk off) (ram_blocks d) []) (ofs off) n), d)
    else (None, d);
  dev_pwrite off bs d :=
    if ram_range d off (zlen bs)
    then (Some tt, mkRam (<[blk off := put (nth (blk off) (ram_blocks d) []) (ofs off) bs]>
                            (ram_blocks d)))
    else (None, d);
  dev_barrier d := (BarOk, d);
  dev_degraded _ := false;
  dev_latched _ := false;
  dev_latch d := d
}.

Lemma slice_nthZ bs off n :
  0 <= off -> 0 <= n -> off + n <= zlen bs -> slice bs off n = map (nthZ bs) (seqZ off n).
Proof.
  intros Ho Hn Hl. apply list_eq. intros i. unfold slice. rewrite list_lookup_fmap.
  destruct (decide (i < Z.to_nat n)%nat) as [Hi|Hi].
  - rewrite lookup_take_lt, lookup_drop, lookup_seqZ_lt by lia. cbn.
    destruct (lookup_lt_is_Some_2 bs (Z.to_nat off + i)) as [x E]; [lia|]. rewrite E. f_equal.
    unfold nthZ. symmetry. apply nth_lookup_Some. rewrite <- E. f_equal. lia.
  - rewrite lookup_take_ge, lookup_seqZ_ge by lia. done.
Qed.

Lemma nthZ_put p off bs a :
  0 <= off -> off + zlen bs <= zlen p -> 0 <= a ->
  nthZ (put p off bs) a
  = if (off <=? a) && (a <? off + zlen bs) then nthZ bs (a - off) else nthZ p a.
Proof.
  intros Ho Hl Ha. unfold nthZ. rewrite nth_lookup. unfold put.
  destruct (Z.leb_spec off a); cbn [andb].
  - rewrite lookup_app_r by (rewrite length_take; lia). rewrite length_take.
    destruct (Z.ltb_spec a (off + zlen bs)).
    + rewrite lookup_app_l by lia. rewrite nth_lookup. f_equal. f_equal. lia.
    + rewrite lookup_app_r, lookup_drop, nth_lookup by lia. do 2 f_equal. lia.
  - rewrite lookup_app_l by (rewrite length_take; lia). rewrite lookup_take_lt by lia.
    by rewrite nth_lookup.
Qed.

Definition ram_view (d : ram) (a : Z) : Z :=
  if 0 <=? a then nthZ (nth (blk a) (ram_blocks d) []) (ofs a) else 0.
Definition ram_wf (d : ram) : Prop := Forall (fun b => zlen b = INVFS_BLOCK_SIZE) (ram_blocks d).

(** Bytes of one transfer share a block. *)
Lemma same_blk off n a :
  0 <= off -> ofs off + n <= INVFS_BLOCK_SIZE -> off <= a < off + n ->
  blk a = blk off /\ ofs a = ofs off + (a - off).
Proof.
  unfold blk, ofs. intros Ho Hn Ha.
  pose proof (Z.div_mod off INVFS_BLOCK_SIZE ltac:(done)) as E.
  pose proof (Z.mod_pos_bound off INVFS_BLOCK_SIZE ltac:(done)) as B.
  set (q := off / INVFS_BLOCK_SIZE) in *. set (m := off mod INVFS_BLOCK_SIZE) in *.
  assert (Hd : INVFS_BLOCK_SIZE * q + (m + (a - off)) = a) by lia.
  split; [f_equal; symmetry|symmetry].
  - apply (Z.div_unique a INVFS_BLOCK_SIZE q (m + (a - off))); lia.
  - apply (Z.mod_unique a INVFS_BLOCK_SIZE q (m + (a - off))); lia.
Qed.

Lemma nth_insert_eq {A} (l : list A) i x d : (i < length l)%nat -> nth i (<[i := x]> l) d = x.
Proof. intros. by rewrite nth_lookup, list_lookup_insert_eq. Qed.
Lemma nth_insert_ne {A} (l : list A) i j x d : i <> j -> nth j (<[i := x]> l) d = nth j l d.
Proof. intros. by rewrite !nth_lookup, list_lookup_insert_ne. Qed.

Lemma blk_length d b :
  ram_wf d -> (b < length (ram_blocks d))%nat -> zlen (nth b (ram_blocks d) []) = INVFS_BLOCK_SIZE.
Proof. intros Hw Hb. unfold ram_wf in Hw. rewrite Forall_nth in Hw. by apply Hw. Qed.

Lemma ram_range_blk d off n :
  ram_range d off n = true ->
  0 <= off /\ 0 <= n /\ ofs off + n <= INVFS_BLOCK_SIZE /\ 0 <= ofs off /\
  (blk off < length (ram_blocks d))%nat.
Proof.
  unfold ram_range, blk, ofs. intros H. zbool.
  pose proof (Z.mod_pos_bound off INVFS_BLOCK_SIZE ltac:(done)).
  pose proof (Z.div_pos off INVFS_BLOCK_SIZE ltac:(done) ltac:(done)). split_and!; lia.
Qed.

(** A byte of another block, or of the same block elsewhere, is not affected. *)
Lemma blk_ofs_ne off n a :
  0 <= off -> 0 <= a -> ~ (off <= a < off + n) ->
  blk a <> blk off \/ ~ (ofs off <= ofs a < ofs off + n).
Proof.
  unfold blk, ofs. intros Ho Ha Hn.
  pose proof (Z.div_mod off INVFS_BLOCK_SIZE ltac:(done)).
  pose proof (Z.div_mod a INVFS_BLOCK_SIZE ltac:(done)).
  pose proof (Z.div_pos off INVFS_BLOCK_SIZE ltac:(done) ltac:(done)).
  pose proof (Z.div_pos a INVFS_BLOCK_SIZE ltac:(done) ltac:(done)).
  destruct (decide (a / INVFS_BLOCK_SIZE = off / INVFS_BLOCK_SIZE)) as [E|E]; [|left; lia].
  right. rewrite E in *. lia.
Qed.

Lemma ram_range_ok d off n :
  0 <= off -> 0 <= n -> off + n <= (zlen (ram_blocks d) - 1) * INVFS_BLOCK_SIZE ->
  ofs off + n <= INVFS_BLOCK_SIZE -> ram_range d off n = true.
Proof.
  intros. unfold ram_range. rewrite !(proj2 (Z.leb_le _ _)) by lia. cbn [andb].
  apply Z.ltb_lt. apply Z.div_lt_upper_bound; [done|]. unfold INVFS_BLOCK_SIZE in *. lia.
Qed.

#[export] Program Instance ram_laws : DevLaws ram := {
  dview := ram_view;
  dwf := ram_wf;
  dok _ off n := ofs off + n <= INVFS_BLOCK_SIZE;
  dquiet := ram_wf;
  dcap d := (zlen (ram_blocks d) - 1) * INVFS_BLOCK_SIZE   (* the last block is a spare *)
}.
Next Obligation. done. Qed.
Next Obligation. done. Qed.
Next Obligation. done. Qed.
Next Obligation.
  cbn. intros off n d r d' Hw Ho Hn _ _ H. case_match eqn:E; injection H as <- <-; [|done].
  apply ram_range_blk in E as (_ & _ & Hr & Hp & Hb). split_and!; try done. intros bs [= <-].
  pose proof (blk_length d _ Hw Hb).
  rewrite slice_nthZ by lia. apply list_eq. intros i. rewrite !list_lookup_fmap.
  destruct (decide (Z.of_nat i < n)) as [Hi|Hi].
  - rewrite !lookup_seqZ_lt by lia. cbn. f_equal. unfold ram_view.
    rewrite (proj2 (Z.leb_le 0 _)) by lia.
    destruct (same_blk off n (off + Z.of_nat i)) as [-> ->]; try lia. f_equal. lia.
  - by rewrite !lookup_seqZ_ge by lia.
Qed.
Next Obligation.
  cbn. intros off bs d r d' Hw Ho _ _ H. case_match eqn:E; injection H as <- <-; [|done].
  apply ram_range_blk in E as (_ & _ & Hr & Hp & Hb). pose proof (blk_length d _ Hw Hb) as Hl.
  split_and!; try done.
  { unfold ram_wf. cbn [ram_blocks]. apply Forall_insert; [done|]. by rewrite length_put by lia. }
  intros _. unfold ram_view. cbn [ram_blocks]. split.
  - intros a Ha. destruct (Z.leb_spec 0 a); [|done].
    destruct (decide (blk a = blk off)) as [Eb|Eb].
    + rewrite Eb, nth_insert_eq by done.
      destruct (blk_ofs_ne off (zlen bs) a) as [|Hne]; [done..|].
      rewrite nthZ_put by (try lia; apply Z.mod_pos_bound; done).
      case_match eqn:E2; [zbool; lia|]. done.
    + by rewrite nth_insert_ne by congruence.
  - intros _ a Ha. rewrite (proj2 (Z.leb_le 0 a)) by lia.
    destruct (same_blk off (zlen bs) a) as [-> ->]; try lia.
    rewrite nth_insert_eq by done.
    rewrite nthZ_put by lia. rewrite (proj2 (Z.leb_le _ _)), (proj2 (Z.ltb_lt _ _)) by lia.
    cbn [andb]. f_equal. lia.
Qed.
Next Obligation. cbn. by intros d r d' ? _ [= <- <-]. Qed.
Next Obligation. done. Qed.
Next Obligation.
  cbn. intros off n d Hw Ho Hn Hc Hok. rewrite ram_range_ok by done. eauto.
Qed.
Next Obligation.
  cbn. intros off bs d Hw Ho Hc Hok. rewrite ram_range_ok by (done || lia).
  eexists. split; [done|]. cbn [ram_blocks]. rewrite length_insert. split; [|done].
  destruct (ram_range_blk d off (zlen bs)) as (_ & _ & Hr & Hp & Hb); [apply ram_range_ok; done || lia|].
  apply Forall_insert; [done|]. rewrite length_put; rewrite ?(blk_length d _ Hw Hb); lia.
Qed.
Next Obligation. cbn. intros d ?. eauto. Qed.
Next Obligation. done. Qed.
End Ram.
