(* ===== verification/Metabuf.v ===== *)
(** * Metadata pages and the root descriptor (vol_metabuf.c)

    Page I/O, the page allocator, the RT30 root descriptor and its
    double-slot publication; the page store keeps the promises of
    [PageStore]. *)

From S2P Require Import Prelude Crc32c Blkio Dev Ram Alloc Volume Anchor Page.

Module Metabuf.
Import Crc32c Alloc Volume Anchor Page.

Section metabuf.
Context {D X : Type} `{!Dev D}.

(** A volume that was opened always carries its bitmap.  Addresses are
    unsigned: [pba <= 0] is [pba == 0].
    Source: core/vol_metabuf.c [mbuf_page_allocated] *)
Definition mbuf_page_allocated (v : vol D X) (pba : Z) : bool :=
  if (pba <=? 0) || (total_blocks (vsb v) <=? pba) then false
  else bit_get (bitmap (v_a v)) pba.

(** Source: core/vol_metabuf.c [mbuf_page_size] *)
Definition mbuf_page_size (_ : vol D X) : Z := INVFS_PAGE_SIZE_DEFAULT.

(** Source: core/vol_metabuf.c [mbuf_read] *)
Definition mbuf_read (pba : Z) : M (vol D X) bytes :=
  let* v := mget in
  mguard (mbuf_page_size v =? INVFS_BLOCK_SIZE) ;;;
  mguard (negb ((pba =? 0) || (total_blocks (vsb v) <=? pba))) ;;;
  io_pread (pba * INVFS_BLOCK_SIZE) INVFS_BLOCK_SIZE.

(** Returns the sealed page: the C code seals the caller's buffer in place.
    Source: core/vol_metabuf.c [mbuf_write] *)
Definition mbuf_write (pba : Z) (page : bytes) : M (vol D X) bytes :=
  let* v := mget in
  mguard (mbuf_page_size v =? INVFS_BLOCK_SIZE) ;;;
  mguard (negb ((pba =? 0) || (total_blocks (vsb v) <=? pba))) ;;;
  let page := mbuf_page_seal page in
  io_pwrite (pba * INVFS_BLOCK_SIZE) page ;;;
  mret page.

(** Source: core/vol_metabuf.c [mbuf_read_ptr] *)
Definition mbuf_read_ptr (p : invfs_blkptr) : M (vol D X) bytes :=
  mguard (negb (bp_pba p =? 0)) ;;;
  let* v := mget in
  mguard (mbuf_page_allocated v (bp_pba p)) ;;;
  let* page := mbuf_read (bp_pba p) in
  mguard ((page_checksum page =? bp_checksum p) && (page_gen page =? bp_gen p)) ;;;
  mguard (mbuf_page_validate page) ;;;
  mret page.

(** Source: core/vol_metabuf.c [mbuf_verify_ptr] *)
Definition mbuf_verify_ptr (p : invfs_blkptr) : M (vol D X) unit :=
  let* _ := mbuf_read_ptr p in mret tt.

(** ** The page allocator *)

(** Source: core/vol_metabuf.c [mbuf_init] *)
Definition mbuf_init (v : vol D X) : vol D X :=
  let s := vsb v in
  let v := set_mb_alloc_fail_run 0 (set_mb_alloc_cursor (metadata_zone_start s)
             (set_mb_boot_end 0 (set_mb_boot_cursor 0 v))) in
  if rt_present v && negb (rt_page_size (rt v) =? INVFS_BLOCK_SIZE)
  then set_mb_alloc_cursor 0 v
  else if negb (meta_mapper_pba s =? 0) && negb (meta_mapper_blocks s =? 0) then
    let start := meta_mapper_pba s + meta_mapper_blocks s in
    set_mb_boot_end (start + INVFS_MBUF_BOOT_PAGES) (set_mb_boot_cursor start v)
  else v.

(** The wrapping scan of the metadata zone.
    Source: core/vol_metabuf.c:267-281 [mb_alloc_meta_zone] *)
Fixpoint mb_scan (k : nat) (b : bytes) (start end_ i : Z) : option Z :=
  match k with
  | O => None
  | S k =>
      if negb (bit_get b i) then Some i
      else mb_scan k b start end_ (if i + 1 <? end_ then i + 1 else start)
  end.

(** Mark block [i] of the metadata zone allocated.
    Source: core/vol_metabuf.c:269-275 [mb_alloc_meta_zone] *)
Definition mb_take (i : Z) (a : avol) : avol :=
  let a := set_bitmap (bit_set (bitmap a) i) a in
  let a := match meta_type_bitmap a with
           | Some t => set_meta_type_bitmap (Some (bit_set t i)) a
           | None => a
           end in
  let a := vol_bm_dirty i a in
  let a := set_free_blocks (u64 (free_blocks a - 1)) a in
  if meta_free_blocks a =? 0 then a
  else set_meta_free_blocks (meta_free_blocks a - 1) a.

(** Source: core/vol_metabuf.c [mb_alloc_meta_zone] *)
Definition mb_alloc_meta_zone : M (vol D X) Z :=
  let* v := mget in
  let s := vsb v in
  let start := metadata_zone_start s in
  let end_ := start + metadata_zone_blocks s in
  mguard (negb ((start =? 0) || (metadata_zone_blocks s =? 0))) ;;;
  mguard (start <? total_blocks s) ;;;
  let end_ := Z.min end_ (total_blocks s) in
  let cur := mb_alloc_cursor v in
  let i := if (cur <? start) || (end_ <=? cur) then start else cur in
  match mb_scan (Z.to_nat (end_ - start)) (bitmap (v_a v)) start end_ i with
  | Some i =>
      on_a (mb_take i) ;;;
      mmod (fun v => set_mb_alloc_fail_run 0
        (set_mb_alloc_cursor (if i + 1 <? end_ then i + 1 else start) v)) ;;;
      mret i
  | None => mmod (set_mb_alloc_fail_run 1) ;;; mfail
  end.

(** Source: core/vol_metabuf.c [mb_write_empty] *)
Definition mb_write_empty (pba gen : Z) : M (vol D X) unit :=
  let* _ := mbuf_write pba (mbuf_page_init INVFS_PAGE_LEVEL_LEAF gen) in mret tt.

(** Source: core/vol_metabuf.c [mbuf_alloc] *)
Definition mbuf_alloc (gen : Z) : M (vol D X) Z :=
  let* v := mget in
  mguard (negb (flag_set (vsb v) VOLF_READONLY)) ;;;
  mguard (negb (rt_present v && negb (rt_page_size (rt v) =? INVFS_BLOCK_SIZE))) ;;;
  if negb (mb_boot_cursor v =? 0) && (mb_boot_cursor v <? mb_boot_end v) then
    let pba := mb_boot_cursor v in
    mb_write_empty pba gen ;;;
    mmod (fun v => set_mb_boot_cursor (mb_boot_cursor v + 1) v) ;;;
    mret pba
  else
    let* r := mtry mb_alloc_meta_zone in
    let* pba :=
      match r with
      | Some pba => mret pba
      | None => on_alloc (alloc_blocks (shadow_zone_start (vsb v)) (shadow_zone_blocks (vsb v))
                            1 false AllocMeta)
      end in
    let* w := mtry (mb_write_empty pba gen) in
    match w with
    | Some _ => mret pba
    | None => on_a (vol_free_blocks pba 1) ;;; mfail
    end.

(** Source: core/vol_metabuf.c [mbuf_free] *)
Definition mbuf_free (pba : Z) : M (vol D X) unit :=
  if pba =? 0 then mret tt else
  on_a (vol_free_blocks pba 1) ;;;
  let* v := mget in
  let s := vsb v in
  if (metadata_zone_start s <=? pba) &&
     (pba <? metadata_zone_start s + metadata_zone_blocks s) &&
     negb (retain_release (v_a v)) then
    on_a (fun a => set_meta_free_blocks (meta_free_blocks a + 1) a) ;;;
    mmod (fun v =>
      let v := set_mb_alloc_fail_run 0 v in
      if (pba <? mb_alloc_cursor v) && negb (mb_alloc_cursor v =? 0)
      then set_mb_alloc_cursor pba v else v)
  else mret tt.

(** ** Candidates of the orphan collector *)

(** The membership bits, allocated on first use.
    Source: core/vol_btree.c [orph_set_ready] *)
Definition orph_set_ready (v : vol D X) : vol D X :=
  match o_inlist (orph v) with
  | Some _ => v
  | None => set_orph (set_o_inlist (Some (zeros ((total_blocks (vsb v) + 7) / 8))) (orph v)) v
  end.

(** Block addresses are unsigned.
    Source: core/vol_btree.c [orph_cand_add] *)
Definition orph_cand_add (pba : Z) (v : vol D X) : vol D X :=
  if (pba <=? 0) || (total_blocks (vsb v) <=? pba) then v else
  match o_inlist (orph v) with
  | None => v
  | Some m =>
      if bit_get m pba then v else
      let o := set_o_pba (o_pba (orph v) ++ [pba])
                 (set_o_inlist (Some (bit_set m pba)) (orph v)) in
      let o := if o_peak o <? zlen (o_pba o) then set_o_peak (zlen (o_pba o)) o else o in
      set_orph o v
  end.

(** Source: core/vol_btree.c [btree_orphan_note_alloc] *)
Definition btree_orphan_note_alloc (pba : Z) (v : vol D X) : vol D X :=
  if (pba <=? 0) || (total_blocks (vsb v) <=? pba) then v
  else orph_cand_add pba (orph_set_ready v).
End metabuf.

(** ** The root descriptor *)

Section root.
Context {D X : Type} `{!Dev D} (vol_delta_heal : M (vol D X) unit).

(** Result of loading the descriptor: the C codes -1, 0, 1, 2. *)
Inductive rt30_rc := RtIo | RtOk | RtAbsent | RtTorn.

(** Source: core/vol_metabuf.c [anchor_adopt_rt30] *)
Definition anchor_adopt_rt30 (a : invfs_anc0) (v : vol D X) : vol D X :=
  set_anchor_adopted true (set_rt_present true (set_rt (anc_rt a) v)).

Definition is_anchor_ok (st : anchor_st) : bool :=
  match st with AnchorOk => true | _ => false end.

(** Source: core/vol_metabuf.c [mbuf_rt30_load] *)
Definition mbuf_rt30_load : M (vol D X) rt30_rc :=
  mmod (fun v => set_rt rt_zero (set_rt_present false v)) ;;;
  let* r := mtry (io_pread INVFS_RT_OFF RT_LEN) in
  match r with
  | None => mret RtIo
  | Some bs =>
      let r := rt_parse bs in
      if rt_valid r then
        mmod (fun v => set_rt_present true (set_rt r v)) ;;; mret RtOk
      else
        let* v := mget in
        if is_anchor_ok (anchor_state v) && rt_valid (anc_rt (anchor v)) then
          mmod (anchor_adopt_rt30 (anchor v)) ;;; mret RtOk
        else mret (if bool_decide (rt_magic r = RT_MAGIC) then RtTorn else RtAbsent)
  end.

Definition set_rt_crc (c : Z) (r : invfs_rt) : invfs_rt :=
  mkRt (rt_magic r) (rt_version r) (rt_page_size r) (root_slot0 r) (root_slot1 r)
    (delta_pba r) (rt_seq r) c.

(** A failed refresh of the mirror does not fail the store.
    Source: core/vol_metabuf.c [mbuf_rt30_store] *)
Definition mbuf_rt30_store : M (vol D X) unit :=
  mmod (fun v => set_rt (set_rt_crc (rt_crc (rt v)) (rt v)) v) ;;;
  let* v := mget in
  io_pwrite INVFS_RT_OFF (rt_bytes (rt v)) ;;;
  let* _ := mtry (anchor_refresh vol_delta_heal) in
  mret tt.

Definition set_root_slot (slot pba : Z) (r : invfs_rt) : invfs_rt :=
  if slot =? 0
  then mkRt (rt_magic r) (rt_version r) (rt_page_size r) pba (root_slot1 r)
         (delta_pba r) (rt_seq r) (rt_crc32c r)
  else mkRt (rt_magic r) (rt_version r) (rt_page_size r) (root_slot0 r) pba
         (delta_pba r) (rt_seq r) (rt_crc32c r).
Definition set_rt_seq (q : Z) (r : invfs_rt) : invfs_rt :=
  mkRt (rt_magic r) (rt_version r) (rt_page_size r) (root_slot0 r) (root_slot1 r)
    (delta_pba r) q (rt_crc32c r).
Definition rt_fresh : invfs_rt :=
  mkRt RT_MAGIC INVFS_RT_VERSION INVFS_PAGE_SIZE_DEFAULT 0 0 0 0 0.

(** Source: core/vol_metabuf.c [mbuf_root_publish] *)
Definition mbuf_root_publish (root_pba root_gen : Z) : M (vol D X) unit :=
  mguard (negb (root_pba =? 0)) ;;;
  mmod (fun v => if rt_present v then v else set_rt_present true (set_rt rt_fresh v)) ;;;
  let* page := mbuf_read root_pba in
  mguard (mbuf_page_validate page && (page_gen page =? root_gen)) ;;;
  vol_bitmap_flush ;;;
  mmod (fun v =>
    let r := set_root_slot (Z.land (rt_seq (rt v)) 1) root_pba (rt v) in
    set_rt (set_rt_seq (u64 (rt_seq r + 1)) r) v) ;;;
  mbuf_rt30_store ;;;
  let* b := vol_barrier in
  mguard (match b with BarFail => false | _ => true end).

Definition root_slot (r : invfs_rt) (i : Z) : Z :=
  if i =? 0 then root_slot0 r else root_slot1 r.

(** One slot of the scan; [best] is the root found so far.
    Source: core/vol_metabuf.c:516-551 [mbuf_root_read] *)
Definition root_slot_step (i : Z) (best : option (Z * Z)) : M (vol D X) (option (Z * Z)) :=
  let* v := mget in
  let pba := root_slot (rt v) i in
  if pba =? 0 then mret best
  else if negb (mbuf_page_allocated v pba) then mret best
  else
    let* r := mtry (mbuf_read pba) in
    match r with
    | None => mret best
    | Some page =>
        if negb (mbuf_page_validate page) then mret best
        else
          let gen := page_gen page in
          match best with
          | None => mret (Some (pba, gen))
          | Some (_, best_gen) =>
              if (best_gen <? gen) ||
                 ((gen =? best_gen) && (i =? Z.land (rt_seq (rt v)) 1))
              then mret (Some (pba, gen)) else mret best
          end
    end.

(** [Some None] is the empty base (1 in C), failure is -1.
    Source: core/vol_metabuf.c [mbuf_root_read] *)
Definition mbuf_root_read : M (vol D X) (option (Z * Z)) :=
  let* v := mget in
  let* rc := (if rt_present v then mret RtOk else mbuf_rt30_load) in
  match rc with
  | RtIo | RtTorn => mfail
  | RtAbsent => mret None
  | RtOk =>
      let* best := root_slot_step 0 None in
      let* best := root_slot_step 1 best in
      let* v := mget in
      match best with
      | Some r => mret (Some r)
      | None =>
          let named := negb (root_slot0 (rt v) =? 0) || negb (root_slot1 (rt v) =? 0) in
          if named then mfail else mret None
      end
  end.
End root.

(** ** The page store *)

Section store.
Context {D X : Type} `{!Dev D, !DevLaws D}.
Implicit Types v : vol D X.

Definition page_at v (p : Z) : bytes := vrange v (p * INVFS_BLOCK_SIZE) INVFS_BLOCK_SIZE.
Definition blk_ok v (p : Z) : Prop := dok (v_dev v) (p * INVFS_BLOCK_SIZE) INVFS_BLOCK_SIZE.
Definition bitv v (p : Z) : bool := bit_get (bitmap (v_a v)) p.
Definition bm_area v (p : Z) : Prop :=
  metadata_zone_start (vsb v) <= p < metadata_zone_start (vsb v) + bitmap_blocks (v_a v).

(** Blocks with a fixed role: block 0, the bitmap, the anchor. *)
Definition reserved v (p : Z) : Prop := p <= 0 \/ bm_area v p \/ p = anchor_pba (vsb v).
(** Pages the bootstrap cursor still has to hand out. *)
Definition boot v (p : Z) : Prop :=
  mb_boot_cursor v <> 0 /\ mb_boot_cursor v <= p < mb_boot_end v.

Record mb_wf v : Prop := {
  mw_dwf : dwf (v_dev v);
  mw_size : 2 <= total_blocks (vsb v) < 2 ^ 52;
  mw_bits : total_blocks (vsb v) <= 8 * zlen (bitmap (v_a v));
  mw_meta : 0 < metadata_zone_start (vsb v) /\ 0 <= metadata_zone_blocks (vsb v) /\
    metadata_zone_start (vsb v) + metadata_zone_blocks (vsb v) <= anchor_pba (vsb v);
  mw_bm : 0 <= bitmap_blocks (v_a v) <= metadata_zone_blocks (vsb v);
  mw_shadow : 0 < shadow_zone_start (vsb v) /\ 0 <= shadow_zone_blocks (vsb v) /\
    shadow_zone_start (vsb v) + shadow_zone_blocks (vsb v) <= total_blocks (vsb v);
  mw_area : forall p, bm_area v p -> bitv v p = true;
  mw_clear : forall p, 0 < p < total_blocks (vsb v) -> bitv v p = false -> blk_ok v p;
  mw_boot : forall p, boot v p ->
    p < total_blocks (vsb v) /\ bitv v p = true /\ blk_ok v p /\ ~ reserved v p
}.

Definition live v (p : Z) : Prop :=
  p < total_blocks (vsb v) /\ bitv v p = true /\ blk_ok v p /\ ~ reserved v p /\ ~ boot v p.

(** The same volume, up to latch flags and allocation state. *)
Definition geo v v' : Prop :=
  (exists f, vsb v' = set_vol_flags f (vsb v)) /\
  bitmap_blocks (v_a v') = bitmap_blocks (v_a v) /\
  length (bitmap (v_a v')) = length (bitmap (v_a v)) /\
  (forall o m, dok (v_dev v') o m <-> dok (v_dev v) o m) /\
  mb_boot_end v' = mb_boot_end v.

Lemma geo_refl v : geo v v.
Proof. split_and!; try done. eexists. apply sb_same_flags. Qed.

Lemma geo_trans v1 v2 v3 : geo v1 v2 -> geo v2 v3 -> geo v1 v3.
Proof.
  intros ((f & E1) & ? & ? & O1 & ?) ((g & E2) & ? & ? & O2 & ?).
  split_and!; try congruence; [exists g; by rewrite E2, E1|].
  intros. by rewrite O2.
Qed.

Lemma geo_vdev v v' : vdev v v' -> geo v v'.
Proof.
  intros (E & _ & O). rewrite E in *. split_and!; try done.
  exists (vol_flags (vsb v)). apply sb_same_flags.
Qed.

Lemma vgeo_facts v v' : geo v v' ->
  total_blocks (vsb v') = total_blocks (vsb v) /\
  (forall p, reserved v' p <-> reserved v p) /\ (forall p, bm_area v' p <-> bm_area v p) /\
  (forall p, blk_ok v' p <-> blk_ok v p).
Proof.
  intros ((f & E) & Eb & _ & O & _). split_and!.
  - by rewrite E.
  - intros p. unfold reserved, bm_area. by rewrite E, Eb.
  - intros p. unfold bm_area. by rewrite E, Eb.
  - intros p. apply O.
Qed.

Lemma anchor_last v : mb_wf v -> anchor_pba (vsb v) = total_blocks (vsb v) - 1.
Proof.
  intros Hw. pose proof (mw_size v Hw). unfold anchor_pba.
  rewrite (proj2 (Z.eqb_neq _ _)), (proj2 (Z.ltb_ge _ _)) by lia. done.
Qed.

(** A step keeps the store well formed if the bits it clears are those of
    pages that are neither reserved nor waiting in the bootstrap. *)
Lemma mb_wf_step v v' :
  mb_wf v -> geo v v' -> dwf (v_dev v') ->
  (forall p, boot v' p -> boot v p) ->
  (forall p, 0 < p < total_blocks (vsb v) -> bitv v' p = false ->
     bitv v p = false \/ (blk_ok v p /\ ~ reserved v p /\ ~ boot v p)) ->
  mb_wf v'.
Proof.
  intros Hw Hg Hd Hb Hc. destruct (vgeo_facts _ _ Hg) as (Et & Er & Ea & Eo).
  pose proof Hg as ((f & E) & Eb & El & _ & _).
  pose proof (anchor_last v Hw) as Hanc. destruct Hw as [_ Hsz Hbi Hm Hbm Hs Har Hcl Hbo].
  constructor; try done; try (rewrite ?E, ?Eb; done).
  - rewrite Et, El. done.
  - intros p Hp. apply Ea in Hp. destruct (bitv v' p) eqn:Ebit; [done|].
    pose proof (Har p Hp) as Hset.
    destruct (Hc p) as [?|(_ & Hnr & _)]; [unfold bm_area in Hp; lia|done|congruence|].
    destruct Hnr. right. by left.
  - intros p Hp Ebit. rewrite Et in Hp. apply Eo.
    destruct (Hc p) as [?|(? & _)]; [lia|done| |done]. by apply Hcl.
  - intros p Hp. apply Hb in Hp. destruct (Hbo p Hp) as (? & Hset & ? & ?).
    rewrite Et, Er, Eo. split_and!; try done. destruct (bitv v' p) eqn:Ebit; [done|].
    destruct (Hc p) as [?|(_ & _ & Hnb)]; [|done|congruence|done].
    unfold reserved in *. lia.
Qed.

(** *** Page access *)

Lemma mguard_run {S A} (b : bool) (k : M S A) s r s' :
  (mguard b ;;; k) s = (r, s') -> (b = true /\ k s = (r, s')) \/ (b = false /\ r = None /\ s' = s).
Proof. destruct b; [by left|]. intros [= <- <-]. by right. Qed.

Lemma mbuf_read_run p v r v' :
  mbuf_read p v = (r, v') ->
  (r = None /\ v' = v) \/
  (p <> 0 /\ p < total_blocks (vsb v) /\
   io_pread (p * INVFS_BLOCK_SIZE) INVFS_BLOCK_SIZE v = (r, v')).
Proof.
  unfold mbuf_read. rewrite (mbind_eq _ _ _ v v) by done.
  intros H. apply mguard_run in H as [[_ H]|(_ & -> & ->)]; [|by left].
  apply mguard_run in H as [[Hg H]|(_ & -> & ->)]; [|by left]. right. zbool. done.
Qed.

Lemma mbuf_write_run p pg v r v' :
  mbuf_write p pg v = (r, v') ->
  (r = None /\ v' = v) \/
  (exists r0, p <> 0 /\ p < total_blocks (vsb v) /\
   io_pwrite (p * INVFS_BLOCK_SIZE) (mbuf_page_seal pg) v = (r0, v') /\
   r = match r0 with Some _ => Some (mbuf_page_seal pg) | None => None end).
Proof.
  unfold mbuf_write. rewrite (mbind_eq _ _ _ v v) by done.
  intros H. apply mguard_run in H as [[_ H]|(_ & -> & ->)]; [|by left].
  apply mguard_run in H as [[Hg H]|(_ & -> & ->)]; [|by left]. right. zbool.
  cbv zeta in H. apply mbind_run in H as [([] & s1 & E & H)|[E ->]].
  - exists (Some tt). injection H as <- <-. done.
  - by exists None.
Qed.

Lemma latched_mbuf_read p v r v' :
  mbuf_read p v = (r, v') -> latched v' = false -> latched v = false.
Proof. intros [[_ ->]|(_ & _ & H)]%mbuf_read_run; [done|]. by eapply latched_pread. Qed.

Lemma latched_mbuf_write p pg v r v' :
  mbuf_write p pg v = (r, v') -> latched v' = false -> latched v = false.
Proof. intros [[_ ->]|(r0 & _ & _ & H & _)]%mbuf_write_run; [done|]. by eapply latched_pwrite. Qed.

Lemma mbuf_read_spec p v r v' :
  dwf (v_dev v) -> latched v = false -> 0 <= p -> blk_ok v p -> mbuf_read p v = (r, v') ->
  vsame v v' /\ forall pg, r = Some pg -> pg = page_at v p.
Proof.
  intros Hw Hl Hp Hok [[-> ->]|(_ & _ & H)]%mbuf_read_run.
  - split; [by apply vsame_refl|done].
  - apply io_pread_spec in H; try done. unfold INVFS_BLOCK_SIZE; lia.
Qed.

Lemma page_at_frame v v' p q :
  q <> p ->
  (forall a, ~ (p * INVFS_BLOCK_SIZE <= a < p * INVFS_BLOCK_SIZE + INVFS_BLOCK_SIZE) ->
     view v' a = view v a) ->
  page_at v' q = page_at v q.
Proof.
  intros Hne H. apply vrange_ext. intros a Ha. apply H.
  unfold INVFS_BLOCK_SIZE in *. lia.
Qed.

Lemma mbuf_write_spec p pg v r v' :
  dwf (v_dev v) -> latched v' = false -> 0 <= p -> blk_ok v p ->
  zlen pg = INVFS_BLOCK_SIZE -> mbuf_write p pg v = (r, v') ->
  vdev v v' /\ latched v = false /\
  (forall a, ~ (p * INVFS_BLOCK_SIZE <= a < p * INVFS_BLOCK_SIZE + INVFS_BLOCK_SIZE) ->
     view v' a = view v a) /\
  (forall s, r = Some s -> s = mbuf_page_seal pg /\ page_at v' p = s).
Proof.
  intros Hw Hl Hp Hok Hlen H. pose proof (latched_mbuf_write _ _ _ _ _ H Hl) as L.
  apply mbuf_write_run in H as [[-> ->]|(r0 & _ & _ & H & ->)].
  - split_and!; try done. by apply vdev_refl.
  - pose proof (length_seal _ Hlen) as Hls.
    apply io_pwrite_spec in H as [Hd Hv]; try done;
      [|unfold INVFS_BLOCK_SIZE; lia|by rewrite Hls].
    destruct (Hv Hl) as [F I]. rewrite Hls in F, I. split_and!; try done.
    destruct r0 as [[]|]; [|done]. intros s [= <-]. split; [done|]. by apply I.
Qed.
(** *** Allocation *)

(** Block [p] was clear and is now allocated; nothing else changed. *)
Definition takes v (p : Z) v' : Prop :=
  geo v v' /\ v_dev v' = v_dev v /\ mb_boot_cursor v' = mb_boot_cursor v /\
  0 < p < total_blocks (vsb v) /\ bitv v p = false /\ ~ reserved v p /\
  (forall q, 0 <= q -> bitv v' q = (q =? p) || bitv v q).

(** No page changed hands. *)
Definition idles v v' : Prop :=
  geo v v' /\ v_dev v' = v_dev v /\ mb_boot_cursor v' = mb_boot_cursor v /\
  (forall q, 0 <= q -> bitv v' q = bitv v q).

Lemma idles_refl v : idles v v.
Proof. split_and!; auto using geo_refl. Qed.

Lemma mb_scan_sound k b start end_ i p :
  start <= i < end_ -> mb_scan k b start end_ i = Some p ->
  start <= p < end_ /\ bit_get b p = false.
Proof.
  revert i. induction k as [|k IH]; intros i Hi; [done|]. cbn [mb_scan].
  destruct (bit_get b i) eqn:E; cbn [negb]; [|intros [= <-]; auto].
  apply IH. destruct (_ <? _) eqn:El; zbool; lia.
Qed.

Lemma mb_take_facts p a :
  acfg (mb_take p a) = acfg a /\ bitmap (mb_take p a) = bit_set (bitmap a) p.
Proof.
  unfold mb_take. match goal with |- context [vol_bm_dirty p ?x] => set (a1 := x) end.
  assert (acfg a1 = acfg a /\ bitmap a1 = bit_set (bitmap a) p) as [Ec Eb].
  { unfold a1. simpl. by destruct (meta_type_bitmap a). }
  destruct (acore_fields _ _ (bm_dirty_core p a1)) as (Ec2 & _ & _ & Eb2 & _).
  rewrite <- Ec, <- Eb, <- Ec2, <- Eb2. clearbody a1. cbv zeta. by destruct (_ =? 0).
Qed.

Lemma meta_zone_run v r v' :
  mb_wf v -> mb_alloc_meta_zone v = (r, v') ->
  match r with Some p => takes v p v' | None => idles v v' end.
Proof.
  intros Hw H. destruct (mw_meta v Hw) as (? & ? & ?). pose proof (anchor_last v Hw).
  unfold mb_alloc_meta_zone in H. rewrite (mbind_eq _ _ _ v v) in H by done. cbv zeta in H.
  apply mguard_run in H as [[_ H]|(_ & -> & ->)]; [|apply idles_refl].
  apply mguard_run in H as [[Hlt H]|(_ & -> & ->)]; [|apply idles_refl]. zbool.
  rewrite Z.min_l in H by lia. destruct (mb_scan _ _ _ _ _) as [p|] eqn:E.
  2: { injection H as <- <-. exact (idles_refl v). }
  unfold mbind', on_a, mmod, mret in H. injection H as <- <-.
  destruct (decide (metadata_zone_blocks (vsb v) = 0)) as [Ez|Ez].
  { rewrite Ez, Z.add_0_r, Z.sub_diag in E. done. }
  apply mb_scan_sound in E as [Hp Hbit]; [|destruct (_ || _) eqn:Eo; zbool; lia].
  pose proof (mb_take_facts p (v_a v)) as Ef.
  destruct Ef as [Ec Eb]. destruct (acfg_fields _ _ Ec) as [Es _].
  destruct (acfg_blocks _ _ Ec) as [En _]. pose proof (mw_bits v Hw).
  generalize dependent (mb_take p (v_a v)). intros a Ec Eb Es En.
  unfold takes, geo, bitv, vsb. simpl. rewrite Es, En, Eb, length_bit_set.
  unfold vsb in *. split_and!; try done; try lia.
  - exists (vol_flags (sb (v_a v))). apply sb_same_flags.
  - intros [?|[Ha|?]]; unfold vsb in *; [lia| |lia].
    pose proof (mw_area v Hw p Ha) as Hset. unfold bitv in Hset. congruence.
  - intros q Hq. apply bit_get_set; lia.
Qed.

Lemma shadow_pool_run v r v' :
  mb_wf v ->
  on_alloc (alloc_blocks (shadow_zone_start (vsb v)) (shadow_zone_blocks (vsb v)) 1 false AllocMeta)
    v = (r, v') ->
  match r with Some p => takes v p v' | None => idles v v' end.
Proof.
  intros Hw. unfold on_alloc. destruct (alloc_blocks _ _ _ _ _ _) as [r0 a] eqn:E.
  intros [= <- <-]. destruct (mw_shadow v Hw) as (? & ? & ?). pose proof (mw_bits v Hw).
  apply alloc_blocks_run in E as [(st & la & Esc & _ & -> & ->)|[-> Hq]].
  - destruct (decide (shadow_zone_blocks (vsb v) = 0)) as [Ez|Ez].
    { rewrite Ez in Esc. done. }
    apply scan_sound in Esc as (? & ? & Hn & Hu); try lia; [|..|by left].
    2: { pose proof (scan_from_in (v_a v) (shadow_zone_start (vsb v)) (shadow_zone_blocks (vsb v))).
         lia. }
    assert (la = st) as -> by lia. destruct (Hu st ltac:(lia)) as [Hbit Hanc].
    destruct (take_run_facts (zone_of (v_a v) (shadow_zone_start (vsb v)))
      (shadow_zone_start (vsb v)) (shadow_zone_start (vsb v) + shadow_zone_blocks (vsb v))
      1 AllocMeta st st (v_a v) Hn) as (Ec & Eb & _). cbv zeta in *.
    destruct (acfg_fields _ _ Ec) as [Es _]. destruct (acfg_blocks _ _ Ec) as [En _].
    change (set_run _ st 1) with (bit_set (bitmap (v_a v)) st) in Eb.
    generalize dependent (take_run (zone_of (v_a v) (shadow_zone_start (vsb v)))
      (shadow_zone_start (vsb v)) (shadow_zone_start (vsb v) + shadow_zone_blocks (vsb v))
      1 AllocMeta st st (v_a v)). intros a Ec Eb Es En.
    unfold takes, geo, bitv, vsb. simpl. rewrite Es, En, Eb, length_bit_set.
    split_and!; try done; try (unfold vsb in *; lia).
    + exists (vol_flags (sb (v_a v))). apply sb_same_flags.
    + intros [?|[Ha|Hp]]; [lia| |].
      * pose proof (mw_area v Hw st Ha) as Hset. unfold bitv in Hset. congruence.
      * unfold anchor_block_protected in Hanc. pose proof (mw_size v Hw).
        rewrite (proj2 (Z.eqb_neq _ _)) in Hanc by (unfold vsb in *; lia).
        unfold vsb in Hp. rewrite <- Hp, Z.eqb_refl in Hanc. done.
    + intros q Hq. unfold vsb in *. apply bit_get_set; lia.
  - destruct Hq as ((f & Es) & _ & Eb & _ & _ & _ & En & _).
    unfold idles, geo, bitv, vsb. simpl. rewrite En, Eb. split_and!; try done. by exists f.
Qed.
Lemma idles_wf v v' : mb_wf v -> idles v v' -> mb_wf v'.
Proof.
  intros Hw (Hg & Ed & Ec & Eb). pose proof Hg as (_ & _ & _ & _ & Ee).
  apply (mb_wf_step v); try done; [rewrite Ed; apply (mw_dwf v Hw)|..].
  - unfold boot. by rewrite Ec, Ee.
  - intros p Hp Hbit. left. by rewrite <- Eb by lia.
Qed.

Lemma takes_wf v p v' : mb_wf v -> takes v p v' -> mb_wf v'.
Proof.
  intros Hw (Hg & Ed & Ec & _ & _ & _ & Eb). pose proof Hg as (_ & _ & _ & _ & Ee).
  apply (mb_wf_step v); try done; [rewrite Ed; apply (mw_dwf v Hw)|..].
  - unfold boot. by rewrite Ec, Ee.
  - intros q Hq Hbit. left. rewrite Eb in Hbit by lia. by destruct (_ =? _).
Qed.

Lemma idles_takes v v1 p v' : idles v v1 -> takes v1 p v' -> takes v p v'.
Proof.
  intros (Hg & Ed & Ec & Eb) (Hg1 & Ed1 & Ec1 & Hp & Hbit & Hr & Eb1).
  destruct (vgeo_facts _ _ Hg) as (Et & Er & _). rewrite Et in Hp.
  split_and!; [by eapply geo_trans|congruence|congruence|lia|lia|..].
  - by rewrite <- Eb by lia.
  - by rewrite <- Er.
  - intros q Hq. by rewrite Eb1, Eb.
Qed.

Lemma idles_trans v v1 v' : idles v v1 -> idles v1 v' -> idles v v'.
Proof.
  intros (Hg & Ed & Ec & Eb) (Hg1 & Ed1 & Ec1 & Eb1).
  split_and!; [by eapply geo_trans|congruence..|]. intros q Hq. by rewrite Eb1, Eb.
Qed.

(** The page allocator's outcomes. *)
Lemma mbuf_alloc_run gen v r v' :
  mb_wf v -> mbuf_alloc gen v = (r, v') ->
  (r = None /\ idles v v') \/
  (exists v1 w, boot v (mb_boot_cursor v) /\ mb_write_empty (mb_boot_cursor v) gen v = (w, v1) /\
     ((w = None /\ r = None /\ v' = v1) \/
      (w = Some tt /\ r = Some (mb_boot_cursor v) /\
       v' = set_mb_boot_cursor (mb_boot_cursor v1 + 1) v1))) \/
  (exists p v1 v2 w, takes v p v1 /\ mb_write_empty p gen v1 = (w, v2) /\
     ((w = None /\ r = None /\ v' = set_v_a (vol_free_blocks p 1 (v_a v2)) v2) \/
      (w = Some tt /\ r = Some p /\ v' = v2))).
Proof.
  intros Hw H. unfold mbuf_alloc in H. rewrite (mbind_eq _ _ _ v v) in H by done.
  apply mguard_run in H as [[_ H]|(_ & -> & ->)]; [|left; split; [done|apply idles_refl]].
  apply mguard_run in H as [[_ H]|(_ & -> & ->)]; [|left; split; [done|apply idles_refl]].
  destruct (negb _ && _) eqn:Eb; zbool.
  { right; left. cbv zeta in H. destruct (mb_write_empty _ gen v) as [w v1] eqn:E.
    exists v1, w. split; [by repeat split|]. split; [done|].
    unfold mbind' at 1 in H. rewrite E in H.
    destruct w as [[]|]; injection H as <- <-; [by right|by left]. }
  unfold mbind' at 1, mtry at 1 in H. destruct (mb_alloc_meta_zone v) as [r1 v1] eqn:E1.
  apply meta_zone_run in E1; [|done].
  unfold mbind' at 1 in H.
  assert (Hp : exists r2 v2,
    match r1 with
    | Some pba => mret pba
    | None => on_alloc (alloc_blocks (shadow_zone_start (vsb v)) (shadow_zone_blocks (vsb v))
                          1 false AllocMeta)
    end v1 = (r2, v2) /\
    match r2 with Some p => takes v p v2 | None => idles v v2 end).
  { destruct r1 as [p|]; [by exists (Some p), v1|].
    destruct (on_alloc _ v1) as [r2 v2] eqn:E2. exists r2, v2. split; [done|].
    pose proof E1 as (((f & Es) & _) & _).
    replace (shadow_zone_start (vsb v)) with (shadow_zone_start (vsb v1)) in E2 by (by rewrite Es).
    replace (shadow_zone_blocks (vsb v)) with (shadow_zone_blocks (vsb v1)) in E2 by (by rewrite Es).
    apply shadow_pool_run in E2; [|by eapply idles_wf].
    destruct r2; [by eapply idles_takes|by eapply idles_trans]. }
  destruct Hp as (r2 & v2 & E2 & Hp). rewrite E2 in H. destruct r2 as [p|].
  2: { injection H as <- <-. by left. }
  right; right. unfold mbind' at 1, mtry in H.
  destruct (mb_write_empty p gen v2) as [w v3] eqn:E3. exists p, v2, v3, w.
  split; [done|]. split; [done|]. destruct w as [[]|]; injection H as <- <-; [by right|by left].
Qed.
Lemma mb_write_empty_run p gen v w v' :
  mb_write_empty p gen v = (w, v') ->
  exists r, mbuf_write p (mbuf_page_init INVFS_PAGE_LEVEL_LEAF gen) v = (r, v') /\
    w = match r with Some _ => Some tt | None => None end.
Proof.
  unfold mb_write_empty, mbind'. destruct (mbuf_write _ _ v) as [[]v1].
  - intros [= <- <-]. by eexists.
  - intros [= <- <-]. by eexists.
Qed.

Lemma latched_write_empty p gen v w v' :
  mb_write_empty p gen v = (w, v') -> latched v' = false -> latched v = false.
Proof. intros (r & H & _)%mb_write_empty_run. by eapply latched_mbuf_write. Qed.

(** Ownership of pages other than those a step names is kept. *)
Lemma live_step v v' q :
  geo v v' -> (boot v' q -> boot v q) -> (bitv v q = true -> bitv v' q = true) ->
  live v q -> live v' q.
Proof.
  intros Hg Hb Hbit (? & ? & ? & ? & ?). destruct (vgeo_facts _ _ Hg) as (Et & Er & _ & Eo).
  unfold live. rewrite Et, Er, Eo. split_and!; auto.
Qed.

Lemma vdev_step v v' : mb_wf v -> vdev v v' ->
  mb_wf v' /\ (forall q, live v' q <-> live v q).
Proof.
  intros Hw Hd. pose proof (geo_vdev _ _ Hd) as Hg.
  assert (Ha : v_a v' = v_a v) by (by destruct Hd as [-> _]).
  assert (Hb : forall p, boot v' p <-> boot v p) by (destruct Hd as [-> _]; done).
  split.
  - apply (mb_wf_step v); try done; [by destruct Hd as (_ & ? & _)|intros p; apply Hb|].
    intros p _ ?. left. unfold bitv in *. by rewrite <- Ha.
  - intros q. destruct (vgeo_facts _ _ Hg) as (Et & Er & _ & Eo).
    unfold live, bitv. by rewrite Et, Er, Eo, Hb, Ha.
Qed.

Lemma meta_zone_dev v r v' : mb_alloc_meta_zone v = (r, v') -> v_dev v' = v_dev v.
Proof.
  unfold mb_alloc_meta_zone. rewrite (mbind_eq _ _ _ v v) by done. cbv zeta. intros H.
  apply mguard_run in H as [[_ H]|(_ & -> & ->)]; [|done].
  apply mguard_run in H as [[_ H]|(_ & -> & ->)]; [|done].
  by destruct (mb_scan _ _ _ _ _); injection H as <- <-.
Qed.

Lemma latched_mbuf_alloc gen v r v' :
  mbuf_alloc gen v = (r, v') -> latched v' = false -> latched v = false.
Proof.
  intros H Hl. unfold mbuf_alloc in H. rewrite (mbind_eq _ _ _ v v) in H by done.
  apply mguard_run in H as [[_ H]|(_ & -> & ->)]; [|done].
  apply mguard_run in H as [[_ H]|(_ & -> & ->)]; [|done].
  destruct (negb _ && _).
  { cbv zeta in H. apply mbind_run in H as [([] & v1 & E & H)|[E _]];
      eapply latched_write_empty; try done. by injection H as _ <-. }
  apply mbind_run in H as [(r1 & v1 & E1 & H)|[E _]]; [|unfold mtry in E; by destruct (mb_alloc_meta_zone v)].
  unfold mtry in E1. destruct (mb_alloc_meta_zone v) as [r0 v0] eqn:E0. injection E1 as <- <-.
  apply meta_zone_dev in E0. unfold latched. rewrite <- E0. change (latched v0 = false).
  assert (Hp : forall r2 v2, match r0 with
    | Some pba => mret pba
    | None => on_alloc (alloc_blocks (shadow_zone_start (vsb v)) (shadow_zone_blocks (vsb v))
                          1 false AllocMeta)
    end v0 = (r2, v2) -> latched v2 = latched v0).
  { destruct r0; [by intros ? ? [= <- <-]|]. unfold on_alloc. intros r2 v2.
    destruct (alloc_blocks _ _ _ _ _ _). by intros [= <- <-]. }
  apply mbind_run in H as [(p & v2 & E2 & H)|[E2 _]]; apply Hp in E2 as <-; [|done].
  unfold mbind' at 1, mtry in H. destruct (mb_write_empty p gen v2) as [w v3] eqn:E3.
  eapply latched_write_empty; [done|]. destruct w; by injection H as <- <-.
Qed.

Lemma write_empty_spec p gen v w v' :
  mb_wf v -> latched v' = false -> 0 < p -> blk_ok v p -> mb_write_empty p gen v = (w, v') ->
  vdev v v' /\ forall q, q <> p -> page_at v' q = page_at v q.
Proof.
  intros Hw Hl Hp Hok (r & E & _)%mb_write_empty_run.
  apply mbuf_write_spec in E as (Hd & _ & F & _);
    [|apply (mw_dwf v Hw)|done|lia|done|apply length_page_init].
  split; [done|]. intros q Hq. by eapply page_at_frame.
Qed.

(** The bootstrap hands out its next page. *)
Lemma boot_advance v v' :
  mb_wf v -> boot v (mb_boot_cursor v) -> v' = set_mb_boot_cursor (mb_boot_cursor v + 1) v ->
  mb_wf v' /\ (forall q, live v q -> live v' q) /\ live v' (mb_boot_cursor v).
Proof.
  intros Hw Hb ->. set (v' := set_mb_boot_cursor _ v).
  assert (Hg : geo v v').
  { split_and!; try done. exists (vol_flags (vsb v)). exact (sb_same_flags (v_a v)). }
  assert (Hbb : forall q, boot v' q -> boot v q /\ q <> mb_boot_cursor v).
  { intros q [Hn Hr]. unfold v' in Hr; simpl in Hr. destruct Hb. split; [split|]; lia. }
  split_and!.
  - apply (mb_wf_step v); try done; [apply (mw_dwf v Hw)|intros q Hq; by apply Hbb|].
    intros q _ ?. by left.
  - intros q. apply live_step; try done. intros Hq. by apply Hbb.
  - destruct (mw_boot v Hw _ Hb) as (? & ? & ? & ?). split_and!; try done.
    intros Hq. by apply Hbb in Hq as [_ ?].
Qed.

(** A clear block is taken. *)
Lemma takes_live v p v' :
  mb_wf v -> takes v p v' ->
  (forall q, live v q -> live v' q) /\ ~ live v p /\ live v' p /\ blk_ok v' p.
Proof.
  intros Hw (Hg & Ed & Ec & Hp & Hbit & Hr & Eb). destruct (vgeo_facts _ _ Hg) as (Et & Er & _ & Eo).
  assert (Hbo : forall q, boot v' q <-> boot v q).
  { intros q. unfold boot. destruct Hg as (_ & _ & _ & _ & ->). by rewrite Ec. }
  assert (Hok : blk_ok v p) by (by apply (mw_clear v Hw)).
  split_and!.
  - intros q Hq. apply (live_step v); try done; [by apply Hbo|].
    destruct Hq as (_ & _ & _ & Hnr & _). unfold reserved in Hnr. rewrite Eb by lia.
    intros ->. apply orb_true_r.
  - intros (_ & ? & _). congruence.
  - unfold live. rewrite Et, Er, Eo, Hbo, Eb, Z.eqb_refl by lia. split_and!; try done; [lia|].
    intros Hq. destruct (mw_boot v Hw p Hq) as (_ & ? & _). congruence.
  - by apply Eo.
Qed.

(** A page that is not owned elsewhere is given back. *)
Lemma free_step v p :
  mb_wf v -> live v p ->
  let v' := set_v_a (vol_free_blocks p 1 (v_a v)) v in
  mb_wf v' /\ (forall q, live v' q -> live v q) /\ (forall q, q <> p -> live v q -> live v' q).
Proof.
  intros Hw (Hp & Hbit & Hok & Hnr & Hnb) v'.
  assert (0 < p) by (unfold reserved in Hnr; lia). pose proof (mw_bits v Hw).
  destruct (free_one p (v_a v)) as ((f & Es) & En & Eb); [unfold vsb in *; lia|].
  cbv zeta in *. fold (vsb v) in Es.
  assert (Eg : forall q, 0 <= q -> bitv v' q = true -> bitv v q = true).
  { intros q Hq. unfold v', bitv. simpl. destruct Eb as [->| ->]; [done|].
    rewrite bit_get_clr by lia. by intros [_ ?]%andb_prop. }
  assert (En' : forall q, q <> p -> 0 <= q -> bitv v' q = bitv v q).
  { intros q Hq ?. unfold v', bitv. simpl. destruct Eb as [->| ->]; [done|].
    rewrite bit_get_clr by lia. by rewrite (proj2 (Z.eqb_neq q p)). }
  assert (Hg : geo v v').
  { split_and!; try done; [by exists f|]. unfold v'. simpl.
    destruct Eb as [->| ->]; [done|apply length_bit_clr]. }
  assert (Hbo : forall q, boot v' q <-> boot v q) by done.
  assert (Hd : dwf (v_dev v')) by apply (mw_dwf v Hw). clearbody v'.
  destruct (vgeo_facts _ _ Hg) as (Et & Er & _ & Eo). split_and!.
  - apply (mb_wf_step v); try done; [intros q; apply Hbo|]. intros q Hq Hc.
    destruct (decide (q = p)) as [->|Hne]; [by right|]. left. by rewrite <- En' by lia.
  - intros q (Hq & Hqb & Hqo & Hqr & Hqn). rewrite Et in Hq. rewrite Eo in Hqo.
    rewrite Er in Hqr. rewrite Hbo in Hqn. split_and!; try done.
    apply Eg; [unfold reserved in Hqr; lia|done].
  - intros q Hne Hq. apply (live_step v); try done; [by apply Hbo|].
    destruct Hq as (_ & _ & _ & Hqr & _). rewrite En'; [done|done|unfold reserved in Hqr; lia].
Qed.

Lemma idles_live v v' : idles v v' -> forall q, live v' q <-> live v q.
Proof.
  intros (Hg & _ & Ec & Eb) q. destruct (vgeo_facts _ _ Hg) as (Et & Er & _ & Eo).
  destruct Hg as (_ & _ & _ & _ & Ee). unfold live, boot. rewrite Et, Er, Eo, Ec, Ee.
  split; intros (? & ? & ? & Hr & ?); split_and!; try done.
  - rewrite <- Eb; [done|unfold reserved in Hr; lia].
  - rewrite Eb; [done|unfold reserved in Hr; lia].
Qed.

Lemma page_at_dev v v' q : v_dev v' = v_dev v -> page_at v' q = page_at v q.
Proof. intros E. unfold page_at, vrange, view. by rewrite E. Qed.

Lemma mbuf_alloc_spec gen v r v' :
  mb_wf v -> latched v' = false -> mbuf_alloc gen v = (r, v') ->
  mb_wf v' /\ (forall q, live v q -> page_at v' q = page_at v q) /\
  (forall q, live v q -> live v' q) /\
  (forall p, r = Some p -> ~ live v p /\ live v' p).
Proof.
  intros Hw Hl H. apply mbuf_alloc_run in H as [[-> Hi]|[(v1 & w & Hb & E & H)|
    (p & v1 & v2 & w & Ht & E & H)]]; [|..|done].
  - pose proof Hi as (_ & Ed & _). split_and!; [by eapply idles_wf|..|done].
    + intros q _. by apply page_at_dev.
    + intros q. by apply idles_live.
  - assert (L1 : latched v1 = false) by (by destruct H as [(_ & _ & ->)|(_ & _ & ->)]).
    destruct (mw_boot v Hw _ Hb) as (? & ? & ? & Hnr).
    apply write_empty_spec in E as [Hd F]; [|done..|unfold reserved in Hnr; lia|done].
    destruct (vdev_step _ _ Hw Hd) as [Hw1 Hlv].
    assert (Hpg : forall q, live v q -> page_at v1 q = page_at v q)
      by (intros q (_ & _ & _ & _ & Hnb); apply F; by intros ->).
    destruct H as [(_ & -> & ->)|(-> & -> & ->)]; [split_and!; try done; intros q; apply Hlv|].
    assert (Ecur : mb_boot_cursor v1 = mb_boot_cursor v) by (by destruct Hd as [-> _]).
    assert (Hb1 : boot v1 (mb_boot_cursor v1)) by (destruct Hd as [-> _]; exact Hb).
    destruct (boot_advance v1 _ Hw1 Hb1 eq_refl) as (? & Hmono & Hnew).
    split; [done|]. split; [|split].
    + intros q Hq. rewrite <- Hpg by done. by apply page_at_dev.
    + intros q Hq. by apply Hmono, Hlv.
    + intros p [= <-]. split; [by intros (_ & _ & _ & _ & ?)|]. by rewrite <- Ecur.
  - assert (L2 : latched v2 = false) by (by destruct H as [(_ & _ & ->)|(_ & _ & ->)]).
    pose proof (takes_wf _ _ _ Hw Ht) as Hw1.
    destruct (takes_live _ _ _ Hw Ht) as (Hmono & Hfresh & Hnew & Hok).
    pose proof Ht as (_ & Ed & _ & Hp & _).
    apply write_empty_spec in E as [Hd F]; [|done..|lia|done].
    destruct (vdev_step _ _ Hw1 Hd) as [Hw2 Hlv].
    assert (Hpg : forall q, live v q -> page_at v2 q = page_at v q).
    { intros q Hq. rewrite F by (by intros ->). by apply page_at_dev. }
    destruct H as [(_ & -> & ->)|(-> & -> & ->)].
    + destruct (free_step v2 p Hw2) as (? & _ & Hkeep); [by apply Hlv|].
      split; [done|]. split; [|split; [|done]].
      * intros q Hq. rewrite <- Hpg by done. by apply page_at_dev.
      * intros q Hq. apply Hkeep; [by intros ->|]. by apply Hlv, Hmono.
    + split; [done|]. split; [done|]. split; [intros q Hq; by apply Hlv, Hmono|].
      intros p' [= <-]. split; [done|by apply Hlv].
Qed.

(** *** The store keeps its promises *)

Lemma mbuf_read_ptr_run ptr v r v' :
  mbuf_read_ptr ptr v = (r, v') ->
  (r = None /\ v' = v) \/
  (bp_pba ptr <> 0 /\ mbuf_page_allocated v (bp_pba ptr) = true /\
   exists r0, mbuf_read (bp_pba ptr) v = (r0, v') /\
     forall pg, r = Some pg -> r0 = Some pg /\ page_checksum pg = bp_checksum ptr /\
       page_gen pg = bp_gen ptr /\ mbuf_page_validate pg = true).
Proof.
  unfold mbuf_read_ptr. intros H.
  apply mguard_run in H as [[Hz H]|(_ & -> & ->)]; [|by left].
  rewrite (mbind_eq _ _ _ v v) in H by done.
  apply mguard_run in H as [[Ha H]|(_ & -> & ->)]; [|by left]. zbool. right.
  split_and!; try done. apply mbind_run in H as [(pg & v1 & E & H)|[E ->]].
  - exists (Some pg). apply mguard_run in H as [[Hc H]|(_ & -> & ->)]; [|by split].
    apply mguard_run in H as [[Hv H]|(_ & -> & ->)]; [|by split].
    injection H as <- <-. split; [done|]. intros pg' [= <-]. by zbool.
  - exists None. by split.
Qed.

Lemma mbuf_free_run p v r v' :
  p <> 0 -> mbuf_free p v = (r, v') ->
  r = Some tt /\ idles (set_v_a (vol_free_blocks p 1 (v_a v)) v) v'.
Proof.
  intros Hp. unfold mbuf_free. rewrite (proj2 (Z.eqb_neq _ _)) by done.
  unfold mbind' at 1, on_a at 1, mmod at 1. set (v1 := set_v_a _ v).
  rewrite (mbind_eq _ _ _ v1 v1) by done. cbv zeta.
  destruct (_ && _); [|intros [= <- <-]; split; [done|apply idles_refl]].
  unfold mbind', on_a, mmod. intros [= <- <-]. split; [done|].
  assert (Hsb : forall w : vol D X, exists f, vsb w = set_vol_flags f (vsb w))
    by (intros w; eexists; apply sb_same_flags).
  destruct (_ && _); (split_and!; try done; split_and!; try done); apply (Hsb v1).
Qed.

Lemma mbuf_write_law p pg v r v' :
  mb_wf v -> latched v' = false -> live v p -> zlen pg = INVFS_BLOCK_SIZE ->
  mbuf_write p pg v = (r, v') ->
  mb_wf v' /\ (forall q, q <> p -> live v q -> page_at v' q = page_at v q) /\
  (forall q, live v' q <-> live v q) /\
  (forall s, r = Some s -> s = mbuf_page_seal pg /\ page_at v' p = s).
Proof.
  intros Hw Hl Hp Hlen H. pose proof Hp as (_ & _ & Hok & Hr & _).
  apply mbuf_write_spec in H as (Hd & _ & F & I);
    [|apply (mw_dwf v Hw)|done|unfold reserved in Hr; lia|done|done].
  destruct (vdev_step _ _ Hw Hd) as [Hw' Hlv]. split; [done|]. split; [|by split].
  intros q Hq _. by eapply page_at_frame.
Qed.

Lemma mbuf_read_law ptr v r v' :
  mb_wf v -> latched v' = false -> live v (bp_pba ptr) -> mbuf_read_ptr ptr v = (r, v') ->
  mb_wf v' /\ (forall q, live v q -> page_at v' q = page_at v q) /\
  (forall q, live v' q <-> live v q) /\
  (forall pg, r = Some pg ->
     pg = page_at v (bp_pba ptr) /\ page_checksum pg = bp_checksum ptr /\
     page_gen pg = bp_gen ptr /\ mbuf_page_validate pg = true).
Proof.
  intros Hw Hl Hp H.
  apply mbuf_read_ptr_run in H as [[-> ->]|(_ & _ & r0 & H & Hr)]; [done|].
  pose proof (latched_mbuf_read _ _ _ _ H Hl) as L. pose proof Hp as (_ & _ & Hok & Hnr & _).
  apply mbuf_read_spec in H as [(Hd & _ & Hv) Hpg];
    [|apply (mw_dwf v Hw)|done|unfold reserved in Hnr; lia|done].
  destruct (vdev_step _ _ Hw Hd) as [Hw' Hlv]. split; [done|].
  split; [|split; [done|]].
  - intros q _. apply vrange_ext. intros. apply Hv.
  - intros pg E. destruct (Hr pg E) as (E0 & ? & ? & ?). rewrite (Hpg pg E0) in *. done.
Qed.

Lemma mbuf_free_law p v r v' :
  mb_wf v -> live v p -> mbuf_free p v = (r, v') ->
  r = Some tt /\ latched v' = latched v /\
  mb_wf v' /\ (forall q, live v q -> page_at v' q = page_at v q) /\
  (forall q, live v' q -> live v q) /\ (forall q, q <> p -> live v q -> live v' q).
Proof.
  intros Hw Hp H.
  assert (p <> 0) by (destruct Hp as (_ & _ & _ & Hr & _); unfold reserved in Hr; lia).
  apply mbuf_free_run in H as [-> Hi]; [|done].
  destruct (free_step v p Hw Hp) as (Hw1 & Hsub & Hkeep).
  pose proof (idles_live _ _ Hi) as Hlv. pose proof Hi as (_ & Ed & _). simpl in Ed.
  split; [done|]. split; [unfold latched; by rewrite Ed|].
  split; [by eapply idles_wf|]. split; [|split].
  - intros q _. by apply page_at_dev.
  - intros q Hq. by apply Hsub, Hlv.
  - intros q Hne Hq. by apply Hlv, Hkeep.
Qed.

Lemma note_alloc_idles p v :
  exists o, btree_orphan_note_alloc p v = set_orph o v.
Proof.
  assert (Hid : v = set_orph (orph v) v) by (by destruct v).
  unfold btree_orphan_note_alloc. destruct (_ || _); [eauto|].
  assert (exists o, orph_set_ready v = set_orph o v) as [o ->].
  { unfold orph_set_ready. destruct (o_inlist (orph v)); eauto. }
  unfold orph_cand_add. destruct (_ || _); [eauto|].
  destruct (o_inlist _); [|eauto]. destruct (bit_get _ _); [eauto|]. by eexists.
Qed.

Lemma set_orph_step o v :
  mb_wf v -> mb_wf (set_orph o v) /\ (forall q, live (set_orph o v) q <-> live v q).
Proof.
  intros Hw. assert (Hi : idles v (set_orph o v)).
  { split_and!; try done. split_and!; try done. exists (vol_flags (vsb v)).
    exact (sb_same_flags (v_a v)). }
  split; [by eapply idles_wf|by apply idles_live].
Qed.

#[export] Instance mbuf_store : PageStore (vol D X) := {
  ps_alloc := mbuf_alloc;
  ps_write := mbuf_write;
  ps_read := mbuf_read_ptr;
  ps_free := mbuf_free;
  ps_note := btree_orphan_note_alloc
}.

#[export] Program Instance mbuf_store_laws : PageStoreLaws (vol D X) := {
  ps_wf := mb_wf;
  ps_ok v := negb (latched v);
  ps_live := live;
  ps_page := page_at
}.
Next Obligation.
  intros v p Hw (Hp & _ & _ & Hr & _). simpl in *. pose proof (mw_size v Hw).
  unfold reserved in Hr. lia.
Qed.
Next Obligation.
  simpl. intros gen v r v' H Hl. apply negb_true_iff in Hl. apply negb_true_iff.
  by eapply latched_mbuf_alloc.
Qed.
Next Obligation.
  simpl. intros p pg v r v' H Hl. apply negb_true_iff in Hl. apply negb_true_iff.
  by eapply latched_mbuf_write.
Qed.
Next Obligation.
  simpl. intros ptr v r v' H Hl. apply negb_true_iff in Hl. apply negb_true_iff.
  apply mbuf_read_ptr_run in H as [[_ ->]|(_ & _ & r0 & H & _)]; [done|].
  by eapply latched_mbuf_read.
Qed.
Next Obligation.
  simpl. intros p v r v' H Hl. destruct (decide (p = 0)) as [->|Hp].
  { by injection H as _ <-. }
  apply mbuf_free_run in H as [_ (_ & Ed & _)]; [|done]. unfold latched in *.
  by rewrite Ed in Hl.
Qed.
Next Obligation.
  simpl. intros gen v r v' Hw Hl H. apply negb_true_iff in Hl. by apply mbuf_alloc_spec in H.
Qed.
Next Obligation.
  simpl. intros p pg v r v' Hw Hl Hp Hlen Hb H. apply negb_true_iff in Hl.
  by apply mbuf_write_law in H.
Qed.
Next Obligation.
  simpl. intros ptr v r v' Hw Hl Hp H. apply negb_true_iff in Hl. by apply mbuf_read_law in H.
Qed.
Next Obligation.
  simpl. intros p v r v' Hw Hl Hp H. by apply mbuf_free_law in H as (? & _ & ?).
Qed.
Next Obligation.
  simpl. intros p v. destruct (note_alloc_idles p v) as [o ->].
  split; [done|]. split; [intros Hw; by apply set_orph_step|]. split; [done|done].
Qed.
End store.

(** ** Results on the page store *)

Section store_results.
Context {D X : Type} `{!Dev D, !DevLaws D}.
Implicit Types v : vol D X.

(** C25: the life of a page.  A page the allocator hands out was not owned
    before; what is written to it is what a block pointer to it reads back,
    sealed; no other owned page changes through allocation, write and read;
    and once it has been given back and its bit is clear, the same block
    pointer is refused although the bytes still validate. *)
Theorem page_lifecycle gen v p v1 pg s v2 flags r v3 r4 v4 :
  mb_wf v -> zlen pg = INVFS_BLOCK_SIZE -> bytes_ok pg -> latched v3 = false ->
  mbuf_alloc gen v = (Some p, v1) -> mbuf_write p pg v1 = (Some s, v2) ->
  mbuf_read_ptr (mbuf_ptr_set p s flags) v2 = (r, v3) -> mbuf_free p v3 = (r4, v4) ->
  ~ live v p /\ live v3 p /\
  (forall b, r = Some b -> b = mbuf_page_seal pg) /\
  (forall q, live v q -> live v4 q /\ page_at v4 q = page_at v q) /\
  (bitv v4 p = false ->
   forall s5 v5, mbuf_read_ptr (mbuf_ptr_set p s flags) v4 = (s5, v5) -> s5 = None).
Proof.
  intros Hw Hlen Hb L3 E1 E2 E3 E4.
  assert (L2 : latched v2 = false).
  { apply mbuf_read_ptr_run in E3 as [[_ ->]|(_ & _ & r0 & H & _)]; [done|].
    by eapply latched_mbuf_read. }
  pose proof (latched_mbuf_write _ _ _ _ _ E2 L2) as L1.
  apply mbuf_alloc_spec in E1 as (Hw1 & Hp1 & Hl1 & Hnew); try done.
  destruct (Hnew p eq_refl) as [Hfresh Hlive1].
  apply mbuf_write_law in E2 as (Hw2 & Hp2 & Hl2 & Hs); try done.
  destruct (Hs s eq_refl) as [Es Epg].
  apply mbuf_read_law in E3 as (Hw3 & Hp3 & Hl3 & Hr); try done; [|by apply Hl2].
  assert (Hlive3 : live v3 p) by (by apply Hl3, Hl2).
  apply mbuf_free_law in E4 as (_ & _ & Hw4 & Hp4 & _ & Hl4); try done.
  split; [done|]. split; [done|]. split; [|split].
  - intros b Eb. destruct (Hr b Eb) as (-> & _). cbn [bp_pba mbuf_ptr_set]. by rewrite Epg.
  - intros q Hq. assert (q <> p) by (by intros ->). split; [by apply Hl4, Hl3, Hl2, Hl1|].
    rewrite Hp4, Hp3, Hp2, Hp1; try done; [by apply Hl1|by apply Hl2, Hl1|by apply Hl3, Hl2, Hl1].
  - intros Hbit s5 v5 [[? _]|(_ & Ha & _)]%mbuf_read_ptr_run; [done|].
    unfold mbuf_page_allocated in Ha. cbn [bp_pba mbuf_ptr_set] in Ha.
    destruct (_ || _) in Ha; [done|]. unfold bitv in Hbit. congruence.
Qed.

(** The metadata counter and the save-point pin.  [mbuf_free] of a
    metadata-zone page that the save point pins leaves the bitmap as it is
    but still credits [meta_free_blocks]; when pins are being released it
    clears the bit and does not credit the counter.  The comment in the code
    states the opposite pairing. *)
Theorem mbuf_free_pin_counter p v :
  0 < p < total_blocks (vsb v) -> total_blocks (vsb v) <= 8 * zlen (bitmap (v_a v)) ->
  metadata_zone_start (vsb v) <= p < metadata_zone_start (vsb v) + metadata_zone_blocks (vsb v) ->
  let v' := snd (mbuf_free p v) in
  (retain_release (v_a v) = false -> spt0_block_pinned (v_a v) p 1 = true ->
     bitmap (v_a v') = bitmap (v_a v) /\
     meta_free_blocks (v_a v') = meta_free_blocks (v_a v) + 1) /\
  (retain_release (v_a v) = true ->
     bitv v' p = false /\ meta_free_blocks (v_a v') = meta_free_blocks (v_a v)).
Proof.
  intros Hp Hb Hz v'.
  assert (Ev : forall a', vol_free_blocks p 1 (v_a v) = a' ->
    metadata_zone_start (sb a') = metadata_zone_start (vsb v) ->
    metadata_zone_blocks (sb a') = metadata_zone_blocks (vsb v) ->
    v_a v' = if retain_release a' then a' else set_meta_free_blocks (meta_free_blocks a' + 1) a').
  { intros a' Ea E1 E2. unfold v', mbuf_free. rewrite (proj2 (Z.eqb_neq _ _)) by lia.
    unfold mbind' at 1, on_a at 1, mmod at 1. rewrite Ea.
    rewrite (mbind_eq _ _ _ (set_v_a a' v) (set_v_a a' v)) by done. cbv zeta.
    unfold vsb. cbn [v_a set_v_a]. rewrite E1, E2.
    rewrite (proj2 (Z.leb_le _ _)), (proj2 (Z.ltb_lt _ _)) by lia. cbn [andb].
    destruct (retain_release a'); cbn [andb negb]; [done|].
    unfold mbind', on_a, mmod. cbn. by destruct (_ && _). }
  pose proof (free_one p (v_a v)) as Hone. fold (vsb v) in Hone.
  destruct Hone as ((f & Es) & _ & _); [lia|].
  specialize (Ev _ eq_refl ltac:(by rewrite Es) ltac:(by rewrite Es)). clear Es f.
  unfold vol_free_blocks in Ev. fold (vsb v) in Ev.
  rewrite Z.min_l in Ev by lia. replace (p + 1 - p) with 1 in Ev by lia. split.
  - intros Hr Hpin. rewrite Hr, Hpin in Ev. cbn [negb andb] in Ev. rewrite Hr in Ev.
    by rewrite Ev.
  - intros Hr. rewrite Hr in Ev. cbn [negb andb orb] in Ev.
    destruct (free_run_meta p 1 (v_a v)) as [E1 E2]. rewrite E2, Hr in Ev.
    unfold bitv. rewrite Ev, E1. split; [|done].
    rewrite (free_run_bitmap p 1 (v_a v)) by (fold (vsb v); lia).
    change (clr_run _ p 1) with (bit_clr (bitmap (v_a v)) p).
    rewrite bit_get_clr, Z.eqb_refl by lia. done.
Qed.
End store_results.

(** ** Reading the root *)

Section read.
Context {D X : Type} `{!Dev D, !DevLaws D}.
Implicit Types v : vol D X.

(** A store without pending faults that holds the whole volume. *)
Definition quiet v : Prop :=
  dquiet (v_dev v) /\ total_blocks (vsb v) * INVFS_BLOCK_SIZE <= dcap (v_dev v).

Lemma io_pread_live off n v :
  quiet v -> 0 <= off -> 0 <= n -> off + n <= total_blocks (vsb v) * INVFS_BLOCK_SIZE ->
  dok (v_dev v) off n ->
  exists v', io_pread off n v = (Some (vrange v off n), v') /\ vsame v v' /\ quiet v' /\
    dcap (v_dev v') = dcap (v_dev v).
Proof.
  intros [Hq Hc] Ho Hn Hle Hok. destruct (dquiet_wf _ Hq) as [Hw Hl].
  destruct (dev_pread_live off n (v_dev v)) as (bs & d & E & Hq' & Hc'); [done..|lia|done|].
  assert (Ev : io_pread off n v = (Some bs, set_v_dev d v)) by (unfold io_pread, on_dev; by rewrite E).
  exists (set_v_dev d v). pose proof Ev as Ev'.
  apply io_pread_spec in Ev' as [Hs Hb]; try done.
  rewrite Ev, (Hb _ eq_refl). split; [done|]. split; [done|].
  unfold quiet. cbn [v_dev set_v_dev]. by rewrite Hc'.
Qed.

Lemma mbuf_read_live p v :
  quiet v -> 0 < p < total_blocks (vsb v) -> blk_ok v p ->
  exists v', mbuf_read p v = (Some (page_at v p), v') /\ vsame v v' /\ quiet v' /\
    dcap (v_dev v') = dcap (v_dev v).
Proof.
  intros Hq Hp Hok.
  destruct (io_pread_live (p * INVFS_BLOCK_SIZE) INVFS_BLOCK_SIZE v) as (v' & E & ?);
    [done|unfold INVFS_BLOCK_SIZE; lia|done|unfold INVFS_BLOCK_SIZE; lia|done|].
  exists v'. split; [|done]. unfold mbuf_read. rewrite (mbind_eq _ _ _ v v) by done.
  rewrite (mbind_eq _ _ _ tt v) by done. rewrite (mbind_eq _ _ _ tt v); [done|].
  rewrite (proj2 (Z.eqb_neq p 0)), (proj2 (Z.leb_gt _ p)) by lia. done.
Qed.

(** What a slot offers: an allocated page that validates. *)
Definition slot_offer v (i : Z) : option (Z * Z) :=
  let pba := root_slot (rt v) i in
  if pba =? 0 then None
  else if mbuf_page_allocated v pba && mbuf_page_validate (page_at v pba)
  then Some (pba, page_gen (page_at v pba)) else None.

(** The reader's choice between the slots, [seq] breaking ties. *)
Definition pick_root (seq : Z) (r0 r1 : option (Z * Z)) : option (Z * Z) :=
  match r0, r1 with
  | Some (_, g0), Some (_, g1) =>
      if (g0 <? g1) || ((g1 =? g0) && (Z.land seq 1 =? 1)) then r1 else r0
  | Some _, None => r0
  | None, _ => r1
  end.

(** The same root state. *)
Definition root_same v v' : Prop := vsame v v' /\ quiet v'.

Lemma slot_offer_same v v' i : vsame v v' -> slot_offer v' i = slot_offer v i.
Proof.
  intros ((E & _) & _ & Hv). unfold slot_offer.
  assert (Er : rt v' = rt v) by (by rewrite E). rewrite Er.
  assert (Ea : forall q, mbuf_page_allocated v' q = mbuf_page_allocated v q) by (by rewrite E).
  rewrite Ea. assert (Ep : page_at v' (root_slot (rt v) i) = page_at v (root_slot (rt v) i)).
  { apply vrange_ext. intros. apply Hv. }
  by rewrite Ep.
Qed.

Definition slots_ok v : Prop := forall i, i = 0 \/ i = 1 ->
  0 <= root_slot (rt v) i /\
  (mbuf_page_allocated v (root_slot (rt v) i) = true -> blk_ok v (root_slot (rt v) i)).

Lemma root_slot_step_live i best v :
  quiet v -> slots_ok v -> i = 0 \/ i = 1 ->
  exists v', root_slot_step i best v = (Some (
    match best, slot_offer v i with
    | Some (_, g0), Some (_, g1) =>
        if (g0 <? g1) || ((g1 =? g0) && (i =? Z.land (rt_seq (rt v)) 1))
        then slot_offer v i else best
    | _, None => best
    | None, o => o
    end), v') /\ vsame v v' /\ quiet v' /\
    dcap (v_dev v') = dcap (v_dev v).
Proof.
  intros Hq Hs Hi. destruct (dquiet_wf _ (proj1 Hq)) as [Hw Hl].
  destruct (Hs i Hi) as [Hpos Hblk]. unfold root_slot_step, slot_offer.
  rewrite (mbind_eq _ _ _ v v) by done. cbv zeta.
  destruct (_ =? 0) eqn:Ez.
  { exists v. split_and!; try done; [|by apply vsame_refl]. by destruct best as [[]|]. }
  destruct (mbuf_page_allocated v _) eqn:Ea; cbn [negb andb].
  2: { exists v. split_and!; try done; [|by apply vsame_refl]. by destruct best as [[]|]. }
  specialize (Hblk eq_refl). unfold mbuf_page_allocated in Ea.
  destruct (_ || _) eqn:Eo in Ea; [done|]. zbool.
  destruct (mbuf_read_live (root_slot (rt v) i) v) as (v' & E & Hsame & Hq' & Hc'); [done|lia|done|].
  exists v'. rewrite (mbind_eq _ _ _ (Some (page_at v (root_slot (rt v) i))) v')
    by (unfold mtry; by rewrite E).
  split; [|done]. destruct (mbuf_page_validate _); cbn [negb]; [|by destruct best as [[]|]].
  destruct best as [[b0 g0]|]; [|done]. by destruct (_ || _).
Qed.

(** On a store without faults the reader picks between what the slots
    offer. *)
Lemma root_read_present v :
  quiet v -> slots_ok v -> rt_present v = true ->
  (slot_offer v 0 <> None \/ slot_offer v 1 <> None \/ (root_slot (rt v) 0 = 0 /\ root_slot (rt v) 1 = 0)) ->
  exists v', mbuf_root_read v =
    (Some (pick_root (rt_seq (rt v)) (slot_offer v 0) (slot_offer v 1)), v') /\ vsame v v' /\ quiet v' /\
    dcap (v_dev v') = dcap (v_dev v).
Proof.
  intros Hq Hs Hp Hsome. unfold mbuf_root_read. rewrite (mbind_eq _ _ _ v v) by done.
  rewrite Hp, (mbind_eq _ _ _ RtOk v) by done.
  destruct (root_slot_step_live 0 None v) as (v1 & E1 & Hs1 & Hq1 & Hc1); [auto..|].
  assert (E1' : root_slot_step 0 None v = (Some (slot_offer v 0), v1))
    by (rewrite E1; by destruct (slot_offer v 0)).
  rewrite (mbind_eq _ _ _ _ _ E1').
  assert (Er : rt v1 = rt v) by (by destruct Hs1 as ((-> & _) & _)).
  destruct (root_slot_step_live 1 (slot_offer v 0) v1) as (v2 & E2 & Hs2 & Hq2 & Hc2); [done| |auto|].
  { intros i Hi. rewrite Er. pose proof Hs1 as ((Ev & _ & Ho) & _).
    assert (Ea : forall q, mbuf_page_allocated v1 q = mbuf_page_allocated v q) by (by rewrite Ev).
    rewrite Ea. unfold blk_ok. rewrite Ho. by apply Hs. }
  rewrite (slot_offer_same _ _ _ Hs1), Er in E2.
  rewrite (mbind_eq _ _ _ _ _ E2). rewrite (mbind_eq _ _ _ v2 v2) by done.
  exists v2. split; [|split; [by eapply vsame_trans|split; [done|congruence]]].
  assert (Er2 : rt v2 = rt v) by (destruct Hs2 as ((-> & _) & _); exact Er).
  unfold pick_root. rewrite (Z.eqb_sym 1 (Z.land _ 1)).
  destruct (slot_offer v 0) as [[b0 g0]|], (slot_offer v 1) as [[b1 g1]|]; try done.
  - clear E2. by destruct ((g0 <? g1) || _).
  - destruct Hsome as [?|[?|[H0 H1]]]; [done|done|]. unfold root_slot in H0, H1. cbn in H0, H1. by rewrite Er2, H0, H1.
Qed.
End read.

(** ** Publishing a root *)

Section publish.
Context {D X : Type} `{!Dev D, !DevLaws D}.
Context (heal : M (vol D X) unit) `{!HealLaws heal}.
Implicit Types v : vol D X.

(** The delta log owns no byte of block [b]. *)
Definition apart v (b : Z) : Prop :=
  forall a, b * INVFS_BLOCK_SIZE <= a < b * INVFS_BLOCK_SIZE + INVFS_BLOCK_SIZE ->
    ~ heal_area (v_x v) a.

(** A volume on which a root can be published. *)
Record root_env v : Prop := {
  re_wf : mb_wf v;
  re_heal : heal_inv (v_x v) (v_dev v);
  re_rt_dok : dok (v_dev v) INVFS_RT_OFF RT_LEN;
  re_anc_dok : dok (v_dev v) (anchor_pba (vsb v) * INVFS_BLOCK_SIZE) ANC_LEN;
  re_bm_dok : forall o m,
    metadata_zone_start (vsb v) * INVFS_BLOCK_SIZE <= o -> 0 <= m ->
    o + m <= (metadata_zone_start (vsb v) + bitmap_blocks (v_a v)) * INVFS_BLOCK_SIZE ->
    dok (v_dev v) o m;
  re_lo : 0 <= bm_lo (v_a v);
  re_rt : rt_ok (rt v);
  re_uuid : length (sb_uuid (vsb v)) = 16%nat /\ bytes_ok (sb_uuid (vsb v));
  re_format : 0 <= format_version (vsb v) < 2 ^ 32;
  re_spt0 : length (spt0 v) = 32%nat /\ bytes_ok (spt0 v);
  re_block0 : apart v 0;
  re_anchor : apart v (anchor_pba (vsb v))
}.

Lemma rt_ok_crc r : rt_ok r -> rt_ok (set_rt_crc (rt_crc r) r).
Proof.
  intros Hr. pose proof (rt_body_ok _ Hr) as Hb. destruct Hr. constructor; try done.
  cbn. unfold rt_crc. by apply crc_range.
Qed.

Lemma rt_ok_publish r slot p :
  rt_ok r -> 0 <= p < 2 ^ 52 ->
  let r' := set_root_slot slot p r in rt_ok (set_rt_seq (u64 (rt_seq r' + 1)) r').
Proof.
  intros [] Hp. pose proof (u64_range (rt_seq r + 1)).
  unfold set_root_slot. destruct (_ =? 0); constructor; cbn; try done; lia.
Qed.

Lemma rt_ok_fresh : rt_ok rt_fresh.
Proof. constructor; try done. by apply bytes_okb_ok. Qed.

Definition in_rt (a : Z) : Prop := INVFS_RT_OFF <= a < INVFS_RT_OFF + RT_LEN.

Lemma rt_apart v a : apart v 0 -> in_rt a -> ~ heal_area (v_x v) a.
Proof.
  intros H Ha. apply H. unfold in_rt, INVFS_RT_OFF, RT_LEN, INVFS_BLOCK_SIZE in *. lia.
Qed.

Lemma rt30_store_run v r v' :
  mbuf_rt30_store heal v = (r, v') ->
  let w := set_rt (set_rt_crc (rt_crc (rt v)) (rt v)) v in
  (r = None /\ io_pwrite INVFS_RT_OFF (rt_bytes (rt w)) w = (None, v')) \/
  (exists v1 r2, r = Some tt /\ io_pwrite INVFS_RT_OFF (rt_bytes (rt w)) w = (Some tt, v1) /\
     anchor_refresh heal v1 = (r2, v')).
Proof.
  intros H w. unfold mbuf_rt30_store in H. rewrite (mbind_eq _ _ _ tt w) in H by done.
  rewrite (mbind_eq _ _ _ w w) in H by done.
  apply mbind_run in H as [([] & v1 & E & H)|[E ->]]; [|by left]. right.
  unfold mbind', mtry in H. destruct (anchor_refresh heal v1) as [r2 v2] eqn:E2.
  injection H as <- <-. by exists v1, r2.
Qed.

Lemma latched_refresh v r v' :
  anchor_refresh heal v = (r, v') -> latched v' = false -> latched v = false.
Proof.
  intros [(_ & -> & _)|[(v3 & _ & -> & E)|(v3 & ? & v4 & ? & _ & E & E' & E'')]]%anchor_refresh_run Hl;
    [done|by eapply latched_pwrite|].
  eapply latched_pwrite; [done|]. eapply heal_latched; [done|]. by eapply latched_barrier.
Qed.

Lemma latched_store v r v' :
  mbuf_rt30_store heal v = (r, v') -> latched v' = false -> latched v = false.
Proof.
  intros [[_ E]|(v1 & r2 & _ & E & E2)]%rt30_store_run Hl.
  - exact (latched_pwrite _ _ _ _ _ E Hl).
  - exact (latched_pwrite _ _ _ _ _ E (latched_refresh _ _ _ E2 Hl)).
Qed.

Lemma root_env_anc v r : root_env v -> rt_ok r -> anc_ok (anchor_build (set_rt r v)).
Proof.
  intros He Hr. destruct (re_uuid v He), (re_spt0 v He). pose proof (mw_size v (re_wf v He)).
  apply anchor_build_ok; try done; [change (vsb (set_rt r v)) with (vsb v); lia|].
  apply (re_format v He).
Qed.

Lemma root_env_anchor v : root_env v -> anc_ok (anchor_build v).
Proof.
  intros He. pose proof (root_env_anc v (rt v) He (re_rt v He)) as H.
  by replace (set_rt (rt v) v) with v in H by (by destruct v).
Qed.

(** Storing the descriptor: block 0 carries it, and so does the anchor of a
    volume that has one, unless the refresh failed out loud. *)
Lemma rt30_store_spec v r v' :
  root_env v -> latched v' = false -> mbuf_rt30_store heal v = (r, v') ->
  let w := set_rt (set_rt_crc (rt_crc (rt v)) (rt v)) v in
  fenced heal w v' /\ latched v = false /\
  (forall a, ~ in_rt a -> ~ in_anchor v a -> ~ heal_area (v_x v) a -> ~ in_devt a ->
     view v' a = view v a) /\
  (r = Some tt ->
     vrange v' INVFS_RT_OFF RT_LEN = rt_bytes (rt w) /\
     (anchor_state v = AnchorOk -> anchor_refresh_failed v' = false ->
      vrange v' (anchor_pba (vsb v) * INVFS_BLOCK_SIZE) ANC_LEN = anc_bytes (anchor_build w))).
Proof.
  intros He Hl H w. pose proof (mw_dwf v (re_wf v He)) as Hw.
  assert (Hrt : rt_ok (rt w)) by apply (rt_ok_crc _ (re_rt v He)).
  assert (Hlen : zlen (rt_bytes (rt w)) = RT_LEN) by (rewrite (length_rt_bytes _ Hrt); done).
  assert (Hap : 0 < anchor_pba (vsb v)).
  { pose proof (anchor_last v (re_wf v He)). pose proof (mw_size v (re_wf v He)). lia. }
  apply rt30_store_run in H as [[-> E1]|(v1 & r2 & -> & E1 & E2)]; fold w in E1.
  - pose proof (latched_pwrite _ _ _ _ _ E1 Hl) as L.
    apply io_pwrite_spec in E1 as [Hd Hv]; [|done..|rewrite Hlen; apply (re_rt_dok v He)].
    destruct (Hv Hl) as [F _]. rewrite Hlen in F. split_and!; try done.
    + apply vdev_fenced; [done|]. apply (re_heal v He).
    + intros a Ha _ _ _. by apply F.
  - assert (L1 : latched v1 = false).
    { by eapply latched_refresh. }
    pose proof (latched_pwrite _ _ _ _ _ E1 L1) as L.
    apply io_pwrite_spec in E1 as [Hd Hv]; [|done..|rewrite Hlen; apply (re_rt_dok v He)].
    destruct (Hv L1) as [F I]. rewrite Hlen in F, I. specialize (I eq_refl).
    pose proof Hd as (Ev1 & Hw1 & Ho1).
    assert (Esb : vsb v1 = vsb v) by (by rewrite Ev1).
    assert (Ex : v_x v1 = v_x v) by (by rewrite Ev1).
    assert (Eb : anchor_build v1 = anchor_build w) by (by rewrite Ev1).
    assert (Est : anchor_state v1 = anchor_state v) by (by rewrite Ev1).
    eapply anchor_refresh_spec in E2 as (Hf & _ & F2 & Hno & Hyes); try done.
    2: { rewrite Ex. eapply heal_inv_dok; [apply Ho1|]. apply (re_heal v He). }
    2: { rewrite Esb. lia. }
    2: { rewrite Esb, Ho1. apply (re_anc_dok v He). }
    2: { rewrite Eb. by apply (root_env_anc v). }
    unfold in_anchor in *. rewrite Esb, ?Ex in *. split_and!.
    + eapply fenced_trans; [|done]. apply vdev_fenced; [done|]. apply (re_heal v He).
    + done.
    + intros a ? ? ? ?. rewrite F2 by done. by apply F.
    + intros _. split.
      * rewrite <- I. apply vrange_ext. intros a Ha. apply F2.
        -- unfold in_anchor, INVFS_RT_OFF, RT_LEN, INVFS_BLOCK_SIZE in *. lia.
        -- by apply (rt_apart v); [apply He|].
        -- unfold in_devt, INVFS_DEVT_OFF, DEVT_LEN, INVFS_RT_OFF, RT_LEN in *. lia.
      * intros Hst Hnf. rewrite <- Eb. apply Hyes; [|by rewrite Est|lia|].
        -- destruct r2 as [[]|]; [done|]. rewrite (Hno eq_refl) in Hnf. done.
        -- intros a Ha. apply (re_anchor v He).
           unfold ANC_LEN, INVFS_BLOCK_SIZE in *. lia.
Qed.
(** Loading the descriptor: block 0 first, then the anchor, then a verdict. *)
Lemma rt30_load_spec v rc v' :
  dwf (v_dev v) -> latched v = false -> dok (v_dev v) INVFS_RT_OFF RT_LEN ->
  mbuf_rt30_load v = (Some rc, v') -> rc <> RtIo ->
  let r0 := rt_parse (vrange v INVFS_RT_OFF RT_LEN) in
  (rt_valid r0 = true -> rc = RtOk /\ rt v' = r0 /\ rt_present v' = true) /\
  (rt_valid r0 = false ->
   if is_anchor_ok (anchor_state v) && rt_valid (anc_rt (anchor v))
   then rc = RtOk /\ rt v' = anc_rt (anchor v) /\ rt_present v' = true /\ anchor_adopted v' = true
   else rc = (if bool_decide (rt_magic r0 = RT_MAGIC) then RtTorn else RtAbsent) /\
        rt_present v' = false).
Proof.
  intros Hw Hl Hok H Hrc r0. unfold mbuf_rt30_load in H.
  set (w := set_rt rt_zero (set_rt_present false v)) in *.
  rewrite (mbind_eq _ _ _ tt w) in H by done. unfold mbind' at 1, mtry in H.
  destruct (io_pread INVFS_RT_OFF RT_LEN w) as [[bs|] v1] eqn:E; [|by injection H as <- <-].
  apply io_pread_spec in E as [((Ev & _) & _) Hbs]; [|done..].
  assert (Ebs : bs = vrange v INVFS_RT_OFF RT_LEN) by (by apply Hbs).
  rewrite Ebs in H. fold r0 in H. destruct (rt_valid r0).
  { injection H as <- <-. by split. }
  split; [done|]. intros _. rewrite (mbind_eq _ _ _ v1 v1) in H by done.
  assert (anchor_state v1 = anchor_state v /\ anchor v1 = anchor v /\ rt_present v1 = false)
    as (E1 & E2 & E3) by (by rewrite Ev).
  rewrite E1, E2 in H. destruct (_ && _); injection H as <- <-; by split_and!.
Qed.

Lemma anchor_build_fp v :
  anchor_fp_matches (anchor_build v) (total_blocks (vsb v)) INVFS_BLOCK_SIZE
    (format_version (vsb v)) (Some (sb_uuid (vsb v))) = true.
Proof.
  unfold anchor_fp_matches. cbn. rewrite !Z.eqb_refl. by rewrite bool_decide_eq_true_2.
Qed.

Lemma rt_valid_stored r :
  rt_magic r = RT_MAGIC -> rt_version r = INVFS_RT_VERSION ->
  rt_valid (set_rt_crc (rt_crc r) r) = true.
Proof.
  intros Hm Hv. unfold rt_valid. cbn [rt_magic rt_version rt_crc32c set_rt_crc].
  rewrite bool_decide_eq_true_2 by done. rewrite Hv, Z.eqb_refl.
  change (rt_crc (set_rt_crc (rt_crc r) r)) with (rt_crc r). by rewrite Z.eqb_refl.
Qed.

(** A later open of an image: [w] is the handle before its descriptors are
    read. *)
Record reopened (w : vol D X) : Prop := {
  ro_dwf : dwf (v_dev w);
  ro_unlatched : latched w = false;
  ro_anchor : 0 < anchor_pba (vsb w);
  ro_rt_dok : dok (v_dev w) INVFS_RT_OFF RT_LEN;
  ro_anc_dok : dok (v_dev w) (anchor_pba (vsb w) * INVFS_BLOCK_SIZE) ANC_LEN
}.

(** C24: the tail anchor restores a lost root descriptor.  After a successful
    [mbuf_rt30_store] on a volume with an anchor, whose refresh did not report
    a failure, any later open of the same image whose tail block survived
    finds the anchor; if block 0 no longer holds a valid RT30 the stored
    descriptor is adopted from the anchor, field for field, and the adoption
    is flagged; if block 0 holds a valid descriptor that one is used. *)
Theorem anchor_restores_root v v1 w st w1 rc w2 :
  root_env v -> anchor_state v = AnchorOk ->
  rt_magic (rt v) = RT_MAGIC -> rt_version (rt v) = INVFS_RT_VERSION ->
  mbuf_rt30_store heal v = (Some tt, v1) -> latched v1 = false ->
  anchor_refresh_failed v1 = false ->
  reopened w -> vsb w = vsb v -> sb_block_size (vsb w) = INVFS_BLOCK_SIZE ->
  (forall a, in_anchor v a -> view w a = view v1 a) ->
  anchor_probe w = (Some st, w1) -> st <> AnchorIo ->
  mbuf_rt30_load w1 = (Some rc, w2) -> rc <> RtIo ->
  st = AnchorOk /\ rc = RtOk /\ rt_present w2 = true /\
  let r0 := rt_parse (vrange w INVFS_RT_OFF RT_LEN) in
  if rt_valid r0 then rt w2 = r0 else rt w2 = rt v1 /\ anchor_adopted w2 = true.
Proof.
  intros He Hst Hm Hver Hstore Hl Hnf Hre Esb Hbs Hsame Hprobe Hio Hload Hrc. cbv zeta.
  set (r0 := rt_parse (vrange w INVFS_RT_OFF RT_LEN)).
  apply rt30_store_spec in Hstore as (Hf & _ & _ & Hyes); [|done..].
  destruct (Hyes eq_refl) as [_ Hanc]. specialize (Hanc Hst Hnf).
  set (v0 := set_rt (set_rt_crc (rt_crc (rt v)) (rt v)) v) in *.
  assert (Ert : rt v1 = rt v0) by (by destruct Hf as [-> _]).
  assert (Hrok : rt_ok (rt v0)) by apply (rt_ok_crc _ (re_rt v He)).
  assert (Haok : anc_ok (anchor_build v0)) by (by apply (root_env_anc v)).
  assert (Hw : vrange w (anchor_pba (vsb w) * INVFS_BLOCK_SIZE) ANC_LEN = anc_bytes (anchor_build v0)).
  { rewrite Esb, <- Hanc. apply vrange_ext. intros a Ha. by apply Hsame. }
  eapply anchor_probe_mirror in Hprobe as (w0 & Hs0 & Hcase);
    [|apply Hre|apply Hre|apply Hre|apply Hre|done|done|apply anchor_build_state].
  cbv zeta in Hcase. rewrite Esb in Hcase, Hbs. rewrite Hbs in Hcase.
  change (vsb v) with (vsb v0) in Hcase. rewrite anchor_build_fp in Hcase.
  destruct Hcase as [(-> & _)|[(-> & _ & ->)|(_ & ? & _)]]; [done| |done].
  destruct Hs0 as ((Ew0 & Hw0 & Ho0) & Hl0 & Hv0).
  assert (Er0 : vrange w0 INVFS_RT_OFF RT_LEN = vrange w INVFS_RT_OFF RT_LEN)
    by (apply vrange_ext; intros; apply Hv0).
  apply rt30_load_spec in Hload as [Hval Hinv]; try done; [|apply Ho0, Hre].
  change (vrange (set_anchor _ _) INVFS_RT_OFF RT_LEN) with (vrange w0 INVFS_RT_OFF RT_LEN)
    in Hval, Hinv. rewrite Er0 in Hval, Hinv. fold r0 in Hval, Hinv.
  cbn [anchor_state anchor set_anchor set_anchor_state is_anchor_ok andb] in Hinv.
  change (anc_rt (anchor_build v0)) with (rt v0) in Hinv.
  assert (Hvs : rt_valid (rt v0) = true) by exact (rt_valid_stored _ Hm Hver).
  rewrite Hvs in Hinv.
  destruct (rt_valid r0).
  - by destruct (Hval eq_refl) as (-> & ? & ?).
  - destruct (Hinv eq_refl) as (-> & E & ? & ?). by rewrite Ert.
Qed.
(** The anchor of another image is never adopted.  When the tail block
    holds a well-formed descriptor that was built for a volume with a
    different size, format version or uuid (a resized or re-formatted image),
    the probe refuses it, and a block 0 without a valid RT30 is then reported
    as absent or torn: the open never acquires a root from the foreign
    descriptor. *)
Theorem anchor_foreign_refused v w st w1 rc w2 :
  anc_ok (anchor_build v) -> reopened w ->
  vrange w (anchor_pba (vsb w) * INVFS_BLOCK_SIZE) ANC_LEN = anc_bytes (anchor_build v) ->
  (total_blocks (vsb v) <> total_blocks (vsb w) \/
   format_version (vsb v) <> format_version (vsb w) \/
   sb_uuid (vsb v) <> sb_uuid (vsb w)) ->
  rt_valid (rt_parse (vrange w INVFS_RT_OFF RT_LEN)) = false ->
  anchor_probe w = (Some st, w1) -> st <> AnchorIo ->
  mbuf_rt30_load w1 = (Some rc, w2) -> rc <> RtIo ->
  st = AnchorRefusedGeometry /\ (rc = RtAbsent \/ rc = RtTorn) /\ rt_present w2 = false.
Proof.
  intros Ha Hre Hw Hne Hinv0 Hprobe Hio Hload Hrc.
  eapply anchor_probe_mirror in Hprobe as (w0 & Hs0 & Hcase);
    [|apply Hre|apply Hre|apply Hre|apply Hre|done|done|apply anchor_build_state].
  cbv zeta in Hcase. replace (anchor_fp_matches _ _ _ _ _) with false in Hcase.
  2: { symmetry. unfold anchor_fp_matches. cbn [anc_total_blocks anc_format_version anc_uuid
         anchor_build set_anc_crc].
       destruct Hne as [Hne|[Hne|Hne]].
       - by rewrite (proj2 (Z.eqb_neq _ _) Hne).
       - rewrite (proj2 (Z.eqb_neq _ _) Hne). by rewrite !andb_false_r.
       - rewrite bool_decide_eq_false_2 by done. by rewrite !andb_false_r. }
  destruct Hcase as [(-> & _)|[(_ & ? & _)|(-> & _ & ->)]]; [done..|].
  destruct Hs0 as ((Ew0 & Hw0 & Ho0) & Hl0 & Hv0).
  assert (Er0 : vrange w0 INVFS_RT_OFF RT_LEN = vrange w INVFS_RT_OFF RT_LEN)
    by (apply vrange_ext; intros; apply Hv0).
  apply rt30_load_spec in Hload as [_ Hinv]; try done; [|apply Ho0, Hre].
  change (vrange (set_anchor_adopted _ _) INVFS_RT_OFF RT_LEN)
    with (vrange w0 INVFS_RT_OFF RT_LEN) in Hinv.
  rewrite Er0 in Hinv. destruct (Hinv Hinv0) as [-> ?]. split_and!; try done.
  destruct (bool_decide _); auto.
Qed.

Lemma block_of a b n :
  b * INVFS_BLOCK_SIZE <= a < (b + n) * INVFS_BLOCK_SIZE -> b <= a / INVFS_BLOCK_SIZE < b + n.
Proof.
  unfold INVFS_BLOCK_SIZE. split; [apply Z.div_le_lower_bound|apply Z.div_lt_upper_bound]; lia.
Qed.

(** Flushing the bitmap writes bitmap blocks only. *)
Lemma bitmap_flush_spec v r v' :
  root_env v -> latched v' = false -> vol_bitmap_flush v = (r, v') ->
  latched v = false /\
  exists d lo hi, v' = set_v_a (set_bm_hi hi (set_bm_lo lo (v_a v))) (set_v_dev d v) /\
    vdev v (set_v_dev d v) /\ 0 <= lo /\
    forall a, ~ bm_area v (a / INVFS_BLOCK_SIZE) -> view v' a = view v a.
Proof.
  intros He Hl H. pose proof (re_wf v He) as Hwf. pose proof (mw_dwf v Hwf) as Hw.
  destruct (mw_meta v Hwf) as (Hm & _). pose proof (mw_bm v Hwf) as Hbm. pose proof (re_lo v He).
  assert (Hid : forall w, w = v -> set_v_a (set_bm_hi (bm_hi (v_a v)) (set_bm_lo (bm_lo (v_a v)) (v_a v)))
            (set_v_dev (v_dev v) v) = w) by (intros w ->; by destruct v as [? []]).
  unfold vol_bitmap_flush in H. rewrite (mbind_eq _ _ _ v v) in H by done. cbv zeta in H.
  change (sb (v_a v)) with (vsb v) in H.
  destruct (_ <? _) eqn:Ec.
  { injection H as <- <-. split; [done|]. exists (v_dev v), (bm_lo (v_a v)), (bm_hi (v_a v)).
    split; [symmetry; by apply Hid|]. split; [|done].
    by replace (set_v_dev (v_dev v) v) with v by (by destruct v); apply vdev_refl. }
  set (lo := bm_lo (v_a v) - bm_lo (v_a v) mod INVFS_BLOCK_SIZE) in *.
  set (hi := Z.min _ (bitmap_blocks (v_a v) * INVFS_BLOCK_SIZE)) in H.
  assert (0 <= lo).
  { pose proof (Z.mod_le (bm_lo (v_a v)) INVFS_BLOCK_SIZE). unfold lo, INVFS_BLOCK_SIZE in *. lia. }
  assert (hi <= bitmap_blocks (v_a v) * INVFS_BLOCK_SIZE) by (unfold hi; lia). clearbody lo hi.
  destruct (lo <? hi) eqn:Elt; zbool.
  2: { injection H as <- <-. split; [done|]. exists (v_dev v), 1, 0.
       split; [by destruct v|]. split; [|done].
       by replace (set_v_dev (v_dev v) v) with v by (by destruct v); apply vdev_refl. }
  set (bs := slice (bitmap (v_a v)) lo (hi - lo)) in H.
  assert (Hbs : 0 <= zlen bs <= hi - lo).
  { unfold bs, slice. rewrite length_take. lia. }
  assert (Hok : dok (v_dev v) (metadata_zone_start (vsb v) * INVFS_BLOCK_SIZE + lo) (zlen bs)).
  { apply (re_bm_dok v He); unfold INVFS_BLOCK_SIZE in *; lia. }
  assert (Hpos : 0 <= metadata_zone_start (vsb v) * INVFS_BLOCK_SIZE + lo)
    by (unfold INVFS_BLOCK_SIZE; lia).
  apply mbind_run in H as [([] & v1 & E & H)|[E ->]].
  - injection H as <- <-. pose proof (latched_pwrite _ _ _ _ _ E Hl) as L.
    apply io_pwrite_spec in E as [Hd Hv]; [|done..]. destruct (Hv Hl) as [F _].
    split; [done|]. exists (v_dev v1), 1, 0. pose proof Hd as (Ev & _).
    split; [by rewrite Ev|]. split; [by rewrite <- Ev|]. split; [done|].
    intros a Ha. apply F. intros Hin. apply Ha, block_of. unfold INVFS_BLOCK_SIZE in *. lia.
  - pose proof (latched_pwrite _ _ _ _ _ E Hl) as L.
    apply io_pwrite_spec in E as [Hd Hv]; [|done..]. destruct (Hv Hl) as [F _].
    split; [done|]. exists (v_dev v'), (bm_lo (v_a v)), (bm_hi (v_a v)).
    pose proof Hd as (Ev & _). split; [rewrite Ev; by destruct v as [? []]|].
    split; [by rewrite <- Ev|]. split; [done|].
    intros a Ha. apply F. intros Hin. apply Ha, block_of. unfold INVFS_BLOCK_SIZE in *. lia.
Qed.
Lemma root_env_step v v' :
  root_env v -> vsb v' = vsb v -> bitmap (v_a v') = bitmap (v_a v) ->
  bitmap_blocks (v_a v') = bitmap_blocks (v_a v) -> v_x v' = v_x v -> spt0 v' = spt0 v ->
  mb_boot_cursor v' = mb_boot_cursor v -> mb_boot_end v' = mb_boot_end v ->
  dwf (v_dev v') -> (forall o m, dok (v_dev v') o m <-> dok (v_dev v) o m) ->
  0 <= bm_lo (v_a v') -> rt_ok (rt v') -> root_env v'.
Proof.
  intros He Es Eb En Ex Esp Ec Ee Hd Ho Hlo Hr. destruct He as [Hwf Hh H1 H2 H3 _ _ H4 H5 H6 H7 H8].
  constructor; unfold apart in *; rewrite ?Es, ?Ho, ?Ex, ?Esp in *; try done.
  - apply (mb_wf_step v); try done.
    + split_and!; try done; [exists (vol_flags (vsb v)); rewrite Es; apply sb_same_flags|by rewrite Eb].
    + intros q. unfold boot. by rewrite Ec, Ee.
    + intros q _ Hq. left. unfold bitv in *. by rewrite <- Eb.
  - by eapply heal_inv_dok.
  - intros. apply Ho, H3; try done. by rewrite <- En.
Qed.

(** The descriptor a publication stores. *)
Definition published (r : invfs_rt) (p : Z) : invfs_rt :=
  let r1 := set_root_slot (Z.land (rt_seq r) 1) p r in
  let r2 := set_rt_seq (u64 (rt_seq r1 + 1)) r1 in
  set_rt_crc (rt_crc r2) r2.
Definition current_rt v : invfs_rt := if rt_present v then rt v else rt_fresh.

Lemma publish_run p g v v' :
  mbuf_root_publish heal p g v = (Some tt, v') ->
  exists pg v1 v2 v3 b,
    let v0 := set_rt_present true (set_rt (current_rt v) v) in
    mbuf_read p v0 = (Some pg, v1) /\ mbuf_page_validate pg = true /\ page_gen pg = g /\
    vol_bitmap_flush v1 = (Some tt, v2) /\
    mbuf_rt30_store heal (set_rt (let r1 := set_root_slot (Z.land (rt_seq (rt v2)) 1) p (rt v2) in
                           set_rt_seq (u64 (rt_seq r1 + 1)) r1) v2) = (Some tt, v3) /\
    vol_barrier v3 = (Some b, v') /\ b <> BarFail.
Proof.
  intros H. unfold mbuf_root_publish in H.
  apply mguard_run in H as [[_ H]|(_ & ? & _)]; [|done].
  set (v0 := set_rt_present true (set_rt (current_rt v) v)).
  rewrite (mbind_eq _ _ _ tt v0) in H.
  2: { unfold mmod, v0, current_rt. destruct (rt_present v) eqn:E; [|done].
       rewrite <- E. by destruct v. }
  apply mbind_Some in H as (pg & v1 & E1 & H).
  apply mguard_run in H as [[Hg H]|(_ & ? & _)]; [|done]. zbool.
  apply mbind_Some in H as ([] & v2 & E2 & H).
  rewrite (mbind_eq _ _ _ tt (set_rt (let r1 := set_root_slot (Z.land (rt_seq (rt v2)) 1) p (rt v2) in
                           set_rt_seq (u64 (rt_seq r1 + 1)) r1) v2)) in H by done.
  apply mbind_Some in H as ([] & v3 & E3 & H).
  apply mbind_Some in H as (b & v4 & E4 & H). apply mguard_Some in H as [Hb ->].
  exists pg, v1, v2, v3, b. split_and!; try done. by intros ->.
Qed.

Lemma latched_flush v r v' :
  vol_bitmap_flush v = (r, v') -> latched v' = false -> latched v = false.
Proof.
  unfold vol_bitmap_flush. rewrite (mbind_eq _ _ _ v v) by done. cbv zeta.
  destruct (_ <? _); [by intros [= _ <-]|]. destruct (_ <? _); [|by intros [= _ <-]].
  intros [([] & v1 & E & H)|[E _]]%mbind_run; [|by eapply latched_pwrite].
  injection H as _ <-. intros Hl. exact (latched_pwrite _ _ _ _ _ E Hl).
Qed.

(** The page region: what every step of a publication leaves alone. *)
Lemma live_block v q a :
  live v q -> mb_wf v -> q * INVFS_BLOCK_SIZE <= a < q * INVFS_BLOCK_SIZE + INVFS_BLOCK_SIZE ->
  ~ bm_area v (a / INVFS_BLOCK_SIZE) /\ ~ in_rt a /\ ~ in_anchor v a /\ ~ in_devt a.
Proof.
  intros (_ & _ & _ & Hr & _) Hw Ha.
  assert (Eq : a / INVFS_BLOCK_SIZE = q).
  { pose proof (block_of a q 1). lia. }
  rewrite Eq. assert (0 < q) by (unfold reserved in Hr; lia).
  split_and!.
  - intros Hb. apply Hr. right. by left.
  - unfold in_rt, INVFS_RT_OFF, RT_LEN, INVFS_BLOCK_SIZE in *. lia.
  - intros Hin. apply Hr. right. right. unfold in_anchor, ANC_LEN, INVFS_BLOCK_SIZE in *. lia.
  - unfold in_devt, INVFS_DEVT_OFF, DEVT_LEN, INVFS_BLOCK_SIZE in *. lia.
Qed.

Lemma publish_spec p g v v' :
  root_env v -> live v p -> latched v' = false ->
  mbuf_root_publish heal p g v = (Some tt, v') ->
  rt v' = published (current_rt v) p /\ rt_present v' = true /\
  rt_ok (rt v') /\ mbuf_page_validate (page_at v p) = true /\ page_gen (page_at v p) = g /\
  vsb v' = vsb v /\ bitmap (v_a v') = bitmap (v_a v) /\
  (forall o m, dok (v_dev v') o m <-> dok (v_dev v) o m) /\
  vrange v' INVFS_RT_OFF RT_LEN = rt_bytes (rt v') /\
  (forall q, live v q -> apart v q -> page_at v' q = page_at v q).
Proof.
  intros He Hp Hl (pg & v1 & v2 & v3 & b & E1 & Hval & Hgen & E2 & E3 & E4 & Hb)%publish_run.
  set (v0 := set_rt_present true (set_rt (current_rt v) v)) in *.
  set (w := set_rt _ v2) in E3.
  pose proof (latched_barrier _ _ _ E4 Hl) as L3. pose proof (latched_store _ _ _ E3 L3) as L2.
  pose proof (latched_flush _ _ _ E2 L2) as L1. pose proof (latched_mbuf_read _ _ _ _ E1 L1) as L0.
  pose proof Hp as (Hpt & _ & Hpok & Hpr & _). assert (0 < p) by (unfold reserved in Hpr; lia).
  pose proof (re_wf v He) as Hwf. pose proof (mw_dwf v Hwf) as Hd.
  assert (Hr0 : rt_ok (current_rt v)).
  { unfold current_rt. destruct (rt_present v); [apply He|apply rt_ok_fresh]. }
  apply mbuf_read_spec in E1 as [((Ev1 & Hd1 & Ho1) & _ & Hv1) Hpg]; [|done|done|lia|done].
  assert (Epg : pg = page_at v p) by exact (Hpg _ eq_refl).
  assert (He1 : root_env v1).
  { apply (root_env_step v); try done; try (by rewrite Ev1). rewrite Ev1. apply He. }
  apply bitmap_flush_spec in E2 as (_ & d2 & lo & hi & Ev2 & (_ & Hd2 & Ho2) & Hlo & Hv2); [|done..].
  assert (Er2 : rt v2 = current_rt v) by (by rewrite Ev2, Ev1).
  assert (Hrw : rt_ok (rt w)).
  { unfold w. cbn [rt set_rt]. rewrite Er2. apply rt_ok_publish; [done|].
    pose proof (mw_size v Hwf). lia. }
  assert (Hew : root_env w).
  { assert (v_dev w = d2 /\ v_a w = set_bm_hi hi (set_bm_lo lo (v_a v)) /\ v_x w = v_x v /\
      spt0 w = spt0 v /\ mb_boot_cursor w = mb_boot_cursor v /\ mb_boot_end w = mb_boot_end v)
      as (Ed & Ea & Ex & Es & Ec & Ee) by (unfold w; by rewrite Ev2, Ev1).
    clearbody w. apply (root_env_step v); try done; unfold vsb; rewrite ?Ea, ?Ed; try done.
    intros o m. rewrite Ho2. apply Ho1. }
  apply rt30_store_spec in E3 as (Hf & _ & Hv3 & Hyes); [|done..].
  destruct (Hyes eq_refl) as [Hrt _]. pose proof Hf as (Ev3 & Hd3 & Ho3 & _).
  apply vol_barrier_spec in E4 as [(Ev' & Hd' & Ho') Hv4]; [|done..]. specialize (Hv4 Hl).
  assert (Esb : vsb w = vsb v) by (by unfold w; rewrite Ev2, Ev1).
  assert (Ert : rt v' = published (current_rt v) p).
  { rewrite Ev', Ev3. unfold w. cbn. by rewrite Er2. }
  split_and!.
  - done.
  - rewrite Ev', Ev3. unfold w. cbn. by rewrite Ev2, Ev1.
  - rewrite Ert. apply rt_ok_crc, rt_ok_publish; [done|]. pose proof (mw_size v Hwf). lia.
  - by rewrite <- Epg.
  - by rewrite <- Epg.
  - by rewrite Ev', Ev3.
  - by rewrite Ev', Ev3; unfold w; rewrite Ev2, Ev1.
  - intros o m. rewrite Ho', Ho3. unfold w. rewrite Ev2. cbn [v_dev set_rt set_v_a].
    rewrite Ho2. apply Ho1.
  - replace (rt v') with (rt (set_rt (set_rt_crc (rt_crc (rt w)) (rt w)) w)) by (by rewrite Ev', Ev3).
    rewrite <- Hrt. apply vrange_ext. intros a Ha. apply Hv4.
    unfold INVFS_DEVT_OFF, DEVT_LEN, INVFS_RT_OFF, RT_LEN in *. lia.
  - intros q Hq Hap. apply vrange_ext. intros a Ha.
    destruct (live_block v q a Hq Hwf Ha) as (Hbm & Hrt' & Han & Hdv).
    rewrite Hv4 by done. rewrite Hv3; [|done|by unfold in_anchor; rewrite Esb| |done].
    + unfold w. change (view (set_rt _ v2) a) with (view v2 a). rewrite Hv2; [by rewrite Hv1|].
      unfold bm_area. by rewrite Ev1.
    + unfold w. rewrite Ev2, Ev1. by apply Hap.
Qed.
(** *** What a later open reads *)

Lemma root_read_reopen v :
  quiet v -> slots_ok v -> rt_ok (rt v) -> rt_valid (rt v) = true ->
  dok (v_dev v) INVFS_RT_OFF RT_LEN -> 2 <= total_blocks (vsb v) ->
  vrange v INVFS_RT_OFF RT_LEN = rt_bytes (rt v) ->
  (slot_offer v 0 <> None \/ slot_offer v 1 <> None) ->
  exists v', mbuf_root_read (set_rt_present false v) =
    (Some (pick_root (rt_seq (rt v)) (slot_offer v 0) (slot_offer v 1)), v').
Proof.
  intros Hq Hs Hr Hval Hok Htot Hrt Hsome.
  set (w := set_rt rt_zero (set_rt_present false v)).
  destruct (io_pread_live INVFS_RT_OFF RT_LEN w) as (v1 & E & Hsame & Hq1 & _); try done.
  { unfold INVFS_RT_OFF, RT_LEN, INVFS_BLOCK_SIZE. change (vsb w) with (vsb v). lia. }
  change (vrange w INVFS_RT_OFF RT_LEN) with (vrange v INVFS_RT_OFF RT_LEN) in E.
  set (v2 := set_rt_present true (set_rt (rt v) v1)).
  assert (Eload : mbuf_rt30_load (set_rt_present false v) = (Some RtOk, v2)).
  { unfold mbuf_rt30_load. rewrite (mbind_eq _ _ _ tt w) by done.
    unfold mbind' at 1, mtry. rewrite E, Hrt, (rt_roundtrip _ Hr), Hval. done. }
  assert (Erd : mbuf_root_read (set_rt_present false v) = mbuf_root_read v2).
  { unfold mbuf_root_read. rewrite (mbind_eq _ _ _ (set_rt_present false v) (set_rt_present false v)) by done.
    rewrite (mbind_eq _ _ _ _ _ Eload). rewrite (mbind_eq _ _ _ v2 v2) by done.
    by rewrite (mbind_eq _ _ _ RtOk v2) by done. }
  destruct Hsame as ((Ev1 & _ & Ho) & Hl & Hv).
  assert (Eo : forall i, slot_offer v2 i = slot_offer v i).
  { intros i. unfold slot_offer. cbn [rt v2 set_rt set_rt_present].
    assert (Ep : page_at v2 (root_slot (rt v) i) = page_at v (root_slot (rt v) i))
      by (apply vrange_ext; intros; apply Hv).
    assert (Ea : mbuf_page_allocated v2 (root_slot (rt v) i) = mbuf_page_allocated v (root_slot (rt v) i))
      by (unfold v2; rewrite Ev1; done).
    by rewrite Ea, Ep. }
  rewrite Erd. destruct (root_read_present v2) as (v3 & E3 & _); try done.
  - intros i Hi. change (rt v2) with (rt v).
    assert (Ea : mbuf_page_allocated v2 (root_slot (rt v) i) = mbuf_page_allocated v (root_slot (rt v) i))
      by (unfold v2; rewrite Ev1; done).
    rewrite Ea. unfold blk_ok. cbn [v_dev v2 set_rt set_rt_present]. rewrite Ho. by apply Hs.
  - rewrite !Eo. destruct Hsome; auto.
  - exists v3. by rewrite E3, !Eo.
Qed.

Lemma seq_parity q : 0 <= q -> Z.land (u64 (q + 1)) 1 = 1 - Z.land q 1.
Proof.
  intros Hq. assert (H1 : forall x, Z.land x 1 = x mod 2) by (intros x; apply (Z.land_ones x 1); lia).
  rewrite !H1. unfold u64.
  rewrite Z.mod_mod_divide by (by exists (2 ^ 63)).
  rewrite Z.add_mod by lia. change (1 mod 2) with 1. pose proof (Z.mod_pos_bound q 2).
  assert (q mod 2 = 0 \/ q mod 2 = 1) as [->| ->] by lia; done.
Qed.

(** The slot a publication leaves alone. *)
Definition other_slot v : Z := root_slot (current_rt v) (1 - Z.land (rt_seq (current_rt v)) 1).

(** What it offered to readers. *)
Definition other_offer v : option (Z * Z) :=
  slot_offer (set_rt (current_rt v) v) (1 - Z.land (rt_seq (current_rt v)) 1).
Definition other_ok v : Prop :=
  other_slot v = 0 \/ (0 < other_slot v /\ mbuf_page_allocated v (other_slot v) = false) \/
  (live v (other_slot v) /\ apart v (other_slot v)).

Lemma live_allocated v q : live v q -> 0 < q /\ mbuf_page_allocated v q = true.
Proof.
  intros (? & Hb & _ & Hr & _). assert (0 < q) by (unfold reserved in Hr; lia).
  split; [done|]. unfold mbuf_page_allocated.
  rewrite (proj2 (Z.leb_gt q 0)), (proj2 (Z.leb_gt _ _)) by lia. done.
Qed.

Lemma allocated_same v v' q :
  vsb v' = vsb v -> bitmap (v_a v') = bitmap (v_a v) ->
  mbuf_page_allocated v' q = mbuf_page_allocated v q.
Proof. intros E1 E2. unfold mbuf_page_allocated. by rewrite E1, E2. Qed.

Lemma published_slots r p s :
  s = Z.land (rt_seq r) 1 ->
  root_slot (published r p) s = p /\ root_slot (published r p) (1 - s) = root_slot r (1 - s).
Proof.
  intros ->. assert (Hs : Z.land (rt_seq r) 1 = 0 \/ Z.land (rt_seq r) 1 = 1).
  { assert (E : Z.land (rt_seq r) 1 = rt_seq r mod 2) by (apply (Z.land_ones _ 1); lia).
    pose proof (Z.mod_pos_bound (rt_seq r) 2). lia. }
  unfold published, set_root_slot, root_slot. destruct Hs as [->| ->]; done.
Qed.

(** The reader's choice after a publication. *)
Lemma publish_choice p g v v' :
  root_env v -> live v p -> apart v p -> other_ok v ->
  (rt_present v = true -> rt_magic (rt v) = RT_MAGIC /\ rt_version (rt v) = INVFS_RT_VERSION) ->
  mbuf_root_publish heal p g v = (Some tt, v') -> quiet v' ->
  exists w, mbuf_root_read (set_rt_present false v') =
    (Some (match other_offer v with
           | Some (q, gq) => if g <=? gq then Some (q, gq) else Some (p, g)
           | None => Some (p, g)
           end), w).
Proof.
  intros He Hp Hap Hoth Hrt H Hq. destruct (dquiet_wf _ (proj1 Hq)) as [_ Hl].
  apply publish_spec in H as (Er & Hpr & Hok & Hval & Hgen & Esb & Ebm & Ho & Hrng & Hpg); try done.
  destruct (published_slots (current_rt v) p _ eq_refl) as [Es Eo].
  pose proof (mw_size v (re_wf v He)) as Htot.
  assert (Hseq : 0 <= rt_seq (current_rt v)).
  { unfold current_rt. destruct (rt_present v); [apply (re_rt v He)|done]. }
  pose proof (seq_parity _ Hseq) as Hpar. destruct (live_allocated v p Hp) as [Hp0 Hpa].
  set (s := Z.land (rt_seq (current_rt v)) 1) in *.
  assert (Hs : s = 0 \/ s = 1).
  { unfold s. assert (E : Z.land (rt_seq (current_rt v)) 1 = rt_seq (current_rt v) mod 2)
      by (apply (Z.land_ones _ 1); lia).
    pose proof (Z.mod_pos_bound (rt_seq (current_rt v)) 2). lia. }
  assert (Hnew : slot_offer v' s = Some (p, g)).
  { unfold slot_offer. rewrite Er, Es, (proj2 (Z.eqb_neq _ _)) by lia.
    rewrite (allocated_same v v' p), Hpa, Hpg, Hval, Hgen by done. done. }
  assert (Hold : slot_offer v' (1 - s) = other_offer v).
  { unfold other_offer, slot_offer. fold s. cbn [rt set_rt]. rewrite Er, Eo.
    change (root_slot (current_rt v) (1 - s)) with (other_slot v).
    rewrite (allocated_same v v' _) by done.
    change (mbuf_page_allocated (set_rt _ v)) with (mbuf_page_allocated v).
    destruct Hoth as [->|[[_ ->]|[Hlq Haq]]]; [done| |by rewrite Hpg].
    by destruct (_ =? 0). }
  destruct (root_read_reopen v') as (w & Ew); try done.
  - intros i Hi. rewrite Er, (allocated_same v v') by done. unfold blk_ok. rewrite Ho.
    assert (i = s \/ i = 1 - s) as [->| ->] by lia.
    + rewrite Es. split; [lia|]. intros _. apply Hp.
    + rewrite Eo. change (root_slot (current_rt v) (1 - s)) with (other_slot v).
      destruct Hoth as [->|[[? ->]|[Hlq _]]]; [done| |].
      * split; [lia|done].
      * split; [by destruct (live_allocated _ _ Hlq); lia|]. intros _. apply Hlq.
  - rewrite Er. apply rt_valid_stored.
    + unfold set_root_slot, current_rt. destruct (_ =? 0), (rt_present v); cbn; auto; by apply Hrt.
    + unfold set_root_slot, current_rt. destruct (_ =? 0), (rt_present v); cbn; auto; by apply Hrt.
  - apply Ho, He.
  - rewrite Esb. lia.
  - destruct Hs as [Es0|Es0]; rewrite Es0 in Hnew; rewrite Hnew; [by left|by right].
  - exists w. rewrite Ew. do 2 f_equal. unfold pick_root.
    assert (Eseq : Z.land (rt_seq (rt v')) 1 = 1 - s).
    { rewrite Er. unfold published, set_root_slot. rewrite <- Hpar.
      by destruct (Z.land (rt_seq (current_rt v)) 1 =? 0). }
    rewrite Eseq. clearbody s.
    destruct Hs as [-> | ->].
    + rewrite Hnew. change (1 - 0) with 1 in *. rewrite Hold.
      destruct (other_offer v) as [[q gq]|]; [|done].
      destruct (Z.leb_spec g gq), (Z.ltb_spec g gq), (Z.eqb_spec gq g); try lia; done.
    + rewrite Hnew. change (1 - 1) with 0 in *. rewrite Hold.
      destruct (other_offer v) as [[q gq]|]; [|done].
      destruct (Z.leb_spec g gq), (Z.ltb_spec gq g), (Z.eqb_spec g gq); try lia; done.
Qed.


(** A publication of a root that is not of a newer generation has no
    effect on readers.  If the other slot offers a page of the same or a
    higher generation, [mbuf_root_publish] reports success and the next open
    still reads the other slot's root.  On a tie the reader prefers slot
    [seq & 1], which after the increment is the older one; and the save-point
    rollback publishes the pinned root, whose generation is the older one. *)
Theorem stale_publish_ineffective p g v v' q gq :
  root_env v -> live v p -> apart v p -> other_ok v ->
  (rt_present v = true -> rt_magic (rt v) = RT_MAGIC /\ rt_version (rt v) = INVFS_RT_VERSION) ->
  other_offer v = Some (q, gq) -> g <= gq ->
  mbuf_root_publish heal p g v = (Some tt, v') -> quiet v' ->
  exists w, mbuf_root_read (set_rt_present false v') = (Some (Some (q, gq)), w).
Proof.
  intros He Hp Hap Ho Hrt Eo Hg H Hq. destruct (publish_choice p g v v') as [w E]; try done.
  exists w. rewrite E, Eo. by rewrite (proj2 (Z.leb_le _ _)).
Qed.
End publish.

(** ** A concrete volume: forty blocks on one device, no delta log *)

Section demo.
Import Ram.

Definition no_delta : M (vol ram unit) unit := mret tt.

#[export] Program Instance no_delta_laws : HealLaws no_delta := {
  heal_area _ _ := False;
  heal_inv _ _ := True
}.
Next Obligation. done. Qed.
Next Obligation. by intros v r v' [= _ <-]. Qed.
Next Obligation.
  intros v r v' Hw Hl _ [= _ <-]. split_and!; try done. by destruct v.
Qed.

Definition demo_device : ram := mkRam (replicate 41 (zeros INVFS_BLOCK_SIZE)).

Definition demo_vol : vol ram unit :=
  mkVol demo_device (set_bitmap (15 :: zeros 4) demo_avol) 0 0 1 0 false rt_zero
    AnchorOk anc_zero false false (zeros 32) orph_init true null_ptr null_ptr tt.

Definition rt_okb (r : invfs_rt) : bool :=
  let fits x n := (0 <=? x) && (x <? 256 ^ n) in
  (length (rt_magic r) =? 4)%nat && fits (rt_version r) 4 && fits (rt_page_size r) 4 &&
  fits (root_slot0 r) 8 && fits (root_slot1 r) 8 && fits (delta_pba r) 8 &&
  fits (rt_seq r) 8 && fits (rt_crc32c r) 4 && bytes_okb (rt_magic r).

Definition ram_wfb (d : ram) : bool :=
  forallb (fun b => zlen b =? INVFS_BLOCK_SIZE) (ram_blocks d).

Lemma ram_wfb_ok d : ram_wfb d = true -> ram_wf d.
Proof.
  unfold ram_wfb, ram_wf. rewrite forallb_forall, Forall_forall. intros H b Hb.
  by apply Z.eqb_eq, H.
Qed.

Lemma block_dok (v : vol ram unit) p : blk_ok v p.
Proof. unfold blk_ok. cbn. unfold ofs. by rewrite Z.mod_mul. Qed.

(** Decide [root_env] for a volume with one bitmap block and no boot pages. *)
Definition env_check (v : vol ram unit) : bool :=
  let s := vsb v in
  ram_wfb (v_dev v) && (bitmap_blocks (v_a v) =? 1) &&
  (mb_boot_cursor v =? 0) && (2 <=? total_blocks s) && (total_blocks s <? 2 ^ 52) &&
  (total_blocks s <=? 8 * zlen (bitmap (v_a v))) &&
  (0 <? metadata_zone_start s) && (0 <=? metadata_zone_blocks s) &&
  (metadata_zone_start s + metadata_zone_blocks s <=? anchor_pba s) &&
  (0 <=? bitmap_blocks (v_a v)) && (bitmap_blocks (v_a v) <=? metadata_zone_blocks s) &&
  (0 <? shadow_zone_start s) && (0 <=? shadow_zone_blocks s) &&
  (shadow_zone_start s + shadow_zone_blocks s <=? total_blocks s) &&
  forallb (bit_get (bitmap (v_a v))) (seqZ (metadata_zone_start s) (bitmap_blocks (v_a v))) &&
  (0 <=? bm_lo (v_a v)) && rt_okb (rt v) &&
  (length (sb_uuid s) =? 16)%nat && bytes_okb (sb_uuid s) &&
  (0 <=? format_version s) && (format_version s <? 2 ^ 32) &&
  (length (spt0 v) =? 32)%nat && bytes_okb (spt0 v).

Lemma env_check_ok v : env_check v = true -> root_env no_delta v.
Proof.
  unfold env_check, rt_okb. intros H. zbool.
  repeat match goal with H : (_ =? _)%nat = true |- _ => apply Nat.eqb_eq in H end.
  assert (Hw : ram_wf (v_dev v)) by (by apply ram_wfb_ok).
  constructor; try done; try lia; auto using bytes_okb_ok; try (by intros ? ? []).
  - constructor; try done; try lia.
    + intros p Hp. unfold bm_area in Hp.
      match goal with H : forallb _ _ = true |- _ =>
        rewrite forallb_forall in H; apply H, list_elem_of_In, elem_of_seqZ; lia end.
    + intros p _ _. apply block_dok.
    + intros p [? _]. done.
  - cbn. unfold ofs. by rewrite Z.mod_mul.
  - intros o m Ho Hm Hle. cbn. unfold ofs.
    pose proof (Z.div_mod o INVFS_BLOCK_SIZE ltac:(done)).
    pose proof (Z.mod_pos_bound o INVFS_BLOCK_SIZE ltac:(done)).
    unfold INVFS_BLOCK_SIZE in *. nia.
  - constructor; try lia. by apply bytes_okb_ok.
Qed.

Definition live_check (v : vol ram unit) (p : Z) : bool :=
  (mb_boot_cursor v =? 0) && (0 <? p) && (p <? total_blocks (vsb v)) &&
  bit_get (bitmap (v_a v)) p &&
  (metadata_zone_start (vsb v) + bitmap_blocks (v_a v) <=? p) &&
  negb (p =? anchor_pba (vsb v)).

Lemma live_check_ok v p : live_check v p = true -> live v p.
Proof.
  unfold live_check. intros H. zbool. split_and!; try done.
  - apply block_dok.
  - intros [?|[Ha|?]]; [lia| |done]. unfold bm_area in Ha. lia.
  - by intros [? _].
Qed.

Definition quiet_check (v : vol ram unit) : bool :=
  ram_wfb (v_dev v) && (total_blocks (vsb v) <? zlen (ram_blocks (v_dev v))).

Lemma quiet_check_ok v : quiet_check v = true -> quiet v.
Proof.
  unfold quiet_check. intros H. zbool. split; [by apply ram_wfb_ok|].
  cbn. unfold INVFS_BLOCK_SIZE. lia.
Qed.

(** Two pages, generations 7 and 8, the first one published. *)
Definition demo_two : vol ram unit :=
  snd (mbuf_alloc 8 (snd (mbuf_alloc 7 demo_vol))).
Definition demo_pub : vol ram unit := snd (mbuf_root_publish no_delta 20 7 demo_two).

Lemma run_eq {S A} (m : M S A) s a : fst (m s) = Some a -> m s = (Some a, snd (m s)).
Proof. destruct (m s); simpl. by intros ->. Qed.


(** The roll-back case: generation 8 is published, then generation 7 again. *)
Lemma stale_publish_ineffective_witness :
  exists w, mbuf_root_read (set_rt_present false (snd (mbuf_root_publish no_delta 20 7
              (snd (mbuf_root_publish no_delta 21 8 demo_two))))) = (Some (Some (21, 8)), w).
Proof.
  apply (stale_publish_ineffective no_delta 20 7 (snd (mbuf_root_publish no_delta 21 8 demo_two))).
  - apply env_check_ok. vm_compute. reflexivity.
  - apply live_check_ok. vm_compute. reflexivity.
  - by intros a _ [].
  - right. right. split; [|by intros a _ []]. apply live_check_ok. vm_compute. reflexivity.
  - intros _. split; vm_compute; reflexivity.
  - vm_compute. reflexivity.
  - lia.
  - apply run_eq. vm_compute. reflexivity.
  - apply quiet_check_ok. vm_compute. reflexivity.
Defined.
(** The stored descriptor, then an open that finds block 0's copy wiped. *)
Definition demo_stored : vol ram unit := snd (mbuf_rt30_store no_delta demo_pub).
Definition demo_wiped : vol ram unit :=
  snd (io_pwrite INVFS_RT_OFF (zeros RT_LEN) demo_stored).

Definition reopened_check (w : vol ram unit) : bool :=
  ram_wfb (v_dev w) && (0 <? anchor_pba (vsb w)).

Lemma reopened_check_ok w : reopened_check w = true -> reopened w.
Proof.
  unfold reopened_check. intros H. zbool. constructor; try done; [by apply ram_wfb_ok|].
  cbn. unfold ofs. by rewrite Z.mod_mul.
Qed.

Lemma anchor_restores_root_witness :
  rt_valid (rt_parse (vrange demo_wiped INVFS_RT_OFF RT_LEN)) = false /\
  rt (snd (mbuf_rt30_load (snd (anchor_probe demo_wiped)))) = rt demo_stored.
Proof.
  assert (Hinv : rt_valid (rt_parse (vrange demo_wiped INVFS_RT_OFF RT_LEN)) = false)
    by (vm_compute; reflexivity).
  split; [exact Hinv|].
  destruct (anchor_restores_root no_delta demo_pub demo_stored demo_wiped AnchorOk
    (snd (anchor_probe demo_wiped)) RtOk (snd (mbuf_rt30_load (snd (anchor_probe demo_wiped)))))
    as (_ & _ & _ & H).
  - apply env_check_ok. vm_compute. reflexivity.
  - vm_compute. reflexivity.
  - vm_compute. reflexivity.
  - vm_compute. reflexivity.
  - refine (run_eq (mbuf_rt30_store no_delta) demo_pub tt _). vm_compute. reflexivity.
  - vm_compute. reflexivity.
  - vm_compute. reflexivity.
  - apply reopened_check_ok. vm_compute. reflexivity.
  - vm_compute. reflexivity.
  - vm_compute. reflexivity.
  - intros a Ha. assert (Hc : forallb (fun a => view demo_wiped a =? view demo_stored a)
      (seqZ (anchor_pba (vsb demo_pub) * INVFS_BLOCK_SIZE) ANC_LEN) = true)
      by (vm_compute; reflexivity).
    rewrite forallb_forall in Hc. apply Z.eqb_eq, (Hc a), list_elem_of_In, elem_of_seqZ.
    exact Ha.
  - apply run_eq. vm_compute. reflexivity.
  - discriminate.
  - apply run_eq. vm_compute. reflexivity.
  - discriminate.
  - cbv zeta in H. rewrite Hinv in H. exact (proj1 H).
Defined.

(** The same tail block under a superblock with another uuid. *)
Definition demo_foreign : vol ram unit :=
  set_v_a (set_sb (mkSb (1 :: zeros 15) 0 4096 40 1 3 4 16 20 20 0 2 VOLF_META 0 0 0 0)
             (v_a demo_wiped)) demo_wiped.

Lemma anchor_foreign_refused_witness :
  fst (anchor_probe demo_foreign) = Some AnchorRefusedGeometry /\
  rt_present (snd (mbuf_rt30_load (snd (anchor_probe demo_foreign)))) = false.
Proof.
  destruct (anchor_foreign_refused demo_stored demo_foreign AnchorRefusedGeometry
    (snd (anchor_probe demo_foreign)) RtAbsent
    (snd (mbuf_rt30_load (snd (anchor_probe demo_foreign))))) as (_ & _ & H).
  - assert (He : root_env no_delta demo_stored) by (apply env_check_ok; vm_compute; reflexivity).
    exact (root_env_anchor no_delta demo_stored He).
  - apply reopened_check_ok. vm_compute. reflexivity.
  - vm_compute. reflexivity.
  - right. right. vm_compute. discriminate.
  - vm_compute. reflexivity.
  - apply run_eq. vm_compute. reflexivity.
  - discriminate.
  - apply run_eq. vm_compute. reflexivity.
  - discriminate.
  - split; [vm_compute; reflexivity|exact H].
Defined.
Definition demo_page : bytes := mbuf_page_init 1 42.

Lemma page_lifecycle_witness :
  fst (mbuf_read_ptr (mbuf_ptr_set 22 (mbuf_page_seal demo_page) 1)
         (snd (mbuf_write 22 demo_page (snd (mbuf_alloc 9 demo_two)))))
    = Some (mbuf_page_seal demo_page) /\ ~ live demo_two 22.
Proof.
  set (v1 := snd (mbuf_alloc 9 demo_two)). set (v2 := snd (mbuf_write 22 demo_page v1)).
  set (ptr := mbuf_ptr_set 22 (mbuf_page_seal demo_page) 1).
  assert (Hread : is_ok (fst (mbuf_read_ptr ptr v2)) = true) by (vm_compute; reflexivity).
  assert (L : latched (snd (mbuf_read_ptr ptr v2)) = false) by (vm_compute; reflexivity).
  assert (He : env_check demo_two = true) by (vm_compute; reflexivity).
  assert (A1 : fst (mbuf_alloc 9 demo_two) = Some 22) by (vm_compute; reflexivity).
  assert (A2 : fst (mbuf_write 22 demo_page v1) = Some (mbuf_page_seal demo_page))
    by (vm_compute; reflexivity).
  destruct (page_lifecycle 9 demo_two 22 v1 demo_page (mbuf_page_seal demo_page) v2 1 _ _ _ _
    (re_wf no_delta demo_two (env_check_ok _ He)) (length_page_init 1 42) (page_init_ok 1 42) L
    (run_eq _ _ _ A1) (run_eq _ _ _ A2) (surjective_pairing (mbuf_read_ptr ptr v2))
    (surjective_pairing (mbuf_free 22 (snd (mbuf_read_ptr ptr v2))))) as (Hf & _ & Hb & _).
  split; [|exact Hf]. destruct (fst (mbuf_read_ptr ptr v2)) as [b|]; [|discriminate Hread].
  f_equal. exact (Hb b eq_refl).
Defined.

(** Block 2 of the metadata zone is pinned by an armed save point. *)
Definition demo_pinned : vol ram unit :=
  set_v_a (set_spn_armed true (set_spn_bitmap (Some [4; 0; 0; 0; 0]) (v_a demo_vol))) demo_vol.

Lemma mbuf_free_pin_counter_witness :
  bitmap (v_a (snd (mbuf_free 2 demo_pinned))) = bitmap (v_a demo_pinned) /\
  meta_free_blocks (v_a (snd (mbuf_free 2 demo_pinned))) = meta_free_blocks (v_a demo_pinned) + 1.
Proof.
  refine (proj1 (mbuf_free_pin_counter 2 demo_pinned _ _ _) _ _).
  - vm_compute. split; reflexivity.
  - vm_compute. discriminate.
  - vm_compute. split; [discriminate|reflexivity].
  - vm_compute. reflexivity.
  - vm_compute. reflexivity.
Defined.
End demo.

End Metabuf.
