(* ===== verification/Keys.v ===== *)
(** * Keys of the metadata trees (volume_internal.h, vol_btree.c)

    The one byte order that the base tree, the delta log and the fold share,
    and the four key spaces of the base tree: inode rows, directory entries,
    extended attributes and recipes. *)

From Stdlib Require Import ZifyBool.
From S2P Require Import Prelude Volume Page.

Module Keys.
Import Volume Page.

(** ** The order *)

(** [memcmp(a, b, n)]: the difference of the first differing bytes. *)
Fixpoint memcmp (n : nat) (a b : bytes) : Z :=
  match n, a, b with
  | S n, x :: a, y :: b => if x =? y then memcmp n a b else x - y
  | _, _, _ => 0
  end.

(** Source: core/volume_internal.h:1206-1218 [vol_key_cmp] *)
Definition vol_key_cmp (a b : bytes) : Z :=
  let m := Z.min (zlen a) (zlen b) in
  let c := if m =? 0 then 0 else memcmp (Z.to_nat m) a b in
  if negb (c =? 0) then (if c <? 0 then -1 else 1)
  else if zlen a <? zlen b then -1
  else if zlen b <? zlen a then 1
  else 0.

(** ** The four key spaces of the base tree *)

(** [for (i = 0; i < 8; i++) k[i] = (uint8_t)(id >> (56 - 8 * i));] *)
Definition put_be64 (id : Z) : bytes :=
  map (fun i => u8 (Z.shiftr id (56 - 8 * i))) (seqZ 0 8).

(** Source: core/vol_btree.c:2596-2608 [ino_key] *)
Definition ino_key (id : Z) : bytes := put_be64 id.

Definition INVFS_MAX_NAME : Z := 255.
Definition INVFS_XATTR_KEY_PREFIX : Z := 3.
Definition INVFS_RECIPE_KEY_PREFIX : Z := 4.
Definition XATTR_FIXED : Z := 11.
Definition XATTR_CHUNK_EXTRA : Z := 3.

(** Source: core/vol_btree.c:2986-2998 [xattr_key] *)
Definition xattr_key (ino : Z) (name : bytes) : bytes :=
  INVFS_XATTR_KEY_PREFIX :: put_be64 ino ++
  [u8 (Z.shiftr (zlen name) 8); Z.land (zlen name) 255] ++ name.

(** Source: core/vol_btree.c:3000-3008 [xattr_chunk_key] *)
Definition xattr_chunk_key (ino : Z) (name : bytes) (idx : Z) : bytes :=
  xattr_key ino name ++ [0; u8 (Z.shiftr idx 8); Z.land idx 255].

(** Source: core/vol_btree.c:3012-3035 [xattr_key_decode]
    The name, whether the key is a continuation chunk, and its index. *)
Definition xattr_key_decode (p : bytes) : option (bytes * bool * Z) :=
  let n := zlen p in
  if (n <? XATTR_FIXED) || negb (nthZ p 0 =? INVFS_XATTR_KEY_PREFIX) then None
  else
    let nl := u16 (Z.lor (Z.shiftl (nthZ p 9) 8) (nthZ p 10)) in
    if (nl =? 0) || (INVFS_MAX_NAME <? nl) then None
    else
      let base := u16 (XATTR_FIXED + nl) in
      let name := slice p XATTR_FIXED nl in
      if n =? base then Some (name, false, 0)
      else if (n =? base + XATTR_CHUNK_EXTRA) && (nthZ p base =? 0) then
        Some (name, true, u16 (Z.lor (Z.shiftl (nthZ p (base + 1)) 8) (nthZ p (base + 2))))
      else None.

(** Source: core/vol_btree.c:4031-4036 [recipe_key] *)
Definition recipe_key (addr : bytes) : bytes := INVFS_RECIPE_KEY_PREFIX :: addr.

(** Source: core/vol_btree.c:4038-4047 [recipe_chunk_key] *)
Definition recipe_chunk_key (addr : bytes) (chunk_idx : Z) : bytes :=
  INVFS_RECIPE_KEY_PREFIX :: addr ++ [0; u8 (Z.shiftr chunk_idx 8); Z.land chunk_idx 255].

Definition DIRENT_KEY_FIXED : Z := 10.

(** Source: core/vol_btree.c:4423-4434 [dirent_key] *)
Definition dirent_key (parent : Z) (name : bytes) : bytes :=
  put_be64 parent ++ [u8 (Z.shiftr (zlen name) 8); Z.land (zlen name) 255] ++ name.

(** Source: core/vol_btree.c:4436-4440 [dirent_key_len] *)
Definition dirent_key_len (kb : bytes) : Z :=
  u16 (DIRENT_KEY_FIXED + Z.lor (u16 (Z.shiftl (nthZ kb 8) 8)) (nthZ kb 9)).

(** Source: core/vol_btree.c:4442-4447 [dirent_val] *)
Definition dirent_val (child : Z) : bytes := put_be64 child.

(** Source: core/vol_btree.c:4449-4458 [dirent_val_get] *)
Definition dirent_val_get (p : bytes) : Z :=
  if zlen p <? 8 then 0
  else foldl (fun id i => u64 (Z.lor (Z.shiftl id 8) (nthZ p i))) 0 (seqZ 0 8).

(** ** The inode row *)

(** Source: core/volume.h:312-324 [invfs_inode] *)
Record invfs_inode := mkInode {
  i_type : Z;
  i_mode : Z;
  i_uid : Z;
  i_gid : Z;
  i_mtime : Z;
  i_atime : Z;
  i_nlink : Z;
  i_rdev : Z;
  i_size : Z;
  i_recipe : invfs_blkptr;
  i_recipe_addr : bytes
}.

Definition INVFS_INODE_ROW_VERSION : Z := 2.
Definition INVFS_INODE_ROW_FIXED : Z := 114.

(** A two's complement 64-bit field. *)
Definition s64 (x : Z) : Z := if x <? 2 ^ 63 then x else x - 2 ^ 64.

(** [sizeof(invfs_blkptr)] is 24: pba, checksum, gen, flags. *)
Definition ptr_bytes (p : invfs_blkptr) : bytes :=
  le_bytes 8 (bp_pba p) ++ le_bytes 4 (bp_checksum p) ++ le_bytes 8 (bp_gen p) ++
  le_bytes 4 (bp_flags p).

Definition ptr_parse (bs : bytes) : invfs_blkptr :=
  mkPtr (field bs 0 8) (field bs 8 4) (field bs 12 8) (field bs 20 4).

(** Source: core/vol_btree.c:2611-2630 [ino_encode] *)
Definition ino_encode (i : invfs_inode) : bytes :=
  le_bytes 4 INVFS_INODE_ROW_VERSION ++ le_bytes 4 (i_type i) ++ le_bytes 2 (i_mode i) ++
  le_bytes 4 (i_uid i) ++ le_bytes 4 (i_gid i) ++ le_bytes 8 (i_mtime i) ++
  le_bytes 8 (i_atime i) ++ le_bytes 4 (i_nlink i) ++ le_bytes 8 (i_rdev i) ++
  le_bytes 8 (i_size i) ++ ptr_bytes (i_recipe i) ++ le_bytes 4 0 ++ i_recipe_addr i.

(** Source: core/vol_btree.c:2632-2654 [ino_decode] *)
Definition ino_decode (buf : bytes) : option invfs_inode :=
  let len := zlen buf in
  if len <? INVFS_INODE_ROW_FIXED then None
  else if negb (field buf 0 4 =? INVFS_INODE_ROW_VERSION) then None
  else if u32 (len - INVFS_INODE_ROW_FIXED) <? field buf 78 4 then None
  else Some (mkInode (field buf 4 4) (field buf 8 2) (field buf 10 4) (field buf 14 4)
    (s64 (field buf 18 8)) (s64 (field buf 26 8)) (field buf 34 4) (field buf 38 8)
    (field buf 46 8) (ptr_parse (slice buf 54 24)) (slice buf 82 32)).

(** Reference: the lexicographic order on byte strings. *)
Fixpoint lex (a b : bytes) : comparison :=
  match a, b with
  | [], [] => Eq
  | [], _ :: _ => Lt
  | _ :: _, [] => Gt
  | x :: a, y :: b => match Z.compare x y with Eq => lex a b | c => c end
  end.

Definition sign (c : comparison) : Z := match c with Lt => -1 | Eq => 0 | Gt => 1 end.

Lemma key_cmp_cons x a y b :
  vol_key_cmp (x :: a) (y :: b) = if x =? y then vol_key_cmp a b else if x <? y then -1 else 1.
Proof.
  unfold vol_key_cmp. cbn [length].
  set (m := Z.min (zlen a) (zlen b)).
  replace (Z.min (Z.of_nat (S (length a))) (Z.of_nat (S (length b)))) with (m + 1) by lia.
  rewrite (proj2 (Z.eqb_neq (m + 1) 0)) by lia.
  replace (Z.to_nat (m + 1)) with (S (Z.to_nat m)) by lia.
  replace (if m =? 0 then 0 else memcmp (Z.to_nat m) a b) with (memcmp (Z.to_nat m) a b).
  2: { destruct (Z.eqb_spec m 0) as [->|]; done. }
  replace (Z.of_nat (S (length a)) <? Z.of_nat (S (length b))) with (zlen a <? zlen b) by lia.
  replace (Z.of_nat (S (length b)) <? Z.of_nat (S (length a))) with (zlen b <? zlen a) by lia.
  cbn [memcmp]. destruct (Z.eqb_spec x y); [done|].
  rewrite (proj2 (Z.eqb_neq (x - y) 0)) by lia. cbn [negb].
  by replace (x - y <? 0) with (x <? y) by lia.
Qed.

(** [vol_key_cmp] is the lexicographic order. *)
Lemma key_cmp_lex a b : vol_key_cmp a b = sign (lex a b).
Proof.
  revert b. induction a as [|x a IH]; intros [|y b]; try done.
  rewrite key_cmp_cons, IH. cbn [lex].
  destruct (Z.compare_spec x y) as [->|Hlt|Hgt].
  - by rewrite Z.eqb_refl.
  - rewrite (proj2 (Z.eqb_neq x y)), (proj2 (Z.ltb_lt x y)) by lia. done.
  - rewrite (proj2 (Z.eqb_neq x y)), (proj2 (Z.ltb_ge x y)) by lia. done.
Qed.

Definition key_lt (a b : bytes) : Prop := lex a b = Lt.
Definition key_le (a b : bytes) : Prop := lex a b <> Gt.

Lemma lex_refl a : lex a a = Eq.
Proof. induction a as [|x a IH]; [done|]. cbn. by rewrite Z.compare_refl. Qed.

Lemma lex_eq a b : lex a b = Eq <-> a = b.
Proof.
  split; [|intros ->; apply lex_refl]. revert b.
  induction a as [|x a IH]; intros [|y b]; try done. cbn.
  destruct (Z.compare_spec x y) as [->| |]; try done. intros H. f_equal. by apply IH.
Qed.

Lemma lex_opp a b : lex b a = CompOpp (lex a b).
Proof.
  revert b. induction a as [|x a IH]; intros [|y b]; try done. cbn.
  rewrite (Z.compare_antisym x y). destruct (x ?= y); try done. apply IH.
Qed.

Lemma key_lt_trans a b c : key_lt a b -> key_lt b c -> key_lt a c.
Proof.
  unfold key_lt. revert b c. induction a as [|x a IH]; intros [|y b] [|z c]; try done. cbn.
  destruct (Z.compare_spec x y) as [E1|E1|E1], (Z.compare_spec y z) as [E2|E2|E2]; try done;
    destruct (Z.compare_spec x z) as [E3|E3|E3]; try lia; try done.
  apply IH.
Qed.

Lemma key_lt_irrefl a : ~ key_lt a a.
Proof. unfold key_lt. by rewrite lex_refl. Qed.

Lemma key_le_lt_eq a b : key_le a b <-> key_lt a b \/ a = b.
Proof.
  unfold key_le, key_lt. rewrite <- (lex_eq a b). destruct (lex a b); clear; naive_solver.
Qed.

Lemma key_lt_le a b : key_lt a b -> key_le a b.
Proof. rewrite key_le_lt_eq. auto. Qed.

Lemma key_le_not_lt a b : key_le a b <-> ~ key_lt b a.
Proof.
  unfold key_le, key_lt. rewrite (lex_opp a b). destruct (lex a b); naive_solver.
Qed.

Lemma key_not_le a b : ~ key_le a b <-> key_lt b a.
Proof.
  unfold key_le, key_lt. rewrite (lex_opp a b). destruct (lex a b); naive_solver.
Qed.

Lemma key_le_refl a : key_le a a.
Proof. unfold key_le. by rewrite lex_refl. Qed.

Lemma key_le_lt_trans a b c : key_le a b -> key_lt b c -> key_lt a c.
Proof. rewrite key_le_lt_eq. intros [?| ->]; eauto using key_lt_trans. Qed.
Lemma key_lt_le_trans a b c : key_lt a b -> key_le b c -> key_lt a c.
Proof. rewrite key_le_lt_eq. intros ? [?| <-]; eauto using key_lt_trans. Qed.
Lemma key_le_trans a b c : key_le a b -> key_le b c -> key_le a c.
Proof.
  rewrite (key_le_lt_eq a b). intros [?| ->]; [|done]. intros.
  apply key_lt_le. by eapply key_lt_le_trans.
Qed.
Lemma key_nil_le a : key_le [] a.
Proof. by destruct a. Qed.

(** What the code's comparisons of a result with 0 mean. *)
Lemma key_cmp_lt a b : vol_key_cmp a b < 0 <-> key_lt a b.
Proof. rewrite key_cmp_lex. unfold key_lt. destruct (lex a b); cbn; split; done || lia. Qed.
Lemma key_cmp_le a b : vol_key_cmp a b <= 0 <-> key_le a b.
Proof. rewrite key_cmp_lex. unfold key_le. destruct (lex a b); cbn; split; done || lia. Qed.
Lemma key_cmp_eq a b : vol_key_cmp a b = 0 <-> a = b.
Proof. rewrite key_cmp_lex, <- lex_eq. destruct (lex a b); cbn; split; done || lia. Qed.
Lemma key_cmp_refl a : vol_key_cmp a a = 0.
Proof. by apply key_cmp_eq. Qed.
Lemma key_cmp_gt a b : 0 < vol_key_cmp a b <-> key_lt b a.
Proof.
  rewrite key_cmp_lex. unfold key_lt. rewrite (lex_opp a b).
  destruct (lex a b); cbn; split; done || lia.
Qed.

#[export] Instance key_lt_dec a b : Decision (key_lt a b).
Proof. unfold key_lt. destruct (lex a b); [by right|by left|by right]. Defined.
#[export] Instance key_le_dec a b : Decision (key_le a b).
Proof. unfold key_le. destruct (lex a b); [left|left|right]; naive_solver. Defined.

Create HintDb keys.
#[export] Hint Resolve key_lt_trans key_lt_le key_le_refl key_le_lt_trans key_lt_le_trans
  key_le_trans key_nil_le : keys.

(** ** Big-endian prefixes keep the numeric order *)

Lemma lex_app a1 a2 b1 b2 :
  length a1 = length b1 ->
  lex (a1 ++ a2) (b1 ++ b2) = match lex a1 b1 with Eq => lex a2 b2 | c => c end.
Proof.
  revert b1. induction a1 as [|x a1 IH]; intros [|y b1] H; [done|discriminate|discriminate|].
  cbn. destruct (x ?= y); try done. apply IH. by injection H.
Qed.

Lemma be_bytes_S n x : be_bytes (S n) x = be_bytes n (x / 256) ++ [x mod 256].
Proof. done. Qed.

Lemma lex_be n x y :
  0 <= x < 256 ^ Z.of_nat n -> 0 <= y < 256 ^ Z.of_nat n ->
  lex (be_bytes n x) (be_bytes n y) = (x ?= y).
Proof.
  revert x y. induction n as [|n IH]; intros x y Hx Hy.
  - change (256 ^ Z.of_nat 0) with 1 in *. by replace x with 0 by lia; replace y with 0 by lia.
  - rewrite !be_bytes_S, lex_app by (by rewrite !length_be_bytes).
    rewrite Nat2Z.inj_succ, Z.pow_succ_r in Hx, Hy by lia.
    pose proof (Z.div_mod x 256 ltac:(lia)). pose proof (Z.div_mod y 256 ltac:(lia)).
    pose proof (Z.mod_pos_bound x 256 ltac:(lia)). pose proof (Z.mod_pos_bound y 256 ltac:(lia)).
    rewrite IH by lia. cbn.
    destruct (Z.compare_spec (x / 256) (y / 256)) as [E|E|E].
    + rewrite <- (Z.add_compare_mono_l (256 * (x / 256)) (x mod 256)).
      replace (256 * (x / 256) + x mod 256) with x by lia.
      replace (256 * (x / 256) + y mod 256) with y by lia.
      by destruct (x ?= y).
    + symmetry. apply Z.compare_lt_iff. lia.
    + symmetry. apply Z.compare_gt_iff. lia.
Qed.

Lemma put_be64_be id : put_be64 id = be_bytes 8 id.
Proof.
  unfold put_be64. change (seqZ 0 8) with [0; 1; 2; 3; 4; 5; 6; 7].
  cbn [map]. rewrite !Z.shiftr_div_pow2 by lia. rewrite !be_bytes_S, !Z.div_div by lia.
  cbn [be_bytes le_bytes rev app]. unfold u8. change (2 ^ 8) with 256. repeat f_equal.
  by rewrite Z.div_1_r.
Qed.

Lemma length_put_be64 id : length (put_be64 id) = 8%nat.
Proof. done. Qed.

Lemma put_be64_ok id : bytes_ok (put_be64 id).
Proof. rewrite put_be64_be. apply be_bytes_ok. Qed.

Lemma name_len_be (name : bytes) :
  zlen name <= INVFS_MAX_NAME ->
  [u8 (Z.shiftr (zlen name) 8); Z.land (zlen name) 255] = [0; zlen name].
Proof.
  unfold INVFS_MAX_NAME. intros. rewrite Z.shiftr_div_pow2 by lia.
  change 255 with (Z.ones 8). rewrite Z.land_ones by lia.
  rewrite Z.div_small, Z.mod_small by lia. done.
Qed.

(** The order in which a directory's entries sit in the tree. *)
Definition dirent_compare (p1 : Z) (n1 : bytes) (p2 : Z) (n2 : bytes) : comparison :=
  match p1 ?= p2 with
  | Eq => match zlen n1 ?= zlen n2 with Eq => lex n1 n2 | c => c end
  | c => c
  end.

Lemma lex_dirent p1 n1 p2 n2 :
  0 <= p1 < 2 ^ 64 -> 0 <= p2 < 2 ^ 64 ->
  zlen n1 <= INVFS_MAX_NAME -> zlen n2 <= INVFS_MAX_NAME ->
  lex (dirent_key p1 n1) (dirent_key p2 n2) = dirent_compare p1 n1 p2 n2.
Proof.
  intros Hp1 Hp2 Hn1 Hn2. unfold dirent_key, dirent_compare.
  rewrite !name_len_be, lex_app, !put_be64_be by done.
  rewrite lex_be by (change (256 ^ Z.of_nat 8) with (2 ^ 64); done).
  by destruct (p1 ?= p2).
Qed.

Lemma dirent_key_inj p1 n1 p2 n2 :
  0 <= p1 < 2 ^ 64 -> 0 <= p2 < 2 ^ 64 ->
  zlen n1 <= INVFS_MAX_NAME -> zlen n2 <= INVFS_MAX_NAME ->
  dirent_key p1 n1 = dirent_key p2 n2 -> p1 = p2 /\ n1 = n2.
Proof.
  intros Hp1 Hp2 Hn1 Hn2 E. apply (proj2 (lex_eq _ _)) in E.
  rewrite lex_dirent in E by done. unfold dirent_compare in E.
  destruct (Z.compare_spec p1 p2); try done.
  destruct (Z.compare_spec (zlen n1) (zlen n2)); try done. split; [done|by apply lex_eq].
Qed.

Lemma put_be64_inj a b :
  0 <= a < 2 ^ 64 -> 0 <= b < 2 ^ 64 -> put_be64 a = put_be64 b -> a = b.
Proof.
  intros Ha Hb E. rewrite !put_be64_be in E.
  apply (f_equal be_val) in E. by rewrite !be_val_bytes_small in E.
Qed.

(** An xattr key is a directory key behind the name space byte. *)
Lemma xattr_key_dirent ino name : xattr_key ino name = INVFS_XATTR_KEY_PREFIX :: dirent_key ino name.
Proof. done. Qed.

Lemma length_dirent_key p n : zlen (dirent_key p n) = DIRENT_KEY_FIXED + zlen n.
Proof.
  unfold dirent_key, DIRENT_KEY_FIXED. rewrite length_app, length_put_be64. cbn [length app]. lia.
Qed.

(** The two-byte chunk index of a continuation key. *)
Lemma idx_inj i j :
  0 <= i < 2 ^ 16 -> 0 <= j < 2 ^ 16 ->
  u8 (Z.shiftr i 8) = u8 (Z.shiftr j 8) -> Z.land i 255 = Z.land j 255 -> i = j.
Proof.
  intros Hi Hj. change 255 with (Z.ones 8). rewrite !Z.land_ones, !Z.shiftr_div_pow2 by lia.
  unfold u8. change (2 ^ 8) with 256. intros E1 E2.
  rewrite !(Z.mod_small (_ / _)) in E1.
  - rewrite (Z.div_mod i 256), (Z.div_mod j 256) by lia. congruence.
  - split; [apply Z.div_pos; lia|apply Z.div_lt_upper_bound; lia].
  - split; [apply Z.div_pos; lia|apply Z.div_lt_upper_bound; lia].
Qed.

Lemma idx_get i :
  0 <= i < 2 ^ 16 -> u16 (Z.lor (Z.shiftl (u8 (Z.shiftr i 8)) 8) (Z.land i 255)) = i.
Proof.
  intros Hi. transitivity (u16 i); [|by apply u16_small]. unfold u8, u16.
  change 255 with (Z.ones 8). rewrite <- !Z.land_ones by lia. apply Z.bits_inj'. intros n Hn.
  rewrite !Z.land_spec, Z.lor_spec, Z.land_spec, Z.shiftl_spec, !Z.testbit_ones_nonneg by lia.
  destruct (Z.ltb_spec n 16); [|by rewrite !andb_false_r]. rewrite !andb_true_r.
  destruct (Z.ltb_spec n 8).
  - rewrite Z.testbit_neg_r by lia. by rewrite andb_true_r.
  - rewrite Z.land_spec, Z.shiftr_spec, Z.testbit_ones_nonneg by lia.
    rewrite andb_false_r, orb_false_r. replace (n - 8 + 8) with n by lia.
    rewrite (proj2 (Z.ltb_lt (n - 8) 8)) by lia. by rewrite andb_true_r.
Qed.

(** ** Key spaces *)

(** Every kind of key the base tree holds. *)
Inductive base_key :=
  | KIno (id : Z)
  | KDirent (parent : Z) (name : bytes)
  | KXattr (ino : Z) (name : bytes)
  | KXattrChunk (ino : Z) (name : bytes) (idx : Z)
  | KRecipe (addr : bytes)
  | KRecipeChunk (addr : bytes) (idx : Z).

Definition key_bytes (k : base_key) : bytes :=
  match k with
  | KIno id => ino_key id
  | KDirent p n => dirent_key p n
  | KXattr i n => xattr_key i n
  | KXattrChunk i n c => xattr_chunk_key i n c
  | KRecipe a => recipe_key a
  | KRecipeChunk a c => recipe_chunk_key a c
  end.

(** Inode numbers keep their top byte below the name space bytes; names have
    at most 255 bytes, chunk indices 16 bits, addresses 32 bytes. *)
Definition key_ok (k : base_key) : bool :=
  match k with
  | KIno i => (0 <=? i) && (i <? 3 * 2 ^ 56)
  | KDirent i n => (0 <=? i) && (i <? 3 * 2 ^ 56) && (zlen n <=? INVFS_MAX_NAME)
  | KXattr i n => (0 <=? i) && (i <? 2 ^ 64) && (zlen n <=? INVFS_MAX_NAME)
  | KXattrChunk i n c =>
      (0 <=? i) && (i <? 2 ^ 64) && (zlen n <=? INVFS_MAX_NAME) && (0 <=? c) && (c <? 2 ^ 16)
  | KRecipe a => (zlen a =? 32)
  | KRecipeChunk a c => (zlen a =? 32) && (0 <=? c) && (c <? 2 ^ 16)
  end.

(** What a key reveals of its kind: the name space byte and the length. *)
Definition space (k : base_key) : Z :=
  match k with
  | KIno _ | KDirent _ _ => 0
  | KXattr _ _ | KXattrChunk _ _ _ => 3
  | KRecipe _ | KRecipeChunk _ _ => 4
  end.

Lemma head_be64 i rest :
  0 <= i < 2 ^ 64 -> head (put_be64 i ++ rest) = Some (i / 2 ^ 56).
Proof.
  intros. change (head _) with (Some (u8 (Z.shiftr i 56))). unfold u8.
  rewrite Z.shiftr_div_pow2 by lia. f_equal.
  apply Z.mod_small. split; [apply Z.div_pos; lia|]. apply Z.div_lt_upper_bound; lia.
Qed.

Lemma head_below i :
  0 <= i < 3 * 2 ^ 56 -> 0 <= i / 2 ^ 56 < 3.
Proof. intros. split; [apply Z.div_pos; lia|apply Z.div_lt_upper_bound; lia]. Qed.

(** The first byte tells the spaces apart. *)
Lemma key_space k :
  key_ok k = true ->
  exists b, head (key_bytes k) = Some b /\ (if space k =? 0 then b < 3 else b = space k).
Proof.
  destruct k as [i|i n|i n|i n c|a|a c]; cbn [key_ok space]; intros H; try by eexists.
  all: exists (i / 2 ^ 56); split; [|cbn; apply head_below; lia].
  - cbn [key_bytes]. unfold ino_key. rewrite <- (app_nil_r (put_be64 i)). apply head_be64. lia.
  - cbn [key_bytes]. apply head_be64. lia.
Qed.

Lemma spaces_apart k1 k2 :
  key_ok k1 = true -> key_ok k2 = true -> key_bytes k1 = key_bytes k2 -> space k1 = space k2.
Proof.
  intros H1 H2 E. destruct (key_space k1 H1) as (b1&Hb1&S1), (key_space k2 H2) as (b2&Hb2&S2).
  rewrite E, Hb2 in Hb1. injection Hb1 as ->.
  destruct k1, k2; cbn in *; lia.
Qed.

(** A canonical key and a continuation key of one space: the length field
    inside settles which it is. *)
Lemma dirent_key_chunk_inj p1 n1 p2 n2 t1 t2 :
  0 <= p1 < 2 ^ 64 -> 0 <= p2 < 2 ^ 64 ->
  zlen n1 <= INVFS_MAX_NAME -> zlen n2 <= INVFS_MAX_NAME ->
  dirent_key p1 n1 ++ t1 = dirent_key p2 n2 ++ t2 -> p1 = p2 /\ n1 = n2 /\ t1 = t2.
Proof.
  intros Hp1 Hp2 Hn1 Hn2. unfold dirent_key. rewrite !name_len_be, <- !app_assoc by done. intros E.
  apply app_inj_1 in E as [E1 E2]; [|done]. apply put_be64_inj in E1; [|done..].
  cbn [app] in E2. injection E2 as Hl E2. apply app_inj_1 in E2 as [-> ->]; [done|lia].
Qed.

Lemma ino_dirent_apart i p n : zlen (ino_key i) <> zlen (dirent_key p n).
Proof.
  rewrite length_dirent_key. change (zlen (ino_key i)) with 8. unfold DIRENT_KEY_FIXED. lia.
Qed.

Lemma base_keys_inj k1 k2 :
  key_ok k1 = true -> key_ok k2 = true -> key_bytes k1 = key_bytes k2 -> k1 = k2.
Proof.
  intros H1 H2 E. pose proof (spaces_apart k1 k2 H1 H2 E) as Hs.
  assert (Hlen : zlen (key_bytes k1) = zlen (key_bytes k2)) by (by rewrite E).
  destruct k1 as [i|i n|i n|i n c|a|a c], k2 as [j|j m|j m|j m d|b|b d]; try discriminate Hs;
    cbn [key_ok key_bytes] in *; unfold xattr_chunk_key in *; rewrite ?xattr_key_dirent in *.
  - apply put_be64_inj in E; [congruence|lia..].
  - destruct (ino_dirent_apart _ _ _ Hlen).
  - destruct (ino_dirent_apart _ _ _ (eq_sym Hlen)).
  - apply dirent_key_inj in E as [-> ->]; [done|lia..].
  - apply (f_equal tail) in E. apply dirent_key_inj in E as [-> ->]; [done|lia..].
  - apply (f_equal tail) in E. cbn [tail app] in E. rewrite <- (app_nil_r (dirent_key i n)) in E.
    apply dirent_key_chunk_inj in E as (_&_&E); [discriminate E|lia..].
  - apply (f_equal tail) in E. cbn [tail app] in E. rewrite <- (app_nil_r (dirent_key j m)) in E.
    apply dirent_key_chunk_inj in E as (_&_&E); [discriminate E|lia..].
  - apply (f_equal tail) in E; cbn [tail app] in E. apply dirent_key_chunk_inj in E as (->&->&E); [|lia..].
    injection E as E1 E2. f_equal. apply idx_inj; [lia..|done|done].
  - injection E as E. congruence.
  - unfold recipe_key, recipe_chunk_key in Hlen. cbn [length] in Hlen. rewrite length_app in Hlen.
    cbn in Hlen. lia.
  - unfold recipe_key, recipe_chunk_key in Hlen. cbn [length] in Hlen. rewrite length_app in Hlen.
    cbn in Hlen. lia.
  - apply (f_equal tail) in E; cbn [tail app] in E. apply app_inj_1 in E as [-> E]; [|lia].
    injection E as E1 E2. f_equal. apply idx_inj; [lia..|done|done].
Qed.

(** ** Round trips *)

Lemma xattr_key_nth ino name rest :
  zlen name <= INVFS_MAX_NAME ->
  xattr_key ino name ++ rest
  = (INVFS_XATTR_KEY_PREFIX :: put_be64 ino) ++ [0; zlen name] ++ name ++ rest.
Proof.
  intros. unfold xattr_key. rewrite name_len_be by done. cbn [app]. by rewrite <- !app_assoc.
Qed.

Lemma nthZ_app_r a b i : zlen a <= i -> nthZ (a ++ b) i = nthZ b (i - zlen a).
Proof. intros. unfold nthZ. rewrite app_nth2 by lia. f_equal. lia. Qed.

Lemma length_xattr_key ino name : zlen (xattr_key ino name) = XATTR_FIXED + zlen name.
Proof.
  rewrite xattr_key_dirent. cbn [length]. rewrite Nat2Z.inj_succ, length_dirent_key.
  unfold DIRENT_KEY_FIXED, XATTR_FIXED. lia.
Qed.

Lemma xattr_decode_key ino name rest :
  1 <= zlen name <= INVFS_MAX_NAME ->
  xattr_key_decode (xattr_key ino name ++ rest)
  = match rest with
    | [] => Some (name, false, 0)
    | [x; hi; lo] =>
        if x =? 0 then Some (name, true, u16 (Z.lor (Z.shiftl hi 8) lo)) else None
    | _ => None
    end.
Proof.
  intros Hn. unfold xattr_key_decode.
  rewrite length_app, Nat2Z.inj_add, length_xattr_key.
  rewrite xattr_key_nth by lia. set (pre := INVFS_XATTR_KEY_PREFIX :: put_be64 ino).
  change (nthZ (pre ++ _) 0) with INVFS_XATTR_KEY_PREFIX.
  change (nthZ (pre ++ _) 9) with 0. change (nthZ (pre ++ _) 10) with (zlen name).
  change (Z.lor (Z.shiftl 0 8) (zlen name)) with (zlen name).
  assert (Hpre : zlen pre = 9) by done.
  unfold XATTR_FIXED, XATTR_CHUNK_EXTRA, INVFS_MAX_NAME in *. rewrite !u16_small by lia. cbv zeta.
  rewrite !(nthZ_app_r pre), !(nthZ_app_r [0; zlen name]), !(nthZ_app_r name), Hpre
    by (rewrite ?Hpre; cbn [length]; lia).
  rewrite (slice_app_r pre), (slice_app_r [0; zlen name]), Hpre by (rewrite ?Hpre; cbn [length]; lia).
  change (11 - 9 - zlen [0; zlen name]) with 0. rewrite slice_app_l by done.
  replace (11 + zlen name - 9 - zlen [0; zlen name] - zlen name) with 0 by (cbn [length]; lia).
  replace (11 + zlen name + 1 - 9 - zlen [0; zlen name] - zlen name) with 1 by (cbn [length]; lia).
  replace (11 + zlen name + 2 - 9 - zlen [0; zlen name] - zlen name) with 2 by (cbn [length]; lia).
  change (INVFS_XATTR_KEY_PREFIX =? INVFS_XATTR_KEY_PREFIX) with true. cbn [negb].
  rewrite (proj2 (Z.ltb_ge _ 11)), (proj2 (Z.eqb_neq (zlen name) 0)),
    (proj2 (Z.ltb_ge 255 _)) by lia. cbn [orb].
  destruct rest as [|x [|y [|z [|w rest]]]].
  - by rewrite Z.add_0_r, Z.eqb_refl.
  - rewrite !(proj2 (Z.eqb_neq (11 + _ + _) _)) by (cbn [length]; lia). done.
  - rewrite !(proj2 (Z.eqb_neq (11 + _ + _) _)) by (cbn [length]; lia). done.
  - rewrite (proj2 (Z.eqb_neq _ (11 + zlen name))), (proj2 (Z.eqb_eq _ (11 + zlen name + 3)))
      by (cbn [length]; lia). done.
  - rewrite !(proj2 (Z.eqb_neq (11 + _ + _) _)) by (cbn [length]; lia). done.
Qed.

(** What an inode carries: each field within its width. *)
Record inode_ok (i : invfs_inode) : Prop := {
  io_type : 0 <= i_type i < 256 ^ 4;
  io_mode : 0 <= i_mode i < 256 ^ 2;
  io_uid : 0 <= i_uid i < 256 ^ 4;
  io_gid : 0 <= i_gid i < 256 ^ 4;
  io_mtime : - 2 ^ 63 <= i_mtime i < 2 ^ 63;
  io_atime : - 2 ^ 63 <= i_atime i < 2 ^ 63;
  io_nlink : 0 <= i_nlink i < 256 ^ 4;
  io_rdev : 0 <= i_rdev i < 256 ^ 8;
  io_size : 0 <= i_size i < 256 ^ 8;
  io_pba : 0 <= bp_pba (i_recipe i) < 256 ^ 8;
  io_sum : 0 <= bp_checksum (i_recipe i) < 256 ^ 4;
  io_gen : 0 <= bp_gen (i_recipe i) < 256 ^ 8;
  io_flags : 0 <= bp_flags (i_recipe i) < 256 ^ 4;
  io_addr : length (i_recipe_addr i) = 32%nat
}.

Lemma length_ptr_bytes p : length (ptr_bytes p) = 24%nat.
Proof. done. Qed.

Lemma ptr_roundtrip p :
  0 <= bp_pba p < 256 ^ 8 -> 0 <= bp_checksum p < 256 ^ 4 -> 0 <= bp_gen p < 256 ^ 8 ->
  0 <= bp_flags p < 256 ^ 4 -> ptr_parse (ptr_bytes p) = p.
Proof.
  intros. unfold ptr_parse, ptr_bytes. destruct p as [a b c d]. cbn [bp_pba bp_checksum bp_gen bp_flags] in *.
  rewrite <- (app_nil_r (le_bytes 4 d)). f_equal; at_field; done.
Qed.

Lemma le_bytes_wrap n x : le_bytes n x = le_bytes n (x mod 256 ^ Z.of_nat n).
Proof.
  revert x. induction n as [|n IH]; intros x; [done|]. cbn [le_bytes].
  rewrite Nat2Z.inj_succ, Z.pow_succ_r, Z.rem_mul_r by lia. f_equal.
  - rewrite Z.add_mod, Z.mul_comm, Z.mod_mul, Z.add_0_r, !Z.mod_mod by lia. done.
  - rewrite (IH (x / 256)). f_equal. rewrite Z.add_comm, Z.mul_comm, Z.div_add_l by lia.
    rewrite (Z.div_small (x mod 256)) by (apply Z.mod_pos_bound; lia). by rewrite Z.add_0_r.
Qed.

Lemma s64_wrap x : - 2 ^ 63 <= x < 2 ^ 63 -> s64 (x mod 256 ^ Z.of_nat 8) = x.
Proof.
  intros. change (256 ^ Z.of_nat 8) with (2 ^ 64). unfold s64.
  destruct (Z.le_gt_cases 0 x).
  - rewrite Z.mod_small by lia. rewrite (proj2 (Z.ltb_lt _ _)) by lia. done.
  - rewrite <- (Z.mod_add x 1), Z.mod_small by lia.
    rewrite (proj2 (Z.ltb_ge _ _)) by lia. lia.
Qed.

Lemma ino_decode_encode i : inode_ok i -> ino_decode (ino_encode i) = Some i.
Proof.
  intros [Hty Hmo Hui Hgi Hmt Hat Hnl Hrd Hsz Hp1 Hp2 Hp3 Hp4 Had].
  assert (Hlen : length (ino_encode i) = 114%nat).
  { unfold ino_encode. rewrite !length_app, !length_le_bytes, length_ptr_bytes, Had. done. }
  pose proof (length_ptr_bytes (i_recipe i)) as Hpl.
  unfold ino_decode. rewrite Hlen. unfold ino_encode.
  rewrite (le_bytes_wrap 8 (i_mtime i)), (le_bytes_wrap 8 (i_atime i)).
  assert (Hm : 0 <= i_mtime i mod 256 ^ Z.of_nat 8 < 256 ^ 8) by (apply Z.mod_pos_bound; lia).
  assert (Ha : 0 <= i_atime i mod 256 ^ Z.of_nat 8 < 256 ^ 8) by (apply Z.mod_pos_bound; lia).
  assert (Hv : 0 <= INVFS_INODE_ROW_VERSION < 256 ^ 4) by done.
  assert (H0 : 0 <= 0 < 256 ^ 4) by done.
  rewrite <- (app_nil_r (i_recipe_addr i)).
  set (row := le_bytes 4 INVFS_INODE_ROW_VERSION ++ _).
  assert (E0 : field row 0 4 = INVFS_INODE_ROW_VERSION) by (unfold row; at_field; done).
  assert (E78 : field row 78 4 = 0) by (unfold row; at_field; done).
  rewrite E0, E78.
  transitivity (Some (mkInode (i_type i) (i_mode i) (i_uid i) (i_gid i)
    (s64 (i_mtime i mod 256 ^ Z.of_nat 8)) (s64 (i_atime i mod 256 ^ Z.of_nat 8))
    (i_nlink i) (i_rdev i) (i_size i) (i_recipe i) (i_recipe_addr i))).
  - refine (eq_trans (y := Some (mkInode (field row 4 4) (field row 8 2) (field row 10 4)
      (field row 14 4) (s64 (field row 18 8)) (s64 (field row 26 8)) (field row 34 4)
      (field row 38 8) (field row 46 8) (ptr_parse (slice row 54 24)) (slice row 82 32))) eq_refl _).
    unfold row. f_equal. f_equal; [at_field; done..| |at_field; done].
    rewrite <- (ptr_roundtrip (i_recipe i)) at 2 by done. f_equal.
  - rewrite !s64_wrap by done. by destruct i.
Qed.

Lemma shift_or acc b : is_byte b -> Z.lor (Z.shiftl acc 8) b = acc * 256 + b.
Proof. intros Hb. by apply (lor_shiftl acc 8). Qed.

Lemma le_val_app a b : le_val (a ++ b) = le_val a + 256 ^ zlen a * le_val b.
Proof.
  induction a as [|x a IH]; cbn [app le_val length]; [lia|].
  rewrite IH, Nat2Z.inj_succ, Z.pow_succ_r by lia. lia.
Qed.

Lemma be_val_cons b t : be_val (b :: t) = b * 256 ^ zlen t + be_val t.
Proof. unfold be_val. cbn [rev]. rewrite le_val_app, length_rev. cbn [le_val]. lia. Qed.

Lemma foldl_be bs acc :
  bytes_ok bs -> 0 <= acc -> acc * 256 ^ zlen bs + be_val bs < 2 ^ 64 ->
  foldl (fun id b => u64 (Z.lor (Z.shiftl id 8) b)) acc bs = acc * 256 ^ zlen bs + be_val bs.
Proof.
  intros Hok. revert acc. induction Hok as [|b t Hb Ht IH]; intros acc Ha Hs.
  { cbn. lia. }
  cbn [foldl]. pose proof (be_val_range t Ht).
  rewrite be_val_cons in *. cbn [length] in *. rewrite Nat2Z.inj_succ, Z.pow_succ_r in * by lia.
  rewrite shift_or by done. unfold is_byte in Hb.
  rewrite u64_small by nia. rewrite IH; nia.
Qed.

Lemma eight_bytes (p : bytes) :
  length p = 8%nat ->
  foldl (fun id i => u64 (Z.lor (Z.shiftl id 8) (nthZ p i))) 0 (seqZ 0 8)
  = foldl (fun id b => u64 (Z.lor (Z.shiftl id 8) b)) 0 p.
Proof.
  destruct p as [|a [|b [|c [|d [|e [|f [|g [|h [|? ?]]]]]]]]]; try discriminate. intros _.
  change (seqZ 0 8) with [0; 1; 2; 3; 4; 5; 6; 7]. cbn [foldl nthZ].
  change (nthZ _ 0) with a. change (nthZ _ 1) with b. change (nthZ _ 2) with c.
  change (nthZ _ 3) with d. change (nthZ _ 4) with e. change (nthZ _ 5) with f.
  change (nthZ _ 6) with g. change (nthZ _ 7) with h. reflexivity.
Qed.

Lemma dirent_val_roundtrip child : 0 <= child < 2 ^ 64 -> dirent_val_get (dirent_val child) = child.
Proof.
  intros. unfold dirent_val_get. change (zlen (dirent_val child) <? 8) with false. cbv iota.
  unfold dirent_val. rewrite (eight_bytes (put_be64 child)) by done.
  pose proof (be_val_bytes_small 8 child ltac:(change (256 ^ Z.of_nat 8) with (2 ^ 64); lia)) as E.
  rewrite <- put_be64_be in E. rewrite foldl_be; rewrite ?E; try lia. apply put_be64_ok.
Qed.

(** ** Properties *)

(** C29: [vol_key_cmp] is the sign of the lexicographic comparison of the two
    byte strings, and with it a strict total order: zero exactly on equal keys,
    antisymmetric and transitive. *)
Theorem vol_key_cmp_order (a b c : bytes) :
  vol_key_cmp a b = sign (lex a b) /\
  (vol_key_cmp a b = 0 <-> a = b) /\
  vol_key_cmp b a = - vol_key_cmp a b /\
  (vol_key_cmp a b < 0 -> vol_key_cmp b c < 0 -> vol_key_cmp a c < 0).
Proof.
  split; [apply key_cmp_lex|]. split; [apply key_cmp_eq|]. split.
  - rewrite !key_cmp_lex, (lex_opp a b). by destruct (lex a b).
  - rewrite !key_cmp_lt. apply key_lt_trans.
Qed.



(** The tree order of directory entries is by parent, then name length,
    then name: one directory's entries are contiguous. *)
Theorem dirent_key_order (p1 p2 : Z) (n1 n2 : bytes) :
  0 <= p1 < 2 ^ 64 -> 0 <= p2 < 2 ^ 64 ->
  zlen n1 <= INVFS_MAX_NAME -> zlen n2 <= INVFS_MAX_NAME ->
  vol_key_cmp (dirent_key p1 n1) (dirent_key p2 n2) = sign (dirent_compare p1 n1 p2 n2) /\
  dirent_key_len (dirent_key p1 n1) = zlen (dirent_key p1 n1).
Proof.
  intros. split; [by rewrite key_cmp_lex, lex_dirent|].
  rewrite length_dirent_key. unfold dirent_key_len, dirent_key. rewrite name_len_be by done.
  change (nthZ _ 8) with 0. change (nthZ _ 9) with (zlen n1).
  change (Z.lor (u16 (Z.shiftl 0 8)) (zlen n1)) with (zlen n1).
  apply u16_small. unfold DIRENT_KEY_FIXED, INVFS_MAX_NAME in *. lia.
Qed.

Lemma dirent_key_order_witness : vol_key_cmp (dirent_key 2 [98]) (dirent_key 2 [97; 97]) = -1.
Proof. apply (dirent_key_order 2 2 [98] [97; 97]); unfold INVFS_MAX_NAME; cbn; lia. Defined.

(** C31: An inode row decodes to the inode it encodes, an xattr key to the name
    (and chunk index) it was built from, and a directory entry's value to the
    child's inode number. *)
Theorem row_codecs_roundtrip (i : invfs_inode) (ino idx : Z) (name : bytes) (child : Z) :
  inode_ok i -> 1 <= zlen name <= INVFS_MAX_NAME -> 0 <= idx < 2 ^ 16 -> 0 <= child < 2 ^ 64 ->
  ino_decode (ino_encode i) = Some i /\
  xattr_key_decode (xattr_key ino name) = Some (name, false, 0) /\
  xattr_key_decode (xattr_chunk_key ino name idx) = Some (name, true, idx) /\
  dirent_val_get (dirent_val child) = child.
Proof.
  intros Hi Hn Hx Hc. split; [by apply ino_decode_encode|]. split; [|split].
  - rewrite <- (app_nil_r (xattr_key ino name)), xattr_decode_key by done. done.
  - unfold xattr_chunk_key. rewrite xattr_decode_key by done. cbn [Z.eqb]. by rewrite idx_get.
  - by apply dirent_val_roundtrip.
Qed.

(** An inode with a negative modification time and a 32-byte recipe address. *)
Definition demo_inode : invfs_inode :=
  mkInode 1 420 1000 1000 (-5) 7 1 0 4096 (mkPtr 3 4 5 1) (replicate 32 9).

Lemma demo_inode_ok : inode_ok demo_inode.
Proof. split; cbn; lia || reflexivity. Qed.

Lemma row_codecs_roundtrip_witness : ino_decode (ino_encode demo_inode) = Some demo_inode.
Proof.
  apply (row_codecs_roundtrip demo_inode 7 3 [97; 98] 12 demo_inode_ok);
    unfold INVFS_MAX_NAME; cbn; lia.
Defined.
End Keys.
