(* ===== verification/Kv.v ===== *)
(** * Sorted key/value lists

    The abstract state of a tree: a list of pairs with strictly increasing
    keys, which is a finite map.  Insertion and deletion on such lists, how
    they act on a piece of a list, and what they are on the map. *)

From stdpp Require Import sorting.
From S2P Require Import Prelude Keys.

Module Kv.
Import Keys.

Abbreviation kv := (bytes * bytes)%type.
Abbreviation ksorted := (StronglySorted key_lt).
Abbreviation kmap := (gmap bytes bytes).
Definition to_map (l : list kv) : kmap := list_to_map l.

Fixpoint kv_insert (k x : bytes) (l : list kv) : list kv :=
  match l with
  | [] => [(k, x)]
  | (k', x') :: t =>
      match lex k k' with
      | Lt => (k, x) :: l
      | Eq => (k, x) :: t
      | Gt => (k', x') :: kv_insert k x t
      end
  end.

Definition kv_delete (k : bytes) (l : list kv) : list kv :=
  filter (fun p => p.1 <> k) l.

(** Keys below an optional bound. *)
Definition below (hi : option bytes) (k : bytes) : Prop :=
  match hi with None => True | Some h => key_lt k h end.

Lemma below_le hi k k' : below hi k' -> key_le k k' -> below hi k.
Proof. destruct hi; cbn; eauto with keys. Qed.

(** The keys of a half-open range; an empty bound is no bound. *)
Definition in_range (lo hi k : bytes) : Prop := key_le lo k /\ (hi = [] \/ key_lt k hi).
#[export] Instance in_range_dec lo hi k : Decision (in_range lo hi k).
Proof. unfold in_range. apply _. Defined.

Lemma ksorted_app l1 l2 :
  ksorted (l1 ++ l2) <-> ksorted l1 /\ ksorted l2 /\ forall a b, a ∈ l1 -> b ∈ l2 -> key_lt a b.
Proof.
  split.
  - intros H. split; [by eapply StronglySorted_app_1_l|]. split; [by eapply StronglySorted_app_1_r|].
    intros a b Ha Hb. by eapply (StronglySorted_app_1_elem_of key_lt).
  - intros (H1 & H2 & H). by apply StronglySorted_app_2.
Qed.

Lemma ksorted_cons k l : ksorted (k :: l) <-> ksorted l /\ Forall (key_lt k) l.
Proof. split; [by apply StronglySorted_inv|intros []; by constructor]. Qed.

Lemma ksorted_NoDup l : ksorted l -> NoDup l.
Proof.
  induction 1 as [|k l Hs IH Hk]; constructor; [|done].
  intros Hin. apply (key_lt_irrefl k). by eapply Forall_forall, list_elem_of_In.
Qed.

(** A key below the first pair goes in front. *)
Lemma kv_insert_below k x l : Forall (key_lt k) (map fst l) -> kv_insert k x l = (k, x) :: l.
Proof.
  destruct l as [|[k' x'] l]; [done|]. cbn. intros H%Forall_cons_iff. destruct H as [H _].
  unfold key_lt in H. by rewrite H.
Qed.

(** A key above a prefix goes behind it. *)
Lemma kv_insert_above k x a b :
  Forall (fun k' => key_lt k' k) (map fst a) -> kv_insert k x (a ++ b) = a ++ kv_insert k x b.
Proof.
  induction a as [|[k' x'] a IH]; [done|]. cbn. intros [H Ha]%Forall_cons_iff.
  rewrite (lex_opp k' k). unfold key_lt in H. rewrite H. cbn. by rewrite IH.
Qed.

Lemma kv_insert_middle k x a b c :
  Forall (fun k' => key_lt k' k) (map fst a) -> Forall (key_lt k) (map fst c) ->
  kv_insert k x (a ++ b ++ c) = a ++ kv_insert k x b ++ c.
Proof.
  intros Ha Hc. rewrite kv_insert_above by done. f_equal. clear Ha a.
  induction b as [|[k' x'] b IH]; cbn; [by apply kv_insert_below|].
  destruct (lex k k'); [done|done|]. by rewrite IH.
Qed.

Lemma kv_delete_app k a b : kv_delete k (a ++ b) = kv_delete k a ++ kv_delete k b.
Proof. apply list.filter_app. Qed.

Lemma kv_delete_absent k l : k ∉ map fst l -> kv_delete k l = l.
Proof.
  induction l as [|[k' x'] l IH]; [done|]. cbn [map fst]. rewrite not_elem_of_cons. intros [Hk Hl].
  unfold kv_delete. rewrite filter_cons_True by (cbn; congruence). f_equal. by apply IH.
Qed.

(** *** Maps *)

Lemma to_map_insert k x l :
  ksorted (map fst l) -> to_map (kv_insert k x l) = <[k := x]> (to_map l).
Proof.
  unfold to_map. induction l as [|[k' x'] l IH]; [done|]. cbn [map fst kv_insert].
  intros [Hs Hk]%ksorted_cons. destruct (lex k k') eqn:E; rewrite !list_to_map_cons.
  - apply lex_eq in E as ->. by rewrite insert_insert_eq.
  - done.
  - rewrite IH by done. apply insert_insert_ne. intros ->. by rewrite lex_refl in E.
Qed.

Lemma to_map_delete k l :
  ksorted (map fst l) -> to_map (kv_delete k l) = base.delete k (to_map l).
Proof.
  unfold to_map, kv_delete. induction l as [|[k' x'] l IH].
  - intros _. symmetry. apply delete_empty.
  - cbn [map fst]. intros [Hs Hk]%ksorted_cons. destruct (decide (k' = k)) as [->|Hne].
    + rewrite filter_cons_False by (cbn; tauto). rewrite list_to_map_cons, delete_insert_eq.
      by apply IH.
    + rewrite filter_cons_True by done. rewrite !list_to_map_cons.
      by rewrite IH, delete_insert_ne by done.
Qed.

Lemma to_map_lookup k x l :
  ksorted (map fst l) -> to_map l !! k = Some x <-> (k, x) ∈ l.
Proof.
  intros Hs. symmetry. apply elem_of_list_to_map. by apply ksorted_NoDup.
Qed.

Lemma to_map_lookup_None k l : to_map l !! k = None <-> k ∉ map fst l.
Proof. unfold to_map. symmetry. apply not_elem_of_list_to_map. Qed.
End Kv.
