(* ===== verification/Node.v ===== *)
(** * Nodes of the base tree (vol_btree.c)

    The decoded records of a node, their encoding into a page and back, the
    searches within a node and the choice of split points.  No I/O here:
    BTree.v runs these over a page store. *)

From stdpp Require Import sorting.
From S2P Require Import Prelude Crc32c Alloc Volume Page Keys.

Module Node.
Import Alloc Volume Page Keys.

Definition BT_MAX_ENTRIES : Z := 2100.
Definition BT_MIN_FILL : Z := INVFS_BLOCK_SIZE / 2.
Definition BLKPTR_LEN : Z := 24.

(** Source: core/vol_btree.c:123-129 [bt_ent] *)
Record bt_ent := mkEnt {
  e_k : bytes;
  e_v : bytes;                (* leaf only *)
  e_child : invfs_blkptr      (* internal only *)
}.

Definition null_ent : bt_ent := mkEnt [] [] null_ptr.
Definition set_e_k (k : bytes) (e : bt_ent) : bt_ent := mkEnt k (e_v e) (e_child e).
Definition set_e_child (c : invfs_blkptr) (e : bt_ent) : bt_ent := mkEnt (e_k e) (e_v e) c.

(** Source: core/vol_btree.c [bt_cmp_key] *)
Definition bt_cmp_key (e : bt_ent) (key : bytes) : Z := vol_key_cmp (e_k e) key.

(** ** Encoding *)

(** Source: core/vol_btree.c [bt_rec_size] *)
Definition bt_rec_size (level : Z) (e : bt_ent) : Z :=
  if level =? INVFS_PAGE_LEVEL_LEAF then 4 + zlen (e_k e) + zlen (e_v e)
  else 2 + zlen (e_k e) + BLKPTR_LEN.

(** Source: core/vol_btree.c [bt_used] *)
Definition bt_used (level : Z) (es : list bt_ent) : Z :=
  foldl (fun u e => u + bt_rec_size level e) PAGE_HDR es.

(** One record as the loop of [bt_write] lays it down. *)
Definition rec_bytes (level : Z) (e : bt_ent) : bytes :=
  le_bytes 2 (zlen (e_k e)) ++ e_k e ++
  (if level =? INVFS_PAGE_LEVEL_LEAF then le_bytes 2 (zlen (e_v e)) ++ e_v e
   else ptr_bytes (e_child e)).

(** Source: core/vol_btree.c:251-276 [bt_write] *)
Definition bt_encode (level gen : Z) (es : list bt_ent) : bytes :=
  put (put (mbuf_page_init (u16 level) gen) 14 (le_bytes 2 (zlen es))) PAGE_HDR
    (concat (map (rec_bytes level) es)).

(** Source: core/vol_btree.c:296-327 [bt_read]
    [rest] are the bytes from [p] to [end]. *)
Fixpoint bt_decode_recs (level : Z) (n : nat) (rest : bytes) : option (list bt_ent) :=
  match n with
  | O => Some []
  | S n =>
      if zlen rest <? 2 then None
      else
        let kl := field rest 0 2 in
        let rest := drop 2 rest in
        if zlen rest <? kl then None
        else
          let k := slice rest 0 kl in
          let rest := drop (Z.to_nat kl) rest in
          if level =? INVFS_PAGE_LEVEL_LEAF then
            if zlen rest <? 2 then None
            else
              let vl := field rest 0 2 in
              let rest := drop 2 rest in
              if zlen rest <? vl then None
              else
                match bt_decode_recs level n (drop (Z.to_nat vl) rest) with
                | Some es => Some (mkEnt k (slice rest 0 vl) null_ptr :: es)
                | None => None
                end
          else if zlen rest <? BLKPTR_LEN then None
          else
            match bt_decode_recs level n (drop (Z.to_nat BLKPTR_LEN) rest) with
            | Some es => Some (mkEnt k [] (ptr_parse (slice rest 0 BLKPTR_LEN)) :: es)
            | None => None
            end
  end.

(** Source: core/vol_btree.c:288-332 [bt_read] *)
Definition bt_decode (page : bytes) : option (Z * list bt_ent) :=
  let n := page_nentries page in
  if BT_MAX_ENTRIES <? n then None
  else
    match bt_decode_recs (page_level page) (Z.to_nat n) (drop (Z.to_nat PAGE_HDR) page) with
    | Some es => Some (page_level page, es)
    | None => None
    end.

(** Source: core/vol_btree.c:343-352 [bt_first_key] *)
Definition bt_first_key_of (page : bytes) : option bytes :=
  if page_nentries page =? 0 then None
  else
    let kl := field page PAGE_HDR 2 in
    if INVFS_BLOCK_SIZE <? PAGE_HDR + 2 + kl then None
    else Some (slice page (PAGE_HDR + 2) kl).

(** ** Searching a node *)

Definition ent (es : list bt_ent) (i : nat) : bt_ent := nth i es null_ent.

(** The loop of [bt_lower_bound]: the interval shrinks at every turn, so
    [hi - lo] turns are enough. *)
Fixpoint lower_bound_loop (fuel : nat) (es : list bt_ent) (key : bytes) (lo hi : nat) : nat :=
  match fuel with
  | O => lo
  | S fuel =>
      if (lo <? hi)%nat then
        let mid := (lo + (hi - lo) / 2)%nat in
        if bt_cmp_key (ent es mid) key <? 0 then lower_bound_loop fuel es key (S mid) hi
        else lower_bound_loop fuel es key lo mid
      else lo
  end.

(** Source: core/vol_btree.c [bt_lower_bound] *)
Definition bt_lower_bound (es : list bt_ent) (key : bytes) : nat :=
  lower_bound_loop (length es) es key 0 (length es).

(** The loop of [bt_child_index] from record [j] on, with its [break]. *)
Fixpoint child_index_loop (es : list bt_ent) (key : bytes) (i j : nat) : nat :=
  match es with
  | [] => i
  | e :: es => if bt_cmp_key e key <=? 0 then child_index_loop es key j (S j) else i
  end.

(** Source: core/vol_btree.c [bt_child_index] *)
Definition bt_child_index (es : list bt_ent) (key : bytes) : nat :=
  child_index_loop (tail es) key 0 1.

(** ** Split points *)

Definition fits (level : Z) (es : list bt_ent) : bool := bt_used level es <=? INVFS_BLOCK_SIZE.

(** [for (i = 0; i < n - 1; i++) { acc += ...; if (acc >= half) { s = i + 1; break; } }]
    over the records still to visit. *)
Fixpoint balance_loop (level half acc : Z) (i : nat) (es : list bt_ent) : option nat :=
  match es with
  | [] => None
  | e :: es =>
      let acc := acc + bt_rec_size level e in
      if half <=? acc then Some (S i) else balance_loop level half acc (S i) es
  end.

(** [while (s > 1 && bt_used(level, e, s) > INVFS_BLOCK_SIZE) s--;] *)
Fixpoint shrink_left (level : Z) (es : list bt_ent) (s : nat) : nat :=
  match s with
  | O => O
  | S s' => if (1 <? s)%nat && negb (fits level (take s es)) then shrink_left level es s' else s
  end.

(** [while (s < n - 1 && bt_used(level, e + s, n - s) > INVFS_BLOCK_SIZE) s++;]
    [todo] is [n - 1 - s]. *)
Fixpoint shrink_right (level : Z) (es : list bt_ent) (todo s : nat) : nat :=
  match todo with
  | O => s
  | S todo => if negb (fits level (drop s es)) then shrink_right level es todo (S s) else s
  end.

(** Source: core/vol_btree.c [bt_split_point] *)
Definition bt_split_point (level : Z) (es : list bt_ent) : option nat :=
  let n := length es in
  let half := bt_used level es / 2 in
  let s := default (n / 2)%nat (balance_loop level half PAGE_HDR 0 (take (n - 1) es)) in
  let s := if (s <? 1)%nat then 1%nat else s in
  let s := if (n - 1 <? s)%nat then (n - 1)%nat else s in
  let s := shrink_left level es s in
  let s := shrink_right level es (n - 1 - s) s in
  if negb (fits level (take s es)) || negb (fits level (drop s es)) then None else Some s.

(** The largest [i] from [base + 1] on, one by one, such that the records
    [base .. i-1] fit a page; [last] bounds [i], [s] is the answer so far. *)
Fixpoint pack_loop (level : Z) (es : list bt_ent) (base : nat) (count : nat) (i s : nat) : nat :=
  match count with
  | O => s
  | S count =>
      if negb (fits level (take (i - base) (drop base es))) then s
      else pack_loop level es base count (S i) i
  end.

(** Source: core/vol_btree.c [bt_split3_point] *)
Definition bt_split3_point (level : Z) (es : list bt_ent) : option (list nat) :=
  match bt_split_point level es with
  | Some (S s) => Some [S s]
  | _ =>
      let n := length es in
      if (n <? 3)%nat then None
      else if negb (forallb (fun e => fits level [e]) es) then None
      else
        let s1 := pack_loop level es 0 (n - 2) 1 0 in
        if (s1 <? 1)%nat then None
        else
          let s2 := pack_loop level es s1 (n - 1 - s1) (S s1) s1 in
          if (s2 <? S s1)%nat then None
          else if negb (fits level (drop s2 es)) then None
          else Some [s1; s2]
  end.

(** ** Sizes *)

Definition recs_size (level : Z) (es : list bt_ent) : Z :=
  foldr (fun e u => bt_rec_size level e + u) 0 es.

Lemma bt_used_eq level es : bt_used level es = PAGE_HDR + recs_size level es.
Proof.
  unfold bt_used. generalize PAGE_HDR as u.
  induction es as [|e es IH]; intros u; cbn; [lia|]. rewrite IH. unfold recs_size. lia.
Qed.

Lemma rec_size_min level e : 4 <= bt_rec_size level e.
Proof. unfold bt_rec_size, BLKPTR_LEN. destruct (_ =? _); lia. Qed.

Lemma recs_size_app level a b : recs_size level (a ++ b) = recs_size level a + recs_size level b.
Proof. induction a as [|e a IH]; cbn in *; [done|]. unfold recs_size in *. lia. Qed.

Lemma recs_size_min level es : 4 * zlen es <= recs_size level es.
Proof.
  induction es as [|e es IH]; cbn in *; [lia|]. pose proof (rec_size_min level e).
  unfold recs_size in *. lia.
Qed.

Lemma fits_iff level es : fits level es = true <-> PAGE_HDR + recs_size level es <= INVFS_BLOCK_SIZE.
Proof. unfold fits. by rewrite bt_used_eq, Z.leb_le. Qed.

(** A part of what fits fits. *)
Lemma recs_size_sub level a b : a `sublist_of` b -> recs_size level a <= recs_size level b.
Proof.
  induction 1 as [|x a b _ IH|x a b _ IH]; cbn; unfold recs_size in *; [lia|lia|].
  pose proof (rec_size_min level x). lia.
Qed.

Lemma fits_sub level a b : a `sublist_of` b -> fits level b = true -> fits level a = true.
Proof. rewrite !fits_iff. intros H. pose proof (recs_size_sub level _ _ H). lia. Qed.

Lemma fits_take level es s t : (s <= t)%nat -> fits level (take t es) = true -> fits level (take s es) = true.
Proof.
  intros H. apply fits_sub. replace (take s es) with (take s (take t es)).
  - apply sublist_take.
  - by rewrite take_take, Nat.min_l.
Qed.

Lemma fits_drop level es s t : (s <= t)%nat -> fits level (drop s es) = true -> fits level (drop t es) = true.
Proof.
  intros H. apply fits_sub. replace (drop t es) with (drop (t - s) (drop s es)).
  - apply sublist_drop.
  - rewrite drop_drop. f_equal. lia.
Qed.

(** ** Split points are sound and complete *)

Lemma shrink_left_spec level es s :
  (1 <= s)%nat ->
  (1 <= shrink_left level es s <= s)%nat /\
  (forall c, (1 <= c <= s)%nat -> fits level (take c es) = true ->
     (c <= shrink_left level es s)%nat /\ fits level (take (shrink_left level es s) es) = true).
Proof.
  induction s as [|s IH]; intros Hs; [lia|]. cbn [shrink_left].
  destruct (1 <? S s)%nat eqn:E1; cbn [andb].
  - apply Nat.ltb_lt in E1. destruct IH as [IH1 IH2]; [lia|].
    destruct (fits level (take (S s) es)) eqn:Ef; cbn [negb]; [split; [lia|]; intros; split; [lia|done]|].
    split; [lia|]. intros c Hc Hf. apply IH2; [|done].
    destruct (decide (c = S s)) as [->|]; [congruence|lia].
  - apply Nat.ltb_ge in E1. split; [lia|]. intros c Hc Hf. replace (S s) with c by lia. done.
Qed.

Lemma shrink_right_spec level es todo s :
  (s <= shrink_right level es todo s <= s + todo)%nat /\
  (forall c, (s <= c <= s + todo)%nat -> fits level (drop c es) = true ->
     fits level (drop (shrink_right level es todo s) es) = true /\
     (shrink_right level es todo s <= c)%nat).
Proof.
  revert s. induction todo as [|todo IH]; intros s; cbn [shrink_right].
  - split; [lia|]. intros c Hc Hf. replace s with c by lia. done.
  - destruct (fits level (drop s es)) eqn:Ef; cbn [negb]; [split; [lia|]; intros; split; [done|lia]|].
    destruct (IH (S s)) as [IH1 IH2]. split; [lia|]. intros c Hc Hf. apply IH2; [|done].
    destruct (decide (c = s)) as [->|]; [congruence|lia].
Qed.

Lemma split_point_sound level es s :
  (2 <= length es)%nat -> bt_split_point level es = Some s ->
  (1 <= s < length es)%nat /\ fits level (take s es) = true /\ fits level (drop s es) = true.
Proof.
  intros Hn. unfold bt_split_point. set (s0 := default _ _).
  set (s1 := if (length es - 1 <? _)%nat then _ else _).
  assert (H1 : (1 <= s1 <= length es - 1)%nat).
  { subst s1. clearbody s0. destruct (Nat.ltb_spec s0 1); case_match; zbool; lia. }
  destruct (shrink_left_spec level es s1) as [H2 _]; [lia|]. set (s2 := shrink_left level es s1) in *.
  destruct (shrink_right_spec level es (length es - 1 - s2) s2) as [H3 _].
  set (s3 := shrink_right _ _ _ _) in *.
  destruct (fits level (take s3 es)) eqn:E1, (fits level (drop s3 es)) eqn:E2; cbn [negb orb]; try done.
  intros [= <-]. split; [lia|done].
Qed.

Lemma split_point_complete level es c :
  (1 <= c < length es)%nat -> fits level (take c es) = true -> fits level (drop c es) = true ->
  exists s, bt_split_point level es = Some s.
Proof.
  intros Hc Hl Hr. unfold bt_split_point. set (s0 := default _ _).
  set (s1 := if (length es - 1 <? _)%nat then _ else _).
  assert (H1 : (1 <= s1 <= length es - 1)%nat).
  { subst s1. clearbody s0. destruct (Nat.ltb_spec s0 1); case_match; zbool; lia. }
  destruct (shrink_left_spec level es s1) as [H2 H2']; [lia|]. set (s2 := shrink_left level es s1) in *.
  destruct (shrink_right_spec level es (length es - 1 - s2) s2) as [H3 H3'].
  set (s3 := shrink_right _ _ _ _) in *.
  assert (fits level (take s3 es) = true /\ fits level (drop s3 es) = true) as [-> ->]; [|by eexists].
  destruct (decide (c <= s1)%nat) as [Hle|Hgt].
  - destruct (H2' c) as [Hc2 Hf2]; [lia|done|].
    assert (Hd : fits level (drop s2 es) = true) by (by eapply fits_drop).
    destruct (H3' s2) as [Hf3 Hle3]; [lia|done|]. replace s3 with s2 in * by lia. done.
  - assert (Hs1 : fits level (take s1 es) = true) by (eapply fits_take; [|done]; lia).
    destruct (H2' s1) as [Hc2 Hf2]; [lia|done|].
    destruct (H3' c) as [Hf3 Hle3]; [lia|done|]. split; [|done].
    by eapply fits_take.
Qed.

(** [pack_loop] stops at the last [i <= last] whose piece fits. *)
Lemma pack_loop_spec level es base count i s :
  (base <= s < i)%nat ->
  let r := pack_loop level es base count i s in
  (s <= r < i + count)%nat /\
  (r = s \/ fits level (take (r - base) (drop base es)) = true) /\
  (forall c, (i <= c < i + count)%nat -> fits level (take (c - base) (drop base es)) = true -> (c <= r)%nat).
Proof.
  revert i s. induction count as [|count IH]; intros i s Hi; cbn [pack_loop]; cbv zeta.
  { split; [lia|]. split; [by left|]. intros; lia. }
  destruct (fits level (take (i - base) (drop base es))) eqn:Ef; cbn [negb].
  - destruct (IH (S i) i) as (H1 & H2 & H3); [lia|]. split; [lia|]. split.
    + destruct H2 as [->|]; auto.
    + intros c Hc Hf. destruct (decide (c = i)) as [->|]; [lia|]. apply H3; [lia|done].
  - split; [lia|]. split; [by left|]. intros c Hc Hf. exfalso.
    assert (fits level (take (i - base) (drop base es)) = true); [|congruence].
    eapply fits_take; [|done]. lia.
Qed.

(** The cuts of a split, as the list of pieces they leave. *)
Definition pieces (cuts : list nat) (es : list bt_ent) : list (list bt_ent) :=
  match cuts with
  | [s] => [take s es; drop s es]
  | [s1; s2] => [take s1 es; take (s2 - s1) (drop s1 es); drop s2 es]
  | _ => []
  end.

Lemma nonempty {A} (l : list A) : (0 < length l)%nat -> l <> [].
Proof. intros H ->. cbn in H. lia. Qed.

Lemma fits_single level e es : In e es -> fits level es = true -> fits level [e] = true.
Proof.
  rewrite !fits_iff. intros Hin Hf. cut (bt_rec_size level e <= recs_size level es); [cbn; lia|].
  clear Hf. induction es as [|x es IH]; [done|]. pose proof (rec_size_min level x).
  pose proof (recs_size_min level es). unfold recs_size in *. cbn.
  destruct Hin as [->|Hin]; [lia|]. apply IH in Hin. lia.
Qed.

Lemma split3_sound level es cuts :
  (2 <= length es)%nat -> bt_split3_point level es = Some cuts ->
  concat (pieces cuts es) = es /\ (2 <= length (pieces cuts es) <= 3)%nat /\
  Forall (fun p => p <> [] /\ fits level p = true) (pieces cuts es).
Proof.
  intros Hn. unfold bt_split3_point. destruct (bt_split_point level es) as [[|s]|] eqn:Es.
  - apply split_point_sound in Es as [? _]; [lia|done].
  - intros [= <-]. apply split_point_sound in Es as (Hs & Hl & Hr); [|done].
    cbn [pieces concat length]. rewrite app_nil_r, take_drop. split; [done|]. split; [lia|].
    rewrite ?Forall_cons_iff. split_and!; try done; apply nonempty;
      rewrite ?length_take, ?length_drop; lia.
  - destruct (Nat.ltb_spec (length es) 3); [done|]. destruct (forallb _ es); [|done]. cbn [negb].
    destruct (pack_loop_spec level es 0 (length es - 2) 1 0) as (H1 & H1' & _); [lia|].
    set (s1 := pack_loop level es 0 _ _ _) in *. destruct (Nat.ltb_spec s1 1); [done|].
    destruct (pack_loop_spec level es s1 (length es - 1 - s1) (S s1) s1) as (H2 & H2' & _); [lia|].
    set (s2 := pack_loop level es s1 _ _ _) in *. destruct (Nat.ltb_spec s2 (S s1)); [done|].
    destruct (fits level (drop s2 es)) eqn:E3; [|done]. cbn [negb]. intros [= <-].
    cbn [pieces concat length]. split.
    { rewrite app_nil_r. replace (drop s2 es) with (drop (s2 - s1) (drop s1 es)).
      - by rewrite take_drop, take_drop.
      - rewrite drop_drop. f_equal. lia. }
    split; [lia|]. rewrite Nat.sub_0_r, drop_0 in H1'.
    destruct H1' as [|E1]; [lia|]. destruct H2' as [|E2]; [lia|].
    rewrite ?Forall_cons_iff. split_and!; try done; apply nonempty;
      rewrite ?length_take, ?length_drop; lia.
Qed.

(** If the records can be cut into two or three runs that fit, a cut is found. *)
Lemma split3_complete level es a b c :
  es = a ++ b ++ c -> a <> [] -> b <> [] ->
  fits level a = true -> fits level b = true -> fits level c = true ->
  exists cuts, bt_split3_point level es = Some cuts.
Proof.
  intros -> Ha Hb Fa Fb Fc. set (es := a ++ b ++ c).
  assert (La : (1 <= length a)%nat) by (destruct a; [done|cbn; lia]).
  assert (Lb : (1 <= length b)%nat) by (destruct b; [done|cbn; lia]).
  assert (Hlen : length es = (length a + length b + length c)%nat).
  { unfold es. rewrite !length_app. lia. }
  unfold bt_split3_point. destruct (bt_split_point level es) as [[|s]|] eqn:Es;
    [apply split_point_sound in Es as [? _]; lia|by eexists|].
  assert (Hno : forall k, (1 <= k < length es)%nat -> fits level (take k es) = true ->
            fits level (drop k es) = true -> False).
  { intros k Hk F1 F2. destruct (split_point_complete level es k) as [s E]; [done..|congruence]. }
  assert (Hc : (1 <= length c)%nat).
  { destruct c; [|cbn; lia]. exfalso. apply (Hno (length a)); unfold es.
    - rewrite app_nil_r, length_app. lia.
    - by rewrite take_app_length.
    - by rewrite drop_app_length, app_nil_r. }
  destruct (Nat.ltb_spec (length es) 3); [lia|].
  assert (forallb (fun e => fits level [e]) es = true) as ->.
  { apply forallb_forall. intros e He. unfold es in He. rewrite !in_app_iff, <- !list_elem_of_In in He.
    destruct He as [He|[He|He]]; apply list_elem_of_In in He; eauto using fits_single. }
  cbn [negb].
  destruct (pack_loop_spec level es 0 (length es - 2) 1 0) as (H1 & H1' & H1c); [lia|].
  set (s1 := pack_loop level es 0 _ _ _) in *. rewrite !Nat.sub_0_r, !drop_0 in H1'.
  assert (Hs1 : (length a <= s1)%nat).
  { apply H1c; [lia|]. rewrite Nat.sub_0_r, drop_0. unfold es. by rewrite take_app_length. }
  destruct H1' as [|F1]; [lia|]. destruct (Nat.ltb_spec s1 1); [lia|].
  assert (Fdrop : forall k, (length a + length b <= k)%nat -> fits level (drop k es) = true).
  { intros k Hk. eapply fits_drop; [exact Hk|]. unfold es.
    rewrite app_assoc, <- length_app, drop_app_length. done. }
  assert (Hs1' : (s1 < length a + length b)%nat).
  { destruct (decide (length a + length b <= s1)%nat); [|lia]. exfalso. apply (Hno s1); auto. lia. }
  destruct (pack_loop_spec level es s1 (length es - 1 - s1) (S s1) s1) as (H2 & _ & H2c); [lia|].
  set (s2 := pack_loop level es s1 _ _ _) in *.
  assert (Hs2 : (length a + length b <= s2)%nat).
  { apply H2c; [lia|]. eapply fits_sub; [|exact Fb].
    unfold es. rewrite app_assoc, drop_app_le, take_app_le by (rewrite ?length_drop, ?length_app; lia).
    etrans; [apply sublist_take|]. rewrite drop_app_ge by lia. apply sublist_drop. }
  destruct (Nat.ltb_spec s2 (S s1)); [lia|]. rewrite Fdrop by lia. by eexists.
Qed.

(** ** Searches *)

Abbreviation ksorted := (StronglySorted key_lt).

Lemma ent_lookup es i e : es !! i = Some e -> ent es i = e.
Proof. intros H. unfold ent. by rewrite (nth_lookup_Some _ _ _ _ H). Qed.

Lemma ent_lookup_lt es i : (i < length es)%nat -> es !! i = Some (ent es i).
Proof. intros H. destruct (lookup_lt_is_Some_2 es i H) as [e E]. by rewrite E, (ent_lookup _ _ _ E). Qed.

Lemma ksorted_lt es i j :
  ksorted (map e_k es) -> (i < j < length es)%nat -> key_lt (e_k (ent es i)) (e_k (ent es j)).
Proof.
  intros Hs Hij. rewrite <- (take_drop (S i) es), map_app in Hs.
  eapply (StronglySorted_app_1_elem_of key_lt); [exact Hs|..].
  - apply list_elem_of_fmap. exists (ent es i). split; [done|].
    apply elem_of_take. exists i. split; [apply ent_lookup_lt|]; lia.
  - apply list_elem_of_fmap. exists (ent es j). split; [done|].
    apply list_elem_of_lookup. exists (j - S i)%nat. rewrite lookup_drop.
    rewrite <- ent_lookup_lt by lia. f_equal. lia.
Qed.

Lemma lower_bound_loop_spec fuel es key lo hi :
  ksorted (map e_k es) -> (lo <= hi <= length es)%nat -> (hi - lo <= fuel)%nat ->
  (forall j, (j < lo)%nat -> key_lt (e_k (ent es j)) key) ->
  (forall j, (hi <= j < length es)%nat -> key_le key (e_k (ent es j))) ->
  let i := lower_bound_loop fuel es key lo hi in
  (i <= length es)%nat /\
  (forall j, (j < i)%nat -> key_lt (e_k (ent es j)) key) /\
  (forall j, (i <= j < length es)%nat -> key_le key (e_k (ent es j))).
Proof.
  intros Hs. revert lo hi. induction fuel as [|fuel IH]; intros lo hi Hlh Hf Hlo Hhi; cbn [lower_bound_loop].
  { replace hi with lo in * by lia. split; [lia|done]. }
  destruct (Nat.ltb_spec lo hi); [|replace hi with lo in * by lia; split; [lia|done]].
  set (mid := (lo + (hi - lo) / 2)%nat).
  assert (Hm : (lo <= mid < hi)%nat).
  { unfold mid. pose proof (Nat.div_lt (hi - lo) 2). lia. }
  clearbody mid. destruct (bt_cmp_key (ent es mid) key <? 0) eqn:Ec; cbv zeta.
  - apply Z.ltb_lt, key_cmp_lt in Ec. apply IH; try lia; [|done].
    intros j Hj. destruct (decide (j = mid)) as [->|]; [done|].
    eapply key_lt_trans; [|exact Ec]. apply ksorted_lt; [done|lia].
  - apply Z.ltb_ge in Ec. assert (Hge : key_le key (e_k (ent es mid))).
    { apply key_le_not_lt. rewrite <- key_cmp_lt. unfold bt_cmp_key in Ec. lia. }
    apply IH; try lia; [done|]. intros j Hj. destruct (decide (j = mid)) as [->|]; [done|].
    eapply key_le_trans; [exact Hge|]. apply key_lt_le, ksorted_lt; [done|lia].
Qed.

Lemma lower_bound_spec es key :
  ksorted (map e_k es) ->
  let i := bt_lower_bound es key in
  (i <= length es)%nat /\
  (forall j, (j < i)%nat -> key_lt (e_k (ent es j)) key) /\
  (forall j, (i <= j < length es)%nat -> key_le key (e_k (ent es j))).
Proof. intros Hs. apply lower_bound_loop_spec; [done|lia..]. Qed.

Lemma child_index_loop_spec key pre rest i :
  length pre = S i ->
  let es := pre ++ rest in
  let r := child_index_loop rest key i (S i) in
  (i <= r < length es)%nat /\ (r = i \/ key_le (e_k (ent es r)) key) /\
  (S r = length es \/ ((S r < length es)%nat /\ key_lt key (e_k (ent es (S r))))).
Proof.
  cbv zeta. revert i pre. induction rest as [|e rest IH]; intros i pre Hp; cbn [child_index_loop].
  { rewrite app_nil_r. split; [lia|]. split; [by left|]. lia. }
  assert (Hent : ent (pre ++ e :: rest) (S i) = e).
  { apply ent_lookup. rewrite <- Hp. by apply list_lookup_middle. }
  assert (Hlen : (S i < length (pre ++ e :: rest))%nat) by (rewrite length_app; cbn; lia).
  destruct (bt_cmp_key e key <=? 0) eqn:Ec.
  - apply Z.leb_le, key_cmp_le in Ec.
    destruct (IH (S i) (pre ++ [e])) as (H1 & H2 & H3); [rewrite length_app; cbn; lia|].
    rewrite <- app_assoc in *. cbn [app] in *. split; [lia|]. split; [|done].
    right. destruct H2 as [->|]; [by rewrite Hent|done].
  - apply Z.leb_gt, key_cmp_gt in Ec. split; [lia|]. split; [by left|]. right. by rewrite Hent.
Qed.

(** The chosen child's separator is at most the key, unless it is the first
    child, and the next separator is above the key. *)
Lemma child_index_spec es key :
  es <> [] ->
  let i := bt_child_index es key in
  (i < length es)%nat /\ (i = O \/ key_le (e_k (ent es i)) key) /\
  (S i = length es \/ ((S i < length es)%nat /\ key_lt key (e_k (ent es (S i))))).
Proof.
  destruct es as [|e es]; [done|]. intros _. unfold bt_child_index. cbn [tail].
  destruct (child_index_loop_spec key [e] es 0) as (H1 & H2 & H3); [done|]. cbn [app] in *.
  split; [lia|]. done.
Qed.

(** ** Codec *)

Definition ptr_ok (p : invfs_blkptr) : Prop :=
  0 <= bp_pba p < 256 ^ 8 /\ 0 <= bp_checksum p < 256 ^ 4 /\ 0 <= bp_gen p < 256 ^ 8 /\
  0 <= bp_flags p < 256 ^ 4.

(** A record of a node at [level]: lengths are 16-bit. *)
Definition ent_ok (level : Z) (e : bt_ent) : Prop :=
  bytes_ok (e_k e) /\ zlen (e_k e) < 2 ^ 16 /\
  (if level =? INVFS_PAGE_LEVEL_LEAF
   then bytes_ok (e_v e) /\ zlen (e_v e) < 2 ^ 16 /\ e_child e = null_ptr
   else e_v e = [] /\ ptr_ok (e_child e)).

Lemma length_rec_bytes level e : zlen (rec_bytes level e) = bt_rec_size level e.
Proof.
  unfold rec_bytes, bt_rec_size, BLKPTR_LEN. destruct (_ =? _);
    rewrite !length_app, ?length_le_bytes, ?length_ptr_bytes; lia.
Qed.

Lemma length_recs level es : zlen (concat (map (rec_bytes level) es)) = recs_size level es.
Proof.
  induction es as [|e es IH]; [done|]. cbn [map concat].
  by rewrite length_app, Nat2Z.inj_add, length_rec_bytes, IH.
Qed.

Lemma drop_le_bytes n x rest : drop n (le_bytes n x ++ rest) = rest.
Proof. rewrite <- (length_le_bytes n x) at 1. apply drop_app_length. Qed.

Lemma field_len_at n rest : 0 <= n < 2 ^ 16 -> field (le_bytes 2 n ++ rest) 0 2 = n.
Proof. intros. by apply field_here. Qed.

Lemma not_short (pre rest : bytes) n : n <= zlen pre -> (zlen (pre ++ rest) <? n) = false.
Proof. intros. rewrite length_app. apply Z.ltb_ge. lia. Qed.

Lemma drop_pre (pre rest : bytes) : drop (Z.to_nat (zlen pre)) (pre ++ rest) = rest.
Proof. rewrite Nat2Z.id. apply drop_app_length. Qed.

(** One turn of the decoding loop on one encoded record. *)
Lemma decode_rec level e n rest :
  ent_ok level e ->
  bt_decode_recs level (S n) (rec_bytes level e ++ rest)
  = match bt_decode_recs level n rest with Some es => Some (e :: es) | None => None end.
Proof.
  intros (Hk & Hkl & Hv). cbn [bt_decode_recs]. unfold rec_bytes. rewrite <- !app_assoc.
  rewrite not_short by (by rewrite length_le_bytes). rewrite field_len_at by lia.
  rewrite drop_le_bytes, not_short, drop_pre, slice_app_l by done.
  destruct (level =? INVFS_PAGE_LEVEL_LEAF) eqn:El.
  - destruct Hv as (Hv & Hvl & Hc). rewrite <- !app_assoc.
    rewrite not_short by (by rewrite length_le_bytes). rewrite field_len_at by lia.
    rewrite drop_le_bytes, not_short, drop_pre, slice_app_l by done.
    destruct e as [k v c]. cbn in *. by subst c.
  - destruct Hv as [Hv (H1 & H2 & H3 & H4)].
    rewrite not_short by (by rewrite length_ptr_bytes).
    change BLKPTR_LEN with (zlen (ptr_bytes (e_child e))).
    rewrite drop_pre, slice_app_l, ptr_roundtrip by done.
    destruct e as [k v c]. cbn in *. by subst v.
Qed.

Lemma decode_recs_encode level es tail :
  Forall (ent_ok level) es ->
  bt_decode_recs level (length es) (concat (map (rec_bytes level) es) ++ tail) = Some es.
Proof.
  induction 1 as [|e es He _ IH]; [done|]. cbn [map concat length].
  rewrite <- app_assoc, decode_rec by done. by rewrite IH.
Qed.

Lemma rec_bytes_ok level e : ent_ok level e -> bytes_ok (rec_bytes level e).
Proof.
  intros (Hk & _ & Hv). unfold rec_bytes. rewrite !Forall_app. split; [auto with invfs|].
  split; [done|]. destruct (_ =? _).
  - rewrite Forall_app. split; [auto with invfs|apply Hv].
  - unfold ptr_bytes. rewrite !Forall_app. auto with invfs.
Qed.

Lemma recs_bytes_ok level es : Forall (ent_ok level) es -> bytes_ok (concat (map (rec_bytes level) es)).
Proof.
  induction 1 as [|e es He _ IH]; [constructor|]. cbn [map concat]. rewrite Forall_app.
  auto using rec_bytes_ok.
Qed.

(** *** The page of a node *)

Lemma drop_put_after p off bs o :
  0 <= off -> off + zlen bs <= Z.of_nat o -> off <= zlen p ->
  drop o (put p off bs) = drop o p.
Proof.
  intros. unfold put. rewrite drop_app_ge by (rewrite length_take; lia).
  rewrite drop_app_ge by (rewrite length_take; lia).
  rewrite drop_drop, length_take. f_equal. lia.
Qed.

Lemma drop_put_at p off bs :
  0 <= off <= zlen p -> drop (Z.to_nat off) (put p off bs) = bs ++ drop (Z.to_nat off + length bs) p.
Proof.
  intros. unfold put. rewrite drop_app_ge by (rewrite length_take; lia).
  rewrite length_take, Nat.min_l, Nat.sub_diag, drop_0 by lia. done.
Qed.

Section encoded.
Context (level gen : Z) (es : list bt_ent).
Context (Hlev : 0 <= level < 2 ^ 16) (Hfit : fits level es = true) (Hes : Forall (ent_ok level) es).

Lemma encoded_recs_len : zlen (concat (map (rec_bytes level) es)) <= INVFS_BLOCK_SIZE - PAGE_HDR.
Proof. rewrite length_recs. apply fits_iff in Hfit. lia. Qed.

Lemma encoded_count : zlen es <= 1019.
Proof.
  pose proof (recs_size_min level es). apply fits_iff in Hfit.
  unfold INVFS_BLOCK_SIZE, PAGE_HDR in *. lia.
Qed.

Lemma length_encode : zlen (bt_encode level gen es) = INVFS_BLOCK_SIZE.
Proof.
  pose proof encoded_recs_len. unfold bt_encode.
  rewrite !length_put; rewrite ?length_put, ?length_le_bytes, ?length_page_init; try done.
  unfold INVFS_BLOCK_SIZE, PAGE_HDR in *. lia.
Qed.

Lemma encode_bytes_ok : bytes_ok (bt_encode level gen es).
Proof.
  unfold bt_encode. repeat apply put_ok; auto using page_init_ok, recs_bytes_ok with invfs.
Qed.

(** Header fields survive the stores of the record count and the records. *)
Lemma encode_slice o n :
  0 <= o -> 0 <= n -> o + n <= 14 ->
  slice (bt_encode level gen es) o n = slice (mbuf_page_init (u16 level) gen) o n.
Proof.
  intros. unfold bt_encode.
  rewrite !slice_put_before; rewrite ?length_put, ?length_le_bytes, ?length_page_init;
    unfold PAGE_HDR; done || lia.
Qed.

Lemma encode_nentries : page_nentries (bt_encode level gen es) = zlen es.
Proof.
  pose proof encoded_count. unfold page_nentries, field, bt_encode.
  rewrite slice_put_before; rewrite ?length_put, ?length_le_bytes, ?length_page_init; try done.
  rewrite slice_put_at; rewrite ?length_page_init, ?length_le_bytes; try done.
  apply le_val_bytes_small. lia.
Qed.

Lemma init_level l : 0 <= l < 2 ^ 16 -> page_level (mbuf_page_init l gen) = l.
Proof.
  intros. unfold page_level, mbuf_page_init.
  assert (Hm : length PAGE_MAGIC = 4%nat) by done. at_field. done.
Qed.

Lemma init_gen l : page_gen (mbuf_page_init l gen) = u64 gen.
Proof.
  unfold page_gen, mbuf_page_init, field. rewrite slice_app_r by done. rewrite slice_app_l.
  - apply le_val_bytes.
  - by rewrite length_le_bytes.
Qed.

Lemma encode_header :
  page_magic (bt_encode level gen es) = PAGE_MAGIC /\ page_gen (bt_encode level gen es) = u64 gen /\
  page_level (bt_encode level gen es) = level.
Proof.
  unfold page_magic, page_gen, page_level, field. rewrite !encode_slice by done. split; [done|].
  split; [exact (init_gen (u16 level))|].
  rewrite u16_small by done. exact (init_level level Hlev).
Qed.

Lemma encode_decode : bt_decode (mbuf_page_seal (bt_encode level gen es)) = Some (level, es).
Proof.
  pose proof length_encode as Hlen. destruct (seal_header _ Hlen) as (_ & _ & El & En).
  unfold bt_decode. rewrite El, En, encode_nentries. destruct encode_header as (_ & _ & ->).
  pose proof encoded_count. rewrite (proj2 (Z.ltb_ge _ _)) by (unfold BT_MAX_ENTRIES; lia).
  unfold mbuf_page_seal. rewrite drop_put_after by (rewrite ?Hlen; done).
  unfold bt_encode at 1. rewrite drop_put_at, Nat2Z.id, decode_recs_encode; [done|done|].
  rewrite length_put; rewrite ?length_page_init, ?length_le_bytes; done.
Qed.
End encoded.

Lemma field_range bs off n :
  bytes_ok bs -> 0 <= off -> 0 <= n -> off + n <= zlen bs -> 0 <= field bs off n < 256 ^ n.
Proof.
  intros Hb Ho Hn Hl. unfold field. pose proof (length_slice bs off n Ho Hn Hl) as E.
  pose proof (le_val_range (slice bs off n) (slice_ok _ _ _ Hb)) as R. by rewrite E in R.
Qed.

Lemma ptr_parse_ok bs : bytes_ok bs -> zlen bs = BLKPTR_LEN -> ptr_ok (ptr_parse bs).
Proof.
  intros Hb Hl. unfold ptr_parse, ptr_ok. cbn [bp_pba bp_checksum bp_gen bp_flags].
  split_and!; apply field_range; rewrite ?Hl; done.
Qed.

(** Whatever decodes is a list of records of that level that fits the page. *)
Lemma decode_recs_ok level n rest es :
  bytes_ok rest -> bt_decode_recs level n rest = Some es ->
  Forall (ent_ok level) es /\ recs_size level es <= zlen rest /\ length es = n.
Proof.
  revert rest es. induction n as [|n IH]; intros rest es Hb; cbn [bt_decode_recs].
  { intros [= <-]. split; [constructor|]. cbn. split; [lia|done]. }
  destruct (Z.ltb_spec (zlen rest) 2) as [|H2]; [done|].
  pose proof (field_range rest 0 2 Hb ltac:(done) ltac:(done) ltac:(lia)) as Hkr.
  set (kl := field rest 0 2) in *. clearbody kl. set (r1 := drop 2 rest).
  assert (L1 : zlen r1 = zlen rest - 2) by (unfold r1; rewrite length_drop; lia).
  assert (B1 : bytes_ok r1) by (by apply Forall_drop). clearbody r1.
  destruct (Z.ltb_spec (zlen r1) kl) as [|H3]; [done|].
  set (k := slice r1 0 kl). assert (Lk : zlen k = kl) by (apply length_slice; lia).
  assert (Bk : bytes_ok k) by (unfold k; auto with invfs). clearbody k.
  set (r2 := drop (Z.to_nat kl) r1).
  assert (L2 : zlen r2 = zlen r1 - kl) by (unfold r2; rewrite length_drop; lia).
  assert (B2 : bytes_ok r2) by (by apply Forall_drop). clearbody r2.
  destruct (level =? INVFS_PAGE_LEVEL_LEAF) eqn:El.
  - destruct (Z.ltb_spec (zlen r2) 2) as [|H4]; [done|].
    pose proof (field_range r2 0 2 B2 ltac:(done) ltac:(done) ltac:(lia)) as Hvr.
    set (vl := field r2 0 2) in *. clearbody vl. set (r3 := drop 2 r2).
    assert (L3 : zlen r3 = zlen r2 - 2) by (unfold r3; rewrite length_drop; lia).
    assert (B3 : bytes_ok r3) by (by apply Forall_drop). clearbody r3.
    destruct (Z.ltb_spec (zlen r3) vl) as [|H5]; [done|].
    destruct (bt_decode_recs level n _) as [es'|] eqn:E; [|done]. intros [= <-].
    apply IH in E as (F & Hs & Hn); [|by apply Forall_drop]. rewrite length_drop in Hs.
    pose proof (length_slice r3 0 vl ltac:(lia) ltac:(lia) ltac:(lia)) as Lv.
    split; [constructor; [|done]|].
    + unfold ent_ok. cbn. rewrite El. split_and!; auto with invfs; lia.
    + cbn [length recs_size foldr]. unfold bt_rec_size at 1. rewrite El. cbn [e_k e_v].
      fold (recs_size level es'). split; [lia|by f_equal].
  - destruct (Z.ltb_spec (zlen r2) BLKPTR_LEN) as [|H4]; [done|].
    destruct (bt_decode_recs level n _) as [es'|] eqn:E; [|done]. intros [= <-].
    apply IH in E as (F & Hs & Hn); [|by apply Forall_drop]. rewrite length_drop in Hs.
    pose proof (length_slice r2 0 BLKPTR_LEN ltac:(done) ltac:(done) ltac:(lia)) as Lv.
    split; [constructor; [|done]|].
    + unfold ent_ok. cbn. rewrite El. split_and!; auto using ptr_parse_ok with invfs; lia.
    + cbn [length recs_size foldr]. unfold bt_rec_size at 1. rewrite El. cbn [e_k e_v].
      fold (recs_size level es'). unfold BLKPTR_LEN in *. split; [lia|by f_equal].
Qed.

Lemma decode_ok page level es :
  bytes_ok page -> zlen page = INVFS_BLOCK_SIZE -> bt_decode page = Some (level, es) ->
  Forall (ent_ok level) es /\ fits level es = true /\ level = page_level page /\
  0 <= level < 2 ^ 16 /\ zlen es = page_nentries page.
Proof.
  intros Hb Hl. unfold bt_decode.
  pose proof (field_range page 14 2 Hb ltac:(done) ltac:(done) ltac:(rewrite Hl; done)) as Hn.
  pose proof (field_range page 12 2 Hb ltac:(done) ltac:(done) ltac:(rewrite Hl; done)) as Hv.
  fold (page_nentries page) in Hn. fold (page_level page) in Hv.
  destruct (_ <? _); [done|]. destruct (bt_decode_recs _ _ _) as [es'|] eqn:E; [|done].
  intros [= <- <-]. apply decode_recs_ok in E as (F & Hs & Hlen); [|by apply Forall_drop].
  rewrite length_drop in Hs. rewrite fits_iff. unfold INVFS_BLOCK_SIZE, PAGE_HDR in *.
  split_and!; try done; lia.
Qed.

(** [bt_first_key] returns the first record's key. *)
Lemma first_key_decode page level e es :
  bytes_ok page -> zlen page = INVFS_BLOCK_SIZE -> bt_decode page = Some (level, e :: es) ->
  bt_first_key_of page = Some (e_k e).
Proof.
  intros Hb Hl Hd. pose proof (decode_ok _ _ _ Hb Hl Hd) as (_ & _ & _ & _ & Hn).
  unfold bt_first_key_of. rewrite <- Hn, (proj2 (Z.eqb_neq _ 0)) by (cbn [length]; lia).
  unfold bt_decode in Hd. rewrite <- Hn, Nat2Z.id in Hd. destruct (_ <? _); [done|].
  cbn [length bt_decode_recs] in Hd.
  set (rest := drop (Z.to_nat PAGE_HDR) page) in Hd.
  assert (Ef : field rest 0 2 = field page PAGE_HDR 2) by done.
  destruct (zlen rest <? 2); [done|]. rewrite Ef in Hd.
  pose proof (field_range page PAGE_HDR 2 Hb ltac:(done) ltac:(done) ltac:(rewrite Hl; done)) as Hkr.
  set (kl := field page PAGE_HDR 2) in *. clearbody kl.
  destruct (Z.ltb_spec (zlen (drop 2 rest)) kl) as [|Hk]; [done|].
  unfold rest in Hk. rewrite !length_drop in Hk. unfold INVFS_BLOCK_SIZE, PAGE_HDR in *.
  rewrite (proj2 (Z.ltb_ge _ _)) by lia. f_equal.
  assert (Ek : slice (drop 2 rest) 0 kl = slice page (20 + 2) kl).
  { unfold slice, rest. by rewrite drop_0, drop_drop. }
  rewrite Ek in Hd.
  destruct (page_level page =? INVFS_PAGE_LEVEL_LEAF); repeat (case_match; try done); by simplify_eq.
Qed.

(** The child pointer of an internal node's first record, where it lies. *)
Lemma first_child_decode page level e es :
  bytes_ok page -> zlen page = INVFS_BLOCK_SIZE -> bt_decode page = Some (level, e :: es) ->
  (level =? INVFS_PAGE_LEVEL_LEAF) = false ->
  ptr_parse (slice page (PAGE_HDR + 2 + field page PAGE_HDR 2) BLKPTR_LEN) = e_child e.
Proof.
  intros Hb Hl Hd Hlev. pose proof (decode_ok _ _ _ Hb Hl Hd) as (_ & _ & -> & _ & Hn).
  unfold bt_decode in Hd. rewrite <- Hn, Nat2Z.id in Hd. destruct (_ <? _); [done|].
  cbn [length bt_decode_recs] in Hd. rewrite Hlev in Hd.
  set (rest := drop (Z.to_nat PAGE_HDR) page) in Hd.
  assert (Ef : field rest 0 2 = field page PAGE_HDR 2) by done.
  destruct (zlen rest <? 2); [done|]. rewrite Ef in Hd.
  pose proof (field_range page PAGE_HDR 2 Hb ltac:(done) ltac:(done) ltac:(rewrite Hl; done)) as Hkr.
  set (kl := field page PAGE_HDR 2) in *. clearbody kl.
  assert (Ek : slice (drop (Z.to_nat kl) (drop 2 rest)) 0 BLKPTR_LEN
               = slice page (PAGE_HDR + 2 + kl) BLKPTR_LEN).
  { unfold slice, rest. rewrite drop_0, !drop_drop. do 2 f_equal. unfold PAGE_HDR. lia. }
  rewrite Ek in Hd. repeat (case_match; try done). by simplify_eq.
Qed.

(** ** Results *)

(** C33: a node page round trip.  Records that fit a page, written by
    [bt_write]'s encoder and sealed, form a page of exactly one block that
    validates and from which [bt_read] decodes the same level and records. *)
Theorem node_page_roundtrip level gen es :
  0 <= level < 2 ^ 16 -> Forall (ent_ok level) es -> fits level es = true ->
  let page := mbuf_page_seal (bt_encode level gen es) in
  zlen page = INVFS_BLOCK_SIZE /\ mbuf_page_validate page = true /\
  page_gen page = u64 gen /\ bt_decode page = Some (level, es).
Proof.
  intros Hl Hes Hf page. pose proof (length_encode level gen es Hf) as Hlen.
  destruct (encode_header level gen es) as (Hm & Hg & _); [done..|].
  split; [by apply length_seal|]. split; [|split].
  - apply seal_validates; [done|by apply encode_bytes_ok|done].
  - destruct (seal_header _ Hlen) as (_ & E & _). unfold page. by rewrite E.
  - by apply encode_decode.
Qed.

Definition demo_recs : list bt_ent := [mkEnt [1; 2] [7] null_ptr; mkEnt [1; 3] [] null_ptr].

Lemma demo_recs_ok : Forall (ent_ok 0) demo_recs.
Proof. repeat constructor; try lia; done. Qed.

Lemma node_page_roundtrip_witness :
  let page := mbuf_page_seal (bt_encode 0 5 demo_recs) in
  zlen page = INVFS_BLOCK_SIZE /\ mbuf_page_validate page = true /\
  page_gen page = u64 5 /\ bt_decode page = Some (0, demo_recs).
Proof.
  apply (node_page_roundtrip 0 5 demo_recs); [lia|exact demo_recs_ok|reflexivity].
Defined.

(** C34: whatever bytes a block holds, a page that decodes has a 16-bit level
    and records of that level's kind with 16-bit lengths that fit one page,
    at most 1019 of them; and re-encoding them loses nothing. *)
Theorem decode_typed page level es :
  bytes_ok page -> zlen page = INVFS_BLOCK_SIZE -> bt_decode page = Some (level, es) ->
  0 <= level < 2 ^ 16 /\ Forall (ent_ok level) es /\ fits level es = true /\ zlen es <= 1019 /\
  forall gen, bt_decode (mbuf_page_seal (bt_encode level gen es)) = Some (level, es).
Proof.
  intros Hb Hl Hd. destruct (decode_ok _ _ _ Hb Hl Hd) as (Hes & Hf & _ & Hlev & _).
  split; [done|]. split; [done|]. split; [done|]. split; [by eapply encoded_count|].
  intros gen. by apply encode_decode.
Qed.

Lemma decode_typed_witness :
  bt_decode (bt_encode 0 5 demo_recs) = Some (0, demo_recs) /\ fits 0 demo_recs = true.
Proof.
  assert (Hd : bt_decode (bt_encode 0 5 demo_recs) = Some (0, demo_recs)) by (vm_compute; reflexivity).
  split; [exact Hd|].
  destruct (decode_typed (bt_encode 0 5 demo_recs) 0 demo_recs) as (_ & _ & H & _).
  - exact (encode_bytes_ok 0 5 demo_recs demo_recs_ok).
  - exact (length_encode 0 5 demo_recs eq_refl).
  - exact Hd.
  - exact H.
Defined.

(** [bt_rebalance] copies the records of two sibling pages into one
    buffer of [BT_MAX_ENTRIES] records; two decoded pages never exceed it. *)
Theorem rebalance_buffer_bound p1 p2 l1 l2 ce se :
  bytes_ok p1 -> zlen p1 = INVFS_BLOCK_SIZE -> bt_decode p1 = Some (l1, ce) ->
  bytes_ok p2 -> zlen p2 = INVFS_BLOCK_SIZE -> bt_decode p2 = Some (l2, se) ->
  zlen (ce ++ se) <= BT_MAX_ENTRIES.
Proof.
  intros Hb1 Hl1 Hd1 Hb2 Hl2 Hd2. destruct (decode_ok _ _ _ Hb1 Hl1 Hd1) as (_ & F1 & _).
  destruct (decode_ok _ _ _ Hb2 Hl2 Hd2) as (_ & F2 & _). apply encoded_count in F1, F2.
  rewrite length_app. unfold BT_MAX_ENTRIES. lia.
Qed.

Lemma rebalance_buffer_bound_witness : zlen (demo_recs ++ demo_recs) <= BT_MAX_ENTRIES.
Proof.
  apply (rebalance_buffer_bound (bt_encode 0 5 demo_recs) (bt_encode 0 6 demo_recs) 0 0).
  - exact (encode_bytes_ok 0 5 demo_recs demo_recs_ok).
  - exact (length_encode 0 5 demo_recs eq_refl).
  - vm_compute. reflexivity.
  - exact (encode_bytes_ok 0 6 demo_recs demo_recs_ok).
  - exact (length_encode 0 6 demo_recs eq_refl).
  - vm_compute. reflexivity.
Defined.

(** C32: splitting an overfull node.  The cut points [bt_split3_point] returns
    divide the records into two or three non-empty runs that each fit a page;
    and whenever the records can be divided into at most three pages that
    fit, a cut is found. *)
Theorem split3_correct level es :
  (2 <= length es)%nat ->
  (forall cuts, bt_split3_point level es = Some cuts ->
     concat (pieces cuts es) = es /\ (2 <= length (pieces cuts es) <= 3)%nat /\
     Forall (fun p => p <> [] /\ fits level p = true) (pieces cuts es)) /\
  ((exists a b c, es = a ++ b ++ c /\ a <> [] /\ b <> [] /\
      fits level a = true /\ fits level b = true /\ fits level c = true) ->
   exists cuts, bt_split3_point level es = Some cuts).
Proof.
  intros Hn. split.
  - intros cuts. by apply split3_sound.
  - intros (a & b & c & E & Ha & Hb & Fa & Fb & Fc). by apply (split3_complete level es a b c).
Qed.

Definition demo_wide (k : Z) : bt_ent := mkEnt [k] (zeros 3000) null_ptr.

Lemma split3_correct_witness :
  exists cuts, bt_split3_point 0 [demo_wide 1; demo_wide 2; demo_wide 3] = Some cuts.
Proof.
  apply (split3_correct 0 [demo_wide 1; demo_wide 2; demo_wide 3]); [cbn; lia|].
  exists [demo_wide 1], [demo_wide 2], [demo_wide 3]. repeat split; done.
Defined.

(** The linear reference of [bt_lower_bound]: how many keys are below. *)
Fixpoint count_below (es : list bt_ent) (key : bytes) : nat :=
  match es with
  | [] => O
  | e :: es => if bt_cmp_key e key <? 0 then S (count_below es key) else O
  end.

Lemma count_below_unique es key i :
  (i <= length es)%nat -> (forall j, (j < i)%nat -> key_lt (e_k (ent es j)) key) ->
  (forall j, (i <= j < length es)%nat -> key_le key (e_k (ent es j))) -> count_below es key = i.
Proof.
  revert i. induction es as [|e es IH]; intros i Hi Hlt Hge; cbn [count_below length] in *; [lia|].
  destruct (Z.ltb_spec (bt_cmp_key e key) 0) as [Hc|Hc].
  - destruct i as [|i].
    { apply key_cmp_lt in Hc. specialize (Hge O ltac:(lia)). by apply key_le_not_lt in Hge. }
    f_equal. apply IH; [lia| |].
    + intros j Hj. apply (Hlt (S j)). lia.
    + intros j Hj. apply (Hge (S j)). lia.
  - destruct i as [|i]; [done|]. specialize (Hlt O ltac:(lia)). apply key_cmp_lt in Hlt.
    unfold bt_cmp_key in Hc. cbn in Hlt. lia.
Qed.

(** The binary search of a node.  On sorted records the loop stops within
    as many turns as there are records, and its result is the number of keys
    below the wanted one, as a linear scan would count them. *)
Theorem lower_bound_terminates fuel es key :
  ksorted (map e_k es) -> (length es <= fuel)%nat ->
  lower_bound_loop fuel es key 0 (length es) = bt_lower_bound es key /\
  bt_lower_bound es key = count_below es key.
Proof.
  intros Hs Hf. assert (E : forall f, (length es <= f)%nat ->
    lower_bound_loop f es key 0 (length es) = count_below es key).
  { intros f Hff. symmetry. destruct (lower_bound_loop_spec f es key 0 (length es)) as (H1 & H2 & H3);
      [done|lia|lia|lia|lia|]. by apply count_below_unique. }
  unfold bt_lower_bound. by rewrite !E.
Qed.

Lemma lower_bound_terminates_witness :
  lower_bound_loop 9 demo_recs [1; 3] 0 2 = bt_lower_bound demo_recs [1; 3] /\
  bt_lower_bound demo_recs [1; 3] = count_below demo_recs [1; 3].
Proof.
  apply (lower_bound_terminates 9 demo_recs [1; 3]); [|cbn; lia].
  repeat constructor.
Defined.
End Node.
