(* ===== verification/PageLogic.v ===== *)
(** * Reasoning about code over a page store

    The trees never overwrite a page: they read pages and write fresh ones.
    [wp] states what such code does in one judgement: whatever happens, the
    pages that were live keep their contents; if it answers, the answer
    satisfies a postcondition; and on a store without pending faults and with
    room for the pages the code needs, it does answer. *)

From S2P Require Import Prelude Alloc Volume Page Keys Node.

Module PageLogic.
Import Alloc Volume Page Keys Node.

(** What a store promises when nothing goes wrong: [ps_quiet] is a store
    without pending faults, [ps_room v n] one with room for [n] pages. *)
Class PageStoreLive (V : Type) `{!PageStore V} `{!PageStoreLaws V} := {
  ps_quiet : V -> Prop;
  ps_room : V -> nat -> Prop;
  ps_quiet_ok v : ps_quiet v -> ps_ok v = true;
  ps_room_le v n m : (n <= m)%nat -> ps_room v m -> ps_room v n;
  ps_read_live ptr v :
    ps_wf v -> ps_quiet v -> ps_live v (bp_pba ptr) ->
    page_checksum (ps_page v (bp_pba ptr)) = bp_checksum ptr ->
    page_gen (ps_page v (bp_pba ptr)) = bp_gen ptr ->
    mbuf_page_validate (ps_page v (bp_pba ptr)) = true ->
    exists pg v', ps_read ptr v = (Some pg, v') /\ ps_quiet v' /\
      (forall n, ps_room v n -> ps_room v' n);
  ps_alloc_live gen v n :
    ps_wf v -> ps_quiet v -> ps_room v (S n) ->
    exists p v', ps_alloc gen v = (Some p, v') /\ ps_quiet v' /\ ps_room v' n;
  ps_write_live p pg v :
    ps_wf v -> ps_quiet v -> ps_live v p -> zlen pg = INVFS_BLOCK_SIZE -> bytes_ok pg ->
    exists s v', ps_write p pg v = (Some s, v') /\ ps_quiet v' /\
      (forall n, ps_room v n -> ps_room v' n);
  ps_note_live p v :
    (ps_quiet v -> ps_quiet (ps_note p v)) /\ (forall n, ps_room v n -> ps_room (ps_note p v) n)
}.

(** ** Relations between the states before and after *)

(** [keeps R m]: whatever [m] answers, its states are related by [R]. *)
Definition keeps {V A} (R : V -> V -> Prop) (m : M V A) : Prop :=
  forall v r v', m v = (r, v') -> R v v'.

(** A relation that reading a page respects. *)
Class KeptRead {V : Type} `{!PageStore V} (R : V -> V -> Prop) := {
  kept_pre :: PreOrder R;
  kept_read ptr v r v' : ps_read ptr v = (r, v') -> R v v'
}.

Section keeps.
Context {V : Type} (R : V -> V -> Prop) `{!PreOrder R}.

Lemma keeps_ret {A} (a : A) : keeps R (mret a).
Proof. intros v r v' [= _ <-]. reflexivity. Qed.
Lemma keeps_fail {A} : keeps R (mfail (A := A)).
Proof. intros v r v' [= _ <-]. reflexivity. Qed.
Lemma keeps_get : keeps R mget.
Proof. intros v r v' [= _ <-]. reflexivity. Qed.
Lemma keeps_guard b : keeps R (mguard b).
Proof. destruct b; [apply keeps_ret|apply keeps_fail]. Qed.
Lemma keeps_bind {A B} (m : M V A) (k : A -> M V B) :
  keeps R m -> (forall a, keeps R (k a)) -> keeps R (mbind' m k).
Proof.
  intros Hm Hk v r v' H. apply mbind_run in H as [(a & v1 & H1 & H2)|[H1 _]].
  - etransitivity; [by eapply Hm|by eapply Hk].
  - by eapply Hm.
Qed.
Lemma keeps_try {A} (m : M V A) : keeps R m -> keeps R (mtry m).
Proof.
  intros Hm v r v' H. unfold mtry in H. destruct (m v) as [r1 v1] eqn:E.
  injection H as _ <-. by eapply Hm.
Qed.
End keeps.

Lemma keeps_read {V} `{!PageStore V} (R : V -> V -> Prop) `{!KeptRead R} ptr : keeps R (ps_read ptr).
Proof. intros v r v' H. by eapply kept_read. Qed.

Section logic.
Context {V : Type} `{!PageStore V} `{!PageStoreLaws V} `{!PageStoreLive V}.
Implicit Types (v : V) (L : Prop).

(** Pages that were live stay live with the same contents. *)
Definition ext v v' : Prop :=
  forall q, ps_live v q -> ps_live v' q /\ ps_page v' q = ps_page v q.

#[export] Instance ext_preorder : PreOrder ext.
Proof.
  split; [by intros v q|]. intros v1 v2 v3 H12 H23 q Hq.
  destruct (H12 q Hq) as [Hq2 <-]. by apply H23.
Qed.

(** A latched error is never cleared. *)
Definition ok_back v v' : Prop := ps_ok v' = true -> ps_ok v = true.

(** [wp L need m v Q]: see the header; the last part is claimed under [L]. *)
Definition wp {A} L (need : nat) (m : M V A) v (Q : A -> V -> Prop) : Prop :=
  ps_wf v -> forall r v', m v = (r, v') ->
  (ps_ok v' = true -> ps_wf v' /\ ext v v' /\ (forall a, r = Some a -> Q a v')) /\
  (L -> forall n, ps_quiet v -> ps_room v (need + n) ->
     exists a, r = Some a /\ ps_quiet v' /\ ps_room v' n).

(** *** Monotonicity *)

#[export] Instance ok_back_kept : KeptRead ok_back.
Proof.
  split; [split; unfold ok_back; [by intros v|intros v1 v2 v3; auto]|].
  intros ptr v r v' H. exact (ps_ok_read ptr v r v' H).
Qed.

Lemma mono_alloc gen : keeps ok_back (ps_alloc gen).
Proof. intros v r v' H. exact (ps_ok_alloc gen v r v' H). Qed.
Lemma mono_write p pg : keeps ok_back (ps_write p pg).
Proof. intros v r v' H. exact (ps_ok_write p pg v r v' H). Qed.
Lemma mono_free p : keeps ok_back (ps_free p).
Proof. intros v r v' H. exact (ps_ok_free p v r v' H). Qed.
Lemma mono_note p : keeps ok_back (mmod (ps_note p)).
Proof. intros v r v' [= _ <-]. unfold ok_back. by rewrite (proj1 (ps_note_law p v)). Qed.

(** *** Rules *)

Lemma wp_ret {A} L (a : A) v (Q : A -> V -> Prop) : Q a v -> wp L 0 (mret a) v Q.
Proof.
  intros HQ Hw r v' [= <- <-]. split.
  - intros _. split; [done|]. split; [reflexivity|]. by intros a' [= <-].
  - intros _ n Hq Hr. by exists a.
Qed.

Lemma wp_fail {A} L need v (Q : A -> V -> Prop) : (L -> False) -> wp L need mfail v Q.
Proof. intros HL Hw r v' [= <- <-]. split; [done|]. intros []%HL. Qed.

Lemma wp_seq {A B} L n1 n2 (m : M V A) (k : A -> M V B) v R (Q : B -> V -> Prop) :
  (forall a, keeps ok_back (k a)) -> wp L n1 m v R ->
  (forall a v1, ext v v1 -> ps_wf v1 -> R a v1 -> wp L n2 (k a) v1 Q) ->
  wp L (n1 + n2) (mbind' m k) v Q.
Proof.
  intros Hmono Hm Hk Hw r v' H. apply mbind_run in H as [(a & v1 & H1 & H2)|[H1 ->]].
  - destruct (Hm Hw _ _ H1) as [S1 L1]. split.
    + intros Hok. pose proof (Hmono a _ _ _ H2 Hok) as Hok1.
      destruct (S1 Hok1) as (Hw1 & He1 & HR). specialize (HR a eq_refl).
      destruct (Hk a v1 He1 Hw1 HR Hw1 _ _ H2) as [S2 _]. destruct (S2 Hok) as (? & ? & ?).
      split; [done|]. split; [by etrans|done].
    + intros HL n Hq Hr. destruct (L1 HL (n2 + n)%nat Hq) as (a' & [= <-] & Hq1 & Hr1).
      { by rewrite Nat.add_assoc. }
      destruct (S1 (ps_quiet_ok _ Hq1)) as (Hw1 & He1 & HR). specialize (HR a eq_refl).
      by apply (Hk a v1 He1 Hw1 HR Hw1 _ _ H2).
  - destruct (Hm Hw _ _ H1) as [S1 L1]. split.
    + intros Hok. destruct (S1 Hok) as (? & ? & _). done.
    + intros HL n Hq Hr. destruct (L1 HL (n2 + n)%nat Hq) as (a' & [=] & _). by rewrite Nat.add_assoc.
Qed.

Lemma wp_guard {B} L n b (k : M V B) v (Q : B -> V -> Prop) :
  (L -> b = true) -> (b = true -> wp L n k v Q) -> wp L n (mguard b ;;; k) v Q.
Proof.
  destruct b; cbn; intros HL Hk; [by apply Hk|]. apply wp_fail. intros HL'. by specialize (HL HL').
Qed.

Lemma wp_wf {A} L n (m : M V A) v (Q : A -> V -> Prop) : (ps_wf v -> wp L n m v Q) -> wp L n m v Q.
Proof. intros H Hw. by apply H. Qed.

Lemma wp_eq {A} L n (m m' : M V A) v (Q : A -> V -> Prop) : m v = m' v -> wp L n m' v Q -> wp L n m v Q.
Proof. intros E H Hw r v'. rewrite E. by apply H. Qed.

Lemma wp_conseq {A} L L' n n' (m : M V A) v (Q Q' : A -> V -> Prop) :
  wp L n m v Q -> (L' -> L) -> (n <= n')%nat ->
  (forall a v', ext v v' -> ps_wf v' -> Q a v' -> Q' a v') -> wp L' n' m v Q'.
Proof.
  intros H HL Hn HQ Hw r v' E. destruct (H Hw _ _ E) as [S1 L1]. split.
  - intros Hok. destruct (S1 Hok) as (? & ? & Ha). split; [done|]. split; [done|].
    intros a Er. apply HQ; auto.
  - intros HL' n0 Hq Hr. apply L1; auto. eapply ps_room_le; [|exact Hr]. lia.
Qed.

Lemma wp_post {A} L n (m : M V A) v (Q Q' : A -> V -> Prop) :
  wp L n m v Q -> (forall a v', ext v v' -> ps_wf v' -> Q a v' -> Q' a v') -> wp L n m v Q'.
Proof. intros H HQ. by eapply wp_conseq. Qed.

Lemma wp_room {A} L n n' (m : M V A) v (Q : A -> V -> Prop) :
  (n <= n')%nat -> wp L n m v Q -> wp L n' m v Q.
Proof. intros Hn H. by eapply wp_conseq. Qed.

(** Sequencing: [n1] pages for the first part, [n2] for the rest. *)
Lemma wp_bind {A B} L n1 n2 n (m : M V A) (k : A -> M V B) v R (Q : B -> V -> Prop) :
  (n1 + n2 <= n)%nat -> (forall a, keeps ok_back (k a)) -> wp L n1 m v R ->
  (forall a v1, ext v v1 -> ps_wf v1 -> R a v1 -> wp L n2 (k a) v1 Q) ->
  wp L n (mbind' m k) v Q.
Proof. intros Hn Hm H1 H2. eapply wp_conseq; [by eapply wp_seq|done|done|done]. Qed.

(** The same when the first part needs no room. *)
Lemma wp_bind0 {A B} L n2 (m : M V A) (k : A -> M V B) v R (Q : B -> V -> Prop) :
  (forall a, keeps ok_back (k a)) -> wp L 0 m v R ->
  (forall a v1, ext v v1 -> ps_wf v1 -> R a v1 -> wp L n2 (k a) v1 Q) ->
  wp L n2 (mbind' m k) v Q.
Proof. apply (wp_seq L 0). Qed.

(** The same when the rest only shapes the answer. *)
Lemma wp_map {A B} L n (m : M V A) (f : A -> B) v R (Q : B -> V -> Prop) :
  wp L n m v R -> (forall a v1, ext v v1 -> ps_wf v1 -> R a v1 -> Q (f a) v1) ->
  wp L n (let* a := m in mret (f a)) v Q.
Proof.
  intros H HQ. apply (wp_bind L n 0 n _ _ v R); [lia|intros; by apply keeps_ret, kept_pre|done|].
  intros a v1 He Hw HR. by apply wp_ret, HQ.
Qed.

(** No pending fault: the state in which code that needs no room answers. *)
Definition calm v : Prop := ps_quiet v /\ ps_room v 0.

Lemma wp_calm {A} L (m : M V A) v (Q : A -> V -> Prop) :
  wp L 0 m v Q -> wp L 0 m v (fun a v' => Q a v' /\ (L -> calm v -> calm v')).
Proof.
  intros H Hw r v' E. destruct (H Hw _ _ E) as [S1 L1]. split; [|done].
  intros Hok. destruct (S1 Hok) as (? & ? & HQ). split; [done|]. split; [done|].
  intros a Er. split; [by apply HQ|]. intros HL [Hq Hr].
  destruct (L1 HL O Hq Hr) as (a' & _ & Hq' & Hr'). by split.
Qed.

(** A handled failure happens only when there is a pending fault. *)
Lemma wp_try {A} L (m : M V A) v (Q : A -> V -> Prop) :
  wp L 0 m v Q ->
  wp L 0 (mtry m) v (fun r v' =>
    match r with Some a => Q a v' | None => L -> ~ calm v end).
Proof.
  intros H Hw r v' E. unfold mtry in E. destruct (m v) as [r1 v1] eqn:E1. injection E as <- <-.
  destruct (H Hw _ _ E1) as [S1 L1]. split.
  - intros Hok. destruct (S1 Hok) as (? & ? & HQ). split; [done|]. split; [done|].
    intros a [= <-]. destruct r1 as [a|]; [by apply HQ|]. intros HL [Hq Hr].
    by destruct (L1 HL O Hq Hr) as (? & ? & _).
  - intros HL n Hq Hr. destruct (L1 HL n Hq Hr) as (a & -> & ? & ?). by eexists.
Qed.

(** What [wp] gives on a store without faults and with room. *)
Lemma wp_run {A} L n k (m : M V A) v (Q : A -> V -> Prop) :
  wp L n m v Q -> L -> ps_wf v -> ps_quiet v -> ps_room v (n + k) ->
  exists a v', m v = (Some a, v') /\ ps_wf v' /\ ext v v' /\ Q a v' /\ ps_quiet v' /\ ps_room v' k.
Proof.
  intros H HL Hw Hq Hr. destruct (m v) as [r v'] eqn:E. destruct (H Hw _ _ E) as [Hs Hl].
  destruct (Hl HL k Hq Hr) as (a & -> & Hq' & Hr').
  destruct (Hs (ps_quiet_ok _ Hq')) as (Hw' & He & HQ). exists a, v'. auto 8.
Qed.
End logic.

Abbreviation mono := (keeps ok_back).

Create HintDb keeps.
#[export] Hint Resolve keeps_ret keeps_fail keeps_get keeps_guard keeps_bind keeps_try keeps_read
  mono_alloc mono_write mono_free mono_note : keeps.
#[export] Hint Extern 0 (KeptRead _) => exact _ : keeps.
#[export] Hint Extern 0 (PreOrder _) => exact _ : keeps.
End PageLogic.
