(* ===== verification/BTree.v ===== *)
(** * The copy-on-write base tree (vol_btree.c)

    Search, insertion, deletion and ordered scan over a page store, and what
    they mean: a tree stands for a strictly sorted list of key/value pairs,
    every update yields a new root that stands for the updated list, and the
    old root stays readable with the old contents. *)

From stdpp Require Import sorting.
From S2P Require Import Prelude Crc32c Alloc Volume Page Keys Kv Node PageLogic.

Module BTree.
Import Alloc Volume Page Keys Kv Node PageLogic.

Definition BT_MAX_DEPTH : nat := 32.

Section btree.
Context {V : Type} `{!PageStore V}.

(** ** Page I/O *)

(** Store a page image at a fresh address: allocate, tell the orphan
    collector, write, and give the block back when the image is too large or
    the write fails.
    Source: core/vol_btree.c:236-277 [bt_write] *)
Definition bt_put (gen : Z) (too_large : bool) (page : bytes) (flags : Z) : M V invfs_blkptr :=
  let* r := mtry (ps_alloc gen) in
  mmod (ps_note (default 0 r)) ;;;
  match r with
  | None => mfail
  | Some pba =>
      if too_large then mtry (ps_free pba) ;;; mfail
      else
        let* w := mtry (ps_write pba page) in
        match w with
        | None => mtry (ps_free pba) ;;; mfail
        | Some page => mret (mbuf_ptr_set pba page flags)
        end
  end.

(** Source: core/vol_btree.c [bt_write] *)
Definition bt_write (level gen : Z) (es : list bt_ent) : M V invfs_blkptr :=
  mguard (zlen es <=? BT_MAX_ENTRIES) ;;;
  mguard (fits level es) ;;;
  mguard ((level =? INVFS_PAGE_LEVEL_LEAF) ||
          forallb (fun e => negb (bp_pba (e_child e) =? 0)) es) ;;;
  bt_put gen (INVFS_BLOCK_SIZE <? PAGE_HDR + zlen (concat (map (rec_bytes level) es)))
    (bt_encode level gen es)
    (if level =? INVFS_PAGE_LEVEL_LEAF then INVFS_BP_LEAF else INVFS_BP_INTERNAL).

(** Source: core/vol_btree.c [bt_read] *)
Definition bt_read (ptr : invfs_blkptr) : M V (Z * list bt_ent) :=
  let* page := ps_read ptr in
  match bt_decode page with Some r => mret r | None => mfail end.

(** Source: core/vol_btree.c [bt_first_key] *)
Definition bt_first_key (ptr : invfs_blkptr) : M V bytes :=
  let* page := ps_read ptr in
  match bt_first_key_of page with Some k => mret k | None => mfail end.

(** Source: core/vol_btree.c [bt_recopy] *)
Definition bt_recopy (ptr : invfs_blkptr) (gen : Z) : M V invfs_blkptr :=
  let* page := ps_read ptr in
  bt_put gen false (put page 4 (le_bytes 8 gen)) (bp_flags ptr).

(** ** Search *)

(** The descent of [btree_search]: at most [BT_MAX_DEPTH] pages.
    Source: core/vol_btree.c:525-548 [btree_search] *)
Fixpoint search_loop (depth : nat) (cur : invfs_blkptr) (key : bytes) : M V (option bytes) :=
  match depth with
  | O => mfail
  | S depth =>
      mguard (negb (bp_pba cur =? 0)) ;;;
      let* nd := bt_read cur in
      let '(level, es) := nd in
      if negb (level =? INVFS_PAGE_LEVEL_LEAF) then
        let cur := e_child (ent es (bt_child_index es key)) in
        mguard (negb (bp_pba cur =? 0)) ;;;
        search_loop depth cur key
      else
        let pos := bt_lower_bound es key in
        if (pos <? length es)%nat && (bt_cmp_key (ent es pos) key =? 0)
        then mret (Some (e_v (ent es pos))) else mret None
  end.

(** Source: core/vol_btree.c [btree_search] *)
Definition btree_search (root : invfs_blkptr) (key : bytes) : M V (option bytes) :=
  if bp_pba root =? 0 then mret None else search_loop BT_MAX_DEPTH root key.

(** ** Insertion *)

(** The pages a node turned into, leftmost first ([nptr] is their number).
    Source: core/vol_btree.c:135-141 [bt_up] *)
Record bt_up := mkUp { up_ptrs : list invfs_blkptr; up_level : Z }.

(** Write the pieces of a node left to right. *)
Fixpoint bt_write_all (level gen : Z) (ps : list (list bt_ent)) : M V (list invfs_blkptr) :=
  match ps with
  | [] => mret []
  | p :: ps =>
      let* ptr := bt_write level gen p in
      let* ptrs := bt_write_all level gen ps in
      mret (ptr :: ptrs)
  end.

(** The end of [bt_ins_rec]: one page if the records fit, else two or three.
    Source: core/vol_btree.c:678-706 [bt_ins_rec] *)
Definition bt_emit (level gen : Z) (es : list bt_ent) : M V bt_up :=
  if fits level es then
    let* ptr := bt_write level gen es in
    mret (mkUp [ptr] level)
  else
    match bt_split3_point level es with
    | None => mfail
    | Some cuts =>
        let* ptrs := bt_write_all level gen (pieces cuts es) in
        mret (mkUp ptrs level)
    end.

(** The leaf's records with [key] bound to [val].
    Source: core/vol_btree.c:572-590 [bt_ins_rec] *)
Definition leaf_insert (es : list bt_ent) (key val : bytes) : option (list bt_ent) :=
  let pos := bt_lower_bound es key in
  if (pos <? length es)%nat && (bt_cmp_key (ent es pos) key =? 0) then
    Some (<[pos := mkEnt (e_k (ent es pos)) val null_ptr]> es)
  else if BT_MAX_ENTRIES <=? zlen es then None
  else Some (take pos es ++ mkEnt key val null_ptr :: drop pos es).

(** Separators for the pieces after the first: each keyed by the first key of
    the piece it introduces; the rightmost piece is read first.
    Source: core/vol_btree.c:626-664 [bt_ins_rec] *)
Definition bt_separators (ptrs : list invfs_blkptr) : M V (list bt_ent) :=
  match ptrs with
  | [rgt] =>
      let* rk := bt_first_key rgt in
      mret [mkEnt rk [] rgt]
  | [mid; rgt] =>
      let* rk := bt_first_key rgt in
      let* mk := bt_first_key mid in
      mret [mkEnt mk [] mid; mkEnt rk [] rgt]
  | _ => mret []
  end.

(** Source: core/vol_btree.c [bt_ins_rec] *)
Fixpoint bt_ins_rec (fuel : nat) (node : invfs_blkptr) (key val : bytes) (gen : Z) : M V bt_up :=
  match fuel with
  | O => mfail
  | S fuel =>
      let* nd := bt_read node in
      let '(level, es) := nd in
      if level =? INVFS_PAGE_LEVEL_LEAF then
        match leaf_insert es key val with
        | None => mfail
        | Some es => bt_emit level gen es
        end
      else
        let i := bt_child_index es key in
        let* cu := bt_ins_rec fuel (e_child (ent es i)) key val gen in
        let e := ent es i in
        let e := if vol_key_cmp key (e_k e) <? 0 then set_e_k key e else e in
        match up_ptrs cu with
        | [] => mfail
        | node :: more =>
            let* seps := bt_separators more in
            let es := take i es ++ set_e_child node e :: seps ++ drop (S i) es in
            mguard (match more with [] => true | _ => zlen es <=? BT_MAX_ENTRIES end) ;;;
            bt_emit level gen es
        end
  end.

(** One record per piece, keyed by the piece's first key, left to right.
    Source: core/vol_btree.c:751-773 [btree_upsert] *)
Fixpoint bt_root_seps (ptrs : list invfs_blkptr) : M V (list bt_ent) :=
  match ptrs with
  | [] => mret []
  | p :: ptrs =>
      let* k := bt_first_key p in
      let* re := bt_root_seps ptrs in
      mret (mkEnt k [] p :: re)
  end.

(** The old root's pieces under a root one level up.
    Source: core/vol_btree.c:743-780 [btree_upsert] *)
Definition bt_new_root (gen : Z) (up : bt_up) : M V invfs_blkptr :=
  let* re := bt_root_seps (up_ptrs up) in
  bt_write (up_level up + 1) gen re.

Definition mark_root (p : invfs_blkptr) : invfs_blkptr :=
  mkPtr (bp_pba p) (bp_checksum p) (bp_gen p) (Z.lor (bp_flags p) INVFS_BP_ROOT).

(** The recursion follows the levels of the tree, which are 16-bit. *)
Definition BT_FUEL : nat := Z.to_nat (2 ^ 16).

(** Source: core/vol_btree.c [btree_upsert] *)
Definition btree_upsert (root : invfs_blkptr) (key val : bytes) : M V invfs_blkptr :=
  let gen := u64 ((if bp_pba root =? 0 then 0 else bp_gen root) + 1) in
  if bp_pba root =? 0 then
    let* r := bt_write INVFS_PAGE_LEVEL_LEAF gen [mkEnt key val null_ptr] in
    mret (mark_root r)
  else
    let* up := bt_ins_rec BT_FUEL root key val gen in
    match up_ptrs up with
    | [node] => mret (mark_root node)
    | _ =>
        let* r := bt_new_root gen up in
        mret (mark_root r)
    end.

(** ** Deletion *)

(** Source: core/vol_btree.c:145-150 [bt_dn]
    [dn_node = None]: the subtree is now empty. *)
Record bt_dn := mkDn {
  dn_node : option invfs_blkptr;
  dn_underflow : bool;
  dn_changed : bool
}.

(** The two children at [base] rewritten as one page or two; [comb] are their
    records.
    Source: core/vol_btree.c:846-895 [bt_rebalance] *)
Definition bt_rewrite_pair (pe : list bt_ent) (base : nat) (clevel gen : Z) (comb : list bt_ent)
    : M V (list bt_ent) :=
  if fits clevel comb then
    let* m := bt_write clevel gen comb in
    mret (take base pe ++ mkEnt (e_k (ent comb 0)) [] m :: drop (base + 2) pe)
  else
    match bt_split_point clevel comb with
    | None => mfail
    | Some s =>
        mguard ((0 <? s)%nat && (s <? length comb)%nat) ;;;
        let* l := bt_write clevel gen (take s comb) in
        let* r := bt_write clevel gen (drop s comb) in
        mret (take base pe ++ mkEnt (e_k (ent comb 0)) [] l ::
              mkEnt (e_k (ent comb s)) [] r :: drop (base + 2) pe)
    end.

(** Source: core/vol_btree.c [bt_rebalance]
    [pe] are the parent's records, [i] the deficient child. *)
Definition bt_rebalance (pe : list bt_ent) (i : nat) (gen : Z) : M V (list bt_ent) :=
  if (length pe <? 2)%nat then mret pe
  else
    let* c := bt_read (e_child (ent pe i)) in
    let '(clevel, ce) := c in
    let j := if (S i <? length pe)%nat then S i else (i - 1)%nat in
    let* sib := bt_read (e_child (ent pe j)) in
    let '(slevel, se) := sib in
    mguard (slevel =? clevel) ;;;
    let base := if (i <? j)%nat then i else j in
    let comb := if (j =? S i)%nat then ce ++ se else se ++ ce in
    bt_rewrite_pair pe base clevel gen comb.

(** The tail shared by both branches of [bt_del_rec]: write what is left. *)
Definition bt_del_emit (level gen : Z) (is_root : bool) (es : list bt_ent) : M V bt_dn :=
  match es with
  | [] => mret (mkDn None true true)
  | _ =>
      let* p := bt_write level gen es in
      mret (mkDn (Some p) (negb is_root && (bt_used level es <? BT_MIN_FILL)) true)
  end.

(** The parent's records after the deletion below child [i] reported [cd].
    Source: core/vol_btree.c:966-987 [bt_del_rec] *)
Definition bt_del_fix (es : list bt_ent) (i : nat) (cd : bt_dn) (key : bytes) (gen : Z)
    : M V (list bt_ent) :=
  let oldmin := e_k (ent es i) in
  match dn_node cd with
  | None => mret (delete i es)
  | Some child =>
      let es := <[i := set_e_child child (ent es i)]> es in
      if dn_underflow cd then bt_rebalance es i gen
      else if vol_key_cmp key oldmin =? 0 then
        let* nm := bt_first_key child in
        mret (<[i := set_e_k nm (ent es i)]> es)
      else mret es
  end.

(** Source: core/vol_btree.c [bt_del_rec] *)
Fixpoint bt_del_rec (fuel : nat) (node : invfs_blkptr) (key : bytes) (gen : Z) (is_root : bool)
    : M V bt_dn :=
  match fuel with
  | O => mfail
  | S fuel =>
      let* nd := bt_read node in
      let '(level, es) := nd in
      if level =? INVFS_PAGE_LEVEL_LEAF then
        let pos := bt_lower_bound es key in
        if negb ((pos <? length es)%nat && (bt_cmp_key (ent es pos) key =? 0))
        then mret (mkDn (Some node) false false)
        else bt_del_emit level gen is_root (delete pos es)
      else
        let i := bt_child_index es key in
        let* cd := bt_del_rec fuel (e_child (ent es i)) key gen false in
        if negb (dn_changed cd) then mret (mkDn (Some node) false false)
        else
          let* es' := bt_del_fix es i cd key gen in
          bt_del_emit level gen is_root es'
  end.

(** The height shrink: follow single-child internal roots.
    Source: core/vol_btree.c:1038-1054 [btree_delete] *)
Fixpoint collapse_loop (guard : nat) (r : invfs_blkptr) : M V invfs_blkptr :=
  match guard with
  | O => mret r
  | S guard =>
      if bp_pba r =? 0 then mret r
      else
        let* page := ps_read r in
        if (page_level page =? INVFS_PAGE_LEVEL_LEAF) || negb (page_nentries page =? 1)
        then mret r
        else
          let kl := field page PAGE_HDR 2 in
          collapse_loop guard (ptr_parse (slice page (PAGE_HDR + 2 + kl) BLKPTR_LEN))
  end.

(** Source: core/vol_btree.c [btree_delete] *)
Definition btree_delete (root : invfs_blkptr) (key : bytes) : M V invfs_blkptr :=
  if bp_pba root =? 0 then mret root
  else
    let gen := u64 (bp_gen root + 1) in
    let* dn := bt_del_rec BT_FUEL root key gen true in
    if negb (dn_changed dn) then mret root
    else
      match dn_node dn with
      | None => mret (mkPtr 0 0 gen 0)
      | Some r =>
          let* r := collapse_loop BT_MAX_DEPTH r in
          mguard (negb (bp_pba r =? 0)) ;;;
          let* r := if bp_gen r =? gen then mret r else bt_recopy r gen in
          mret (mark_root r)
      end.

(** ** Ordered scan *)

(** A callback with its context; a non-zero answer stops the scan. *)
Section scan.
Context {C : Type} (cb : C -> bytes -> bytes -> Z * C).

Definition under (k hi : bytes) : bool :=
  match hi with [] => true | _ => vol_key_cmp k hi <? 0 end.

(** The loop over a leaf's records. *)
Fixpoint scan_leaf (es : list bt_ent) (lo hi : bytes) (c : C) : Z * C :=
  match es with
  | [] => (0, c)
  | e :: es =>
      if match lo with [] => false | _ => vol_key_cmp (e_k e) lo <? 0 end
      then scan_leaf es lo hi c
      else if negb (under (e_k e) hi) then (0, c)
      else
        let '(rc, c) := cb c (e_k e) (e_v e) in
        if negb (rc =? 0) then (rc, c) else scan_leaf es lo hi c
  end.

(** The loop over an internal node's records; [rec] scans a child. *)
Fixpoint scan_children (rec : invfs_blkptr -> C -> M V (Z * C)) (es : list bt_ent)
    (lo hi : bytes) (c : C) : M V (Z * C) :=
  match es with
  | [] => mret (0, c)
  | e :: rest =>
      if negb (under (e_k e) hi) then mret (0, c)
      else if match rest, lo with
              | e' :: _, _ :: _ => vol_key_cmp (e_k e') lo <=? 0
              | _, _ => false
              end
      then scan_children rec rest lo hi c
      else
        let* r := rec (e_child e) c in
        let '(rc, c) := r in
        if negb (rc =? 0) then mret (rc, c) else scan_children rec rest lo hi c
  end.

(** Source: core/vol_btree.c [bt_scan_rec] *)
Fixpoint bt_scan_rec (fuel : nat) (ptr : invfs_blkptr) (lo hi : bytes) (c : C) : M V (Z * C) :=
  match fuel with
  | O => mret (-1, c)
  | S fuel =>
      let* r := mtry (bt_read ptr) in
      match r with
      | None => mret (-1, c)
      | Some (level, es) =>
          if level =? INVFS_PAGE_LEVEL_LEAF then mret (scan_leaf es lo hi c)
          else scan_children (fun p => bt_scan_rec fuel p lo hi) es lo hi c
      end
  end.

(** Source: core/vol_btree.c [btree_scan] *)
Definition btree_scan (root : invfs_blkptr) (lo hi : bytes) (c : C) : M V (Z * C) :=
  if bp_pba root =? 0 then mret (0, c) else bt_scan_rec BT_FUEL root lo hi c.
End scan.
End btree.

(** ** What the operations leave alone *)

(** A relation that reads and page stores respect. *)
Class KeptPut {V : Type} `{!PageStore V} (R : V -> V -> Prop) := {
  kept_reads :: KeptRead R;
  kept_put gen page flags v r v' :
    zlen page = INVFS_BLOCK_SIZE -> bt_put gen false page flags v = (r, v') -> R v v';
  kept_recopy ptr gen v r v' : bt_recopy ptr gen v = (r, v') -> R v v'
}.

Ltac keep_auto :=
  repeat first [solve [eauto with keeps] | progress intros | apply keeps_bind; [exact _|..] | case_match].

Section keeps_reads.
Context {V : Type} `{!PageStore V} (R : V -> V -> Prop) `{!KeptRead R}.

Lemma keeps_bt_read ptr : keeps R (bt_read ptr).
Proof. unfold bt_read. keep_auto. Qed.
Lemma keeps_first_key ptr : keeps R (bt_first_key ptr).
Proof. unfold bt_first_key. keep_auto. Qed.
#[local] Hint Resolve keeps_bt_read keeps_first_key : keeps.
Lemma keeps_search depth cur key : keeps R (search_loop depth cur key).
Proof. revert cur. induction depth as [|depth IH]; intros cur; cbn [search_loop]; keep_auto. Qed.
#[local] Hint Resolve keeps_search : keeps.
Lemma keeps_btree_search root key : keeps R (btree_search root key).
Proof. unfold btree_search. keep_auto. Qed.
Lemma keeps_separators ptrs : keeps R (bt_separators ptrs).
Proof. destruct ptrs as [|? [|? [|]]]; cbn; keep_auto. Qed.
Lemma keeps_root_seps ptrs : keeps R (bt_root_seps ptrs).
Proof. induction ptrs as [|p ptrs IH]; cbn [bt_root_seps]; keep_auto. Qed.
Lemma keeps_collapse guard r : keeps R (collapse_loop guard r).
Proof. revert r. induction guard as [|guard IH]; intros r; cbn [collapse_loop]; keep_auto. Qed.

Lemma keeps_scan_children {C} (rec : invfs_blkptr -> C -> M V (Z * C)) es lo hi c :
  (forall p c, keeps R (rec p c)) -> keeps R (scan_children rec es lo hi c).
Proof. intros Hr. revert c. induction es as [|e es IH]; intros c; cbn [scan_children]; keep_auto. Qed.
Lemma keeps_scan {C} (cb : C -> bytes -> bytes -> Z * C) fuel p lo hi c :
  keeps R (bt_scan_rec cb fuel p lo hi c).
Proof.
  revert p c. induction fuel as [|fuel IH]; intros p c; cbn [bt_scan_rec]; [keep_auto|].
  apply keeps_bind; [exact _|keep_auto|]. intros [[level es]|]; [|keep_auto].
  destruct (level =? _); [keep_auto|]. by apply keeps_scan_children.
Qed.
#[local] Hint Resolve keeps_scan : keeps.
Lemma keeps_btree_scan {C} (cb : C -> bytes -> bytes -> Z * C) root lo hi c :
  keeps R (btree_scan cb root lo hi c).
Proof. unfold btree_scan. keep_auto. Qed.
End keeps_reads.
#[export] Hint Resolve keeps_bt_read keeps_first_key keeps_search keeps_btree_search keeps_separators
  keeps_root_seps keeps_collapse keeps_scan_children keeps_scan keeps_btree_scan : keeps.

Section keeps_puts.
Context {V : Type} `{!PageStore V} (R : V -> V -> Prop) `{!KeptPut R}.

Lemma keeps_bt_write level gen es : keeps R (bt_write level gen es).
Proof.
  unfold bt_write. apply keeps_bind; [exact _|keep_auto|intros _].
  destruct (fits level es) eqn:Ef; [|cbn; keep_auto]. apply keeps_bind; [exact _|keep_auto|intros _].
  apply keeps_bind; [exact _|keep_auto|intros _]. pose proof (encoded_recs_len level es Ef).
  rewrite (proj2 (Z.ltb_ge _ _)) by lia. intros v r v'. apply kept_put. by apply length_encode.
Qed.
Lemma keeps_recopy ptr gen : keeps R (bt_recopy ptr gen).
Proof. intros v r v'. apply kept_recopy. Qed.
#[local] Hint Resolve keeps_bt_write keeps_recopy : keeps.
Lemma keeps_write_all level gen ps : keeps R (bt_write_all level gen ps).
Proof. induction ps as [|p ps IH]; cbn [bt_write_all]; keep_auto. Qed.
#[local] Hint Resolve keeps_write_all : keeps.
Lemma keeps_emit level gen es : keeps R (bt_emit level gen es).
Proof. unfold bt_emit. keep_auto. Qed.
#[local] Hint Resolve keeps_emit : keeps.
Lemma keeps_ins fuel node key val gen : keeps R (bt_ins_rec fuel node key val gen).
Proof. revert node. induction fuel as [|fuel IH]; intros node; cbn [bt_ins_rec]; keep_auto. Qed.
#[local] Hint Resolve keeps_ins : keeps.
Lemma keeps_upsert root key val : keeps R (btree_upsert root key val).
Proof. unfold btree_upsert, bt_new_root. keep_auto. Qed.
Lemma keeps_del_emit level gen is_root es : keeps R (bt_del_emit level gen is_root es).
Proof. unfold bt_del_emit. keep_auto. Qed.
Lemma keeps_rewrite_pair pe base lv gen comb : keeps R (bt_rewrite_pair pe base lv gen comb).
Proof. unfold bt_rewrite_pair. keep_auto. Qed.
#[local] Hint Resolve keeps_del_emit keeps_rewrite_pair : keeps.
Lemma keeps_rebalance pe i gen : keeps R (bt_rebalance pe i gen).
Proof. unfold bt_rebalance. keep_auto. Qed.
#[local] Hint Resolve keeps_rebalance : keeps.
Lemma keeps_del_fix es i cd key gen : keeps R (bt_del_fix es i cd key gen).
Proof. unfold bt_del_fix. keep_auto. Qed.
#[local] Hint Resolve keeps_del_fix : keeps.
Lemma keeps_del fuel node key gen is_root : keeps R (bt_del_rec fuel node key gen is_root).
Proof. revert node is_root. induction fuel as [|fuel IH]; intros node is_root; cbn [bt_del_rec]; keep_auto. Qed.
#[local] Hint Resolve keeps_del : keeps.
Lemma keeps_delete root key : keeps R (btree_delete root key).
Proof. unfold btree_delete. keep_auto. Qed.
End keeps_puts.
#[export] Hint Extern 0 (KeptPut _) => exact _ : keeps.
#[export] Hint Resolve keeps_bt_write keeps_recopy keeps_write_all keeps_emit keeps_ins keeps_upsert
  keeps_del_emit keeps_rewrite_pair keeps_rebalance keeps_del_fix keeps_del keeps_delete : keeps.

(** ** Correctness *)

#[export] Instance ok_back_put {V : Type} `{!PageStore V} `{!PageStoreLaws V} : KeptPut (ok_back (V := V)).
Proof.
  assert (Hput : forall gen big page flags, mono (bt_put gen big page flags))
    by (unfold bt_put; keep_auto).
  split; [exact _| |].
  - intros gen page flags v r v' _. apply Hput.
  - intros ptr gen. unfold bt_recopy. apply keeps_bind; [exact _|keep_auto|auto].
Qed.

Section proofs.
Context {V : Type} `{!PageStore V} `{!PageStoreLaws V} `{!PageStoreLive V}.
Implicit Types (v : V) (L : Prop).

(** [ptr] names a live page that verifies and holds the records [es]. *)
Definition node_at v (ptr : invfs_blkptr) (level : Z) (es : list bt_ent) : Prop :=
  let page := ps_page v (bp_pba ptr) in
  ps_live v (bp_pba ptr) /\ zlen page = INVFS_BLOCK_SIZE /\ bytes_ok page /\
  page_checksum page = bp_checksum ptr /\ page_gen page = bp_gen ptr /\
  mbuf_page_validate page = true /\ bt_decode page = Some (level, es).

Lemma node_at_ext v v' ptr level es : ext v v' -> node_at v ptr level es -> node_at v' ptr level es.
Proof.
  intros He (Hl & H). destruct (He _ Hl) as [Hl' E]. unfold node_at. rewrite E. by split.
Qed.

Lemma node_at_ok v ptr level es :
  node_at v ptr level es ->
  Forall (ent_ok level) es /\ fits level es = true /\ 0 <= level < 2 ^ 16.
Proof.
  intros (_ & Hlen & Hb & _ & _ & _ & Hd).
  by destruct (decode_ok _ _ _ Hb Hlen Hd) as (? & ? & _ & ? & _).
Qed.

Lemma node_at_inj v ptr l1 es1 l2 es2 :
  node_at v ptr l1 es1 -> node_at v ptr l2 es2 -> l1 = l2 /\ es1 = es2.
Proof.
  intros (_ & _ & _ & _ & _ & _ & D1) (_ & _ & _ & _ & _ & _ & D2). rewrite D1 in D2.
  by injection D2 as -> ->.
Qed.

(** *** The primitives *)

Lemma wp_ps_read L v ptr level es :
  node_at v ptr level es -> wp L 0 (ps_read ptr) v (fun pg _ => pg = ps_page v (bp_pba ptr)).
Proof.
  intros (Hl & Hlen & Hb & Hc & Hg & Hv & Hd) Hw r v' H. split.
  - intros Hok. destruct (ps_read_law ptr v r v' Hw Hok Hl H) as (Hw' & Hp & Hlv & Hr).
    split; [done|]. split.
    + intros q Hq. split; [by apply Hlv|by apply Hp].
    + intros pg Er. by destruct (Hr pg Er) as (-> & _).
  - intros _ n Hq Hr. destruct (ps_read_live ptr v) as (pg & v'' & E & Hq' & Hr'); try done.
    rewrite E in H. injection H as <- <-. exists pg. auto.
Qed.

Lemma wp_bt_read L v ptr level es :
  node_at v ptr level es -> wp L 0 (bt_read ptr) v (fun r _ => r = (level, es)).
Proof.
  intros Hn. eapply wp_bind0; [intros; case_match; auto with keeps|by eapply wp_ps_read|].
  intros pg v1 _ _ ->. destruct Hn as (_ & _ & _ & _ & _ & _ & ->). by apply wp_ret.
Qed.

Lemma wp_first_key L v ptr level e es :
  node_at v ptr level (e :: es) -> wp L 0 (bt_first_key ptr) v (fun k _ => k = e_k e).
Proof.
  intros Hn. eapply wp_bind0; [intros; case_match; auto with keeps|by eapply wp_ps_read|].
  intros pg v1 _ _ ->. destruct Hn as (_ & Hlen & Hb & _ & _ & _ & Hd).
  rewrite (first_key_decode _ _ _ _ Hb Hlen Hd). by apply wp_ret.
Qed.


(** Allocation followed by the note to the orphan collector. *)
Lemma alloc_note gen v r v' :
  ps_wf v -> ps_alloc gen v = (r, v') ->
  let v2 := ps_note (default 0 r) v' in
  (ps_ok v2 = true -> ps_wf v2 /\ ext v v2 /\
     (forall p, r = Some p -> ~ ps_live v p /\ ps_live v2 p)) /\
  (forall n, ps_quiet v -> ps_room v (S n) ->
     exists p, r = Some p /\ ps_quiet v2 /\ ps_room v2 n).
Proof.
  intros Hw E. cbv zeta. destruct (ps_note_law (default 0 r) v') as (No & Nw & Np & Nl).
  destruct (ps_note_live (default 0 r) v') as (Nq & Nr). split.
  - rewrite No. intros Hok. destruct (ps_alloc_law gen v r v' Hw Hok E) as (Hw1 & Hp & Hl & Hf).
    split; [auto|]. split.
    + intros q Hq. rewrite Nl, Np. auto.
    + intros p Ep. rewrite Nl. auto.
  - intros n Hq Hr. destruct (ps_alloc_live gen v n Hw Hq Hr) as (p & v1 & E1 & Hq1 & Hr1).
    rewrite E1 in E. injection E as <- <-. exists p. auto.
Qed.

(** Giving back a block that was not live before changes nothing that was. *)
Lemma free_fresh p v v1 r v2 :
  ps_wf v1 -> ps_live v1 p -> ~ ps_live v p -> ext v v1 -> ps_free p v1 = (r, v2) ->
  ps_ok v2 = true -> ps_wf v2 /\ ext v v2.
Proof.
  intros Hw Hl Hn He E Hok. destruct (ps_free_law p v1 r v2 Hw Hok Hl E) as (_ & Hw2 & Hp & _ & Hk).
  split; [done|]. intros q Hq. destruct (He q Hq) as [Hq1 <-].
  split; [|by apply Hp]. apply Hk; [|done]. by intros ->.
Qed.

(** A page stored at a fresh address: nothing that was live changes, whether
    the store succeeds or not. *)
Lemma wp_bt_put L v gen page flags :
  zlen page = INVFS_BLOCK_SIZE -> bytes_ok page ->
  wp L 1 (bt_put gen false page flags) v (fun ptr v' =>
    ptr = mbuf_ptr_set (bp_pba ptr) (mbuf_page_seal page) flags /\
    ~ ps_live v (bp_pba ptr) /\ ps_live v' (bp_pba ptr) /\
    ps_page v' (bp_pba ptr) = mbuf_page_seal page).
Proof.
  intros Hlen Hb Hw r v' H. unfold bt_put in H. destruct (ps_alloc gen v) as [r1 v1] eqn:E1.
  rewrite (mbind_eq _ _ v r1 v1) in H by (unfold mtry; by rewrite E1).
  rewrite (mbind_eq _ _ v1 tt (ps_note (default 0 r1) v1)) in H by done.
  destruct (alloc_note gen v r1 v1 Hw E1) as [Hsafe Hlive]. set (v2 := ps_note (default 0 r1) v1) in *.
  clearbody v2. destruct r1 as [pba|].
  2: { injection H as <- <-. split.
    - intros Hok. destruct (Hsafe Hok) as (? & ? & _). done.
    - intros HL n Hq Hr. by destruct (Hlive n Hq Hr) as (? & ? & _). }
  destruct (ps_write pba page v2) as [w v3] eqn:E3.
  rewrite (mbind_eq _ _ v2 w v3) in H by (unfold mtry; by rewrite E3).
  assert (Hw3 : ps_ok v3 = true -> ps_wf v3 /\ ext v v3 /\ ~ ps_live v pba /\ ps_live v3 pba /\
            (forall s, w = Some s -> s = mbuf_page_seal page /\ ps_page v3 pba = s)).
  { intros Hok. pose proof (mono_write _ _ _ _ _ E3 Hok) as Hok2.
    destruct (Hsafe Hok2) as (Hw2 & He2 & Hf). destruct (Hf pba eq_refl) as [Hn Hl2].
    destruct (ps_write_law pba page v2 w v3 Hw2 Hok Hl2 Hlen Hb E3) as (Hw3 & Hp & Hl & Hr).
    split; [done|]. split.
    { intros q Hq. destruct (He2 q Hq) as [Hq2 <-]. split; [by apply Hl|]. apply Hp; [|done]. by intros ->. }
    split; [done|]. split; [by apply Hl|done]. }
  destruct w as [s|].
  - injection H as <- <-. split.
    + intros Hok. destruct (Hw3 Hok) as (? & ? & ? & ? & Hr). destruct (Hr s eq_refl) as [-> Hpg].
      split; [done|]. split; [done|]. intros a [= <-]. done.
    + intros HL n Hq Hr. destruct (Hlive n Hq Hr) as (p & [= <-] & Hq2 & Hr2).
      destruct (Hsafe (ps_quiet_ok _ Hq2)) as (Hw2 & _ & Hf). destruct (Hf pba eq_refl) as [_ Hl2].
      destruct (ps_write_live pba page v2 Hw2 Hq2 Hl2 Hlen Hb) as (s' & v3' & E & Hq3 & Hr3).
      rewrite E in E3. injection E3 as <- <-. eexists. split; [done|]. auto.
  - destruct (ps_free pba v3) as [f v4] eqn:E4.
    rewrite (mbind_eq _ _ v3 f v4) in H by (unfold mtry; by rewrite E4).
    injection H as <- <-. split.
    + intros Hok. destruct (Hw3 (mono_free _ _ _ _ E4 Hok)) as (Hw3' & He & Hn & Hl & _).
      destruct (free_fresh pba v v3 f v4) as [? ?]; done.
    + intros HL n Hq Hr. destruct (Hlive n Hq Hr) as (p & [= <-] & Hq2 & Hr2).
      destruct (Hsafe (ps_quiet_ok _ Hq2)) as (Hw2 & _ & Hf). destruct (Hf pba eq_refl) as [_ Hl2].
      destruct (ps_write_live pba page v2 Hw2 Hq2 Hl2 Hlen Hb) as (s' & v3' & E & Hq3 & Hr3).
      by rewrite E in E3.
Qed.

Lemma wp_bt_write L v level gen es :
  0 <= level < 2 ^ 16 -> Forall (ent_ok level) es -> (L -> fits level es = true) ->
  (level <> INVFS_PAGE_LEVEL_LEAF -> Forall (fun e => bp_pba (e_child e) <> 0) es) ->
  wp L 1 (bt_write level gen es) v (fun ptr v' =>
    node_at v' ptr level es /\ ptr_ok ptr /\ bp_gen ptr = u64 gen /\ ~ ps_live v (bp_pba ptr)).
Proof.
  intros Hlev Hes Hfit Hnn. apply wp_guard.
  { intros HL. pose proof (encoded_count level es (Hfit HL)).
    apply Z.leb_le. unfold BT_MAX_ENTRIES. lia. }
  intros _. apply wp_guard; [done|]. clear Hfit. intros Hfit. apply wp_guard.
  { intros _. destruct (Z.eqb_spec level INVFS_PAGE_LEVEL_LEAF); [done|]. cbn [orb].
    apply forallb_forall. intros e He. apply negb_true_iff, Z.eqb_neq.
    apply (proj1 (Forall_forall _ _) (Hnn n) e He). }
  intros _. pose proof (encoded_recs_len level es Hfit) as Hrl.
  rewrite (proj2 (Z.ltb_ge _ _)) by lia.
  set (page := bt_encode level gen es).
  assert (Hlen : zlen page = INVFS_BLOCK_SIZE) by (by apply length_encode).
  assert (Hb : bytes_ok page) by (by apply encode_bytes_ok).
  destruct (encode_header level gen es) as (Hm & Hg & _); [done..|]. fold page in Hm, Hg.
  destruct (seal_header page Hlen) as (_ & Eg & _).
  eapply wp_post; [by apply wp_bt_put|].
  intros ptr v' He Hw' (Ep & Hn & Hl & Hpg). split; [|split; [|split; [|done]]].
  - unfold node_at. rewrite Hpg.
    split; [done|]. split; [by apply length_seal|]. split; [by apply seal_ok|].
    split; [by rewrite Ep|]. split; [by rewrite Ep|].
    split; [by apply seal_validates|by apply encode_decode].
  - rewrite Ep. unfold mbuf_ptr_set, ptr_ok. cbn [bp_pba bp_checksum bp_gen bp_flags].
    rewrite (seal_checksum page Hlen Hb), Eg, Hg.
    pose proof (ps_live_range _ _ Hw' Hl). pose proof (page_crc_range page Hb).
    pose proof (u64_range gen). split_and!; try lia; by destruct (level =? _).
  - rewrite Ep. cbn. by rewrite Eg, Hg.
Qed.

(** *** Trees *)

(** Longest key: the engine's longest is 269 bytes (an xattr chunk key). *)
Definition BT_KEY_LIM : Z := 1024.

(** The bound on a record's keys: the next record's key, or the node's. *)
Definition next (es : list bt_ent) (hi : option bytes) : option bytes :=
  match es with [] => hi | e :: _ => Some (e_k e) end.

(** The pairs under a run of records, each record contributing by [P]. *)
Fixpoint forest (P : bt_ent -> option bytes -> list kv -> Prop) (es : list bt_ent)
    (hi : option bytes) (kvs : list kv) : Prop :=
  match es with
  | [] => kvs = []
  | e :: es => exists k1 k2, kvs = k1 ++ k2 /\ P e (next es hi) k1 /\ forest P es hi k2
  end.

(** [cell h v e hi kvs]: the record [e] of a node at level [h] stands for
    [kvs], all keys at least [e_k e] and below [hi].  A leaf's record stands
    for its pair; an internal record for the node it points to. *)
Fixpoint cell (h : nat) v (e : bt_ent) (hi : option bytes) (kvs : list kv) : Prop :=
  zlen (e_k e) <= BT_KEY_LIM /\
  match h with
  | O => kvs = [(e_k e, e_v e)] /\ below hi (e_k e)
  | S h => exists es, node_at v (e_child e) (Z.of_nat h) es /\ es <> [] /\
             key_le (e_k e) (e_k (ent es 0)) /\ forest (cell h v) es hi kvs
  end.

(** A tree of height [h] with root [root] and contents [kvs]. *)
Definition tree (h : nat) v (root : invfs_blkptr) (kvs : list kv) : Prop :=
  cell (S h) v (mkEnt [] [] root) None kvs.

Lemma forest_app P a b hi kvs :
  forest P (a ++ b) hi kvs <->
  exists k1 k2, kvs = k1 ++ k2 /\ forest P a (next b hi) k1 /\ forest P b hi k2.
Proof.
  revert kvs. induction a as [|e a IH]; intros kvs; cbn [app forest].
  - split; [intros; exists [], kvs; done|]. by intros (? & ? & -> & -> & ?).
  - assert (Hn : next (a ++ b) hi = next a (next b hi)) by (by destruct a).
    rewrite Hn. setoid_rewrite IH. split.
    + intros (k1 & k2 & -> & HP & k3 & k4 & -> & Ha & Hb).
      exists (k1 ++ k3), k4. rewrite app_assoc. eauto 10.
    + intros (k12 & k3 & -> & (k1 & k2 & -> & HP & Ha) & Hb).
      exists k1, (k2 ++ k3). rewrite app_assoc. eauto 10.
Qed.

Lemma forest_impl (P P' : bt_ent -> option bytes -> list kv -> Prop) es hi kvs :
  (forall e hi kvs, e ∈ es -> P e hi kvs -> P' e hi kvs) -> forest P es hi kvs -> forest P' es hi kvs.
Proof.
  revert kvs. induction es as [|e es IH]; intros kvs H; cbn; [done|].
  intros (k1 & k2 & -> & HP & Hf). exists k1, k2. split; [done|]. split.
  - apply H; [left|done].
  - apply IH; [|done]. intros; apply H; [by right|done].
Qed.

Lemma cell_ext h v v' e hi kvs : ext v v' -> cell h v e hi kvs -> cell h v' e hi kvs.
Proof.
  intros He. revert e hi kvs. induction h as [|h IH]; intros e hi kvs; cbn [cell]; [done|].
  intros (Hl & es & Hn & Hne & Hk & Hf). split; [done|]. exists es. split; [by eapply node_at_ext|].
  split; [done|]. split; [done|]. eapply forest_impl; [|done]. auto.
Qed.

Lemma forest_ext h v v' es hi kvs :
  ext v v' -> forest (cell h v) es hi kvs -> forest (cell h v') es hi kvs.
Proof. intros He. apply forest_impl. intros. by eapply cell_ext. Qed.

(** What a record's pairs look like. *)
Definition bounded (lo : bytes) (hi : option bytes) (kvs : list kv) : Prop :=
  kvs <> [] /\ ksorted (map fst kvs) /\
  Forall (fun k => key_le lo k /\ below hi k) (map fst kvs).

Lemma forest_bounded (P : bt_ent -> option bytes -> list kv -> Prop) e es hi kvs :
  (forall e hi kvs, P e hi kvs -> bounded (e_k e) hi kvs) ->
  forest P (e :: es) hi kvs -> bounded (e_k e) hi kvs.
Proof.
  intros HP. revert e kvs. induction es as [|e' es IH]; intros e kvs.
  - intros (k1 & k2 & -> & H1 & ->). rewrite app_nil_r. by apply HP.
  - intros (k1 & k2 & -> & H1 & H2). apply HP in H1 as (Hn1 & Hs1 & Hb1).
    apply IH in H2 as (Hn2 & Hs2 & Hb2). cbn [next] in Hb1.
    assert (Hlt : key_lt (e_k e) (e_k e')).
    { destruct k1 as [|[k x] k1]; [done|]. cbn in Hb1. apply Forall_cons_iff in Hb1 as [[] _].
      eauto with keys. }
    split; [by destruct k1|]. rewrite map_app. split.
    + apply ksorted_app. split; [done|]. split; [done|]. intros a b Ha Hb.
      apply list_elem_of_In in Ha, Hb. rewrite Forall_forall in Hb1, Hb2.
      destruct (Hb1 a Ha) as [_ ?], (Hb2 b Hb) as [? _]. eauto with keys.
    + apply Forall_app. split.
      * eapply Forall_impl; [|exact Hb1]. cbn. intros k [? ?]. split; [done|].
        destruct k2 as [|[k' x'] k2]; [done|]. cbn in Hb2. apply Forall_cons_iff in Hb2 as [[] _].
        eapply below_le; [done|]. eauto with keys.
      * eapply Forall_impl; [|exact Hb2]. cbn. intros k [? ?]. split; [|done]. eauto with keys.
Qed.

Lemma cell_bounded h v e hi kvs : cell h v e hi kvs -> bounded (e_k e) hi kvs.
Proof.
  revert e hi kvs. induction h as [|h IH]; intros e hi kvs; cbn [cell].
  - intros (_ & -> & Hb). split; [done|]. cbn. split; [repeat constructor|].
    constructor; [|constructor]. split; [apply key_le_refl|done].
  - intros (_ & es & _ & Hne & Hk & Hf). destruct es as [|e0 es]; [done|].
    apply (forest_bounded _ _ _ _ _ IH) in Hf as (? & ? & Hb). split; [done|]. split; [done|].
    eapply Forall_impl; [|exact Hb]. cbn. intros k [? ?]. split; [|done]. cbn in Hk. eauto with keys.
Qed.

Lemma cells_bounded h v e es hi kvs : forest (cell h v) (e :: es) hi kvs -> bounded (e_k e) hi kvs.
Proof. apply forest_bounded. apply cell_bounded. Qed.

Lemma forest_sorted h v es hi kvs : forest (cell h v) es hi kvs -> ksorted (map e_k es).
Proof.
  revert kvs. induction es as [|e es IH]; intros kvs; [constructor|].
  intros (k1 & k2 & -> & H1 & H2). cbn [map]. apply ksorted_cons. split; [by eapply IH|].
  destruct es as [|e' es]; [constructor|].
  assert (Hlt : key_lt (e_k e) (e_k e')).
  { apply cell_bounded in H1 as (Hn & _ & Hb). destruct k1 as [|[k x] k1]; [done|].
    cbn in Hb. apply Forall_cons_iff in Hb as [[] _]. eauto with keys. }
  apply IH in H2. cbn [map] in *. apply ksorted_cons in H2 as [_ H2]. constructor; [done|].
  eapply Forall_impl; [|exact H2]. eauto with keys.
Qed.

(** The record a search follows, and the pairs left and right of it. *)
Lemma forest_split h v es hi kvs i :
  forest (cell h v) es hi kvs -> (i < length es)%nat ->
  exists k1 kc k2, kvs = k1 ++ kc ++ k2 /\ es = take i es ++ ent es i :: drop (S i) es /\
    forest (cell h v) (take i es) (Some (e_k (ent es i))) k1 /\
    cell h v (ent es i) (next (drop (S i) es) hi) kc /\
    forest (cell h v) (drop (S i) es) hi k2.
Proof.
  intros Hf Hi. pose proof (take_drop_middle es i _ (ent_lookup_lt es i Hi)) as E.
  rewrite <- E in Hf. apply forest_app in Hf as (k1 & k' & -> & H1 & kc & k2 & -> & Hc & H2).
  exists k1, kc, k2. done.
Qed.

(** Pairs of a run of records that ends below [k] (starts above [k]). *)
Lemma forest_left h v es k kvs :
  forest (cell h v) es (Some k) kvs -> Forall (fun k' => key_lt k' k) (map fst kvs).
Proof.
  destruct es as [|e es]; [by intros ->; constructor|].
  intros (_ & _ & Hb)%cells_bounded. eapply Forall_impl; [|exact Hb]. by intros ? [].
Qed.

Lemma forest_right h v es hi k kvs :
  forest (cell h v) es hi kvs -> (es = [] \/ key_lt k (e_k (ent es 0))) ->
  Forall (key_lt k) (map fst kvs).
Proof.
  destruct es as [|e es]; [by intros ->; constructor|].
  intros (_ & _ & Hb)%cells_bounded [?|Hk]; [done|]. eapply Forall_impl; [|exact Hb].
  cbn in Hk. intros k' []. eauto with keys.
Qed.

(** Where the searched key can be: at index [i] or nowhere. *)
Lemma child_split h v es hi kvs key :
  forest (cell h v) es hi kvs -> es <> [] -> below hi key ->
  let i := bt_child_index es key in
  exists k1 kc k2, kvs = k1 ++ kc ++ k2 /\ es = take i es ++ ent es i :: drop (S i) es /\
    (i < length es)%nat /\
    forest (cell h v) (take i es) (Some (e_k (ent es i))) k1 /\
    cell h v (ent es i) (next (drop (S i) es) hi) kc /\
    forest (cell h v) (drop (S i) es) hi k2 /\
    below (next (drop (S i) es) hi) key /\ (i = O \/ key_le (e_k (ent es i)) key) /\
    Forall (fun k => key_lt k key) (map fst k1) /\ Forall (key_lt key) (map fst k2).
Proof.
  intros Hf Hne Hb i. destruct (child_index_spec es key Hne) as (Hi & Hlo & Hhi). fold i in Hi, Hlo, Hhi.
  clearbody i.
  destruct (forest_split h v es hi kvs i Hf Hi) as (k1 & kc & k2 & -> & E & H1 & Hc & H2).
  exists k1, kc, k2. split; [done|]. split; [done|]. split; [done|]. split; [done|]. split; [done|].
  split; [done|].
  assert (Hnext : drop (S i) es = [] \/ key_lt key (e_k (ent (drop (S i) es) 0))).
  { destruct Hhi as [Hl|[Hl Hk]]; [left; apply drop_ge; lia|right].
    unfold ent in *. by rewrite nth_lookup, lookup_drop, Nat.add_0_r, <- nth_lookup. }
  split; [|split; [done|split]].
  - destruct (drop (S i) es) as [|e' t]; [done|]. by destruct Hnext.
  - destruct Hlo as [->|Hlo]; [rewrite take_0 in H1; cbn in H1; subst k1; constructor|].
    apply forest_left in H1. eapply Forall_impl; [|exact H1].
    intros k Hk. exact (key_lt_le_trans _ _ _ Hk Hlo).
  - by eapply forest_right.
Qed.

(** *** Leaves *)

Definition pair_of (e : bt_ent) : kv := (e_k e, e_v e).

Lemma map_fst_pair es : map fst (map pair_of es) = map e_k es.
Proof. rewrite map_map. done. Qed.

Lemma leaf_forest v es hi kvs :
  forest (cell 0 v) es hi kvs <->
  kvs = map pair_of es /\ ksorted (map e_k es) /\
  Forall (fun e => zlen (e_k e) <= BT_KEY_LIM /\ below hi (e_k e)) es.
Proof.
  split.
  - intros Hf. pose proof (forest_sorted _ _ _ _ _ Hf) as Hs. revert kvs Hf Hs.
    induction es as [|e es IH]; intros kvs; [intros -> _; split_and!; done || constructor|].
    intros Hf Hs. pose proof Hf as (k1 & k2 & -> & (Hl & -> & Hb) & H2). cbn [map] in Hs.
    apply ksorted_cons in Hs as [Hs Hk]. destruct (IH _ H2 Hs) as (-> & _ & Hes).
    split; [done|]. split; [by apply ksorted_cons|]. constructor; [|done]. split; [done|].
    apply cells_bounded in Hf as (_ & _ & Hbd). cbn in Hbd. by apply Forall_cons_iff in Hbd as [[] _].
  - intros (-> & Hs & Hes). induction es as [|e es IH]; [done|]. cbn [map] in Hs.
    apply ksorted_cons in Hs as [Hs Hk]. apply Forall_cons_iff in Hes as [[Hl Hb] Hes].
    exists [pair_of e], (map pair_of es). split; [done|]. split; [|by apply IH].
    split; [done|]. split; [done|]. destruct es as [|e' es]; [done|].
    cbn in Hk. by apply Forall_cons_iff in Hk as [? _].
Qed.

(** What [bt_lower_bound] says about a leaf. *)
Lemma leaf_pos es key :
  ksorted (map e_k es) ->
  let pos := bt_lower_bound es key in
  Forall (fun k => key_lt k key) (map e_k (take pos es)) /\
  (if (pos <? length es)%nat && (bt_cmp_key (ent es pos) key =? 0)
   then (pos < length es)%nat /\ e_k (ent es pos) = key /\
        es = take pos es ++ ent es pos :: drop (S pos) es
   else Forall (key_lt key) (map e_k (drop pos es)) /\ (pos <= length es)%nat).
Proof.
  intros Hs pos. destruct (lower_bound_spec es key Hs) as (Hp & Hlt & Hge). fold pos in Hp, Hlt, Hge.
  clearbody pos. split.
  { apply Forall_forall. intros k (e & <- & He)%in_map_iff. apply list_elem_of_In, elem_of_take in He
      as (j & Hj & Hjp). rewrite <- (ent_lookup _ _ _ Hj). by apply Hlt. }
  destruct (Nat.ltb_spec pos (length es)) as [Hpl|Hpl]; cbn [andb].
  2: { rewrite drop_ge by lia. split; [constructor|lia]. }
  destruct (Z.eqb_spec (bt_cmp_key (ent es pos) key) 0) as [E|E].
  { apply key_cmp_eq in E. split; [done|]. split; [done|]. symmetry.
    by apply take_drop_middle, ent_lookup_lt. }
  split; [|lia]. assert (Hk : key_lt key (e_k (ent es pos))).
  { pose proof (Hge pos ltac:(lia)) as H. apply key_le_lt_eq in H as [?|H]; [done|].
    unfold bt_cmp_key in E. rewrite H, key_cmp_refl in E. done. }
  apply Forall_forall. intros k (e & <- & He)%in_map_iff.
  apply list_elem_of_In, list_elem_of_lookup in He as (j & Hj). rewrite lookup_drop in Hj.
  pose proof (lookup_lt_Some _ _ _ Hj). rewrite <- (ent_lookup _ _ _ Hj).
  destruct (decide (j = O)) as [->|]; [by rewrite Nat.add_0_r|].
  eapply key_lt_trans; [exact Hk|]. apply ksorted_lt; [done|lia].
Qed.

(** *** Search *)


Lemma node_live v ptr level es : ps_wf v -> node_at v ptr level es -> bp_pba ptr <> 0.
Proof. intros Hw (Hl & _). pose proof (ps_live_range _ _ Hw Hl). lia. Qed.

Lemma not_in_lt k l : Forall (key_lt k) l -> k ∉ l.
Proof. rewrite Forall_forall. intros H Hin%list_elem_of_In%H. by apply key_lt_irrefl in Hin. Qed.
Lemma not_in_gt k l : Forall (fun k' => key_lt k' k) l -> k ∉ l.
Proof. rewrite Forall_forall. intros H Hin%list_elem_of_In%H. by apply key_lt_irrefl in Hin. Qed.

Lemma lookup_middle k k1 kc k2 :
  Forall (fun k' => key_lt k' k) (map fst k1) -> Forall (key_lt k) (map fst k2) ->
  to_map (k1 ++ kc ++ k2) !! k = to_map kc !! k.
Proof.
  intros H1%not_in_gt H2%not_in_lt. unfold to_map. rewrite !list_to_map_app.
  rewrite lookup_union_r by (by apply not_elem_of_list_to_map).
  rewrite lookup_union. rewrite (not_elem_of_list_to_map_1 k2 k) by done.
  by destruct (_ !! k).
Qed.

(** What a leaf's search answers. *)
Lemma leaf_lookup v es hi kvs key :
  forest (cell 0 v) es hi kvs ->
  let pos := bt_lower_bound es key in
  (if (pos <? length es)%nat && (bt_cmp_key (ent es pos) key =? 0)
   then Some (e_v (ent es pos)) else None) = to_map kvs !! key.
Proof.
  intros (-> & Hs & _)%leaf_forest pos. destruct (leaf_pos es key Hs) as [H1 H2]. fold pos in H1, H2.
  clearbody pos. destruct (_ && _); symmetry.
  - destruct H2 as (Hp & Ek & E). apply to_map_lookup; [by rewrite map_fst_pair|].
    apply list_elem_of_fmap. exists (ent es pos). unfold pair_of. rewrite Ek.
    split; [done|]. by apply list_elem_of_lookup_2 with pos, ent_lookup_lt.
  - destruct H2 as [H2 _]. apply to_map_lookup_None. rewrite map_fst_pair.
    rewrite <- (take_drop pos es), map_app, not_elem_of_app.
    split; [by apply not_in_gt|by apply not_in_lt].
Qed.

Lemma level_S h : (Z.of_nat (S h) =? INVFS_PAGE_LEVEL_LEAF) = false.
Proof. apply Z.eqb_neq. unfold INVFS_PAGE_LEVEL_LEAF. lia. Qed.

Lemma wp_search L h v e hi kvs key depth :
  cell (S h) v e hi kvs -> below hi key -> (L -> (h < depth)%nat) ->
  wp L 0 (search_loop depth (e_child e) key) v (fun r _ => r = to_map kvs !! key).
Proof.
  revert v e hi kvs depth. induction h as [|h IH]; intros v e hi kvs [|depth] Hc Hb Hd;
    cbn [search_loop]; try (apply wp_fail; intros HL; specialize (Hd HL); lia); apply wp_wf; intros Hw;
    pose proof Hc as (_ & es & Hn & Hne & _ & Hf); pose proof (node_live _ _ _ _ Hw Hn) as Hp0.
  - apply wp_guard; [intros _; by apply negb_true_iff, Z.eqb_neq|intros _].
    eapply wp_bind0; [keep_auto|by apply wp_bt_read|]. intros nd v1 He Hw1 ->. cbn [Z.of_nat].
    change (negb (0 =? INVFS_PAGE_LEVEL_LEAF)) with false. cbv iota.
    rewrite <- (leaf_lookup v es hi kvs key Hf). destruct (_ && _); by apply wp_ret.
  - apply wp_guard; [intros _; by apply negb_true_iff, Z.eqb_neq|intros _].
    eapply wp_bind0; [keep_auto|by apply wp_bt_read|]. intros nd v1 He Hw1 ->. rewrite level_S. cbn [negb].
    destruct (child_split _ _ _ _ _ key Hf Hne Hb)
      as (k1 & kc & k2 & -> & _ & _ & _ & Hcell & _ & Hb' & _ & H1 & H2).
    apply (cell_ext _ _ _ _ _ _ He) in Hcell.
    apply wp_guard.
    { intros _. apply negb_true_iff, Z.eqb_neq. destruct Hcell as (_ & es' & Hn' & _).
      by eapply node_live. }
    intros _. rewrite lookup_middle by done. eapply IH; [exact Hcell|done|]. intros HL. specialize (Hd HL). lia.
Qed.

Lemma wp_btree_search L h v root kvs key :
  tree h v root kvs -> (L -> (h < BT_MAX_DEPTH)%nat) ->
  wp L 0 (btree_search root key) v (fun r _ => r = to_map kvs !! key).
Proof.
  intros Ht Hh. apply wp_wf. intros Hw. pose proof Ht as (_ & es & Hn & _).
  unfold btree_search. rewrite (proj2 (Z.eqb_neq _ _)) by (by apply (node_live _ _ _ _ Hw Hn)).
  by apply (wp_search L h v (mkEnt [] [] root) None).
Qed.

(** *** Writing the pieces of a node *)

(** A separator as [bt_first_key] makes it. *)
Definition sep_ok v (e : bt_ent) : Prop :=
  e_v e = [] /\ ptr_ok (e_child e) /\ bytes_ok (e_k e) /\
  exists level e1 es1, node_at v (e_child e) level (e1 :: es1) /\ e_k e1 = e_k e.

(** The pages [ptrs] at level [h], each with its first key as separator,
    stand for [kvs]. *)
Definition pages_of h v (ptrs : list invfs_blkptr) (seps : list bt_ent) hi kvs : Prop :=
  map e_child seps = ptrs /\ Forall (sep_ok v) seps /\ forest (cell (S h) v) seps hi kvs.

Lemma sep_ok_ext v v' e : ext v v' -> sep_ok v e -> sep_ok v' e.
Proof.
  intros He (? & ? & ? & l & e1 & es1 & Hn & ?). split_and!; try done.
  exists l, e1, es1. split; [|done]. by eapply node_at_ext.
Qed.

Lemma pages_of_ext h v v' ptrs seps hi kvs :
  ext v v' -> pages_of h v ptrs seps hi kvs -> pages_of h v' ptrs seps hi kvs.
Proof.
  intros He (? & Hs & Hf). split; [done|]. split; [|by eapply forest_ext].
  eapply Forall_impl; [|exact Hs]. intros e. by apply sep_ok_ext.
Qed.

Lemma forest_klen h v es hi kvs :
  forest (cell h v) es hi kvs -> Forall (fun e => zlen (e_k e) <= BT_KEY_LIM) es.
Proof.
  revert kvs. induction es as [|e es IH]; intros kvs; [constructor|].
  intros (k1 & k2 & _ & Hc & Hf). constructor; [|by eapply IH]. by destruct h, Hc.
Qed.

Lemma forest_nonnull h v es hi kvs :
  ps_wf v -> forest (cell h v) es hi kvs ->
  Z.of_nat h <> INVFS_PAGE_LEVEL_LEAF -> Forall (fun e => bp_pba (e_child e) <> 0) es.
Proof.
  intros Hw Hf Hh. destruct h as [|h]; [done|]. clear Hh. revert kvs Hf.
  induction es as [|e es IH]; intros kvs; [constructor|].
  intros (k1 & k2 & _ & (_ & es' & Hn & _) & Hf). constructor; [by eapply node_live|by eapply IH].
Qed.


Definition head_key (es : list bt_ent) : bytes := e_k (ent es 0).

Lemma wp_write_all L h gen ps v hi kvs :
  Z.of_nat h < 2 ^ 16 ->
  Forall (fun p => p <> []) ps -> (L -> Forall (fun p => fits (Z.of_nat h) p = true) ps) ->
  Forall (ent_ok (Z.of_nat h)) (concat ps) -> forest (cell h v) (concat ps) hi kvs ->
  wp L (length ps) (bt_write_all (Z.of_nat h) gen ps) v (fun ptrs v' =>
    Forall (fun p => bp_gen p = u64 gen) ptrs /\
    exists seps, pages_of h v' ptrs seps hi kvs /\ map e_k seps = map head_key ps).
Proof.
  intros Hh. revert v kvs. induction ps as [|p ps IH]; intros v kvs Hne Hfit Hok Hf.
  { cbn [bt_write_all]. apply wp_ret. split; [constructor|]. exists []. cbn in Hf. by split. }
  cbn [bt_write_all concat length] in *. apply Forall_cons_iff in Hne as [Hp Hne].
  apply Forall_app in Hok as [Hokp Hok]. apply forest_app in Hf as (k1 & k2 & -> & Hf1 & Hf2).
  apply wp_wf. intros Hw. eapply (wp_bind L 1 (length ps)); [lia|keep_auto| |].
  { apply wp_bt_write; [lia|done| |by eapply forest_nonnull].
    intros HL. by destruct (proj1 (Forall_cons_iff _ _ _) (Hfit HL)). }
  intros ptr v1 He1 Hw1 (Hn & Hpo & Hg & _). eapply wp_map.
  { apply IH; [done| |done|by eapply forest_ext].
    intros HL. by destruct (proj1 (Forall_cons_iff _ _ _) (Hfit HL)). }
  intros ptrs v2 He2 Hw2 (Hgs & seps & (Em & Hs & Hf) & Ek).
  split; [by constructor|]. assert (He : ext v v2) by (by etrans).
  destruct p as [|e0 p]; [done|]. set (sep := mkEnt (e_k e0) [] ptr).
  assert (Hn2 : node_at v2 ptr (Z.of_nat h) (e0 :: p)) by exact (node_at_ext _ _ _ _ _ He2 Hn).
  assert (Hkl : zlen (e_k e0) <= BT_KEY_LIM).
  { apply forest_klen, Forall_cons_iff in Hf1 as [? _]. done. }
  exists (sep :: seps). split; [split; [cbn; by f_equal|split]|cbn [map]; by rewrite Ek].
  - constructor; [|done]. split; [done|]. split; [done|]. split.
    + by apply Forall_cons_iff in Hokp as [[? _] _].
    + by exists (Z.of_nat h), e0, p.
  - exists k1, k2. split; [done|]. split; [|done]. split; [done|].
    exists (e0 :: p). split; [done|]. split; [done|]. split; [apply key_le_refl|].
    replace (next seps hi) with (next (concat ps) hi); [exact (forest_ext _ _ _ _ _ _ He Hf1)|].
    destruct ps as [|p1 ps], seps as [|s1 seps]; try done.
    apply Forall_cons_iff in Hne as [Hp1 _]. destruct p1 as [|e1 p1]; [done|].
    cbn [map] in Ek. injection Ek as E _. cbn. by rewrite E.
Qed.

Lemma split3_single level e : bt_split3_point level [e] = None.
Proof.
  unfold bt_split3_point. destruct (bt_split_point level [e]) as [[|s]|] eqn:E; try done.
  change ((if negb (fits level []) || negb (fits level [e]) then None else Some 0%nat) = Some (S s))
    in E.
  by destruct (negb (fits level []) || negb (fits level [e])).
Qed.

Lemma head_key_concat ps : Forall (fun p => p <> []) ps -> head_key (concat ps) = head_key (hd [] ps).
Proof. destruct 1 as [|p ps Hp _]; [done|]. by destruct p. Qed.


(** Records that can be cut into two or three pages. *)
Definition cuttable (level : Z) (es : list bt_ent) : Prop :=
  exists a b c, es = a ++ b ++ c /\ a <> [] /\ b <> [] /\
    fits level a = true /\ fits level b = true /\ fits level c = true.

(** The pages a node turned into stand for the node's pairs. *)
Definition emitted h v gen (up : bt_up) (k0 : bytes) hi kvs : Prop :=
  up_level up = Z.of_nat h /\ Forall (fun p => bp_gen p = u64 gen) (up_ptrs up) /\
  exists seps, pages_of h v (up_ptrs up) seps hi kvs /\ (1 <= length seps <= 3)%nat /\
    head_key seps = k0.

Lemma wp_emit_pieces L h gen ps v hi kvs :
  Z.of_nat h < 2 ^ 16 -> (1 <= length ps <= 3)%nat ->
  Forall (fun p => p <> []) ps -> (L -> Forall (fun p => fits (Z.of_nat h) p = true) ps) ->
  Forall (ent_ok (Z.of_nat h)) (concat ps) -> forest (cell h v) (concat ps) hi kvs ->
  wp L (length ps)
    (let* ptrs := bt_write_all (Z.of_nat h) gen ps in mret (mkUp ptrs (Z.of_nat h))) v
    (fun up v' => emitted h v' gen up (head_key (concat ps)) hi kvs).
Proof.
  intros Hh Hlen Hne Hfit Hok Hf. eapply wp_map; [by apply wp_write_all|].
  intros ptrs v1 _ _ (Hg & seps & Hp & Ek). split; [done|]. split; [done|]. exists seps. cbn [up_ptrs].
  assert (El : length seps = length ps) by (by rewrite <- (length_map e_k), Ek, length_map).
  split; [done|]. split; [lia|]. rewrite head_key_concat by done.
  destruct seps as [|s0 seps], ps as [|p ps]; cbn in El, Hlen; try lia.
  cbn [map] in Ek. by injection Ek as E _.
Qed.

Lemma wp_emit L h gen es v hi kvs :
  Z.of_nat h < 2 ^ 16 -> es <> [] -> Forall (ent_ok (Z.of_nat h)) es ->
  (L -> fits (Z.of_nat h) es = true \/ cuttable (Z.of_nat h) es) ->
  forest (cell h v) es hi kvs ->
  wp L 3 (bt_emit (Z.of_nat h) gen es) v (fun up v' => emitted h v' gen up (head_key es) hi kvs).
Proof.
  intros Hh Hne Hok HL Hf. apply wp_wf. intros Hw. unfold bt_emit.
  destruct (fits (Z.of_nat h) es) eqn:Ef.
  - eapply (wp_eq _ _ _ (let* ptrs := bt_write_all (Z.of_nat h) gen [es] in mret (mkUp ptrs (Z.of_nat h)))).
    { unfold bt_write_all, mbind'. by destruct (bt_write _ _ _ _) as [[?|] ?]. }
    apply (wp_room L 1 3); [lia|].
    pose proof (wp_emit_pieces L h gen [es] v hi kvs) as H. cbn [concat] in H.
    rewrite app_nil_r in H. apply H; [done|cbn; lia| | |done|done]; by repeat constructor.
  - destruct (bt_split3_point (Z.of_nat h) es) as [cuts|] eqn:Ec.
    2: { apply wp_fail. intros [?|(a & b & c & E & ? & ? & ? & ? & ?)]%HL; [congruence|].
      destruct (split3_complete (Z.of_nat h) es a b c) as [? ?]; [done..|congruence]. }
    assert (H2 : (2 <= length es)%nat).
    { destruct es as [|e [|e' es]]; [done| |cbn; lia]. by rewrite split3_single in Ec. }
    destruct (split3_sound _ _ _ H2 Ec) as (Ecat & Hlen & Hps).
    apply (wp_room L (length (pieces cuts es)) 3); [lia|].
    pose proof (wp_emit_pieces L h gen (pieces cuts es) v hi kvs) as H. rewrite Ecat in H.
    apply H; [done|lia| | |done|done].
    + eapply Forall_impl; [|exact Hps]. by intros ? [].
    + intros _. eapply Forall_impl; [|exact Hps]. by intros ? [].
Qed.

(** *** Insertion into a leaf *)

(** Replacing or adding one record that fits a page leaves a cuttable run. *)
Lemma cut_one level l1 x l2 :
  fits level (l1 ++ l2) = true -> fits level [x] = true ->
  fits level (l1 ++ x :: l2) = true \/ cuttable level (l1 ++ x :: l2).
Proof.
  intros Hf Hx.
  assert (H1 : fits level l1 = true) by (eapply fits_sub; [|exact Hf]; by apply sublist_inserts_r).
  assert (H2 : fits level l2 = true) by (eapply fits_sub; [|exact Hf]; by apply sublist_inserts_l).
  destruct l1 as [|e1 l1], l2 as [|e2 l2]; [by left|right..].
  - exists [x], (e2 :: l2), []. split_and!; try done. by rewrite app_nil_r.
  - exists (e1 :: l1), [x], []. by split_and!.
  - exists (e1 :: l1), [x], (e2 :: l2). by split_and!.
Qed.

Definition kmin (key k0 : bytes) : bytes := if vol_key_cmp key k0 <? 0 then key else k0.

Lemma kmin_lt key k0 : key_lt key k0 -> kmin key k0 = key.
Proof. intros H. unfold kmin. by rewrite (proj2 (Z.ltb_lt _ _)) by (by apply key_cmp_lt). Qed.
Lemma kmin_ge key k0 : key_le k0 key -> kmin key k0 = k0.
Proof.
  intros H. unfold kmin. rewrite (proj2 (Z.ltb_ge _ _)); [done|].
  destruct (Z.le_gt_cases 0 (vol_key_cmp key k0)) as [?|E]; [done|].
  apply key_cmp_lt in E. by apply key_le_not_lt in H.
Qed.

Definition pair_ok (key val : bytes) : Prop :=
  bytes_ok key /\ zlen key <= BT_KEY_LIM /\ bytes_ok val /\ zlen val < 2 ^ 16.

Lemma pair_ent_ok key val : pair_ok key val -> ent_ok 0 (mkEnt key val null_ptr).
Proof.
  intros (Hk & Hl & Hv & Hvl). split; [done|]. cbn. unfold BT_KEY_LIM in Hl.
  split; [lia|]. done.
Qed.

(** A leaf's records with [x] between [l1] and [l2]. *)
Lemma leaf_splice v l1 x l2 hi :
  ksorted (map e_k l1) -> ksorted (map e_k l2) ->
  Forall (fun k => key_lt k (e_k x)) (map e_k l1) -> Forall (key_lt (e_k x)) (map e_k l2) ->
  Forall (fun e => zlen (e_k e) <= BT_KEY_LIM /\ below hi (e_k e)) (l1 ++ x :: l2) ->
  forest (cell 0 v) (l1 ++ x :: l2) hi (map pair_of (l1 ++ x :: l2)).
Proof.
  intros Hs1 Hs2 H1 H2 Hall. apply leaf_forest. split; [done|]. split; [|done].
  rewrite map_app. cbn [map]. apply ksorted_app. split; [done|].
  split; [by apply ksorted_cons|]. rewrite Forall_forall in H1, H2.
  intros a b Ha%list_elem_of_In Hb%list_elem_of_In. destruct Hb as [<-|Hb]; [by apply H1|].
  eapply key_lt_trans; [by apply H1|by apply H2].
Qed.

Lemma leaf_insert_spec v es hi kvs key val :
  forest (cell 0 v) es hi kvs -> es <> [] -> Forall (ent_ok 0) es -> fits 0 es = true ->
  pair_ok key val -> below hi key ->
  exists es', leaf_insert es key val = Some es' /\ es' <> [] /\ Forall (ent_ok 0) es' /\
    forest (cell 0 v) es' hi (kv_insert key val kvs) /\
    head_key es' = kmin key (head_key es) /\
    (fits 0 [mkEnt key val null_ptr] = true -> fits 0 es' = true \/ cuttable 0 es').
Proof.
  intros Hf Hne Hok Hfit Hp Hb. pose proof (pair_ent_ok _ _ Hp) as Hx.
  assert (Hlim : zlen key <= BT_KEY_LIM) by apply Hp.
  apply leaf_forest in Hf as (-> & Hs & Hes). unfold leaf_insert.
  destruct (leaf_pos es key Hs) as [H1 H2]. set (pos := bt_lower_bound es key) in *. clearbody pos.
  destruct (_ && _).
  - destruct H2 as (Hpos & Ek & E). rewrite Ek. set (x := mkEnt key val null_ptr) in *.
    eexists. split; [done|]. rewrite insert_take_drop by done.
    set (l1 := take pos es) in *. set (l2 := drop (S pos) es) in *. set (e := ent es pos) in *.
    clearbody l1 l2 e. clear Hpos. subst es. rewrite map_app in Hs. cbn [map] in Hs.
    apply ksorted_app in Hs as (Hs1 & Hs2 & _). apply ksorted_cons in Hs2 as [Hs2 Hgt].
    rewrite Forall_app, Forall_cons_iff in Hok, Hes. rewrite Ek in Hgt.
    split; [by destruct l1|]. split; [rewrite Forall_app, Forall_cons_iff; tauto|]. split.
    { rewrite map_app. cbn [map]. rewrite kv_insert_above by (by rewrite map_fst_pair).
      assert (kv_insert key val (pair_of e :: map pair_of l2) = map pair_of (x :: l2)) as ->.
      { cbn. by rewrite Ek, lex_refl. }
      rewrite <- map_app.
      apply leaf_splice; [done..|]. rewrite Forall_app, Forall_cons_iff. tauto. }
    split.
    { unfold head_key. destruct l1 as [|e1 l1]; cbn.
      - rewrite Ek. symmetry. apply kmin_ge, key_le_refl.
      - symmetry. apply kmin_ge, key_lt_le. by apply Forall_cons_iff in H1 as [? _]. }
    intros Hfx. apply cut_one; [|done]. eapply fits_sub; [|exact Hfit].
    by apply sublist_app, sublist_cons.
  - destruct H2 as [H2 Hpos]. set (x := mkEnt key val null_ptr) in *.
    pose proof (encoded_count 0 es Hfit).
    rewrite (proj2 (Z.leb_gt _ _)) by (unfold BT_MAX_ENTRIES; lia). eexists. split; [done|].
    pose proof (take_drop pos es) as E. set (l1 := take pos es) in *. set (l2 := drop pos es) in *.
    clearbody l1 l2. clear Hpos. subst es. rewrite map_app in Hs. apply ksorted_app in Hs as (Hs1 & Hs2 & _).
    rewrite Forall_app in Hok, Hes.
    split; [by destruct l1|]. split; [rewrite Forall_app, Forall_cons_iff; tauto|]. split.
    { rewrite map_app. rewrite <- (app_nil_l (map pair_of l2)).
      rewrite kv_insert_middle by (by rewrite map_fst_pair). cbn [kv_insert app].
      change ((key, val) :: map pair_of l2) with (map pair_of (x :: l2)). rewrite <- map_app.
      apply leaf_splice; [done..|]. rewrite Forall_app, Forall_cons_iff. tauto. }
    split; [|by intros; apply cut_one].
    unfold head_key. destruct l1 as [|e1 l1]; cbn.
    + destruct l2 as [|e2 l2]; [done|]. symmetry. apply kmin_lt. by apply Forall_cons_iff in H2 as [? _].
    + symmetry. apply kmin_ge, key_lt_le. by apply Forall_cons_iff in H1 as [? _].
Qed.

(** *** Insertion below an internal node *)

Lemma wp_separators L v seps :
  Forall (sep_ok v) seps -> (length seps <= 2)%nat ->
  wp L 0 (bt_separators (map e_child seps)) v (fun r _ => r = seps).
Proof.
  intros Hs Hl. destruct seps as [|s1 [|s2 [|s3 seps]]]; [by apply wp_ret| | |cbn in Hl; lia].
  - apply Forall_cons_iff in Hs as [(Hv & _ & _ & l1 & e1 & es1 & Hn1 & Ek1) _].
    eapply wp_map; [by eapply wp_first_key|]. intros k v1 _ _ ->. destruct s1. cbn in *. by subst.
  - apply Forall_cons_iff in Hs as [(Hv1 & _ & _ & l1 & e1 & es1 & Hn1 & Ek1) Hs].
    apply Forall_cons_iff in Hs as [(Hv2 & _ & _ & l2 & e2 & es2 & Hn2 & Ek2) _].
    cbn [map bt_separators]. eapply wp_bind0; [keep_auto|by eapply wp_first_key|].
    intros k2 v1 He1 _ ->. eapply wp_map.
    { eapply wp_first_key, node_at_ext; [exact He1|exact Hn1]. }
    intros k1 v2 _ _ ->. destruct s1, s2. cbn in *. by subst.
Qed.

Lemma cell_lower h v k c s hi kvs :
  cell (S h) v s hi kvs -> key_le k (e_k s) -> zlen k <= BT_KEY_LIM -> c = e_child s ->
  forall x, cell (S h) v (mkEnt k x c) hi kvs.
Proof.
  intros (_ & es & Hn & Hne & Hk & Hf) Hle Hl -> x. split; [done|]. exists es.
  split; [done|]. split; [done|]. split; [|done]. cbn [e_k]. eauto with keys.
Qed.

Lemma kmin_le key k0 : key_le (kmin key k0) k0.
Proof.
  unfold kmin. destruct (vol_key_cmp key k0 <? 0) eqn:E; [|apply key_le_refl].
  apply Z.ltb_lt, key_cmp_lt in E. by apply key_lt_le.
Qed.

Lemma kmin_mono key k0 k1 : key_le k0 k1 -> key_le (kmin key k0) (kmin key k1).
Proof.
  intros H. destruct (decide (key_lt key k1)) as [H1|H1].
  - rewrite (kmin_lt key k1) by done. destruct (decide (key_lt key k0)) as [H0|H0].
    + rewrite kmin_lt by done. apply key_le_refl.
    + apply key_le_not_lt in H0. by rewrite kmin_ge.
  - apply key_le_not_lt in H1. rewrite (kmin_ge key k1) by done. eapply key_le_trans; [apply kmin_le|done].
Qed.

Lemma rec_size_lim h e :
  zlen (e_k e) <= BT_KEY_LIM -> bt_rec_size (Z.of_nat (S h)) e <= 1050.
Proof.
  intros H. unfold bt_rec_size. rewrite level_S. unfold BT_KEY_LIM, BLKPTR_LEN in *. lia.
Qed.

(** Up to three records with limited keys fit a page. *)
Lemma fits_three h es :
  (length es <= 3)%nat -> Forall (fun e => zlen (e_k e) <= BT_KEY_LIM) es ->
  fits (Z.of_nat (S h)) es = true.
Proof.
  intros Hl Hk. apply fits_iff. cut (recs_size (Z.of_nat (S h)) es <= 1050 * zlen es).
  { unfold PAGE_HDR, INVFS_BLOCK_SIZE. lia. }
  clear Hl. induction Hk as [|e es He _ IH]; [done|]. cbn [recs_size foldr length].
  fold (recs_size (Z.of_nat (S h)) es). pose proof (rec_size_lim h e He). lia.
Qed.

(** The records of an internal node after one child became [e' :: more]. *)
Lemma node_splice h v l1 e e' more l2 hi k1 kc k2 :
  forest (cell h v) l1 (Some (e_k e)) k1 -> forest (cell h v) l2 hi k2 ->
  forest (cell h v) (e' :: more) (next l2 hi) kc -> (l1 = [] \/ e_k e' = e_k e) ->
  forest (cell h v) (l1 ++ e' :: more ++ l2) hi (k1 ++ kc ++ k2).
Proof.
  intros H1 H2 Hc Hk. change (e' :: more ++ l2) with ((e' :: more) ++ l2).
  apply forest_app. exists k1, (kc ++ k2). split; [done|]. split.
  - cbn [next app]. destruct Hk as [-> | ->]; [|done]. cbn in H1. by subst k1.
  - apply forest_app. by exists kc, k2.
Qed.

Lemma splice_fits h l1 e e' more l2 :
  fits (Z.of_nat (S h)) (l1 ++ e :: l2) = true ->
  (length more <= 2)%nat -> Forall (fun x => zlen (e_k x) <= BT_KEY_LIM) (e' :: more) ->
  (l1 = [] \/ e_k e' = e_k e) ->
  fits (Z.of_nat (S h)) (l1 ++ e' :: more ++ l2) = true \/
  cuttable (Z.of_nat (S h)) (l1 ++ e' :: more ++ l2).
Proof.
  set (lv := Z.of_nat (S h)). intros Hf Hm Hk Hl.
  assert (H2 : fits lv l2 = true).
  { eapply fits_sub; [|exact Hf]. by apply sublist_inserts_l, sublist_cons. }
  assert (Hmore : fits lv more = true).
  { apply fits_three; [lia|]. by apply Forall_cons_iff in Hk as [_ ?]. }
  destruct l1 as [|e1 l1].
  - destruct l2 as [|e2 l2].
    + left. rewrite app_nil_r. by apply fits_three; [cbn; lia|].
    + right. exists (e' :: more), (e2 :: l2), []. split; [by rewrite app_nil_r|].
      split_and!; try done. by apply fits_three; [cbn; lia|].
  - destruct Hl as [?|Hl]; [done|].
    assert (Hsize : bt_rec_size lv e' = bt_rec_size lv e).
    { unfold bt_rec_size, lv. rewrite level_S. by rewrite Hl. }
    set (a := e1 :: l1) in *.
    destruct more as [|m more].
    + left. rewrite fits_iff in *. rewrite recs_size_app in *. cbn in *. lia.
    + right. exists (a ++ [e']), (m :: more), l2. split; [by rewrite <- app_assoc|].
      split_and!; try done.
      rewrite fits_iff in *. rewrite recs_size_app in *. cbn [recs_size foldr] in *.
      pose proof (recs_size_min lv l2). unfold recs_size in *. lia.
Qed.



Lemma sep_ent_ok h v e :
  sep_ok v e -> zlen (e_k e) <= BT_KEY_LIM -> ent_ok (Z.of_nat (S h)) e.
Proof.
  intros (Hv & Hp & Hb & _) Hk. unfold ent_ok. rewrite level_S. unfold BT_KEY_LIM in Hk.
  split; [done|]. split; [lia|done].
Qed.

Lemma cell_node h v e hi kvs es :
  cell (S h) v e hi kvs -> node_at v (e_child e) (Z.of_nat h) es ->
  es <> [] /\ key_le (e_k e) (head_key es) /\ forest (cell h v) es hi kvs.
Proof.
  intros (_ & es' & (_ & _ & _ & _ & _ & _ & Hd') & ?) (_ & _ & _ & _ & _ & _ & Hd).
  rewrite Hd in Hd'. by injection Hd' as <-.
Qed.

(** Everything the parent needs of its new records. *)
Lemma node_grow h v l1 ei l2 s0 more hi k1 kc k2 key :
  let lv := Z.of_nat (S h) in
  let es' := l1 ++ mkEnt (kmin key (e_k ei)) [] (e_child s0) :: more ++ l2 in
  Forall (ent_ok lv) (l1 ++ ei :: l2) -> fits lv (l1 ++ ei :: l2) = true ->
  zlen (e_k ei) <= BT_KEY_LIM -> bytes_ok key -> zlen key <= BT_KEY_LIM ->
  forest (cell (S h) v) l1 (Some (e_k ei)) k1 -> forest (cell (S h) v) l2 hi k2 ->
  Forall (sep_ok v) (s0 :: more) -> forest (cell (S h) v) (s0 :: more) (next l2 hi) kc ->
  (length more <= 2)%nat -> (l1 = [] \/ key_le (e_k ei) key) ->
  key_le (kmin key (e_k ei)) (e_k s0) ->
  es' <> [] /\ Forall (ent_ok lv) es' /\ forest (cell (S h) v) es' hi (k1 ++ kc ++ k2) /\
  (fits lv es' = true \/ cuttable lv es') /\ zlen es' <= BT_MAX_ENTRIES /\
  head_key es' = kmin key (head_key (l1 ++ ei :: l2)).
Proof.
  intros lv es' Hok Hfit Hki Hkb Hkl Hf1 Hf2 Hsep Hfs Hm Hlo Hle.
  set (e' := mkEnt (kmin key (e_k ei)) [] (e_child s0)) in es'.
  assert (Hke : l1 = [] \/ e_k e' = e_k ei).
  { destruct Hlo as [|Hlo]; [by left|right]. by apply kmin_ge. }
  assert (Hkmin : zlen (kmin key (e_k ei)) <= BT_KEY_LIM) by (unfold kmin; by destruct (_ <? _)).
  pose proof (forest_klen _ _ _ _ _ Hfs) as Hkm. apply Forall_cons_iff in Hkm as [_ Hkm].
  pose proof (encoded_count lv _ Hfit) as Hcnt. rewrite length_app in Hcnt. cbn [length] in Hcnt.
  destruct Hfs as (ka & kb & -> & Hc0 & Hfm).
  assert (Hc' : cell (S h) v e' (next more (next l2 hi)) ka) by (by eapply cell_lower).
  split; [unfold es'; by destruct l1|]. split.
  { rewrite Forall_app, Forall_cons_iff in Hok. apply Forall_cons_iff in Hsep as [Hs0 Hsep].
    destruct Hok as (Hok1 & Hoki & Hok2). apply Forall_app. split; [done|].
    apply Forall_cons_iff. split; [|apply Forall_app; split; [|done]].
    - unfold ent_ok, lv. rewrite level_S. unfold BT_KEY_LIM in *. cbn.
      split; [|split; [lia|split; [done|apply Hs0]]]. unfold kmin. destruct (_ <? _); [done|apply Hoki].
    - clear -Hsep Hkm. induction Hsep as [|e more He _ IH]; [constructor|].
      apply Forall_cons_iff in Hkm as [? ?]. constructor; [by eapply sep_ent_ok|by apply IH]. }
  split.
  { eapply (node_splice _ _ _ ei); [done|done| |done]. by exists ka, kb. }
  split.
  { apply (splice_fits h l1 ei); [done|done| |done]. by constructor. }
  split.
  { unfold es', BT_MAX_ENTRIES. rewrite length_app. cbn [length]. rewrite length_app. lia. }
  unfold es', head_key. destruct l1 as [|e1 l1]; [done|]. cbn. symmetry.
  destruct Hlo as [?|Hlo]; [done|]. apply kmin_ge, key_lt_le. eapply key_lt_le_trans; [|exact Hlo].
  apply cells_bounded in Hf1 as (Hne & _ & Hb). destruct k1 as [|[k x] k1]; [done|].
  cbn in Hb. apply Forall_cons_iff in Hb as [[] _]. eauto with keys.
Qed.

Lemma wp_ins L fuel h v e hi kvs key val gen es :
  cell (S h) v e hi kvs -> node_at v (e_child e) (Z.of_nat h) es ->
  pair_ok key val -> below hi key -> (h < fuel)%nat -> Z.of_nat h < 2 ^ 16 ->
  (L -> fits 0 [mkEnt key val null_ptr] = true) ->
  wp L (3 * S h) (bt_ins_rec fuel (e_child e) key val gen) v
    (fun up v' => emitted h v' gen up (kmin key (head_key es)) hi (kv_insert key val kvs)).
Proof.
  intros Hc Hn Hp Hb Hfu Hh HL. revert v e hi kvs es fuel Hc Hn Hb Hfu.
  induction h as [|h IH]; intros v e hi kvs es [|fuel] Hc Hn Hb Hfu; try lia;
    cbn [bt_ins_rec]; destruct (cell_node _ _ _ _ _ _ Hc Hn) as (Hne & Hk0 & Hf);
    destruct (node_at_ok _ _ _ _ Hn) as (Hok & Hfit & _);
    (eapply wp_bind0; [keep_auto|by apply wp_bt_read|]); intros nd v1 He1 Hw1 ->.
  - cbn [Z.of_nat]. change (0 =? INVFS_PAGE_LEVEL_LEAF) with true. cbv iota.
    destruct (leaf_insert_spec v es hi kvs key val) as (es' & -> & Hne' & Hok' & Hf' & <- & Hcut); [done..|].
    apply (wp_emit L 0 gen es'); [done|done|done|auto|]. by eapply forest_ext.
  - rewrite level_S. destruct (child_split _ _ _ _ _ key Hf Hne Hb)
      as (k1 & kc & k2 & -> & E & Hi & Hf1 & Hcell & Hf2 & Hb' & Hlo & H1 & H2).
    set (i := bt_child_index es key) in *. clearbody i.
    set (l1 := take i es) in *. set (l2 := drop (S i) es) in *. set (ei := ent es i) in *.
    pose proof Hcell as (_ & esc & Hnc & _ & Hkc & _).
    eapply (wp_bind L (3 * S h) 3); [lia|keep_auto| |].
    { apply (IH ltac:(lia) v1 ei (next l2 hi) kc esc fuel);
        [by eapply cell_ext|by eapply node_at_ext|done|lia]. }
    intros cu v2 He2 Hw2 (_ & _ & seps & (Em & Hsep & Hfs) & Hlen & Ehd).
    destruct seps as [|s0 more]; [cbn in Hlen; lia|]. cbn [map] in Em. rewrite <- Em.
    apply Forall_cons_iff in Hsep as [Hs0 Hmore]. cbn [length] in Hlen.
    eapply wp_bind0; [keep_auto|apply wp_separators; [done|lia]|].
    intros r v3 He3 Hw3 ->.
    assert (He13 : ext v v3) by (etrans; [exact He1|]; by etrans).
    destruct (node_grow h v3 l1 ei l2 s0 more hi k1 (kv_insert key val kc) k2 key)
      as (Gne & Gok & Gf & Gc & Gn & Gh); try done.
    { by rewrite <- E. } { by rewrite <- E. } { by destruct Hcell. } { apply Hp. } { apply Hp. }
    { exact (forest_ext _ _ _ _ _ _ He13 Hf1). } { exact (forest_ext _ _ _ _ _ _ He13 Hf2). }
    { constructor; [exact (sep_ok_ext _ _ _ He3 Hs0)|].
      eapply Forall_impl; [|exact Hmore]. intros x. by apply sep_ok_ext. }
    { exact (forest_ext _ _ _ _ _ _ He3 Hfs). } { lia. }
    { destruct Hlo as [->|?]; [by left|by right]. }
    { change (e_k s0) with (head_key (s0 :: more)). rewrite Ehd. by apply kmin_mono. }
    assert (Ee : set_e_child (e_child s0)
              (if vol_key_cmp key (e_k ei) <? 0 then set_e_k key ei else ei)
              = mkEnt (kmin key (e_k ei)) [] (e_child s0)).
    { assert (Hv : e_v ei = []).
      { rewrite E, Forall_app, Forall_cons_iff in Hok. destruct Hok as (_ & (_ & _ & Hv) & _).
        rewrite level_S in Hv. apply Hv. }
      unfold kmin, set_e_child, set_e_k. destruct (_ <? _); cbn; by rewrite Hv. }
    rewrite Ee. apply wp_guard.
    { intros _. destruct (map e_child more); [done|]. by apply Z.leb_le. }
    intros _. rewrite kv_insert_middle by done. rewrite <- E in Gh. rewrite <- Gh.
    by apply (wp_emit L (S h) gen).
Qed.

(** *** The root *)

(** A root pointer and what it stands for; the null root is the empty tree.
    [n] is the number of levels. *)
Definition root_at (n : nat) v (root : invfs_blkptr) (kvs : list kv) : Prop :=
  match n with
  | O => bp_pba root = 0 /\ kvs = []
  | S h => tree h v root kvs
  end.

Lemma root_at_ext n v v' root kvs : ext v v' -> root_at n v root kvs -> root_at n v' root kvs.
Proof. destruct n; [done|]. apply cell_ext. Qed.

Lemma root_at_sorted n v root kvs : root_at n v root kvs -> ksorted (map fst kvs).
Proof. destruct n; [intros [_ ->]; constructor|]. by intros (_ & ? & _)%cell_bounded. Qed.

Lemma tree_mark h v p kvs : tree h v (mark_root p) kvs <-> tree h v p kvs.
Proof. done. Qed.

(** The first page of a list of pages that is the only one. *)
Lemma single_tree h v s kvs : forest (cell (S h) v) [s] None kvs -> tree h v (e_child s) kvs.
Proof.
  intros (k1 & k2 & -> & Hc & ->). rewrite app_nil_r.
  eapply cell_lower; [exact Hc|apply key_nil_le|done|done].
Qed.

(** A root over the pages of the old root. *)
Lemma root_over h v seps r kvs :
  node_at v r (Z.of_nat (S h)) seps -> seps <> [] -> forest (cell (S h) v) seps None kvs ->
  tree (S h) v r kvs.
Proof.
  intros Hn Hne Hf. split; [done|]. exists seps. split; [done|]. split; [done|].
  split; [apply key_nil_le|done].
Qed.


Lemma wp_root_seps L v seps :
  Forall (sep_ok v) seps -> wp L 0 (bt_root_seps (map e_child seps)) v (fun r _ => r = seps).
Proof.
  revert v. induction seps as [|s seps IH]; intros v Hs; cbn [map bt_root_seps]; [by apply wp_ret|].
  apply Forall_cons_iff in Hs as [(Hv & _ & _ & l & e & es & Hn & Ek) Hs].
  eapply wp_bind0; [keep_auto|by eapply wp_first_key|]. intros k v1 He1 _ ->.
  eapply wp_map.
  { apply IH. eapply Forall_impl; [|exact Hs]. intros x. by apply sep_ok_ext. }
  intros r v2 _ _ ->. destruct s. cbn in *. by subst.
Qed.

Lemma seps_ent_ok h v seps hi kvs :
  Forall (sep_ok v) seps -> forest (cell (S h) v) seps hi kvs ->
  Forall (ent_ok (Z.of_nat (S h))) seps.
Proof.
  intros Hs Hf%forest_klen. induction Hs as [|e seps He _ IH]; [constructor|].
  apply Forall_cons_iff in Hf as [? ?]. constructor; [by eapply sep_ent_ok|by apply IH].
Qed.

Lemma wp_new_root L h v gen seps kvs :
  Forall (sep_ok v) seps -> forest (cell (S h) v) seps None kvs -> (1 <= length seps <= 3)%nat ->
  Z.of_nat (S h) < 2 ^ 16 ->
  wp L 1 (bt_new_root gen (mkUp (map e_child seps) (Z.of_nat h))) v
    (fun r v' => tree (S h) v' r kvs /\ bp_gen r = u64 gen).
Proof.
  intros Hs Hf Hl Hh. unfold bt_new_root. cbn [up_ptrs up_level].
  eapply wp_bind0; [auto with keeps|by apply wp_root_seps|]. intros re v1 He1 Hw1 ->.
  replace (Z.of_nat h + 1) with (Z.of_nat (S h)) by lia.
  assert (Hf1 : forest (cell (S h) v1) seps None kvs) by (by eapply forest_ext).
  eapply wp_post.
  { apply wp_bt_write; [lia| | |].
    - by eapply seps_ent_ok.
    - intros _. apply fits_three; [lia|]. by eapply forest_klen.
    - intros _. by eapply (forest_nonnull (S h)). }
  intros r v2 He2 Hw2 (Hn & _ & Hg & _). split; [|done]. eapply root_over; [exact Hn|by intros ->; cbn in Hl; lia|].
  exact (forest_ext _ _ _ _ _ _ He2 Hf1).
Qed.


(** Pages an insertion may take. *)
Definition upsert_room (n : nat) : nat := 3 * n + 1.

(** The generation an update gives to the pages it writes. *)
Definition next_gen (root : invfs_blkptr) : Z := u64 ((if bp_pba root =? 0 then 0 else bp_gen root) + 1).

Lemma u64_idem x : u64 (u64 x) = u64 x.
Proof. apply u64_small, u64_range. Qed.

Lemma wp_upsert L n v root kvs key val :
  root_at n v root kvs -> Z.of_nat n < 2 ^ 16 - 1 -> pair_ok key val ->
  (L -> fits 0 [mkEnt key val null_ptr] = true) ->
  wp L (upsert_room n) (btree_upsert root key val) v (fun root' v' =>
    bp_gen root' = next_gen root /\
    exists n', (n <= n' <= S n)%nat /\ root_at n' v' root' (kv_insert key val kvs)).
Proof.
  intros Hr Hn Hp HL. apply wp_wf. intros Hw. unfold btree_upsert. fold (next_gen root).
  assert (Hgen : u64 (next_gen root) = next_gen root) by apply u64_idem.
  set (gen := next_gen root) in *. clearbody gen.
  destruct n as [|h].
  - destruct Hr as [-> ->]. cbn [Z.eqb]. eapply wp_map.
    { apply (wp_bt_write L v 0); [done| |done|done].
      constructor; [by apply pair_ent_ok|constructor]. }
    intros r v1 He Hw1 (Hnd & _ & Hg & _). split; [cbn; congruence|]. exists 1%nat. split; [lia|]. split; [done|].
    eexists. split; [exact Hnd|]. split; [done|]. split; [apply key_nil_le|].
    exists [(key, val)], []. split; [done|]. split; [|done]. split; [apply Hp|done].
  - pose proof Hr as (_ & es & Hnd & _).
    rewrite !(proj2 (Z.eqb_neq (bp_pba root) 0)) by (by apply (node_live _ _ _ _ Hw Hnd)).
    eapply (wp_bind L (3 * S h) 1); [unfold upsert_room; lia|keep_auto| |].
    { apply (wp_ins L BT_FUEL h v (mkEnt [] [] root) None kvs key val gen es); try done.
      - unfold BT_FUEL. lia.
      - lia. }
    intros up v1 He1 Hw1 (El & Hg & seps & (Em & Hs & Hf) & Hlen & _).
    destruct up as [ptrs lvl]. cbn [up_level up_ptrs] in *. subst lvl.
    assert (Hmany : (2 <= length seps)%nat -> wp L 1
              (let* r := bt_new_root gen (mkUp ptrs (Z.of_nat h)) in mret (mark_root r)) v1
              (fun root' v' => bp_gen root' = gen /\ exists n', (S h <= n' <= S (S h))%nat /\
                 root_at n' v' root' (kv_insert key val kvs))).
    { intros H2. subst ptrs. eapply wp_map; [apply wp_new_root; [done|exact Hf|lia|lia]|].
      intros r v2 _ _ [Ht Hr']. split; [cbn; congruence|]. exists (S (S h)). split; [lia|done]. }
    destruct seps as [|s1 [|s2 seps]]; [cbn in Hlen; lia| |].
    + cbn in Em. subst ptrs. apply (wp_room L 0 1); [lia|].
      apply wp_ret. apply Forall_cons_iff in Hg as [Hg _]. split; [cbn; congruence|].
      exists (S h). split; [lia|]. by apply single_tree.
    + cbn [map] in Em. rewrite <- Em in *. apply Hmany. cbn. lia.
Qed.

(** *** Deletion *)

Definition below_sub (hi hi' : option bytes) : Prop := forall k, below hi k -> below hi' k.

Lemma below_sub_le k k' : key_le k k' -> below_sub (Some k) (Some k').
Proof. intros H x Hx. cbn in *. eauto with keys. Qed.

(** The bound of a run may grow. *)
Lemma forest_weaken h v es hi hi' kvs :
  below_sub hi hi' -> forest (cell h v) es hi kvs -> forest (cell h v) es hi' kvs.
Proof.
  intros Hs. assert (Hn : forall es, below_sub (next es hi) (next es hi')) by (intros [|]; [done|by intros ?]).
  clear Hs. revert hi hi' es kvs Hn. induction h as [|h IHh]; intros hi hi' es kvs Hn;
    (revert kvs; induction es as [|e es IH]; intros kvs; [done|]);
    intros (k1 & k2 & -> & (Hl & Hc) & Hf); exists k1, k2; (split; [done|]); (split; [|by apply IH]);
    (split; [done|]).
  - destruct Hc as [-> Hb]. split; [done|]. by apply Hn.
  - destruct Hc as (es' & Hnd & Hne & Hk & Hf'). exists es'. split; [done|]. split; [done|].
    split; [done|]. eapply IHh; [|exact Hf']. intros [|e' t]; [apply Hn|by intros ?].
Qed.

(** A run of records replaced by another that starts no lower. *)
Lemma forest_replace h v l1 k mid l2 hi k1 kc k2 :
  forest (cell h v) l1 (Some k) k1 -> forest (cell h v) mid (next l2 hi) kc ->
  forest (cell h v) l2 hi k2 -> below_sub (Some k) (next (mid ++ l2) hi) ->
  forest (cell h v) (l1 ++ mid ++ l2) hi (k1 ++ kc ++ k2).
Proof.
  intros H1 Hm H2 Hb. apply forest_app. exists k1, (kc ++ k2). split; [done|].
  split; [by eapply forest_weaken|]. apply forest_app. by exists kc, k2.
Qed.

(** What [bt_del_rec] reports about a node of level [h] with pairs [kvs]. *)
Definition deleted h v gen (dn : bt_dn) (key k0 : bytes) hi kvs : Prop :=
  if dn_changed dn then
    match dn_node dn with
    | None => kv_delete key kvs = []
    | Some p => bp_gen p = u64 gen /\ exists es, node_at v p (Z.of_nat h) es /\ es <> [] /\ ptr_ok p /\
        key_le k0 (head_key es) /\ forest (cell h v) es hi (kv_delete key kvs)
    end
  else kv_delete key kvs = kvs.


Lemma wp_del_emit L h v gen is_root es hi kvs key k0 :
  Z.of_nat h < 2 ^ 16 -> Forall (ent_ok (Z.of_nat h)) es -> (L -> fits (Z.of_nat h) es = true) ->
  forest (cell h v) es hi (kv_delete key kvs) -> (es <> [] -> key_le k0 (head_key es)) ->
  wp L 1 (bt_del_emit (Z.of_nat h) gen is_root es) v
    (fun dn v' => deleted h v' gen dn key k0 hi kvs).
Proof.
  intros Hh Hok Hfit Hf Hk. apply wp_wf. intros Hw. destruct es as [|e es].
  - apply (wp_room L 0 1); [lia|]. by apply wp_ret.
  - cbn [bt_del_emit]. eapply wp_map; [apply wp_bt_write; [lia|done|done|by eapply forest_nonnull]|].
    intros p v1 He Hw1 (Hn & Hp & Hg & _). split; [done|]. exists (e :: es). split; [done|]. split; [done|].
    split; [done|]. split; [by apply Hk|]. by eapply forest_ext.
Qed.

(** The leaf without [key]. *)
Lemma leaf_delete_spec v es hi kvs key :
  forest (cell 0 v) es hi kvs ->
  let pos := bt_lower_bound es key in
  if (pos <? length es)%nat && (bt_cmp_key (ent es pos) key =? 0)
  then forest (cell 0 v) (delete pos es) hi (kv_delete key kvs) /\
       (delete pos es <> [] -> key_le (head_key es) (head_key (delete pos es)))
  else kv_delete key kvs = kvs.
Proof.
  intros Hf pos. apply leaf_forest in Hf as (-> & Hs & Hes). destruct (leaf_pos es key Hs) as [H1 H2].
  fold pos in H1, H2 |- *. clearbody pos. destruct (_ && _).
  - destruct H2 as (Hpos & Ek & E). rewrite list.delete_take_drop.
    set (l1 := take pos es) in *. set (l2 := drop (S pos) es) in *. set (e := ent es pos) in *.
    clearbody l1 l2 e. clear Hpos. subst es. rewrite map_app in Hs. cbn [map] in Hs.
    apply ksorted_app in Hs as (Hs1 & Hs2 & _). apply ksorted_cons in Hs2 as [Hs2 Hgt].
    rewrite Ek in Hgt. rewrite Forall_app, Forall_cons_iff in Hes. split.
    + apply leaf_forest. split; [|split].
      * rewrite !map_app. cbn [map]. rewrite (kv_delete_app key), (kv_delete_absent key (map _ l1))
          by (rewrite map_fst_pair; by apply not_in_gt).
        unfold kv_delete at 1. rewrite filter_cons_False by (cbn; tauto).
        f_equal. apply (kv_delete_absent key). rewrite map_fst_pair. by apply not_in_lt.
      * rewrite map_app. apply ksorted_app. split; [done|]. split; [done|].
        rewrite Forall_forall in H1, Hgt. intros a b Ha%list_elem_of_In Hb%list_elem_of_In.
        eapply key_lt_trans; eauto.
      * rewrite Forall_app. tauto.
    + intros Hne. unfold head_key. destruct l1 as [|e1 l1]; [|apply key_le_refl].
      destruct l2 as [|e2 l2]; [done|]. cbn. rewrite Ek. apply key_lt_le.
      by apply Forall_cons_iff in Hgt as [? _].
  - destruct H2 as [H2 _]. apply kv_delete_absent. rewrite map_fst_pair.
    rewrite <- (take_drop pos es), map_app, not_elem_of_app.
    split; [by apply not_in_gt|by apply not_in_lt].
Qed.

(** *** Rebalancing two neighbours *)

Lemma seps_zip v seps :
  Forall (sep_ok v) seps ->
  zip_with (fun k p => mkEnt k [] p) (map e_k seps) (map e_child seps) = seps.
Proof.
  induction 1 as [|e seps (Hv & _) _ IH]; [done|]. cbn. rewrite IH. destruct e. cbn in *. by subst.
Qed.

Lemma head_key_drop s es : head_key (drop s es) = e_k (ent es s).
Proof. unfold head_key, ent. by rewrite !nth_lookup, lookup_drop, Nat.add_0_r. Qed.

Lemma head_key_take s es : (0 < s)%nat -> head_key (take s es) = head_key es.
Proof. intros H. destruct s; [lia|]. by destruct es. Qed.

(** The children [comb] stands for, rewritten. *)
Definition rewritten h v pe base (comb : list bt_ent) hi kvs (pe' : list bt_ent) : Prop :=
  exists seps, pe' = take base pe ++ seps ++ drop (base + 2) pe /\ (1 <= length seps <= 2)%nat /\
    Forall (sep_ok v) seps /\ forest (cell (S h) v) seps hi kvs /\ head_key seps = head_key comb.

Lemma wp_rewrite_pieces L h v gen pe base ps hi kvs :
  Z.of_nat h < 2 ^ 16 -> (1 <= length ps <= 2)%nat ->
  Forall (fun p => p <> []) ps -> (L -> Forall (fun p => fits (Z.of_nat h) p = true) ps) ->
  Forall (ent_ok (Z.of_nat h)) (concat ps) -> forest (cell h v) (concat ps) hi kvs ->
  wp L 2 (let* ptrs := bt_write_all (Z.of_nat h) gen ps in
          mret (take base pe ++ zip_with (fun k p => mkEnt k [] p) (map head_key ps) ptrs ++
                drop (base + 2) pe)) v
    (fun pe' v' => rewritten h v' pe base (concat ps) hi kvs pe').
Proof.
  intros Hh Hl Hne Hfit Hok Hf. apply (wp_room L (length ps) 2); [lia|].
  eapply (wp_map _ _ _ (fun ptrs => take base pe ++ _ ++ _)); [by apply wp_write_all|].
  intros ptrs v1 _ _ (_ & seps & (<- & Hs & Hf1) & Ek). exists seps.
  rewrite <- Ek, (seps_zip v1) by done. split; [done|].
  assert (El : length seps = length ps) by (by rewrite <- (length_map e_k), Ek, length_map).
  split; [lia|]. split; [done|]. split; [done|]. rewrite head_key_concat by done.
  destruct seps as [|s0 seps], ps as [|p ps]; cbn in El, Hl; try lia.
  cbn [map] in Ek. by injection Ek as E _.
Qed.


Lemma wp_rewrite_pair L h v gen pe base xs ys hi kvs :
  Z.of_nat h < 2 ^ 16 -> xs <> [] -> ys <> [] ->
  fits (Z.of_nat h) xs = true -> fits (Z.of_nat h) ys = true ->
  Forall (ent_ok (Z.of_nat h)) (xs ++ ys) -> forest (cell h v) (xs ++ ys) hi kvs ->
  wp L 2 (bt_rewrite_pair pe base (Z.of_nat h) gen (xs ++ ys)) v
    (fun pe' v' => rewritten h v' pe base (xs ++ ys) hi kvs pe').
Proof.
  intros Hh Hx Hy Fx Fy Hok Hf. unfold bt_rewrite_pair. set (comb := xs ++ ys) in *.
  assert (Hlen : (length xs + length ys = length comb)%nat) by (unfold comb; by rewrite length_app).
  assert (Hlx : (0 < length xs)%nat) by (destruct xs; [done|cbn; lia]).
  assert (Hly : (0 < length ys)%nat) by (destruct ys; [done|cbn; lia]).
  destruct (fits (Z.of_nat h) comb) eqn:Ef.
  - pose proof (wp_rewrite_pieces L h v gen pe base [comb] hi kvs Hh) as H. cbn [concat] in H.
    rewrite app_nil_r in H. eapply wp_eq; [|apply H].
    + unfold bt_write_all, mbind'. by destruct (bt_write _ _ _ _) as [[?|] ?].
    + cbn. lia.
    + repeat constructor. unfold comb. by destruct xs.
    + by repeat constructor.
    + done.
    + done.
  - destruct (split_point_complete (Z.of_nat h) comb (length xs)) as [s Es].
    { lia. } { unfold comb. by rewrite take_app_length. } { unfold comb. by rewrite drop_app_length. }
    rewrite Es. destruct (split_point_sound (Z.of_nat h) comb s) as (Hs & Fl & Fr); [lia|done|].
    apply wp_guard; [intros _; apply andb_true_iff; split; apply Nat.ltb_lt; lia|intros _].
    pose proof (wp_rewrite_pieces L h v gen pe base [take s comb; drop s comb] hi kvs Hh) as H.
    cbn [concat] in H. rewrite app_nil_r, take_drop in H. eapply wp_eq; [|apply H].
    + cbn [bt_write_all map zip_with]. rewrite head_key_drop, head_key_take by lia. unfold mbind'.
      destruct (bt_write _ _ _ v) as [[?|] v1]; [|done]. by destruct (bt_write _ _ _ v1) as [[?|] ?].
    + cbn. lia.
    + repeat constructor; apply nonempty; [rewrite length_take|rewrite length_drop]; lia.
    + by repeat constructor.
    + done.
    + done.
Qed.

(** Two neighbours of an internal node: [xs] and [ys] are their records. *)
Lemma pair_split h v pe base hi kvs :
  forest (cell (S h) v) pe hi kvs -> (S base < length pe)%nat ->
  exists l1 l2 xs ys k1 kc k2,
    let a := ent pe base in let b := ent pe (S base) in
    pe = l1 ++ a :: b :: l2 /\ length l1 = base /\ kvs = k1 ++ kc ++ k2 /\
    forest (cell (S h) v) l1 (Some (e_k a)) k1 /\ forest (cell (S h) v) l2 hi k2 /\
    (node_at v (e_child a) (Z.of_nat h) xs /\ xs <> [] /\ key_le (e_k a) (head_key xs)) /\
    (node_at v (e_child b) (Z.of_nat h) ys /\ ys <> []) /\
    forest (cell h v) (xs ++ ys) (next l2 hi) kc.
Proof.
  intros Hf Hb. destruct (forest_split _ _ _ _ _ base Hf) as (k1 & ka & k' & -> & E & H1 & Ha & H2); [lia|].
  assert (Ed : drop (S base) pe = ent pe (S base) :: drop (S (S base)) pe).
  { apply drop_S, ent_lookup_lt. lia. }
  rewrite Ed in E, Ha, H2. destruct H2 as (kb & k2 & -> & Hcb & H2).
  exists (take base pe), (drop (S (S base)) pe).
  destruct Ha as (_ & xs & Hnx & Hxne & Hkx & Hfx), Hcb as (_ & ys & Hny & Hyne & Hky & Hfy).
  exists xs, ys, k1, (ka ++ kb), k2. split; [done|]. split; [rewrite length_take; lia|].
  split; [by rewrite <- !app_assoc|]. split; [done|]. split; [done|]. split; [done|]. split; [done|].
  apply forest_app. exists ka, kb. split; [done|]. split; [|done].
  eapply forest_weaken; [|exact Hfx]. destruct ys as [|y ys]; [done|]. by apply below_sub_le.
Qed.

(** The parent's records with one or two children rewritten: what it stands
    for is [kvs], and the new separators are of limited length. *)
Definition reshaped h v (pe pe' : list bt_ent) hi kvs : Prop :=
  let lv := Z.of_nat (S h) in
  Forall (ent_ok lv) pe' /\ forest (cell (S h) v) pe' hi kvs /\
  (pe' <> [] -> key_le (head_key pe) (head_key pe')) /\
  recs_size lv pe' <= recs_size lv pe + 2 * BT_KEY_LIM.

Lemma recs_size_cons lv e es : recs_size lv (e :: es) = bt_rec_size lv e + recs_size lv es.
Proof. done. Qed.

Lemma rec_size_internal h e : bt_rec_size (Z.of_nat (S h)) e = 26 + zlen (e_k e).
Proof. unfold bt_rec_size. rewrite level_S. unfold BLKPTR_LEN. lia. Qed.

Lemma rewritten_reshaped h v l1 a b l2 comb hi k1 kc k2 pe' :
  Forall (ent_ok (Z.of_nat (S h))) (l1 ++ a :: b :: l2) ->
  forest (cell (S h) v) l1 (Some (e_k a)) k1 -> forest (cell (S h) v) l2 hi k2 ->
  key_le (e_k a) (head_key comb) ->
  rewritten h v (l1 ++ a :: b :: l2) (length l1) comb (next l2 hi) kc pe' ->
  reshaped h v (l1 ++ a :: b :: l2) pe' hi (k1 ++ kc ++ k2).
Proof.
  intros Hok H1 H2 Hk (seps & -> & Hl & Hs & Hf & Ehd). rewrite take_app_length.
  rewrite drop_app_ge by lia. replace (length l1 + 2 - length l1)%nat with 2%nat by lia.
  cbn [drop]. rewrite drop_0, Forall_app, !Forall_cons_iff in *. destruct Hok as (Hok1 & _ & _ & Hok2).
  pose proof (forest_klen _ _ _ _ _ Hf) as Hkl. destruct seps as [|s0 seps]; [cbn in Hl; lia|].
  assert (Hk0 : key_le (e_k a) (e_k s0)) by (change (e_k s0) with (head_key (s0 :: seps)); by rewrite Ehd).
  split; [|split; [|split]].
  - rewrite !Forall_app. split; [done|]. split; [|done]. by eapply seps_ent_ok.
  - eapply forest_replace; [done|done|done|]. by apply below_sub_le.
  - intros _. unfold head_key. destruct l1; [done|apply key_le_refl].
  - rewrite !recs_size_app, !recs_size_cons, !rec_size_internal.
    apply Forall_cons_iff in Hkl as [? Hkl].
    assert (E0 : recs_size (Z.of_nat (S h)) [] = 0) by done.
    destruct seps as [|s1 [|]]; [unfold BT_KEY_LIM in *; lia| |cbn in Hl; lia].
    apply Forall_cons_iff in Hkl as [? _]. rewrite recs_size_cons, rec_size_internal.
    unfold BT_KEY_LIM in *. lia.
Qed.


Lemma reshaped_refl h v pe hi kvs :
  Forall (ent_ok (Z.of_nat (S h))) pe -> forest (cell (S h) v) pe hi kvs -> reshaped h v pe pe hi kvs.
Proof.
  intros. split; [done|]. split; [done|]. split; [intros; apply key_le_refl|].
  unfold BT_KEY_LIM. lia.
Qed.

Lemma wp_rebalance L h v pe i gen hi kvs :
  Z.of_nat h < 2 ^ 16 -> (i < length pe)%nat -> Forall (ent_ok (Z.of_nat (S h))) pe ->
  forest (cell (S h) v) pe hi kvs ->
  wp L 2 (bt_rebalance pe i gen) v (fun pe' v' => reshaped h v' pe pe' hi kvs).
Proof.
  intros Hh Hi Hok Hf. unfold bt_rebalance. destruct (Nat.ltb_spec (length pe) 2) as [|H2].
  { apply (wp_room L 0 2); [lia|].
    by apply wp_ret, reshaped_refl. }
  set (j := if (S i <? length pe)%nat then S i else (i - 1)%nat).
  assert (Hj : (j = S i /\ S i < length pe)%nat \/ (i = S j /\ S j < length pe)%nat).
  { unfold j. destruct (Nat.ltb_spec (S i) (length pe)); lia. }
  clearbody j. set (base := if (i <? j)%nat then i else j).
  assert (Hbase : (S base < length pe)%nat) by (unfold base; destruct (Nat.ltb_spec i j); lia).
  destruct (pair_split h v pe base hi kvs Hf Hbase)
    as (l1 & l2 & xs & ys & k1 & kc & k2 & E & El & -> & H1 & Hf2 & (Hnx & Hxne & Hkx) & (Hny & Hyne) & Hxy).
  assert (Hxok := node_at_ok _ _ _ _ Hnx). assert (Hyok := node_at_ok _ _ _ _ Hny).
  assert (Hrew : forall v2, ext v v2 ->
    wp L 2 (bt_rewrite_pair pe base (Z.of_nat h) gen (xs ++ ys)) v2
      (fun pe' v' => reshaped h v' pe pe' hi (k1 ++ kc ++ k2))).
  { intros v2 He2. eapply wp_post.
    { apply wp_rewrite_pair; try tauto.
      - rewrite Forall_app. tauto.
      - exact (forest_ext _ _ _ _ _ _ He2 Hxy). }
    intros pe' v3 He3 _ Hr. assert (He : ext v v3) by (by etrans).
    set (a := ent pe base) in *. set (b := ent pe (S base)) in *. clearbody a b base.
    subst pe base. eapply rewritten_reshaped; [done| | | |exact Hr].
    - exact (forest_ext _ _ _ _ _ _ He H1).
    - exact (forest_ext _ _ _ _ _ _ He Hf2).
    - destruct xs; [done|exact Hkx]. }
  destruct Hj as [[-> _]|[-> _]].
  - unfold base in *. rewrite (proj2 (Nat.ltb_lt i (S i))) in * by lia.
    eapply wp_bind0; [keep_auto|by apply wp_bt_read|]. intros c v1 He1 _ ->.
    eapply wp_bind0; [keep_auto|apply wp_bt_read; exact (node_at_ext _ _ _ _ _ He1 Hny)|].
    intros c v2 He2 _ ->. apply wp_guard; [intros _; apply Z.eqb_refl|intros _].
    rewrite Nat.eqb_refl. apply Hrew. by etrans.
  - unfold base in *. rewrite (proj2 (Nat.ltb_ge (S j) j)) in * by lia.
    eapply wp_bind0; [keep_auto|by apply wp_bt_read|]. intros c v1 He1 _ ->.
    eapply wp_bind0; [keep_auto|apply wp_bt_read; exact (node_at_ext _ _ _ _ _ He1 Hnx)|].
    intros c v2 He2 _ ->. apply wp_guard; [intros _; apply Z.eqb_refl|intros _].
    rewrite (proj2 (Nat.eqb_neq j (S (S j)))) by lia. apply Hrew. by etrans.
Qed.

(** One record replaced by one that starts no lower. *)
Lemma record_reshaped h v l1 e e' l2 hi k1 kc k2 :
  Forall (ent_ok (Z.of_nat (S h))) (l1 ++ e :: l2) -> ent_ok (Z.of_nat (S h)) e' ->
  forest (cell (S h) v) l1 (Some (e_k e)) k1 -> cell (S h) v e' (next l2 hi) kc ->
  forest (cell (S h) v) l2 hi k2 -> key_le (e_k e) (e_k e') ->
  reshaped h v (l1 ++ e :: l2) (l1 ++ e' :: l2) hi (k1 ++ kc ++ k2).
Proof.
  intros Hok He' H1 Hc H2 Hk. rewrite Forall_app, Forall_cons_iff in Hok. split; [|split; [|split]].
  - rewrite Forall_app, Forall_cons_iff. tauto.
  - apply (forest_replace _ _ l1 (e_k e) [e'] l2); [done| |done|by apply below_sub_le].
    exists kc, []. by rewrite app_nil_r.
  - intros _. unfold head_key. destruct l1; [done|apply key_le_refl].
  - rewrite !recs_size_app, !recs_size_cons, !rec_size_internal. destruct Hc as [Hl _].
    unfold BT_KEY_LIM in *. lia.
Qed.

(** One record removed. *)
Lemma record_removed h v l1 e l2 hi k1 kc k2 :
  Forall (ent_ok (Z.of_nat (S h))) (l1 ++ e :: l2) ->
  forest (cell (S h) v) l1 (Some (e_k e)) k1 -> bounded (e_k e) (next l2 hi) kc ->
  forest (cell (S h) v) l2 hi k2 ->
  reshaped h v (l1 ++ e :: l2) (l1 ++ l2) hi (k1 ++ k2).
Proof.
  intros Hok H1 (Hne & _ & Hb) H2. destruct kc as [|[k x] kc]; [done|].
  apply Forall_cons_iff in Hb as [[Hk Hn] _]. cbn [fst] in Hk, Hn.
  rewrite Forall_app, Forall_cons_iff in Hok. split; [|split; [|split]].
  - rewrite Forall_app. tauto.
  - apply (forest_replace _ _ l1 (e_k e) [] l2 hi k1 [] k2); [done|done|done|].
    intros y Hy. cbn [app]. eapply below_le; [exact Hn|]. cbn in Hy. eauto with keys.
  - intros Hnl. unfold head_key. destruct l1; [|apply key_le_refl]. destruct l2 as [|e2 l2]; [done|].
    cbn in Hn |- *. eauto with keys.
  - rewrite !recs_size_app, recs_size_cons. pose proof (rec_size_min (Z.of_nat (S h)) e).
    unfold BT_KEY_LIM. lia.
Qed.


Lemma reshaped_from h v pe0 pe pe' hi kvs :
  head_key pe = head_key pe0 -> recs_size (Z.of_nat (S h)) pe = recs_size (Z.of_nat (S h)) pe0 ->
  reshaped h v pe pe' hi kvs -> reshaped h v pe0 pe' hi kvs.
Proof. unfold reshaped. by intros -> ->. Qed.

Lemma wp_del_fix L h v es i cd key gen k0 hi k1 kc k2 :
  Z.of_nat h < 2 ^ 16 -> (i < length es)%nat -> Forall (ent_ok (Z.of_nat (S h))) es ->
  forest (cell (S h) v) (take i es) (Some (e_k (ent es i))) k1 ->
  cell (S h) v (ent es i) (next (drop (S i) es) hi) kc ->
  forest (cell (S h) v) (drop (S i) es) hi k2 ->
  dn_changed cd = true -> deleted h v gen cd key k0 (next (drop (S i) es) hi) kc ->
  key_le (e_k (ent es i)) k0 ->
  wp L 2 (bt_del_fix es i cd key gen) v
    (fun es' v' => reshaped h v' es es' hi (k1 ++ kv_delete key kc ++ k2)).
Proof.
  intros Hh Hi Hok H1 Hc H2 Hch Hd Hk0. unfold deleted in Hd. rewrite Hch in Hd.
  pose proof (take_drop_middle es i _ (ent_lookup_lt es i Hi)) as E.
  assert (Li : length (take i es) = i) by (rewrite length_take; lia).
  assert (Hins : forall x y, <[i := y]> (<[i := x]> es) = take i es ++ y :: drop (S i) es).
  { intros x y. by rewrite list_insert_insert_eq, insert_take_drop. }
  assert (Hset : forall x, <[i := x]> es = take i es ++ x :: drop (S i) es).
  { intros x. by rewrite insert_take_drop. }
  unfold bt_del_fix. rewrite list.delete_take_drop. cbv zeta.
  set (l1 := take i es) in *. set (l2 := drop (S i) es) in *. set (e := ent es i) in *.
  destruct (dn_node cd) as [child|].
  2: { apply (wp_room L 0 2); [lia|]. apply wp_ret. rewrite Hd. rewrite <- E in Hok |- *. cbn [app].
    eapply record_removed; [done|done|by eapply cell_bounded|done]. }
  destruct Hd as (_ & ec & Hn & Hne & Hp & Hk & Hf).
  assert (Hcell : cell (S h) v (set_e_child child e) (next l2 hi) (kv_delete key kc)).
  { destruct Hc as [Hl _]. split; [done|]. exists ec. split; [done|]. split; [done|].
    split; [|exact Hf]. eapply key_le_trans; [exact Hk0|exact Hk]. }
  assert (Hoke : ent_ok (Z.of_nat (S h)) (set_e_child child e)).
  { rewrite <- E, Forall_app, Forall_cons_iff in Hok. destruct Hok as (_ & Hoke & _).
    unfold ent_ok in *. rewrite level_S in *. cbn. tauto. }
  assert (Hres : reshaped h v es (l1 ++ set_e_child child e :: l2) hi (k1 ++ kv_delete key kc ++ k2)).
  { rewrite <- E in Hok |- *. eapply record_reshaped; [done|done|done|done|done|apply key_le_refl]. }
  rewrite <- Hset in Hres. destruct (dn_underflow cd).
  - eapply wp_post.
    { apply wp_rebalance; [done| |apply Hres|apply Hres]. by rewrite length_insert. }
    intros pe v' _ _. rewrite Hset. apply reshaped_from.
    + rewrite <- E. unfold head_key. by destruct l1.
    + rewrite <- E. by rewrite !recs_size_app, !recs_size_cons, !rec_size_internal.
  - apply (wp_room L 0 2); [lia|]. destruct (_ =? 0); [|by apply wp_ret].
    destruct ec as [|c0 ec]; [done|]. eapply wp_map; [by eapply wp_first_key|].
    intros k v1 He1 _ ->. rewrite Hins.
    assert (Een : ent (<[i := set_e_child child e]> es) i = set_e_child child e).
    { apply ent_lookup. by apply list_lookup_insert_eq. }
    rewrite Een. rewrite <- E in Hok |- *. eapply record_reshaped; [done| | | | |].
    + destruct (node_at_ok _ _ _ _ Hn) as (Hokc & _). apply Forall_cons_iff in Hokc as [(Hb & Hl & _) _].
      unfold ent_ok in *. rewrite level_S in *. cbn in *. tauto.
    + exact (forest_ext _ _ _ _ _ _ He1 H1).
    + split; [by apply forest_klen, Forall_cons_iff in Hf as [? _]|]. exists (c0 :: ec).
      split; [exact (node_at_ext _ _ _ _ _ He1 Hn)|]. split; [done|]. split; [apply key_le_refl|].
      exact (forest_ext _ _ _ _ _ _ He1 Hf).
    + exact (forest_ext _ _ _ _ _ _ He1 H2).
    + eapply key_le_trans; [exact Hk0|exact Hk].
Qed.

(** Room for longer separators in every internal node: a deletion may have to
    replace two of them, and fails when the longer ones do not fit. *)
Fixpoint roomy (h : nat) v (ptr : invfs_blkptr) : Prop :=
  match h with
  | O => True
  | S h => exists es, node_at v ptr (Z.of_nat (S h)) es /\
      bt_used (Z.of_nat (S h)) es + 2 * BT_KEY_LIM <= INVFS_BLOCK_SIZE /\
      Forall (fun e => roomy h v (e_child e)) es
  end.

Lemma roomy_ext h v v' ptr : ext v v' -> roomy h v ptr -> roomy h v' ptr.
Proof.
  intros He. revert ptr. induction h as [|h IH]; intros ptr; cbn [roomy]; [done|].
  intros (es & Hn & Hu & Hr). exists es. split; [by eapply node_at_ext|]. split; [done|].
  eapply Forall_impl; [|exact Hr]. intros e. apply IH.
Qed.

Lemma roomy_node h v ptr es :
  node_at v ptr (Z.of_nat (S h)) es -> roomy (S h) v ptr ->
  bt_used (Z.of_nat (S h)) es + 2 * BT_KEY_LIM <= INVFS_BLOCK_SIZE /\
  Forall (fun e => roomy h v (e_child e)) es.
Proof.
  intros (_ & _ & _ & _ & _ & _ & Hd) (es' & (_ & _ & _ & _ & _ & _ & Hd') & H).
  rewrite Hd in Hd'. by injection Hd' as <-.
Qed.

Lemma kv_delete_middle k a b c :
  Forall (fun k' => key_lt k' k) (map fst a) -> Forall (key_lt k) (map fst c) ->
  kv_delete k (a ++ b ++ c) = a ++ kv_delete k b ++ c.
Proof.
  intros Ha Hc. rewrite !kv_delete_app. rewrite (kv_delete_absent k a) by (by apply not_in_gt).
  by rewrite (kv_delete_absent k c) by (by apply not_in_lt).
Qed.


Lemma wp_del L fuel h v e hi kvs key gen is_root es :
  cell (S h) v e hi kvs -> node_at v (e_child e) (Z.of_nat h) es ->
  below hi key -> (h < fuel)%nat -> Z.of_nat h < 2 ^ 16 -> (L -> roomy h v (e_child e)) ->
  wp L (3 * S h) (bt_del_rec fuel (e_child e) key gen is_root) v
    (fun dn v' => deleted h v' gen dn key (head_key es) hi kvs).
Proof.
  revert v e hi kvs is_root es fuel.
  induction h as [|h IH]; intros v e hi kvs is_root es [|fuel] Hc Hn Hb Hfu Hh HL; try lia;
    cbn [bt_del_rec]; destruct (cell_node _ _ _ _ _ _ Hc Hn) as (Hne & Hk0 & Hf);
    destruct (node_at_ok _ _ _ _ Hn) as (Hok & Hfit & _);
    (eapply wp_bind0; [keep_auto|by apply wp_bt_read|]); intros nd v1 He1 Hw1 ->.
  - cbn [Z.of_nat]. change (0 =? INVFS_PAGE_LEVEL_LEAF) with true. cbv iota.
    apply (forest_ext _ _ _ _ _ _ He1) in Hf.
    pose proof (leaf_delete_spec v1 es hi kvs key Hf) as Hd. cbv zeta in Hd.
    destruct (_ && _); cbn [negb].
    + apply (wp_room L 1 3); [lia|]. apply (wp_del_emit L 0); [done| | |apply Hd..].
      * by apply Forall_delete.
      * intros _. eapply fits_sub; [apply sublist_delete|exact Hfit].
    + apply (wp_room L 0 3); [lia|]. by apply wp_ret.
  - rewrite level_S. destruct (child_split _ _ _ _ _ key Hf Hne Hb)
      as (k1 & kc & k2 & -> & E & Hi & Hf1 & Hcell & Hf2 & Hb' & _ & H1 & H2).
    set (i := bt_child_index es key) in *. clearbody i.
    pose proof Hcell as (_ & ec & Hnc & _). destruct (cell_node _ _ _ _ _ _ Hcell Hnc) as (_ & Hkc & _).
    assert (HLc : L -> roomy h v1 (e_child (ent es i))).
    { intros l%HL. apply (roomy_node _ _ _ _ Hn) in l as [_ Hall]. apply (roomy_ext _ _ _ _ He1).
      rewrite E, Forall_app, Forall_cons_iff in Hall. tauto. }
    eapply (wp_bind L (3 * S h) 3); [lia|keep_auto| |].
    { eapply (IH v1 (ent es i)); [exact (cell_ext _ _ _ _ _ _ He1 Hcell)|
        exact (node_at_ext _ _ _ _ _ He1 Hnc)|done|lia|lia|done]. }
    intros cd v2 He2 Hw2 Hd. assert (He : ext v v2) by (by etrans).
    destruct (dn_changed cd) eqn:Ech; cbn [negb].
    2: { apply (wp_room L 0 3); [lia|]. apply wp_ret. unfold deleted in *. rewrite Ech in Hd. cbn.
      by rewrite kv_delete_middle, Hd. }
    eapply (wp_bind L 2 1); [lia|keep_auto| |].
    { eapply (wp_del_fix L h v2 es i cd key gen (head_key ec) hi k1 kc k2); try done; try lia.
      - exact (forest_ext _ _ _ _ _ _ He Hf1).
      - exact (cell_ext _ _ _ _ _ _ He Hcell).
      - exact (forest_ext _ _ _ _ _ _ He Hf2). }
    intros es' v3 He3 Hw3 (Rok & Rf & Rk & Rs). apply (wp_del_emit L (S h)); [done|done| | |done].
    + intros l%HL. apply (roomy_node _ _ _ _ Hn) in l as [Hu _]. apply fits_iff.
      rewrite bt_used_eq in Hu. lia.
    + by rewrite kv_delete_middle.
Qed.

(** *** The root after a deletion *)


Lemma wp_collapse L guard h v r kvs :
  tree h v r kvs ->
  wp L 0 (collapse_loop guard r) v (fun r' v' => exists h', (h' <= h)%nat /\ tree h' v' r' kvs).
Proof.
  revert h v r. induction guard as [|guard IH]; intros h v r Ht; cbn [collapse_loop].
  { apply wp_ret. by exists h. }
  apply wp_wf. intros Hw. pose proof Ht as (_ & es & Hn & Hne & _ & Hf). cbn [e_child] in Hn.
  rewrite (proj2 (Z.eqb_neq _ _)) by (by apply (node_live _ _ _ _ Hw Hn)).
  eapply wp_bind0; [keep_auto|by eapply wp_ps_read|]. intros pg v1 He1 Hw1 ->.
  pose proof Hn as (_ & Hlen & Hb & _ & _ & _ & Hd).
  destruct (decode_ok _ _ _ Hb Hlen Hd) as (_ & _ & <- & _ & <-).
  assert (Hsame : wp L 0 (mret r) v1 (fun r' v' => exists h', (h' <= h)%nat /\ tree h' v' r' kvs)).
  { apply wp_ret. exists h. split; [done|]. by eapply cell_ext. }
  destruct h as [|h]; [done|]. rewrite level_S. cbn [orb].
  destruct (Z.eqb_spec (zlen es) 1) as [E1|]; cbn [negb]; [|done].
  destruct es as [|e [|e' es]]; cbn in E1; [lia| |lia].
  rewrite (first_child_decode _ _ _ _ Hb Hlen Hd) by apply level_S.
  eapply wp_post; [apply (IH h v1)|].
  - apply single_tree. by eapply forest_ext.
  - intros r' v2 _ _ (h' & Hh & Ht'). exists h'. split; [lia|done].
Qed.

(** A page with a new generation decodes as before. *)
Lemma recopy_decode page gen :
  zlen page = INVFS_BLOCK_SIZE ->
  let p := put page 4 (le_bytes 8 gen) in
  zlen p = INVFS_BLOCK_SIZE /\ page_magic p = page_magic page /\ page_gen p = u64 gen /\
  bt_decode (mbuf_page_seal p) = bt_decode page.
Proof.
  intros Hlen p. assert (Hp : zlen p = INVFS_BLOCK_SIZE).
  { unfold p. rewrite length_put; [done|done|]. rewrite length_le_bytes, Hlen. by apply Z.leb_le. }
  assert (Hafter : forall o, (12 <= o)%nat -> drop o p = drop o page).
  { intros o Ho. apply drop_put_after; [done|rewrite length_le_bytes; lia|rewrite Hlen; done]. }
  split; [done|]. split; [|split].
  - unfold page_magic, p. apply slice_put_before; try done. rewrite Hlen. done.
  - unfold page_gen, field, p. rewrite slice_put_at; [apply le_val_bytes|by rewrite Hlen|].
    by rewrite length_le_bytes.
  - destruct (seal_header p Hp) as (_ & _ & El & En). unfold bt_decode. rewrite El, En.
    unfold page_nentries, page_level, field, slice. rewrite !Hafter by lia.
    unfold mbuf_page_seal. rewrite drop_put_after by (rewrite ?Hp; done).
    rewrite Hafter by (unfold PAGE_HDR; lia). done.
Qed.

Lemma wp_recopy L v ptr gen level es :
  node_at v ptr level es ->
  wp L 1 (bt_recopy ptr gen) v (fun p v' => node_at v' p level es /\ bp_gen p = u64 gen).
Proof.
  intros Hn. unfold bt_recopy. eapply wp_bind0; [keep_auto|by eapply wp_ps_read|].
  intros pg v1 He1 Hw1 ->. destruct Hn as (Hl & Hlen & Hb & _ & _ & Hv & Hd).
  destruct (recopy_decode _ gen Hlen) as (Hp & Hm & Hg & E).
  set (page := put _ 4 _) in *.
  assert (Hb' : bytes_ok page) by (apply put_ok; auto with invfs).
  apply andb_true_iff in Hv as [Hmag%bool_decide_eq_true _].
  eapply wp_post; [by apply wp_bt_put|]. intros p v2 _ _ (Ep & _ & Hlv & Hpg).
  split; [|rewrite Ep; cbn; destruct (seal_header page Hp) as (_ & -> & _); exact Hg].
  unfold node_at. rewrite Hpg. split; [done|]. split; [by apply length_seal|].
  split; [by apply seal_ok|]. rewrite Ep. split; [done|]. split; [done|].
  split; [apply seal_validates; [done|done|congruence]|]. congruence.
Qed.



(** Pages a deletion may take. *)
Definition delete_room (n : nat) : nat := 3 * n + 1.

Lemma wp_delete L n v root kvs key :
  root_at n v root kvs -> Z.of_nat n <= 2 ^ 16 -> (L -> roomy (n - 1) v root) ->
  wp L (delete_room n) (btree_delete root key) v (fun root' v' =>
    (root' = root \/ bp_gen root' = next_gen root) /\
    exists n', (n' <= n)%nat /\ root_at n' v' root' (kv_delete key kvs)).
Proof.
  intros Hr Hn HL. apply wp_wf. intros Hw. unfold btree_delete. destruct n as [|h].
  { destruct Hr as [Hp ->]. rewrite Hp. apply (wp_room L 0); [lia|]. apply wp_ret. split; [by left|]. exists O. by split. }
  pose proof Hr as (_ & es & Hnd & _). cbn [e_child] in Hnd.
  unfold next_gen. rewrite !(proj2 (Z.eqb_neq (bp_pba root) 0)) by (by apply (node_live _ _ _ _ Hw Hnd)).
  assert (Hgen : u64 (u64 (bp_gen root + 1)) = u64 (bp_gen root + 1)) by apply u64_idem.
  set (gen := u64 (bp_gen root + 1)) in *. eapply (wp_bind L (3 * S h) 1); [unfold delete_room; lia|keep_auto| |].
  { apply (wp_del L BT_FUEL h v (mkEnt [] [] root) None kvs key gen true es); try done; try lia.
    - unfold BT_FUEL. lia.
    - intros l%HL. by replace h with (S h - 1)%nat by lia. }
  intros dn v1 He1 Hw1 Hd. unfold deleted in Hd. destruct (dn_changed dn); cbn [negb].
  2: { apply (wp_room L 0); [lia|]. apply wp_ret. split; [by left|]. exists (S h). split; [done|]. rewrite Hd.
    by eapply root_at_ext. }
  destruct (dn_node dn) as [r|].
  2: { apply (wp_room L 0); [lia|]. apply wp_ret. split; [by right|]. exists O. split; [lia|done]. }
  destruct Hd as (_ & es' & Hn' & Hne' & _ & _ & Hf').
  eapply wp_bind0; [keep_auto|apply (wp_collapse L _ h)|].
  { split; [done|]. exists es'. split; [done|]. split; [done|]. split; [apply key_nil_le|done]. }
  intros r' v2 He2 Hw2 (h' & Hh' & Ht).
  pose proof Ht as (_ & es2 & Hn2 & Hne2 & _ & Hf2). cbn [e_child] in Hn2.
  apply wp_guard; [intros _; by apply negb_true_iff, Z.eqb_neq, (node_live _ _ _ _ Hw2 Hn2)|intros _].
  destruct (Z.eqb_spec (bp_gen r') gen) as [Eg|_].
  - apply (wp_room L 0); [lia|]. apply wp_ret. split; [by right|]. exists (S h'). split; [lia|done].
  - eapply wp_map; [by apply wp_recopy|]. intros p v3 He3 Hw3 [Hn3 Hg3]. split; [right; cbn; congruence|].
    exists (S h'). split; [lia|].
    apply tree_mark. split; [done|]. exists es2. split; [done|]. split; [done|].
    split; [apply key_nil_le|]. exact (forest_ext _ _ _ _ _ _ He3 Hf2).
Qed.

(** *** Scan *)

Section scan_proofs.
Context {C : Type} (cb : C -> bytes -> bytes -> Z * C).

(** The callback run over a list of pairs, up to its first non-zero answer. *)
Fixpoint run_cb (l : list kv) (c : C) : Z * C :=
  match l with
  | [] => (0, c)
  | (k, x) :: l => let '(rc, c) := cb c k x in if negb (rc =? 0) then (rc, c) else run_cb l c
  end.

(** The pairs of the half-open range. *)
Definition range (lo hi : bytes) (l : list kv) : list kv := filter (fun p => in_range lo hi p.1) l.

Lemma run_cb_app a b c :
  run_cb (a ++ b) c
  = let '(rc, c') := run_cb a c in if negb (rc =? 0) then (rc, c') else run_cb b c'.
Proof.
  revert c. induction a as [|[k x] a IH]; intros c; cbn [run_cb app]; [done|].
  destruct (cb c k x) as [rc c']. destruct (rc =? 0) eqn:E; cbn [negb]; [apply IH|]. by rewrite E.
Qed.

Lemma range_app lo hi a b : range lo hi (a ++ b) = range lo hi a ++ range lo hi b.
Proof. apply list.filter_app. Qed.

Lemma range_none lo hi l : Forall (fun k => ~ in_range lo hi k) (map fst l) -> range lo hi l = [].
Proof.
  unfold range. induction l as [|[k x] l IH]; [done|]. cbn [map fst].
  intros [H Hl]%Forall_cons_iff. rewrite filter_cons_False by done. by apply IH.
Qed.

Lemma under_spec k hi : under k hi = true <-> hi = [] \/ key_lt k hi.
Proof.
  unfold under. destruct hi as [|b hi]; [naive_solver|].
  rewrite Z.ltb_lt, key_cmp_lt. naive_solver.
Qed.

Lemma above_range lo hi k l :
  under k hi = false -> Forall (key_le k) (map fst l) -> range lo hi l = [].
Proof.
  intros Hu Hl. apply range_none. eapply Forall_impl; [|exact Hl]. intros x Hx [_ Hh].
  assert (H : under k hi = true); [|congruence]. apply under_spec.
  destruct Hh as [|Hh]; [by left|right]. eauto with keys.
Qed.

Lemma below_range lo hi k l :
  key_le k lo -> Forall (fun x => key_lt x k) (map fst l) -> range lo hi l = [].
Proof.
  intros Hk Hl. apply range_none. eapply Forall_impl; [|exact Hl]. intros x Hx [Hlo _].
  apply key_le_not_lt in Hlo. apply Hlo. exact (key_lt_le_trans _ _ _ Hx Hk).
Qed.

Lemma scan_leaf_spec es lo hi c :
  ksorted (map e_k es) -> scan_leaf cb es lo hi c = run_cb (range lo hi (map pair_of es)) c.
Proof.
  revert c. induction es as [|e es IH]; intros c Hs; [done|]. cbn [map] in Hs.
  pose proof Hs as [Hs' Hk]%ksorted_cons. cbn [scan_leaf map].
  set (skip := match lo with [] => false | _ => _ end).
  assert (Hskip : skip = true <-> key_lt (e_k e) lo).
  { unfold skip. destruct lo; [|rewrite Z.ltb_lt; apply key_cmp_lt].
    split; [done|]. intros H. by apply (key_le_not_lt [] (e_k e)) in H; [|apply key_nil_le]. }
  destruct skip.
  - rewrite IH by done. unfold range. rewrite filter_cons_False; [done|]. intros [Hlo _]. cbn in Hlo.
    apply key_le_not_lt in Hlo. apply Hlo. by apply Hskip.
  - assert (Hlo : key_le lo (e_k e)). { apply key_le_not_lt. intros H%Hskip. done. }
    destruct (under (e_k e) hi) eqn:Hu; cbn [negb].
    + unfold range. rewrite filter_cons_True by (split; [done|by apply under_spec]).
      cbn [run_cb pair_of]. destruct (cb c (e_k e) (e_v e)) as [rc c'].
      destruct (rc =? 0); cbn [negb]; [by apply IH|done].
    + rewrite (above_range lo hi (e_k e)); [done|done|]. cbn [map fst pair_of].
      constructor; [apply key_le_refl|]. rewrite map_fst_pair.
      eapply Forall_impl; [|exact Hk]. intros k. apply key_lt_le.
Qed.

(** What a scan of [kvs] answers: the callback's result over the range, or
    -1 when a page could not be read. *)
Definition scanned L v lo hi kvs c (r : Z * C) : Prop :=
  r = run_cb (range lo hi kvs) c \/ (r.1 = -1 /\ (L -> ~ calm v)).

Lemma wp_scan_children L h v rec es b kvs lo hi c :
  (forall p c, mono (rec p c)) ->
  (forall v e b k c, cell (S h) v e b k ->
     wp L 0 (rec (e_child e) c) v (fun r _ => scanned L v lo hi k c r)) ->
  forest (cell (S h) v) es b kvs ->
  wp L 0 (scan_children rec es lo hi c) v (fun r _ => scanned L v lo hi kvs c r).
Proof.
  intros Hm Hrec. revert v kvs c. induction es as [|e es IH]; intros v kvs c Hf; cbn [scan_children].
  { cbn in Hf. subst kvs. apply wp_ret. by left. }
  destruct (under (e_k e) hi) eqn:Hu; cbn [negb].
  2: { apply wp_ret. left. rewrite (above_range lo hi (e_k e)); [done|done|].
    apply cells_bounded in Hf as (_ & _ & Hb). eapply Forall_impl; [|exact Hb]. by intros ? []. }
  destruct Hf as (k1 & k2 & -> & Hc & Hf). unfold scanned. rewrite range_app.
  set (skip := match es, lo with [], _ => _ | _, _ => _ end).
  destruct skip eqn:Hskip.
  { rewrite (below_range lo hi (head_key es) k1); [by apply IH| |].
    - unfold skip in Hskip. destruct es as [|e' es]; [done|]. destruct lo; [done|].
      by apply key_cmp_le, Z.leb_le.
    - unfold skip in Hskip. destruct es as [|e' es]; [done|]. apply cell_bounded in Hc as (_ & _ & Hb).
      eapply Forall_impl; [|exact Hb]. by intros ? []. }
  eapply wp_bind0; [keep_auto|apply wp_calm, (Hrec v e _ k1 c Hc)|].
  intros [rc c1] v1 He1 Hw1 [[E|[E Hnc]] Hcalm].
  - rewrite run_cb_app. rewrite <- E. destruct (rc =? 0) eqn:Erc; cbn [negb].
    + eapply wp_post; [apply IH; by eapply forest_ext|]. intros r v2 _ _ [Hr|[Hr Hn]]; [by left|right].
      split; [done|]. intros HL Hcv. apply Hn; auto.
    + apply wp_ret. by left.
  - cbn in E. subst rc. apply wp_ret. by right.
Qed.

Lemma wp_scan L fuel h v e b kvs lo hi c :
  cell (S h) v e b kvs -> (h < fuel)%nat ->
  wp L 0 (bt_scan_rec cb fuel (e_child e) lo hi c) v (fun r _ => scanned L v lo hi kvs c r).
Proof.
  revert v e b kvs c fuel. induction h as [|h IH]; intros v e b kvs c [|fuel] Hc Hfu; try lia;
    cbn [bt_scan_rec]; pose proof Hc as (_ & es & Hn & Hne & _ & Hf);
    (eapply wp_bind0; [|apply wp_calm, wp_try; by apply wp_bt_read|]);
    [keep_auto| |keep_auto|];
    (intros [[level es']|] v1 He1 Hw1 [Hr Hcalm]; [injection Hr as -> ->|apply wp_ret; by right]).
  - apply leaf_forest in Hf as (-> & Hs & _). apply wp_ret. left. by apply scan_leaf_spec.
  - rewrite level_S. eapply wp_post.
    { apply (wp_scan_children L h v1 _ es b); [keep_auto| |by eapply forest_ext].
      intros v' e' b' k c' Hc'. apply (IH v' e' b'); [done|lia]. }
    intros r v2 _ _ [?|[? Hnc]]; [by left|right]. split; [done|]. intros HL Hcv. apply Hnc; auto.
Qed.

Lemma wp_btree_scan L n v root kvs lo hi c :
  root_at n v root kvs -> Z.of_nat n <= 2 ^ 16 ->
  wp L 0 (btree_scan cb root lo hi c) v (fun r _ => scanned L v lo hi kvs c r).
Proof.
  intros Hr Hn. apply wp_wf. intros Hw. unfold btree_scan. destruct n as [|h].
  { destruct Hr as [-> ->]. apply wp_ret. by left. }
  pose proof Hr as (_ & es & Hnd & _). cbn [e_child] in Hnd.
  rewrite (proj2 (Z.eqb_neq (bp_pba root) 0)) by (by apply (node_live _ _ _ _ Hw Hnd)).
  apply (wp_scan L BT_FUEL h v (mkEnt [] [] root) None); [done|]. unfold BT_FUEL. lia.
Qed.
End scan_proofs.
End proofs.
(** ** Trees under two views of a store *)

Section change.
Context {V : Type} `{!PageStore V} (L1 L2 : PageStoreLaws V) (v v' : V).

(** What the first view owns in [v], the second owns unchanged in [v']. *)
Definition carries : Prop := forall q,
  ps_live (PageStoreLaws := L1) v q ->
  ps_live (PageStoreLaws := L2) v' q /\ ps_page (PageStoreLaws := L2) v' q = ps_page (PageStoreLaws := L1) v q.

Lemma cell_change h e hi kvs :
  carries -> cell (PageStoreLaws0 := L1) h v e hi kvs -> cell (PageStoreLaws0 := L2) h v' e hi kvs.
Proof.
  intros Hc. revert e hi kvs. induction h as [|h IH]; intros e hi kvs; cbn [cell]; [done|].
  intros (Hl & es & (Hlv & Hn) & Hne & Hk & Hf). split; [done|]. exists es. split.
  { destruct (Hc _ Hlv) as [Hlv' E]. unfold node_at. rewrite E. by split. }
  split; [done|]. split; [done|]. eapply forest_impl; [|done]. auto.
Qed.

Lemma root_at_change n root kvs :
  carries -> root_at (PageStoreLaws0 := L1) n v root kvs -> root_at (PageStoreLaws0 := L2) n v' root kvs.
Proof. intros Hc. destruct n; [done|]. by apply cell_change. Qed.
End change.

End BTree.
