(* ===== verification/MetaLive.v ===== *)
(** * When the page store answers

    On a device without pending faults the page store of vol_metabuf.c reads
    and writes every page, and it hands out pages as long as bootstrap pages
    or clear blocks of the metadata zone are left. *)

From S2P Require Import Prelude Dev Alloc Volume Page PageLogic Metabuf.

Module MetaLive.
Import Alloc Volume Page PageLogic Metabuf.

Section live.
Context {D X : Type} `{!Dev D, !DevLaws D}.
Implicit Types v : vol D X.

(** Bootstrap pages not handed out yet. *)
Definition boot_left v : nat :=
  if mb_boot_cursor v =? 0 then O else Z.to_nat (mb_boot_end v - mb_boot_cursor v).

(** A clear block of the metadata zone. *)
Definition spare v (p : Z) : Prop :=
  metadata_zone_start (vsb v) <= p < metadata_zone_start (vsb v) + metadata_zone_blocks (vsb v) /\
  bitv v p = false.

(** Room for [n] pages on a volume that may be written. *)
Definition room v (n : nat) : Prop :=
  flag_set (vsb v) VOLF_READONLY = false /\
  (rt_present v && negb (rt_page_size (rt v) =? INVFS_BLOCK_SIZE)) = false /\
  exists l : list Z, NoDup l /\ Forall (spare v) l /\ (n <= boot_left v + length l)%nat.

(** The scan of the metadata zone visits every block once. *)
Lemma mb_scan_complete k b start end_ i q :
  start <= i < end_ -> start <= q < end_ -> bit_get b q = false ->
  (if i <=? q then q - i else end_ - i + (q - start)) < Z.of_nat k ->
  exists p, mb_scan k b start end_ i = Some p.
Proof.
  revert i. induction k as [|k IH]; intros i Hi Hq Hb Hk.
  { destruct (i <=? q) eqn:E; zbool; lia. }
  cbn [mb_scan]. destruct (bit_get b i) eqn:E; cbn [negb]; [|by eexists].
  assert (i <> q) by (intros ->; congruence). apply IH; try done.
  - destruct (i + 1 <? end_) eqn:E1; zbool; lia.
  - destruct (i + 1 <? end_) eqn:E1, (i <=? q) eqn:E2; zbool; try lia.
    + rewrite (proj2 (Z.leb_le _ _)) by lia. lia.
    + rewrite (proj2 (Z.leb_gt _ _)) by lia. lia.
    + rewrite (proj2 (Z.leb_le _ _)) by lia. lia.
Qed.

(** What [room] depends on. *)
Lemma room_same v v' n :
  vsb v' = vsb v -> bitmap (v_a v') = bitmap (v_a v) -> rt_present v' = rt_present v ->
  rt v' = rt v -> mb_boot_cursor v' = mb_boot_cursor v -> mb_boot_end v' = mb_boot_end v ->
  room v n -> room v' n.
Proof.
  intros Es Eb Ep Er Ec Ee (Hf & Hp & l & Hl). unfold room, boot_left, spare, bitv in *.
  rewrite Es, Eb, Ep, Er, Ec, Ee. eauto.
Qed.

Lemma room_dev d v n : room v n -> room (set_v_dev d v) n.
Proof. by apply room_same. Qed.

Lemma mbuf_write_live p pg v :
  quiet v -> 0 < p < total_blocks (vsb v) -> blk_ok v p -> zlen pg = INVFS_BLOCK_SIZE ->
  exists d, mbuf_write p pg v = (Some (mbuf_page_seal pg), set_v_dev d v) /\ quiet (set_v_dev d v).
Proof.
  intros [Hq Hc] Hp Hok Hlen. pose proof (length_seal pg Hlen) as Hs.
  destruct (dev_pwrite_live (p * INVFS_BLOCK_SIZE) (mbuf_page_seal pg) (v_dev v))
    as (d & E & Hq' & Hc'); [done|unfold INVFS_BLOCK_SIZE; lia| |by rewrite Hs|].
  { rewrite Hs. unfold INVFS_BLOCK_SIZE in *. lia. }
  exists d. split; [|split; [done|]].
  - unfold mbuf_write. rewrite (mbind_eq _ _ _ v v) by done. rewrite (mbind_eq _ _ _ tt v) by done.
    rewrite (mbind_eq _ _ _ tt v).
    2: { rewrite (proj2 (Z.eqb_neq p 0)), (proj2 (Z.leb_gt _ p)) by lia. done. }
    cbv zeta. rewrite (mbind_eq _ _ _ tt (set_v_dev d v)); [done|].
    unfold io_pwrite, on_dev. by rewrite E.
  - cbn [v_dev set_v_dev]. rewrite Hc'. exact Hc.
Qed.

Lemma write_empty_live p gen v :
  quiet v -> 0 < p < total_blocks (vsb v) -> blk_ok v p ->
  exists d, mb_write_empty p gen v = (Some tt, set_v_dev d v) /\ quiet (set_v_dev d v).
Proof.
  intros Hq Hp Hok.
  destruct (mbuf_write_live p (mbuf_page_init INVFS_PAGE_LEVEL_LEAF gen) v) as (d & E & Hq');
    [done..|apply length_page_init|].
  exists d. split; [|done]. unfold mb_write_empty. by rewrite (mbind_eq _ _ _ _ _ E).
Qed.

(** One block fewer. *)
Lemma spare_rest v v' l n p :
  (forall q, 0 <= q -> bitv v' q = (q =? p) || bitv v q) -> vsb v' = vsb v ->
  0 <= metadata_zone_start (vsb v) ->
  NoDup l -> Forall (spare v) l -> (S n <= length l)%nat ->
  exists l', NoDup l' /\ Forall (spare v') l' /\ (n <= length l')%nat.
Proof.
  intros Hb Es H0 Hn Hs Hl. exists (filter (fun q => q <> p) l). split; [by apply list.NoDup_filter|]. split.
  - apply Forall_forall. intros q Hq%list_elem_of_In%list_elem_of_filter. destruct Hq as [Hne Hq].
    rewrite Forall_forall in Hs. apply list_elem_of_In, Hs in Hq as [Hz Hq].
    unfold spare. rewrite Es. split; [done|]. rewrite Hb by lia.
    by rewrite (proj2 (Z.eqb_neq q p)), Hq.
  - assert (Hsub : l ⊆+ p :: filter (fun q => q <> p) l).
    { apply NoDup_submseteq; [done|]. intros q Hq. destruct (decide (q = p)) as [->|]; [left|right].
      by apply list_elem_of_filter. }
    apply submseteq_length in Hsub. cbn [length] in Hsub. lia.
Qed.

Lemma meta_zone_live v q :
  mb_wf v -> spare v q ->
  exists p v1, mb_alloc_meta_zone v = (Some p, v1) /\ vsb v1 = vsb v /\ rt_present v1 = rt_present v /\
    rt v1 = rt v /\ mb_boot_cursor v1 = mb_boot_cursor v /\ mb_boot_end v1 = mb_boot_end v.
Proof.
  intros Hw [Hz Hq]. destruct (mw_meta v Hw) as (? & ? & ?). pose proof (anchor_last v Hw).
  unfold mb_alloc_meta_zone. rewrite (mbind_eq _ _ _ v v) by done. cbv zeta.
  rewrite (mbind_eq _ _ _ tt v).
  2: { rewrite (proj2 (Z.eqb_neq (metadata_zone_start _) 0)), (proj2 (Z.eqb_neq _ 0)) by lia. done. }
  rewrite (mbind_eq _ _ _ tt v) by (by rewrite (proj2 (Z.ltb_lt _ _)) by lia).
  rewrite Z.min_l by lia. set (i := if _ || _ then _ else _).
  assert (Hi : metadata_zone_start (vsb v) <= i
               < metadata_zone_start (vsb v) + metadata_zone_blocks (vsb v)).
  { unfold i. destruct (_ || _) eqn:E; zbool; lia. }
  clearbody i. set (start := metadata_zone_start (vsb v)) in *.
  set (end_ := start + metadata_zone_blocks (vsb v)) in *.
  destruct (mb_scan_complete (Z.to_nat (end_ - start)) (bitmap (v_a v)) start end_ i q) as [p E];
    [done..| |].
  { destruct (i <=? q) eqn:E; zbool; lia. }
  rewrite E. pose proof (mb_take_facts p (v_a v)) as [Ec Eb]. destruct (acfg_fields _ _ Ec) as [Es _].
  unfold mbind', on_a, mmod, mret. do 2 eexists. split; [reflexivity|]. unfold vsb. cbn. by rewrite Es.
Qed.

Lemma mbuf_alloc_live gen v n :
  mb_wf v -> quiet v -> room v (S n) ->
  exists p v', mbuf_alloc gen v = (Some p, v') /\ quiet v' /\ room v' n.
Proof.
  intros Hw Hq (Hro & Hps & l & Hnd & Hsp & Hn). unfold mbuf_alloc.
  rewrite (mbind_eq _ _ _ v v) by done. rewrite Hro, Hps.
  rewrite (mbind_eq _ _ _ tt v) by done. rewrite (mbind_eq _ _ _ tt v) by done.
  destruct (mw_meta v Hw) as (? & ? & ?).
  destruct (negb _ && _) eqn:Eb; zbool.
  - assert (mb_boot_cursor v <> 0 /\ mb_boot_cursor v < mb_boot_end v) as [Hc He] by done.
    destruct (mw_boot v Hw (mb_boot_cursor v)) as (? & _ & Hok & Hr); [split; lia|].
    destruct (write_empty_live (mb_boot_cursor v) gen v) as (d & E & Hq'); [done| |done|].
    { unfold reserved in Hr. lia. }
    cbv zeta. rewrite (mbind_eq _ _ _ _ _ E).
    eexists _, _. split; [reflexivity|]. split; [done|]. split; [done|]. split; [done|].
    exists l. split; [done|]. split; [done|]. unfold boot_left in *. cbn.
    rewrite (proj2 (Z.eqb_neq (mb_boot_cursor v) 0)) in Hn by done.
    destruct (mb_boot_cursor v + 1 =? 0) eqn:E0; zbool; unfold reserved in Hr; lia.
  - assert (Hl : (S n <= length l)%nat).
    { unfold boot_left in Hn. destruct (mb_boot_cursor v =? 0) eqn:E0; zbool; lia. }
    destruct l as [|q l]; [cbn in Hl; lia|].
    destruct (meta_zone_live v q) as (p & v1 & E & Es & Ep & Er & Ec & Ee); [done| |].
    { by apply Forall_cons_iff in Hsp as [? _]. }
    pose proof (meta_zone_run _ _ _ Hw E) as (Hg & Ed & _ & Hp & Hbit & _ & Hset).
    rewrite (mbind_eq _ _ v (Some p) v1) by (unfold mtry; by rewrite E).
    rewrite (mbind_eq _ _ v1 p v1) by done.
    assert (Hq1 : quiet v1) by (unfold quiet in *; by rewrite Ed, Es).
    assert (Hok : blk_ok v1 p).
    { destruct (vgeo_facts _ _ Hg) as (_ & _ & _ & Ho). apply Ho. by apply (mw_clear v Hw). }
    destruct (write_empty_live p gen v1) as (d & E2 & Hq2); [done|by rewrite Es|done|].
    rewrite (mbind_eq _ _ v1 (Some tt) (set_v_dev d v1)) by (unfold mtry; by rewrite E2).
    eexists _, _. split; [reflexivity|]. split; [done|]. apply room_dev.
    split; [by rewrite Es|]. split; [by rewrite Ep, Er|].
    destruct (spare_rest v v1 (q :: l) n p) as (l' & ? & ? & ?); [done|done|lia|done..|].
    exists l'. split; [done|]. split; [done|]. lia.
Qed.

Lemma mbuf_read_ptr_live ptr v page :
  quiet v -> live v (bp_pba ptr) -> page = page_at v (bp_pba ptr) ->
  page_checksum page = bp_checksum ptr -> page_gen page = bp_gen ptr ->
  mbuf_page_validate page = true ->
  exists pg v', mbuf_read_ptr ptr v = (Some pg, v') /\ quiet v' /\
    (forall n, room v n -> room v' n).
Proof.
  intros Hq Hl -> Hc Hg Hv. pose proof Hl as (Ht & Hb & Hok & Hr & _).
  assert (0 < bp_pba ptr < total_blocks (vsb v)) by (unfold reserved in Hr; lia).
  destruct (mbuf_read_live (bp_pba ptr) v) as (v' & E & Hs & Hq' & _); [done..|].
  exists (page_at v (bp_pba ptr)), v'. split; [|split; [done|]].
  - unfold mbuf_read_ptr. rewrite (mbind_eq _ _ _ tt v).
    2: { rewrite (proj2 (Z.eqb_neq _ 0)) by lia. done. }
    rewrite (mbind_eq _ _ _ v v) by done. rewrite (mbind_eq _ _ _ tt v).
    2: { unfold mbuf_page_allocated. rewrite (proj2 (Z.leb_gt _ 0)), (proj2 (Z.leb_gt _ _)) by lia.
      cbn [orb]. unfold bitv in Hb. by rewrite Hb. }
    rewrite (mbind_eq _ _ _ _ _ E). generalize dependent (page_at v (bp_pba ptr)).
    intros pg Hc Hg Hv _. by rewrite Hc, Hg, !Z.eqb_refl, Hv.
  - intros n Hn. destruct Hs as [(Ev & _) _]. rewrite Ev. by apply room_dev.
Qed.

#[export] Program Instance mbuf_store_live : PageStoreLive (vol D X) := {
  ps_quiet := quiet;
  ps_room := room
}.
Next Obligation.
  simpl. intros v [Hq _]. apply negb_true_iff. by apply dquiet_wf in Hq as [_ ?].
Qed.
Next Obligation.
  simpl. intros v n m Hnm (? & ? & l & ? & ? & ?). split_and!; try done. exists l.
  split_and!; try done. lia.
Qed.
Next Obligation.
  intros ptr v Hw Hq Hl Hc Hg Hv. by apply (mbuf_read_ptr_live ptr v (ps_page v (bp_pba ptr))).
Qed.
Next Obligation. simpl. intros. by apply mbuf_alloc_live. Qed.
Next Obligation.
  simpl. intros p pg v Hw Hq (Ht & _ & Hok & Hr & _) Hlen Hb.
  destruct (mbuf_write_live p pg v) as (d & E & Hq'); [done|unfold reserved in Hr; lia|done|done|].
  do 2 eexists. split; [exact E|]. split; [done|]. intros n. apply room_dev.
Qed.
Next Obligation.
  simpl. intros p v. destruct (note_alloc_idles p v) as [o ->]. split; [done|].
  intros n. by apply room_same.
Qed.
End live.
End MetaLive.
