(* ===== verification/TreeSpec.v ===== *)
(** * The base tree as a finite map

    What the operations of vol_btree.c do to the map a root stands for, on
    any page store that keeps its laws, and on a volume: search is lookup,
    upsert is insertion, delete is deletion, scan visits a range in key
    order, and a root that was read stays readable with its contents. *)

From stdpp Require Import sorting.
From S2P Require Import Prelude Crc32c Dev Ram Alloc Volume Page Metabuf.
From S2P Require Import Keys Kv Node PageLogic BTree MetaLive.

Module TreeSpec.
Import Alloc Volume Page Metabuf Keys Kv Node PageLogic BTree MetaLive.

Section spec.
Context {V : Type} `{!PageStore V} `{!PageStoreLaws V} `{!PageStoreLive V}.
Implicit Types (v : V) (m : kmap).

(** The root [root] of a tree of [n] levels stands for the map [m]. *)
Definition holds n v (root : invfs_blkptr) m : Prop :=
  exists kvs, root_at n v root kvs /\ to_map kvs = m.

Lemma holds_ext n v v' root m : ext v v' -> holds n v root m -> holds n v' root m.
Proof. intros He (kvs & Hr & Hm). exists kvs. split; [|done]. by eapply root_at_ext. Qed.

Lemma holds_null v root : bp_pba root = 0 -> holds 0 v root ∅.
Proof. intros Hp. by exists []. Qed.

(** A sequence of updates, as the engine makes them: each on the root the
    previous one returned. *)
Inductive op := Upsert (key val : bytes) | Delete (key : bytes).

Definition op_run (o : op) (root : invfs_blkptr) : M V invfs_blkptr :=
  match o with
  | Upsert key val => btree_upsert root key val
  | Delete key => btree_delete root key
  end.

Fixpoint ops_run (os : list op) (root : invfs_blkptr) : M V invfs_blkptr :=
  match os with
  | [] => mret root
  | o :: os => let* root := op_run o root in ops_run os root
  end.

Definition op_map (o : op) m : kmap :=
  match o with Upsert key val => <[key := val]> m | Delete key => delete key m end.

Definition op_ok (o : op) : Prop :=
  match o with Upsert key val => pair_ok key val | Delete _ => True end.

Lemma keeps_ops (R : V -> V -> Prop) `{!KeptPut R} os root : keeps R (ops_run os root).
Proof.
  revert root. induction os as [|o os IH]; intros root; cbn [ops_run]; [keep_auto|].
  apply keeps_bind; [exact _| |done]. destruct o; cbn [op_run]; keep_auto.
Qed.

(** Updates that cannot fail for lack of space in a page: pairs that fit. *)
Definition op_fits (o : op) : Prop :=
  match o with Upsert key val => fits 0 [mkEnt key val null_ptr] = true | Delete _ => False end.

(** Pages a sequence may take on a tree of [n] levels. *)
Fixpoint ops_room (n : nat) (os : list op) : nat :=
  match os with
  | [] => O
  | _ :: os => upsert_room n + ops_room (S n) os
  end.

Lemma ops_room_mono os n n' : (n <= n')%nat -> (ops_room n os <= ops_room n' os)%nat.
Proof.
  revert n n'. induction os as [|o os IH]; intros n n' Hn; cbn [ops_room]; [done|].
  specialize (IH (S n) (S n')). unfold upsert_room. lia.
Qed.

Lemma wp_op o n v root m :
  holds n v root m -> Z.of_nat n < 2 ^ 16 - 1 -> op_ok o ->
  wp (op_fits o) (upsert_room n) (op_run o root) v (fun root' v' =>
    exists n', (n' <= S n)%nat /\ holds n' v' root' (op_map o m)).
Proof.
  intros (kvs & Hr & <-) Hn Ho. pose proof (root_at_sorted _ _ _ _ Hr) as Hs. destruct o as [key val|key].
  - eapply wp_post; [by apply (wp_upsert _ n v root kvs)|].
    intros root' v' _ _ (_ & n' & Hn' & Hr'). exists n'. split; [lia|]. eexists. split; [exact Hr'|].
    by apply to_map_insert.
  - eapply wp_post; [apply (wp_delete _ n v root kvs); [done|lia|done]|].
    intros root' v' _ _ (_ & n' & Hn' & Hr'). exists n'. split; [lia|]. eexists. split; [exact Hr'|].
    by apply to_map_delete.
Qed.

Lemma wp_ops os n v root m :
  holds n v root m -> Z.of_nat (n + length os) < 2 ^ 16 -> Forall op_ok os ->
  wp (Forall op_fits os) (ops_room n os) (ops_run os root) v (fun root' v' =>
    exists n', (n' <= n + length os)%nat /\ holds n' v' root' (foldl (fun m o => op_map o m) m os)).
Proof.
  revert n v root m. induction os as [|o os IH]; intros n v root m Hh Hn Hok; cbn [ops_run ops_room foldl].
  { apply wp_ret. exists n. split; [lia|done]. }
  apply Forall_cons_iff in Hok as [Ho Hok]. cbn [length] in Hn.
  eapply wp_bind; [reflexivity|intros; apply keeps_ops, _| |].
  { eapply wp_conseq; [apply (wp_op o n v root m)| |done|]; [done|lia|done| |].
    - by intros [? _]%Forall_cons_iff.
    - intros a v' _ _ H. exact H. }
  intros root1 v1 _ _ (n1 & Hn1 & Hh1). eapply wp_conseq; [apply (IH n1 v1 root1)| | |].
  - exact Hh1.
  - lia.
  - done.
  - by intros [_ ?]%Forall_cons_iff.
  - by apply ops_room_mono.
  - intros a v' _ _ (n' & Hn' & H). exists n'. split; [cbn [length]; lia|done].
Qed.

(** ** Results *)

(** C13: a search is a lookup.  On a root that stands for the map [m],
    [btree_search] changes no live page, and its answer is the value bound to
    the key, or "absent"; on a store without pending faults it does answer. *)
Theorem btree_search_lookup n v root m key :
  holds n v root m -> (n <= BT_MAX_DEPTH)%nat ->
  wp True 0 (btree_search root key) v (fun r _ => r = m !! key).
Proof.
  intros (kvs & Hr & <-) Hn. destruct n as [|h].
  - destruct Hr as [Hp ->]. unfold btree_search. rewrite Hp. by apply wp_ret.
  - by apply (wp_btree_search True h).
Qed.

(** C2: an upsert is a map insertion, copy-on-write.  The new root stands for
    the map with the key bound to the value, the tree grows by at most one
    level, the old root still stands for the old map, and no live page
    changed even when the upsert fails; it answers whenever the pair fits a
    page, there is room for three pages per level plus a root, and the device
    has no pending fault. *)
Theorem btree_upsert_inserts n v root m key val :
  holds n v root m -> Z.of_nat n < 2 ^ 16 - 1 -> pair_ok key val ->
  wp (fits 0 [mkEnt key val null_ptr] = true) (upsert_room n) (btree_upsert root key val) v
    (fun root' v' => holds n v' root m /\
       exists n', (n' <= S n)%nat /\ holds n' v' root' (<[key := val]> m)).
Proof.
  intros Hh Hn Hp. eapply wp_post; [by apply (wp_op (Upsert key val) n v root m)|].
  intros root' v' He _ H. split; [by eapply holds_ext|done].
Qed.

(** C3: a deletion is a map deletion, copy-on-write.  The new root stands for
    the map without the key, the tree does not grow, the old root still
    stands for the old map; it answers when the separators of the internal
    nodes leave room for longer ones ([roomy]) and the store has room. *)
Theorem btree_delete_deletes n v root m key :
  holds n v root m -> Z.of_nat n < 2 ^ 16 ->
  wp (roomy (n - 1) v root) (delete_room n) (btree_delete root key) v
    (fun root' v' => holds n v' root m /\
       exists n', (n' <= n)%nat /\ holds n' v' root' (delete key m)).
Proof.
  intros Hh Hn. pose proof Hh as (kvs & Hr & <-). pose proof (root_at_sorted _ _ _ _ Hr) as Hs.
  eapply wp_post; [apply (wp_delete _ n v root kvs); [done|lia|done]|].
  intros root' v' He _ (_ & n' & Hn' & Hr'). split; [by eapply holds_ext|]. exists n'. split; [done|].
  eexists. split; [exact Hr'|]. by apply to_map_delete.
Qed.

(** C14: a scan visits, in key order and once each, exactly the pairs of the
    map in the half-open range, stopping at the callback's first non-zero
    answer; it answers -1 instead only when a page could not be read, which
    cannot happen on a store without pending faults. *)
Theorem btree_scan_range {C} (cb : C -> bytes -> bytes -> Z * C) n v root m lo hi c :
  holds n v root m -> Z.of_nat n < 2 ^ 16 ->
  exists kvs, ksorted (map fst kvs) /\ to_map kvs = m /\
    wp True 0 (btree_scan cb root lo hi c) v (fun r _ =>
      r = run_cb cb (range lo hi kvs) c \/ (r.1 = -1 /\ ~ calm v)).
Proof.
  intros (kvs & Hr & Hm) Hn. exists kvs. split; [by eapply root_at_sorted|]. split; [done|].
  eapply wp_post; [apply (wp_btree_scan cb True n); [done|lia]|].
  intros r v' _ _ [?|[? Hc]]; [by left|right; auto].
Qed.

(** C5: a history of updates.  Running any sequence of upserts and deletions
    from a root that stands for [m] yields a root that stands for [m] with
    the sequence applied to it; a sequence of upserts whose pairs fit a page
    completes whenever the store has room for it. *)
Theorem updates_refine os n v root m :
  holds n v root m -> Z.of_nat (n + length os) < 2 ^ 16 -> Forall op_ok os ->
  wp (Forall op_fits os) (ops_room n os) (ops_run os root) v (fun root' v' =>
    exists n', (n' <= n + length os)%nat /\
      holds n' v' root' (foldl (fun m o => op_map o m) m os)).
Proof. apply wp_ops. Qed.

(** C8: snapshots.  Whatever sequence of updates runs on one root, and
    whether it completes or fails half-way, any other root of the store keeps
    standing for the map it stood for, as long as no I/O error latched. *)
Theorem snapshot_stable os n1 n2 v root1 root2 m1 m2 r v' :
  ps_wf v -> holds n1 v root1 m1 -> Z.of_nat (n1 + length os) < 2 ^ 16 -> Forall op_ok os ->
  holds n2 v root2 m2 ->
  ops_run os root1 v = (r, v') -> ps_ok v' = true -> ps_wf v' /\ holds n2 v' root2 m2.
Proof.
  intros Hw H1 Hn Hok H2 E Ho. destruct (wp_ops os n1 v root1 m1 H1 Hn Hok Hw _ _ E) as [Hs _].
  destruct (Hs Ho) as (Hw' & He & _). split; [done|]. by eapply holds_ext.
Qed.
End spec.

(** ** A volume to run on *)

Section demo.
Import Ram.
Abbreviation dvol := (vol ram unit).

Definition spares (v : dvol) : list Z :=
  filter (fun p => bitv v p = false)
    (seqZ (metadata_zone_start (vsb v)) (metadata_zone_blocks (vsb v))).

Lemma room_ok (v : dvol) n :
  flag_set (vsb v) VOLF_READONLY = false ->
  (rt_present v && negb (rt_page_size (rt v) =? INVFS_BLOCK_SIZE)) = false ->
  (n <= length (spares v))%nat -> room v n.
Proof.
  intros Hf Hp Hn. split; [done|]. split; [done|]. exists (spares v).
  split; [apply list.NoDup_filter, NoDup_seqZ|]. split; [|lia].
  apply Forall_forall. intros p Hp'%list_elem_of_In%list_elem_of_filter.
  destruct Hp' as [Hb Hi%elem_of_seqZ]. split; [lia|done].
Qed.

(** Forty blocks: metadata 1-24 with the bitmap in block 1, raw 25-29,
    shadow 30-39. *)
Definition tree_vol : dvol :=
  set_v_a (alloc_state_reset (set_bitmap (3 :: zeros 4)
    (set_sb (mkSb (zeros 16) 0 4096 40 1 24 25 5 30 10 0 2 VOLF_META 0 0 0 0) demo_avol))) demo_vol.

Lemma tree_vol_ready : ps_wf tree_vol /\ ps_quiet tree_vol /\ ps_room tree_vol 20.
Proof.
  split; [|split].
  - apply (re_wf no_delta). apply env_check_ok. vm_compute. reflexivity.
  - apply quiet_check_ok. vm_compute. reflexivity.
  - apply room_ok; vm_compute; reflexivity || lia.
Qed.

Lemma demo_pair_ok a b : bytes_okb [a; b] = true -> pair_ok [a] [b].
Proof.
  intros H%bytes_okb_ok. apply Forall_cons_iff in H as [Ha H]. apply Forall_cons_iff in H as [Hb _].
  unfold pair_ok, BT_KEY_LIM. cbn [length]. split; [by constructor|]. split; [lia|].
  split; [by constructor|lia].
Qed.

(** A volume with a one-pair tree. *)
Lemma one_pair :
  exists root (v : dvol), ps_wf v /\ ps_quiet v /\ ps_room v 10 /\ holds 1 v root {[ [1] := [7] ]}.
Proof.
  destruct tree_vol_ready as (Hw & Hq & Hr).
  destruct (wp_run _ 1 19 _ _ _ (wp_upsert True 0 tree_vol null_ptr [] [1] [7] (conj eq_refl eq_refl)
    eq_refl (demo_pair_ok 1 7 eq_refl) (fun _ => eq_refl)) I Hw Hq Hr) as (root & v & _ & Hw' & _ & (_ & n & Hn & Hh) & Hq' & Hr').
  exists root, v. split; [done|]. split; [done|]. split; [eapply ps_room_le; [|exact Hr']; lia|].
  destruct n as [|[|n]]; [by destruct Hh| |lia]. by exists [([1], [7])].
Qed.

Lemma btree_search_lookup_witness :
  exists root (v : dvol) v', btree_search root [1] v = (Some (Some [7]), v').
Proof.
  destruct one_pair as (root & v & Hw & Hq & Hr & Hh). exists root, v.
  destruct (wp_run True 0 10 _ _ _ (btree_search_lookup 1 v root _ [1] Hh ltac:(unfold BT_MAX_DEPTH; lia))
    I Hw Hq Hr) as (r & v' & E & _ & _ & -> & _).
  exists v'. exact E.
Defined.

Lemma btree_upsert_inserts_witness :
  exists root (v : dvol) root' v', btree_upsert root [2] [8] v = (Some root', v') /\
    holds 1 v' root {[ [1] := [7] ]} /\ exists n, holds n v' root' (<[ [2] := [8] ]> {[ [1] := [7] ]}).
Proof.
  destruct one_pair as (root & v & Hw & Hq & Hr & Hh).
  destruct (wp_run _ (upsert_room 1) 6 _ _ _ (btree_upsert_inserts 1 v root _ [2] [8] Hh eq_refl
    (demo_pair_ok 2 8 eq_refl)) eq_refl Hw Hq Hr) as (root' & v' & E & _ & _ & (H & n & _ & H') & _).
  exists root, v, root', v'. split; [exact E|]. split; [exact H|]. by exists n.
Defined.

Lemma btree_delete_deletes_witness :
  exists root (v : dvol) root' v', btree_delete root [1] v = (Some root', v') /\
    holds 1 v' root {[ [1] := [7] ]} /\ exists n, holds n v' root' (delete [1] {[ [1] := [7] ]}).
Proof.
  destruct one_pair as (root & v & Hw & Hq & Hr & Hh).
  destruct (wp_run _ (delete_room 1) 6 _ _ _ (btree_delete_deletes 1 v root _ [1] Hh eq_refl)
    I Hw Hq Hr) as (root' & v' & E & _ & _ & (H & n & _ & H') & _).
  exists root, v, root', v'. split; [exact E|]. split; [exact H|]. by exists n.
Defined.

(** A callback that collects what it is shown. *)
Definition collect (c : list kv) (k x : bytes) : Z * list kv := (0, c ++ [(k, x)]).

Lemma btree_scan_range_witness :
  exists root (v : dvol) kvs v', ksorted (map fst kvs) /\ to_map kvs = {[ [1] := [7] ]} /\
    btree_scan collect root [] [] [] v = (Some (run_cb collect (range [] [] kvs) []), v').
Proof.
  destruct one_pair as (root & v & Hw & Hq & Hr & Hh). exists root, v.
  destruct (btree_scan_range collect 1 v root _ [] [] [] Hh eq_refl) as (kvs & Hs & Hm & Hwp).
  destruct (wp_run True 0 10 _ _ _ Hwp I Hw Hq Hr) as (r & v' & E & _ & _ & [->|[_ Hc]] & _).
  - exists kvs, v'. auto.
  - destruct Hc. split; [exact Hq|]. eapply ps_room_le; [|exact Hr]. lia.
Defined.

Definition demo_ops : list op := [Upsert [1] [7]; Upsert [2] [8]; Upsert [1] [9]].

Lemma demo_ops_ok : Forall op_ok demo_ops /\ Forall op_fits demo_ops.
Proof.
  split; repeat constructor; apply (demo_pair_ok 1 7 eq_refl) || apply (demo_pair_ok 2 8 eq_refl) ||
    apply (demo_pair_ok 1 9 eq_refl).
Qed.

Lemma updates_refine_witness :
  exists root n (v' : dvol), ops_run demo_ops null_ptr tree_vol = (Some root, v') /\
    holds n v' root (<[ [1] := [9] ]> (<[ [2] := [8] ]> (<[ [1] := [7] ]> ∅))).
Proof.
  destruct tree_vol_ready as (Hw & Hq & Hr).
  destruct (wp_run _ (ops_room 0 demo_ops) 8 _ _ _ (updates_refine demo_ops 0 tree_vol null_ptr ∅
    (holds_null tree_vol null_ptr eq_refl) eq_refl (proj1 demo_ops_ok)) (proj2 demo_ops_ok) Hw Hq Hr)
    as (root & v' & E & _ & _ & (n & _ & H) & _).
  exists root, n, v'. split; [exact E|exact H].
Defined.

Lemma snapshot_stable_witness :
  exists root (v : dvol) v', holds 1 v root {[ [1] := [7] ]} /\
    v' = snd (ops_run [Upsert [1] [9]; Delete [1]] root v) /\
    (ps_ok v' = true -> holds 1 v' root {[ [1] := [7] ]}).
Proof.
  destruct one_pair as (root & v & Hw & Hq & Hr & Hh). exists root, v, (snd (ops_run [Upsert [1] [9]; Delete [1]] root v)).
  split; [exact Hh|]. split; [reflexivity|]. intros Ho.
  refine (proj2 (snapshot_stable [Upsert [1] [9]; Delete [1]] 1 1 v root root _ _ _ _ Hw Hh eq_refl
    _ Hh (surjective_pairing _) Ho)).
  constructor; [apply (demo_pair_ok 1 9 eq_refl)|]. repeat constructor.
Defined.
End demo.
End TreeSpec.
