(* ===== verification/Check.v ===== *)
(** * Checking, quarantining and reclaiming trees (vol_btree.c)

    The structural check and its damage-tolerant variant, the quarantine of
    unreadable key ranges, their excision, and the reclaim of the pages an
    old root no longer shares with a kept one. *)

From stdpp Require Import sorting.
From S2P Require Import Prelude Dev Ram Alloc Volume Page Metabuf.
From S2P Require Import Keys Kv Node PageLogic BTree MetaLive TreeSpec.

Module Check.
Import Alloc Volume Page Metabuf Keys Kv Node PageLogic BTree MetaLive TreeSpec.

(** ** Quarantined ranges *)

Definition BT_QUARANTINE_MAX : Z := 64.
Definition BT_QUARANTINE_KEY_MAX : Z := 272.

(** [hi = []] is unbounded.
    Source: core/vol_btree.h:116-123 [bt_range] *)
Record bt_range := mkRange { r_pba : Z; r_lo : bytes; r_hi : bytes }.

(** Source: core/vol_btree.h:124-132 [bt_quarantine] *)
Record bt_quarantine := mkQ { q_range : list bt_range; q_bad_pages : Z; q_full : bool }.

(** Source: core/vol_btree.c [bt_range_covers] *)
Definition bt_range_covers (r : bt_range) (clo chi : bytes) : bool :=
  if negb (zlen (r_lo r) =? 0) && (vol_key_cmp clo (r_lo r) <? 0) then false
  else if negb (zlen (r_hi r) =? 0) then
    if zlen chi =? 0 then false
    else if 0 <? vol_key_cmp chi (r_hi r) then false
    else true
  else true.

Definition range_has (k : bytes) (r : bt_range) : bool :=
  negb (negb (zlen (r_lo r) =? 0) && (vol_key_cmp k (r_lo r) <? 0)) &&
  negb (negb (zlen (r_hi r) =? 0) && (0 <=? vol_key_cmp k (r_hi r))).

(** Source: core/vol_btree.c [btree_quarantine_has] *)
Definition btree_quarantine_has (q : bt_quarantine) (k : bytes) : bool :=
  existsb (range_has k) (q_range q).

Definition range_meets (lo hi : bytes) (r : bt_range) : bool :=
  negb (negb (zlen hi =? 0) && (negb (zlen (r_lo r) =? 0) && (0 <=? vol_key_cmp (r_lo r) hi))) &&
  negb (negb (zlen (r_hi r) =? 0) && (negb (zlen lo =? 0) && (0 <=? vol_key_cmp lo (r_hi r)))).

(** Source: core/vol_btree.c [btree_quarantine_overlaps] *)
Definition btree_quarantine_overlaps (q : bt_quarantine) (lo hi : bytes) : bool :=
  existsb (range_meets lo hi) (q_range q).

(** ** The structural check *)

Inductive ck_msg :=
  | CkBadPba | CkCycle | CkUnreadable | CkLevel | CkDepth | CkEmptyLeaf
  | CkLeafOrder | CkLeafBelow | CkLeafAbove
  | CkFewChildren | CkSepOrder | CkSepBelow | CkSepAbove.

(** [ck_q = None]: the caller did not ask for ranges.
    Source: core/vol_btree.c:1144-1155 [bt_ck] *)
Record bt_ck := mkCk {
  ck_seen : bytes; ck_total : Z; ck_pages : Z; ck_keys : Z; ck_height : Z;
  ck_bad : Z; ck_q : option (list bt_range); ck_qfull : bool; ck_err : option ck_msg
}.

Definition set_ck_seen x c := mkCk x (ck_total c) (ck_pages c) (ck_keys c) (ck_height c)
  (ck_bad c) (ck_q c) (ck_qfull c) (ck_err c).
Definition set_ck_pages x c := mkCk (ck_seen c) (ck_total c) x (ck_keys c) (ck_height c)
  (ck_bad c) (ck_q c) (ck_qfull c) (ck_err c).
Definition set_ck_keys x c := mkCk (ck_seen c) (ck_total c) (ck_pages c) x (ck_height c)
  (ck_bad c) (ck_q c) (ck_qfull c) (ck_err c).
Definition set_ck_height x c := mkCk (ck_seen c) (ck_total c) (ck_pages c) (ck_keys c) x
  (ck_bad c) (ck_q c) (ck_qfull c) (ck_err c).
Definition set_ck_bad x c := mkCk (ck_seen c) (ck_total c) (ck_pages c) (ck_keys c) (ck_height c)
  x (ck_q c) (ck_qfull c) (ck_err c).
Definition set_ck_q x c := mkCk (ck_seen c) (ck_total c) (ck_pages c) (ck_keys c) (ck_height c)
  (ck_bad c) x (ck_qfull c) (ck_err c).
Definition set_ck_qfull x c := mkCk (ck_seen c) (ck_total c) (ck_pages c) (ck_keys c) (ck_height c)
  (ck_bad c) (ck_q c) x (ck_err c).
Definition set_ck_err x c := mkCk (ck_seen c) (ck_total c) (ck_pages c) (ck_keys c) (ck_height c)
  (ck_bad c) (ck_q c) (ck_qfull c) x.

(** The first message stays.
    Source: core/vol_btree.c [bt_ck_err] *)
Definition bt_ck_err (m : ck_msg) (c : bt_ck) : bt_ck :=
  match ck_err c with None => set_ck_err (Some m) c | Some _ => c end.

(** [None]: the range cannot be represented.
    Source: core/vol_btree.c [bt_ck_quarantine_add] *)
Definition bt_ck_quarantine_add (ptr : invfs_blkptr) (lo hi : bytes) (c : bt_ck) : option bt_ck :=
  match ck_q c with
  | None => Some c
  | Some q =>
      if BT_QUARANTINE_MAX <=? zlen q then None
      else if BT_QUARANTINE_KEY_MAX <? zlen lo then None
      else if BT_QUARANTINE_KEY_MAX <? zlen hi then None
      else Some (set_ck_q (Some (q ++ [mkRange (bp_pba ptr) lo hi])) c)
  end.

(** The loop over a node's keys: strictly ordered and within the bounds.
    Source: core/vol_btree.c:1205-1221 [bt_check_rec] *)
Fixpoint ck_order (order lower upper : ck_msg) (prev : option bytes) (es : list bt_ent)
    (lo hi : bytes) : option ck_msg :=
  match es with
  | [] => None
  | e :: es =>
      if match prev with Some p => 0 <=? vol_key_cmp p (e_k e) | None => false end then Some order
      else if negb (zlen lo =? 0) && (vol_key_cmp (e_k e) lo <? 0) then Some lower
      else if negb (zlen hi =? 0) && (0 <=? vol_key_cmp (e_k e) hi) then Some upper
      else ck_order order lower upper (Some (e_k e)) es lo hi
  end.

Section walk.
Context {V : Type} `{!PageStore V}.

(** The loop over the children; a child's range ends at the next separator. *)
Fixpoint ck_children (rec : invfs_blkptr -> bytes -> bytes -> bt_ck -> M V (bool * bt_ck))
    (es : list bt_ent) (hi : bytes) (c : bt_ck) : M V (bool * bt_ck) :=
  match es with
  | [] => mret (true, c)
  | e :: es =>
      let* r := rec (e_child e) (e_k e) (match es with e' :: _ => e_k e' | [] => hi end) c in
      let '(ok, c) := r in
      if ok then ck_children rec es hi c else mret (false, c)
  end.

(** The walk shared by [bt_check_rec] and [bt_check_tol_rec]; with [tol] an
    unreadable page is recorded and skipped.  The answer is [rc == 0].
    Source: core/vol_btree.c:1163-1268 [bt_check_rec] *)
Fixpoint bt_walk (tol : bool) (fuel : nat) (ptr : invfs_blkptr) (expect : Z) (lo hi : bytes)
    (depth : Z) (c : bt_ck) : M V (bool * bt_ck) :=
  match fuel with
  | O => mret (false, c)
  | S fuel =>
      if (bp_pba ptr =? 0) || (ck_total c <=? bp_pba ptr)
      then mret (false, bt_ck_err CkBadPba c)
      else if bit_get (ck_seen c) (bp_pba ptr) then mret (false, bt_ck_err CkCycle c)
      else
        let c := set_ck_pages (ck_pages c + 1) (set_ck_seen (bit_set (ck_seen c) (bp_pba ptr)) c) in
        let* r := mtry (bt_read ptr) in
        match r with
        | None =>
            let c := bt_ck_err CkUnreadable c in
            if tol then
              let c := set_ck_bad (ck_bad c + 1) c in
              mret (true, match bt_ck_quarantine_add ptr lo hi c with
                          | Some c => c
                          | None => set_ck_qfull true c
                          end)
            else mret (false, c)
        | Some (level, es) =>
            if (0 <=? expect) && negb (level =? expect) then mret (false, bt_ck_err CkLevel c)
            else if level =? INVFS_PAGE_LEVEL_LEAF then
              if negb (ck_height c =? 0) && negb (ck_height c =? depth)
              then mret (false, bt_ck_err CkDepth c)
              else
                let c := if ck_height c =? 0 then set_ck_height depth c else c in
                if zlen es <? 1 then mret (false, bt_ck_err CkEmptyLeaf c)
                else
                  match ck_order CkLeafOrder CkLeafBelow CkLeafAbove None es lo hi with
                  | Some m => mret (false, bt_ck_err m c)
                  | None => mret (true, set_ck_keys (ck_keys c + zlen es) c)
                  end
            else if zlen es <? 2 then mret (false, bt_ck_err CkFewChildren c)
            else
              match ck_order CkSepOrder CkSepBelow CkSepAbove None es lo hi with
              | Some m => mret (false, bt_ck_err m c)
              | None =>
                  ck_children (fun p lo hi => bt_walk tol fuel p (level - 1) lo hi (depth + 1))
                    es hi c
              end
        end
  end.

(** Source: core/vol_btree.c [bt_check_rec] *)
Definition bt_check_rec := bt_walk false.
(** Source: core/vol_btree.c [bt_check_tol_rec] *)
Definition bt_check_tol_rec := bt_walk true.

Definition ck_init (total : Z) (q : option (list bt_range)) : bt_ck :=
  mkCk (zeros ((total + 7) / 8)) total 0 0 0 0 q false None.

(** The statistics: pages, keys, height. *)
Definition ck_stat (c : bt_ck) : Z * Z * Z := (ck_pages c, ck_keys c, ck_height c).

(** Levels are 16-bit and fall by one at every step below the root. *)
Definition CK_FUEL : nat := Z.to_nat (2 ^ 16).

(** [total] is [v->sb.total_blocks].
    Source: core/vol_btree.c [btree_check] *)
Definition btree_check (total : Z) (root : invfs_blkptr) : M V (bool * (Z * Z * Z) * option ck_msg) :=
  if bp_pba root =? 0 then mret (true, (0, 0, 0), None)
  else
    let* r := bt_check_rec CK_FUEL root (-1) [] [] 1 (ck_init total None) in
    mret (fst r, ck_stat (snd r), ck_err (snd r)).

(** Source: core/vol_btree.c [btree_check_tolerant] *)
Definition btree_check_tolerant (total : Z) (root : invfs_blkptr)
    : M V (bool * (Z * Z * Z) * bt_quarantine * option ck_msg) :=
  if bp_pba root =? 0 then mret (true, (0, 0, 0), mkQ [] 0 false, None)
  else
    let* r := bt_check_tol_rec CK_FUEL root (-1) [] [] 1 (ck_init total (Some [])) in
    let c := snd r in
    mret (fst r, ck_stat c, mkQ (default [] (ck_q c)) (ck_bad c) (ck_qfull c), ck_err c).

(** ** Reachability and reclaim *)

Fixpoint mark_children (rec : invfs_blkptr -> bytes -> M V bytes) (es : list bt_ent) (seen : bytes)
    : M V bytes :=
  match es with
  | [] => mret seen
  | e :: es => let* seen := rec (e_child e) seen in mark_children rec es seen
  end.

(** The recursion marks a new page at every level, so [total] levels are enough.
    Source: core/vol_btree.c [bt_mark_rec] *)
Fixpoint bt_mark_rec (fuel : nat) (total : Z) (ptr : invfs_blkptr) (seen : bytes) : M V bytes :=
  match fuel with
  | O => mfail
  | S fuel =>
      if bp_pba ptr =? 0 then mret seen
      else
        mguard (bp_pba ptr <? total) ;;;
        if bit_get seen (bp_pba ptr) then mret seen
        else
          let seen := bit_set seen (bp_pba ptr) in
          let* page := ps_read ptr in
          if page_level page =? INVFS_PAGE_LEVEL_LEAF then mret seen
          else
            let* nd := bt_read ptr in
            mark_children (bt_mark_rec fuel total) (snd nd) seen
  end.

Fixpoint free_children (rec : invfs_blkptr -> bytes * Z -> M V (bytes * Z)) (es : list bt_ent)
    (sf : bytes * Z) : M V (bytes * Z) :=
  match es with
  | [] => mret sf
  | e :: es => let* sf := rec (e_child e) sf in free_children rec es sf
  end.

(** [sf] holds [seen] and the count of freed pages.
    Source: core/vol_btree.c [bt_free_rec] *)
Fixpoint bt_free_rec (fuel : nat) (total : Z) (ptr : invfs_blkptr) (sf : bytes * Z)
    : M V (bytes * Z) :=
  let '(seen, freed) := sf in
  match fuel with
  | O => mfail
  | S fuel =>
      if bp_pba ptr =? 0 then mret (seen, freed)
      else
        mguard (bp_pba ptr <? total) ;;;
        if bit_get seen (bp_pba ptr) then mret (seen, freed)
        else
          let seen := bit_set seen (bp_pba ptr) in
          let* page := ps_read ptr in
          if negb (page_level page =? INVFS_PAGE_LEVEL_LEAF) then
            let* nd := bt_read ptr in
            mtry (ps_free (bp_pba ptr)) ;;;
            free_children (bt_free_rec fuel total) (snd nd) (seen, freed + 1)
          else
            mtry (ps_free (bp_pba ptr)) ;;;
            mret (seen, freed + 1)
  end.

Definition reach_fuel (total : Z) : nat := S (Z.to_nat total).

(** Source: core/vol_btree.c [btree_mark_reachable] *)
Definition btree_mark_reachable (total : Z) (root : invfs_blkptr) (seen : bytes) : M V bytes :=
  if bp_pba root =? 0 then mret seen else bt_mark_rec (reach_fuel total) total root seen.

(** Source: core/vol_btree.c [btree_reclaim] *)
Definition btree_reclaim (total : Z) (old_root keep_root : invfs_blkptr) : M V Z :=
  if bp_pba old_root =? 0 then mret 0
  else
    let seen := zeros ((total + 7) / 8) in
    let* seen := bt_mark_rec (reach_fuel total) total keep_root seen in
    let* sf := bt_free_rec (reach_fuel total) total old_root (seen, 0) in
    mret (snd sf).

(** The pages the kept and the pinned root reach.
    Source: core/vol_btree.c:1953-1963 [btree_reclaim_pinned] *)
Definition mark_roots (total : Z) (keep_root pinned_root : invfs_blkptr) : M V bytes :=
  let seen := zeros ((total + 7) / 8) in
  let* seen := bt_mark_rec (reach_fuel total) total keep_root seen in
  if negb (bp_pba pinned_root =? 0)
  then bt_mark_rec (reach_fuel total) total pinned_root seen else mret seen.

(** Source: core/vol_btree.c [btree_reclaim_pinned] *)
Definition btree_reclaim_pinned (total : Z) (old_root keep_root pinned_root : invfs_blkptr) : M V Z :=
  if bp_pba old_root =? 0 then mret 0
  else
    let* seen := mark_roots total keep_root pinned_root in
    let* sf := bt_free_rec (reach_fuel total) total old_root (seen, 0) in
    mret (snd sf).
End walk.

Section keeps_walk.
Context {V : Type} `{!PageStore V} (R : V -> V -> Prop) `{!KeptRead R}.

Lemma keeps_ck_children rec es hi c :
  (forall p lo hi c, keeps R (rec p lo hi c)) -> keeps R (ck_children (V := V) rec es hi c).
Proof. intros Hr. revert c. induction es as [|e es IH]; intros c; cbn [ck_children]; keep_auto. Qed.

Lemma keeps_walk tol fuel ptr expect lo hi depth c :
  keeps R (bt_walk tol fuel ptr expect lo hi depth c).
Proof.
  revert ptr expect lo hi depth c. induction fuel as [|fuel IH]; intros; cbn [bt_walk]; [keep_auto|].
  destruct (_ || _); [keep_auto|]. destruct (bit_get _ _); [keep_auto|]. apply keeps_bind; [exact _|keep_auto|].
  intros [[level es]|]; [|keep_auto]. destruct (_ && _); [keep_auto|]. destruct (level =? _); [keep_auto|].
  destruct (_ <? _); [keep_auto|]. destruct (ck_order _ _ _ _ _ _ _); [keep_auto|].
  by apply keeps_ck_children.
Qed.

Lemma keeps_mark_children rec es seen :
  (forall p s, keeps R (rec p s)) -> keeps R (mark_children (V := V) rec es seen).
Proof. intros Hr. revert seen. induction es as [|e es IH]; intros seen; cbn [mark_children]; keep_auto. Qed.

Lemma keeps_mark fuel total ptr seen : keeps R (bt_mark_rec fuel total ptr seen).
Proof.
  revert ptr seen. induction fuel as [|fuel IH]; intros ptr seen; cbn [bt_mark_rec]; [keep_auto|].
  assert (forall es s, keeps R (mark_children (bt_mark_rec fuel total) es s))
    by (intros; by apply keeps_mark_children).
  keep_auto.
Qed.
End keeps_walk.
#[export] Hint Resolve keeps_walk keeps_mark_children keeps_mark : keeps.

(** ** The check is sound *)

(** An empty bound is no bound. *)
Definition bnd (hi : bytes) : option bytes := match hi with [] => None | _ => Some hi end.

Lemma bnd_gt k k' : key_lt k k' -> bnd k' = Some k'.
Proof. destruct k' as [|b k']; [|done]. by destruct k. Qed.

Lemma lo_test lo k : (negb (zlen lo =? 0) && (vol_key_cmp k lo <? 0)) = false <-> key_le lo k.
Proof.
  rewrite key_le_not_lt, <- key_cmp_lt. destruct lo as [|b lo].
  - cbn. split; [|done]. intros _ H%key_cmp_lt. by destruct k.
  - cbn [length]. rewrite (proj2 (Z.eqb_neq _ 0)) by lia. cbn [negb andb].
    rewrite Z.ltb_ge. lia.
Qed.

Lemma hi_test hi k : (negb (zlen hi =? 0) && (0 <=? vol_key_cmp k hi)) = false <-> below (bnd hi) k.
Proof.
  destruct hi as [|b hi]; [done|]. cbn [length]. rewrite (proj2 (Z.eqb_neq _ 0)) by lia.
  cbn [negb andb bnd below]. rewrite Z.leb_gt. apply key_cmp_lt.
Qed.

Lemma ck_order_spec o l u prev es lo hi :
  ck_order o l u prev es lo hi = None ->
  (match prev with Some p => Forall (key_lt p) (map e_k es) | None => True end) /\
  ksorted (map e_k es) /\ Forall (fun e => key_le lo (e_k e) /\ below (bnd hi) (e_k e)) es.
Proof.
  revert prev. induction es as [|e es IH]; intros prev; cbn [ck_order map].
  { intros _. split; [by destruct prev|]. split; constructor. }
  destruct (match prev with Some p => _ | None => _ end) eqn:Ep; [done|].
  destruct (_ && _) eqn:El; [done|]. destruct (negb (zlen hi =? 0) && _) eqn:Eh; [done|].
  intros (Hp & Hs & Hb)%IH. cbn in Hp. apply lo_test in El. apply hi_test in Eh.
  split; [|split].
  - destruct prev as [p|]; [|done]. apply Z.leb_gt, key_cmp_lt in Ep. constructor; [done|].
    eapply Forall_impl; [|exact Hp]. eauto with keys.
  - by apply ksorted_cons.
  - by constructor.
Qed.

Section sound.
Context {V : Type} `{!PageStore V} `{!PageStoreLaws V}.
Implicit Types v : V.

(** [rd] is what reading answers as long as the store is in a state of [S];
    addresses are unsigned. *)
Definition reads_as (S : V -> Prop) (rd : invfs_blkptr -> option (Z * list bt_ent)) : Prop :=
  (forall ptr v, 0 <= bp_pba ptr -> S v -> exists v', bt_read ptr v = (rd ptr, v') /\ S v') /\
  forall ptr level es, rd ptr = Some (level, es) -> Forall (fun e => 0 <= bp_pba (e_child e)) es.

(** Everything that can be read is an owned page with keys of the engine's
    length. *)
Definition reads_live v (rd : invfs_blkptr -> option (Z * list bt_ent)) : Prop :=
  forall ptr level es, rd ptr = Some (level, es) ->
    node_at v ptr level es /\ Forall (fun e => zlen (e_k e) <= BT_KEY_LIM) es.

Context (v0 : V) (St : V -> Prop) (rd : invfs_blkptr -> option (Z * list bt_ent)).
Context (Hrd : reads_as St rd) (Hlive : reads_live v0 rd).

(** What a successful walk of a subtree says. *)
Definition walked (ptr : invfs_blkptr) (expect : Z) (lo hi : bytes) (depth : Z) (c c' : bt_ck) : Prop :=
  exists h es kvs, rd ptr = Some (Z.of_nat h, es) /\ es <> [] /\
    forest (cell h v0) es (bnd hi) kvs /\ key_le lo (head_key es) /\
    (0 <= expect -> expect = Z.of_nat h) /\ ck_keys c' = ck_keys c + zlen kvs /\
    ck_height c' = depth + Z.of_nat h /\ (ck_height c = 0 \/ ck_height c = depth + Z.of_nat h).

Lemma children_sound h rec es hi depth :
  0 < depth ->
  (forall p lo hi c v, 0 <= bp_pba p -> St v ->
     exists b c' v', rec p lo hi c v = (Some (b, c'), v') /\ St v' /\
     (b = true -> walked p (Z.of_nat h) lo hi depth c c')) ->
  ksorted (map e_k es) -> Forall (fun e => zlen (e_k e) <= BT_KEY_LIM) es ->
  Forall (fun e => 0 <= bp_pba (e_child e)) es ->
  forall c v, St v -> exists b c' v', ck_children rec es hi c v = (Some (b, c'), v') /\ St v' /\
    (b = true -> exists kvs, forest (cell (S h) v0) es (bnd hi) kvs /\
       ck_keys c' = ck_keys c + zlen kvs /\
       (es = [] /\ c' = c \/ ck_height c' = depth + Z.of_nat h /\
          (ck_height c = 0 \/ ck_height c = depth + Z.of_nat h))).
Proof.
  intros Hd Hrec. induction es as [|e es IH]; intros Hs Hk Hpos c v Hv; cbn [ck_children].
  { exists true, c, v. split; [done|]. split; [done|]. intros _. exists []. split; [done|].
    cbn. split; [lia|auto]. }
  cbn [map] in Hs. apply ksorted_cons in Hs as [Hs Hlt]. apply Forall_cons_iff in Hk as [Hk0 Hk].
  apply Forall_cons_iff in Hpos as [Hp0 Hpos]. set (chi := match es with e' :: _ => e_k e' | [] => hi end).
  destruct (Hrec (e_child e) (e_k e) chi c v Hp0 Hv) as (b & c1 & v1 & E & Hv1 & Hw).
  rewrite (mbind_eq _ _ v (b, c1) v1) by done. destruct b.
  2: { exists false, c1, v1. split; [done|]. split; [done|done]. }
  destruct (Hw eq_refl) as (h' & es' & k1 & Erd & Hne & Hf & Hlo & Hex & Hkeys & Hh1 & Hh0).
  assert (h' = h) as -> by (specialize (Hex ltac:(lia)); lia).
  destruct (IH Hs Hk Hpos c1 v1 Hv1) as (b2 & c2 & v2 & E2 & Hv2 & Hw2).
  exists b2, c2, v2. split; [done|]. split; [done|]. intros Hb. destruct (Hw2 Hb) as (k2 & Hf2 & Hkeys2 & Hh2).
  exists (k1 ++ k2). split; [|split].
  - exists k1, k2. split; [done|]. split; [|done]. split; [done|]. exists es'.
    split; [by apply Hlive|]. split; [done|]. split; [done|].
    replace (next es (bnd hi)) with (bnd chi); [done|]. unfold chi. destruct es as [|e' es]; [done|].
    cbn [map] in Hlt. apply Forall_cons_iff in Hlt as [Hlt _]. cbn [next]. by eapply bnd_gt.
  - rewrite length_app. lia.
  - right. destruct Hh2 as [[-> ->]|[Hh2 _]]; [done|]. done.
Qed.

Lemma walk_sound fuel ptr expect lo hi depth c v :
  0 <= bp_pba ptr -> St v -> 0 < depth -> exists b c' v',
    bt_walk false fuel ptr expect lo hi depth c v = (Some (b, c'), v') /\ St v' /\
    (b = true -> walked ptr expect lo hi depth c c').
Proof.
  revert ptr expect lo hi depth c v. induction fuel as [|fuel IH]; intros ptr expect lo hi depth c v Hp Hv Hd;
    cbn [bt_walk]; [by exists false, c, v|].
  destruct (_ || _); [by eexists false, _, v|]. destruct (bit_get _ _); [by eexists false, _, v|].
  set (c1 := set_ck_pages _ _). assert (E1 : ck_keys c1 = ck_keys c /\ ck_height c1 = ck_height c) by done.
  clearbody c1. destruct (proj1 Hrd ptr v Hp Hv) as (v1 & E & Hv1).
  rewrite (mbind_eq _ _ v (rd ptr) v1) by (unfold mtry; by rewrite E).
  destruct (rd ptr) as [[level es]|] eqn:Er; [|by eexists false, _, v1].
  destruct (Hlive ptr level es Er) as [Hn Hk]. destruct (node_at_ok _ _ _ _ Hn) as (_ & _ & Hl).
  destruct (_ && negb _) eqn:Eex; [by eexists false, _, v1|].
  assert (Hex : 0 <= expect -> expect = level) by (intros; zbool; lia).
  destruct (Z.eqb_spec level INVFS_PAGE_LEVEL_LEAF) as [->|Hlev].
  - destruct (negb (_ =? 0) && _) eqn:Eh; [by eexists false, _, v1|].
    set (c2 := if _ =? 0 then _ else _).
    assert (E2 : ck_keys c2 = ck_keys c /\ ck_height c2 = depth /\
              (ck_height c = 0 \/ ck_height c = depth)).
    { unfold c2. destruct (Z.eqb_spec (ck_height c1) 0); zbool; cbn; lia. }
    clearbody c2. destruct (zlen es <? 1) eqn:En; [by eexists false, _, v1|].
    destruct (ck_order _ _ _ _ _ _ _) as [m|] eqn:Eo; [by eexists false, _, v1|].
    apply ck_order_spec in Eo as (_ & Hs & Hb). eexists true, _, v1. split; [done|]. split; [done|].
    intros _. exists O, es, (map pair_of es). cbn [ck_keys set_ck_keys ck_height Z.of_nat].
    assert (Hne : es <> []) by (intros ->; done).
    split; [done|]. split; [done|]. split.
    { apply leaf_forest. split; [done|]. split; [done|]. rewrite Forall_forall in *.
      intros e He. split; [by apply Hk|by apply Hb]. }
    split; [destruct es; [done|]; apply Forall_cons_iff in Hb as [[? _] _]; done|].
    rewrite length_map. split; [done|]. split; [lia|]. split; [lia|]. lia.
  - destruct (zlen es <? 2) eqn:En; [by eexists false, _, v1|].
    destruct (ck_order _ _ _ _ _ _ _) as [m|] eqn:Eo; [by eexists false, _, v1|].
    apply ck_order_spec in Eo as (_ & Hs & Hb).
    unfold INVFS_PAGE_LEVEL_LEAF in Hlev.
    destruct (children_sound (Z.to_nat (level - 1))
      (fun p lo hi => bt_walk false fuel p (level - 1) lo hi (depth + 1)) es hi (depth + 1))
      with (c := c1) (v := v1) as (b & c2 & v2 & E2 & Hv2 & Hw2); [lia| |done|done|by eapply (proj2 Hrd)|done|].
    { intros p lo' hi' c' v' Hp' Hv'. rewrite Z2Nat.id by lia. apply IH; [done|done|lia]. }
    exists b, c2, v2. split; [done|]. split; [done|]. intros Hbt.
    destruct (Hw2 Hbt) as (kvs & Hf & Hkeys & Hh). exists (S (Z.to_nat (level - 1))), es, kvs.
    assert (Hne : es <> []) by (intros ->; done).
    rewrite Nat2Z.inj_succ, Z2Nat.id in * by lia. replace (Z.succ (level - 1)) with level by lia.
    split; [done|]. split; [done|]. split; [done|].
    split; [destruct es; [done|]; apply Forall_cons_iff in Hb as [[? _] _]; done|].
    split; [done|]. split; [lia|]. destruct Hh as [[? _]|[? ?]]; [done|]. lia.
Qed.
End sound.

(** ** The tolerant check contains the damage *)

Lemma range_has_spec k r : range_has k r = true <-> key_le (r_lo r) k /\ below (bnd (r_hi r)) k.
Proof.
  unfold range_has. rewrite andb_true_iff, !negb_true_iff. by rewrite lo_test, hi_test.
Qed.

Section tolerant.
Context {V : Type} `{!PageStore V}.
Context (St : V -> Prop) (rd : invfs_blkptr -> option (Z * list bt_ent)).
Context (Hrd : reads_as St rd).

(** The children of a node with the ranges their parent gives them. *)
Fixpoint kids (P : invfs_blkptr -> bytes -> bytes -> Prop) (es : list bt_ent) (hi : bytes) : Prop :=
  match es with
  | [] => True
  | e :: es => P (e_child e) (e_k e) (match es with e' :: _ => e_k e' | [] => hi end) /\ kids P es hi
  end.

(** Every unreadable page below [ptr] has its range in [q]. *)
Fixpoint contained (n : nat) (q : list bt_range) (ptr : invfs_blkptr) (lo hi : bytes) : Prop :=
  match n with
  | O => False
  | S n =>
      match rd ptr with
      | None => mkRange (bp_pba ptr) lo hi ∈ q
      | Some (level, es) => level = INVFS_PAGE_LEVEL_LEAF \/ kids (contained n q) es hi
      end
  end.

Lemma kids_impl (P Q : invfs_blkptr -> bytes -> bytes -> Prop) es hi :
  (forall p lo hi, P p lo hi -> Q p lo hi) -> kids P es hi -> kids Q es hi.
Proof. intros H. induction es as [|e es IH]; [done|]. intros [? ?]. split; auto. Qed.

Lemma contained_mono n q q' ptr lo hi : q ⊆ q' -> contained n q ptr lo hi -> contained n q' ptr lo hi.
Proof.
  intros Hq. revert ptr lo hi. induction n as [|n IH]; intros ptr lo hi; [done|]. cbn [contained].
  destruct (rd ptr) as [[level es]|]; [|by intros ?%Hq].
  intros [?|Hk]; [by left|right]. by eapply kids_impl.
Qed.

(** What a step of the walk does to the quarantine. *)
Definition grows (c c' : bt_ck) (P : list bt_range -> Prop) : Prop :=
  ck_qfull c' = false -> ck_qfull c = false /\
  forall q, ck_q c = Some q -> exists q', ck_q c' = Some (q ++ q') /\ P (q ++ q').

Lemma grows_same c c' (P : list bt_range -> Prop) :
  ck_qfull c' = ck_qfull c -> ck_q c' = ck_q c -> (forall q, P q) -> grows c c' P.
Proof.
  intros E1 E2 HP. unfold grows. rewrite E1. intros Hf. split; [done|].
  intros q E. exists []. rewrite app_nil_r. by rewrite E2.
Qed.

Lemma grows_trans c1 c2 c3 (P Q : list bt_range -> Prop) :
  (forall q q', q ⊆ q' -> P q -> P q') ->
  grows c1 c2 P -> grows c2 c3 Q -> grows c1 c3 (fun q => P q /\ Q q).
Proof.
  intros Hm H1 H2 Hf. destruct (H2 Hf) as [Hf2 H2']. destruct (H1 Hf2) as [Hf1 H1']. split; [done|].
  intros q Hq. destruct (H1' q Hq) as (q1 & E1 & HP). destruct (H2' _ E1) as (q2 & E2 & HQ).
  exists (q1 ++ q2). rewrite app_assoc. split; [done|]. split; [|done].
  eapply Hm; [|exact HP]. intros x Hx. by apply elem_of_app; left.
Qed.

Lemma children_contained n rec es hi :
  (forall p lo hi c v, 0 <= bp_pba p -> St v ->
     exists b c' v', rec p lo hi c v = (Some (b, c'), v') /\ St v' /\
     (b = true -> grows c c' (fun q => contained n q p lo hi))) ->
  Forall (fun e => 0 <= bp_pba (e_child e)) es -> forall c v, St v -> exists b c' v', ck_children rec es hi c v = (Some (b, c'), v') /\ St v' /\
    (b = true -> grows c c' (fun q => kids (contained n q) es hi)).
Proof.
  intros Hrec. induction es as [|e es IH]; intros Hpos c v Hv; cbn [ck_children].
  { exists true, c, v. split; [done|]. split; [done|]. intros _. by apply grows_same. }
  apply Forall_cons_iff in Hpos as [Hp0 Hpos]. set (chi := match es with e' :: _ => e_k e' | [] => hi end).
  destruct (Hrec (e_child e) (e_k e) chi c v Hp0 Hv) as (b & c1 & v1 & E & Hv1 & Hw).
  rewrite (mbind_eq _ _ v (b, c1) v1) by done. destruct b; [|by exists false, c1, v1].
  destruct (IH Hpos c1 v1 Hv1) as (b2 & c2 & v2 & E2 & Hv2 & Hw2).
  exists b2, c2, v2. split; [done|]. split; [done|]. intros Hb. cbn [kids].
  eapply grows_trans; [|by apply Hw|by apply Hw2]. intros q q' Hq. by apply contained_mono.
Qed.

Lemma walk_contains fuel ptr expect lo hi depth c v :
  0 <= bp_pba ptr -> St v -> exists b c' v',
    bt_walk true fuel ptr expect lo hi depth c v = (Some (b, c'), v') /\ St v' /\
    (b = true -> grows c c' (fun q => contained fuel q ptr lo hi)).
Proof.
  revert ptr expect lo hi depth c v. induction fuel as [|fuel IH]; intros ptr expect lo hi depth c v Hp Hv;
    cbn [bt_walk contained]; [by exists false, c, v|].
  destruct (_ || _); [by eexists false, _, v|]. destruct (bit_get _ _); [by eexists false, _, v|].
  set (c1 := set_ck_pages _ _). assert (E1 : ck_q c1 = ck_q c /\ ck_qfull c1 = ck_qfull c) by done.
  clearbody c1. destruct (proj1 Hrd ptr v Hp Hv) as (v1 & E & Hv1).
  rewrite (mbind_eq _ _ v (rd ptr) v1) by (unfold mtry; by rewrite E).
  destruct (rd ptr) as [[level es]|] eqn:Er.
  - destruct (_ && negb _); [by eexists false, _, v1|].
    destruct (Z.eqb_spec level INVFS_PAGE_LEVEL_LEAF) as [->|Hlev].
    + destruct (negb (_ =? 0) && _); [by eexists false, _, v1|].
      set (c2 := if _ =? 0 then _ else _).
      assert (E2 : ck_q c2 = ck_q c1 /\ ck_qfull c2 = ck_qfull c1) by (unfold c2; by destruct (_ =? 0)).
      clearbody c2. destruct (zlen es <? 1); [by eexists false, _, v1|].
      destruct (ck_order _ _ _ _ _ _ _) as [m|]; [by eexists false, _, v1|].
      eexists true, _, v1. split; [done|]. split; [done|]. intros _.
      apply grows_same; cbn; [destruct E1, E2; congruence..|by left].
    + destruct (zlen es <? 2); [by eexists false, _, v1|].
      destruct (ck_order _ _ _ _ _ _ _) as [m|]; [by eexists false, _, v1|].
      destruct (children_contained fuel
        (fun p lo hi => bt_walk true fuel p (level - 1) lo hi (depth + 1)) es hi)
        with (c := c1) (v := v1) as (b & c2 & v2 & E2 & Hv2 & Hw2); [by intros; apply IH|by eapply (proj2 Hrd)|done|].
      exists b, c2, v2. split; [done|]. split; [done|]. intros Hb Hf.
      destruct E1 as [E1 E1']. destruct (Hw2 Hb Hf) as [Hf1 Hq]. split; [congruence|].
      intros q Eq. destruct (Hq q) as (q' & Eq' & Hk); [congruence|]. exists q'. auto.
  - set (c2 := set_ck_bad _ _).
    assert (E2 : ck_q c2 = ck_q c1 /\ ck_qfull c2 = ck_qfull c1).
    { unfold c2, bt_ck_err. by destruct (ck_err c1). }
    clearbody c2. eexists true, _, v1. split; [done|]. split; [done|]. intros _ Hf.
    unfold bt_ck_quarantine_add in *. destruct (ck_q c2) as [q0|] eqn:Eq0.
    2: { split; [destruct E1, E2; congruence|]. intros q Hq. destruct E1, E2. congruence. }
    destruct (BT_QUARANTINE_MAX <=? _); [done|]. destruct (_ <? zlen lo); [done|].
    destruct (_ <? zlen hi); [done|]. cbn in Hf. split; [destruct E1, E2; congruence|].
    intros q Hq. assert (q0 = q) as -> by (destruct E1, E2; congruence).
    exists [mkRange (bp_pba ptr) lo hi]. split; [done|]. apply elem_of_app. right.
    by apply list_elem_of_singleton.
Qed.

Lemma kids_nth P es hi i :
  kids P es hi -> (i < length es)%nat ->
  P (e_child (ent es i)) (e_k (ent es i)) (match drop (S i) es with e' :: _ => e_k e' | [] => hi end).
Proof.
  revert i. induction es as [|e es IH]; intros i; cbn [length]; [lia|]. intros [H Hk] Hi.
  destruct i as [|i]; [cbn; by rewrite drop_0|]. cbn [drop]. apply IH; [done|lia].
Qed.

Context `{!PageStoreLaws V}.
Implicit Types v : V.
(** Damage makes pages unreadable; what can be read is what was written. *)
Context (v0 : V) (Hwf : ps_wf v0).
Context (Hdmg : forall ptr level es, rd ptr = Some (level, es) -> node_at v0 ptr level es).

Lemma child_bound h es hi kvs i :
  forest (cell h v0) es (bnd hi) kvs -> (i < length es)%nat ->
  bnd (match drop (S i) es with e' :: _ => e_k e' | [] => hi end) = next (drop (S i) es) (bnd hi).
Proof.
  intros Hs%forest_sorted Hi. destruct (drop (S i) es) as [|e' t] eqn:E; [done|]. cbn [next].
  assert (Hl : es !! S i = Some e').
  { rewrite <- (Nat.add_0_r (S i)), <- lookup_drop, E. done. }
  apply (bnd_gt (e_k (ent es i))). rewrite <- (ent_lookup _ _ _ Hl). apply ksorted_lt; [done|].
  split; [lia|]. by eapply lookup_lt_Some.
Qed.

Lemma search_contained h n q e hi kvs key val depth v :
  St v -> contained n q (e_child e) (e_k e) hi -> cell (S h) v0 e (bnd hi) kvs ->
  (key, val) ∈ kvs -> existsb (range_has key) q = false -> (h < depth)%nat ->
  exists v', search_loop depth (e_child e) key v = (Some (Some val), v') /\ St v'.
Proof.
  revert n e hi kvs depth v. induction h as [|h IH]; intros [|n] e hi kvs [|depth] v Hv Hcon Hc Hin Hq Hd;
    try done; try lia; cbn [contained search_loop] in *;
    pose proof (cell_bounded _ _ _ _ _ Hc) as (_ & Hsort & Hb);
    (assert (Hkey : key_le (e_k e) key /\ below (bnd hi) key);
      [rewrite Forall_forall in Hb; apply Hb, in_map_iff; exists (key, val); split; [done|];
       by apply list_elem_of_In|]);
    (destruct (proj1 Hrd (e_child e) v) as (v1 & E & Hv1);
      [destruct Hc as (_ & es & Hn & _); pose proof (ps_live_range _ _ Hwf (proj1 Hn)); lia|done|]);
    (destruct (rd (e_child e)) as [[level es]|] eqn:Er;
      [|exfalso; apply not_true_iff_false in Hq; apply Hq, existsb_exists; eexists; split;
        [by apply list_elem_of_In|by apply range_has_spec]]);
    pose proof (Hdmg _ _ _ Er) as Hn; pose proof Hc as (_ & es' & Hn' & Hne & _ & Hf);
    destruct (node_at_inj _ _ _ _ _ _ Hn Hn') as [-> ->];
    pose proof (node_live _ _ _ _ Hwf Hn) as Hp0;
    rewrite (mbind_eq _ _ v tt v) by (by rewrite (proj2 (Z.eqb_neq _ _)) by done);
    rewrite (mbind_eq _ _ _ _ _ E).
  - cbn [Z.of_nat]. change (negb (0 =? INVFS_PAGE_LEVEL_LEAF)) with false. cbv iota.
    exists v1. split; [|done]. pose proof (leaf_lookup _ _ _ _ key Hf) as Hl. cbv zeta in Hl.
    rewrite (proj2 (to_map_lookup key val kvs Hsort) Hin) in Hl.
    destruct (_ && _); [|done]. injection Hl as Hl. by rewrite Hl.
  - rewrite level_S. cbn [negb]. destruct Hcon as [Hcon|Hcon]; [done|].
    destruct (child_split _ _ _ _ _ key Hf Hne) as
      (k1 & kc & k2 & -> & _ & Hi & _ & Hcell & _ & _ & _ & H1 & H2); [by apply Hkey|].
    set (i := bt_child_index es' key) in *. clearbody i.
    rewrite <- (child_bound _ _ _ _ i Hf Hi) in Hcell.
    pose proof Hcell as (_ & es2 & Hn2 & _). pose proof (node_live _ _ _ _ Hwf Hn2) as Hp1.
    rewrite (mbind_eq _ _ v1 tt v1) by (by rewrite (proj2 (Z.eqb_neq _ _)) by done).
    eapply (IH n (ent es' i)); [done|exact (kids_nth _ _ _ i Hcon Hi)|exact Hcell| |done|lia].
    rewrite !elem_of_app in Hin. destruct Hin as [Hin|[Hin|Hin]]; [|done|].
    + exfalso. apply not_in_gt in H1. apply H1. apply list_elem_of_fmap. by exists (key, val).
    + exfalso. apply not_in_lt in H2. apply H2. apply list_elem_of_fmap. by exists (key, val).
Qed.
End tolerant.

(** ** Reclaim frees nothing a kept root needs *)

Section reclaim.
Context {V : Type} `{!PageStore V} `{!PageStoreLaws V} `{!PageStoreLive V}.
Implicit Types v : V.
Context (v0 : V) (Hwf0 : ps_wf v0).

Definition marked (seen : bytes) (p : Z) : Prop := bit_get seen p = true.

(** A marked page has marked children, except the pages in progress. *)
Definition closed (seen : bytes) (busy : list Z) : Prop :=
  forall ptr level es, marked seen (bp_pba ptr) -> bp_pba ptr ∉ busy ->
    node_at v0 ptr level es -> level <> INVFS_PAGE_LEVEL_LEAF ->
    Forall (fun e => bp_pba (e_child e) <> 0 -> marked seen (bp_pba (e_child e))) es.

(** [seen'] is [seen] with more pages marked. *)
Definition more (total : Z) (seen seen' : bytes) : Prop :=
  length seen' = length seen /\ forall q, 0 <= q -> marked seen q -> marked seen' q.

Definition roomy_bits (total : Z) (seen : bytes) : Prop := total <= 8 * zlen seen.

Lemma more_refl total seen : more total seen seen.
Proof. by split. Qed.
Lemma more_trans total s1 s2 s3 : more total s1 s2 -> more total s2 s3 -> more total s1 s3.
Proof. intros [E1 H1] [E2 H2]. split; [congruence|auto]. Qed.

Lemma mark_one total seen p :
  roomy_bits total seen -> 0 <= p < total ->
  more total seen (bit_set seen p) /\ marked (bit_set seen p) p /\
  forall q, 0 <= q -> marked (bit_set seen p) q -> q = p \/ marked seen q.
Proof.
  unfold roomy_bits, more, marked. intros Hr Hp. split; [|split].
  - split; [apply length_bit_set|]. intros q Hq Hm. rewrite bit_get_set by lia. by rewrite Hm, orb_true_r.
  - rewrite bit_get_set by lia. by rewrite Z.eqb_refl.
  - intros q Hq. rewrite bit_get_set by lia. intros [?%Z.eqb_eq|?]%orb_true_iff; auto.
Qed.

Lemma closed_mark total seen p busy :
  roomy_bits total seen -> 0 <= p < total -> closed seen busy ->
  closed (bit_set seen p) (p :: busy).
Proof.
  intros Hr Hp Hc ptr level es Hm Hb Hn Hl. apply not_elem_of_cons in Hb as [Hne Hb].
  destruct (mark_one total seen p Hr Hp) as ([_ Hmore] & _ & Hinv).
  pose proof (ps_live_range _ _ Hwf0 (proj1 Hn)) as Hrng.
  destruct (Hinv (bp_pba ptr) ltac:(lia) Hm) as [?|Hm']; [done|].
  pose proof (Hc ptr level es Hm' Hb Hn Hl) as Hall. rewrite Forall_forall in *.
  intros e He Hz. pose proof (Hall e He Hz) as H. apply Hmore; [|done].
  destruct (node_at_ok _ _ _ _ Hn) as (Hok & _). rewrite Forall_forall in Hok.
  destruct (Hok e He) as (_ & _ & Hpo). rewrite (proj2 (Z.eqb_neq _ _)) in Hpo by done.
  destruct Hpo as (_ & Hpo). unfold ptr_ok in Hpo. lia.
Qed.

(** After marking: the subtree's root is marked and nothing is half done. *)
Definition mark_done total (seen : bytes) busy (ptr : invfs_blkptr) (seen' : bytes) : Prop :=
  more total seen seen' /\ marked seen' (bp_pba ptr) /\ closed seen' busy.

Lemma wp_mark_children L total fuel h v es hi kvs seen busy :
  (forall v e hi kvs seen, roomy_bits total seen -> ext v0 v -> cell (S h) v0 e hi kvs ->
     closed seen busy -> wp L 0 (bt_mark_rec fuel total (e_child e) seen) v
       (fun seen' _ => mark_done total seen busy (e_child e) seen')) ->
  roomy_bits total seen -> ext v0 v -> forest (cell (S h) v0) es hi kvs -> closed seen busy ->
  wp L 0 (mark_children (bt_mark_rec fuel total) es seen) v (fun seen' _ =>
    more total seen seen' /\ Forall (fun e => marked seen' (bp_pba (e_child e))) es /\
    closed seen' busy).
Proof.
  intros Hrec. revert v kvs seen. induction es as [|e es IH]; intros v kvs seen Hr He Hf Hcl.
  { apply wp_ret. split; [apply more_refl|]. split; [constructor|done]. }
  destruct Hf as (k1 & k2 & -> & Hc & Hf). cbn [mark_children].
  eapply wp_bind0; [keep_auto|by eapply Hrec|].
  intros s1 v1 He1 _ ([El Hm1] & Hp & Hcl1). pose proof (conj El Hm1 : more total seen s1) as Hmore1.
  eapply wp_post; [apply (IH v1 k2 s1)|].
  - unfold roomy_bits in *. by rewrite El.
  - by etrans.
  - done.
  - done.
  - intros s2 v2 _ _ (Hmore2 & Hall & Hcl2). split; [by eapply more_trans|]. split; [|done].
    constructor; [|done]. apply Hmore2; [|done]. destruct Hc as (_ & es' & Hn & _).
    pose proof (ps_live_range _ _ Hwf0 (proj1 Hn)). lia.
Qed.

Lemma wp_mark L total fuel h v e hi kvs seen busy :
  (forall q, ps_live v0 q -> q < total) -> roomy_bits total seen ->
  ext v0 v -> cell (S h) v0 e hi kvs -> closed seen busy -> (L -> (h < fuel)%nat) ->
  wp L 0 (bt_mark_rec fuel total (e_child e) seen) v
    (fun seen' _ => mark_done total seen busy (e_child e) seen').
Proof.
  intros Ht. revert fuel v e hi kvs seen busy.
  induction h as [|h IH]; intros fuel v e hi kvs seen busy Hr He Hc Hcl Hfu;
    (destruct fuel as [|fuel]; [apply wp_fail; intros l%Hfu; lia|]); cbn [bt_mark_rec];
    pose proof Hc as (_ & es & Hn & Hne & _ & Hf); pose proof (node_live _ _ _ _ Hwf0 Hn) as Hp0;
    pose proof (ps_live_range _ _ Hwf0 (proj1 Hn)) as Hrng; pose proof (Ht _ (proj1 Hn)) as Hlt;
    rewrite (proj2 (Z.eqb_neq _ _)) by done;
    (apply wp_guard; [intros _; by apply Z.ltb_lt|intros _]);
    (destruct (bit_get seen (bp_pba (e_child e))) eqn:Eb;
      [apply wp_ret; split; [apply more_refl|by split]|]);
    destruct (mark_one total seen (bp_pba (e_child e)) Hr ltac:(lia)) as (Hmore & Hm & Hinv);
    pose proof (closed_mark total seen (bp_pba (e_child e)) busy Hr ltac:(lia) Hcl) as Hcl1;
    pose proof (node_at_ext _ _ _ _ _ He Hn) as Hnv;
    (eapply wp_bind0; [keep_auto|by eapply wp_ps_read|]);
    intros pg v1 He1 _ ->;
    pose proof Hnv as (_ & Hlen & Hb & _ & _ & _ & Hd);
    destruct (decode_ok _ _ _ Hb Hlen Hd) as (_ & _ & <- & _ & _).
  - change (Z.of_nat 0 =? INVFS_PAGE_LEVEL_LEAF) with true. cbv iota. apply wp_ret.
    split; [done|]. split; [done|]. intros ptr level es' Hmk Hbu Hnp Hlev.
    destruct (decide (bp_pba ptr = bp_pba (e_child e))) as [Ep|Ep].
    + exfalso. apply Hlev. destruct Hnp as (_ & _ & _ & _ & _ & _ & D1), Hn as (_ & _ & _ & _ & _ & _ & D2).
      rewrite Ep, D2 in D1. by injection D1 as <- _.
    + eapply Hcl1; [done| |done|done]. by apply not_elem_of_cons.
  - rewrite level_S. eapply wp_bind0; [keep_auto| |].
    { apply wp_bt_read. exact (node_at_ext _ _ _ _ _ He1 Hnv). }
    intros nd v2 He2 _ ->. cbn [snd]. eapply wp_post.
    { apply (wp_mark_children L total fuel h v2 es hi kvs _ (bp_pba (e_child e) :: busy)).
      - intros v' e' hi' kvs' s' Hr' He' Hc' Hcl'. apply (IH fuel v' e' hi' kvs'); try done.
        intros l%Hfu. lia.
      - unfold roomy_bits in *. by rewrite length_bit_set.
      - etrans; [exact He|]. by etrans.
      - done.
      - done. }
    intros s' v3 _ _ (Hmore' & Hall & Hcl'). split; [by eapply more_trans|].
    split; [apply Hmore'; [lia|done]|]. intros ptr level es' Hmk Hbu Hnp Hlev.
    destruct (decide (bp_pba ptr = bp_pba (e_child e))) as [Ep|Ep].
    + destruct Hnp as (_ & _ & _ & _ & _ & _ & D1), Hn as (_ & _ & _ & _ & _ & _ & D2).
      rewrite Ep, D2 in D1. injection D1 as _ <-. eapply Forall_impl; [|exact Hall]. auto.
    + eapply Hcl'; [done| |done|done]. by apply not_elem_of_cons.
Qed.

(** A tree whose pages are marked survives anything that keeps the marked
    pages. *)
Lemma cell_keep seen v h e hi kvs :
  closed seen [] ->
  (forall q, marked seen q -> ps_live v0 q -> ps_live v q /\ ps_page v q = ps_page v0 q) ->
  cell (S h) v0 e hi kvs -> marked seen (bp_pba (e_child e)) -> cell (S h) v e hi kvs.
Proof.
  intros Hcl Hk. revert e hi kvs. induction h as [|h IH]; intros e hi kvs Hc Hm;
    destruct Hc as (Hl & es & Hn & Hne & Hle & Hf); (split; [exact Hl|]); exists es;
    (split; [destruct (Hk _ Hm (proj1 Hn)) as [Hlv E]; unfold node_at in *; rewrite E; tauto|]);
    (split; [done|]); (split; [done|]); eapply forest_impl; try exact Hf.
  - done.
  - intros e' hi' k' He' Hc'. apply IH; [done|].
    assert (Hall : Forall (fun e => bp_pba (e_child e) <> 0 -> marked seen (bp_pba (e_child e))) es).
    { apply (Hcl (e_child e) (Z.of_nat (S h))); [done|apply not_elem_of_nil|done|].
      unfold INVFS_PAGE_LEVEL_LEAF. lia. }
    rewrite Forall_forall in Hall. apply Hall; [by apply list_elem_of_In|].
    destruct Hc' as (_ & es' & Hn' & _). by apply (node_live _ _ _ _ Hwf0 Hn').
Qed.

(** The pages not freed since [seen0] are as they were. *)
Definition intact (seen0 : bytes) v (seen : bytes) : Prop :=
  ps_wf v /\ forall q, ps_live v0 q -> ~ marked seen q \/ marked seen0 q ->
    ps_live v q /\ ps_page v q = ps_page v0 q.

Lemma read_intact seen0 v seen ptr r v' :
  intact seen0 v seen -> ps_live v (bp_pba ptr) -> ps_read ptr v = (r, v') -> ps_ok v' = true ->
  intact seen0 v' seen /\ (ps_live v' (bp_pba ptr)) /\
  (forall pg, r = Some pg -> pg = ps_page v (bp_pba ptr)).
Proof.
  intros [Hw Hi] Hl E Hok. destruct (ps_read_law ptr v r v' Hw Hok Hl E) as (Hw' & Hp & Hlv & Hr).
  split; [|split; [by apply Hlv|intros pg Epg; by destruct (Hr pg Epg)]].
  split; [done|]. intros q Hq Hm. destruct (Hi q Hq Hm) as [Hlq Epq]. split; [by apply Hlv|].
  by rewrite Hp.
Qed.

(** A step of the walk: whatever happens, the pages marked before stay. *)
Definition free_safe (total : Z) (seen0 : bytes) (seen : bytes) (r : option (bytes * Z)) v' : Prop :=
  exists seen', more total seen seen' /\ intact seen0 v' seen' /\
    forall sf, r = Some sf -> fst sf = seen'.

Lemma keeps_free_children rec es sf :
  (forall p sf, mono (rec p sf)) -> mono (free_children (V := V) rec es sf).
Proof. intros Hr. revert sf. induction es as [|e es IH]; intros sf; cbn [free_children]; keep_auto. Qed.

Lemma keeps_free_rec fuel total ptr sf : mono (bt_free_rec (V := V) fuel total ptr sf).
Proof.
  revert ptr sf. induction fuel as [|fuel IH]; intros ptr [seen freed]; cbn [bt_free_rec]; [keep_auto|].
  assert (forall es sf, mono (free_children (bt_free_rec fuel total) es sf)) by (intros; by apply keeps_free_children).
  keep_auto.
Qed.

Lemma free_page_intact total seen0 seen v p r v' :
  roomy_bits total seen -> 0 <= p < total -> intact seen0 v seen -> ps_live v p ->
  bit_get seen p = false -> more total seen0 seen ->
  ps_free p v = (r, v') -> ps_ok v' = true -> intact seen0 v' (bit_set seen p).
Proof.
  intros Hr Hp [Hw Hi] Hl Hb Hs0 E Hok. destruct (mark_one total seen p Hr Hp) as ([_ Hm] & Hmp & Hinv).
  destruct (ps_free_law p v r v' Hw Hok Hl E) as (_ & Hw' & Hpg & _ & Hk). split; [done|].
  intros q Hq Hcase. pose proof (ps_live_range _ _ Hwf0 Hq) as Hrng.
  assert (Hne : q <> p).
  { intros ->. destruct Hcase as [Hn|Hs]; [done|]. apply Hs0 in Hs; [|lia]. unfold marked in Hs. congruence. }
  destruct (Hi q Hq) as [Hlq Eq].
  { destruct Hcase as [Hn|Hs]; [left|by right]. intros Hmq. apply Hn, Hm; [lia|done]. }
  split; [by apply Hk|]. by rewrite Hpg.
Qed.

Lemma bt_read_intact seen0 v seen ptr level es r v' :
  intact seen0 v seen -> ~ marked seen (bp_pba ptr) -> node_at v0 ptr level es ->
  bt_read ptr v = (r, v') -> ps_ok v' = true ->
  intact seen0 v' seen /\ (forall nd, r = Some nd -> nd = (level, es)).
Proof.
  intros Hi Hm Hn H Hok. destruct (proj2 Hi _ (proj1 Hn) (or_introl Hm)) as [Hl Ep].
  apply mbind_run in H as [(pg & v1 & E & H)|[E ->]].
  - assert (v1 = v') as ->.
    { destruct (bt_decode pg); by injection H as _ <-. }
    destruct (read_intact seen0 v seen ptr _ _ Hi Hl E Hok) as (Hi' & _ & Hpg). split; [done|].
    rewrite (Hpg pg eq_refl), Ep in H. destruct Hn as (_ & _ & _ & _ & _ & _ & Hd). rewrite Hd in H.
    injection H as <-. by intros nd [= <-].
  - by destruct (read_intact seen0 v seen ptr _ _ Hi Hl E Hok) as (Hi' & _ & _).
Qed.

Section free.
Context (total : Z) (seen0 : bytes) (Ht : forall q, ps_live v0 q -> q < total).

(** The walk below one record, started in any state it may be started in. *)
Definition frees (rec : invfs_blkptr -> bytes * Z -> M V (bytes * Z)) : Prop :=
  forall h e hi kvs seen freed v r v', cell (S h) v0 e hi kvs -> roomy_bits total seen ->
    more total seen0 seen -> intact seen0 v seen ->
    rec (e_child e) (seen, freed) v = (r, v') -> ps_ok v' = true -> free_safe total seen0 seen r v'.

Lemma free_children_safe rec h es hi kvs seen freed v r v' :
  (forall p sf, mono (rec p sf)) -> frees rec -> forest (cell (S h) v0) es hi kvs ->
  roomy_bits total seen -> more total seen0 seen -> intact seen0 v seen ->
  free_children rec es (seen, freed) v = (r, v') -> ps_ok v' = true ->
  free_safe total seen0 seen r v'.
Proof.
  intros Hmono Hrec. revert kvs seen freed v. induction es as [|e es IH];
    intros kvs seen freed v Hf Hr Hs Hi H Hok.
  { injection H as <- <-. exists seen. split; [apply more_refl|]. split; [done|]. by intros sf [= <-]. }
  destruct Hf as (k1 & k2 & -> & Hc & Hf). cbn [free_children] in H.
  apply mbind_run in H as [([s1 f1] & v1 & E & H)|[E ->]].
  2: { destruct (Hrec _ _ _ _ _ _ _ _ _ Hc Hr Hs Hi E Hok) as (s' & ? & ? & _). by exists s'. }
  assert (Hok1 : ps_ok v1 = true).
  { exact (keeps_free_children rec es (s1, f1) Hmono _ _ _ H Hok). }
  destruct (Hrec _ _ _ _ _ _ _ _ _ Hc Hr Hs Hi E Hok1) as (s' & Hm1 & Hi1 & E1).
  pose proof (E1 _ eq_refl) as E2. cbn in E2. subst s1.
  destruct (IH k2 s' f1 v1 Hf) as (s2 & Hm2 & Hi2 & E3); try done.
  - unfold roomy_bits in *. by rewrite (proj1 Hm1).
  - by eapply more_trans.
  - exists s2. split; [by eapply more_trans|done].
Qed.

Lemma free_rec_safe fuel : frees (bt_free_rec fuel total).
Proof.
  induction fuel as [|fuel IH]; intros h e hi kvs seen freed v r v' Hc Hr Hs Hi H Hok;
    assert (Hstay : free_safe total seen0 seen None v) by (exists seen; split; [apply more_refl|done]);
    cbn [bt_free_rec] in H; [by injection H as <- <-|].
  pose proof Hc as (_ & es & Hn & _ & _ & Hf). pose proof (node_live _ _ _ _ Hwf0 Hn) as Hp0.
  pose proof (ps_live_range _ _ Hwf0 (proj1 Hn)) as Hrng. pose proof (Ht _ (proj1 Hn)) as Hlt.
  set (p := bp_pba (e_child e)) in *. rewrite (proj2 (Z.eqb_neq p 0)) in H by done.
  rewrite (mbind_eq _ _ v tt v) in H by (by rewrite (proj2 (Z.ltb_lt p total))).
  destruct (bit_get seen p) eqn:Eb.
  { injection H as <- <-. exists seen. split; [apply more_refl|]. split; [done|]. by intros sf [= <-]. }
  assert (Hnm : ~ marked seen p) by (unfold marked; congruence).
  destruct (proj2 Hi _ (proj1 Hn) (or_introl Hnm)) as [Hl Ep]. fold p in Hl, Ep.
  assert (Hfail : forall v1 (r1 : option (bytes * Z)), r1 = None -> intact seen0 v1 seen ->
            free_safe total seen0 seen r1 v1).
  { intros v1 r1 -> Hi1. exists seen. split; [apply more_refl|done]. }
  assert (Hmk : more total seen (bit_set seen p)) by (by apply (mark_one total seen p Hr); lia).
  apply mbind_run in H as [(pg & v1 & E & H)|[E ->]].
  2: { destruct (read_intact seen0 v seen (e_child e) _ _ Hi Hl E Hok) as (Hi' & _). by apply Hfail. }
  assert (Hdec : page_level (ps_page v0 p) = Z.of_nat h).
  { destruct Hn as (_ & Hlen & Hb & _ & _ & _ & Hd).
    by destruct (decode_ok _ _ _ Hb Hlen Hd) as (_ & _ & -> & _). }
  assert (Hfree : forall v2 r2 v3, intact seen0 v2 seen -> ps_free p v2 = (r2, v3) -> ps_ok v3 = true ->
            intact seen0 v3 (bit_set seen p)).
  { intros v2 r2 v3 Hi2 E2 Hok2. destruct (proj2 Hi2 _ (proj1 Hn) (or_introl Hnm)) as [Hl2 _].
    eapply (free_page_intact total); eauto. lia. }
  destruct (negb (page_level pg =? _)) eqn:Elev.
  - apply mbind_run in H as [(nd & v2 & E2 & H)|[E2 ->]].
    2: { assert (Hok1 : ps_ok v1 = true) by exact (keeps_bt_read ok_back _ _ _ _ E2 Hok).
      destruct (read_intact seen0 v seen (e_child e) _ _ Hi Hl E Hok1) as (Hi1 & _).
      destruct (bt_read_intact seen0 v1 seen _ _ _ _ _ Hi1 Hnm Hn E2 Hok) as [Hi2 _]. by apply Hfail. }
    unfold mbind' at 1, mtry in H. destruct (ps_free p v2) as [r3 v3] eqn:E3.
    assert (Hok3 : ps_ok v3 = true).
    { exact (keeps_free_children _ _ _ (keeps_free_rec fuel total) _ _ _ H Hok). }
    assert (Hok2 : ps_ok v2 = true) by exact (mono_free _ _ _ _ E3 Hok3).
    assert (Hok1 : ps_ok v1 = true) by exact (keeps_bt_read ok_back _ _ _ _ E2 Hok2).
    destruct (read_intact seen0 v seen (e_child e) _ _ Hi Hl E Hok1) as (Hi1 & _ & Hpg).
    destruct (bt_read_intact seen0 v1 seen _ _ _ _ _ Hi1 Hnm Hn E2 Hok2) as [Hi2 Hnd].
    pose proof (Hfree v2 _ _ Hi2 E3 Hok3) as Hi3.
    rewrite (Hnd nd eq_refl) in H. cbn [snd] in H. destruct h as [|h].
    { rewrite (Hpg pg eq_refl) in Elev. fold p in Elev. by rewrite Ep, Hdec in Elev. }
    destruct (free_children_safe (bt_free_rec fuel total) h es hi kvs (bit_set seen p) (freed + 1) v3 r v')
      as (s' & Hm' & Hi' & E'); try done.
    + intros. apply keeps_free_rec.
    + unfold roomy_bits in *. by rewrite length_bit_set.
    + by eapply more_trans.
    + exists s'. split; [by eapply more_trans|done].
  - unfold mbind', mtry in H. destruct (ps_free p v1) as [r3 v3] eqn:E3. injection H as <- <-.
    assert (Hok1 : ps_ok v1 = true) by exact (mono_free _ _ _ _ E3 Hok).
    destruct (read_intact seen0 v seen (e_child e) _ _ Hi Hl E Hok1) as (Hi1 & _ & Hpg).
    exists (bit_set seen p). split; [done|]. split; [by eapply Hfree|]. by intros sf [= <-].
Qed.
End free.
End reclaim.

(** ** Results *)

Lemma bit_get_zeros n q : bit_get (zeros n) q = false.
Proof.
  unfold bit_get, nthZ, zeros. rewrite nth_lookup.
  destruct (replicate _ 0 !! _) as [x|] eqn:E; [apply lookup_replicate in E as [-> _]|];
    apply Z.testbit_0_l.
Qed.

Section results.
Context {V : Type} `{!PageStore V} `{!PageStoreLaws V} `{!PageStoreLive V}.
Implicit Types v : V.

Lemma seen_bits total : 0 <= total -> roomy_bits total (zeros ((total + 7) / 8)).
Proof.
  intros Ht. unfold roomy_bits. rewrite length_zeros.
  pose proof (Z.div_mod (total + 7) 8 ltac:(done)). pose proof (Z.mod_pos_bound (total + 7) 8 ltac:(lia)).
  rewrite Z2Nat.id by lia. lia.
Qed.

(** Marking the tree of a root, empty or not. *)
Lemma wp_mark_root v0 total n v root m seen :
  ps_wf v0 -> (forall q, ps_live v0 q -> q < total) -> roomy_bits total seen -> ext v0 v ->
  holds n v0 root m -> closed v0 seen [] ->
  wp False 0 (bt_mark_rec (reach_fuel total) total root seen) v (fun seen' _ =>
    more total seen seen' /\ closed v0 seen' [] /\ (n <> O -> marked seen' (bp_pba root))).
Proof.
  intros Hw Ht Hr He (kvs & Hh & _) Hcl. destruct n as [|h].
  - destruct Hh as [Hp _]. unfold reach_fuel. cbn [bt_mark_rec]. rewrite Hp. apply wp_ret.
    split; [apply more_refl|]. by split.
  - eapply wp_post; [by apply (wp_mark v0 Hw False total _ h v (mkEnt [] [] root) None kvs seen [])|].
    by intros s' v' _ _ (? & ? & ?).
Qed.

(** A kept root after pages outside [seen] were freed. *)
Lemma holds_keep v0 v seen n root m :
  ps_wf v0 -> closed v0 seen [] -> (n <> O -> marked seen (bp_pba root)) ->
  (forall q, marked seen q -> ps_live v0 q -> ps_live v q /\ ps_page v q = ps_page v0 q) ->
  holds n v0 root m -> holds n v root m.
Proof.
  intros Hw Hcl Hm Hk (kvs & Hh & <-). exists kvs. split; [|done]. destruct n as [|h]; [done|].
  apply (cell_keep v0 Hw seen v h (mkEnt [] [] root) None kvs); try done. by apply Hm.
Qed.

(** Marking both roots. *)
Lemma wp_mark_roots total v keep pinned nk np mk mp :
  ps_wf v -> 0 <= total -> (forall q, ps_live v q -> q < total) ->
  holds nk v keep mk -> holds np v pinned mp ->
  wp False 0 (mark_roots total keep pinned) v (fun seen _ =>
    roomy_bits total seen /\ closed v seen [] /\
    (nk <> O -> marked seen (bp_pba keep)) /\ (np <> O -> marked seen (bp_pba pinned))).
Proof.
  intros Hw H0 Ht Hk Hp. unfold mark_roots. cbv zeta.
  set (seen := zeros _). assert (Hroom : roomy_bits total seen) by (by apply seen_bits).
  assert (Hcl0 : closed v seen []).
  { intros ptr level es Hm. unfold marked, seen in Hm. by rewrite bit_get_zeros in Hm. }
  eapply wp_bind0; [|by apply (wp_mark_root v total nk v keep mk seen)|].
  { keep_auto. }
  intros s1 v1 He1 _ (Hmore1 & Hcl1 & Hm1).
  assert (Hroom1 : roomy_bits total s1) by (unfold roomy_bits in *; by rewrite (proj1 Hmore1)).
  destruct (Z.eqb_spec (bp_pba pinned) 0) as [E0|E0]; cbn [negb].
  - apply wp_ret. split; [done|]. split; [done|]. split; [done|]. intros Hn.
    destruct Hp as (kvs & Hh & _). destruct np as [|h]; [done|]. destruct Hh as (_ & es & Hn' & _).
    by apply (node_live _ _ _ _ Hw) in Hn'.
  - eapply wp_post; [by apply (wp_mark_root v total np v1 pinned mp)|].
    intros s2 v2 _ _ (Hmore2 & Hcl2 & Hm2). split; [unfold roomy_bits in *; by rewrite (proj1 Hmore2)|].
    split; [done|]. split; [|done]. intros Hn. apply Hmore2; [|by apply Hm1].
    destruct Hk as (kvs & Hh & _). destruct nk as [|h]; [done|]. destruct Hh as (_ & es & Hn' & _).
    pose proof (ps_live_range _ _ Hw (proj1 Hn')). cbn in *. lia.
Qed.

(** C11: reclaiming is safe.  [btree_reclaim_pinned] frees pages of the old
    tree, and whatever its outcome, including a walk that fails half-way,
    both the kept root and the save point's pinned root stand for the same
    maps as before, as long as no I/O error latched. *)
Theorem reclaim_keeps total v old keep pinned no nk np mo mk mp r v' :
  ps_wf v -> 0 <= total -> (forall q, ps_live v q -> q < total) ->
  holds no v old mo -> holds nk v keep mk -> holds np v pinned mp ->
  btree_reclaim_pinned total old keep pinned v = (r, v') -> ps_ok v' = true ->
  ps_wf v' /\ holds nk v' keep mk /\ holds np v' pinned mp.
Proof.
  intros Hw H0 Ht Ho Hk Hp H Hok. unfold btree_reclaim_pinned in H.
  destruct (bp_pba old =? 0) eqn:Eold; [by injection H as _ <-|].
  pose proof (wp_mark_roots total v keep pinned nk np mk mp Hw H0 Ht Hk Hp Hw) as Hmark.
  apply mbind_run in H as [(seen & v1 & E1 & H)|[E1 ->]].
  2: { destruct (Hmark _ _ E1) as [Hs _]. destruct (Hs Hok) as (? & ? & _). split; [done|].
    split; by eapply holds_ext. }
  assert (Hok1 : ps_ok v1 = true).
  { refine (keeps_bind ok_back _ _ (keeps_free_rec _ _ _ _) _ _ _ _ H Hok). keep_auto. }
  destruct (Hmark _ _ E1) as [Hs _]. destruct (Hs Hok1) as (Hw1 & He1 & Hq).
  destruct (Hq seen eq_refl) as (Hroom & Hcl & Hmk & Hmp).
  assert (Hsafe : exists rf, free_safe v total seen seen rf v').
  { destruct Ho as (kvs & Hh & _). destruct no as [|h]; [destruct Hh as [E0 _]; by rewrite E0 in Eold|].
    destruct (bt_free_rec (reach_fuel total) total old (seen, 0) v1) as [rf vf] eqn:Ef.
    assert (vf = v') as -> by (unfold mbind' in H; rewrite Ef in H; destruct rf; by injection H as _ <-).
    exists rf.
    apply (free_rec_safe v Hw total seen Ht (reach_fuel total) h (mkEnt [] [] old) None kvs seen 0 v1);
      try done. split; [done|]. intros q Hq' _. by apply He1. }
  destruct Hsafe as (rf & s' & _ & [Hw' Hint] & _). split; [done|].
  assert (Hkeep : forall q, marked seen q -> ps_live v q -> ps_live v' q /\ ps_page v' q = ps_page v q).
  { intros q Hm Hq'. apply Hint; [done|by right]. }
  split; by apply (holds_keep v v' seen).
Qed.

(** C17: the check is sound.  On a store that reads the same pages every time,
    [btree_check] always answers; and when it accepts a root, the root stands
    for a map with as many keys as it counted, in a tree of as many levels as
    it reports. *)
Theorem btree_check_sound total (St : V -> Prop) rd v root :
  reads_as St rd -> reads_live v rd -> 0 <= bp_pba root -> St v ->
  exists ok pages nkeys height err v',
    btree_check total root v = (Some (ok, (pages, nkeys, height), err), v') /\ St v' /\
    (ok = true -> exists m, holds (Z.to_nat height) v root m /\ Z.of_nat (size m) = nkeys).
Proof.
  intros Hrd Hlive Hp Hv. unfold btree_check. destruct (Z.eqb_spec (bp_pba root) 0) as [E|E].
  { exists true, 0, 0, 0, None, v. split; [done|]. split; [done|]. intros _. exists ∅.
    split; [by apply holds_null|]. by rewrite map_size_empty. }
  destruct (walk_sound v St rd Hrd Hlive CK_FUEL root (-1) [] [] 1 (ck_init total None) v Hp Hv)
    as (b & c & v1 & E1 & Hv1 & Hw); [done|].
  unfold bt_check_rec. rewrite (mbind_eq _ _ _ _ _ E1).
  exists b, (ck_pages c), (ck_keys c), (ck_height c), (ck_err c), v1. split; [done|]. split; [done|].
  intros Hb. destruct (Hw Hb) as (h & es & kvs & Er & Hne & Hf & _ & _ & Hk & Hh & _).
  cbn [ck_keys ck_init] in Hk. rewrite Hh, Hk.
  assert (Ht : root_at (S h) v root kvs).
  { split; [done|]. exists es. split; [by apply Hlive|]. split; [done|]. split; [apply key_nil_le|done]. }
  exists (to_map kvs). replace (Z.to_nat (1 + Z.of_nat h)) with (S h) by lia. split; [by exists kvs|].
  unfold to_map. rewrite (map_size_list_to_map kvs).
  - done.
  - apply ksorted_NoDup. by eapply (root_at_sorted (S h)).
Qed.

(** C18: damage is contained.  Let a root stand for [m], and let some pages
    have become unreadable since while the others read as they were written.
    When the tolerant check accepts the tree and could describe all the
    damage, every pair of [m] whose key lies outside the quarantined ranges
    is still found by a search. *)
Theorem tolerant_containment total (St : V -> Prop) rd v0 n root m v :
  ps_wf v0 -> holds n v0 root m -> (n <= BT_MAX_DEPTH)%nat ->
  reads_as St rd -> (forall ptr level es, rd ptr = Some (level, es) -> node_at v0 ptr level es) ->
  St v ->
  exists ok stat q err v1, btree_check_tolerant total root v = (Some (ok, stat, q, err), v1) /\ St v1 /\
    (ok = true -> q_full q = false -> forall key val, m !! key = Some val ->
       btree_quarantine_has q key = false ->
       exists v2, btree_search root key v1 = (Some (Some val), v2) /\ St v2).
Proof.
  intros Hw (kvs & Hr & <-) Hn Hrd Hdmg Hv. unfold btree_check_tolerant, btree_search.
  destruct n as [|h].
  { destruct Hr as [-> ->]. eexists true, _, _, _, v. split; [done|]. split; [done|].
    by intros _ _ key val Hm. }
  pose proof (root_at_sorted _ _ _ _ Hr) as Hs. pose proof Hr as (_ & es & Hnd & _). cbn [e_child] in Hnd.
  rewrite (proj2 (Z.eqb_neq _ _)) by (by apply (node_live _ _ _ _ Hw Hnd)).
  destruct (walk_contains St rd Hrd CK_FUEL root (-1) [] [] 1 (ck_init total (Some [])) v)
    as (b & c & v1 & E & Hv1 & Hc); [|done|].
  { pose proof (ps_live_range _ _ Hw (proj1 Hnd)). lia. }
  unfold bt_check_tol_rec. rewrite (mbind_eq _ _ _ _ _ E).
  eexists b, _, _, _, v1. split; [done|]. split; [done|]. intros Hb Hf key val Hm Hq.
  destruct (Hc Hb Hf) as [_ Hq']. destruct (Hq' [] eq_refl) as (q & Eq & Hcon).
  unfold btree_quarantine_has in Hq. cbn [q_range snd] in Hq. rewrite Eq in Hq.
  apply (search_contained St rd Hrd v0 Hw Hdmg h CK_FUEL q (mkEnt [] [] root) [] kvs); try done.
  by apply to_map_lookup.
Qed.
End results.

(** A key of a half-open range. *)
Definition within (lo hi k : bytes) : Prop := key_le lo k /\ below (bnd hi) k.

Lemma skip_lo_test lo hi :
  (negb (zlen hi =? 0) && (negb (zlen lo =? 0) && (0 <=? vol_key_cmp lo hi))) = false
  <-> below (bnd hi) lo.
Proof.
  destruct lo as [|b lo].
  - cbn [length Z.of_nat Z.eqb negb andb]. rewrite andb_false_r. split; [|done]. intros _.
    by destruct hi.
  - rewrite <- hi_test. cbn [length]. rewrite (proj2 (Z.eqb_neq (Z.of_nat (S (length lo))) 0)) by lia.
    done.
Qed.

Lemma range_meets_spec lo hi r :
  range_meets lo hi r = true <-> below (bnd hi) (r_lo r) /\ below (bnd (r_hi r)) lo.
Proof.
  unfold range_meets. rewrite andb_true_iff, !negb_true_iff. by rewrite !skip_lo_test.
Qed.

Lemma range_covers_spec r lo hi :
  bt_range_covers r lo hi = true <->
  key_le (r_lo r) lo /\ (r_hi r = [] \/ (hi <> [] /\ key_le hi (r_hi r))).
Proof.
  unfold bt_range_covers. rewrite <- (lo_test (r_lo r) lo). destruct (_ && _); [naive_solver|].
  destruct (r_hi r) as [|b h] eqn:Eh; [naive_solver|]. cbn [length].
  rewrite (proj2 (Z.eqb_neq _ 0)) by lia. cbn [negb]. destruct hi as [|b' hi]; [naive_solver|].
  cbn [length]. rewrite (proj2 (Z.eqb_neq _ 0)) by lia. rewrite <- key_cmp_le.
  destruct (Z.ltb_spec 0 (vol_key_cmp (b' :: hi) (b :: h))); split; try done.
  - intros (_ & [?|[_ ?]]); [done|lia].
  - intros _. split; [done|]. right. split; [done|lia].
Qed.

(** The larger of two keys. *)
Lemma key_max a b : exists k, key_le a k /\ key_le b k /\ (k = a \/ k = b).
Proof.
  destruct (decide (key_lt a b)) as [H|H%key_le_not_lt].
  - exists b. split; [by apply key_lt_le|]. split; [apply key_le_refl|by right].
  - exists a. split; [apply key_le_refl|]. split; [done|by left].
Qed.

(** The interval tests of the quarantine are exact.  A key is reported
    iff a range holds it; a non-empty key interval is reported iff it shares
    a key with a range; and an interval is covered by a range iff all its
    keys are in it. *)
Theorem quarantine_exact q lo hi k r :
  (btree_quarantine_has q k = true <->
     exists x, x ∈ q_range q /\ within (r_lo x) (r_hi x) k) /\
  (within lo hi lo -> Forall (fun x => within (r_lo x) (r_hi x) (r_lo x)) (q_range q) ->
     btree_quarantine_overlaps q lo hi = true <->
     exists x k, x ∈ q_range q /\ within (r_lo x) (r_hi x) k /\ within lo hi k) /\
  (within lo hi lo ->
     bt_range_covers r lo hi = true <-> forall k, within lo hi k -> within (r_lo r) (r_hi r) k).
Proof.
  split; [|split].
  - unfold btree_quarantine_has. rewrite existsb_exists. split.
    + intros (x & Hx%list_elem_of_In & Hr%range_has_spec). by exists x.
    + intros (x & Hx & Hr). exists x. split; [by apply list_elem_of_In|by apply range_has_spec].
  - intros [_ Hne] Hall. unfold btree_quarantine_overlaps. rewrite existsb_exists. split.
    + intros (x & Hx & [H1 H2]%range_meets_spec). rewrite Forall_forall in Hall.
      destruct (Hall x Hx) as [_ Hxne]. destruct (key_max lo (r_lo x)) as (m & Hm1 & Hm2 & Hm).
      exists x, m. split; [by apply list_elem_of_In|].
      destruct Hm as [-> | ->]; (split; split; try done; apply key_le_refl).
    + intros (x & m & Hx & [Hx1 Hx2] & [Hm1 Hm2]). exists x. split; [by apply list_elem_of_In|].
      apply range_meets_spec. split; by eapply below_le.
  - intros [_ Hne]. rewrite range_covers_spec. split.
    + intros [Hlo Hhi] m [Hm1 Hm2]. split; [eauto with keys|]. destruct Hhi as [-> |[Hn Hle]]; [done|].
      destruct hi as [|b hi]; [done|]. destruct (r_hi r) as [|b' h']; [done|].
      cbn [bnd below] in *. eauto with keys.
    + intros Hall. destruct (Hall lo) as [Hlo _]; [split; [apply key_le_refl|done]|]. split; [done|].
      destruct (r_hi r) as [|b' h'] eqn:Eh; [by left|right]. cbn [bnd below] in Hall.
      destruct (key_max lo (b' :: h')) as (m & Hm1 & Hm2 & Hm).
      assert (Hno : ~ below (bnd hi) m).
      { intros Hb. destruct (Hall m (conj Hm1 Hb)) as [_ Hlt]. by apply key_le_not_lt in Hm2. }
      destruct hi as [|b hi]; [by destruct Hno|]. split; [done|]. cbn [bnd below] in *.
      apply key_le_not_lt in Hno. destruct Hm as [-> | ->]; [|done].
      by apply key_le_not_lt in Hno.
Qed.

Lemma quarantine_exact_witness :
  btree_quarantine_overlaps (mkQ [mkRange 9 [2] [5]] 1 false) [4] [] = true.
Proof.
  apply (quarantine_exact (mkQ [mkRange 9 [2] [5]] 1 false) [4] [] [] (mkRange 9 [2] [5])).
  - split; [apply key_le_refl|done].
  - constructor; [split; vm_compute; done|constructor].
  - exists (mkRange 9 [2] [5]), [4]. split; [left|]. split; split; vm_compute; done.
Defined.

(** ** The checks on a volume *)

Section volume.
Context {D X : Type} `{!Dev D, !DevLaws D}.
Implicit Types v : vol D X.

(** What a block pointer reads on a volume without pending faults. *)
Definition vol_page v (ptr : invfs_blkptr) : option bytes :=
  let page := page_at v (bp_pba ptr) in
  if (0 <=? bp_pba ptr) && mbuf_page_allocated v (bp_pba ptr) &&
     ((page_checksum page =? bp_checksum ptr) && (page_gen page =? bp_gen ptr)) &&
     mbuf_page_validate page
  then Some page else None.

Definition vol_rd v (ptr : invfs_blkptr) : option (Z * list bt_ent) :=
  match vol_page v ptr with Some page => bt_decode page | None => None end.

(** The states of the same volume without pending faults. *)
Definition vol_st v v' : Prop := vsame v v' /\ quiet v'.

(** The pages the bitmap names can be accessed. *)
Definition alloc_dok v : Prop :=
  forall p, 0 <= p -> mbuf_page_allocated v p = true -> blk_ok v p.

Lemma allocated_range v p : 0 <= p -> mbuf_page_allocated v p = true -> 0 < p < total_blocks (vsb v).
Proof. unfold mbuf_page_allocated. intros Hp. destruct (_ || _) eqn:E; zbool; [done|]. lia. Qed.

Lemma read_ptr_total v v1 ptr :
  0 <= bp_pba ptr -> alloc_dok v -> vol_st v v1 ->
  exists v2, mbuf_read_ptr ptr v1 = (vol_page v ptr, v2) /\ vol_st v v2.
Proof.
  intros Hp Hok [Hs Hq]. pose proof Hs as ((Ev & _ & Od) & _ & Hview).
  assert (Ea : forall q, mbuf_page_allocated v1 q = mbuf_page_allocated v q) by (by rewrite Ev).
  assert (Et : vsb v1 = vsb v) by (by rewrite Ev).
  unfold mbuf_read_ptr, vol_page. set (p := bp_pba ptr) in *. rewrite (proj2 (Z.leb_le 0 p)) by done.
  destruct (mbuf_page_allocated v p) eqn:Eal; cbn [andb].
  2: { exists v1. split; [|done]. destruct (Z.eqb_spec p 0) as [->|]; [done|].
    rewrite (mbind_eq _ _ v1 tt v1) by done. rewrite (mbind_eq _ _ v1 v1 v1) by done.
    by rewrite Ea, Eal. }
  pose proof (allocated_range v p Hp Eal) as Hr.
  destruct (mbuf_read_live p v1) as (v2 & E & Hs2 & Hq2 & _); [done|by rewrite Et|apply Od; by apply Hok|].
  assert (Epg : page_at v1 p = page_at v p) by (apply vrange_ext; intros; apply Hview).
  exists v2. split; [|split; [by eapply vsame_trans|done]].
  rewrite (mbind_eq _ _ v1 tt v1) by (by rewrite (proj2 (Z.eqb_neq p 0)) by lia).
  rewrite (mbind_eq _ _ v1 v1 v1) by done.
  rewrite (mbind_eq _ _ v1 tt v1) by (by rewrite Ea, Eal).
  rewrite (mbind_eq _ _ _ _ _ E), Epg. clear E Epg. generalize (page_at v p) as pg. intros pg.
  destruct (_ && _); [|done]. destruct (mbuf_page_validate pg); done.
Qed.

Lemma bt_read_eq ptr v : bt_read ptr v = (let* page := mbuf_read_ptr ptr in
  match bt_decode page with Some r => mret r | None => mfail end) v.
Proof. done. Qed.

Lemma length_page_at v p : zlen (page_at v p) = INVFS_BLOCK_SIZE.
Proof. by apply length_vrange. Qed.

(** Reading is a function of the volume while no fault is pending. *)
Lemma vol_reads_as v :
  alloc_dok v -> (forall p, 0 <= p -> mbuf_page_allocated v p = true -> bytes_ok (page_at v p)) ->
  reads_as (vol_st v) (vol_rd v).
Proof.
  intros Hok Hb. split.
  - intros ptr v1 Hp Hv. destruct (read_ptr_total v v1 ptr Hp Hok Hv) as (v2 & E & Hv2). exists v2.
    split; [|done]. rewrite bt_read_eq. unfold vol_rd, mbind'. rewrite E. destruct (vol_page v ptr); [|done].
    by destruct (bt_decode _).
  - intros ptr level es. unfold vol_rd, vol_page. destruct (_ && mbuf_page_validate _) eqn:E; [|done].
    intros Hd. apply andb_true_iff in E as [E _]. apply andb_true_iff in E as [E _].
    apply andb_true_iff in E as [E0%Z.leb_le E]. destruct (decode_ok _ _ _ (Hb _ E0 E) (length_page_at v _) Hd) as (Hes & _).
    eapply Forall_impl; [|exact Hes]. intros e (_ & _ & He). destruct (_ =? _).
    + destruct He as (_ & _ & ->). done.
    + destruct He as (_ & [? _] & _). done.
Qed.

(** The allocated blocks that validate as pages are owned pages. *)
Definition pages_owned v : Prop :=
  forall p, 0 <= p -> mbuf_page_allocated v p = true -> mbuf_page_validate (page_at v p) = true ->
    live v p /\ bytes_ok (page_at v p) /\
    forall level es, bt_decode (page_at v p) = Some (level, es) ->
      Forall (fun e => zlen (e_k e) <= BT_KEY_LIM) es.

Lemma vol_reads_live v : pages_owned v -> reads_live v (vol_rd v).
Proof.
  intros Ho ptr level es. unfold vol_rd, vol_page. destruct (_ && mbuf_page_validate _) eqn:E; [|done].
  intros Hd. apply andb_true_iff in E as [E Hv]. apply andb_true_iff in E as [Ea E].
  apply andb_true_iff in Ea as [E0%Z.leb_le Ea].
  apply andb_true_iff in E as [Ec%Z.eqb_eq Eg%Z.eqb_eq]. destruct (Ho _ E0 Ea Hv) as (Hl & Hb & Hk).
  split; [|by eapply Hk]. split; [exact Hl|]. split; [apply length_page_at|]. done.
Qed.
End volume.

Section demo.
Import Ram.

(** The demo volume with one pair stored. *)
Definition one_vol : vol ram unit := snd (btree_upsert null_ptr [1] [7] tree_vol).

Lemma one_vol_facts :
  exists root, bp_pba root = 2 /\ ps_wf one_vol /\ ps_quiet one_vol /\
    root_at 1 one_vol root [([1], [7])].
Proof.
  destruct tree_vol_ready as (Hw & Hq & Hr).
  destruct (wp_run _ 1 19 _ _ _ (wp_upsert True 0 tree_vol null_ptr [] [1] [7] (conj eq_refl eq_refl)
    eq_refl (demo_pair_ok 1 7 eq_refl) (fun _ => eq_refl)) I Hw Hq Hr)
    as (root & v & E & Hw' & _ & (_ & n & Hn & Hh) & Hq' & _).
  assert (Ev : v = one_vol) by (unfold one_vol; by rewrite E). subst v.
  exists root. split.
  { assert (Ep : option_map bp_pba (fst (btree_upsert null_ptr [1] [7] tree_vol)) = Some 2)
      by (vm_compute; reflexivity).
    rewrite E in Ep. by injection Ep. }
  split; [done|]. split; [done|]. destruct n as [|[|n]]; [by destruct Hh|done|lia].
Qed.

Lemma one_vol_allocated p :
  0 <= p -> mbuf_page_allocated one_vol p = true -> p = 1 \/ p = 2.
Proof.
  intros Hp Ha. pose proof (allocated_range one_vol p Hp Ha) as Hr. unfold mbuf_page_allocated in Ha.
  destruct (_ || _); [done|].
  assert (Hb : forallb (fun p => negb (bit_get (bitmap (v_a one_vol)) p) || (p =? 1) || (p =? 2))
            (seqZ 1 39) = true) by (vm_compute; reflexivity).
  rewrite forallb_forall in Hb. specialize (Hb p). rewrite Ha in Hb. cbn [negb orb] in Hb.
  assert (Ht : total_blocks (vsb one_vol) = 40) by (vm_compute; reflexivity). rewrite Ht in Hr.
  assert (Hin : In p (seqZ 1 39)) by (apply list_elem_of_In, elem_of_seqZ; lia).
  apply orb_true_iff in Hb as [?%Z.eqb_eq|?%Z.eqb_eq]; auto.
Qed.

Lemma one_vol_block1 : mbuf_page_validate (page_at one_vol 1) = false /\ bytes_ok (page_at one_vol 1).
Proof. split; [vm_compute; reflexivity|]. apply bytes_okb_ok. vm_compute. reflexivity. Qed.

Lemma one_page_owned (v : vol ram unit) root kvs :
  (forall p, 0 <= p -> mbuf_page_allocated v p = true -> p = 1 \/ p = 2) ->
  mbuf_page_validate (page_at v 1) = false -> bytes_ok (page_at v 1) ->
  bp_pba root = 2 -> root_at 1 v root kvs ->
  pages_owned v /\ alloc_dok v /\
  forall p, 0 <= p -> mbuf_page_allocated v p = true -> bytes_ok (page_at v p).
Proof.
  intros Hall Hv1 Hb1 Ep (_ & es & (Hl & _ & Hb & _ & _ & _ & Hd) & _ & _ & Hf).
  cbn [e_child] in *. rewrite Ep in *.
  assert (Epg : ps_page v 2 = page_at v 2) by reflexivity. rewrite Epg in Hb, Hd. split; [|split].
  - intros p Hp Ha Hv. destruct (Hall p Hp Ha) as [-> | ->]; [by rewrite Hv1 in Hv|].
    split; [exact Hl|]. split; [exact Hb|]. intros level es' Hd'. rewrite Hd in Hd'.
    injection Hd' as _ <-. by eapply forest_klen.
  - intros p _ _. apply block_dok.
  - intros p Hp Ha. by destruct (Hall p Hp Ha) as [-> | ->].
Qed.

Lemma one_vol_owned :
  pages_owned one_vol /\ alloc_dok one_vol /\
  forall p, 0 <= p -> mbuf_page_allocated one_vol p = true -> bytes_ok (page_at one_vol p).
Proof.
  destruct one_vol_facts as (root & Ep & _ & _ & Hr).
  exact (one_page_owned one_vol root _ one_vol_allocated (proj1 one_vol_block1) (proj2 one_vol_block1) Ep Hr).
Qed.

Lemma one_vol_st : vol_st one_vol one_vol.
Proof.
  destruct one_vol_facts as (_ & _ & _ & [Hq Hc] & _). destruct (dquiet_wf _ Hq) as [Hd Hl].
  split; [by apply vsame_refl|by split].
Qed.

Lemma btree_check_sound_witness :
  exists root ok pages nkeys height err v', bp_pba root = 2 /\
    btree_check 40 root one_vol = (Some (ok, (pages, nkeys, height), err), v') /\
    (ok = true -> exists m, holds (Z.to_nat height) one_vol root m /\ Z.of_nat (size m) = nkeys).
Proof.
  destruct one_vol_facts as (root & Ep & _). destruct one_vol_owned as (Ho & Hd & Hb).
  destruct (btree_check_sound 40 (vol_st one_vol) (vol_rd one_vol) one_vol root (vol_reads_as _ Hd Hb)
    (vol_reads_live _ Ho)) as (ok & pages & nkeys & height & err & v' & E & _ & H); [lia|exact one_vol_st|].
  exists root, ok, pages, nkeys, height, err, v'. split; [exact Ep|]. split; [exact E|exact H].
Defined.

Lemma tolerant_containment_witness :
  exists root ok stat q err v1, bp_pba root = 2 /\
    btree_check_tolerant 40 root one_vol = (Some (ok, stat, q, err), v1) /\
    (ok = true -> q_full q = false -> btree_quarantine_has q [1] = false ->
     exists v2, btree_search root [1] v1 = (Some (Some [7]), v2)).
Proof.
  destruct one_vol_facts as (root & Ep & Hw & _ & Hr). destruct one_vol_owned as (Ho & Hd & Hb).
  destruct (tolerant_containment 40 (vol_st one_vol) (vol_rd one_vol) one_vol 1 root {[ [1] := [7] ]} one_vol Hw)
    as (ok & stat & q & err & v1 & E & _ & H).
  - exists [([1], [7])]. split; [exact Hr|reflexivity].
  - unfold BT_MAX_DEPTH. lia.
  - exact (vol_reads_as _ Hd Hb).
  - intros ptr level es Erd. exact (proj1 (vol_reads_live _ Ho _ _ _ Erd)).
  - exact one_vol_st.
  - exists root, ok, stat, q, err, v1. split; [exact Ep|]. split; [exact E|]. intros Hk Hf Hq.
    destruct (H Hk Hf [1] [7] (lookup_singleton_eq _ _) Hq) as (v2 & E2 & _). by exists v2.
Defined.

Lemma live_below (v : vol ram unit) q : ps_live v q -> q < total_blocks (vsb v).
Proof. by intros [? _]. Qed.

Lemma reclaim_keeps_witness :
  exists total old keep (v : vol ram unit) m, holds 1 v old {[ [1] := [7] ]} /\
    (ps_ok (snd (btree_reclaim_pinned total old keep null_ptr v)) = true ->
     exists n, holds n (snd (btree_reclaim_pinned total old keep null_ptr v)) keep m).
Proof.
  destruct one_pair as (old & v & Hw & Hq & Hr & Hh).
  destruct (wp_run _ (upsert_room 1) 6 _ _ _ (wp_op (Upsert [2] [8]) 1 v old _ Hh eq_refl
    (demo_pair_ok 2 8 eq_refl)) eq_refl Hw Hq Hr) as (keep & v1 & E & Hw1 & He & (n & _ & Hn) & _).
  exists (total_blocks (vsb v1)), old, keep, v1, (op_map (Upsert [2] [8]) {[ [1] := [7] ]}).
  split; [exact (holds_ext _ _ _ _ _ He Hh)|]. intros Ho. exists n.
  refine (proj1 (proj2 (reclaim_keeps (total_blocks (vsb v1)) v1 old keep null_ptr 1 n 0 _ _ ∅ _ _ Hw1 _ _
    (holds_ext _ _ _ _ _ He Hh) Hn (holds_null v1 null_ptr eq_refl) (surjective_pairing _) Ho))).
  - pose proof (mw_size v1 Hw1). lia.
  - exact (live_below v1).
Defined.
End demo.
End Check.
