(* ===== verification/Frame.v ===== *)
(** * What tree operations leave of a volume

    The trees write fresh pages only.  On a storage without pending faults
    everything that was allocated, and the reserved blocks, keep their bytes;
    the allocator keeps its books; of the handle only the allocation state
    and the notes of the orphan collector change.  This is what the delta log
    and the root descriptor rely on while a tree is being rewritten. *)

From S2P Require Import Prelude Dev Alloc Volume Page PageLogic Metabuf MetaLive Keys Node BTree Check.

Module Frame.
Import Alloc Volume Page PageLogic Metabuf MetaLive Keys Node BTree Check.

(** A block of the metadata zone taken off the books. *)
Lemma mb_take_inv p a :
  alloc_inv a -> metadata_zone_start (sb a) <= p < metadata_zone_start (sb a) + metadata_zone_blocks (sb a) ->
  bit_get (bitmap a) p = false -> alloc_inv (mb_take p a).
Proof.
  intros Hi Hp Hb. destruct (mb_take_facts p a) as [Ec Eb]. destruct (acfg_fields _ _ Ec) as [Es En].
  assert (Ez : raw_z (mb_take p a) = raw_z a /\ shadow_z (mb_take p a) = shadow_z a /\
               free_blocks (mb_take p a) = u64 (free_blocks a - 1)).
  { unfold mb_take. match goal with |- context [vol_bm_dirty p ?x] => set (a1 := x) end.
    destruct (acore_fields _ _ (bm_dirty_core p a1)) as (_ & _ & _ & _ & Er & Eh & _ & Ef).
    assert (raw_z a1 = raw_z a /\ shadow_z a1 = shadow_z a /\ free_blocks a1 = free_blocks a) as (E1 & E2 & E3)
      by (unfold a1; cbv zeta; by destruct (meta_type_bitmap _)).
    cbv zeta. destruct (_ =? 0); cbn; rewrite Er, Eh, Ef, E1, E2, E3; done. }
  destruct Ez as (Er & Eh & Ef). pose proof (ai_layout a Hi) as Hl. pose proof (lay_size _ Hl).
  pose proof (lay_raw _ Hl). pose proof (lay_shadow _ Hl). pose proof (lay_end _ Hl). pose proof (lay_meta _ Hl).
  pose proof (ai_bitmap a Hi). change (bit_set (bitmap a) p) with (set_run (bitmap a) p 1) in Eb.
  assert (Hc : count_free (set_run (bitmap a) p 1) 0 (total_blocks (sb a)) = count_free (bitmap a) 0 (total_blocks (sb a)) - 1).
  { apply count_set_run; try lia. intros j Hj. by replace j with p by lia. }
  pose proof (count_bound (set_run (bitmap a) p 1) 0 (total_blocks (sb a)) ltac:(lia)).
  pose proof (count_bound (bitmap a) 0 (total_blocks (sb a)) ltac:(lia)).
  assert (Hout : forall s m, p < s -> 0 <= m -> s + m <= total_blocks (sb a) ->
            count_free (set_run (bitmap a) p 1) s m = count_free (bitmap a) s m).
  { intros s m Hs Hm Hsm. apply (count_run_out _ _ _ _ p 1); [|lia|lia].
    intros j Hj Hr. rewrite bit_get_set_run by lia. by rewrite Hr. }
  constructor; rewrite ?Es, ?En, ?Eb, ?Er, ?Eh; try apply Hi.
  - by rewrite length_set_run.
  - rewrite Ef. unfold vol_count_free. rewrite Es, Eb, Hc, (ai_free a Hi). unfold vol_count_free.
    apply u64_id. lia.
  - rewrite Hout by lia. apply Hi.
  - rewrite Hout by lia. apply Hi.
Qed.

(** A block below the raw zone given back. *)
Lemma free_low_inv p a :
  alloc_inv a -> 0 < p < raw_zone_start (sb a) -> bit_get (bitmap a) p = true -> alloc_inv (vol_free_run p 1 a).
Proof.
  intros Hi Hp Hb. pose proof (ai_layout a Hi) as Hl. pose proof (lay_size _ Hl). pose proof (lay_raw _ Hl).
  pose proof (lay_shadow _ Hl). pose proof (lay_end _ Hl). pose proof (lay_meta _ Hl). pose proof (ai_bitmap a Hi).
  rewrite vol_free_run_split. pose proof (freed_bits_core p 1 a ltac:(lia)) as Ec.
  apply acore_fields in Ec as (_ & Es & En & Eb & Er & Eh & _ & Ef). cbn in Es, En, Eb, Er, Eh, Ef.
  generalize dependent (freed_bits p 1 a). intros a1 Es En Eb Er Eh Ef. set (a2 := set_free_blocks _ a1).
  assert (Ecz : credit_zone p 1 a2 = a2).
  { unfold credit_zone. change (sb a2) with (sb a1). change (a_ndev a2) with (a_ndev a1). rewrite Es, En.
    rewrite (proj2 (Z.leb_gt _ p)), (proj2 (Z.eqb_neq (a_ndev a) 2)) by (try apply (ai_ndev a Hi); lia).
    cbn [andb]. by rewrite (proj2 (Z.leb_gt _ p)) by lia. }
  rewrite Ecz. destruct (unlatch_facts a2) as ((f & Es2) & Eb2 & En2 & Ef2 & Ez2 & _).
  pose proof (Ez2 ZRaw) as Er2. pose proof (Ez2 ZShadow) as Eh2. cbn [get_zone] in Er2, Eh2.
  change (raw_z a2) with (raw_z a1) in Er2. change (shadow_z a2) with (shadow_z a1) in Eh2.
  change (bitmap a2) with (bitmap a1) in Eb2. change (a_ndev a2) with (a_ndev a1) in En2.
  change (sb a2) with (sb a1) in Es2. change (free_blocks a2) with (u64 (free_blocks a1 + 1)) in Ef2.
  assert (Hout : forall s m, p < s -> 0 <= m -> s + m <= total_blocks (sb a) ->
            count_free (clr_run (bitmap a) p 1) s m = count_free (bitmap a) s m).
  { intros s m Hs Hm Hsm. apply (count_run_out _ _ _ _ p 1); [|lia|lia].
    intros j Hj Hr. rewrite bit_get_clr_run by lia. by rewrite Hr. }
  constructor; rewrite ?Es2, ?En2, ?Eb2, ?Er2, ?Eh2, ?Es, ?En, ?Eb, ?Er, ?Eh; try apply Hi.
  - by apply layout_flags.
  - by rewrite length_clr_run.
  - rewrite Ef2, Ef. unfold vol_count_free. rewrite Es2, Es, Eb2, Eb, (ai_free a Hi). unfold vol_count_free.
    cbn [total_blocks set_vol_flags]. apply credit_exact; try lia. intros j Hj. by replace j with p by lia.
  - cbn [raw_zone_start raw_zone_blocks set_vol_flags]. rewrite Hout by lia. apply Hi.
  - cbn [shadow_zone_start shadow_zone_blocks set_vol_flags]. rewrite Hout by lia. apply Hi.
Qed.

Lemma lo_mb_take p a : 0 <= p -> lo_ok a (mb_take p a).
Proof.
  intros Hp Ha. unfold mb_take. match goal with |- context [vol_bm_dirty p ?x] => set (a1 := x) end.
  assert (0 <= bm_lo (vol_bm_dirty p a1)).
  { apply lo_dirty; [done|]. unfold a1. cbv zeta. by destruct (meta_type_bitmap _). }
  cbv zeta. by destruct (_ =? 0).
Qed.

(** The raw zone ends where the shadow zone begins, as mkfs lays them out. *)
Definition gapless (s : superblock) : Prop := raw_zone_start s + raw_zone_blocks s = shadow_zone_start s.

Lemma free_block_inv p a :
  alloc_inv a -> gapless (sb a) -> 0 < p < total_blocks (sb a) -> bit_get (bitmap a) p = true ->
  alloc_inv (vol_free_blocks p 1 a).
Proof.
  intros Hi Hg Hp Hb. pose proof (ai_layout a Hi) as Hl. unfold gapless in Hg. pose proof (lay_end _ Hl).
  assert (H1 : forall j, p <= j < p + 1 -> bit_get (bitmap a) j = true) by (intros j Hj; by replace j with p by lia).
  destruct (decide (p < raw_zone_start (sb a))).
  - unfold vol_free_blocks. rewrite Z.min_l by lia. replace (p + 1 - p) with 1 by lia.
    destruct (negb (retain_release a) && _) eqn:E1; [done|].
    destruct (retain_release a || _) eqn:E2; [apply free_low_inv; [done|lia|done]|].
    destruct (retain_release a), (spt0_block_pinned a p 1); done.
  - destruct (decide (p < shadow_zone_start (sb a))).
    + by apply (vol_free_blocks_keeps ZRaw _ _ p 1 a Hi (dz_raw _)); [lia|lia|lia|].
    + by apply (vol_free_blocks_keeps ZShadow _ _ p 1 a Hi (dz_shadow _)); [lia|lia|lia|].
Qed.

Section frame.
Context {D X : Type} `{!Dev D, !DevLaws D}.
Implicit Types v : vol D X.

(** A volume the trees can work on without failing reads or writes. *)
Record sound v : Prop := { so_wf : mb_wf v; so_quiet : quiet v; so_dok : alloc_dok v }.

(** The handle apart from the storage, the allocation state and the notes of
    the orphan collector. *)
Definition rest_same v v' : Prop :=
  v' = set_v_dev (v_dev v') (set_v_a (v_a v') (set_mb_boot_cursor (mb_boot_cursor v')
         (set_mb_alloc_cursor (mb_alloc_cursor v') (set_mb_alloc_fail_run (mb_alloc_fail_run v')
           (set_orph (orph v') v))))).

Lemma rest_refl v : rest_same v v.
Proof. by destruct v. Qed.
Lemma rest_trans v1 v2 v3 : rest_same v1 v2 -> rest_same v2 v3 -> rest_same v1 v3.
Proof. unfold rest_same. intros E1 E2. rewrite E2, E1. done. Qed.

(** The candidates of the orphan collector: each is a block of the volume, in
    the list once, with its membership bit set. *)
Definition cand_ok (total : Z) (m : bytes) (b : Z) : Prop := 0 < b < total /\ bit_get m b = true.
Definition orph_ok v : Prop :=
  match o_inlist (orph v) with
  | None => o_pba (orph v) = []
  | Some m => NoDup (o_pba (orph v)) /\ Forall (cand_ok (total_blocks (vsb v)) m) (o_pba (orph v)) /\
      total_blocks (vsb v) <= 8 * zlen m
  end.

(** Blocks [P] may have been rewritten, blocks [F] given back. *)
Record moves (P F : Z -> Prop) v v' : Prop := {
  sy_sound : sound v';
  sy_geo : geo v v';
  sy_cap : dcap (v_dev v') = dcap (v_dev v);
  sy_boot : forall q, boot v' q -> boot v q;
  sy_bits : forall q, 0 <= q -> ~ F q -> bitv v q = true -> bitv v' q = true;
  sy_view : forall a, ~ P (a / INVFS_BLOCK_SIZE) -> view v' a = view v a;
  sy_inv : alloc_inv (v_a v) -> gapless (vsb v) -> alloc_inv (v_a v');
  sy_lo : 0 <= bm_lo (v_a v) -> 0 <= bm_lo (v_a v');
  sy_orph : orph_ok v -> orph_ok v';
  sy_rest : rest_same v v'
}.
#[global] Arguments sy_sound {P F v v'} _.
#[global] Arguments sy_geo {P F v v'} _.
#[global] Arguments sy_cap {P F v v'} _.
#[global] Arguments sy_boot {P F v v'} _.
#[global] Arguments sy_bits {P F v v'} _.
#[global] Arguments sy_view {P F v v'} _.
#[global] Arguments sy_inv {P F v v'} _.
#[global] Arguments sy_lo {P F v v'} _.
#[global] Arguments sy_orph {P F v v'} _.
#[global] Arguments sy_rest {P F v v'} _.

Definition none (b : Z) : Prop := False.
(** Bits are only set. *)
Abbreviation stays P := (moves P none).

Lemma moves_refl P F v : sound v -> moves P F v v.
Proof. intros. split; try done; [apply geo_refl|apply rest_refl]. Qed.

Lemma gapless_geo v v' : geo v v' -> gapless (vsb v) -> gapless (vsb v').
Proof. intros [[f E] _]. unfold gapless. by rewrite E. Qed.

Lemma moves_trans P F v1 v2 v3 : moves P F v1 v2 -> moves P F v2 v3 -> moves P F v1 v3.
Proof.
  intros [S1 G1 C1 B1 T1 V1 I1 L1 O1 R1] [S2 G2 C2 B2 T2 V2 I2 L2 O2 R2].
  split; auto; [by eapply geo_trans|congruence|intros; by rewrite V2, V1| |by eapply rest_trans].
  intros Hi Hg. apply I2; [auto|by eapply gapless_geo].
Qed.

Lemma moves_weaken (P Q F G : Z -> Prop) v v' :
  (forall b, P b -> Q b) -> (forall b, F b -> G b) -> moves P F v v' -> moves Q G v v'.
Proof. intros HP HF []. split; auto. Qed.

Lemma orph_same v v' : orph v' = orph v -> geo v v' -> orph_ok v -> orph_ok v'.
Proof. intros E Hg. destruct (vgeo_facts _ _ Hg) as (Et & _). unfold orph_ok. by rewrite E, Et. Qed.

(** Allocated blocks are those whose bit is set. *)
Lemma allocated_bit v p : 0 < p < total_blocks (vsb v) -> mbuf_page_allocated v p = bitv v p.
Proof.
  intros Hp. unfold mbuf_page_allocated. by rewrite (proj2 (Z.leb_gt p 0)), (proj2 (Z.leb_gt _ p)) by lia.
Qed.

(** A step of the storage. *)
Lemma stays_dev P v d :
  sound v -> quiet (set_v_dev d v) -> dcap d = dcap (v_dev v) ->
  (forall o m, dok d o m <-> dok (v_dev v) o m) ->
  (forall a, ~ P (a / INVFS_BLOCK_SIZE) -> view (set_v_dev d v) a = view v a) ->
  stays P v (set_v_dev d v).
Proof.
  intros [Hw Hq Hk] Hq' Hc Ho Hv.
  assert (Hd : vdev v (set_v_dev d v)).
  { split; [done|]. split; [|done]. apply (dquiet_wf _ (proj1 Hq')). }
  destruct (vdev_step _ _ Hw Hd) as [Hw' _]. split; try done.
  - split; [done|done|]. intros p Hp Ha. apply Ho. by apply Hk.
  - by apply geo_vdev.
Qed.

(** The handle outside the allocator is the same and the books stay right. *)
Definition books v v' : Prop :=
  rest_same v v' /\ orph v' = orph v /\ (alloc_inv (v_a v) -> alloc_inv (v_a v')) /\ lo_ok (v_a v) (v_a v').

(** The allocation state alone changed, and no bit. *)
Lemma stays_idle P v v' :
  sound v -> idles v v' -> books v v' -> stays P v v'.
Proof.
  intros [Hw Hq Hk] Hi (Hr & Hor & Hinv & Hlo). pose proof Hi as (Hg & Ed & Ec & Eb).
  destruct (vgeo_facts _ _ Hg) as (Et & _ & _ & Hbo). pose proof Hg as (_ & _ & _ & _ & Ee). split; try done; try (intros; apply Hinv; assumption);
    try (by apply orph_same).
  - split; [by eapply idles_wf| |].
    + unfold quiet in *. by rewrite Ed, Et.
    + intros p Hp Ha. apply Hbo, Hk; [done|]. pose proof (allocated_range v' p Hp Ha).
      rewrite allocated_bit in Ha by done. rewrite allocated_bit by lia. by rewrite <- Eb.
  - by rewrite Ed.
  - unfold boot. by rewrite Ec, Ee.
  - intros q Hq0 _. by rewrite Eb.
  - intros a _. unfold view. by rewrite Ed.
Qed.

(** A block was taken. *)
Lemma stays_take P v p v' :
  sound v -> takes v p v' -> books v v' -> stays P v v'.
Proof.
  intros [Hw Hq Hk] Ht (Hr & Hor & Hinv & Hlo). pose proof Ht as (Hg & Ed & Ec & Hp & Hb & Hnr & Eb).
  destruct (vgeo_facts _ _ Hg) as (Et & _ & _ & Hbo). pose proof Hg as (_ & _ & _ & _ & Ee). split; try done; try (intros; apply Hinv; assumption);
    try (by apply orph_same).
  - split; [by eapply takes_wf| |].
    + unfold quiet in *. by rewrite Ed, Et.
    + intros q Hq0 Ha. apply Hbo. pose proof (allocated_range v' q Hq0 Ha) as Hqr.
      rewrite allocated_bit, Eb in Ha by done. destruct (Z.eqb_spec q p) as [->|]; [by apply (mw_clear v Hw)|].
      apply Hk; [done|]. by rewrite allocated_bit by lia.
  - by rewrite Ed.
  - unfold boot. by rewrite Ec, Ee.
  - intros q Hq0 _ Hs. rewrite Eb by done. by rewrite Hs, orb_true_r.
  - intros a _. unfold view. by rewrite Ed.
Qed.

(** *** The operations of the page store *)

Lemma block_at p a : (a / INVFS_BLOCK_SIZE = p <->
  p * INVFS_BLOCK_SIZE <= a < p * INVFS_BLOCK_SIZE + INVFS_BLOCK_SIZE).
Proof.
  split.
  - intros <-. pose proof (Z.mul_div_le a INVFS_BLOCK_SIZE). pose proof (Z.mul_succ_div_gt a INVFS_BLOCK_SIZE).
    unfold INVFS_BLOCK_SIZE in *. lia.
  - intros Ha. pose proof (block_of a p 1). lia.
Qed.

Lemma stays_pread P off n v r v' :
  sound v -> 0 <= off -> 0 <= n -> off + n <= total_blocks (vsb v) * INVFS_BLOCK_SIZE ->
  dok (v_dev v) off n -> io_pread off n v = (r, v') -> r = Some (vrange v off n) /\ stays P v v'.
Proof.
  intros Hs Ho Hn Hle Hok E. destruct (so_quiet v Hs) as [Hq Hc]. destruct (dquiet_wf _ Hq) as [Hw Hl].
  destruct (dev_pread_live off n (v_dev v)) as (bs & d & Ed & Hq' & Hc'); [done..|lia|done|].
  pose proof (dev_pread_law _ _ _ _ _ Hw Ho Hn Hok Hl Ed) as (_ & Hok' & _ & Hv & Hb).
  unfold io_pread, on_dev in E. rewrite Ed in E. injection E as <- <-. rewrite (Hb bs eq_refl).
  split; [done|]. apply stays_dev; try done.
  - split; [done|]. cbn. by rewrite Hc'.
  - intros a _. apply Hv.
Qed.

Lemma stays_pwrite off bs v r v' (P : Z -> Prop) :
  sound v -> 0 <= off -> off + zlen bs <= total_blocks (vsb v) * INVFS_BLOCK_SIZE ->
  dok (v_dev v) off (zlen bs) ->
  (forall a, off <= a < off + zlen bs -> P (a / INVFS_BLOCK_SIZE)) ->
  io_pwrite off bs v = (r, v') -> r = Some tt /\ stays P v v' /\ vrange v' off (zlen bs) = bs.
Proof.
  intros Hs Ho Hle Hok HP E. destruct (so_quiet v Hs) as [Hq Hc]. destruct (dquiet_wf _ Hq) as [Hw Hl].
  destruct (dev_pwrite_live off bs (v_dev v)) as (d & Ed & Hq' & Hc'); [done..|lia|done|].
  assert (Er : r = Some tt /\ v' = set_v_dev d v).
  { unfold io_pwrite, on_dev in E. rewrite Ed in E. by injection E as <- <-. }
  destruct Er as [-> ->]. destruct (io_pwrite_spec off bs v _ _ Hw Hl Ho Hok E) as [(_ & _ & Hok') Hv].
  destruct (Hv (proj2 (dquiet_wf _ Hq'))) as [Hf Hr]. split; [done|]. split; [|by apply Hr].
  apply stays_dev; try done.
  - split; [done|]. cbn. by rewrite Hc'.
  - intros a Ha. apply Hf. intros Hin. by apply Ha, HP.
Qed.

Lemma stays_read P p v r v' :
  sound v -> 0 < p < total_blocks (vsb v) -> blk_ok v p -> mbuf_read p v = (r, v') ->
  r = Some (page_at v p) /\ stays P v v'.
Proof.
  intros Hs Hp Hok E. unfold mbuf_read in E. rewrite (mbind_eq _ _ _ v v) in E by done.
  rewrite (mbind_eq _ _ _ tt v) in E by done.
  rewrite (mbind_eq _ _ _ tt v) in E by (by rewrite (proj2 (Z.eqb_neq p 0)), (proj2 (Z.leb_gt _ p)) by lia).
  apply (stays_pread P) in E; [done|done|unfold INVFS_BLOCK_SIZE; lia|done| |done].
  unfold INVFS_BLOCK_SIZE. lia.
Qed.

Lemma stays_write p pg v r v' :
  sound v -> 0 < p < total_blocks (vsb v) -> blk_ok v p -> zlen pg = INVFS_BLOCK_SIZE ->
  mbuf_write p pg v = (r, v') ->
  r = Some (mbuf_page_seal pg) /\ stays (eq p) v v' /\ page_at v' p = mbuf_page_seal pg.
Proof.
  intros Hs Hp Hok Hlen E. pose proof (length_seal pg Hlen) as Hsl. unfold mbuf_write in E.
  rewrite (mbind_eq _ _ _ v v) in E by done. rewrite (mbind_eq _ _ _ tt v) in E by done.
  rewrite (mbind_eq _ _ _ tt v) in E by (by rewrite (proj2 (Z.eqb_neq p 0)), (proj2 (Z.leb_gt _ p)) by lia).
  cbv zeta in E. unfold mbind' in E. destruct (io_pwrite _ _ v) as [w v1] eqn:Ew.
  apply (stays_pwrite _ _ _ _ _ (eq p)) in Ew as (-> & Hst & Hv);
    [|done|unfold INVFS_BLOCK_SIZE; lia|rewrite Hsl; unfold INVFS_BLOCK_SIZE; lia|by rewrite Hsl|].
  - injection E as <- <-. rewrite Hsl in Hv. done.
  - rewrite Hsl. intros a Ha. symmetry. by apply block_at.
Qed.

(** Reading through a pointer. *)
Lemma stays_read_ptr P ptr v r v' :
  sound v -> mbuf_read_ptr ptr v = (r, v') ->
  stays P v v' /\ (forall pg, r = Some pg -> zlen pg = INVFS_BLOCK_SIZE).
Proof.
  intros Hs E. apply mbuf_read_ptr_run in E as [[-> ->]|(Hp & Ha & r0 & E & Hr)].
  { split; [by apply moves_refl|done]. }
  assert (0 <= bp_pba ptr).
  { unfold mbuf_page_allocated in Ha. destruct (Z.leb_spec (bp_pba ptr) 0); [done|lia]. }
  pose proof (allocated_range v _ H Ha) as Hrg.
  apply (stays_read P) in E as [-> Hst]; [|done|done|by apply (so_dok v Hs)]. split; [done|].
  intros pg Epg. destruct (Hr pg Epg) as ([= <-] & _). apply length_page_at.
Qed.

Lemma stays_write_empty p gen v w v' :
  sound v -> 0 < p < total_blocks (vsb v) -> blk_ok v p -> mb_write_empty p gen v = (w, v') ->
  w = Some tt /\ stays (eq p) v v' /\ v' = set_v_dev (v_dev v') v.
Proof.
  intros Hs Hp Hok E. pose proof E as (r & Ew & _)%mb_write_empty_run.
  assert (w = Some tt /\ stays (eq p) v v') as [-> Hst].
  { unfold mb_write_empty, mbind' in E. rewrite Ew in E.
    apply stays_write in Ew as (-> & Hst & _); [|done..|apply length_page_init]. by injection E as <-. }
  split; [done|]. split; [done|]. pose proof (dquiet_wf _ (proj1 (so_quiet _ (sy_sound Hst)))) as [_ Hl].
  apply (write_empty_spec p gen v (Some tt) v') in E as [(? & _) _]; [done|apply Hs|done|lia|done].
Qed.

(** A block the page store may hand out. *)
Definition fresh v (p : Z) : Prop := (bitv v p = false /\ ~ reserved v p) \/ boot v p.

Lemma books_refl v : books v v.
Proof. split_and!; [apply rest_refl|done|done|by intros ?]. Qed.
Lemma books_trans v1 v2 v3 : books v1 v2 -> books v2 v3 -> books v1 v3.
Proof.
  intros (? & E1 & ? & L1) (? & E2 & ? & L2). split_and!; [by eapply rest_trans|by rewrite E2|auto|].
  intros ?. auto.
Qed.

Lemma books_meta_zone v r v' :
  mb_wf v -> mb_alloc_meta_zone v = (r, v') -> books v v' /\ (r = None -> v_a v' = v_a v).
Proof.
  intros Hw H. unfold mb_alloc_meta_zone in H. rewrite (mbind_eq _ _ _ v v) in H by done. cbv zeta in H.
  apply mguard_run in H as [[Hz H]|(_ & -> & ->)]; [|split; [apply books_refl|done]].
  apply mguard_run in H as [[Hlt H]|(_ & -> & ->)]; [|split; [apply books_refl|done]]. zbool.
  destruct (mb_scan _ _ _ _ _) as [p|] eqn:E.
  2: { injection H as <- <-. split; [|done]. split_and!; [by destruct v|done|done|by intros ?]. }
  unfold mbind', on_a, mmod, mret in H. injection H as <- <-. split; [|done].
  destruct (mw_meta v Hw) as (? & ? & _). unfold vsb in *.
  apply mb_scan_sound in E as [Hp Hbit]; [|destruct (_ || _) eqn:Eo; zbool; lia].
  split_and!; [by destruct v|done| |]; cbn [v_a set_v_a set_mb_alloc_fail_run set_mb_alloc_cursor].
  - intros Hi. apply mb_take_inv; [done|lia|done].
  - apply lo_mb_take. lia.
Qed.

Lemma books_shadow v r v' :
  mb_wf v ->
  on_alloc (alloc_blocks (shadow_zone_start (vsb v)) (shadow_zone_blocks (vsb v)) 1 false AllocMeta) v = (r, v') ->
  books v v'.
Proof.
  intros Hw. unfold on_alloc. destruct (alloc_blocks _ _ _ _ _ _) as [r0 a] eqn:E. intros [= _ <-].
  split_and!; [by destruct v|done| |]; cbn.
  { intros Hi. eapply (alloc_blocks_spec ZShadow) in E; [apply E|done|apply dz_shadow|lia]. }
  destruct (mw_shadow v Hw) as (? & ? & ?).
  apply alloc_blocks_run in E as [(st & la & Esc & _ & _ & ->)|[_ Hq]].
  - destruct (decide (shadow_zone_blocks (vsb v) = 0)) as [Ez|Ez]; [by rewrite Ez in Esc|].
    apply scan_sound in Esc as (? & ? & Hn & _); try lia; [|..|by left].
    2: { pose proof (scan_from_in (v_a v) (shadow_zone_start (vsb v)) (shadow_zone_blocks (vsb v))). lia. }
    apply lo_take_run; lia.
  - destruct Hq as (_ & _ & _ & _ & _ & _ & _ & Elo). intros ?. by rewrite Elo.
Qed.

(** The bootstrap cursor moves past its page. *)
Lemma stays_boot P v :
  sound v -> boot v (mb_boot_cursor v) -> stays P v (set_mb_boot_cursor (mb_boot_cursor v + 1) v).
Proof.
  intros [Hw Hq Hk] Hb. destruct (boot_advance v _ Hw Hb eq_refl) as [Hw' _]. split; try done.
  - exact (geo_refl v).
  - intros q [Hn Hr]. cbn in Hr. destruct Hb. split; [done|]. lia.
Qed.

(** Allocating: what was chosen was fresh, and only it was written. *)
Lemma stays_alloc gen v r v' :
  sound v -> mbuf_alloc gen v = (r, v') ->
  match r with
  | Some p => fresh v p /\ 0 < p < total_blocks (vsb v) /\ blk_ok v p /\ stays (eq p) v v'
  | None => stays none v v'
  end.
Proof.
  intros Hs H. pose proof (so_wf v Hs) as Hw. unfold mbuf_alloc in H. rewrite (mbind_eq _ _ _ v v) in H by done.
  apply mguard_run in H as [[_ H]|(_ & -> & ->)]; [|by apply moves_refl].
  apply mguard_run in H as [[_ H]|(_ & -> & ->)]; [|by apply moves_refl].
  destruct (negb _ && _) eqn:Eb; zbool.
  - assert (Hb : boot v (mb_boot_cursor v)) by (by repeat split).
    destruct (mw_boot v Hw _ Hb) as (Hlt & _ & Hok & Hnr).
    assert (0 < mb_boot_cursor v) by (unfold reserved in Hnr; lia).
    cbv zeta in H. destruct (mb_write_empty (mb_boot_cursor v) gen v) as [w v1] eqn:E.
    unfold mbind' at 1 in H. rewrite E in H.
    apply stays_write_empty in E as (-> & Hst & Ev); [|done..]. injection H as <- <-.
    split; [by right|]. split; [done|]. split; [done|].
    eapply moves_trans; [exact Hst|]. apply stays_boot; [apply Hst|]. by rewrite Ev.
  - unfold mbind' at 1, mtry at 1 in H. destruct (mb_alloc_meta_zone v) as [r1 v1] eqn:E1.
    destruct (books_meta_zone _ _ _ Hw E1) as [Hb1 Ha1]. apply meta_zone_run in E1; [|done].
    unfold mbind' at 1 in H.
    assert (Hp : exists r2 v2,
      match r1 with
      | Some pba => mret pba
      | None => on_alloc (alloc_blocks (shadow_zone_start (vsb v)) (shadow_zone_blocks (vsb v)) 1 false AllocMeta)
      end v1 = (r2, v2) /\ books v v2 /\
      match r2 with Some p => takes v p v2 | None => idles v v2 end).
    { destruct r1 as [p|]; [by exists (Some p), v1|].
      destruct (on_alloc _ v1) as [r2 v2] eqn:E2. exists r2, v2. split; [done|].
      assert (Ev : vsb v = vsb v1) by (unfold vsb; by rewrite Ha1). rewrite Ev in E2.
      split; [eapply books_trans; [done|]; eapply books_shadow; [by eapply idles_wf|done]|].
      apply shadow_pool_run in E2; [|by eapply idles_wf].
      destruct r2; [by eapply idles_takes|by eapply idles_trans]. }
    clear E1 Ha1 Hb1. destruct Hp as (r2 & v2 & E2 & Hbk & Hp). rewrite E2 in H. destruct r2 as [p|].
    2: { injection H as <- <-. by apply stays_idle. }
    pose proof Hp as (Hg & Ed & _ & Hrg & Hbit & Hnr & _). destruct (vgeo_facts _ _ Hg) as (Et & _ & _ & Hbo).
    pose proof (mw_clear v Hw p Hrg Hbit) as Hok.
    pose proof (stays_take (eq p) _ _ _ Hs Hp Hbk) as Hst.
    unfold mbind' at 1, mtry in H. destruct (mb_write_empty p gen v2) as [w v3] eqn:E3.
    apply stays_write_empty in E3 as (-> & Hst' & _); [|apply Hst|lia|by apply Hbo]. injection H as <- <-.
    split; [by left|]. split; [done|]. split; [done|]. by eapply moves_trans.
Qed.

Lemma stays_orph P v o :
  sound v -> (orph_ok v -> orph_ok (set_orph o v)) -> stays P v (set_orph o v).
Proof.
  intros [Hw Hq Hk] Ho. split; try done; [|exact (geo_refl v)]. split; [by apply set_orph_step|done|done].
Qed.

(** The collector's notes play no part elsewhere. *)
Lemma moves_orph P F v v' o : moves P F v v' -> moves P F (set_orph o v) (set_orph o v').
Proof.
  intros [[Hw Hq Hk] G C B T Vw I L O R]. split; try done.
  - split; [by apply set_orph_step|done|done].
  - unfold orph_ok. cbn [orph set_orph]. change (vsb (set_orph o v')) with (vsb v').
    change (vsb (set_orph o v)) with (vsb v). destruct G as ((f & ->) & _). done.
  - unfold rest_same in *. rewrite R. done.
Qed.

(** The steps of the candidate set. *)
Lemma set_ready_ok v : mb_wf v -> orph_ok v -> orph_ok (orph_set_ready v) /\ o_inlist (orph (orph_set_ready v)) <> None.
Proof.
  intros Hw Ho. unfold orph_set_ready. destruct (o_inlist (orph v)) eqn:E; [by rewrite E|].
  unfold orph_ok in *. rewrite E in Ho. cbn. rewrite Ho. split; [|done]. split_and!; [constructor|constructor|].
  apply seen_bits. pose proof (mw_size v Hw). lia.
Qed.

Lemma cand_add_ok p v : orph_ok v -> orph_ok (orph_cand_add p v).
Proof.
  intros Ho. unfold orph_cand_add. destruct (_ || _) eqn:Er; [done|]. zbool.
  destruct (o_inlist (orph v)) as [m|] eqn:E; [|done]. destruct (bit_get m p) eqn:Eb; [done|].
  unfold orph_ok in *. rewrite E in Ho. destruct Ho as (Hn & Hf & Hl).
  set (o := set_o_pba _ _). assert (Hoo : orph_ok (set_orph o v)).
  { unfold orph_ok. cbn. rewrite length_bit_set. split_and!; [| |done].
    - apply list.NoDup_app. split_and!; [done| |apply NoDup_singleton].
      intros b Hb ->%list_elem_of_singleton. rewrite Forall_forall in Hf.
      destruct (Hf p (proj1 (list_elem_of_In _ _) Hb)) as [_ ?]. congruence.
    - apply Forall_app. split.
      + eapply Forall_impl; [|exact Hf]. intros b [Hb Hm]. split; [done|]. rewrite bit_get_set by lia.
        by rewrite Hm, orb_true_r.
      + constructor; [|constructor]. split; [by split|]. rewrite bit_get_set by (unfold vsb in *; lia). by rewrite Z.eqb_refl. }
  cbv zeta. by destruct (_ <? _).
Qed.

Lemma note_ok p v : mb_wf v -> orph_ok v -> orph_ok (btree_orphan_note_alloc p v).
Proof.
  intros Hw Ho. unfold btree_orphan_note_alloc. destruct (_ || _); [done|]. by apply cand_add_ok, set_ready_ok.
Qed.

(** Reads alone: only the storage moved, and every byte is where it was. *)
Definition only_read v v' : Prop :=
  sound v -> stays none v v' /\ v' = set_v_dev (v_dev v') v.

#[export] Instance only_read_kept : KeptRead only_read.
Proof.
  split; [split|].
  - intros v Hs. split; [by apply moves_refl|by destruct v].
  - intros v1 v2 v3 H1 H2 Hs. destruct (H1 Hs) as [S1 E1]. destruct (H2 (sy_sound S1)) as [S2 E2].
    split; [by eapply moves_trans|]. rewrite E2, E1. done.
  - intros ptr v r v' H Hs. pose proof (stays_read_ptr none _ _ _ _ Hs H) as [Hst _].
    split; [done|]. apply mbuf_read_ptr_run in H as [[_ ->]|(_ & _ & r0 & H & _)]; [by destruct v|].
    unfold mbuf_read in H. rewrite (mbind_eq _ _ _ v v) in H by done.
    apply mguard_run in H as [[_ H]|(_ & _ & ->)]; [|by destruct v].
    apply mguard_run in H as [[_ H]|(_ & _ & ->)]; [|by destruct v].
    unfold io_pread, on_dev in H. destruct (dev_pread _ _ _) as [? d]. by injection H as _ <-.
Qed.

(** A live page given back. *)
Lemma moves_free P p v r v' :
  sound v -> live v p -> mbuf_free p v = (r, v') ->
  r = Some tt /\ moves P (eq p) v v' /\ orph v' = orph v /\
  (forall q, 0 <= q -> bitv v' q = true -> bitv v q = true).
Proof.
  intros [Hw Hq Hk] Hp H. pose proof Hp as (Hlt & Hbit & _ & Hnr & _).
  assert (Hp0 : 0 < p) by (unfold reserved in Hnr; lia).
  destruct (mbuf_free_law p v r v' Hw Hp H) as (-> & _ & Hw' & _).
  assert (Ha : exists f, v_a v' = set_meta_free_blocks f (vol_free_blocks p 1 (v_a v))).
  { unfold mbuf_free in H. rewrite (proj2 (Z.eqb_neq p 0)) in H by lia.
    unfold mbind' at 1, on_a at 1, mmod at 1 in H. set (v1 := set_v_a _ v) in H.
    rewrite (mbind_eq _ _ _ v1 v1) in H by done. cbv zeta in H.
    assert (Hid : v_a v1 = set_meta_free_blocks (meta_free_blocks (v_a v1)) (v_a v1)) by (by destruct (v_a v1)).
    destruct (_ && _); [|injection H as <-; by eexists].
    unfold mbind', on_a, mmod in H. injection H as <-.
    destruct (_ && _); eexists; reflexivity. }
  assert (Hr : rest_same v v' /\ orph v' = orph v).
  { unfold mbuf_free in H. rewrite (proj2 (Z.eqb_neq p 0)) in H by lia.
    unfold mbind' at 1, on_a at 1, mmod at 1 in H. set (v1 := set_v_a _ v) in H.
    rewrite (mbind_eq _ _ _ v1 v1) in H by done. cbv zeta in H.
    destruct (_ && _); [|injection H as <-; split; [by destruct v|done]].
    unfold mbind', on_a, mmod in H. injection H as <-. destruct (_ && _); (split; [by destruct v|done]). }
  destruct Hr as [Hr Hor].
  apply mbuf_free_run in H as [_ (Hg & Ed & Ec & Eb)]; [|lia]. set (v1 := set_v_a _ v) in *.
  destruct (free_one p (v_a v)) as ((f & Es) & En & Ebm); [unfold vsb in *; lia|]. cbv zeta in *.
  assert (Hg1 : geo v v1).
  { split_and!; try done; [by exists f|]. unfold v1. cbn. destruct Ebm as [->| ->]; [done|apply length_bit_clr]. }
  pose proof (geo_trans _ _ _ Hg1 Hg) as Hgg. destruct (vgeo_facts _ _ Hgg) as (Et & _ & _ & Hbo).
  pose proof Hgg as (_ & _ & _ & _ & Ee). pose proof (mw_bits v Hw).
  assert (Hb1 : forall q, 0 <= q -> bitv v' q = true -> bitv v q = true).
  { intros q Hq0. rewrite Eb by done. unfold v1, bitv. cbn. destruct Ebm as [->| ->]; [done|].
    rewrite bit_get_clr by lia. by intros [_ ?]%andb_prop. }
  assert (Ed' : v_dev v' = v_dev v) by (by rewrite Ed). split; [done|]. split; [|by split]. split; try done.
  - split; [done| |].
    + unfold quiet in *. by rewrite Ed', Et.
    + intros q Hq0 Hal. apply Hbo, Hk; [done|]. pose proof (allocated_range v' q Hq0 Hal).
      rewrite allocated_bit in Hal by done. rewrite allocated_bit by lia. by apply Hb1.
  - by rewrite Ed'.
  - unfold boot. rewrite Ec, Ee. done.
  - intros q Hq0 Hne Hs. rewrite Eb by done. unfold v1, bitv. cbn. destruct Ebm as [->| ->]; [done|].
    rewrite bit_get_clr by lia. rewrite (proj2 (Z.eqb_neq q p)); [done|]. by intros ->.
  - intros a _. unfold view. by rewrite Ed'.
  - intros Hi Hgl. destruct Ha as [mf ->]. pose proof (free_block_inv p (v_a v) Hi Hgl ltac:(unfold vsb in *; lia) Hbit) as [].
    by constructor.
  - destruct Ha as [mf ->]. apply lo_free_block. unfold vsb in *. lia.
  - by apply orph_same.
Qed.

(** What a live page keeps. *)
Lemma moves_live P F v v' q :
  moves P F v v' -> live v q -> ~ P q -> ~ F q -> live v' q /\ page_at v' q = page_at v q.
Proof.
  intros M (Hlt & Hb & Hok & Hr & Hnb) HP HF. destruct (vgeo_facts _ _ (sy_geo M)) as (Et & Er & _ & Hbo).
  assert (0 <= q) by (unfold reserved in Hr; lia). split.
  - split_and!; [lia|by apply (sy_bits M)|by apply Hbo|by rewrite Er|]. intros Hq. by apply Hnb, (sy_boot M).
  - apply vrange_ext. intros a Ha. apply (sy_view M). by rewrite (proj2 (block_at q a) Ha).
Qed.


(** The bitmap can be written. *)
Record bm_env v : Prop := {
  be_dok : forall o m,
    metadata_zone_start (vsb v) * INVFS_BLOCK_SIZE <= o -> 0 <= m ->
    o + m <= (metadata_zone_start (vsb v) + bitmap_blocks (v_a v)) * INVFS_BLOCK_SIZE -> dok (v_dev v) o m;
  be_lo : 0 <= bm_lo (v_a v)
}.

Lemma stays_dirty P v lo hi : 0 <= lo -> sound v -> stays P v (set_v_a (set_bm_hi hi (set_bm_lo lo (v_a v))) v).
Proof.
  intros Hlo [Hw Hq Hk]. split; try done.
  - split; [|done|done]. apply (idles_wf v); [done|]. split_and!; try done. exact (geo_refl v).
  - exact (geo_refl v).
  - intros [] _. by constructor.
Qed.

(** Flushing the bitmap writes the bitmap. *)
Lemma stays_flush v r v' :
  sound v -> bm_env v -> vol_bitmap_flush v = (r, v') -> r = Some tt /\ stays (bm_area v) v v' /\ bm_env v'.
Proof.
  intros Hs [Hdok Hlo] H. pose proof (so_wf v Hs) as Hw. destruct (mw_meta v Hw) as (Hm & _ & Hma).
  pose proof (mw_bm v Hw) as Hbm. pose proof (anchor_last v Hw).
  unfold vol_bitmap_flush in H. rewrite (mbind_eq _ _ _ v v) in H by done. cbv zeta in H.
  change (sb (v_a v)) with (vsb v) in H. destruct (_ <? _).
  { injection H as <- <-. split; [done|]. split; [by apply moves_refl|done]. }
  set (lo := bm_lo (v_a v) - bm_lo (v_a v) mod INVFS_BLOCK_SIZE) in *.
  set (hi := Z.min _ (bitmap_blocks (v_a v) * INVFS_BLOCK_SIZE)) in H.
  assert (0 <= lo).
  { pose proof (Z.mod_le (bm_lo (v_a v)) INVFS_BLOCK_SIZE). unfold lo, INVFS_BLOCK_SIZE in *. lia. }
  assert (hi <= bitmap_blocks (v_a v) * INVFS_BLOCK_SIZE) by (unfold hi; lia). clearbody lo hi.
  destruct (lo <? hi) eqn:Elt; zbool.
  2: { injection H as <- <-. split; [done|]. split; [by apply stays_dirty|]. by split. }
  set (bs := slice (bitmap (v_a v)) lo (hi - lo)) in H.
  assert (Hbs : 0 <= zlen bs <= hi - lo).
  { unfold bs, slice. rewrite length_take. lia. }
  unfold mbind' at 1 in H. destruct (io_pwrite _ _ v) as [r1 v1] eqn:E.
  apply (stays_pwrite _ _ _ _ _ (bm_area v)) in E as (-> & M & _); [|done|unfold INVFS_BLOCK_SIZE in *; lia|..].
  - injection H as <- <-. pose proof (sy_sound M) as Hs1.
    split; [done|]. split; [eapply moves_trans; [exact M|by apply stays_dirty]|].
    destruct (sy_geo M) as ((f & Es) & En & _ & Ho & _).
    split; [|done]. intros o m. cbn [v_dev v_a set_v_a bitmap_blocks set_bm_lo set_bm_hi].
    change (vsb (set_v_a _ v1)) with (vsb v1). rewrite Es, En, Ho. apply Hdok.
  - unfold INVFS_BLOCK_SIZE in *. lia.
  - apply Hdok; unfold INVFS_BLOCK_SIZE in *; lia.
  - intros a Ha. unfold bm_area. apply block_of. unfold INVFS_BLOCK_SIZE in *. lia.
Qed.

(** ** The page store on a storage without faults *)



Section world.
Context (v0 : vol D X) (S : Z -> Prop).

(** Blocks the trees never touch: the reserved ones, and [S]. *)
Definition kept_block (b : Z) : Prop := reserved v0 b \/ S b.
Definition spare_block (b : Z) : Prop := ~ kept_block b.

(** What code over the page store makes of [v0]. *)
Definition world v : Prop := (forall p, S p -> live v0 p) /\ moves spare_block spare_block v0 v.

Lemma world_live v p : world v -> S p -> live v p.
Proof.
  intros [HS M] Hp. destruct (moves_live _ _ _ _ p M (HS p Hp)) as [H _]; [| |done];
    intros Hn; apply Hn; by right.
Qed.

Lemma world_step P F v v' :
  world v -> moves P F v v' -> (forall b, P b -> spare_block b) -> (forall b, F b -> spare_block b) -> world v'.
Proof.
  intros [HS M] M' HP HF. split; [done|]. eapply moves_trans; [exact M|]. by apply (moves_weaken P _ F).
Qed.

Lemma world_read v v' : world v -> stays none v v' -> world v'.
Proof. intros Hw M. eapply world_step; [exact Hw|exact M|by intros b []..]. Qed.

Lemma live_spare v p : world v -> live v p -> ~ S p -> spare_block p.
Proof.
  intros [_ M] (_ & _ & _ & Hr & _) Hn [H|H]; [|done]. apply Hr.
  by destruct (vgeo_facts _ _ (sy_geo M)) as (_ & -> & _).
Qed.

Lemma fresh_spare v p : world v -> fresh v p -> spare_block p.
Proof.
  intros Hw Hf. pose proof Hw as [HS M]. destruct (vgeo_facts _ _ (sy_geo M)) as (_ & Er & _).
  intros [H|H].
  - destruct Hf as [[_ Hn]|Hb]; [by apply Hn, Er|].
    destruct (mw_boot v (so_wf v (sy_sound M)) p Hb) as (_ & _ & _ & Hn). by apply Hn, Er.
  - pose proof (world_live v p Hw H) as (_ & Hb & _ & _ & Hnb). destruct Hf as [[Hc _]|?]; [congruence|done].
Qed.

Lemma sound_latched v : sound v -> latched v = false.
Proof. intros Hs. by destruct (dquiet_wf _ (proj1 (so_quiet v Hs))) as [_ ?]. Qed.

#[program] Definition world_laws : PageStoreLaws (vol D X) := {|
  ps_wf := world;
  ps_ok _ := true;
  ps_live v p := live v p /\ ~ S p;
  ps_page := page_at
|}.
Next Obligation.
  simpl. intros v p [_ M] [(Hp & _ & _ & Hr & _) _]. pose proof (mw_size v (so_wf _ (sy_sound M))).
  unfold reserved in Hr. lia.
Qed.
Next Obligation. done. Qed.
Next Obligation. done. Qed.
Next Obligation. done. Qed.
Next Obligation. done. Qed.
Next Obligation.
  simpl. intros gen v r v' Hw _ H. pose proof (sy_sound (proj2 Hw)) as Hs.
  pose proof (stays_alloc gen v r v' Hs H) as Ha.
  assert (Hw' : world v').
  { destruct r as [p|]; [|by eapply world_read]. destruct Ha as (Hf & _ & _ & M).
    eapply world_step; [exact Hw|exact M|intros b <-; by eapply fresh_spare|by intros b []]. }
  destruct (mbuf_alloc_spec gen v r v' (so_wf v Hs) (sound_latched v' (sy_sound (proj2 Hw'))) H)
    as (_ & Hp & Hl & Hf).
  split; [done|]. split; [by intros q [? _]; apply Hp|].
  split; [intros q [Hq HS]; split; [exact (Hl q Hq)|done]|].
  intros p Er. destruct (Hf p Er) as [Hn Hl']. split; [by intros [? _]|]. split; [done|].
  intros HS. apply Hn. by eapply world_live.
Qed.
Next Obligation.
  simpl. intros p pg v r v' Hw _ [Hp Hn] Hlen Hb H. pose proof (sy_sound (proj2 Hw)) as Hs.
  pose proof Hp as (Hlt & _ & Hok & Hr & _). assert (0 < p) by (unfold reserved in Hr; lia).
  pose proof (stays_write p pg v r v' Hs ltac:(lia) Hok Hlen H) as (_ & M & _).
  assert (Hw' : world v').
  { eapply world_step; [exact Hw|exact M|intros b <-; by eapply live_spare|by intros b []]. }
  destruct (mbuf_write_law p pg v r v' (so_wf v Hs) (sound_latched v' (sy_sound M)) Hp Hlen H) as (_ & Hpg & Hl & Hr').
  split; [done|]. split; [by intros q Hne [? _]; apply Hpg|]. split; [|done]. intros q. by rewrite Hl.
Qed.
Next Obligation.
  simpl. intros ptr v r v' Hw _ [Hp Hn] H. pose proof (sy_sound (proj2 Hw)) as Hs.
  pose proof (stays_read_ptr none ptr v r v' Hs H) as [M _].
  destruct (mbuf_read_law ptr v r v' (so_wf v Hs) (sound_latched v' (sy_sound M)) Hp H) as (_ & Hpg & Hl & Hr).
  split; [by eapply world_read|]. split; [by intros q [? _]; apply Hpg|]. split; [|done]. intros q. by rewrite Hl.
Qed.
Next Obligation.
  simpl. intros p v r v' Hw _ [Hp Hn] H. pose proof (sy_sound (proj2 Hw)) as Hs.
  pose proof (moves_free none p v r v' Hs Hp H) as (-> & M & _).
  destruct (mbuf_free_law p v _ v' (so_wf v Hs) Hp H) as (_ & _ & _ & Hpg & Hsub & Hk).
  split; [done|]. split.
  { eapply world_step; [exact Hw|exact M|by intros b []|intros b <-; by eapply live_spare]. }
  split; [by intros q [? _]; apply Hpg|]. split; [intros q [Hq HS]; split; [exact (Hsub q Hq)|done]|].
  intros q Hne [Hq HS]. split; [exact (Hk q Hne Hq)|done].
Qed.
Next Obligation.
  simpl. intros p v. destruct (note_alloc_idles p v) as [o E]. rewrite E. split; [done|]. split; [|done].
  intros Hw. pose proof (sy_sound (proj2 Hw)) as Hs. eapply world_read; [exact Hw|]. apply stays_orph; [done|].
  rewrite <- E. apply note_ok, Hs.
Qed.

#[program] Definition world_live_laws : @PageStoreLive (vol D X) _ world_laws :=
  {| ps_quiet _ := True; ps_room := room |}.
Next Obligation. done. Qed.
Next Obligation.
  simpl. intros v n m Hnm (? & ? & l & ? & ? & ?). split_and!; try done. exists l. split_and!; try done. lia.
Qed.
Next Obligation.
  simpl. intros ptr v Hw _ [Hl _] H1 H2 H3. pose proof (so_quiet v (sy_sound (proj2 Hw))) as Hq.
  destruct (mbuf_read_ptr_live ptr v _ Hq Hl eq_refl H1 H2 H3) as (pg & v' & E & _ & Hr). eauto.
Qed.
Next Obligation.
  simpl. intros gen v n Hw _ Hr. pose proof (sy_sound (proj2 Hw)) as Hs.
  destruct (mbuf_alloc_live gen v n (so_wf v Hs) (so_quiet v Hs) Hr) as (p & v' & E & _ & ?). eauto.
Qed.
Next Obligation.
  simpl. intros p pg v Hw _ [(Ht & _ & Hok & Hr & _) _] Hlen Hb.
  destruct (mbuf_write_live p pg v (so_quiet v (sy_sound (proj2 Hw)))) as (d & E & Hq');
    [unfold reserved in Hr; lia|done|done|].
  do 2 eexists. split; [exact E|]. split; [done|]. intros n. apply room_dev.
Qed.
Next Obligation.
  simpl. intros p v. destruct (note_alloc_idles p v) as [o ->]. split; [done|]. intros n. by apply room_same.
Qed.
End world.
End frame.

Abbreviation stays P := (moves P none).
End Frame.
