(* ===== verification/Orphans.v ===== *)
(** * The orphan collector

    Every publication abandons the root it supersedes.  The collector of
    vol_btree.c looks for base pages that no root of the volume reaches and
    frees them: it keeps a set of candidate blocks, fed by the allocations of
    this session and by one lap over the bitmap, examines them, marks what
    the two RT30 slots and the save point's pinned root reach, and frees the
    rest.  vol_reclaim.c puts a gate in front of it. *)

From S2P Require Import Prelude Dev Ram Alloc Volume Page PageLogic Metabuf MetaLive Keys Node BTree TreeSpec Check Frame.

Module Orphans.
Import Alloc Volume Page PageLogic Metabuf MetaLive Keys Node BTree TreeSpec Check Frame.

Definition ORPHAN_MAX_LEVEL : Z := 32.
Definition ORPHAN_SEED_BUDGET_DEFAULT : Z := 1024.
Definition ORPHAN_ROW_OFF : Z := 54.
Definition INVFS_INODE_ROW_LEN : Z := 114.
Definition INVFS_INODE_ROW_VERSION : Z := 2.
Definition INVFS_INODE_XATTR_MAX : Z := 4096.
Definition INVFS_ITYP_BLK : Z := 6.
Definition ORPHAN_DRAIN_MAX_ROUNDS : nat := Z.to_nat 0x400000.

(** The block of the recipe pointer in a value that looks like an inode row.
    Source: core/vol_btree.c [orphan_row_recipe] *)
Definition orphan_row_recipe (val : bytes) : option Z :=
  let n := zlen val in
  if n <? ORPHAN_ROW_OFF + BLKPTR_LEN then None
  else if INVFS_INODE_ROW_LEN + INVFS_INODE_XATTR_MAX <? n then None
  else
    let ver := field val 0 4 in
    let type := field val 4 4 in
    if negb (ver =? 1) && negb (ver =? INVFS_INODE_ROW_VERSION) then None
    else if INVFS_ITYP_BLK <? type then None
    else Some (field val ORPHAN_ROW_OFF 8).

(** INVFS_RECLAIM_ORPHANS: on unless it is set to something other than "1".
    Source: core/vol_reclaim.c [orphan_gate] *)
Definition orphan_gate (env : option bytes) : bool :=
  match env with
  | None | Some [] => true
  | Some e => bool_decide (e = [49])
  end.

Section collector.
Context {D X : Type} `{!Dev D}.
Abbreviation V := (vol D X).

Definition on_orph (f : invfs_orphan -> invfs_orphan) : M V unit :=
  mmod (fun v => set_orph (f (orph v)) v).

(** [env] is INVFS_RECLAIM_SCAN_BUDGET.
    Source: core/vol_btree.c [orph_budget] *)
Definition orph_budget (env : option bytes) (v : V) : Z :=
  if negb (o_budget (orph v) =? 0) then o_budget (orph v)
  else
    let b := match env with
             | None | Some [] => ORPHAN_SEED_BUDGET_DEFAULT
             | Some e => fst (fst (strtoull e))
             end in
    if b =? 0 then 2 ^ 64 - 1 else b.

(** The lap over the bitmap; the answer is where it stopped.  Every turn
    moves on, so [total - b] turns are enough.
    Source: core/vol_btree.c:2187-2202 [orph_seed_scan] *)
Fixpoint seed_loop (fuel : nat) (total budget b reads : Z) : M V Z :=
  match fuel with
  | O => mret b
  | S fuel =>
      if (b <? total) && (reads <? budget) then
        let* v := mget in
        if nthZ (bitmap (v_a v)) (Z.shiftr b 3) =? 0 then seed_loop fuel total budget (b + 8) reads
        else
          let* r := mtry (mbuf_read b) in
          match r with
          | None => seed_loop fuel total budget (b + 1) reads
          | Some page =>
              on_orph (fun o => set_o_seed_reads (o_seed_reads o + 1) o) ;;;
              mmod (fun v => if mbuf_page_validate page && (page_level page <=? ORPHAN_MAX_LEVEL)
                             then orph_cand_add b v else v) ;;;
              seed_loop fuel total budget (b + 1) (reads + 1)
          end
      else mret b
  end.

(** Source: core/vol_btree.c [orph_seed_scan] *)
Definition orph_seed_scan (budget : Z) : M V unit :=
  let* v := mget in
  if o_seed_done (orph v) then mret tt
  else
    let total := total_blocks (vsb v) in
    let b := if 0 <? o_seed_cursor (orph v) then o_seed_cursor (orph v) else 1 in
    let* b := seed_loop (Z.to_nat (total - b)) total budget b 0 in
    on_orph (fun o =>
      if total <=? b then set_o_seed_cursor 1 (set_o_seed_done true o) else set_o_seed_cursor b o).

(** The rows of a leaf: follow the recipe pointers.
    Source: core/vol_btree.c:2281-2296 [bt_mark_rec_deep] *)
Fixpoint deep_rows (rec : invfs_blkptr -> bytes -> M V bytes) (total : Z) (es : list bt_ent)
    (seen : bytes) : M V bytes :=
  match es with
  | [] => mret seen
  | e :: es =>
      match orphan_row_recipe (e_v e) with
      | None => deep_rows rec total es seen
      | Some pba =>
          if (pba =? 0) || (total <=? pba) || bit_get seen pba then deep_rows rec total es seen
          else let* seen := rec (mkPtr pba 0 0 0) seen in deep_rows rec total es seen
      end
  end.

(** Every page entered is newly marked, so [total] levels are enough; block
    addresses are unsigned.
    Source: core/vol_btree.c [bt_mark_rec_deep] *)
Fixpoint bt_mark_rec_deep (fuel : nat) (total : Z) (ptr : invfs_blkptr) (seen : bytes) : M V bytes :=
  match fuel with
  | O => mfail
  | S fuel =>
      if bp_pba ptr <=? 0 then mret seen
      else
        mguard (bp_pba ptr <? total) ;;;
        if bit_get seen (bp_pba ptr) then mret seen
        else
          let seen := bit_set seen (bp_pba ptr) in
          on_orph (fun o => set_o_mark_reads (o_mark_reads o + 1) o) ;;;
          let* page := mbuf_read_ptr ptr in
          let* nd := bt_read ptr in
          if page_level page =? INVFS_PAGE_LEVEL_LEAF
          then deep_rows (bt_mark_rec_deep fuel total) total (snd nd) seen
          else mark_children (bt_mark_rec_deep fuel total) (snd nd) seen
  end.

(** Source: core/vol_btree.c [orphan_slot_ptr] *)
Definition orphan_slot_ptr (pba : Z) : M V invfs_blkptr :=
  let* v := mget in
  mguard (mbuf_page_allocated v pba) ;;;
  let* page := mbuf_read pba in
  mguard (mbuf_page_validate page) ;;;
  mret (mbuf_ptr_set pba page (Z.lor INVFS_BP_LEAF INVFS_BP_ROOT)).

(** One RT30 slot; [None] is the refusal to collect.
    Source: core/vol_btree.c:2391-2410 [btree_collect_orphans] *)
Definition slot_root (i : Z) (acc : list invfs_blkptr * option Z)
    : M V (option (list invfs_blkptr * option Z)) :=
  let* v := mget in
  let pba := root_slot (rt v) i in
  if pba =? 0 then mret (Some acc)
  else if total_blocks (vsb v) <=? pba then mret None
  else
    let* r := mtry (orphan_slot_ptr pba) in
    match r with
    | None => mret None
    | Some p =>
        on_orph (fun o => set_o_cand_reads (o_cand_reads o + 1) o) ;;;
        let '(roots, mg) := acc in
        let mg := match mg with
                  | Some g => if g <? bp_gen p then bp_gen p else g
                  | None => bp_gen p
                  end in
        mret (Some (roots ++ [p], Some mg))
    end.

(** The candidates: [keep] stay in the set, [cand] look freeable.
    Source: core/vol_btree.c:2435-2458 [btree_collect_orphans] *)
Fixpoint cand_pass (total max_gen : Z) (l keep : list Z) (cand : list (Z * Z))
    : M V (list Z * list (Z * Z)) :=
  match l with
  | [] => mret (keep, cand)
  | b :: l =>
      let* v := mget in
      if (b <=? 0) || (total <=? b) || negb (bit_get (bitmap (v_a v)) b) then
        on_orph (fun o => if b <? total
                          then set_o_inlist (option_map (fun m => bit_clr m b) (o_inlist o)) o else o) ;;;
        cand_pass total max_gen l keep cand
      else
        let keep := keep ++ [b] in
        let* r := mtry (mbuf_read b) in
        match r with
        | None => cand_pass total max_gen l keep cand
        | Some page =>
            on_orph (fun o => set_o_cand_reads (o_cand_reads o + 1) o) ;;;
            if negb (mbuf_page_validate page) || (ORPHAN_MAX_LEVEL <? page_level page) ||
               (max_gen <? page_gen page)
            then cand_pass total max_gen l keep cand
            else cand_pass total max_gen l keep (cand ++ [(b, page_gen page)])
        end
  end.

(** Source: core/vol_btree.c:2498-2509 [btree_collect_orphans] *)
Fixpoint free_cands (seen : bytes) (max_gen : Z) (cand : list (Z * Z)) (freed : Z) : M V Z :=
  match cand with
  | [] => mret freed
  | (b, g) :: cand =>
      if bit_get seen b || (max_gen <? g) then free_cands seen max_gen cand freed
      else
        mbuf_free b ;;;
        let* v := mget in
        if bit_get (bitmap (v_a v)) b then free_cands seen max_gen cand freed
        else
          on_orph (fun o => set_o_inlist (option_map (fun m => bit_clr m b) (o_inlist o)) o) ;;;
          free_cands seen max_gen cand (freed + 1)
  end.

(** What the slots and the save point reach.
    Source: core/vol_btree.c:2481-2495 [btree_collect_orphans] *)
Fixpoint mark_deep (total : Z) (roots : list invfs_blkptr) (seen : bytes) : M V bytes :=
  match roots with
  | [] => mret seen
  | r :: roots =>
      let* seen := bt_mark_rec_deep (reach_fuel total) total r seen in
      mark_deep total roots seen
  end.

(** Nothing to collect from.
    Source: core/vol_btree.c:2400-2402 [btree_collect_orphans] *)
Definition orph_refuse : M V Z :=
  on_orph (fun o => set_o_settled true (set_o_cands 0 o)) ;;; mret 0.

(** Steps (2) and (3) of the pass.
    Source: core/vol_btree.c:2419-2531 [btree_collect_orphans] *)
Definition collect_from (env : option bytes) (roots : list invfs_blkptr) (max_gen : Z) : M V Z :=
  let* v := mget in
  let total := total_blocks (vsb v) in
  orph_seed_scan (orph_budget env v) ;;;
  let* v := mget in
  let* kc := cand_pass total max_gen (o_pba (orph v)) [] [] in
  let '(keep, cand) := kc in
  on_orph (fun o => set_o_cands (zlen keep) (set_o_pba keep o)) ;;;
  match cand with
  | [] => on_orph (set_o_settled false) ;;; mret 0
  | _ =>
      let* v := mget in
      let pinned := if negb (bp_pba (pinned_root v) =? 0) then [pinned_root v] else [] in
      let* seen := mark_deep total (roots ++ pinned) (zeros ((total + 7) / 8)) in
      let* freed := free_cands seen max_gen cand 0 in
      mmod (fun v => set_orph
        (set_o_freed (o_freed (orph v) + freed)
          (set_o_settled (o_seed_done (orph v) && (freed =? 0))
            (set_o_pba (filter (fun b => bit_get (bitmap (v_a v)) b = true) (o_pba (orph v))) (orph v)))) v) ;;;
      (if negb (freed =? 0) then vol_bitmap_flush else mret tt) ;;;
      mret freed
  end.

(** Source: core/vol_btree.c [btree_collect_orphans] *)
Definition btree_collect_orphans (env : option bytes) : M V Z :=
  let* v := mget in
  if negb (rt_present v) then orph_refuse
  else
    mmod orph_set_ready ;;;
    on_orph (fun o => set_o_calls (o_calls o + 1) o) ;;;
    let* r0 := slot_root 0 ([], None) in
    match r0 with
    | None => orph_refuse
    | Some acc =>
        let* r1 := slot_root 1 acc in
        match r1 with
        | None | Some (_, None) => orph_refuse
        | Some (roots, Some max_gen) => collect_from env roots max_gen
        end
    end.

(** Source: core/vol_btree.c:2563-2574 [btree_collect_orphans_full] *)
Fixpoint drain_loop (env : option bytes) (rounds : nat) (total : Z) : M V Z :=
  match rounds with
  | O => mret total
  | S rounds =>
      let* f := btree_collect_orphans env in
      let* v := mget in
      if o_settled (orph v) then mret (total + f) else drain_loop env rounds (total + f)
  end.
(** Source: core/vol_btree.c [btree_collect_orphans_full] *)
Definition btree_collect_orphans_full (env : option bytes) : M V Z :=
  drain_loop env ORPHAN_DRAIN_MAX_ROUNDS 0.

(** [genv] is INVFS_RECLAIM_ORPHANS, [env] INVFS_RECLAIM_SCAN_BUDGET.
    Source: core/vol_reclaim.c [orph_gated] *)
Definition orph_gated (genv env : option bytes) (full : bool) : M V Z :=
  if negb (orphan_gate genv) then mret 0
  else if full then btree_collect_orphans_full env else btree_collect_orphans env.
(** Source: core/vol_reclaim.c [vol_reclaim_orphans] *)
Definition vol_reclaim_orphans (genv env : option bytes) : M V Z := orph_gated genv env false.
(** Source: core/vol_reclaim.c [vol_reclaim_orphans_full] *)
Definition vol_reclaim_orphans_full (genv env : option bytes) : M V Z := orph_gated genv env true.
End collector.

(** ** What a pass leaves alone *)

Section safety.
Context {D X : Type} `{!Dev D, !DevLaws D} (v0 : vol D X) (S : Z -> Prop).
Implicit Types v : vol D X.

(** [v] differs from [v0] by reads and by the collector's notes. *)
Definition peeked v : Prop :=
  stays none v0 (set_orph (orph v0) v) /\ v = set_orph (orph v) (set_v_dev (v_dev v) v0).

Lemma peek_refl : sound v0 -> peeked v0.
Proof. intros Hs. split; [|by destruct v0]. replace (set_orph (orph v0) v0) with v0 by by destruct v0. by apply moves_refl. Qed.

Lemma peek_orph v o : peeked v -> peeked (set_orph o v).
Proof. intros [M E]. split; [exact M|]. rewrite E. done. Qed.

Lemma peek_sound v : peeked v -> sound v.
Proof.
  intros [M E]. destruct (sy_sound M) as [Hw Hq Hk].
  assert (Hv : v = set_orph (orph v) (set_orph (orph v0) v)) by by destruct v.
  split; [rewrite Hv; by apply set_orph_step|exact Hq|exact Hk].
Qed.

Lemma peek_same v : peeked v -> v_a v = v_a v0 /\ rt v = rt v0 /\ pinned_root v = pinned_root v0 /\
  (forall q, live v q <-> live v0 q) /\ (forall q, page_at v q = page_at v0 q).
Proof.
  intros [M E]. assert (Ev : forall a, view v a = view v0 a) by (intros a; apply (sy_view M a); intros []).
  destruct (sy_geo M) as (_ & _ & _ & Ho & _).
  rewrite E. split_and!; try done.
  - intros q. unfold live, blk_ok. cbn [v_dev set_orph set_v_dev]. by rewrite <- (Ho (q * INVFS_BLOCK_SIZE)).
  - intros q. rewrite <- E. apply vrange_ext. intros. apply Ev.
Qed.

Lemma peek_dev v d : peeked v -> stays none v (set_v_dev d v) -> peeked (set_v_dev d v).
Proof.
  intros [M E] [S2 G2 C2 B2 T2 V2 I2 L2 O2 R2]. split; [|rewrite E; done].
  eapply moves_trans; [exact M|]. destruct S2 as [Hw Hq Hk].
  split; [|exact G2|exact C2|exact B2|exact T2|exact V2|exact I2|exact L2|done|by destruct v].
  split; [|exact Hq|exact Hk]. apply (set_orph_step (orph v0)) in Hw as [Hw _]. exact Hw.
Qed.

Lemma sound_blk v b : sound v -> 0 < b < total_blocks (vsb v) -> blk_ok v b.
Proof.
  intros [Hw Hq Hk] Hb. destruct (bitv v b) eqn:E; [|by apply (mw_clear v Hw)].
  apply Hk; [lia|]. by rewrite allocated_bit.
Qed.

Lemma peek_read b v r v' :
  peeked v -> 0 < b -> mbuf_read b v = (r, v') ->
  peeked v' /\ orph v' = orph v /\
  (forall pg, r = Some pg -> pg = page_at v0 b /\ b < total_blocks (vsb v0)).
Proof.
  intros Hp Hb H. pose proof (peek_sound v Hp) as Hs. destruct (peek_same v Hp) as (Ea & _ & _ & _ & Epg).
  assert (Et : vsb v = vsb v0) by (unfold vsb; by rewrite Ea).
  destruct (decide (b < total_blocks (vsb v0))) as [Hlt|Hge].
  - pose proof H as H'. apply (stays_read none) in H as [-> M]; [|done|rewrite Et; lia|apply sound_blk; [done|rewrite Et; lia]].
    assert (Ed : v' = set_v_dev (v_dev v') v).
    { unfold mbuf_read in H'. rewrite (mbind_eq _ _ _ v v) in H' by done.
      apply mguard_run in H' as [[_ H']|(_ & _ & ->)]; [|by destruct v].
      apply mguard_run in H' as [[_ H']|(_ & _ & ->)]; [|by destruct v].
      unfold io_pread, on_dev in H'. destruct (dev_pread _ _ _) as [? d]. by injection H' as _ <-. }
    split_and!; [rewrite Ed; apply peek_dev; [done|by rewrite <- Ed]|by rewrite Ed|].
    intros pg [= <-]. by rewrite Epg.
  - apply mbuf_read_run in H as [[-> ->]|(_ & Hlt & _)]; [by split_and!|]. rewrite Et in Hlt. lia.
Qed.

Lemma peek_ptr ptr v r v' :
  peeked v -> mbuf_read_ptr ptr v = (r, v') ->
  peeked v' /\ orph v' = orph v /\ (forall pg, r = Some pg -> pg = page_at v0 (bp_pba ptr)).
Proof.
  intros Hp H. apply mbuf_read_ptr_run in H as [[-> ->]|(Hz & Ha & r0 & H & Hr)]; [by split_and!|].
  assert (0 < bp_pba ptr).
  { unfold mbuf_page_allocated in Ha. destruct (Z.leb_spec (bp_pba ptr) 0); [done|lia]. }
  destruct (peek_read _ _ _ _ Hp H0 H) as (Hp' & Ho & Hpg). split_and!; [done|done|].
  intros pg Epg. destruct (Hr pg Epg) as (-> & _). by destruct (Hpg pg eq_refl).
Qed.

(** ... with the candidate set in order. *)
Definition tracked v : Prop := peeked v /\ orph_ok v /\ o_inlist (orph v) <> None.

Lemma cand_add_set b v : exists o, orph_cand_add b v = set_orph o v /\
  (o_inlist (orph v) <> None -> o_inlist o <> None).
Proof.
  assert (Hid : v = set_orph (orph v) v) by (by destruct v).
  unfold orph_cand_add. destruct (_ || _); [eauto|]. destruct (o_inlist (orph v)) eqn:E; [|eauto].
  destruct (bit_get _ _); [exists (orph v); by rewrite E|]. eexists. split; [reflexivity|]. by destruct (_ <? _).
Qed.

Lemma track_add b v : tracked v -> tracked (orph_cand_add b v).
Proof.
  intros (Hp & Ho & Hn). pose proof (cand_add_ok b v Ho) as Ho'. destruct (cand_add_set b v) as (o & E & Hn').
  rewrite E in Ho' |- *. split_and!; [by apply peek_orph|done|]. cbn. auto.
Qed.

Lemma track_read b v r v' :
  tracked v -> 0 < b -> mbuf_read b v = (r, v') ->
  tracked v' /\ orph v' = orph v /\ (forall pg, r = Some pg -> pg = page_at v0 b /\ b < total_blocks (vsb v0)).
Proof.
  intros (Hp & Ho & Hn) Hb H. destruct (peek_read b v r v' Hp Hb H) as (Hp' & Eo & Hr).
  split_and!; [split_and!|done|done]; [done| |by rewrite Eo].
  assert (Et : vsb v' = vsb v).
  { unfold vsb. by rewrite (proj1 (peek_same v' Hp')), (proj1 (peek_same v Hp)). }
  unfold orph_ok in *. by rewrite Eo, Et.
Qed.

Lemma seed_loop_safe fuel total budget : forall b reads v r v',
  tracked v -> 0 < b -> seed_loop fuel total budget b reads v = (r, v') ->
  tracked v' /\ exists b', r = Some b' /\ 0 < b'.
Proof.
  induction fuel as [|fuel IH]; intros b reads v r v' Ht Hb H; cbn [seed_loop] in H.
  { injection H as <- <-. eauto. }
  destruct (_ && _); [|injection H as <- <-; eauto].
  rewrite (mbind_eq _ _ _ v v) in H by done. destruct (_ =? 0); [by apply IH in H; [|done|lia]|].
  unfold mbind' at 1, mtry in H. destruct (mbuf_read b v) as [r1 v1] eqn:E.
  apply track_read in E as (Ht1 & _ & _); [|done|done].
  destruct r1 as [page|]; [|by apply IH in H; [|done|lia]].
  unfold mbind' at 1, on_orph, mmod at 1 in H. unfold mbind' at 1, mmod at 1 in H.
  apply IH in H; [done| |lia].
  assert (Ht2 : tracked (set_orph (set_o_seed_reads (o_seed_reads (orph v1) + 1) (orph v1)) v1)).
  { destruct Ht1 as (Hp & Ho & Hn). split_and!; [by apply peek_orph|exact Ho|exact Hn]. }
  destruct (_ && _); [by apply track_add|done].
Qed.

Lemma seed_scan_safe budget v r v' :
  tracked v -> orph_seed_scan budget v = (r, v') -> tracked v' /\ r = Some tt.
Proof.
  intros Ht H. unfold orph_seed_scan in H. rewrite (mbind_eq _ _ _ v v) in H by done.
  destruct (o_seed_done _); [injection H as <- <-; done|]. cbv zeta in H.
  unfold mbind' in H. destruct (seed_loop _ _ _ _ _ v) as [r1 v1] eqn:E.
  apply seed_loop_safe in E as ((Hp & Ho & Hn) & b' & -> & _); [|done|destruct (Z.ltb_spec 0 (o_seed_cursor (orph v))); lia].
  unfold on_orph, mmod in H. injection H as <- <-. split; [|done].
  split_and!; [by apply peek_orph| |]; by destruct (_ <=? _).
Qed.

(** The pages that look freeable are allocated blocks that validate. *)
Definition looks_free (c : Z * Z) : Prop :=
  0 < fst c < total_blocks (vsb v0) /\ bitv v0 (fst c) = true /\
  mbuf_page_validate (page_at v0 (fst c)) = true.

(** The state between the two ends of the compaction. *)
Definition compacting v (rest keep : list Z) : Prop :=
  peeked v /\ exists m, o_inlist (orph v) = Some m /\ total_blocks (vsb v0) <= 8 * zlen m /\
    NoDup (keep ++ rest) /\ Forall (cand_ok (total_blocks (vsb v0)) m) (keep ++ rest).

Lemma cand_pass_safe mg l : forall keep cand v r v',
  compacting v l keep -> Forall looks_free cand -> NoDup (map fst cand) -> (forall c, c ∈ cand -> fst c ∈ keep) ->
  cand_pass (total_blocks (vsb v0)) mg l keep cand v = (r, v') ->
  exists keep' cand', r = Some (keep', cand') /\ compacting v' [] keep' /\ Forall looks_free cand' /\
    NoDup (map fst cand').
Proof.
  induction l as [|b l IH]; intros keep cand v r v' Hc Hf Hn Hsub H; cbn [cand_pass] in H.
  { injection H as <- <-. eauto 10. }
  destruct Hc as (Hp & m & Em & Hl & Hnd & Hok). pose proof (peek_same v Hp) as (Ea & _).
  rewrite (mbind_eq _ _ _ v v) in H by done.
  assert (Hb : cand_ok (total_blocks (vsb v0)) m b).
  { apply Forall_app in Hok as [_ [? _]%Forall_cons_iff]. done. }
  pose proof Hnd as (Hnk & Hdis & [Hnb Hnl]%list.NoDup_cons)%list.NoDup_app.
  assert (Hbk : b ∉ keep) by (intros Hin; apply (Hdis b Hin); left).
  destruct (_ || _) eqn:Et.
  - unfold mbind' at 1, on_orph, mmod in H. apply IH in H; [done| |done|done|done].
    split; [by apply peek_orph|]. destruct Hb as [Hb _]. rewrite (proj2 (Z.ltb_lt b _)) by lia.
    cbn [orph set_orph o_inlist set_o_inlist]. rewrite Em. cbn [option_map].
    exists (bit_clr m b). rewrite length_bit_clr. split_and!; [done|done| |].
    + apply list.NoDup_app. split_and!; [done|intros x Hx Hin; apply (Hdis x Hx); by right|done].
    + apply Forall_app in Hok as [Hok1 [_ Hok2]%Forall_cons_iff]. apply Forall_app.
      assert (Hclr : forall k, b ∉ k -> Forall (cand_ok (total_blocks (vsb v0)) m) k ->
                Forall (cand_ok (total_blocks (vsb v0)) (bit_clr m b)) k).
      { intros k Hk HF. apply Forall_forall. intros x Hx. pose proof (proj1 (Forall_forall _ _) HF x Hx) as [Hr Hbit].
        split; [done|]. rewrite bit_get_clr by lia. rewrite Hbit. apply list_elem_of_In in Hx.
        rewrite (proj2 (Z.eqb_neq x b)); [done|]. by intros ->. }
      split; by apply Hclr.
  - zbool. unfold mbind' at 1, mtry in H. destruct (mbuf_read b v) as [r1 v1] eqn:E.
    apply peek_read in E as (Hp1 & Eo & Hpg); [|done|lia].
    assert (Hc1 : forall o, o_inlist o = o_inlist (orph v) -> compacting (set_orph o v1) l (keep ++ [b])).
    { intros o Eio. split; [by apply peek_orph|]. exists m. cbn. rewrite Eio, <- app_assoc. done. }
    assert (Hsub1 : forall c, c ∈ cand -> fst c ∈ keep ++ [b]) by (intros c ?%Hsub; apply elem_of_app; by left).
    destruct r1 as [page|].
    2: { apply IH in H; [done| |done|done|done]. replace v1 with (set_orph (orph v1) v1) by by destruct v1.
         apply Hc1. by rewrite Eo. }
    unfold mbind' at 1, on_orph, mmod in H. destruct (Hpg page eq_refl) as [-> Hlt].
    destruct (_ || _) eqn:Ev.
    + apply IH in H; [done| |done|done|done]. apply Hc1. cbn. by rewrite Eo.
    + zbool. apply IH in H; [done| | | |].
      * apply Hc1. cbn. by rewrite Eo.
      * apply Forall_app. split; [done|]. constructor; [|constructor].
        split; [by split|]. split; [|done]. unfold bitv. by rewrite <- Ea.
      * rewrite map_app. apply list.NoDup_app. split_and!; [done| |apply NoDup_singleton].
        intros x (c & Ex & Hx)%list_elem_of_fmap Hx'%list_elem_of_singleton. cbn in Hx'. apply Hbk.
        rewrite <- Hx', Ex. by apply Hsub.
      * intros c [Hx| ->%list_elem_of_singleton]%elem_of_app; [auto|]. apply elem_of_app. right. left.
Qed.


(** *** Marking *)

#[local] Instance beside_laws : PageStoreLaws (vol D X) := world_laws v0 S.
Context (Hs0 : sound v0) (HS : forall p, S p -> live v0 p).
Abbreviation total := (total_blocks (vsb v0)).

Lemma world_here : ps_wf v0.
Proof. split; [done|by apply moves_refl]. Qed.

Lemma track_orph v o :
  tracked v -> o_pba o = o_pba (orph v) -> o_inlist o = o_inlist (orph v) -> tracked (set_orph o v).
Proof.
  intros (Hp & Ho & Hn) E1 E2. split_and!; [by apply peek_orph| |cbn; by rewrite E2].
  unfold orph_ok in *. cbn. by rewrite E1, E2.
Qed.

Lemma track_ptr ptr v r v' :
  tracked v -> mbuf_read_ptr ptr v = (r, v') ->
  tracked v' /\ (forall pg, r = Some pg -> pg = page_at v0 (bp_pba ptr)).
Proof.
  intros (Hp & Ho & Hn) H. destruct (peek_ptr ptr v r v' Hp H) as (Hp' & Eo & Hr). split; [|done].
  split_and!; [done| |by rewrite Eo].
  assert (Et : vsb v' = vsb v).
  { unfold vsb. by rewrite (proj1 (peek_same v' Hp')), (proj1 (peek_same v Hp)). }
  unfold orph_ok in *. by rewrite Eo, Et.
Qed.

(** What a marking walk does. *)
Definition walks (rec : invfs_blkptr -> bytes -> M (vol D X) bytes) : Prop :=
  forall ptr seen busy v r v', tracked v -> roomy_bits total seen -> closed v0 seen busy ->
    rec ptr seen v = (r, v') -> tracked v' /\
    forall seen', r = Some seen' ->
      more total seen seen' /\ (0 < bp_pba ptr -> marked seen' (bp_pba ptr)) /\ closed v0 seen' busy.

Lemma walk_children rec es : walks rec -> forall seen busy v r v',
  tracked v -> roomy_bits total seen -> closed v0 seen busy -> mark_children rec es seen v = (r, v') ->
  tracked v' /\ forall seen', r = Some seen' ->
    more total seen seen' /\ Forall (fun e => 0 < bp_pba (e_child e) -> marked seen' (bp_pba (e_child e))) es /\
    closed v0 seen' busy.
Proof.
  intros Hrec. induction es as [|e es IH]; intros seen busy v r v' Ht Hr Hc H; cbn [mark_children] in H.
  { injection H as <- <-. split; [done|]. intros s [= <-]. split; [apply more_refl|]. by split. }
  apply mbind_run in H as [(s1 & v1 & E & H)|[E ->]].
  2: { destruct (Hrec _ _ _ _ _ _ Ht Hr Hc E) as [? _]. by split. }
  destruct (Hrec _ _ _ _ _ _ Ht Hr Hc E) as [Ht1 Hp]. destruct (Hp s1 eq_refl) as (Hm & Hmk & Hc1).
  destruct (IH s1 busy v1 r v' Ht1) as [Ht' Hp']; [unfold roomy_bits in *; by rewrite (proj1 Hm)|done|done|].
  split; [done|]. intros s' Es'. destruct (Hp' s' Es') as (Hm' & Hall & Hc'). split; [by eapply more_trans|].
  split; [|done]. constructor; [|done]. intros Hpos. apply (proj2 Hm'); [lia|]. by apply Hmk.
Qed.

Lemma walk_rows rec es : walks rec -> forall seen busy v r v',
  tracked v -> roomy_bits total seen -> closed v0 seen busy -> deep_rows rec total es seen v = (r, v') ->
  tracked v' /\ forall seen', r = Some seen' -> more total seen seen' /\ closed v0 seen' busy.
Proof.
  intros Hrec. induction es as [|e es IH]; intros seen busy v r v' Ht Hr Hc H; cbn [deep_rows] in H.
  { injection H as <- <-. split; [done|]. intros s [= <-]. split; [apply more_refl|done]. }
  destruct (orphan_row_recipe (e_v e)) as [pba|]; [|by eapply IH].
  destruct (_ || _); [by eapply IH|].
  apply mbind_run in H as [(s1 & v1 & E & H)|[E ->]].
  2: { destruct (Hrec _ _ _ _ _ _ Ht Hr Hc E) as [? _]. by split. }
  destruct (Hrec _ _ _ _ _ _ Ht Hr Hc E) as [Ht1 Hp]. destruct (Hp s1 eq_refl) as (Hm & _ & Hc1).
  destruct (IH s1 busy v1 r v' Ht1) as [Ht' Hp']; [unfold roomy_bits in *; by rewrite (proj1 Hm)|done|done|].
  split; [done|]. intros s' Es'. destruct (Hp' s' Es') as (Hm' & Hc'). split; [by eapply more_trans|done].
Qed.

(** A page entered and its children marked is done. *)
Lemma closed_done seen p busy :
  closed v0 seen (p :: busy) ->
  (forall level es, bt_decode (page_at v0 p) = Some (level, es) -> level <> INVFS_PAGE_LEVEL_LEAF ->
     live v0 p -> bytes_ok (page_at v0 p) ->
     Forall (fun e => bp_pba (e_child e) <> 0 -> marked seen (bp_pba (e_child e))) es) ->
  closed v0 seen busy.
Proof.
  intros Hc Hd ptr level es Hm Hb Hn Hl. destruct (decide (bp_pba ptr = p)) as [E|E].
  - pose proof Hn as ((Hlv & _) & _ & Hbo & _ & _ & _ & Hdec). simpl in *. rewrite E in *. by eapply Hd.
  - eapply Hc; [done| |done|done]. by apply not_elem_of_cons.
Qed.

Lemma deep_walks fuel : walks (bt_mark_rec_deep fuel total).
Proof.
  induction fuel as [|fuel IH]; intros ptr seen busy v r v' Ht Hr Hc H; cbn [bt_mark_rec_deep] in H.
  { injection H as <- <-. by split. }
  assert (Hstay : tracked v /\ forall s, Some seen = Some s -> more total seen s /\
            (0 < bp_pba ptr -> bit_get seen (bp_pba ptr) = true -> marked s (bp_pba ptr)) /\ closed v0 s busy).
  { split; [done|]. intros s [= <-]. split; [apply more_refl|by split]. }
  destruct (Z.leb_spec (bp_pba ptr) 0) as [Hz|Hz].
  { injection H as <- <-. split; [done|]. intros s [= <-]. split; [apply more_refl|split; [lia|done]]. }
  apply mguard_run in H as [[Hlt H]|(_ & -> & ->)]; [|by split]. zbool.
  destruct (bit_get seen (bp_pba ptr)) eqn:Eb.
  { injection H as <- <-. split; [done|]. intros s [= <-]. split; [apply more_refl|by split]. }
  clear Hstay. destruct (mark_one total seen (bp_pba ptr) Hr ltac:(lia)) as (Hm0 & Hmk & _).
  pose proof (closed_mark v0 world_here total seen (bp_pba ptr) busy Hr ltac:(lia) Hc) as Hc0.
  set (s0 := bit_set seen (bp_pba ptr)) in *. unfold mbind' at 1, on_orph, mmod in H.
  assert (Ht0 : tracked (set_orph (set_o_mark_reads (o_mark_reads (orph v) + 1) (orph v)) v)) by (by apply track_orph).
  assert (Hr0 : roomy_bits total s0) by (unfold roomy_bits in *; by rewrite (proj1 Hm0)).
  apply mbind_run in H as [(page & v1 & E1 & H)|[E1 ->]].
  2: { destruct (track_ptr _ _ _ _ Ht0 E1) as [? _]. by split. }
  destruct (track_ptr _ _ _ _ Ht0 E1) as [Ht1 Hpg]. rewrite (Hpg page eq_refl) in H. clear Hpg.
  unfold mbind' at 1 in H. rewrite bt_read_eq in H. unfold mbind' at 1 in H.
  destruct (mbuf_read_ptr ptr v1) as [r2 v2] eqn:E2. destruct (track_ptr _ _ _ _ Ht1 E2) as [Ht2 Hpg].
  destruct r2 as [page2|]; [|injection H as <- <-; by split]. rewrite (Hpg page2 eq_refl) in H. clear Hpg.
  destruct (bt_decode (page_at v0 (bp_pba ptr))) as [[level es]|] eqn:Ed; [|injection H as <- <-; by split].
  cbn [mret snd] in H. destruct (Z.eqb_spec (page_level (page_at v0 (bp_pba ptr))) INVFS_PAGE_LEVEL_LEAF) as [El|El].
  - destruct (walk_rows _ es IH s0 (bp_pba ptr :: busy) v2 r v' Ht2 Hr0 Hc0 H) as [Ht' Hp]. split; [done|].
    intros s' Es'. destruct (Hp s' Es') as (Hm' & Hc'). split; [by eapply more_trans|].
    split; [intros _; apply (proj2 Hm'); [lia|done]|]. eapply closed_done; [exact Hc'|].
    intros level' es' Ed' Hl' _ Hbo. destruct (decode_ok _ _ _ Hbo (length_page_at v0 _) Ed') as (_ & _ & Elv & _). congruence.
  - destruct (walk_children _ es IH s0 (bp_pba ptr :: busy) v2 r v' Ht2 Hr0 Hc0 H) as [Ht' Hp]. split; [done|].
    intros s' Es'. destruct (Hp s' Es') as (Hm' & Hall & Hc'). split; [by eapply more_trans|].
    split; [intros _; apply (proj2 Hm'); [lia|done]|]. eapply closed_done; [exact Hc'|].
    intros level' es' Ed' Hl' _ Hbo. rewrite Ed in Ed'. injection Ed' as <- <-.
    destruct (decode_ok _ _ _ Hbo (length_page_at v0 _) Ed) as (Hok & _).
    rewrite Forall_forall in Hok, Hall |- *. intros e He Hnz. apply Hall; [done|].
    destruct (Hok e He) as (_ & _ & Hpo). rewrite (proj2 (Z.eqb_neq _ _)) in Hpo by done.
    destruct Hpo as (_ & [Hpo _]). lia.
Qed.


(** Every root given is marked, and with it everything below. *)
Lemma walk_roots roots : forall seen v r v',
  tracked v -> roomy_bits total seen -> closed v0 seen [] -> mark_deep total roots seen v = (r, v') ->
  tracked v' /\ forall seen', r = Some seen' ->
    more total seen seen' /\ Forall (fun p => 0 < bp_pba p -> marked seen' (bp_pba p)) roots /\
    closed v0 seen' [].
Proof.
  induction roots as [|p roots IH]; intros seen v r v' Ht Hr Hc H; cbn [mark_deep] in H.
  { injection H as <- <-. split; [done|]. intros s [= <-]. split; [apply more_refl|]. by split. }
  apply mbind_run in H as [(s1 & v1 & E & H)|[E ->]].
  2: { destruct (deep_walks _ _ _ _ _ _ _ Ht Hr Hc E) as [? _]. by split. }
  destruct (deep_walks _ _ _ _ _ _ _ Ht Hr Hc E) as [Ht1 Hp]. destruct (Hp s1 eq_refl) as (Hm & Hmk & Hc1).
  destruct (IH s1 v1 r v' Ht1) as [Ht' Hp']; [unfold roomy_bits in *; by rewrite (proj1 Hm)|done|done|].
  split; [done|]. intros s' Es'. destruct (Hp' s' Es') as (Hm' & Hall & Hc'). split; [by eapply more_trans|].
  split; [|done]. constructor; [|done]. intros Hpos. apply (proj2 Hm'); [lia|]. by apply Hmk.
Qed.

(** *** Freeing *)

(** The blocks that look like tree pages are tree pages. *)
Context (Hown : forall b, looks_free (b, 0) -> live v0 b /\ ~ S b).

(** What may be given back: tree pages outside [seen]. *)
Definition garbage (seen : bytes) (b : Z) : Prop :=
  live v0 b /\ ~ S b /\ mbuf_page_validate (page_at v0 b) = true /\ ~ marked seen b.

Definition freeing (F : Z -> Prop) v : Prop :=
  moves none F v0 (set_orph (orph v0) v) /\
  exists m, o_inlist (orph v) = Some m /\ total <= 8 * zlen m /\ NoDup (o_pba (orph v)) /\
    Forall (fun b => 0 < b < total /\ (bit_get m b = true \/ bitv v b = false)) (o_pba (orph v)).

Lemma set_orph_sound v o : sound v -> sound (set_orph o v).
Proof. intros [Hw Hq Hk]. split; [by apply set_orph_step|done|done]. Qed.

Lemma freeing_sound F v : freeing F v -> sound v.
Proof.
  intros [M _]. pose proof (set_orph_sound _ (orph v) (sy_sound M)) as H. by destruct v.
Qed.

Lemma free_one_cand seen b v r v' (F : Z -> Prop) :
  freeing F v -> live v0 b -> ~ F b -> mbuf_free b v = (r, v') ->
  r = Some tt /\ freeing (fun q => F q \/ q = b) v' /\ orph v' = orph v /\
  (bitv v' b = false -> freeing (fun q => F q \/ q = b)
     (set_orph (set_o_inlist (option_map (fun m => bit_clr m b) (o_inlist (orph v'))) (orph v')) v')) /\
  (garbage seen b -> (forall q, F q -> garbage seen q) -> forall q, F q \/ q = b -> garbage seen q).
Proof.
  intros Hf Hl HF H. pose proof (freeing_sound F v Hf) as Hs. destruct Hf as (M & m & Em & Hlen & Hn & Hall).
  assert (Hlv : live v b).
  { destruct (moves_live _ _ _ _ b M Hl) as [Hlv _]; [by intros []|done|exact Hlv]. }
  pose proof Hl as (Hlt & _ & _ & Hnr & _). assert (0 < b) by (unfold reserved in Hnr; lia).
  destruct (moves_free none b v r v' Hs Hlv H) as (-> & M' & Eo & Hsub).
  apply (moves_orph _ _ _ _ (orph v0)) in M'.
  assert (M2 : moves none (fun q => F q \/ q = b) v0 (set_orph (orph v0) v')).
  { eapply moves_trans; [apply (moves_weaken none _ F); [done|by left|exact M]|].
    apply (moves_weaken none _ (eq b)); [done| |exact M']. intros q <-. by right. }
  assert (Hall' : Forall (fun b => 0 < b < total /\ (bit_get m b = true \/ bitv v' b = false)) (o_pba (orph v))).
  { eapply Forall_impl; [|exact Hall]. intros q [Hq [?|Hb]]; (split; [done|]); [by left|right].
    destruct (bitv v' q) eqn:E; [|done]. apply Hsub in E; [congruence|lia]. }
  split; [done|]. split; [split; [done|exists m; by rewrite Eo]|]. split; [done|]. split.
  - intros Hc. split; [done|]. cbn [orph set_orph o_inlist set_o_inlist o_pba]. rewrite Eo, Em. cbn [option_map].
    exists (bit_clr m b). rewrite length_bit_clr. split_and!; [done|done|done|].
    eapply Forall_impl; [|exact Hall']. intros q [Hq Hm]. split; [done|].
    destruct (decide (q = b)) as [->|Hne]; [by right|]. rewrite bit_get_clr by lia.
    rewrite (proj2 (Z.eqb_neq q b)) by done. destruct Hm as [->|?]; [by left|by right].
  - intros Hg Hgs q [?| ->]; auto.
Qed.

Lemma free_cands_safe seen mg cand : forall freed v r v' (F : Z -> Prop),
  freeing F v -> Forall looks_free cand -> NoDup (map fst cand) ->
  (forall c, c ∈ cand -> ~ F (fst c)) -> (forall q, F q -> garbage seen q) ->
  free_cands seen mg cand freed v = (r, v') ->
  exists n F', r = Some n /\ freeing F' v' /\ (forall q, F' q -> garbage seen q).
Proof.
  induction cand as [|[b g] cand IH]; intros freed v r v' F Hf Hl Hn HF Hg H; cbn [free_cands] in H.
  { injection H as <- <-. eauto. }
  apply Forall_cons_iff in Hl as [Hb Hl]. cbn [map fst] in Hn. apply list.NoDup_cons in Hn as [Hnb Hn].
  assert (Hrest : forall c, c ∈ cand -> ~ F (fst c)) by (intros c Hc; apply HF; by right).
  destruct (bit_get seen b || _) eqn:Ec; [by eapply IH|]. apply orb_false_elim in Ec as [Ec _].
  destruct (Hown b Hb) as [Hlb HSb].
  unfold mbind' at 1 in H. destruct (mbuf_free b v) as [r1 v1] eqn:E.
  assert (HFb : ~ F b) by (apply (HF (b, g)); left).
  destruct (free_one_cand seen b v r1 v1 F Hf Hlb HFb E) as (-> & Hf1 & Eo & Hf1' & Hg1).
  assert (Hgb : garbage seen b).
  { split_and!; [done|done|apply Hb|]. unfold marked. by rewrite Ec. }
  specialize (Hg1 Hgb Hg). unfold mbind' at 1, mget in H.
  assert (Hrest' : forall c, c ∈ cand -> ~ (F (fst c) \/ fst c = b)).
  { intros c Hc [?|E']; [by eapply Hrest|]. apply Hnb. rewrite <- E'. apply list_elem_of_fmap. eauto. }
  change (bit_get (bitmap (v_a v1)) b) with (bitv v1 b) in H. destruct (bitv v1 b) eqn:Eb; [by eapply IH|].
  unfold mbind', on_orph, mmod in H. eapply IH; [by apply Hf1'|done|done|done|done|exact H].
Qed.


(** *** A whole pass *)

Lemma moves_notes P F v o : moves P F v0 (set_orph o v) -> orph_ok v -> moves P F v0 v.
Proof.
  intros M Ho. pose proof (set_orph_sound _ (orph v) (sy_sound M)) as Hs.
  assert (Hid : set_orph (orph v) (set_orph o v) = v) by by destruct v. rewrite Hid in Hs.
  destruct M as [_ G C B T Vw I L _ R]. split; try done. unfold rest_same in *. rewrite <- Hid at 1. rewrite R. by destruct v.
Qed.

Lemma kept_after seen (F : Z -> Prop) v n root m :
  closed v0 seen [] -> (0 < bp_pba root -> marked seen (bp_pba root)) ->
  moves (bm_area v0) F v0 v -> (forall q, F q -> garbage seen q) ->
  holds n v0 root m -> holds n v root m.
Proof.
  intros Hc Hm M HF Hh. apply (holds_keep v0 v seen n root m world_here Hc); [|..|done].
  - intros Hn. apply Hm. destruct Hh as (kvs & Hh & _). destruct n as [|n]; [done|].
    destruct Hh as (_ & es & (((_ & _ & _ & Hr & _) & _) & _) & _). unfold reserved in Hr. cbn in Hr. lia.
  - intros q Hq [Hl HSq]. destruct (moves_live _ _ _ _ q M Hl) as [Hl' Hpg].
    + destruct Hl as (_ & _ & _ & Hr & _). intros Ha. apply Hr. right. by left.
    + intros (_ & _ & _ & Hnm)%HF. by apply Hnm.
    + split; [by split|exact Hpg].
Qed.

(** What a pass over [roots] may do. *)
Definition collects (roots : list Z) v : Prop :=
  exists F, moves (bm_area v0) F v0 v /\ orph_ok v /\
    (forall q, F q -> live v0 q /\ ~ S q /\ mbuf_page_validate (page_at v0 q) = true) /\
    (forall n root m, bp_pba root ∈ roots -> holds n v0 root m -> holds n v root m).

Lemma collects_peek roots v : peeked v -> orph_ok v -> collects roots v.
Proof.
  intros Hp Ho. exists none. assert (M : moves (bm_area v0) none v0 v).
  { apply (moves_notes _ _ v (orph v0)); [|done]. apply (moves_weaken none _ none); [by intros ? []|done|apply Hp]. }
  split_and!; [done|done|by intros ? []|].
  intros n root m _ Hh. destruct (peek_same v Hp) as (_ & _ & _ & Hl & Hpg).
  destruct Hh as (kvs & Hh & <-). exists kvs. split; [|done]. eapply root_at_change; [|exact Hh].
  intros q [Hq HSq]. split; [split; [by apply Hl|done]|apply Hpg].
Qed.


Lemma track_sb v : tracked v -> vsb v = vsb v0.
Proof. intros (Hp & _). unfold vsb. by rewrite (proj1 (peek_same v Hp)). Qed.

Lemma track_compacting v : tracked v -> compacting v (o_pba (orph v)) [].
Proof.
  intros Ht. pose proof (track_sb v Ht) as Et. destruct Ht as (Hp & Ho & Hn). split; [done|]. unfold orph_ok in Ho.
  destruct (o_inlist (orph v)) as [m|]; [|done]. rewrite Et in Ho. exists m. cbn [app]. by destruct Ho as (? & ? & ?).
Qed.

Lemma compacted v keep o :
  compacting v [] keep -> o_pba o = keep -> o_inlist o = o_inlist (orph v) -> tracked (set_orph o v).
Proof.
  intros (Hp & m & Em & Hl & Hn & Hf) E1 E2. rewrite app_nil_r in Hn, Hf. split_and!; [by apply peek_orph| |cbn; by rewrite E2, Em].
  unfold orph_ok. cbn. rewrite E2, Em, E1. unfold vsb. cbn. by rewrite (proj1 (peek_same v Hp)).
Qed.

Lemma track_freeing v : tracked v -> freeing none v.
Proof.
  intros Ht. destruct (track_compacting v Ht) as (Hp & m & Em & Hl & Hn & Hf). split; [apply Hp|]. exists m.
  split_and!; [done|done|done|]. eapply Forall_impl; [|exact Hf]. intros b [Hb Hm]. split; [done|by left].
Qed.

(** The set is compacted once more. *)
Lemma freeing_done F v o :
  freeing F v -> o_pba o = filter (fun b => bit_get (bitmap (v_a v)) b = true) (o_pba (orph v)) ->
  o_inlist o = o_inlist (orph v) -> orph_ok (set_orph o v).
Proof.
  intros (M & m & Em & Hl & Hn & Hf) E1 E2. unfold orph_ok. cbn [orph set_orph]. rewrite E2, Em, E1.
  change (vsb (set_orph o v)) with (vsb (set_orph (orph v0) v)). destruct (sy_geo M) as ((f & ->) & _).
  cbn [total_blocks set_vol_flags]. split_and!; [by apply list.NoDup_filter| |done].
  apply Forall_forall. intros b [Hb Hin]%list_elem_of_In%list_elem_of_filter. apply list_elem_of_In in Hin.
  destruct (proj1 (Forall_forall _ _) Hf b Hin) as [Hr [Hm|Hc]]; [by split|]. unfold bitv in Hc. congruence.
Qed.

Lemma flush_collects (go : bool) v (F : Z -> Prop) r v' :
  bm_env v0 -> moves none F v0 v -> orph_ok v ->
  (if go then vol_bitmap_flush else mret tt) v = (r, v') ->
  r = Some tt /\ moves (bm_area v0) F v0 v' /\ orph_ok v'.
Proof.
  intros He M Ho H. assert (M1 : moves (bm_area v0) F v0 v).
  { apply (moves_weaken none _ F); [by intros ? []|done|exact M]. }
  destruct go; [|by injection H as <- <-].
  assert (Hbe : bm_env v).
  { destruct He as [Hd Hlo]. destruct (sy_geo M) as ((f & Es) & En & _ & Hok & _). split.
    - intros o m. rewrite Es, En, Hok. exact (Hd o m).
    - by apply (sy_lo M). }
  apply stays_flush in H as (-> & M2 & _); [|apply M|done]. split; [done|]. split; [|by apply (sy_orph M2)].
  eapply moves_trans; [exact M1|]. apply (moves_weaken (bm_area v) _ none); [|by intros ? []|exact M2].
  intros b. unfold bm_area. by destruct (sy_geo M) as ((f & ->) & -> & _).
Qed.


Lemma track_collects roots v o :
  tracked v -> o_pba o = o_pba (orph v) -> o_inlist o = o_inlist (orph v) -> collects roots (set_orph o v).
Proof. intros Ht E1 E2. destruct (track_orph v o Ht E1 E2) as (Hp & Ho & _). by apply collects_peek. Qed.

Lemma free_phase seen mg cand roots (go : Z -> bool) v n v1 r v' o :
  bm_env v0 -> tracked v -> closed v0 seen [] -> Forall (fun p => 0 < p -> marked seen p) roots ->
  Forall looks_free cand -> NoDup (map fst cand) ->
  free_cands seen mg cand 0 v = (n, v1) ->
  o_pba o = filter (fun b => bit_get (bitmap (v_a v1)) b = true) (o_pba (orph v1)) ->
  o_inlist o = o_inlist (orph v1) ->
  (if go (default 0 n) then vol_bitmap_flush else mret tt) (set_orph o v1) = (r, v') ->
  n <> None /\ r = Some tt /\ collects roots v'.
Proof.
  intros He Ht Hc Hm Hl Hn Hf E1 E2 H.
  destruct (free_cands_safe seen mg cand 0 v n v1 none (track_freeing v Ht) Hl Hn) as (k & F & -> & Hf1 & HF);
    [by intros ? _ []|by intros ? []|done|].
  pose proof (freeing_done F v1 o Hf1 E1 E2) as Ho. destruct Hf1 as [M _].
  assert (M1 : moves none F v0 (set_orph o v1)) by (apply (moves_notes _ _ _ (orph v0)); [exact M|done]).
  destruct (flush_collects _ _ F _ _ He M1 Ho H) as (-> & M2 & Ho2). split; [done|]. split; [done|].
  exists F. split_and!; [done|done|by intros q (? & ? & ? & _)%HF|].
  intros d root m Hin Hh. eapply kept_after; [exact Hc| |exact M2|exact HF|exact Hh].
  intros Hpos. rewrite Forall_forall in Hm. apply (Hm _ (proj1 (list_elem_of_In _ _) Hin) Hpos).
Qed.

(** The roots of a pass: what the slots name, and the save point's. *)
Definition keep_roots (roots : list invfs_blkptr) : list Z :=
  map bp_pba roots ++ [bp_pba (pinned_root v0)].

Lemma collect_from_safe env roots mg v r v' :
  bm_env v0 -> tracked v -> collect_from env roots mg v = (r, v') -> collects (keep_roots roots) v'.
Proof.
  intros He Ht H. unfold collect_from in H. rewrite (mbind_eq _ _ _ v v) in H by done. cbv zeta in H.
  rewrite (track_sb v Ht) in H. unfold mbind' at 1 in H. destruct (orph_seed_scan _ v) as [r1 v1] eqn:E1.
  apply seed_scan_safe in E1 as [Ht1 ->]; [|done]. rewrite (mbind_eq _ _ _ v1 v1) in H by done.
  unfold mbind' at 1 in H. destruct (cand_pass _ _ _ _ _ v1) as [r2 v2] eqn:E2.
  apply cand_pass_safe in E2 as (keep & cand & -> & Hk & Hl & Hn);
    [|by apply track_compacting|constructor|constructor|by intros c ?%elem_of_nil].
  cbv iota beta in H. unfold mbind' at 1, on_orph at 1, mmod at 1 in H.
  set (v3 := set_orph _ v2) in H. assert (Ht3 : tracked v3) by (by apply (compacted v2 keep)).
  destruct cand as [|c cand].
  { unfold mbind', on_orph, mmod, mret in H. injection H as <- <-. by apply track_collects. }
  rewrite (mbind_eq _ _ _ v3 v3) in H by done. cbv zeta in H. set (pin := if negb _ then _ else _) in H.
  unfold mbind' at 1 in H. destruct (mark_deep _ _ _ v3) as [r4 v4] eqn:E4.
  assert (Hz : roomy_bits total (zeros ((total + 7) / 8))).
  { apply seen_bits. pose proof (mw_size v0 (so_wf v0 Hs0)). lia. }
  assert (Hc0 : closed v0 (zeros ((total + 7) / 8)) []).
  { intros ptr level es Hmk. unfold marked in Hmk. by rewrite bit_get_zeros in Hmk. }
  destruct (walk_roots _ _ _ _ _ Ht3 Hz Hc0 E4) as [Ht4 Hm].
  destruct r4 as [seen|]; [|injection H as <- <-; apply collects_peek; apply Ht4].
  destruct (Hm seen eq_refl) as (_ & Hall & Hc). unfold mbind' at 1 in H.
  destruct (free_cands _ _ _ _ v4) as [r5 v5] eqn:E5. destruct r5 as [n|].
  2: { destruct (free_cands_safe seen mg (c :: cand) 0 v4 None v5 none (track_freeing v4 Ht4) Hl Hn)
         as (? & ? & ? & _); [by intros ? _ []|by intros ? []|done|done]. }
  unfold mbind' at 1, mmod at 1 in H. unfold mbind' at 1 in H.
  set (o := set_o_freed _ _) in H. destruct ((if negb (n =? 0) then vol_bitmap_flush else mret tt) (set_orph o v5)) as [r6 v6] eqn:E6.
  destruct (free_phase seen mg (c :: cand) (keep_roots roots) (fun n => negb (n =? 0)) v4 (Some n) v5 r6 v6 o)
    as (_ & -> & Hcol); try done.
  - unfold keep_roots. apply Forall_app in Hall as [Hr Hp]. apply Forall_app. split; [by apply Forall_map|].
    constructor; [|constructor]. intros Hpos. unfold pin in Hp.
    rewrite (proj1 (proj2 (proj2 (peek_same v3 (proj1 Ht3))))) in Hp.
    rewrite (proj2 (Z.eqb_neq _ 0)) in Hp by lia. apply Forall_cons_iff in Hp as [Hp _]. by apply Hp.
  - injection H as <- <-. done.
Qed.


(** A slot that is named gives one root at its block. *)
Lemma slot_root_safe i acc v r v' :
  tracked v -> slot_root i acc v = (r, v') -> tracked v' /\
  exists x, r = Some x /\ forall acc', x = Some acc' ->
    let pba := root_slot (rt v0) i in
    (pba = 0 /\ acc' = acc) \/ (exists p, bp_pba p = pba /\ fst acc' = fst acc ++ [p]).
Proof.
  intros Ht H. pose proof Ht as (Hp & _). destruct (peek_same v Hp) as (Ea & Ert & _).
  unfold slot_root in H. rewrite (mbind_eq _ _ _ v v) in H by done. cbv zeta in H. rewrite Ert in H.
  set (pba := root_slot (rt v0) i) in *.
  destruct (Z.eqb_spec pba 0) as [Ez|Ez].
  { injection H as <- <-. split; [done|]. eexists. split; [done|]. intros ? [= <-]. by left. }
  destruct (_ <=? _); [injection H as <- <-; split; [done|]; by eexists|].
  unfold mbind' at 1, mtry in H. destruct (orphan_slot_ptr pba v) as [r1 v1] eqn:E1.
  assert (H1 : tracked v1 /\ forall p, r1 = Some p -> bp_pba p = pba).
  { unfold orphan_slot_ptr in E1. rewrite (mbind_eq _ _ _ v v) in E1 by done.
    apply mguard_run in E1 as [[Hal E1]|(_ & -> & ->)]; [|done].
    assert (0 < pba) by (unfold mbuf_page_allocated in Hal; destruct (Z.leb_spec pba 0); [done|lia]).
    unfold mbind' at 1 in E1. destruct (mbuf_read pba v) as [r2 v2] eqn:E2.
    apply track_read in E2 as (Ht2 & _); [|done|done]. destruct r2 as [pg|]; [|by injection E1 as <- <-].
    apply mguard_run in E1 as [[_ E1]|(_ & -> & ->)]; [|done]. injection E1 as <- <-. split; [done|]. by intros ? [= <-]. }
  destruct H1 as [Ht1 Hr]. destruct r1 as [p|]; [|injection H as <- <-; split; [done|]; by eexists].
  unfold mbind', on_orph, mmod in H. destruct acc as [roots mg]. injection H as <- <-.
  split; [by apply track_orph|]. eexists. split; [done|]. intros ? [= <-]. right. exists p. split; [by apply Hr|done].
Qed.

(** Roots that name no page are kept by anything. *)
Lemma collects_more roots roots' v :
  collects roots v -> (forall p, p ∈ roots' -> p = 0 \/ p ∈ roots) -> collects roots' v.
Proof.
  intros (F & M & Ho & HF & Hh) Hsub. exists F. split_and!; try done. intros n root m Hin Hr.
  destruct (Hsub _ Hin) as [Hz|?]; [|by apply Hh]. destruct n as [|n].
  - by destruct Hr as (kvs & Hr & <-); exists kvs.
  - destruct Hr as (kvs & (_ & es & (((_ & _ & _ & Hr & _) & _) & _) & _) & _). unfold reserved in Hr. cbn in Hr. lia.
Qed.

Lemma refuse_safe roots v r v' : tracked v -> orph_refuse v = (r, v') -> collects roots v'.
Proof. intros Ht H. unfold orph_refuse, mbind', on_orph, mmod in H. injection H as <- <-. by apply track_collects. Qed.

Lemma ready_tracked v : peeked v -> orph_ok v -> tracked (orph_set_ready v).
Proof.
  intros Hp Ho. destruct (set_ready_ok v (so_wf v (peek_sound v Hp)) Ho) as [Ho' Hn]. split_and!; [|done|done].
  unfold orph_set_ready. destruct (o_inlist (orph v)); [done|by apply peek_orph].
Qed.

(** The blocks of the roots a pass keeps. *)
Definition volume_roots : list Z := [root_slot (rt v0) 0; root_slot (rt v0) 1; bp_pba (pinned_root v0)].

Lemma collect_safe env r v' :
  orph_ok v0 -> bm_env v0 -> btree_collect_orphans env v0 = (r, v') -> collects volume_roots v'.
Proof.
  intros Ho He H. unfold btree_collect_orphans in H. rewrite (mbind_eq _ _ _ v0 v0) in H by done.
  pose proof (peek_refl Hs0) as Hp. destruct (negb _).
  { unfold orph_refuse, mbind', on_orph, mmod in H. injection H as <- <-. apply collects_peek; [by apply peek_orph|exact Ho]. }
  unfold mbind' at 1, mmod at 1 in H. pose proof (ready_tracked v0 Hp Ho) as Ht. set (v1 := orph_set_ready v0) in *.
  unfold mbind' at 1, on_orph, mmod in H. set (v2 := set_orph _ v1) in H.
  assert (Ht2 : tracked v2) by (by apply track_orph). clearbody v1 v2. unfold mbind' at 1 in H.
  destruct (slot_root 0 _ v2) as [r3 v3] eqn:E3. apply slot_root_safe in E3 as (Ht3 & x & -> & Hx); [|done].
  destruct x as [acc|]; [|exact (refuse_safe _ _ _ _ Ht3 H)]. specialize (Hx acc eq_refl). unfold mbind' at 1 in H.
  destruct (slot_root 1 _ v3) as [r4 v4] eqn:E4. apply slot_root_safe in E4 as (Ht4 & y & -> & Hy); [|done].
  destruct y as [[roots [mg|]]|]; [|exact (refuse_safe _ _ _ _ Ht4 H)..]. specialize (Hy _ eq_refl).
  cbv zeta in Hx, Hy. eapply collects_more; [exact (collect_from_safe env roots mg v4 r v' He Ht4 H)|].
  intros p Hin. unfold keep_roots. rewrite elem_of_app, list_elem_of_singleton, list_elem_of_fmap.
  unfold volume_roots in Hin. rewrite !elem_of_cons in Hin.
  destruct Hin as [->|[->|[->|[]%elem_of_nil]]]; [| |by right; right].
  - destruct Hx as [[? _]|(q & Eq & Ex)]; [by left|]. right; left. exists q. split; [done|]. cbn in Ex.
    destruct Hy as [[_ Ey]|(q' & _ & Ey)].
    + rewrite <- Ey in Ex. cbn in Ex. rewrite Ex. left.
    + cbn in Ey. rewrite Ey, Ex. left.
  - destruct Hy as [[? _]|(q & Eq & Ey)]; [by left|]. right; left. exists q. split; [done|]. cbn in Ey. rewrite Ey.
    apply elem_of_app. right. left.
Qed.

End safety.

(** C12: the orphan collector is safe.  On a volume whose storage works and
    whose allocated blocks that validate as tree pages are tree pages, a pass
    of [btree_collect_orphans], whatever it answers, leaves every tree of the
    volume as it was: a root at the block of either RT30 slot or of the save
    point's pinned root stands for the same map afterwards.  Only blocks that
    hold a tree page are given back, the blocks [S] of other owners and their
    contents stay, and the candidate set keeps its invariant. *)
Theorem orphans_safe {D X : Type} `{!Dev D, !DevLaws D} (S : Z -> Prop) env (v : vol D X) r v' :
  sound v -> orph_ok v -> bm_env v -> (forall p, S p -> live v p) ->
  (forall b, 0 < b < total_blocks (vsb v) -> bitv v b = true ->
     mbuf_page_validate (page_at v b) = true -> live v b /\ ~ S b) ->
  btree_collect_orphans env v = (r, v') ->
  sound v' /\ orph_ok v' /\
  (forall p, S p -> live v' p /\ page_at v' p = page_at v p) /\
  (forall p, 0 <= p -> bitv v p = true -> bitv v' p = false -> mbuf_page_validate (page_at v p) = true) /\
  (forall n root m, bp_pba root ∈ volume_roots v -> holds n v root m -> holds n v' root m).
Proof.
  intros Hs Ho He HS Hown H.
  destruct (collect_safe v S Hs HS) with (4 := H) as (F & M & Ho' & HF & _); [|done|done|].
  { intros b (Hb & Hbit & Hv). by apply Hown. }
  destruct (collect_safe v none Hs) with (5 := H) as (F' & M' & _ & _ & Hh); [by intros ? []| |done|done|].
  { intros b (Hb & Hbit & Hv). split; [by apply Hown|by intros []]. }
  split_and!; [apply M|done| | |].
  - intros p Hp. apply (moves_live _ _ _ _ p M (HS p Hp)).
    + destruct (HS p Hp) as (_ & _ & _ & Hr & _). intros Ha. apply Hr. right. by left.
    + intros (_ & Hn & _)%HF. done.
  - intros p Hp Hb Hb'. destruct (decide (mbuf_page_validate (page_at v p) = true)) as [|Hn]; [done|].
    exfalso. rewrite (sy_bits M p Hp) in Hb'; [done| |done]. intros (_ & _ & ?)%HF. done.
  - intros n root m Hin (kvs & Hr & Em).
    destruct (Hh n root m Hin) as (kvs' & Hr' & Em').
    + exists kvs. split; [|done]. eapply root_at_change; [|exact Hr]. intros q Hq. split; [split; [exact Hq|by intros []]|done].
    + exists kvs'. split; [|done]. apply (root_at_change (world_laws v none) mbuf_store_laws v' v' n root kvs'); [|exact Hr']. intros q [Hq _]. by split.
Qed.

Section demo.
Import Ram.

(** A volume with its root in slot 0. *)
Definition slotted (v : vol ram unit) : vol ram unit :=
  set_rt_present true (set_rt (mkRt RT_MAGIC INVFS_RT_VERSION INVFS_BLOCK_SIZE 2 0 0 0 0) v).

Definition slot_check (v : vol ram unit) : bool :=
  (0 <=? bm_lo (v_a v)) && (bitmap_blocks (v_a v) =? 1) &&
  bool_decide (o_pba (orph v) = [2]) &&
  match o_inlist (orph v) with Some m => bit_get m 2 && (40 <=? 8 * zlen m) | None => false end &&
  (total_blocks (vsb v) =? 40).

Lemma slotted_ready v root kvs :
  mb_wf v -> quiet v -> alloc_dok v -> root_at 1 v root kvs -> slot_check v = true ->
  sound (slotted v) /\ orph_ok (slotted v) /\ bm_env (slotted v) /\ root_at 1 (slotted v) root kvs.
Proof.
  intros Hw Hq Hd Hr H. unfold slot_check in H. rewrite !andb_true_iff, bool_decide_eq_true in H.
  destruct H as ((((Hlo & Hbb) & Hpba) & Hin) & Ht). apply Z.leb_le in Hlo. apply Z.eqb_eq in Hbb, Ht.
  split_and!.
  - split; [|exact Hq|exact Hd]. by destruct Hw.
  - unfold orph_ok. change (orph (slotted v)) with (orph v). change (vsb (slotted v)) with (vsb v).
    rewrite Hpba, Ht. destruct (o_inlist (orph v)) as [m|]; [|done].
    apply andb_true_iff in Hin as [Hm Hl%Z.leb_le]. split_and!; [apply NoDup_singleton| |done].
    constructor; [|constructor]. split; [lia|done].
  - split; [|exact Hlo]. intros o m Ho Hm Hle. change (v_a (slotted v)) with (v_a v) in Hle.
    rewrite Hbb in Hle. cbn. unfold ofs. pose proof (Z.div_mod o INVFS_BLOCK_SIZE ltac:(done)).
    pose proof (Z.mod_pos_bound o INVFS_BLOCK_SIZE ltac:(done)). unfold INVFS_BLOCK_SIZE in *. nia.
  - apply (root_at_change mbuf_store_laws mbuf_store_laws v); [|exact Hr]. intros q Hlv. by split.
Qed.

Lemma slotted_owned v b :
  pages_owned v -> 0 < b < total_blocks (vsb (slotted v)) -> bitv (slotted v) b = true ->
  mbuf_page_validate (page_at (slotted v) b) = true -> live (slotted v) b /\ ~ none b.
Proof.
  intros Ho Hb Hbit Hv. split; [|by intros []]. refine (proj1 (Ho b _ _ Hv)); [lia|].
  rewrite <- Hbit. by apply (allocated_bit (slotted v)).
Qed.

Lemma one_vol_check : slot_check one_vol = true.
Proof. vm_compute. reflexivity. Qed.

Lemma orphans_safe_witness :
  exists root, root_slot (rt (slotted one_vol)) 0 = bp_pba root /\
    holds 1 (snd (btree_collect_orphans None (slotted one_vol))) root {[ [1] := [7] ]}.
Proof.
  destruct one_vol_facts as (root & Ep & Hw & Hq & Hr). destruct one_vol_owned as (Hown & Hd & _).
  destruct (slotted_ready one_vol root _ Hw Hq Hd Hr one_vol_check) as (Hs & Ho & He & Hr').
  exists root. split; [exact (eq_sym Ep)|].
  refine (proj2 (proj2 (proj2 (proj2 (orphans_safe none None (slotted one_vol) _ _ Hs Ho He _
    (fun b => slotted_owned one_vol b Hown) (surjective_pairing _))))) 1%nat root _ _ _).
  - by intros p [].
  - rewrite Ep. left.
  - exists [([1], [7])]. split; [exact Hr'|reflexivity].
Defined.
End demo.
End Orphans.
