(* ===== verification/DeltaIndex.v ===== *)
(** * The coalescing index of the delta log (vol_delta.c, part 2)

    The recent tier is found through an in-memory hash table: open addressing
    with linear probing over a power-of-two array, growth at 70 per cent load
    and deletion by reinserting the cluster behind the hole.  This file models
    the table operation by operation and shows that it implements a finite map
    from keys to record references, that every probe ends, and that the sorted
    per-thread view [vol_delta_range] reads is never stale.

    Allocation of host memory ([malloc], [calloc], [realloc]) succeeds. *)

From stdpp Require Import sorting.
From S2P Require Import Prelude Keys Kv.

Module DeltaIndex.
Import Keys Kv.

(** ** Data *)

(** Where the winning record of a key lies.
    Source: core/vol_delta.h:55-62 [delta_ref] *)
Record delta_ref := mkRef {
  r_seg : Z;          (* segment pba *)
  r_off : Z;          (* offset in the segment *)
  r_seq : Z;
  r_flags : Z;
  r_vlen : Z
}.

(** A slot: [None] is the empty slot ([key == NULL]); the reference fields of
    the C struct are grouped.
    Source: core/vol_delta.c:376-384 [delta_slot] *)
Record delta_slot := mkSlot { s_key : bytes; s_ref : delta_ref }.

(** Source: core/vol_delta.c:386-398 [delta_index] *)
Record delta_index := mkDi {
  di_slot : list (option delta_slot);
  di_used : Z;
  di_inst : Z;
  di_epoch : Z
}.

Abbreviation slots := (list (option delta_slot)).
Definition di_cap (di : delta_index) : nat := length (di_slot di).

(** ** Operations *)

Definition FNV_BASIS : Z := 2166136261.
Definition FNV_PRIME : Z := 16777619.

(** FNV-1a on 32 bits.
    Source: core/vol_delta.c [dl_hash] *)
Definition dl_hash (p : bytes) : Z :=
  let h := foldl (fun h b => u32 (Z.lxor h b * FNV_PRIME)) FNV_BASIS p in
  if h =? 0 then 1 else h.

(** [x & mask] with [mask = cap - 1]. *)
Definition masked (ss : slots) (x : Z) : nat := Z.to_nat (Z.land x (zlen ss - 1)).
Definition home (ss : slots) (key : bytes) : nat := masked ss (dl_hash key).
Definition next (ss : slots) (i : nat) : nat := masked ss (Z.of_nat i + 1).

(** The probe loop [for (;;)] of every operation: from [i] on, the first slot
    that is empty or that [stop] accepts.  The loop has no bound of its own;
    [None] stands for a walk of [fuel] slots without either.
    Source: core/vol_delta.c:439-446 [di_find] *)
Fixpoint probe (stop : delta_slot -> bool) (ss : slots) (fuel i : nat) : option nat :=
  match fuel with
  | O => None
  | S fuel =>
      match ss !! i with
      | Some (Some s) => if stop s then Some i else probe stop ss fuel (next ss i)
      | _ => Some i
      end
  end.

Definition has_key (key : bytes) (s : delta_slot) : bool := bool_decide (s_key s = key).

(** Source: core/vol_delta.c [di_find] *)
Definition di_find (di : delta_index) (key : bytes) : option nat :=
  let ss := di_slot di in
  match probe (has_key key) ss (length ss) (home ss key) with
  | Some i => match ss !! i with Some (Some _) => Some i | _ => None end
  | None => None
  end.

(** [g_index_inst] counts the tables made; the new one carries its number.
    Source: core/vol_delta.c [di_new] *)
Definition di_new (g_index_inst : Z) : delta_index :=
  mkDi (replicate 64 None) 0 (g_index_inst + 1) 0.

(** The inner loop of [di_grow] and of [di_delete_at]: into the first empty
    slot from the key's home on.
    Source: core/vol_delta.c:460-463 [di_grow] *)
Definition reinsert (ss : slots) (t : delta_slot) : slots :=
  match probe (fun _ => false) ss (length ss) (home ss (s_key t)) with
  | Some j => <[j := Some t]> ss
  | None => ss
  end.

(** Source: core/vol_delta.c [di_grow] *)
Definition di_grow (di : delta_index) : delta_index :=
  let ns := foldl (fun ns o => match o with Some t => reinsert ns t | None => ns end)
              (replicate (di_cap di * 2) None) (di_slot di) in
  mkDi ns (di_used di) (di_inst di) (di_epoch di + 1).

(** What [di_put] does once the table has room; the flag of the
    answer is [*inserted].
    Source: core/vol_delta.c:489-515 [di_put] *)
Definition di_set (di : delta_index) (key : bytes) (r : delta_ref) : delta_index * bool :=
  let ss := di_slot di in
  match probe (has_key key) ss (length ss) (home ss key) with
  | Some i =>
      let ss' := <[i := Some (mkSlot key r)]> ss in
      match ss !! i with
      | Some (Some _) => (mkDi ss' (di_used di) (di_inst di) (di_epoch di), false)
      | _ => (mkDi ss' (di_used di + 1) (di_inst di) (di_epoch di + 1), true)
      end
  | None => (di, false)
  end.

(** Source: core/vol_delta.c [di_put] *)
Definition di_put (di : delta_index) (key : bytes) (r : delta_ref) : delta_index * bool :=
  di_set (if 7 * Z.of_nat (di_cap di) <=? di_used di * 10 then di_grow di else di) key r.

(** The loop that empties the trailing cluster slot by slot and reinserts.
    Source: core/vol_delta.c:582-600 [di_delete_at] *)
Fixpoint shift_cluster (fuel : nat) (ss : slots) (i : nat) : slots :=
  match fuel with
  | O => ss
  | S fuel =>
      let i := next ss i in
      match ss !! i with
      | Some (Some t) => shift_cluster fuel (reinsert (<[i := None]> ss) t) i
      | _ => ss
      end
  end.

(** [used--] and [used++] around each reinsertion cancel.
    Source: core/vol_delta.c [di_delete_at] *)
Definition di_delete_at (di : delta_index) (idx : nat) : delta_index :=
  match di_slot di !! idx with
  | Some (Some _) =>
      mkDi (shift_cluster (di_cap di) (<[idx := None]> (di_slot di)) idx)
        (di_used di - 1) (di_inst di) (di_epoch di + 1)
  | _ => di
  end.

(** *** The sorted view of a reader *)

(** Source: core/vol_delta.c:1713-1717 [di_skey] *)
Record di_skey := mkSkey { sk_key : bytes; sk_slot : nat }.

(** One per thread; [sv_v] has [n] entries.
    Source: core/vol_delta.c:1719-1723 [di_sorted] *)
Record di_sorted := mkSorted { sv_inst : Z; sv_epoch : Z; sv_v : list di_skey }.

(** A fresh ([calloc]ed) view matches no table: instances count from 1. *)
Definition sorted_zero : di_sorted := mkSorted 0 0 [].

(** The occupied slots in table order.
    Source: core/vol_delta.c:1781-1807 [di_sorted_build] *)
Fixpoint skeys (i : nat) (ss : slots) : list di_skey :=
  match ss with
  | [] => []
  | Some s :: ss => mkSkey (s_key s) i :: skeys (S i) ss
  | None :: ss => skeys (S i) ss
  end.

(** [di_skey_cmp(a, b) <= 0] *)
Definition skey_le (a b : di_skey) : Prop := vol_key_cmp (sk_key a) (sk_key b) <= 0.
#[export] Instance skey_le_dec a b : Decision (skey_le a b).
Proof. unfold skey_le. apply _. Defined.

(** Keys are distinct, so what [qsort] makes of them does not depend on the
    sorting algorithm.
    Source: core/vol_delta.c [di_sorted_build] *)
Definition di_sorted_build (di : delta_index) : di_sorted :=
  mkSorted (di_inst di) (di_epoch di) (merge_sort skey_le (skeys 0 (di_slot di))).

(** The bsearch for the first key not below [lo]; the interval shrinks at
    every turn.
    Source: core/vol_delta.c:1862-1873 [vol_delta_range] *)
Fixpoint first_loop (fuel : nat) (v : list di_skey) (lo : bytes) (a b : nat) : nat :=
  match fuel with
  | O => a
  | S fuel =>
      if (a <? b)%nat then
        let mid := (a + (b - a) / 2)%nat in
        match v !! mid with
        | Some k => if vol_key_cmp (sk_key k) lo <? 0 then first_loop fuel v lo (S mid) b
                    else first_loop fuel v lo a mid
        | None => a
        end
      else a
  end.

(** The walk to [hi]; the reference is the one the slot holds now.
    Source: core/vol_delta.c:1874-1881 [vol_delta_range] *)
Fixpoint emit_loop (di : delta_index) (v : list di_skey) (hi : bytes) : list (bytes * delta_ref) :=
  match v with
  | [] => []
  | k :: v =>
      if negb (zlen hi =? 0) && (0 <=? vol_key_cmp (sk_key k) hi) then []
      else
        match di_slot di !! sk_slot k with
        | Some (Some s) => (sk_key k, s_ref s) :: emit_loop di v hi
        | _ => emit_loop di v hi
        end
  end.

Section range_cb.
Context {C : Type} (cb : C -> bytes -> delta_ref -> Z * C).

(** Source: core/vol_delta.c:1898-1902 [vol_delta_range] *)
Fixpoint run_range (l : list (bytes * delta_ref)) (c : C) : Z * C :=
  match l with
  | [] => (0, c)
  | (k, r) :: l => let '(rc, c) := cb c k r in if negb (rc =? 0) then (rc, c) else run_range l c
  end.

(** The entries collected from a view of the table.
    Source: core/vol_delta.c:1855-1897 [vol_delta_range] *)
Definition range_entries (di : delta_index) (sv : di_sorted) (lo hi : bytes)
    : list (bytes * delta_ref) :=
  let v := sv_v sv in
  let first := if zlen lo =? 0 then 0%nat else first_loop (length v) v lo 0 (length v) in
  emit_loop di (drop first v) hi.

(** [sv] is the calling thread's view, handed back as the call leaves it.
    Source: core/vol_delta.c:1816-1905 [vol_delta_range] *)
Definition vol_delta_range (odi : option delta_index) (sv : di_sorted) (lo hi : bytes) (c : C)
    : (Z * C) * di_sorted :=
  match odi with
  | None => ((0, c), sv)
  | Some di =>
      let sv := if negb (sv_inst sv =? di_inst di) || negb (sv_epoch sv =? di_epoch di)
                then di_sorted_build di else sv in
      (run_range (range_entries di sv lo hi) c, sv)
  end.
End range_cb.

(** ** The table invariant *)

Definition full (ss : slots) : list delta_slot := omap id ss.

Definition occ (ss : slots) (i : nat) : Prop := exists s, ss !! i = Some (Some s).

(** Slot [d] steps behind [i], cyclically. *)
Definition at_ (ss : slots) (i d : nat) : nat := ((i + d) mod length ss)%nat.

(** Every slot a probe for [key] passes on its way to [j] is occupied, with
    [P] the slots it may find empty. *)
Definition reach (P : nat -> Prop) (ss : slots) (key : bytes) (j : nat) : Prop :=
  exists d, (d < length ss)%nat /\ j = at_ ss (home ss key) d /\
    forall d', (d' < d)%nat -> occ ss (at_ ss (home ss key) d') \/ P (at_ ss (home ss key) d').

Definition pow2 (n : nat) : Prop := exists k : nat, n = (2 ^ k)%nat.

Definition uniq (ss : slots) : Prop :=
  forall i j s t, ss !! i = Some (Some s) -> ss !! j = Some (Some t) -> s_key s = s_key t -> i = j.

Definition probing (ss : slots) : Prop :=
  forall j s, ss !! j = Some (Some s) -> reach (fun _ => False) ss (s_key s) j.

Record slots_ok (ss : slots) : Prop := {
  so_pow2 : pow2 (length ss);
  so_uniq : uniq ss;
  so_probing : probing ss
}.

Record di_ok (di : delta_index) : Prop := {
  do_slots : slots_ok (di_slot di);
  do_used : di_used di = zlen (full (di_slot di));
  do_room : di_used di < Z.of_nat (di_cap di);
  do_cap : (4 <= di_cap di)%nat
}.

(** The finite map the table stands for. *)
Definition pair_of (s : delta_slot) : bytes * delta_ref := (s_key s, s_ref s).
Definition di_map (di : delta_index) : gmap bytes delta_ref :=
  list_to_map (pair_of <$> full (di_slot di)).

(** ** Cyclic positions *)

Lemma pow2_pos n : pow2 n -> (0 < n)%nat.
Proof. intros [k ->]. pose proof (Nat.pow_nonzero 2 k). lia. Qed.

Lemma masked_mod ss x :
  pow2 (length ss) -> 0 <= x -> masked ss x = (Z.to_nat x mod length ss)%nat.
Proof.
  intros [k E] Hx. unfold masked. rewrite E, Nat2Z.inj_pow, Z.sub_1_r, <- Z.ones_equiv.
  rewrite Z.land_ones by lia.
  rewrite Z2Nat.inj_mod by (try lia; apply Z.pow_nonneg; lia). f_equal.
  rewrite Z2Nat.inj_pow by lia. by rewrite Nat2Z.id.
Qed.

Lemma dl_hash_nonneg p : 0 <= dl_hash p.
Proof.
  unfold dl_hash. case_match; [lia|].
  assert (G : forall l h, 0 <= h -> 0 <= foldl (fun h b => u32 (Z.lxor h b * FNV_PRIME)) h l).
  { induction l as [|b l IH]; intros h Hh; [done|]. cbn. apply IH, u32_range. }
  apply G. done.
Qed.

Lemma home_mod ss key :
  pow2 (length ss) -> home ss key = (Z.to_nat (dl_hash key) mod length ss)%nat.
Proof. intros. apply masked_mod; [done|apply dl_hash_nonneg]. Qed.

Lemma home_lt ss key : pow2 (length ss) -> (home ss key < length ss)%nat.
Proof. intros H. rewrite home_mod by done. apply Nat.mod_upper_bound. pose proof (pow2_pos _ H). lia. Qed.

(** The home depends on the size of the table only. *)
Lemma home_len ss ss' key : length ss' = length ss -> home ss' key = home ss key.
Proof. unfold home, masked. by intros ->. Qed.
Lemma at_len ss ss' i d : length ss' = length ss -> at_ ss' i d = at_ ss i d.
Proof. unfold at_. by intros ->. Qed.
Lemma next_len ss ss' i : length ss' = length ss -> next ss' i = next ss i.
Proof. unfold next, masked. by intros ->. Qed.

Lemma next_at ss i : pow2 (length ss) -> next ss i = at_ ss i 1.
Proof. intros. unfold next, at_. rewrite masked_mod by (try done; lia). f_equal. lia. Qed.

Lemma at_at ss i a b : at_ ss (at_ ss i a) b = at_ ss i (a + b).
Proof.
  unfold at_. destruct (length ss) as [|n] eqn:E; [cbn; lia|].
  rewrite Nat.Div0.add_mod_idemp_l. f_equal. lia.
Qed.

Lemma at_lt ss i d : (0 < length ss)%nat -> (at_ ss i d < length ss)%nat.
Proof. intros. apply Nat.mod_upper_bound. lia. Qed.

Lemma at_0 ss i : (i < length ss)%nat -> at_ ss i 0 = i.
Proof. intros. unfold at_. rewrite Nat.add_0_r. by apply Nat.mod_small. Qed.

(** Positions of one turn are different. *)
Lemma at_inj ss i a b :
  (a < length ss)%nat -> (b < length ss)%nat -> at_ ss i a = at_ ss i b -> a = b.
Proof.
  intros Ha Hb E. unfold at_ in E. set (n := length ss) in *.
  assert (Hn : Z.of_nat n <> 0) by lia.
  assert (E' : (Z.of_nat i + Z.of_nat a) mod Z.of_nat n = (Z.of_nat i + Z.of_nat b) mod Z.of_nat n).
  { rewrite <- !Nat2Z.inj_add, <- !Nat2Z.inj_mod. by rewrite E. }
  pose proof (Z.div_mod (Z.of_nat i + Z.of_nat a) (Z.of_nat n) Hn) as E1.
  pose proof (Z.div_mod (Z.of_nat i + Z.of_nat b) (Z.of_nat n) Hn) as E2.
  rewrite E' in E1.
  set (q1 := (Z.of_nat i + Z.of_nat a) / Z.of_nat n) in *.
  set (q2 := (Z.of_nat i + Z.of_nat b) / Z.of_nat n) in *.
  assert (q1 = q2) by nia. nia.
Qed.

(** Every slot is within one turn. *)
Lemma at_surj ss i j :
  (i < length ss)%nat -> (j < length ss)%nat ->
  exists d, (d < length ss)%nat /\ j = at_ ss i d.
Proof.
  intros Hi Hj. destruct (decide (i <= j)%nat).
  - exists (j - i)%nat. split; [lia|]. unfold at_. rewrite Nat.mod_small; lia.
  - exists (length ss + j - i)%nat. split; [lia|]. unfold at_.
    replace (i + (length ss + j - i))%nat with (j + 1 * length ss)%nat by lia.
    rewrite Nat.Div0.mod_add. rewrite Nat.mod_small; lia.
Qed.

(** ** The probe loop *)

Definition stops (stop : delta_slot -> bool) (ss : slots) (j : nat) : Prop :=
  ss !! j = Some None \/ exists s, ss !! j = Some (Some s) /\ stop s = true.
Definition passes (stop : delta_slot -> bool) (ss : slots) (j : nat) : Prop :=
  exists s, ss !! j = Some (Some s) /\ stop s = false.

Lemma stops_passes stop ss j : stops stop ss j -> passes stop ss j -> False.
Proof. intros [?|(? & ? & ?)] (? & ? & ?); congruence. Qed.

Lemma stops_or_passes stop ss j : (j < length ss)%nat -> stops stop ss j \/ passes stop ss j.
Proof.
  intros Hj. destruct (lookup_lt_is_Some_2 ss j Hj) as [[s|] E]; [|by left; left].
  destruct (stop s) eqn:Es; [left; right|right]; eexists; eauto.
Qed.

(** The first stop within the fuel is the answer. *)
Lemma probe_at stop ss fuel i d :
  pow2 (length ss) -> (i < length ss)%nat -> (d < fuel)%nat ->
  (forall d', (d' < d)%nat -> passes stop ss (at_ ss i d')) ->
  stops stop ss (at_ ss i d) ->
  probe stop ss fuel i = Some (at_ ss i d).
Proof.
  intros H2. revert i d. induction fuel as [|fuel IH]; intros i d Hi Hd Hp Hs; [lia|].
  pose proof (pow2_pos _ H2). cbn. destruct d as [|d].
  - rewrite at_0 in Hs |- * by done. destruct Hs as [->|(s & -> & ->)]; done.
  - destruct (Hp 0%nat) as (s & E & Es); [lia|]. rewrite at_0 in E by done. rewrite E, Es.
    rewrite next_at by done. rewrite (IH (at_ ss i 1) d); [by rewrite at_at|by apply at_lt|lia| |].
    + intros d' ?. rewrite at_at. apply Hp. lia.
    + by rewrite at_at.
Qed.

(** ... and there is one whenever a slot of the table is empty. *)
Lemma probe_total stop ss i :
  pow2 (length ss) -> (i < length ss)%nat -> (exists e, ss !! e = Some None) ->
  exists d, (d < length ss)%nat /\ probe stop ss (length ss) i = Some (at_ ss i d) /\
    (forall d', (d' < d)%nat -> passes stop ss (at_ ss i d')) /\ stops stop ss (at_ ss i d).
Proof.
  intros H2 Hi [e He]. pose proof (pow2_pos _ H2).
  destruct (at_surj ss i e) as (de & Hde & ->); [done|by eapply lookup_lt_Some|].
  assert (G : forall n, (n <= length ss)%nat ->
    (exists d, (d < n)%nat /\ (forall d', (d' < d)%nat -> passes stop ss (at_ ss i d')) /\
       stops stop ss (at_ ss i d)) \/ (forall d', (d' < n)%nat -> passes stop ss (at_ ss i d'))).
  { induction n as [|n IH]; intros Hn; [right; lia|].
    destruct IH as [(d & ? & ? & ?)|Hall]; [lia|left; exists d; split_and!; [lia|done|done]|].
    destruct (stops_or_passes stop ss (at_ ss i n)) as [Hs|Hp]; [by apply at_lt| |].
    - left. exists n. split_and!; [lia|done|done].
    - right. intros d' ?. destruct (decide (d' = n)) as [->|]; [done|]. apply Hall. lia. }
  destruct (G (length ss)) as [(d & Hd & Hp & Hs)|Hall]; [done| |].
  - exists d. split_and!; [done| |done..]. by apply probe_at.
  - destruct (stops_passes stop ss (at_ ss i de)); [by left|by apply Hall].
Qed.

(** ** Occupied slots as a list *)

Lemma omap_split ss j o :
  ss !! j = Some o ->
  full ss = full (take j ss) ++ option_list o ++ full (drop (S j) ss).
Proof.
  intros H. rewrite <- (take_drop_middle ss j o H) at 1. unfold full. rewrite omap_app.
  f_equal. by destruct o.
Qed.

Lemma omap_insert ss j o :
  (j < length ss)%nat ->
  full (<[j := o]> ss) = full (take j ss) ++ option_list o ++ full (drop (S j) ss).
Proof.
  intros H. rewrite insert_take_drop by done. unfold full. rewrite omap_app. f_equal. by destruct o.
Qed.

Lemma elem_of_slots ss s : s ∈ full ss <-> exists j, ss !! j = Some (Some s).
Proof.
  unfold full. rewrite list_elem_of_omap. setoid_rewrite list_elem_of_lookup. unfold id. split.
  - by intros (o & [j Hj] & ->); exists j.
  - intros [j Hj]. eauto.
Qed.

Lemma omap_full ss : zlen (full ss) < zlen ss -> exists e, ss !! e = Some None.
Proof.
  unfold full. induction ss as [|[s|] ss IH]; cbn; intros H; [lia| |by exists 0%nat].
  destruct IH as [e He]; [lia|]. by exists (S e).
Qed.

Lemma uniq_NoDup ss : uniq ss -> NoDup ((pair_of <$> full ss).*1).
Proof.
  unfold full. induction ss as [|o ss IH]; intros Hu; [constructor|].
  assert (Hu' : uniq ss).
  { intros i j s t Hi Hj E. specialize (Hu (S i) (S j) s t Hi Hj E). lia. }
  destruct o as [s|]; cbn; [|by apply IH]. constructor; [|by apply IH].
  intros Hin. apply list_elem_of_fmap in Hin as ([k r] & Ek & Hin). cbn in Ek.
  apply list_elem_of_fmap in Hin as (t & Et & Hin). apply elem_of_slots in Hin as [j Hj].
  injection Et as -> ->. specialize (Hu 0%nat (S j) s t eq_refl Hj Ek). lia.
Qed.

Lemma di_map_lookup di k r :
  uniq (di_slot di) ->
  di_map di !! k = Some r <-> exists j, di_slot di !! j = Some (Some (mkSlot k r)).
Proof.
  intros Hu. unfold di_map. rewrite <- elem_of_list_to_map by by apply uniq_NoDup.
  rewrite list_elem_of_fmap. setoid_rewrite elem_of_slots. unfold pair_of. split.
  - intros (s & E & j & Hj). exists j. destruct s as [k' r']. cbn in E. by simplify_eq.
  - intros (j & Hj). by exists (mkSlot k r); eauto.
Qed.

Lemma di_map_None di k :
  uniq (di_slot di) ->
  di_map di !! k = None <-> forall j s, di_slot di !! j = Some (Some s) -> s_key s <> k.
Proof.
  intros Hu. rewrite eq_None_not_Some. split.
  - intros H j [k' r] Hj <-. apply H. exists r. apply di_map_lookup; eauto.
  - intros H [r Hr]. apply di_map_lookup in Hr as [j Hj]; [|done]. by apply (H j _ Hj).
Qed.

Lemma di_size di : di_ok di -> Z.of_nat (size (di_map di)) = di_used di.
Proof.
  intros [[_ Hu _] E _ _]. unfold di_map. rewrite map_size_list_to_map by by apply uniq_NoDup.
  rewrite length_fmap. lia.
Qed.

(** ** Insertion into the slot a probe found *)

(** A table that grows keeps what was reachable. *)
Lemma reach_mono (P Q : nat -> Prop) ss ss' key j :
  length ss' = length ss -> (forall i, occ ss i \/ P i -> occ ss' i \/ Q i) ->
  reach P ss key j -> reach Q ss' key j.
Proof.
  intros Hl Hi (d & Hd & -> & Hp). exists d. rewrite Hl, (home_len ss ss' key), (at_len ss ss') by done.
  split_and!; [done..|]. intros d' Hd'. rewrite (at_len ss ss') by done. by apply Hi, Hp.
Qed.

Lemma occ_insert ss j s i : (j < length ss)%nat -> occ ss i -> occ (<[j := Some s]> ss) i.
Proof.
  intros Hj [t Ht]. destruct (decide (i = j)) as [->|].
  - exists s. by rewrite list_lookup_insert_eq.
  - exists t. by rewrite list_lookup_insert_ne.
Qed.

Lemma lookup_insert_slot (ss : slots) j (o : option delta_slot) i t :
  <[j := o]> ss !! i = Some (Some t) ->
  (i = j /\ o = Some t) \/ (i <> j /\ ss !! i = Some (Some t)).
Proof.
  intros H. destruct (decide (i = j)) as [->|Hne].
  - destruct (decide (j < length ss)%nat).
    + rewrite list_lookup_insert_eq in H by done. left. naive_solver.
    + rewrite list_insert_ge in H by lia. apply lookup_lt_Some in H. lia.
  - rewrite list_lookup_insert_ne in H by done. by right.
Qed.

(** A new key into the first empty slot of its probe. *)
Lemma insert_new ss t d :
  slots_ok ss -> (forall i s, ss !! i = Some (Some s) -> s_key s <> s_key t) ->
  (d < length ss)%nat -> (forall d', (d' < d)%nat -> occ ss (at_ ss (home ss (s_key t)) d')) ->
  ss !! at_ ss (home ss (s_key t)) d = Some None ->
  slots_ok (<[at_ ss (home ss (s_key t)) d := Some t]> ss).
Proof.
  intros [H2 Hu Hp] Hnew Hd Hocc Hj. set (j := at_ ss _ d) in *.
  assert (Hlt : (j < length ss)%nat) by by eapply lookup_lt_Some.
  split; [by rewrite length_insert| |].
  - intros i i' s s' Hi Hi' E.
    apply lookup_insert_slot in Hi as [[-> Es]|[Hn Hi]], Hi' as [[-> Es']|[Hn' Hi']]; [done| | |].
    + simplify_eq. by destruct (Hnew i' s').
    + simplify_eq. by destruct (Hnew i s).
    + by apply (Hu i i' s s').
  - intros i s Hi. apply lookup_insert_slot in Hi as [[-> [= <-]]|[Hn Hi]].
    + exists d. rewrite length_insert, (home_len ss), (at_len ss) by by rewrite length_insert.
      split_and!; [done..|]. intros d' Hd'. left. rewrite (at_len ss) by by rewrite length_insert.
      apply occ_insert; [done|]. by apply Hocc.
    + apply Hp in Hi. eapply reach_mono; [..|exact Hi]; [by rewrite length_insert|].
      intros i' [?|[]]. left. by apply occ_insert.
Qed.

(** Replacing the reference of a key in place. *)
Lemma insert_same ss j s r :
  slots_ok ss -> ss !! j = Some (Some s) -> slots_ok (<[j := Some (mkSlot (s_key s) r)]> ss).
Proof.
  intros [H2 Hu Hp] Hj. assert (Hlt : (j < length ss)%nat) by by eapply lookup_lt_Some.
  assert (K : forall i t, <[j := Some (mkSlot (s_key s) r)]> ss !! i = Some (Some t) ->
    exists t', ss !! i = Some (Some t') /\ s_key t' = s_key t).
  { intros i t Hi. apply lookup_insert_slot in Hi as [[-> [= <-]]|[Hn Hi]]; eauto. }
  split; [by rewrite length_insert| |].
  - intros i i' t t' (u & Hi & Ei)%K (u' & Hi' & Ei')%K E. apply (Hu i i' u u' Hi Hi'). congruence.
  - intros i t (u & Hi & <-)%K. apply Hp in Hi.
    eapply reach_mono; [..|exact Hi]; [by rewrite length_insert|].
    intros i' [?|[]]. left. by apply occ_insert.
Qed.

Lemma count_insert ss j o o' :
  ss !! j = Some o ->
  zlen (full (<[j := o']> ss)) = zlen (full ss) + zlen (option_list o') - zlen (option_list o).
Proof.
  intros H. rewrite omap_insert by by eapply lookup_lt_Some. rewrite (omap_split ss j o H).
  rewrite !length_app. lia.
Qed.

(** ** The map does not depend on the order of the slots *)

Definition map_of (l : list delta_slot) : gmap bytes delta_ref := list_to_map (pair_of <$> l).

Lemma map_of_perm ss l : uniq ss -> full ss ≡ₚ l -> map_of (full ss) = map_of l.
Proof.
  intros Hu Hp. apply list_to_map_proper; [by apply uniq_NoDup|]. by rewrite Hp.
Qed.

Lemma full_set ss j t : ss !! j = Some None -> full (<[j := Some t]> ss) ≡ₚ t :: full ss.
Proof.
  intros H. rewrite omap_insert by by eapply lookup_lt_Some. rewrite (omap_split ss j None H).
  cbn. by rewrite <- Permutation_middle.
Qed.

Lemma full_clear ss j t : ss !! j = Some (Some t) -> full ss ≡ₚ t :: full (<[j := None]> ss).
Proof.
  intros H. rewrite omap_insert by by eapply lookup_lt_Some. rewrite (omap_split ss j _ H).
  cbn. by rewrite <- Permutation_middle.
Qed.

Lemma full_replace ss j s t :
  ss !! j = Some (Some s) ->
  exists l, full ss ≡ₚ s :: l /\ full (<[j := Some t]> ss) ≡ₚ t :: l.
Proof.
  intros H. exists (full (take j ss) ++ full (drop (S j) ss)).
  rewrite omap_insert by by eapply lookup_lt_Some. rewrite (omap_split ss j _ H).
  cbn. by rewrite <- !Permutation_middle.
Qed.

(** A key that no occupied slot carries. *)
Definition fresh (ss : slots) (key : bytes) : Prop :=
  forall i s, ss !! i = Some (Some s) -> s_key s <> key.

Lemma fresh_perm ss key : fresh ss key <-> Forall (fun s => s_key s <> key) (full ss).
Proof.
  rewrite Forall_forall. setoid_rewrite <- list_elem_of_In. setoid_rewrite elem_of_slots.
  unfold fresh. split; [intros H s [j Hj]|intros H j s Hj]; eauto.
Qed.

(** ** Lookup *)

(** Where the probe for [key] ends: at the key, or at an empty slot when no
    slot carries it. *)
Lemma probe_key ss key :
  slots_ok ss -> (exists e, ss !! e = Some None) ->
  exists d, (d < length ss)%nat /\
    probe (has_key key) ss (length ss) (home ss key) = Some (at_ ss (home ss key) d) /\
    (forall d', (d' < d)%nat -> occ ss (at_ ss (home ss key) d')) /\
    ((ss !! at_ ss (home ss key) d = Some None /\ fresh ss key) \/
     exists r, ss !! at_ ss (home ss key) d = Some (Some (mkSlot key r))).
Proof.
  intros [H2 Hu Hp] He.
  destruct (probe_total (has_key key) ss (home ss key) H2 (home_lt _ _ H2) He)
    as (d & Hd & Hpr & Hpass & Hs).
  exists d. split_and!; [done|done| |].
  { intros d' Hd'. destruct (Hpass d' Hd') as (s & ? & _). by exists s. }
  destruct Hs as [Hn|([k r] & Hs & Hk)].
  - left. split; [done|]. intros j s Hj <-.
    destruct (Hp j s Hj) as (d1 & Hd1 & -> & Hocc).
    destruct (lt_eq_lt_dec d d1) as [[Hlt| ->]|Hgt].
    + destruct (Hocc d Hlt) as [[t Ht]|[]]. congruence.
    + congruence.
    + destruct (Hpass d1 Hgt) as (t & Ht & Hk). rewrite Hj in Ht. injection Ht as <-.
      unfold has_key in Hk. by rewrite bool_decide_eq_false in Hk.
  - right. unfold has_key in Hk. apply bool_decide_eq_true in Hk. cbn in Hk. subst. by exists r.
Qed.

Lemma di_empty di : di_ok di -> exists e, di_slot di !! e = Some None.
Proof. intros [_ E Hr _]. apply omap_full. unfold di_cap in Hr. lia. Qed.

Lemma di_find_spec di key :
  di_ok di ->
  match di_find di key with
  | Some j => exists r, di_slot di !! j = Some (Some (mkSlot key r)) /\ di_map di !! key = Some r
  | None => di_map di !! key = None
  end.
Proof.
  intros Hok. destruct (probe_key (di_slot di) key) as (d & _ & Hp & _ & Hd);
    [apply Hok|by apply di_empty|].
  pose proof (so_uniq _ (do_slots _ Hok)) as Hu.
  unfold di_find. rewrite Hp. destruct Hd as [[-> Hf]|[r Hr]].
  - by apply di_map_None.
  - rewrite Hr. exists r. split; [done|]. apply di_map_lookup; eauto.
Qed.

(** ** Growth *)

Lemma length_reinsert ss t : length (reinsert ss t) = length ss.
Proof. unfold reinsert. case_match; [by rewrite length_insert|done]. Qed.

Lemma reinsert_at ss t :
  pow2 (length ss) -> (exists e, ss !! e = Some None) ->
  exists d, (d < length ss)%nat /\
    (forall d', (d' < d)%nat -> occ ss (at_ ss (home ss (s_key t)) d')) /\
    ss !! at_ ss (home ss (s_key t)) d = Some None /\
    reinsert ss t = <[at_ ss (home ss (s_key t)) d := Some t]> ss.
Proof.
  intros H2 He.
  destruct (probe_total (fun _ => false) ss (home ss (s_key t)) H2 (home_lt _ _ H2) He)
    as (d & Hd & Hpr & Hpass & Hs).
  exists d. unfold reinsert. rewrite Hpr. split_and!; [done| | |done].
  - intros d' Hd'. destruct (Hpass d' Hd') as (s & ? & _). by exists s.
  - by destruct Hs as [?|(? & _ & ?)].
Qed.

Lemma reinsert_new ss t :
  slots_ok ss -> fresh ss (s_key t) -> (exists e, ss !! e = Some None) ->
  slots_ok (reinsert ss t) /\ full (reinsert ss t) ≡ₚ t :: full ss.
Proof.
  intros Hok Hf He. destruct (reinsert_at ss t) as (d & Hd & Hocc & Hn & ->); [apply Hok|done|].
  split; [by apply insert_new|by apply full_set].
Qed.

Lemma empty_slots_ok n : pow2 n -> slots_ok (replicate n None).
Proof.
  intros. assert (N : forall i s, replicate n None !! i <> Some (Some s) :> option (option delta_slot)).
  { intros i s E. apply lookup_replicate in E as [? _]. done. }
  split; [by rewrite length_replicate| |]; repeat intro; by edestruct N.
Qed.

Lemma full_empty n : full (replicate n None) = [].
Proof. unfold full. by induction n. Qed.

Lemma grow_loop l ns :
  slots_ok ns -> uniq l -> (forall t, t ∈ full l -> fresh ns (s_key t)) ->
  zlen (full ns) + zlen (full l) < zlen ns ->
  let ns' := foldl (fun ns o => match o with Some t => reinsert ns t | None => ns end) ns l in
  slots_ok ns' /\ length ns' = length ns /\ full ns' ≡ₚ full l ++ full ns.
Proof.
  unfold full. revert ns. induction l as [|[t|] l IH]; intros ns Hok Hu Hf Hc; cbn in *; [done| |].
  - assert (Hu' : uniq l).
    { intros i j s u Hi Hj E. specialize (Hu (S i) (S j) s u Hi Hj E). lia. }
    destruct (reinsert_new ns t) as [Hok' Hp]; [done|apply Hf; left|apply omap_full; unfold full; lia|].
    unfold full in Hp. destruct (IH (reinsert ns t)) as (? & Hl & Hp'); [done|done| | |].
    + intros u Hin. apply fresh_perm. unfold full. rewrite Hp. constructor.
      * apply elem_of_slots in Hin as [j Hj]. intros E. specialize (Hu 0%nat (S j) t u eq_refl Hj E). lia.
      * apply (fresh_perm ns), Hf. by right.
    + rewrite length_reinsert, Hp. cbn. lia.
    + split_and!; [done|by rewrite Hl, length_reinsert|]. rewrite Hp', Hp. by rewrite Permutation_middle.
  - apply IH; [done| |done|done].
    intros i j s u Hi Hj E. specialize (Hu (S i) (S j) s u Hi Hj E). lia.
Qed.

Lemma di_grow_spec di :
  di_ok di ->
  di_ok (di_grow di) /\ di_map (di_grow di) = di_map di /\ di_used (di_grow di) = di_used di /\
  di_cap (di_grow di) = (2 * di_cap di)%nat.
Proof.
  intros [[H2 Hu Hp] E Hr Hc]. unfold di_cap in *.
  destruct (grow_loop (di_slot di) (replicate (length (di_slot di) * 2) None)) as (Hok & Hl & Hf).
  - apply empty_slots_ok. destruct H2 as [k ->]. exists (S k). cbn. lia.
  - done.
  - intros t _ i s Hi. apply lookup_replicate in Hi as [? _]. done.
  - rewrite full_empty, length_replicate. cbn. lia.
  - rewrite full_empty, app_nil_r in Hf. rewrite length_replicate in Hl.
    unfold di_grow, di_cap. cbn [di_slot di_used]. split_and!.
    + split; unfold di_cap; cbn [di_slot di_used]; [done|by rewrite Hf|rewrite Hl; lia|rewrite Hl; lia].
    + unfold di_map. cbn [di_slot]. apply (map_of_perm _ _); [apply Hok|done].
    + done.
    + rewrite Hl. cbn. lia.
Qed.

(** ** Insertion *)

Lemma map_of_cons t l : map_of (t :: l) = <[s_key t := s_ref t]> (map_of l).
Proof. done. Qed.

(** The slots other than the one written keep key and place. *)
Definition keys_at (di : delta_index) : list (option bytes) := map (option_map s_key) (di_slot di).
Definition same_keys (di di' : delta_index) : Prop := keys_at di' = keys_at di.

(** A reference overwritten in place. *)
Lemma di_replace_spec di j key r0 r ep :
  di_ok di -> di_slot di !! j = Some (Some (mkSlot key r0)) ->
  let di' := mkDi (<[j := Some (mkSlot key r)]> (di_slot di)) (di_used di) (di_inst di) ep in
  di_ok di' /\ di_map di' = <[key := r]> (di_map di).
Proof.
  intros [Hs E Hr Hc] Hr0.
  assert (Hs' : slots_ok (<[j := Some (mkSlot key r)]> (di_slot di)))
    by exact (insert_same _ _ _ r Hs Hr0).
  destruct (full_replace (di_slot di) j _ (mkSlot key r) Hr0) as (l & Hl & Hl').
  split.
  - split; unfold di_cap in *; cbn [di_slot di_used]; [done| |rewrite length_insert; lia..].
    rewrite Hl'. rewrite E, Hl. done.
  - unfold di_map. cbn [di_slot].
    etrans; [apply (map_of_perm _ _ (so_uniq _ Hs') Hl')|].
    etrans; [|apply (f_equal _ (eq_sym (map_of_perm _ _ (so_uniq _ Hs) Hl)))].
    rewrite !map_of_cons. cbn. by rewrite insert_insert_eq.
Qed.

Lemma di_set_spec di key r di' ins :
  di_ok di -> di_used di + 1 < Z.of_nat (di_cap di) -> di_set di key r = (di', ins) ->
  di_ok di' /\ di_map di' = <[key := r]> (di_map di) /\
  ins = bool_decide (di_map di !! key = None) /\ di_inst di' = di_inst di /\
  (if ins then di_epoch di' = di_epoch di + 1
   else di_epoch di' = di_epoch di /\ same_keys di di').
Proof.
  intros Hok Hroom. pose proof Hok as [Hs E Hr Hc].
  destruct (probe_key (di_slot di) key Hs) as (d & Hd & Hp & Hocc & Hat); [by apply di_empty|].
  unfold di_set. rewrite Hp. set (j := at_ (di_slot di) _ d) in *.
  destruct Hat as [[Hn Hf]|[r0 Hr0]].
  - rewrite Hn. intros [= <- <-].
    assert (Hs' : slots_ok (<[j := Some (mkSlot key r)]> (di_slot di)))
      by (apply (insert_new _ (mkSlot key r)); done).
    split_and!; [|..|done|done].
    + split; unfold di_cap in *; cbn [di_slot di_used]; [done| |rewrite length_insert; lia..].
      rewrite (full_set _ _ _ Hn). cbn. lia.
    + unfold di_map. cbn [di_slot]. etrans; [apply (map_of_perm _ _ (so_uniq _ Hs') (full_set _ _ _ Hn))|].
      by rewrite map_of_cons.
    + symmetry. apply bool_decide_eq_true. apply di_map_None; [apply Hs|done].
  - rewrite Hr0. intros [= <- <-].
    destruct (di_replace_spec di j key r0 r (di_epoch di) Hok Hr0) as [Hok' Hm'].
    split_and!; [done|done| |done|done|].
    + symmetry. apply bool_decide_eq_false.
      rewrite (proj2 (di_map_lookup di key r0 (so_uniq _ Hs))); eauto.
    + unfold same_keys, keys_at. cbn [di_slot]. rewrite (list_fmap_insert (option_map s_key)). cbn.
      apply list_insert_id. by rewrite list_lookup_fmap, Hr0.
Qed.

Lemma di_put_spec di key r di' ins :
  di_ok di -> di_put di key r = (di', ins) ->
  di_ok di' /\ di_map di' = <[key := r]> (di_map di) /\
  ins = bool_decide (di_map di !! key = None) /\ di_inst di' = di_inst di /\
  (di_epoch di < di_epoch di' \/ di_epoch di' = di_epoch di /\ same_keys di di').
Proof.
  intros Hok. unfold di_put. pose proof Hok as [_ _ Hr Hc].
  case_match eqn:Eg; intros H.
  - destruct (di_grow_spec di Hok) as (Hok1 & Em & Eu & Ec).
    apply di_set_spec in H as (? & Hm & Hi & Hn & He); [|done|lia].
    rewrite Em in Hm, Hi. split_and!; [done..|]. cbn in He. left. destruct ins; [|destruct He]; lia.
  - zbool. apply di_set_spec in H as (? & Hm & Hi & Hn & He); [|done|lia].
    split_and!; [done..|]. destruct ins; [left; lia|by right].
Qed.

Lemma di_new_ok g : di_ok (di_new g) /\ di_map (di_new g) = ∅.
Proof.
  split; [|done]. split; [|done|done|unfold di_cap; cbn; lia]. apply empty_slots_ok. by exists 6%nat.
Qed.

(** ** Deletion *)

(** Behind slot [idx] lies a cluster of [n - 1] occupied slots, closed by an
    empty one.  [between] are the positions [a <= t < b] of it. *)
Definition between (ss : slots) (idx a b : nat) (j : nat) : Prop :=
  exists t, (a <= t < b)%nat /\ j = at_ ss idx t.

(** After [t] steps: the cluster's slots up to [t] are done, a probe for an
    entry behind [t] may still cross the holes left up to [t]. *)
Record shifting (idx n t : nat) (ss : slots) : Prop := {
  sh_pow2 : pow2 (length ss);
  sh_idx : (idx < length ss)%nat;
  sh_n : (0 < n < length ss)%nat;
  sh_t : (t < n)%nat;
  sh_uniq : uniq ss;
  sh_end : ss !! at_ ss idx n = Some None;
  sh_todo : forall s, (t < s < n)%nat -> occ ss (at_ ss idx s);
  sh_probe : forall j s, ss !! j = Some (Some s) ->
    reach (fun q => between ss idx 0 (S t) q /\ between ss idx (S t) n j) ss (s_key s) j
}.

(** A probe that goes on past position [a] of the cluster and does not cross
    its end stops inside it. *)
Lemma cross ss idx a n h j d' d1 :
  (a < n)%nat -> at_ ss h d' = at_ ss idx a -> (d' < d1)%nat -> j = at_ ss h d1 ->
  (forall d, (d <= d1)%nat -> at_ ss h d <> at_ ss idx n) ->
  between ss idx (S a) n j.
Proof.
  intros Han Hd' Hlt -> Hend.
  assert (Hj : at_ ss h d1 = at_ ss idx (a + (d1 - d'))).
  { rewrite <- at_at, <- Hd', at_at. f_equal. lia. }
  destruct (decide (a + (d1 - d') < n)%nat) as [Hin|Hout].
  - exists (a + (d1 - d'))%nat. split; [lia|done].
  - destruct (Hend (d' + (n - a))%nat); [lia|]. rewrite <- at_at, Hd', at_at. f_equal. lia.
Qed.

Lemma between_len ss ss' idx a b j : length ss' = length ss -> between ss' idx a b j <-> between ss idx a b j.
Proof. intros Hl. unfold between. setoid_rewrite (at_len ss ss' _ _ Hl). done. Qed.

Lemma uniq_sub ss ss' :
  (forall i s, ss' !! i = Some (Some s) -> ss !! i = Some (Some s)) -> uniq ss -> uniq ss'.
Proof. intros H Hu i j s t Hi Hj. apply (Hu i j s t); by apply H. Qed.

Lemma clear_sub (ss : slots) i : forall j s, <[i := None]> ss !! j = Some (Some s) ->
  j <> i /\ ss !! j = Some (Some s).
Proof. intros j s H. by apply lookup_insert_slot in H as [[_ ?]|?]. Qed.

Lemma occ_clear ss i j : occ ss j -> j <> i -> occ (<[i := None]> ss) j.
Proof. intros [s H] Hne. exists s. by rewrite list_lookup_insert_ne. Qed.

(** The end of the cluster is on no probe path. *)
Lemma end_off_path idx n t ss j s d :
  shifting idx n t ss -> ss !! j = Some (Some s) -> j = at_ ss (home ss (s_key s)) d ->
  (forall d', (d' < d)%nat -> occ ss (at_ ss (home ss (s_key s)) d') \/
     between ss idx 0 (S t) (at_ ss (home ss (s_key s)) d')) ->
  forall d', (d' <= d)%nat -> at_ ss (home ss (s_key s)) d' <> at_ ss idx n.
Proof.
  intros [H2 Hi Hn Ht Hu He _ _] Hj -> Hp d' Hd' E.
  destruct (decide (d' = d)) as [->|Hne]; [congruence|].
  destruct (Hp d') as [[u Hocc]|(t' & Ht' & E')]; [lia|congruence|].
  rewrite E in E'. apply at_inj in E'; lia.
Qed.

Lemma shift_step idx n t ss x :
  shifting idx n t ss -> (S t < n)%nat -> ss !! at_ ss idx (S t) = Some (Some x) ->
  let ss' := reinsert (<[at_ ss idx (S t) := None]> ss) x in
  shifting idx n (S t) ss' /\ full ss' ≡ₚ full ss.
Proof.
  intros Hsh HS Hx. pose proof Hsh as [H2 Hi Hn Ht Hu He Htodo Hprobe].
  set (i := at_ ss idx (S t)) in *. set (ss1 := <[i := None]> ss).
  assert (Hl : length ss1 = length ss) by apply length_insert.
  assert (Hil : (i < length ss)%nat) by by eapply lookup_lt_Some.
  assert (Hi1 : ss1 !! i = Some None) by by apply list_lookup_insert_eq.
  destruct (reinsert_at ss1 x) as (d & Hd & Hocc & Hq & ->); [by rewrite Hl|eauto|].
  rewrite (at_len ss ss1), (home_len ss ss1) in * by done. rewrite Hl in Hd.
  set (h := home ss (s_key x)) in *. set (q := at_ ss h d) in *.
  destruct (Hprobe i x Hx) as (d0 & Hd0 & Ei & Hpath). fold h in Ei, Hpath.
  assert (Hle : (d <= d0)%nat).
  { destruct (decide (d <= d0)%nat); [done|]. destruct (Hocc d0) as [u Hu0]; [lia|].
    rewrite (at_len ss ss1), <- Ei in Hu0 by done. congruence. }
  assert (Hqe : q <> at_ ss idx n).
  { apply (end_off_path idx n t ss i x d0); [done|done|done| |done].
    intros d' Hd'. destruct (Hpath d' Hd') as [?|[? _]]; [by left|by right]. }
  assert (Hie : i <> at_ ss idx n) by (intros E; apply at_inj in E; lia).
  assert (Hql : (q < length ss1)%nat) by by eapply lookup_lt_Some.
  set (ss' := <[q := Some x]> ss1).
  assert (Hl' : length ss' = length ss) by by (unfold ss'; rewrite length_insert).
  split; [|etrans; [apply (full_set _ _ _ Hq)|symmetry; apply (full_clear _ _ _ Hx)]].
  split; rewrite ?Hl'; try done; try lia.
  - intros a b u w Ha Hb E.
    apply lookup_insert_slot in Ha as [[-> [= <-]]|[Hna Ha]], Hb as [[-> [= <-]]|[Hnb Hb]]; [done|..];
      repeat match goal with H : ss1 !! _ = _ |- _ => apply clear_sub in H as [? H] end.
    + by destruct (Hu i b x w).
    + by destruct (Hu a i u x).
    + by apply (Hu a b u w).
  - rewrite (at_len ss ss') by done. unfold ss', ss1.
    by rewrite !list_lookup_insert_ne by congruence.
  - intros m Hm. rewrite (at_len ss ss') by done. apply occ_insert; [done|].
    apply occ_clear; [apply Htodo; lia|]. intros E. apply at_inj in E; lia.
  - intros j u Hj. apply lookup_insert_slot in Hj as [[-> [= <-]]|[Hnj Hj]].
    + exists d. rewrite Hl', (home_len ss ss'), (at_len ss ss') by done.
      split_and!; [done..|]. intros d' Hd'. left. rewrite (at_len ss ss') by done.
      apply occ_insert; [done|]. rewrite <- (at_len ss ss1) by done. by apply Hocc.
    + apply clear_sub in Hj as [Hji Hj]. destruct (Hprobe j u Hj) as (d1 & Hd1 & Ej & Hp1).
      exists d1. rewrite Hl', (home_len ss ss'), (at_len ss ss') by done.
      split_and!; [done..|]. intros d' Hd'. rewrite (at_len ss ss') by done.
      rewrite !(between_len ss ss') by done.
      destruct (decide (at_ ss (home ss (s_key u)) d' = i)) as [E|E].
      * right. rewrite E. split; [exists (S t); split; [lia|done]|].
        apply (cross ss idx (S t) n (home ss (s_key u)) j d' d1); try done.
        apply (end_off_path idx n t ss j u); [done..|].
        intros d'' Hd''. destruct (Hp1 d'' Hd'') as [?|[? _]]; [by left|by right].
      * destruct (Hp1 d' Hd') as [Ho|[(t1 & Ht1 & E1) (t2 & Ht2 & E2)]].
        { left. apply occ_insert; [done|]. by apply occ_clear. }
        right. split; [exists t1; split; [lia|done]|]. exists t2. split; [|done].
        destruct (decide (t2 = S t)) as [->|]; [done|lia].
Qed.

Lemma shift_cluster_spec idx n fuel : forall t ss,
  shifting idx n t ss -> (n - t <= fuel)%nat ->
  let ss' := shift_cluster fuel ss (at_ ss idx t) in
  slots_ok ss' /\ length ss' = length ss /\ full ss' ≡ₚ full ss.
Proof.
  induction fuel as [|fuel IH]; intros t ss Hsh Hf; pose proof Hsh as [H2 Hi Hn Ht Hu He Htodo Hprobe];
    [lia|].
  cbn. rewrite next_at, at_at, Nat.add_1_r by done.
  destruct (decide (S t = n)) as [E|E].
  - rewrite E, He. split_and!; [|done|done]. split; [done|done|]. intros j s Hj.
    destruct (Hprobe j s Hj) as (d & Hd & -> & Hp). exists d. split_and!; [done..|].
    intros d' Hd'. destruct (Hp d' Hd') as [?|[_ (t' & ? & _)]]; [by left|lia].
  - destruct (Htodo (S t)) as [x Hx]; [lia|]. rewrite Hx.
    destruct (shift_step idx n t ss x Hsh ltac:(lia) Hx) as [Hsh' Hfull].
    set (ss1 := reinsert _ x) in *.
    assert (Hl : length ss1 = length ss) by (unfold ss1; by rewrite length_reinsert, length_insert).
    specialize (IH (S t) ss1 Hsh' ltac:(lia)). rewrite (at_len ss ss1) in IH by done.
    destruct IH as (? & El & Ef). split_and!; [done|by rewrite El|by rewrite Ef].
Qed.

(** The first hole behind [idx] closes its cluster. *)
Lemma cluster_end ss idx :
  pow2 (length ss) -> (idx < length ss)%nat -> (exists e, e <> idx /\ ss !! e = Some None) ->
  exists n, (0 < n < length ss)%nat /\ ss !! at_ ss idx n = Some None /\
    forall t, (0 < t < n)%nat -> occ ss (at_ ss idx t).
Proof.
  intros H2 Hi (e & Hne & He). pose proof (pow2_pos _ H2).
  destruct (at_surj ss idx e) as (de & Hde & ->); [done|by eapply lookup_lt_Some|].
  assert (Hde0 : (de <> 0)%nat) by (intros ->; rewrite at_0 in Hne by done; done).
  destruct (probe_total (fun _ => false) ss (at_ ss idx 1)) as (d & Hd & _ & Hp & Hs); [done|by apply at_lt|eauto|].
  exists (S d). rewrite at_at in Hs. cbn [Nat.add] in Hs.
  destruct Hs as [Hs|(? & _ & ?)]; [|done].
  assert (Hocc : forall t, (0 < t < S d)%nat -> occ ss (at_ ss idx t)).
  { intros t Ht. destruct (Hp (t - 1)%nat) as (u & Hu & _); [lia|]. rewrite at_at in Hu.
    exists u. rewrite <- Hu. do 2 f_equal. lia. }
  split_and!; [lia| |done|done].
  destruct (decide (S d < length ss)%nat); [done|].
  destruct (Hocc de) as [u Hu]; [lia|congruence].
Qed.

Lemma di_delete_at_spec di idx key r :
  di_ok di -> di_slot di !! idx = Some (Some (mkSlot key r)) ->
  di_ok (di_delete_at di idx) /\ di_map (di_delete_at di idx) = delete key (di_map di).
Proof.
  intros Hok Hidx. pose proof Hok as [[H2 Hu Hp] E Hr Hc].
  unfold di_delete_at. rewrite Hidx. set (ss := di_slot di) in *. set (ss1 := <[idx := None]> ss).
  assert (Hl : length ss1 = length ss) by apply length_insert.
  assert (Hil : (idx < length ss)%nat) by by eapply lookup_lt_Some.
  destruct (di_empty di Hok) as [e He].
  assert (Hne : e <> idx) by (intros ->; fold ss in He; congruence).
  destruct (cluster_end ss idx) as (n & Hn & Hend & Hocc); [done|done|eauto|].
  assert (Hidx_n : forall t, (0 < t <= n)%nat -> at_ ss idx t <> idx).
  { intros t Ht Et. rewrite <- (at_0 ss idx) in Et at 2 by done. apply at_inj in Et; lia. }
  assert (Hsh : shifting idx n 0 ss1).
  { split; rewrite ?Hl; try done; try lia.
    - eapply uniq_sub; [|exact Hu]. intros i s Hi. by apply clear_sub in Hi as [_ ?].
    - rewrite (at_len ss ss1) by done. unfold ss1. rewrite list_lookup_insert_ne; [done|].
      intros Ex. by apply (Hidx_n n); [lia|].
    - intros t Ht. rewrite (at_len ss ss1) by done. apply occ_clear; [by apply Hocc|]. apply Hidx_n. lia.
    - intros j s Hj. apply clear_sub in Hj as [Hji Hj]. destruct (Hp j s Hj) as (d & Hd & Ej & Hpath).
      exists d. rewrite Hl, (home_len ss ss1), (at_len ss ss1) by done. split_and!; [done..|].
      intros d' Hd'. rewrite (at_len ss ss1), !(between_len ss ss1) by done.
      destruct (decide (at_ ss (home ss (s_key s)) d' = idx)) as [Ex|Ex].
      + right. rewrite Ex. split; [exists 0%nat; split; [lia|by rewrite at_0]|].
        apply (cross ss idx 0 n (home ss (s_key s)) j d' d); try done; [lia|by rewrite at_0|].
        intros d'' Hd'' Ee. destruct (decide (d'' = d)) as [->|]; [congruence|].
        destruct (Hpath d'') as [[u Hu']|[]]; [lia|congruence].
      + left. destruct (Hpath d' Hd') as [?|[]]. by apply occ_clear. }
  destruct (shift_cluster_spec idx n (di_cap di) 0 ss1 Hsh) as (Hs' & Hl' & Hf);
    [unfold di_cap; fold ss; lia|].
  rewrite (at_len ss ss1), at_0 in Hs', Hl', Hf by done.
  set (ss2 := shift_cluster _ _ _) in *.
  pose proof (full_clear _ _ _ Hidx) as Hfc. fold ss ss1 in Hfc.
  split.
  - split; unfold di_cap in *; cbn [di_slot di_used]; [done| |rewrite Hl', Hl; fold ss in Hr; lia
      |rewrite Hl', Hl; done].
    rewrite Hf. fold ss in E. rewrite E, Hfc. cbn. lia.
  - unfold di_map. cbn [di_slot]. fold ss.
    etrans; [apply (map_of_perm _ _ (so_uniq _ Hs') Hf)|].
    etrans; [|apply (f_equal (delete key) (eq_sym (map_of_perm _ _ Hu Hfc)))].
    rewrite map_of_cons. cbn. rewrite delete_insert_eq. symmetry. apply delete_id.
    assert (K : forall s, s ∈ full ss1 -> s_key s <> key).
    { intros s [j Hj]%elem_of_slots Ek. apply clear_sub in Hj as [Hji Hj]. apply Hji.
      apply (Hu j idx s (mkSlot key r)); done. }
    apply not_elem_of_list_to_map_1. intros Hin.
    apply list_elem_of_fmap in Hin as ([k r'] & -> & Hin). apply list_elem_of_fmap in Hin as (s & Es & Hin).
    injection Es as -> ->. by apply (K s).
Qed.

(** ** The sorted view *)

Lemma elem_of_skeys ss k : forall i,
  k ∈ skeys i ss <->
  exists j s, ss !! j = Some (Some s) /\ s_key s = sk_key k /\ sk_slot k = (i + j)%nat.
Proof.
  induction ss as [|o ss IH]; intros i; cbn [skeys].
  - split; [by intros ?%not_elem_of_nil|]. by intros (j & s & ? & _).
  - assert (T : (exists j s, ss !! j = Some (Some s) /\ s_key s = sk_key k /\ sk_slot k = (S i + j)%nat)
      <-> exists j s, (o :: ss) !! S j = Some (Some s) /\ s_key s = sk_key k /\ sk_slot k = (i + S j)%nat).
    { by setoid_rewrite <- plus_n_Sm. }
    destruct o as [t|].
    + rewrite elem_of_cons, IH, T. split.
      * intros [-> |(j & s & ?)]; [exists 0%nat, t; cbn; split_and!; done || lia|by exists (S j), s].
      * intros ([|j] & s & Hj & Hk & Hs); [|right; by exists j, s].
        left. injection Hj as ->. destruct k as [key slot]. cbn in *. subst. f_equal. lia.
    + rewrite IH, T. split.
      * intros (j & s & ?). by exists (S j), s.
      * intros ([|j] & s & Hj & Hr); [done|]. by exists j, s.
Qed.

Lemma skeys_keys ss : forall i, map sk_key (skeys i ss) = map s_key (full ss).
Proof.
  unfold full. induction ss as [|[s|] ss IH]; intros i; cbn; [done| |apply IH]. f_equal. apply IH.
Qed.

Lemma skeys_same ss ss' : map (option_map s_key) ss' = map (option_map s_key) ss ->
  forall i, skeys i ss' = skeys i ss.
Proof.
  revert ss. induction ss' as [|o' ss' IH]; intros [|o ss] E i; [done|done|done|].
  injection E as Eo E. specialize (IH ss E). destruct o', o; try discriminate Eo; cbn; rewrite IH;
    [injection Eo as ->|]; done.
Qed.

#[export] Instance skey_le_trans : Transitive skey_le.
Proof. intros a b c. unfold skey_le. rewrite !key_cmp_le. apply key_le_trans. Qed.
#[export] Instance skey_le_total : Total skey_le.
Proof.
  intros a b. unfold skey_le. rewrite !key_cmp_le. destruct (decide (key_le (sk_key a) (sk_key b))); [by left|].
  right. apply key_lt_le. by apply key_not_le.
Qed.

Definition sorted_view (di : delta_index) : list di_skey := merge_sort skey_le (skeys 0 (di_slot di)).

Lemma elem_of_view di k :
  k ∈ sorted_view di <-> exists s, di_slot di !! sk_slot k = Some (Some s) /\ s_key s = sk_key k.
Proof.
  unfold sorted_view. rewrite (merge_sort_Permutation skey_le). rewrite elem_of_skeys. split.
  - intros (j & s & ? & ? & ->). by exists s.
  - intros (s & ? & ?). by exists (sk_slot k), s.
Qed.

Lemma le_sorted_lt (l : list bytes) : NoDup l -> StronglySorted key_le l -> ksorted l.
Proof.
  induction 2 as [|k l _ IH Hk]; constructor.
  - apply IH. by apply list.NoDup_cons in H as [_ ?].
  - apply list.NoDup_cons in H as [Hn _]. rewrite Forall_forall in Hk |- *. intros k' Hk'.
    specialize (Hk k' Hk'). apply key_le_lt_eq in Hk as [?| ->]; [done|].
    by destruct Hn; apply list_elem_of_In.
Qed.

Lemma view_sorted di : di_ok di -> ksorted (map sk_key (sorted_view di)).
Proof.
  intros [[_ Hu _] _ _ _]. apply le_sorted_lt.
  - unfold sorted_view. change (map sk_key) with (fmap (M := list) sk_key).
    rewrite (merge_sort_Permutation skey_le). change (fmap (M := list) sk_key) with (map sk_key).
    rewrite skeys_keys. pose proof (uniq_NoDup _ Hu) as H. rewrite <- list_fmap_compose in H. exact H.
  - pose proof (StronglySorted_merge_sort skey_le (skeys 0 (di_slot di))) as H.
    fold (sorted_view di) in H. induction H as [|k l Hs IH Hk]; constructor; [done|].
    apply Forall_map. eapply Forall_impl; [|exact Hk]. intros k' Hle. by apply key_cmp_le.
Qed.

(** The view of a thread is current whenever its stamp says so. *)
Record view_ok (sv : di_sorted) (di : delta_index) : Prop := {
  vo_inst : sv_inst sv <= di_inst di;
  vo_epoch : sv_inst sv = di_inst di -> sv_epoch sv <= di_epoch di;
  vo_view : sv_inst sv = di_inst di -> sv_epoch sv = di_epoch di -> sv_v sv = sorted_view di
}.

Lemma view_put sv di key r di' ins :
  di_ok di -> view_ok sv di -> di_put di key r = (di', ins) -> view_ok sv di'.
Proof.
  intros Hok [Hi He Hv] H. apply di_put_spec in H as (_ & _ & _ & Hn & Hep); [|done].
  rewrite <- Hn in *. split; [done|..]; intros Es.
  - specialize (He Es). destruct Hep as [?|[? _]]; lia.
  - intros Ee. destruct Hep as [?|[Eq Hk]]; [specialize (He Es); lia|].
    rewrite Hv by congruence. unfold sorted_view. f_equal. symmetry. by apply skeys_same.
Qed.

Lemma view_delete sv di idx : view_ok sv di -> view_ok sv (di_delete_at di idx).
Proof.
  intros [Hi He Hv]. unfold di_delete_at. repeat case_match; [|by split..].
  split; cbn; [done|..]; intros Es; specialize (He Es); lia.
Qed.

Lemma view_new sv g : sv_inst sv <= g -> view_ok sv (di_new g).
Proof. intros. split; cbn; lia. Qed.

(** ** Range queries *)

Lemma ksorted_lookup (l : list bytes) i j a b :
  ksorted l -> (i < j)%nat -> l !! i = Some a -> l !! j = Some b -> key_lt a b.
Proof.
  intros Hs Hij Ha Hb. rewrite <- (take_drop_middle l i a Ha) in Hs.
  apply ksorted_app in Hs as (_ & Hs & _). apply ksorted_cons in Hs as [_ Hs].
  rewrite Forall_forall in Hs. apply Hs, list_elem_of_In, list_elem_of_lookup.
  exists (j - S i)%nat. rewrite lookup_drop. rewrite <- Hb. f_equal. lia.
Qed.

Lemma first_loop_spec v lo : ksorted (map sk_key v) -> forall fuel a b,
  (a <= b <= length v)%nat -> (b - a <= fuel)%nat ->
  (forall j k, v !! j = Some k -> (j < a)%nat -> key_lt (sk_key k) lo) ->
  (forall j k, v !! j = Some k -> (b <= j)%nat -> key_le lo (sk_key k)) ->
  let i := first_loop fuel v lo a b in
  (forall j k, v !! j = Some k -> (j < i)%nat -> key_lt (sk_key k) lo) /\
  (forall j k, v !! j = Some k -> (i <= j)%nat -> key_le lo (sk_key k)).
Proof.
  intros Hs. induction fuel as [|fuel IH]; intros a b Hab Hf Ha Hb; cbn [first_loop].
  { by replace b with a in Hb by lia. }
  destruct (Nat.ltb_spec a b); [|by replace b with a in Hb by lia].
  set (mid := (a + (b - a) / 2)%nat).
  assert (Hm : (a <= mid < b)%nat).
  { unfold mid. pose proof (Nat.div_lt (b - a) 2). lia. }
  destruct (lookup_lt_is_Some_2 v mid) as [k Hk]; [lia|]. rewrite Hk.
  assert (Hlt : forall i j x y, v !! i = Some x -> v !! j = Some y -> (i < j)%nat ->
    key_lt (sk_key x) (sk_key y)).
  { intros i j x y Hx Hy Hij. apply (ksorted_lookup (map sk_key v) i j); [done|done|..];
      by rewrite list_lookup_fmap, ?Hx, ?Hy. }
  destruct (Z.ltb_spec (vol_key_cmp (sk_key k) lo) 0) as [Hc|Hc].
  - apply key_cmp_lt in Hc. apply IH; [lia|lia| |done]. intros j x Hx Hj.
    destruct (decide (j = mid)) as [->|]; [congruence|].
    eapply key_lt_trans; [|exact Hc]. apply (Hlt j mid); [done|done|lia].
  - assert (Hle : key_le lo (sk_key k)) by (apply key_le_not_lt; rewrite <- key_cmp_lt; lia).
    apply IH; [lia|lia|done|]. intros j x Hx Hj.
    destruct (decide (j = mid)) as [->|]; [congruence|].
    eapply key_le_trans; [exact Hle|]. apply key_lt_le, (Hlt mid j); [done|done|lia].
Qed.

(** What the walk emits from a view whose entries name their slots. *)
Lemma emit_loop_spec di v hi :
  (forall k, k ∈ v -> exists s, di_slot di !! sk_slot k = Some (Some s) /\ s_key s = sk_key k) ->
  ksorted (map sk_key v) ->
  ksorted (map fst (emit_loop di v hi)) /\
  forall k r, (k, r) ∈ emit_loop di v hi <->
    (hi = [] \/ key_lt k hi) /\ exists x s, x ∈ v /\ sk_key x = k /\
      di_slot di !! sk_slot x = Some (Some s) /\ s_ref s = r.
Proof.
  induction v as [|x v IH]; intros Hslot Hs; cbn [emit_loop].
  { split; [constructor|]. intros k r. split; [by intros ?%not_elem_of_nil|].
    by intros [_ (x & s & ?%not_elem_of_nil & _)]. }
  cbn in Hs. apply ksorted_cons in Hs as [Hs Hx].
  destruct IH as [IHs IHm]; [intros k Hk; apply Hslot; by right|done|].
  destruct (Hslot x) as (s & Hsl & Hk); [left|].
  assert (Hlt : forall y, y ∈ v -> key_lt (sk_key x) (sk_key y)).
  { intros y Hy. rewrite Forall_forall in Hx. by apply Hx, in_map, list_elem_of_In. }
  destruct (negb _ && _) eqn:E.
  - zbool. split; [constructor|]. intros k r.
    split; [by intros ?%not_elem_of_nil|]. intros [Hh (y & t & Hy & <- & _)]. exfalso.
    destruct Hh as [-> |Hh]; [by cbn in *|].
    assert (Hxh : ~ key_lt (sk_key x) hi) by (rewrite <- key_cmp_lt; lia).
    apply elem_of_cons in Hy as [->|Hy]; [done|]. apply Hxh. eapply key_lt_trans; [by apply Hlt|done].
  - assert (Hxh : hi = [] \/ key_lt (sk_key x) hi).
    { apply andb_false_iff in E as [E|E]; zbool; [left|right; apply key_cmp_lt; lia].
      destruct hi; [done|cbn in *; lia]. }
    rewrite Hsl. cbn [map fst]. split.
    + apply ksorted_cons. split; [done|]. rewrite Forall_forall. intros k Hin.
      apply list_elem_of_In, list_elem_of_fmap in Hin as ([k' r] & -> & Hin).
      apply IHm in Hin as [_ (y & t & Hy & <- & _)]. by apply Hlt.
    + intros k r. rewrite elem_of_cons, IHm. split.
      * intros [[= -> ->]|[Hh (y & t & Hy & ?)]]; [split; [done|]; exists x, s; split; [left|done]|].
        split; [done|]. exists y, t. split; [by right|done].
      * intros [Hh (y & t & Hy & <- & Ht & <-)]. apply elem_of_cons in Hy as [->|Hy].
        -- left. congruence.
        -- right. split; [done|]. by exists y, t.
Qed.

(** A current view answers the range query of the map, in key order. *)
Lemma range_entries_spec di lo hi sv :
  di_ok di -> sv_v sv = sorted_view di ->
  ksorted (map fst (range_entries di sv lo hi)) /\
  forall k r, (k, r) ∈ range_entries di sv lo hi <-> di_map di !! k = Some r /\ in_range lo hi k.
Proof.
  intros Hok Hv. unfold range_entries. rewrite Hv. pose proof (view_sorted di Hok) as Hs.
  set (v := sorted_view di) in *. set (i := if zlen lo =? 0 then 0%nat else _).
  assert (Hi : (forall j k, v !! j = Some k -> (j < i)%nat -> key_lt (sk_key k) lo) /\
    (forall j k, v !! j = Some k -> (i <= j)%nat -> key_le lo (sk_key k))).
  { unfold i. destruct (Z.eqb_spec (zlen lo) 0).
    - destruct lo; [|cbn in *; lia]. split; [lia|]. intros. apply key_nil_le.
    - apply first_loop_spec; [done|lia|lia|lia|]. intros j k Hj%lookup_lt_Some. lia. }
  destruct Hi as [Hbelow Habove].
  destruct (emit_loop_spec di (drop i v) hi) as [H1 H2].
  - intros k Hk. apply elem_of_view. fold v. rewrite <- (take_drop i v). apply elem_of_app. by right.
  - rewrite <- (take_drop i v), map_app in Hs. by apply ksorted_app in Hs as (_ & ? & _).
  - split; [done|]. intros k r. rewrite H2, (di_map_lookup di k r) by apply Hok. unfold in_range. split.
    + intros [Hh (x & s & Hx & <- & Hsl & <-)].
      apply list_elem_of_lookup in Hx as [j Hj]. rewrite lookup_drop in Hj.
      assert (Hxv : x ∈ v) by (apply list_elem_of_lookup; eauto).
      apply elem_of_view in Hxv as (s' & Hs' & Hk). rewrite Hsl in Hs'. injection Hs' as <-.
      split; [|split; [apply (Habove _ _ Hj); lia|done]].
      exists (sk_slot x). rewrite Hsl, <- Hk. by destruct s.
    + intros [[j Hj] [Hlo Hhi]]. split; [done|]. exists (mkSkey k j), (mkSlot k r).
      split_and!; [|done..]. assert (Hx : mkSkey k j ∈ v) by (apply elem_of_view; eauto).
      rewrite <- (take_drop i v) in Hx. apply elem_of_app in Hx as [Hx|Hx]; [|done].
      apply list_elem_of_lookup in Hx as [m Hm]. apply lookup_take_Some in Hm as [Hm Hlt].
      specialize (Hbelow _ _ Hm Hlt). cbn in Hbelow. by apply key_le_not_lt in Hlo.
Qed.

(** ** Histories of the table *)

(** What happens to a table and to the view of one reader. *)
Inductive iop := IPut (key : bytes) (r : delta_ref) | IDel (key : bytes) | IRange (lo hi : bytes).

Definition run_iop (st : delta_index * di_sorted) (op : iop) : delta_index * di_sorted :=
  let '(di, sv) := st in
  match op with
  | IPut key r => (fst (di_put di key r), sv)
  | IDel key => (match di_find di key with Some j => di_delete_at di j | None => di end, sv)
  | IRange lo hi => (di, snd (vol_delta_range (fun c _ _ => (0, c)) (Some di) sv lo hi tt))
  end.

Definition map_iop (m : gmap bytes delta_ref) (op : iop) : gmap bytes delta_ref :=
  match op with
  | IPut key r => <[key := r]> m
  | IDel key => delete key m
  | IRange _ _ => m
  end.

Lemma view_build di : view_ok (di_sorted_build di) di.
Proof. by split. Qed.

Lemma view_refresh sv di :
  view_ok sv di ->
  let sv' := if negb (sv_inst sv =? di_inst di) || negb (sv_epoch sv =? di_epoch di)
             then di_sorted_build di else sv in
  view_ok sv' di /\ sv_v sv' = sorted_view di.
Proof.
  intros Hv. cbn zeta. case_match eqn:E; [split; [apply view_build|done]|]. zbool.
  split; [done|]. by apply Hv.
Qed.

Lemma run_iop_ok di sv op :
  di_ok di -> view_ok sv di ->
  let '(di', sv') := run_iop (di, sv) op in
  di_ok di' /\ view_ok sv' di' /\ di_map di' = map_iop (di_map di) op.
Proof.
  intros Hok Hv. destruct op as [key r|key|lo hi]; cbn [run_iop map_iop].
  - destruct (di_put di key r) as [di' ins] eqn:E. cbn [fst].
    pose proof (di_put_spec _ _ _ _ _ Hok E) as (? & ? & _). split_and!; [done| |done].
    exact (view_put _ _ _ _ _ _ Hok Hv E).
  - pose proof (di_find_spec di key Hok) as Hf. destruct (di_find di key) as [j|].
    + destruct Hf as (r & Hj & _). destruct (di_delete_at_spec di j key r Hok Hj).
      split_and!; [done|by apply view_delete|done].
    + split_and!; [done..|]. by rewrite delete_id.
  - split_and!; [done| |done]. by apply view_refresh.
Qed.

Lemma run_iops_ok ops : forall di sv,
  di_ok di -> view_ok sv di ->
  let '(di', sv') := foldl run_iop (di, sv) ops in
  di_ok di' /\ view_ok sv' di' /\ di_map di' = foldl map_iop (di_map di) ops.
Proof.
  induction ops as [|op ops IH]; intros di sv Hok Hv; [done|]. cbn [foldl].
  pose proof (run_iop_ok di sv op Hok Hv) as H. destruct (run_iop (di, sv) op) as [di1 sv1].
  destruct H as (Hok1 & Hv1 & <-). by apply IH.
Qed.

(** The table and view a process arrives at from a new table, [sv] being a
    reader's view of earlier tables. *)
Definition history (g : Z) (sv : di_sorted) (ops : list iop) : delta_index * di_sorted :=
  foldl run_iop (di_new g, sv) ops.

Lemma history_ok g sv ops :
  sv_inst sv <= g ->
  let '(di, sv') := history g sv ops in
  di_ok di /\ view_ok sv' di /\ di_map di = foldl map_iop ∅ ops.
Proof.
  intros Hg. destruct (di_new_ok g) as [Hok Em]. unfold history.
  pose proof (run_iops_ok ops (di_new g) sv Hok (view_new _ _ Hg)) as H. by rewrite Em in H.
Qed.

(** The reference [di_find]'s slot carries. *)
Definition find_ref (di : delta_index) (key : bytes) : option delta_ref :=
  match di_find di key with
  | Some j => match di_slot di !! j with Some (Some s) => Some (s_ref s) | _ => None end
  | None => None
  end.

(** C21: the index implements a finite map.  After any history of insertions
    and deletions from a new table, growth and cluster shifts included, a
    lookup answers what the map built by the same history answers,
    [di->used] is its size, and every probe from a key's home ends, whatever
    it looks for. *)
Theorem delta_index_refines g ops key stop :
  let di := fst (history g sorted_zero ops) in
  let m := foldl map_iop ∅ ops in
  0 <= g ->
  find_ref di key = m !! key /\ di_used di = Z.of_nat (size m) /\
  is_Some (probe stop (di_slot di) (di_cap di) (home (di_slot di) key)).
Proof.
  intros di m Hg. pose proof (history_ok g sorted_zero ops) as H. cbn in H. specialize (H ltac:(lia)).
  unfold di. destruct (history g sorted_zero ops) as [di' sv']. cbn [fst].
  destruct H as (Hok & _ & Em). fold m in Em. rewrite <- Em. split_and!.
  - unfold find_ref. pose proof (di_find_spec di' key Hok) as Hf. destruct (di_find di' key) as [j|]; [|done].
    destruct Hf as (r & -> & ->). done.
  - symmetry. by apply di_size.
  - destruct (probe_total stop (di_slot di') (home (di_slot di') key)) as (d & _ & E & _);
      [apply Hok|apply home_lt, Hok|by apply di_empty|]. unfold di_cap. by rewrite E.
Qed.

Definition demo_ref (n : Z) : delta_ref := mkRef 8 (44 + n) n 0 3.
Definition demo_ops : list iop :=
  [IPut [1] (demo_ref 1); IPut [2] (demo_ref 2); IPut [1] (demo_ref 3); IDel [2]; IPut [3] (demo_ref 4)].

Lemma delta_index_refines_witness :
  find_ref (fst (history 0 sorted_zero demo_ops)) [1] = Some (demo_ref 3).
Proof. apply (delta_index_refines 0 demo_ops [1] (fun _ => false)). lia. Defined.

(** C22: a range query over the recent tier is exact.  However insertions,
    deletions and earlier queries of the same thread interleaved, its cached
    sorted view is either current or rebuilt: the callback is run over the
    keys of the map within [[lo, hi)], each with its present reference, in
    ascending key order. *)
Theorem delta_range_exact {C} (cb : C -> bytes -> delta_ref -> Z * C) g sv ops lo hi c :
  sv_inst sv <= g ->
  let '(di, sv') := history g sv ops in
  exists l, fst (vol_delta_range cb (Some di) sv' lo hi c) = run_range cb l c /\
    ksorted (map fst l) /\
    forall k r, (k, r) ∈ l <-> foldl map_iop ∅ ops !! k = Some r /\ in_range lo hi k.
Proof.
  intros Hg. pose proof (history_ok g sv ops Hg) as H. destruct (history g sv ops) as [di sv'].
  destruct H as (Hok & Hv & <-). cbn [vol_delta_range fst].
  destruct (view_refresh sv' di Hv) as [_ Ev].
  destruct (range_entries_spec di lo hi _ Hok Ev) as [Hs Hm]. eexists. by split_and!.
Qed.

Lemma delta_range_exact_witness :
  let '(di, sv) := history 0 sorted_zero demo_ops in
  exists l, fst (vol_delta_range (fun n _ _ => (0, n + 1)) (Some di) sv [2] [] 0)
            = run_range (fun n _ _ => (0, n + 1)) l 0 /\
    ksorted (map fst l) /\
    forall k r, (k, r) ∈ l <-> foldl map_iop ∅ demo_ops !! k = Some r /\ in_range [2] [] k.
Proof. apply (delta_range_exact (fun n _ _ => (0, n + 1)) 0 sorted_zero demo_ops [2] [] 0). cbn. lia. Defined.

End DeltaIndex.
