(* ===== verification/DeltaRec.v ===== *)
(** * Wire format of the delta log (vol_delta.c, part 1)

    Records (a 10-byte big-endian header with a checksum over key and value),
    the tombstone pads that heal a failed span, and the 44-byte segment
    header.  Parsing a run of records that encoding produced gives them back
    and stops at the first byte string that is no record, which is what replay
    relies on after a torn write. *)

From S2P Require Import Prelude Crc32c Volume Keys.

Module DeltaRec.
Import Crc32c Volume Keys.

Definition INVFS_DELTA_SEG_MAGIC : bytes := [68; 83; 71; 51].     (* "DSG3" *)
Definition INVFS_DELTA_SEG_VERSION : Z := 1.
Definition INVFS_DELTA_FLAG_DELETE : Z := 1.
Definition INVFS_DELTA_FLAG_PAD : Z := 2.
Definition INVFS_DELTA_REC_HDR_LEN : Z := 10.
Definition INVFS_DELTA_SEG_BLOCKS : Z := 32.
Definition INVFS_DELTA_SEG_BYTES : Z := 131072.
Definition INVFS_DELTA_SEG_HDR_LEN : Z := 44.

(** ** Definitions *)

(** Source: core/vol_delta.c [dl_rd16be] *)
Definition dl_rd16be (buf : bytes) (off : Z) : Z :=
  Z.lor (Z.shiftl (nthZ buf off) 8) (nthZ buf (off + 1)).
(** Source: core/vol_delta.c [dl_wr16be] *)
Definition dl_wr16be (x : Z) : bytes := [u8 (Z.shiftr x 8); Z.land x 255].
(** Source: core/vol_delta.c [dl_rd32be] *)
Definition dl_rd32be (buf : bytes) (off : Z) : Z :=
  Z.lor (Z.lor (Z.lor (Z.shiftl (nthZ buf off) 24) (Z.shiftl (nthZ buf (off + 1)) 16))
           (Z.shiftl (nthZ buf (off + 2)) 8)) (nthZ buf (off + 3)).
(** Source: core/vol_delta.c [dl_wr32be] *)
Definition dl_wr32be (x : Z) : bytes :=
  [u8 (Z.shiftr x 24); u8 (Z.shiftr x 16); u8 (Z.shiftr x 8); u8 x].
(** Source: core/vol_delta.c [dl_rd64be] *)
Definition dl_rd64be (buf : bytes) (off : Z) : Z :=
  Z.lor (Z.shiftl (dl_rd32be buf off) 32) (dl_rd32be buf (off + 4)).
(** Source: core/vol_delta.c [dl_wr64be] *)
Definition dl_wr64be (x : Z) : bytes := dl_wr32be (u32 (Z.shiftr x 32)) ++ dl_wr32be (u32 x).
(** A native (little-endian) u32.
    Source: core/vol_delta.c [dl_rd32] *)
Definition dl_rd32 (buf : bytes) (off : Z) : Z := le_val (slice buf off 4).

(** A log record.
    Source: core/invarifs.h:885-890 [invfs_delta_rec_hdr] *)
Record lrec := mkLrec { lr_flags : Z; lr_key : bytes; lr_val : bytes }.

Definition rec_len (r : lrec) : Z := INVFS_DELTA_REC_HDR_LEN + zlen (lr_key r) + zlen (lr_val r).

(** The record image [vol_delta_append] builds.
    Source: core/vol_delta.c:1263-1272 [vol_delta_append] *)
Definition rec_bytes (r : lrec) : bytes :=
  let klen := zlen (lr_key r) in
  let vlen := zlen (lr_val r) in
  let crc := invfs_crc32c (lr_key r) in
  let crc := if vlen =? 0 then crc else invfs_crc32c_update crc (lr_val r) in
  dl_wr16be klen ++ dl_wr16be vlen ++ dl_wr16be (lr_flags r) ++ le_bytes 4 crc ++
  lr_key r ++ lr_val r.

(** The three answers of the parser: clean end (0), torn or corrupt (-1), a
    record with its lengths and flags (1). *)
Inductive parse_res := PEnd | PBad | POk (klen vlen flags rl : Z).

(** Source: core/vol_delta.c [vol_delta_rec_parse] *)
Definition vol_delta_rec_parse (buf : bytes) (off : Z) : parse_res :=
  let len := zlen buf in
  if (len <? off) || (len <? off + INVFS_DELTA_REC_HDR_LEN) then PEnd
  else if bool_decide (slice buf off INVFS_DELTA_REC_HDR_LEN = zeros INVFS_DELTA_REC_HDR_LEN)
  then PEnd
  else
    let kl := dl_rd16be buf off in
    let vl := dl_rd16be buf (off + 2) in
    let fl := dl_rd16be buf (off + 4) in
    let crc := dl_rd32 buf (off + 6) in
    let deleted := negb (Z.land fl INVFS_DELTA_FLAG_DELETE =? 0) in
    if kl =? 0 then PBad
    else if negb (Z.land fl (u16 (Z.lnot (Z.lor INVFS_DELTA_FLAG_DELETE INVFS_DELTA_FLAG_PAD))) =? 0)
    then PBad
    else if deleted && negb (vl =? 0) then PBad
    else if negb (Z.land fl INVFS_DELTA_FLAG_PAD =? 0) && (negb (vl =? 0) || deleted) then PBad
    else
      let total := INVFS_DELTA_REC_HDR_LEN + kl + vl in
      if len - off <? total then PBad
      else if negb (invfs_crc32c (slice buf (off + INVFS_DELTA_REC_HDR_LEN) (kl + vl)) =? crc)
      then PBad
      else POk kl vl fl total.

(** Records are at least 11 bytes long, so [length buf] turns are enough.
    Source: core/vol_delta.c:275-288 [vol_delta_scan_valid] *)
Fixpoint scan_loop (buf : bytes) (fuel : nat) (off last n : Z) : Z * Z * bool :=
  match fuel with
  | O => (last, n, false)
  | S fuel =>
      if negb (off <? zlen buf) then (last, n, false)
      else
        match vol_delta_rec_parse buf off with
        | PEnd => (last, n, false)
        | PBad => (last, n, true)
        | POk _ _ _ rl => scan_loop buf fuel (off + rl) (off + rl) (n + 1)
        end
  end.

(** The answer: end of the last record, their number, [*saw_bad].
    Source: core/vol_delta.c [vol_delta_scan_valid] *)
Definition vol_delta_scan_valid (buf : bytes) : Z * Z * bool := scan_loop buf (length buf) 0 0 0.

(** One pad: a record with the PAD flag and a filler of zeros as its key.
    Source: core/vol_delta.c:999-1004 [vol_delta_pad_build] *)
Definition pad_rec (kl : Z) : lrec := mkLrec INVFS_DELTA_FLAG_PAD (zeros kl) [].

(** Source: core/vol_delta.c:986-1006 [vol_delta_pad_build] *)
Fixpoint pad_loop (fuel : nat) (rem : Z) : bytes :=
  match fuel with
  | O => []
  | S fuel =>
      if rem <=? 0 then []
      else
        let d := u64 (rem - INVFS_DELTA_REC_HDR_LEN) in
        let kl := if d <=? 65535 then u16 d else 65535 - INVFS_DELTA_REC_HDR_LEN in
        dl_wr16be kl ++ dl_wr16be 0 ++ dl_wr16be INVFS_DELTA_FLAG_PAD ++
        le_bytes 4 (invfs_crc32c (zeros kl)) ++ zeros kl ++
        pad_loop fuel (rem - (INVFS_DELTA_REC_HDR_LEN + kl))
  end.

(** The bytes written; none when the span is too short for a record.
    Source: core/vol_delta.c [vol_delta_pad_build] *)
Definition vol_delta_pad_build (len : Z) : bytes :=
  if len <? INVFS_DELTA_REC_HDR_LEN + 1 then [] else pad_loop (Z.to_nat len) len.

(** Source: core/invarifs.h:892-901 [invfs_delta_seg_hdr] *)
Record invfs_delta_seg_hdr := mkSegHdr { seg_seq : Z; prev_pba : Z; next_pba : Z }.

(** The header's bytes before its checksum field.
    Source: core/vol_delta.c:329-349 [delta_hdr_encode] *)
Definition hdr_body (seq prev : Z) : bytes :=
  INVFS_DELTA_SEG_MAGIC ++ dl_wr32be INVFS_DELTA_SEG_VERSION ++
  dl_wr32be INVFS_DELTA_SEG_HDR_LEN ++ dl_wr32be INVFS_DELTA_SEG_BLOCKS ++
  dl_wr64be seq ++ dl_wr64be prev ++ dl_wr64be 0.

(** Source: core/vol_delta.c [delta_hdr_encode] *)
Definition delta_hdr_encode (seq prev : Z) : bytes :=
  let raw := hdr_body seq prev in
  raw ++ le_bytes 4 (invfs_crc32c (raw ++ zeros 4)).

(** The constant fields are checked and not kept.
    Source: core/vol_delta.c [delta_hdr_decode] *)
Definition delta_hdr_decode (raw : bytes) : option invfs_delta_seg_hdr :=
  if (zlen raw <? INVFS_DELTA_SEG_HDR_LEN) || negb (bool_decide (slice raw 0 4 = INVFS_DELTA_SEG_MAGIC))
  then None
  else if negb (dl_rd32be raw 4 =? INVFS_DELTA_SEG_VERSION) then None
  else if negb (dl_rd32be raw 8 =? INVFS_DELTA_SEG_HDR_LEN) then None
  else if negb (dl_rd32be raw 12 =? INVFS_DELTA_SEG_BLOCKS) then None
  else if negb (invfs_crc32c (slice raw 0 40 ++ zeros 4) =? dl_rd32 raw 40) then None
  else Some (mkSegHdr (dl_rd64be raw 16) (dl_rd64be raw 24) (dl_rd64be raw 32)).

(** ** Numbers *)

Lemma land255 x : Z.land x 255 = x mod 256.
Proof. change 255 with (Z.ones 8). by rewrite Z.land_ones by lia. Qed.

Lemma byte_at x n : 0 <= n -> u8 (Z.shiftr x n) = (x / 2 ^ n) mod 256.
Proof. intros. unfold u8. by rewrite Z.shiftr_div_pow2. Qed.

(** Read the bytes of an explicit list at constant offsets. *)
Ltac nth_at :=
  unfold nthZ;
  repeat match goal with
  | |- context [Z.to_nat ?z] => let n := eval vm_compute in (Z.to_nat z) in change (Z.to_nat z) with n
  end;
  cbn [nth app].

Lemma rd16_wr16 x rest : 0 <= x < 65536 -> dl_rd16be (dl_wr16be x ++ rest) 0 = x.
Proof.
  intros Hx. unfold dl_rd16be, dl_wr16be. nth_at. rewrite land255, byte_at by lia.
  rewrite shift_or by (unfold is_byte; apply Z.mod_pos_bound; lia).
  change (2 ^ 8) with 256.
  rewrite (Z.mod_small (x / 256)) by (split; [apply Z.div_pos|apply Z.div_lt_upper_bound]; lia).
  pose proof (Z.div_mod x 256 ltac:(lia)). lia.
Qed.

Lemma rd32be_wr32be x rest : 0 <= x < 2 ^ 32 -> dl_rd32be (dl_wr32be x ++ rest) 0 = x.
Proof.
  intros Hx. unfold dl_rd32be, dl_wr32be. nth_at. rewrite !byte_at by lia. unfold u8.
  rewrite <- !Z.lor_assoc. change (2 ^ 8) with 256.
  pose proof (Z.mod_pos_bound x 256 ltac:(lia)).
  pose proof (Z.mod_pos_bound (x / 256) 256 ltac:(lia)).
  pose proof (Z.mod_pos_bound (x / 2 ^ 16) 256 ltac:(lia)).
  pose proof (Z.mod_pos_bound (x / 2 ^ 24) 256 ltac:(lia)).
  rewrite (lor_shiftl _ 8) by lia. rewrite (lor_shiftl _ 16) by lia. rewrite (lor_shiftl _ 24) by lia.
  assert (E2 : x / 2 ^ 16 = x / 256 / 256) by by rewrite Z.div_div.
  assert (E3 : x / 2 ^ 24 = x / 256 / 256 / 256) by by rewrite !Z.div_div.
  rewrite E2, E3 in *.
  rewrite (Z.mod_small (x / 256 / 256 / 256)).
  - pose proof (Z.div_mod x 256 ltac:(lia)). pose proof (Z.div_mod (x / 256) 256 ltac:(lia)).
    pose proof (Z.div_mod (x / 256 / 256) 256 ltac:(lia)). lia.
  - rewrite <- E3. split; [apply Z.div_pos|apply Z.div_lt_upper_bound]; lia.
Qed.

Lemma rd16_skip pre s off : zlen pre <= off -> dl_rd16be (pre ++ s) off = dl_rd16be s (off - zlen pre).
Proof. intros. unfold dl_rd16be. rewrite !nthZ_app_r by lia. do 2 f_equal. lia. Qed.

Lemma rd32be_skip pre s off : zlen pre <= off -> dl_rd32be (pre ++ s) off = dl_rd32be s (off - zlen pre).
Proof.
  intros. unfold dl_rd32be. rewrite !nthZ_app_r by lia. by rewrite !(Z.add_sub_swap off).
Qed.

Lemma rd64be_skip pre s off : zlen pre <= off -> dl_rd64be (pre ++ s) off = dl_rd64be s (off - zlen pre).
Proof.
  intros. unfold dl_rd64be. rewrite !rd32be_skip by lia. by rewrite !(Z.add_sub_swap off).
Qed.

Lemma rd64be_wr64be x rest : 0 <= x < 2 ^ 64 -> dl_rd64be (dl_wr64be x ++ rest) 0 = x.
Proof.
  intros Hx. unfold dl_rd64be, dl_wr64be. rewrite <- app_assoc. rewrite (rd32be_skip _ _ (0 + 4)) by (cbn; lia).
  assert (Hh : 0 <= x / 2 ^ 32 < 2 ^ 32) by (split; [apply Z.div_pos|apply Z.div_lt_upper_bound]; lia).
  rewrite Z.shiftr_div_pow2, (u32_small (x / _)) by lia.
  rewrite rd32be_wr32be by done. change (0 + 4 - _) with 0. rewrite rd32be_wr32be by apply u32_range.
  rewrite lor_shiftl by (try lia; apply u32_range). unfold u32. pose proof (Z.div_mod x (2 ^ 32) ltac:(lia)). lia.
Qed.

Lemma rd32_skip pre s off : zlen pre <= off -> dl_rd32 (pre ++ s) off = dl_rd32 s (off - zlen pre).
Proof. intros. unfold dl_rd32. by rewrite slice_app_r. Qed.

Lemma rd32_here x rest : 0 <= x < 2 ^ 32 -> dl_rd32 (le_bytes 4 x ++ rest) 0 = x.
Proof. intros. by apply (field_here 4). Qed.

Lemma wr16_ok x : bytes_ok (dl_wr16be x).
Proof.
  unfold dl_wr16be. rewrite land255. repeat constructor; unfold u8; by apply Z.mod_pos_bound.
Qed.
Lemma wr32_ok x : bytes_ok (dl_wr32be x).
Proof. repeat constructor; unfold u8; by apply Z.mod_pos_bound. Qed.
Lemma wr64_ok x : bytes_ok (dl_wr64be x).
Proof. apply Forall_app. split; apply wr32_ok. Qed.
#[export] Hint Resolve wr16_ok wr32_ok wr64_ok : invfs.

(** ** Records *)

(** What an append accepts: a non-empty key, lengths of 16 bits, no value on
    a delete record or a pad. *)
Record rec_ok (r : lrec) : Prop := {
  ro_key : 1 <= zlen (lr_key r) < 65536;
  ro_val : zlen (lr_val r) < 65536;
  ro_flags : lr_flags r = 0 \/
    ((lr_flags r = INVFS_DELTA_FLAG_DELETE \/ lr_flags r = INVFS_DELTA_FLAG_PAD) /\ lr_val r = []);
  ro_kbytes : bytes_ok (lr_key r);
  ro_vbytes : bytes_ok (lr_val r)
}.

Lemma rec_crc r : rec_ok r ->
  (if zlen (lr_val r) =? 0 then invfs_crc32c (lr_key r)
   else invfs_crc32c_update (invfs_crc32c (lr_key r)) (lr_val r)) =
  invfs_crc32c (lr_key r ++ lr_val r).
Proof.
  intros []. destruct (Z.eqb_spec (zlen (lr_val r)) 0) as [E|E].
  - destruct (lr_val r); [by rewrite app_nil_r|done].
  - by apply update_app.
Qed.

Lemma length_drec_bytes r : zlen (rec_bytes r) = rec_len r.
Proof.
  unfold rec_bytes, rec_len, INVFS_DELTA_REC_HDR_LEN. rewrite !length_app, length_le_bytes. cbn. lia.
Qed.

Lemma drec_bytes_ok r : rec_ok r -> bytes_ok (rec_bytes r).
Proof. intros []. unfold rec_bytes. rewrite !Forall_app. auto 10 with invfs. Qed.

(** Parsing looks at the bytes from the offset on only. *)
Lemma parse_skip pre s : vol_delta_rec_parse (pre ++ s) (zlen pre) = vol_delta_rec_parse s 0.
Proof.
  assert (INVFS_DELTA_REC_HDR_LEN = 10) by done. unfold vol_delta_rec_parse. rewrite length_app.
  rewrite !(rd16_skip pre) by lia. rewrite (rd32_skip pre) by lia.
  rewrite !(slice_app_r pre) by lia.
  replace (Z.of_nat (length pre + length s) <? zlen pre) with (zlen s <? 0) by lia.
  replace (Z.of_nat (length pre + length s) <? zlen pre + INVFS_DELTA_REC_HDR_LEN)
    with (zlen s <? 0 + INVFS_DELTA_REC_HDR_LEN) by lia.
  rewrite !(Z.add_simpl_l (zlen pre)), Z.sub_diag.
  replace (Z.of_nat (length pre + length s) - zlen pre) with (zlen s - 0) by lia. done.
Qed.

Lemma flags_land fl v :
  fl = 0 \/ ((fl = INVFS_DELTA_FLAG_DELETE \/ fl = INVFS_DELTA_FLAG_PAD) /\ v = 0) ->
  Z.land fl (u16 (Z.lnot (Z.lor INVFS_DELTA_FLAG_DELETE INVFS_DELTA_FLAG_PAD))) = 0 /\
  negb (Z.land fl INVFS_DELTA_FLAG_DELETE =? 0) && negb (v =? 0) = false /\
  negb (Z.land fl INVFS_DELTA_FLAG_PAD =? 0) &&
    (negb (v =? 0) || negb (Z.land fl INVFS_DELTA_FLAG_DELETE =? 0)) = false.
Proof. intros [->|[[-> | ->] ->]]; done. Qed.

Lemma zero_head a b l :
  slice (a :: b :: l) 0 INVFS_DELTA_REC_HDR_LEN = zeros INVFS_DELTA_REC_HDR_LEN -> a = 0 /\ b = 0.
Proof. unfold slice. cbn. by intros [= -> -> _]. Qed.

Lemma parse_rec r rest :
  rec_ok r ->
  vol_delta_rec_parse (rec_bytes r ++ rest) 0
  = POk (zlen (lr_key r)) (zlen (lr_val r)) (lr_flags r) (rec_len r).
Proof.
  intros Hr. pose proof (length_drec_bytes r) as Hlen. pose proof (rec_crc r Hr) as Hcrc.
  pose proof Hr as [Hk Hv Hf Hkb Hvb].
  assert (Hfl : 0 <= lr_flags r < 65536) by (destruct Hf as [->|[[-> | ->] _]]; done).
  assert (Hc : 0 <= invfs_crc32c (lr_key r ++ lr_val r) < 2 ^ 32)
    by (apply crc_range, Forall_app; done).
  unfold vol_delta_rec_parse. rewrite length_app.
  assert (HH : INVFS_DELTA_REC_HDR_LEN = 10) by done. unfold rec_len in Hlen.
  rewrite (proj2 (Z.ltb_ge _ 0)), (proj2 (Z.ltb_ge _ (0 + _))) by lia. cbn [orb].
  rewrite (Nat2Z.inj_add (length (rec_bytes r))), Hlen.
  unfold rec_bytes. rewrite Hcrc, <- !app_assoc.
  set (body := lr_key r ++ lr_val r ++ rest).
  assert (Ek : dl_rd16be (dl_wr16be (zlen (lr_key r)) ++ dl_wr16be (zlen (lr_val r)) ++
    dl_wr16be (lr_flags r) ++ le_bytes 4 (invfs_crc32c (lr_key r ++ lr_val r)) ++ body) 0 = zlen (lr_key r))
    by (apply rd16_wr16; lia).
  rewrite bool_decide_eq_false_2.
  2: { intros E. assert (E0 : zlen (lr_key r) = 0); [|lia]. rewrite <- Ek. unfold dl_rd16be.
       apply zero_head in E as [Ea Eb]. unfold dl_wr16be in *. nth_at. by rewrite Ea, Eb. }
  rewrite Ek. clear Ek.
  rewrite (rd16_skip _ _ (0 + 2)) by done. change (0 + 2 - _) with 0. rewrite rd16_wr16 by lia.
  rewrite (rd16_skip _ _ (0 + 4)) by done. change (0 + 4 - _) with 2.
  rewrite (rd16_skip _ _ 2) by done. change (2 - _) with 0. rewrite rd16_wr16 by lia.
  rewrite (rd32_skip _ _ (0 + 6)) by done. change (0 + 6 - _) with 4.
  rewrite (rd32_skip _ _ 4) by done. change (4 - _) with 2.
  rewrite (rd32_skip _ _ 2) by done. change (2 - _) with 0. rewrite rd32_here by done.
  rewrite (slice_app_r _ _ (0 + _)) by done. change (0 + INVFS_DELTA_REC_HDR_LEN - _) with 8.
  rewrite (slice_app_r _ _ 8) by done. change (8 - _) with 6.
  rewrite (slice_app_r _ _ 6) by done. change (6 - _) with 4.
  rewrite (slice_app_r _ _ 4) by by rewrite length_le_bytes.
  rewrite length_le_bytes. change (4 - _) with 0. unfold body. rewrite app_assoc, slice_app_l
    by (rewrite length_app; lia).
  rewrite (proj2 (Z.eqb_neq _ 0)) by lia.
  destruct (flags_land (lr_flags r) (zlen (lr_val r))) as (-> & -> & ->).
  { destruct Hf as [->|[? ->]]; [by left|right; done]. }
  cbn [negb]. rewrite (proj2 (Z.ltb_ge _ _)) by lia. by rewrite !Z.eqb_refl.
Qed.

(** The fields a reader takes from a record image. *)
Lemma rec_fields r :
  rec_ok r ->
  dl_rd16be (rec_bytes r) 0 = zlen (lr_key r) /\ dl_rd16be (rec_bytes r) 2 = zlen (lr_val r) /\
  dl_rd16be (rec_bytes r) 4 = lr_flags r /\
  slice (rec_bytes r) INVFS_DELTA_REC_HDR_LEN (zlen (lr_key r)) = lr_key r /\
  slice (rec_bytes r) (INVFS_DELTA_REC_HDR_LEN + zlen (lr_key r)) (zlen (lr_val r)) = lr_val r /\
  dl_rd16be (slice (rec_bytes r) 0 INVFS_DELTA_REC_HDR_LEN) 0 = zlen (lr_key r).
Proof.
  intros [Hk Hv Hf _ _]. unfold rec_bytes. set (crc := if zlen (lr_val r) =? 0 then _ else _).
  assert (Hfl : 0 <= lr_flags r < 65536) by (destruct Hf as [->|[[-> | ->] _]]; done).
  assert (E0 : forall rest, dl_rd16be (dl_wr16be (zlen (lr_key r)) ++ rest) 0 = zlen (lr_key r))
    by (intros; apply rd16_wr16; lia).
  split_and!.
  - apply E0.
  - rewrite rd16_skip by done. change (2 - _) with 0. apply rd16_wr16. lia.
  - do 2 (rewrite rd16_skip by done). change (4 - _ - _) with 0. by apply rd16_wr16.
  - do 3 (rewrite slice_app_r by done). rewrite slice_app_r by by rewrite length_le_bytes.
    rewrite length_le_bytes. change (INVFS_DELTA_REC_HDR_LEN - _ - _ - _ - _) with 0. by apply slice_app_l.
  - assert (HH : INVFS_DELTA_REC_HDR_LEN = 10) by done.
    do 3 (rewrite slice_app_r by (cbn [dl_wr16be length]; lia)).
    rewrite slice_app_r by (rewrite length_le_bytes; cbn [dl_wr16be length]; lia).
    rewrite length_le_bytes. cbn [dl_wr16be length]. rewrite slice_app_r by lia.
    replace (_ - _) with 0 by lia. by apply slice_all.
  - change (slice _ 0 INVFS_DELTA_REC_HDR_LEN) with
      (dl_wr16be (zlen (lr_key r)) ++ dl_wr16be (zlen (lr_val r)) ++ dl_wr16be (lr_flags r) ++ le_bytes 4 crc).
    apply E0.
Qed.

(** ** Runs of records *)

Definition recs_bytes (rs : list lrec) : bytes := concat (map rec_bytes rs).
Definition recs_len (rs : list lrec) : Z := zlen (recs_bytes rs).

Lemma recs_bytes_app a b : recs_bytes (a ++ b) = recs_bytes a ++ recs_bytes b.
Proof. unfold recs_bytes. by rewrite map_app, concat_app. Qed.
Lemma recs_bytes_cons r rs : recs_bytes (r :: rs) = rec_bytes r ++ recs_bytes rs.
Proof. done. Qed.
Lemma recs_len_app a b : recs_len (a ++ b) = recs_len a + recs_len b.
Proof. unfold recs_len. rewrite recs_bytes_app, length_app. lia. Qed.
Lemma recs_len_one r : recs_len [r] = rec_len r.
Proof. unfold recs_len, recs_bytes. cbn. rewrite app_nil_r. apply length_drec_bytes. Qed.

Lemma rec_len_pos r : rec_ok r -> 11 <= rec_len r.
Proof. intros [? _ _ _ _]. unfold rec_len, INVFS_DELTA_REC_HDR_LEN. lia. Qed.

Lemma recs_count rs : Forall rec_ok rs -> 11 * zlen rs <= recs_len rs.
Proof.
  induction 1 as [|r rs Hr _ IH]; [done|]. change (r :: rs) with ([r] ++ rs).
  rewrite recs_len_app, recs_len_one. pose proof (rec_len_pos r Hr). cbn. lia.
Qed.

(** The bytes behind the log are no record. *)
Definition no_record (tail : bytes) : Prop :=
  match vol_delta_rec_parse tail 0 with POk _ _ _ _ => False | _ => True end.
Definition torn (tail : bytes) : bool :=
  match vol_delta_rec_parse tail 0 with PBad => true | _ => false end.

Lemma zeros_no_record n : vol_delta_rec_parse (zeros n) 0 = PEnd.
Proof.
  unfold vol_delta_rec_parse. rewrite length_zeros. rewrite (proj2 (Z.ltb_ge _ 0)) by lia.
  case_match eqn:E; [done|]. cbn [orb] in E. zbool. rewrite bool_decide_eq_true_2; [done|].
  unfold slice, zeros. cbn [drop Z.to_nat]. rewrite drop_0, take_replicate. f_equal.
  unfold INVFS_DELTA_REC_HDR_LEN in *. lia.
Qed.

Lemma zeros_tail n : no_record (zeros n) /\ torn (zeros n) = false.
Proof. unfold no_record, torn. by rewrite zeros_no_record. Qed.

Lemma parse_at pre r rest :
  rec_ok r ->
  vol_delta_rec_parse (pre ++ rec_bytes r ++ rest) (zlen pre)
  = POk (zlen (lr_key r)) (zlen (lr_val r)) (lr_flags r) (rec_len r).
Proof. intros. by rewrite parse_skip, parse_rec. Qed.

Lemma torn_nonempty tail : torn tail = true -> 0 < zlen tail.
Proof. destruct tail; [done|cbn; lia]. Qed.

Lemma scan_recs rs tail : forall pre fuel n,
  Forall rec_ok rs -> no_record tail -> (length rs < fuel)%nat ->
  scan_loop (pre ++ recs_bytes rs ++ tail) fuel (zlen pre) (zlen pre) n
  = (zlen pre + recs_len rs, n + zlen rs, torn tail).
Proof.
  induction rs as [|r rs IH]; intros pre fuel n Hrs Ht Hf; (destruct fuel as [|fuel]; [lia|]).
  - cbn [scan_loop recs_bytes map concat app]. unfold recs_len. cbn.
    change (Z.of_nat 0) with 0. rewrite !Z.add_0_r.
    destruct (negb _) eqn:E.
    + zbool. rewrite length_app in E. destruct tail; [done|cbn in E; lia].
    + rewrite parse_skip. unfold no_record, torn in *. by destruct (vol_delta_rec_parse tail 0).
  - apply Forall_cons_iff in Hrs as [Hr Hrs]. cbn [scan_loop]. pose proof (rec_len_pos r Hr).
    rewrite recs_bytes_cons, <- app_assoc. pose proof (length_drec_bytes r) as Hl.
    rewrite (proj2 (Z.ltb_lt _ _)) by (rewrite !length_app; lia). cbn [negb].
    rewrite parse_at by done. specialize (IH (pre ++ rec_bytes r) fuel (n + 1) Hrs Ht).
    rewrite <- app_assoc in IH. cbn in Hf. rewrite length_app, Nat2Z.inj_add, Hl in IH. rewrite IH by lia.
    change (r :: rs) with ([r] ++ rs). rewrite recs_len_app, recs_len_one, length_app. cbn. f_equal. f_equal; lia.
Qed.

(** ** Pads *)

Lemma pad_rec_ok kl : 1 <= kl < 65536 -> rec_ok (pad_rec kl).
Proof.
  intros. assert (Hl : zlen (zeros kl) = kl) by (rewrite length_zeros; lia).
  split; cbn; rewrite ?Hl; auto with invfs. lia.
Qed.

Lemma pad_bytes kl : 1 <= kl < 65536 ->
  rec_bytes (pad_rec kl) =
  dl_wr16be kl ++ dl_wr16be 0 ++ dl_wr16be INVFS_DELTA_FLAG_PAD ++
  le_bytes 4 (invfs_crc32c (zeros kl)) ++ zeros kl.
Proof.
  intros. unfold rec_bytes. cbn [pad_rec lr_key lr_val lr_flags length].
  rewrite length_zeros, app_nil_r, Z2Nat.id by lia. done.
Qed.

Lemma rec_len_pad kl : 0 <= kl -> rec_len (pad_rec kl) = INVFS_DELTA_REC_HDR_LEN + kl.
Proof. intros. unfold rec_len. cbn [pad_rec lr_key lr_val length]. rewrite length_zeros. lia. Qed.

Definition is_pad (r : lrec) : Prop := exists kl, 1 <= kl < 65536 /\ r = pad_rec kl.

Lemma pad_loop_spec fuel : forall rem,
  (rem = 0 \/ 11 <= rem < 2 ^ 64) -> (Z.to_nat rem <= fuel)%nat ->
  exists rs, Forall is_pad rs /\ pad_loop fuel rem = recs_bytes rs /\ recs_len rs = rem.
Proof.
  assert (HH : INVFS_DELTA_REC_HDR_LEN = 10) by done.
  induction fuel as [|fuel IH]; intros rem Hr Hf; cbn [pad_loop].
  { exists []. split; [done|]. split; [done|]. change (recs_len []) with 0. lia. }
  destruct (Z.leb_spec rem 0); [exists []; split; [done|]; split; [done|change (recs_len []) with 0; lia]|].
  destruct Hr as [->|Hr]; [done|]. rewrite u64_small by lia.
  set (kl := if rem - INVFS_DELTA_REC_HDR_LEN <=? 65535 then u16 (rem - INVFS_DELTA_REC_HDR_LEN)
             else 65535 - INVFS_DELTA_REC_HDR_LEN).
  assert (Hkl : 1 <= kl < 65536 /\ (rem - (10 + kl) = 0 \/ 11 <= rem - (10 + kl) < 2 ^ 64)).
  { unfold kl. destruct (Z.leb_spec (rem - INVFS_DELTA_REC_HDR_LEN) 65535); [rewrite u16_small by lia|]; lia. }
  destruct Hkl as [Hkl Hrem].
  destruct (IH (rem - (INVFS_DELTA_REC_HDR_LEN + kl))) as (rs & Hp & -> & Hlen); [rewrite HH; done|lia|].
  exists (pad_rec kl :: rs). split_and!.
  - constructor; [by exists kl|done].
  - rewrite recs_bytes_cons, pad_bytes by done. by rewrite <- !app_assoc.
  - change (pad_rec kl :: rs) with ([pad_rec kl] ++ rs).
    rewrite recs_len_app, recs_len_one, rec_len_pad by lia. lia.
Qed.

Lemma pad_build_spec len :
  11 <= len < 2 ^ 64 ->
  exists rs, Forall is_pad rs /\ vol_delta_pad_build len = recs_bytes rs /\ recs_len rs = len.
Proof.
  intros Hl. unfold vol_delta_pad_build. rewrite (proj2 (Z.ltb_ge _ _)) by (unfold INVFS_DELTA_REC_HDR_LEN; lia).
  apply pad_loop_spec; [by right|done].
Qed.

(** ** Segment headers *)

Lemma length_hdr_body q p : zlen (hdr_body q p) = 40.
Proof. done. Qed.
Lemma length_hdr q p : zlen (delta_hdr_encode q p) = INVFS_DELTA_SEG_HDR_LEN.
Proof. done. Qed.

Lemma hdr_body_ok q p : bytes_ok (hdr_body q p).
Proof.
  unfold hdr_body. rewrite !Forall_app. split_and!; auto with invfs. by apply bytes_okb_ok.
Qed.

Lemma hdr_roundtrip q p rest :
  0 <= q < 2 ^ 64 -> 0 <= p < 2 ^ 64 ->
  delta_hdr_decode (delta_hdr_encode q p ++ rest) = Some (mkSegHdr q p 0).
Proof.
  intros Hq Hp. unfold delta_hdr_decode.
  assert (Hlen : (zlen (delta_hdr_encode q p ++ rest) <? INVFS_DELTA_SEG_HDR_LEN) = false).
  { apply Z.ltb_ge. rewrite length_app, Nat2Z.inj_add, length_hdr. lia. }
  rewrite Hlen. cbn [orb]. unfold delta_hdr_encode.
  set (crc := invfs_crc32c (hdr_body q p ++ zeros 4)).
  assert (Hc : 0 <= crc < 2 ^ 32).
  { apply crc_range, Forall_app. split; [apply hdr_body_ok|apply zeros_ok]. }
  rewrite <- app_assoc.
  assert (Es : slice (hdr_body q p ++ le_bytes 4 crc ++ rest) 0 40 = hdr_body q p)
    by apply (slice_app_l (hdr_body q p)), length_hdr_body.
  rewrite Es. clear Es.
  rewrite (rd32_skip (hdr_body q p)) by (rewrite length_hdr_body; lia).
  rewrite length_hdr_body. change (40 - 40) with 0. rewrite rd32_here by done. fold crc.
  rewrite Z.eqb_refl. unfold hdr_body. rewrite <- !app_assoc.
  rewrite bool_decide_eq_true_2 by done. cbn [negb].
  repeat first
    [ rewrite rd32be_wr32be by done
    | rewrite rd64be_wr64be by done
    | rewrite (rd32be_skip _ _ _) by done
    | rewrite (rd64be_skip _ _ _) by done
    | match goal with |- context [?a - zlen ?l] =>
        let z := eval vm_compute in (a - zlen l) in change (a - zlen l) with z end ].
  by rewrite !Z.eqb_refl.
Qed.

(** C23: the log's wire format round-trips and a damaged tail does not spread.
    A scan of encoded records followed by bytes that are no record (padding,
    or a torn write) accepts exactly those records, ends behind the last one
    and says whether the tail is damage; an encoded segment header decodes to
    its sequence number and back link. *)
Theorem delta_codec_roundtrip rs tail q p rest :
  Forall rec_ok rs -> no_record tail -> 0 <= q < 2 ^ 64 -> 0 <= p < 2 ^ 64 ->
  vol_delta_scan_valid (recs_bytes rs ++ tail) = (recs_len rs, zlen rs, torn tail) /\
  delta_hdr_decode (delta_hdr_encode q p ++ rest) = Some (mkSegHdr q p 0).
Proof.
  intros Hrs Ht Hq Hp. split; [|by apply hdr_roundtrip]. unfold vol_delta_scan_valid.
  assert (Hc : (length rs <= length (recs_bytes rs ++ tail))%nat).
  { pose proof (recs_count rs Hrs). unfold recs_len in *. rewrite length_app. lia. }
  destruct (decide (recs_bytes rs ++ tail = [])) as [E|E].
  { apply app_nil in E as [E ->]. destruct rs as [|r rs]; [done|].
    apply Forall_cons_iff in Hrs as [Hr _]. pose proof (rec_len_pos r Hr).
    pose proof (length_drec_bytes r) as Hl. rewrite recs_bytes_cons in E. apply app_nil in E as [E _].
    rewrite E in Hl. cbn in Hl. lia. }
  assert (Hlt : (length rs < length (recs_bytes rs ++ tail))%nat).
  { destruct rs as [|r rs]; [destruct tail; [done|cbn; lia]|].
    pose proof (recs_count _ Hrs). unfold recs_len in *. rewrite length_app. cbn [length] in *. lia. }
  exact (scan_recs rs tail [] _ 0 Hrs Ht Hlt).
Qed.

Definition demo_recs : list lrec := [mkLrec 0 [1; 2] [7]; mkLrec INVFS_DELTA_FLAG_DELETE [3] []].

Lemma demo_drecs_ok : Forall rec_ok demo_recs.
Proof. repeat constructor; cbn; auto; lia. Qed.

Lemma delta_codec_roundtrip_witness :
  vol_delta_scan_valid (recs_bytes demo_recs ++ [0; 9]) = (recs_len demo_recs, 2, false) /\
  delta_hdr_decode (delta_hdr_encode 3 77 ++ []) = Some (mkSegHdr 3 77 0).
Proof. apply (delta_codec_roundtrip demo_recs [0; 9] 3 77 []); [apply demo_drecs_ok|done|lia|lia]. Defined.

(** A healed span stays walkable and carries nothing.  The pads built for
    a span of any length of at least one record fill it exactly, are valid
    records, and every one has the PAD flag, no value and a zero filler as
    its key, so a scan passes over the span. *)
Theorem delta_pad_exact len tail :
  11 <= len < 2 ^ 64 -> no_record tail ->
  zlen (vol_delta_pad_build len) = len /\
  exists rs, vol_delta_pad_build len = recs_bytes rs /\ Forall is_pad rs /\ Forall rec_ok rs /\
    forall pre, Forall rec_ok pre ->
      vol_delta_scan_valid (recs_bytes pre ++ vol_delta_pad_build len ++ tail)
      = (recs_len pre + len, zlen pre + zlen rs, torn tail).
Proof.
  intros Hl Ht. destruct (pad_build_spec len Hl) as (rs & Hp & -> & Hlen). split; [done|].
  assert (Hrs : Forall rec_ok rs).
  { eapply Forall_impl; [|exact Hp]. intros r (kl & ? & ->). by apply pad_rec_ok. }
  exists rs. split_and!; [done..|]. intros pre Hpre.
  rewrite app_assoc, <- recs_bytes_app. unfold vol_delta_scan_valid.
  assert (Hall : Forall rec_ok (pre ++ rs)) by by apply Forall_app.
  pose proof (recs_count _ Hall) as Hc. pose proof (recs_len_app pre rs) as Ha.
  pose proof (scan_recs (pre ++ rs) tail [] (length (recs_bytes (pre ++ rs) ++ tail)) 0 Hall Ht) as Hs.
  cbn [app length] in Hs. change (Z.of_nat 0) with 0 in Hs. rewrite Hs.
  - rewrite Ha, Hlen, length_app. f_equal. f_equal. lia.
  - unfold recs_len in *. rewrite !length_app in *. lia.
Qed.

Lemma delta_pad_exact_witness : zlen (vol_delta_pad_build 13) = 13.
Proof. apply (delta_pad_exact 13 []); [lia|done]. Defined.

End DeltaRec.
