(* ===== verification/Delta.v ===== *)
(** * The delta log (vol_delta.c, parts 3 to 5)

    The append-only recent tier over the volume of Volume.v: segments of 128
    KiB chained through their headers, group commit with retention of staged
    bytes, rollback and healing after a failed fence, lookups, mount replay
    and truncation.  The index is DeltaIndex.v, the wire format DeltaRec.v.

    The volume lock is held throughout each operation (one critical section),
    so operations are state transformers; allocation of host memory succeeds.
    The clock and the environment variables are arguments. *)

From S2P Require Import Prelude Crc32c Dev Alloc Volume Anchor Page Metabuf Keys DeltaIndex DeltaRec.

Module Delta.
Import Crc32c Alloc Volume Anchor Page Metabuf Keys DeltaIndex DeltaRec.

(** ** State *)

(** Source: core/volume_internal.h:253-263 [delta_staged_rec] *)
Record delta_staged_rec := mkStaged {
  st_off : Z;                        (* absolute byte offset *)
  st_len : Z;
  st_bytes : option bytes;           (* None once doomed *)
  st_prev : option delta_ref         (* has_prev and the prev_* fields *)
}.

(** Source: core/volume_internal.h:272-283 [delta_retire_ent] *)
Record delta_retire_ent := mkRetire {
  rt_key : bytes;
  rt_del : bool;
  rt_seg : Z; rt_off : Z; rt_rseq : Z;
  rt_recipe : option bytes;          (* has_recipe *)
  rt_pbas : list Z;
  rt_keep : list Z
}.
Definition VOL_DELTA_RETIRE_MAX : Z := 16384.

(** The fields of the superblock that the allocator does not use.
    Source: core/invarifs.h:186-223 [invfs_superblock] *)
Record sb_rest := mkSbRest {
  sr_magic : bytes;                  (* 8 bytes *)
  sr_root_ast_hash : bytes;          (* 32 bytes *)
  sr_sweep_cursor : Z;
  sr_pad2 : Z;
  sr_pad3 : bytes;                   (* 3 bytes *)
  sr_meta_extent_min : Z
}.

(** The delta log's part of [invfs_volume], with the process-wide instance
    counter of the index and the dirty flag of the superblock.
    Source: core/volume_internal.h:666-744 [invfs_volume] *)
Record dlog := mkDlog {
  d_index : option delta_index;
  g_index_inst : Z;
  delta_seg_pba : Z;
  delta_seg_gen : Z;
  delta_bump : Z;
  delta_seq : Z;
  delta_records : Z;
  delta_segments : Z;
  delta_bytes : Z;
  delta_ready : bool;
  delta_pending : Z;
  delta_pending_bytes : Z;
  delta_group_max : Z;
  delta_group_bytes : Z;
  delta_staged : list delta_staged_rec;
  delta_doomed : nat;
  delta_rewrite_needed : bool;
  delta_retire : list delta_retire_ent;
  delta_retire_dropped : Z;
  delta_oldest_seq : Z;
  delta_oldest_when : Z;
  spn_delta_head : Z;
  spn_delta_segs : Z;
  v_dirty : bool;
  v_sb_rest : sb_rest
}.

Definition set_d_index y (x : dlog) : dlog := mkDlog y (g_index_inst x) (delta_seg_pba x)
  (delta_seg_gen x) (delta_bump x) (delta_seq x) (delta_records x) (delta_segments x)
  (delta_bytes x) (delta_ready x) (delta_pending x) (delta_pending_bytes x) (delta_group_max
  x) (delta_group_bytes x) (delta_staged x) (delta_doomed x) (delta_rewrite_needed x)
  (delta_retire x) (delta_retire_dropped x) (delta_oldest_seq x) (delta_oldest_when x)
  (spn_delta_head x) (spn_delta_segs x) (v_dirty x) (v_sb_rest x).
Definition set_g_index_inst y (x : dlog) : dlog := mkDlog (d_index x) y (delta_seg_pba x)
  (delta_seg_gen x) (delta_bump x) (delta_seq x) (delta_records x) (delta_segments x)
  (delta_bytes x) (delta_ready x) (delta_pending x) (delta_pending_bytes x) (delta_group_max
  x) (delta_group_bytes x) (delta_staged x) (delta_doomed x) (delta_rewrite_needed x)
  (delta_retire x) (delta_retire_dropped x) (delta_oldest_seq x) (delta_oldest_when x)
  (spn_delta_head x) (spn_delta_segs x) (v_dirty x) (v_sb_rest x).
Definition set_delta_seg_pba y (x : dlog) : dlog := mkDlog (d_index x) (g_index_inst x) y
  (delta_seg_gen x) (delta_bump x) (delta_seq x) (delta_records x) (delta_segments x)
  (delta_bytes x) (delta_ready x) (delta_pending x) (delta_pending_bytes x) (delta_group_max
  x) (delta_group_bytes x) (delta_staged x) (delta_doomed x) (delta_rewrite_needed x)
  (delta_retire x) (delta_retire_dropped x) (delta_oldest_seq x) (delta_oldest_when x)
  (spn_delta_head x) (spn_delta_segs x) (v_dirty x) (v_sb_rest x).
Definition set_delta_seg_gen y (x : dlog) : dlog := mkDlog (d_index x) (g_index_inst x)
  (delta_seg_pba x) y (delta_bump x) (delta_seq x) (delta_records x) (delta_segments x)
  (delta_bytes x) (delta_ready x) (delta_pending x) (delta_pending_bytes x) (delta_group_max
  x) (delta_group_bytes x) (delta_staged x) (delta_doomed x) (delta_rewrite_needed x)
  (delta_retire x) (delta_retire_dropped x) (delta_oldest_seq x) (delta_oldest_when x)
  (spn_delta_head x) (spn_delta_segs x) (v_dirty x) (v_sb_rest x).
Definition set_delta_bump y (x : dlog) : dlog := mkDlog (d_index x) (g_index_inst x)
  (delta_seg_pba x) (delta_seg_gen x) y (delta_seq x) (delta_records x) (delta_segments x)
  (delta_bytes x) (delta_ready x) (delta_pending x) (delta_pending_bytes x) (delta_group_max
  x) (delta_group_bytes x) (delta_staged x) (delta_doomed x) (delta_rewrite_needed x)
  (delta_retire x) (delta_retire_dropped x) (delta_oldest_seq x) (delta_oldest_when x)
  (spn_delta_head x) (spn_delta_segs x) (v_dirty x) (v_sb_rest x).
Definition set_delta_seq y (x : dlog) : dlog := mkDlog (d_index x) (g_index_inst x)
  (delta_seg_pba x) (delta_seg_gen x) (delta_bump x) y (delta_records x) (delta_segments x)
  (delta_bytes x) (delta_ready x) (delta_pending x) (delta_pending_bytes x) (delta_group_max
  x) (delta_group_bytes x) (delta_staged x) (delta_doomed x) (delta_rewrite_needed x)
  (delta_retire x) (delta_retire_dropped x) (delta_oldest_seq x) (delta_oldest_when x)
  (spn_delta_head x) (spn_delta_segs x) (v_dirty x) (v_sb_rest x).
Definition set_delta_records y (x : dlog) : dlog := mkDlog (d_index x) (g_index_inst x)
  (delta_seg_pba x) (delta_seg_gen x) (delta_bump x) (delta_seq x) y (delta_segments x)
  (delta_bytes x) (delta_ready x) (delta_pending x) (delta_pending_bytes x) (delta_group_max
  x) (delta_group_bytes x) (delta_staged x) (delta_doomed x) (delta_rewrite_needed x)
  (delta_retire x) (delta_retire_dropped x) (delta_oldest_seq x) (delta_oldest_when x)
  (spn_delta_head x) (spn_delta_segs x) (v_dirty x) (v_sb_rest x).
Definition set_delta_segments y (x : dlog) : dlog := mkDlog (d_index x) (g_index_inst x)
  (delta_seg_pba x) (delta_seg_gen x) (delta_bump x) (delta_seq x) (delta_records x) y
  (delta_bytes x) (delta_ready x) (delta_pending x) (delta_pending_bytes x) (delta_group_max
  x) (delta_group_bytes x) (delta_staged x) (delta_doomed x) (delta_rewrite_needed x)
  (delta_retire x) (delta_retire_dropped x) (delta_oldest_seq x) (delta_oldest_when x)
  (spn_delta_head x) (spn_delta_segs x) (v_dirty x) (v_sb_rest x).
Definition set_delta_bytes y (x : dlog) : dlog := mkDlog (d_index x) (g_index_inst x)
  (delta_seg_pba x) (delta_seg_gen x) (delta_bump x) (delta_seq x) (delta_records x)
  (delta_segments x) y (delta_ready x) (delta_pending x) (delta_pending_bytes x)
  (delta_group_max x) (delta_group_bytes x) (delta_staged x) (delta_doomed x)
  (delta_rewrite_needed x) (delta_retire x) (delta_retire_dropped x) (delta_oldest_seq x)
  (delta_oldest_when x) (spn_delta_head x) (spn_delta_segs x) (v_dirty x) (v_sb_rest x).
Definition set_delta_ready y (x : dlog) : dlog := mkDlog (d_index x) (g_index_inst x)
  (delta_seg_pba x) (delta_seg_gen x) (delta_bump x) (delta_seq x) (delta_records x)
  (delta_segments x) (delta_bytes x) y (delta_pending x) (delta_pending_bytes x)
  (delta_group_max x) (delta_group_bytes x) (delta_staged x) (delta_doomed x)
  (delta_rewrite_needed x) (delta_retire x) (delta_retire_dropped x) (delta_oldest_seq x)
  (delta_oldest_when x) (spn_delta_head x) (spn_delta_segs x) (v_dirty x) (v_sb_rest x).
Definition set_delta_pending y (x : dlog) : dlog := mkDlog (d_index x) (g_index_inst x)
  (delta_seg_pba x) (delta_seg_gen x) (delta_bump x) (delta_seq x) (delta_records x)
  (delta_segments x) (delta_bytes x) (delta_ready x) y (delta_pending_bytes x)
  (delta_group_max x) (delta_group_bytes x) (delta_staged x) (delta_doomed x)
  (delta_rewrite_needed x) (delta_retire x) (delta_retire_dropped x) (delta_oldest_seq x)
  (delta_oldest_when x) (spn_delta_head x) (spn_delta_segs x) (v_dirty x) (v_sb_rest x).
Definition set_delta_pending_bytes y (x : dlog) : dlog := mkDlog (d_index x) (g_index_inst
  x) (delta_seg_pba x) (delta_seg_gen x) (delta_bump x) (delta_seq x) (delta_records x)
  (delta_segments x) (delta_bytes x) (delta_ready x) (delta_pending x) y (delta_group_max x)
  (delta_group_bytes x) (delta_staged x) (delta_doomed x) (delta_rewrite_needed x)
  (delta_retire x) (delta_retire_dropped x) (delta_oldest_seq x) (delta_oldest_when x)
  (spn_delta_head x) (spn_delta_segs x) (v_dirty x) (v_sb_rest x).
Definition set_delta_group_max y (x : dlog) : dlog := mkDlog (d_index x) (g_index_inst x)
  (delta_seg_pba x) (delta_seg_gen x) (delta_bump x) (delta_seq x) (delta_records x)
  (delta_segments x) (delta_bytes x) (delta_ready x) (delta_pending x) (delta_pending_bytes
  x) y (delta_group_bytes x) (delta_staged x) (delta_doomed x) (delta_rewrite_needed x)
  (delta_retire x) (delta_retire_dropped x) (delta_oldest_seq x) (delta_oldest_when x)
  (spn_delta_head x) (spn_delta_segs x) (v_dirty x) (v_sb_rest x).
Definition set_delta_group_bytes y (x : dlog) : dlog := mkDlog (d_index x) (g_index_inst x)
  (delta_seg_pba x) (delta_seg_gen x) (delta_bump x) (delta_seq x) (delta_records x)
  (delta_segments x) (delta_bytes x) (delta_ready x) (delta_pending x) (delta_pending_bytes
  x) (delta_group_max x) y (delta_staged x) (delta_doomed x) (delta_rewrite_needed x)
  (delta_retire x) (delta_retire_dropped x) (delta_oldest_seq x) (delta_oldest_when x)
  (spn_delta_head x) (spn_delta_segs x) (v_dirty x) (v_sb_rest x).
Definition set_delta_staged y (x : dlog) : dlog := mkDlog (d_index x) (g_index_inst x)
  (delta_seg_pba x) (delta_seg_gen x) (delta_bump x) (delta_seq x) (delta_records x)
  (delta_segments x) (delta_bytes x) (delta_ready x) (delta_pending x) (delta_pending_bytes
  x) (delta_group_max x) (delta_group_bytes x) y (delta_doomed x) (delta_rewrite_needed x)
  (delta_retire x) (delta_retire_dropped x) (delta_oldest_seq x) (delta_oldest_when x)
  (spn_delta_head x) (spn_delta_segs x) (v_dirty x) (v_sb_rest x).
Definition set_delta_doomed y (x : dlog) : dlog := mkDlog (d_index x) (g_index_inst x)
  (delta_seg_pba x) (delta_seg_gen x) (delta_bump x) (delta_seq x) (delta_records x)
  (delta_segments x) (delta_bytes x) (delta_ready x) (delta_pending x) (delta_pending_bytes
  x) (delta_group_max x) (delta_group_bytes x) (delta_staged x) y (delta_rewrite_needed x)
  (delta_retire x) (delta_retire_dropped x) (delta_oldest_seq x) (delta_oldest_when x)
  (spn_delta_head x) (spn_delta_segs x) (v_dirty x) (v_sb_rest x).
Definition set_delta_rewrite_needed y (x : dlog) : dlog := mkDlog (d_index x) (g_index_inst
  x) (delta_seg_pba x) (delta_seg_gen x) (delta_bump x) (delta_seq x) (delta_records x)
  (delta_segments x) (delta_bytes x) (delta_ready x) (delta_pending x) (delta_pending_bytes
  x) (delta_group_max x) (delta_group_bytes x) (delta_staged x) (delta_doomed x) y
  (delta_retire x) (delta_retire_dropped x) (delta_oldest_seq x) (delta_oldest_when x)
  (spn_delta_head x) (spn_delta_segs x) (v_dirty x) (v_sb_rest x).
Definition set_delta_retire y (x : dlog) : dlog := mkDlog (d_index x) (g_index_inst x)
  (delta_seg_pba x) (delta_seg_gen x) (delta_bump x) (delta_seq x) (delta_records x)
  (delta_segments x) (delta_bytes x) (delta_ready x) (delta_pending x) (delta_pending_bytes
  x) (delta_group_max x) (delta_group_bytes x) (delta_staged x) (delta_doomed x)
  (delta_rewrite_needed x) y (delta_retire_dropped x) (delta_oldest_seq x)
  (delta_oldest_when x) (spn_delta_head x) (spn_delta_segs x) (v_dirty x) (v_sb_rest x).
Definition set_delta_retire_dropped y (x : dlog) : dlog := mkDlog (d_index x) (g_index_inst
  x) (delta_seg_pba x) (delta_seg_gen x) (delta_bump x) (delta_seq x) (delta_records x)
  (delta_segments x) (delta_bytes x) (delta_ready x) (delta_pending x) (delta_pending_bytes
  x) (delta_group_max x) (delta_group_bytes x) (delta_staged x) (delta_doomed x)
  (delta_rewrite_needed x) (delta_retire x) y (delta_oldest_seq x) (delta_oldest_when x)
  (spn_delta_head x) (spn_delta_segs x) (v_dirty x) (v_sb_rest x).
Definition set_delta_oldest_seq y (x : dlog) : dlog := mkDlog (d_index x) (g_index_inst x)
  (delta_seg_pba x) (delta_seg_gen x) (delta_bump x) (delta_seq x) (delta_records x)
  (delta_segments x) (delta_bytes x) (delta_ready x) (delta_pending x) (delta_pending_bytes
  x) (delta_group_max x) (delta_group_bytes x) (delta_staged x) (delta_doomed x)
  (delta_rewrite_needed x) (delta_retire x) (delta_retire_dropped x) y (delta_oldest_when x)
  (spn_delta_head x) (spn_delta_segs x) (v_dirty x) (v_sb_rest x).
Definition set_delta_oldest_when y (x : dlog) : dlog := mkDlog (d_index x) (g_index_inst x)
  (delta_seg_pba x) (delta_seg_gen x) (delta_bump x) (delta_seq x) (delta_records x)
  (delta_segments x) (delta_bytes x) (delta_ready x) (delta_pending x) (delta_pending_bytes
  x) (delta_group_max x) (delta_group_bytes x) (delta_staged x) (delta_doomed x)
  (delta_rewrite_needed x) (delta_retire x) (delta_retire_dropped x) (delta_oldest_seq x) y
  (spn_delta_head x) (spn_delta_segs x) (v_dirty x) (v_sb_rest x).
Definition set_spn_delta_head y (x : dlog) : dlog := mkDlog (d_index x) (g_index_inst x)
  (delta_seg_pba x) (delta_seg_gen x) (delta_bump x) (delta_seq x) (delta_records x)
  (delta_segments x) (delta_bytes x) (delta_ready x) (delta_pending x) (delta_pending_bytes
  x) (delta_group_max x) (delta_group_bytes x) (delta_staged x) (delta_doomed x)
  (delta_rewrite_needed x) (delta_retire x) (delta_retire_dropped x) (delta_oldest_seq x)
  (delta_oldest_when x) y (spn_delta_segs x) (v_dirty x) (v_sb_rest x).
Definition set_spn_delta_segs y (x : dlog) : dlog := mkDlog (d_index x) (g_index_inst x)
  (delta_seg_pba x) (delta_seg_gen x) (delta_bump x) (delta_seq x) (delta_records x)
  (delta_segments x) (delta_bytes x) (delta_ready x) (delta_pending x) (delta_pending_bytes
  x) (delta_group_max x) (delta_group_bytes x) (delta_staged x) (delta_doomed x)
  (delta_rewrite_needed x) (delta_retire x) (delta_retire_dropped x) (delta_oldest_seq x)
  (delta_oldest_when x) (spn_delta_head x) y (v_dirty x) (v_sb_rest x).
Definition set_v_dirty y (x : dlog) : dlog := mkDlog (d_index x) (g_index_inst x)
  (delta_seg_pba x) (delta_seg_gen x) (delta_bump x) (delta_seq x) (delta_records x)
  (delta_segments x) (delta_bytes x) (delta_ready x) (delta_pending x) (delta_pending_bytes
  x) (delta_group_max x) (delta_group_bytes x) (delta_staged x) (delta_doomed x)
  (delta_rewrite_needed x) (delta_retire x) (delta_retire_dropped x) (delta_oldest_seq x)
  (delta_oldest_when x) (spn_delta_head x) (spn_delta_segs x) y (v_sb_rest x).
Definition set_v_sb_rest y (x : dlog) : dlog := mkDlog (d_index x) (g_index_inst x)
  (delta_seg_pba x) (delta_seg_gen x) (delta_bump x) (delta_seq x) (delta_records x)
  (delta_segments x) (delta_bytes x) (delta_ready x) (delta_pending x) (delta_pending_bytes
  x) (delta_group_max x) (delta_group_bytes x) (delta_staged x) (delta_doomed x)
  (delta_rewrite_needed x) (delta_retire x) (delta_retire_dropped x) (delta_oldest_seq x)
  (delta_oldest_when x) (spn_delta_head x) (spn_delta_segs x) (v_dirty x) y.

Definition INVFS_STATE_DIRTY : Z := 0xDA.
Definition DELTA_MAX_SEGMENTS : nat := Z.to_nat (2 ^ 20).

(** What freeing retired content calls of the recipe and reference-count
    layers: [vol_free_recipe_blocks], [pba_ref_reset] with [pba_ref_ensure],
    [pba_ref_count] and [seg_extent_checked]. *)
Record retire_calls (S : Type) := mkRetireCalls {
  rc_free_recipe : bytes -> M S unit;
  rc_ref_rebuild : M S unit;
  rc_ref_count : Z -> M S Z;
  rc_seg_extent : Z -> M S Z
}.
#[global] Arguments rc_free_recipe {S} r.
#[global] Arguments rc_ref_rebuild {S} r.
#[global] Arguments rc_ref_count {S} r.
#[global] Arguments rc_seg_extent {S} r.

(** ** Group-commit caps from the environment *)

Definition VOL_DELTA_GROUP_MAX_DEFAULT : Z := 64.
Definition VOL_DELTA_GROUP_BYTES_DEFAULT : Z := 256 * 1024.

Fixpoint skip_blank (l : bytes) : bytes :=
  match l with 32 :: t => skip_blank t | _ => l end.

(** Source: core/vol_delta.c [dl_group_bytes] *)
Definition dl_group_bytes (v : option bytes) (dflt : Z) : Z :=
  match v with
  | None | Some [] => dflt
  | Some s =>
      let '(n, rest, seen) := strtoull s in
      if negb seen then dflt
      else
        let n := match skip_blank rest with
                 | 75 :: _ | 107 :: _ => u64 (n * 1024)
                 | 77 :: _ | 109 :: _ => u64 (n * (1024 * 1024))
                 | 71 :: _ | 103 :: _ => u64 (n * (1024 * 1024 * 1024))
                 | _ => n
                 end in
        if n =? 0 then dflt else n
  end.

(** Source: core/vol_delta.c [dl_group_max] *)
Definition dl_group_max (v : option bytes) : Z :=
  match v with
  | None | Some [] => VOL_DELTA_GROUP_MAX_DEFAULT
  | Some s =>
      let '(n, _, seen) := strtoull s in
      if negb seen || (n =? 0) then VOL_DELTA_GROUP_MAX_DEFAULT else n
  end.

(** The process environment and the monotonic clock. *)
Record penv := mkPenv { pe_group_max : option bytes; pe_group_bytes : option bytes; pe_now : Z }.

(** Source: core/vol_delta.c [dl_group_parse] *)
Definition dl_group_parse (E : penv) (x : dlog) : dlog :=
  let x := set_delta_group_max (dl_group_max (pe_group_max E)) x in
  let x := set_delta_group_bytes (dl_group_bytes (pe_group_bytes E) VOL_DELTA_GROUP_BYTES_DEFAULT) x in
  set_delta_rewrite_needed false (set_delta_pending_bytes 0 (set_delta_pending 0 x)).

Section delta.
Context {D : Type} `{!Dev D} (E : penv) (RC : retire_calls (vol D dlog)).
Abbreviation V := (vol D dlog).

Definition on_x (f : dlog -> dlog) : M V unit := mmod (fun v => set_v_x (f (v_x v)) v).

(** ** The superblock's dirty mark *)

(** Source: core/invarifs.h:186-223 [invfs_superblock] *)
Definition sb_head (s : superblock) (r : sb_rest) : bytes :=
  sr_magic r ++ sb_uuid s ++ le_bytes 4 (sb_state s) ++ le_bytes 4 (sb_block_size s) ++
  le_bytes 8 (total_blocks s) ++ le_bytes 8 (metadata_zone_start s) ++
  le_bytes 8 (metadata_zone_blocks s) ++ le_bytes 8 (raw_zone_start s) ++
  le_bytes 8 (raw_zone_blocks s) ++ le_bytes 8 (shadow_zone_start s) ++
  le_bytes 8 (shadow_zone_blocks s) ++ sr_root_ast_hash r ++ le_bytes 4 (sr_sweep_cursor r).
(** Source: core/invarifs.h:186-223 [invfs_superblock] *)
Definition sb_bytes (s : superblock) (r : sb_rest) : bytes :=
  sb_head s r ++ le_bytes 4 (invfs_crc32c (sb_head s r)) ++
  le_bytes 4 (reserved_blocks s) ++ le_bytes 4 (hard_min_blocks s) ++ le_bytes 4 (vol_flags s) ++
  le_bytes 4 (sr_pad2 r) ++ le_bytes 1 (format_version s) ++ sr_pad3 r ++
  le_bytes 4 (meta_reserved_pct s) ++ le_bytes 8 (meta_mapper_pba s) ++
  le_bytes 4 (meta_mapper_blocks s) ++ le_bytes 4 (sr_meta_extent_min r).

(** [io_seek] and [io_write] are one positioned write.
    Source: core/volume.c [vol_write_sb] *)
Definition vol_write_sb : M V unit :=
  let* v := mget in io_pwrite 0 (sb_bytes (vsb v) (v_sb_rest (v_x v))).

(** On a volume of this format ([VOLF_META]); the branch for the retired
    format also asks for [needs_recovery].
    Source: core/volume.c:3205-3222 [vol_write_enabled] *)
Definition vol_write_enabled (v : V) : bool :=
  negb (flag_set (vsb v) VOLF_READONLY) && negb (dev_degraded (v_dev v)) &&
  negb (dev_latched (v_dev v)).

Definition set_sb_state (q : Z) (s : superblock) : superblock :=
  mkSb (sb_uuid s) q (sb_block_size s) (total_blocks s) (metadata_zone_start s)
    (metadata_zone_blocks s) (raw_zone_start s) (raw_zone_blocks s) (shadow_zone_start s)
    (shadow_zone_blocks s) (reserved_blocks s) (hard_min_blocks s) (vol_flags s)
    (format_version s) (meta_reserved_pct s) (meta_mapper_pba s) (meta_mapper_blocks s).

(** Source: core/vol_crash.c [vol_mark_dirty] *)
Definition vol_mark_dirty : M V unit :=
  let* v := mget in
  mguard (vol_write_enabled v) ;;;
  if v_dirty (v_x v) then mret tt
  else
    on_a (fun a => set_sb (set_sb_state INVFS_STATE_DIRTY (sb a)) a) ;;;
    vol_write_sb ;;;
    on_x (set_v_dirty true).

(** ** Retention of staged bytes *)

(** Source: core/vol_delta.c [dl_staged_free] *)
Definition dl_staged_free (x : dlog) : dlog := set_delta_doomed 0%nat (set_delta_staged [] x).

(** Source: core/vol_delta.c:520-565 [dl_staged_keep] *)
Definition dl_staged_keep (off : Z) (rec key : bytes) (x : dlog) : dlog :=
  let prev := match d_index x with Some di => find_ref di key | None => None end in
  set_delta_staged (delta_staged x ++ [mkStaged off (zlen rec) (Some rec) prev]) x.

(** The slot's reference is overwritten in place; the table changes its epoch.
    Source: core/vol_delta.c [dl_doom_entry] *)
Definition dl_doom_entry (e : delta_staged_rec) (x : dlog) : dlog :=
  match st_bytes e, d_index x with
  | Some bs, Some di =>
      if st_len e <? INVFS_DELTA_REC_HDR_LEN then x
      else
        let kl := dl_rd16be bs 0 in
        let vl := dl_rd16be bs 2 in
        let fl := dl_rd16be bs 4 in
        if negb (kl =? 0) && (INVFS_DELTA_REC_HDR_LEN + kl + vl =? st_len e) &&
           (Z.land fl INVFS_DELTA_FLAG_PAD =? 0)
        then
          let key := slice bs INVFS_DELTA_REC_HDR_LEN kl in
          match di_find di key with
          | None => x
          | Some idx =>
              match di_slot di !! idx with
              | Some (Some s) =>
                  let seg := st_off e / INVFS_BLOCK_SIZE in
                  let off := st_off e - seg * INVFS_BLOCK_SIZE in
                  if (r_seg (s_ref s) =? seg) && (r_off (s_ref s) =? off) then
                    match st_prev e with
                    | Some r =>
                        set_d_index (Some (mkDi (<[idx := Some (mkSlot (s_key s) r)]> (di_slot di))
                          (di_used di) (di_inst di) (di_epoch di + 1))) x
                    | None =>
                        let x := set_d_index (Some (di_delete_at di idx)) x in
                        if 0 <? delta_records x then set_delta_records (delta_records x - 1) x else x
                    end
                  else x
              | _ => x
              end
          end
        else x
  | _, _ => x
  end.

(** One turn of the loop: the counters, then the overlay.
    Source: core/vol_delta.c:662-671 [dl_doom_locked] *)
Definition doom_step (x : dlog) (e : delta_staged_rec) : dlog :=
  let x := if 0 <? delta_pending x then set_delta_pending (delta_pending x - 1) x else x in
  let x := set_delta_pending_bytes
             (if st_len e <=? delta_pending_bytes x then delta_pending_bytes x - st_len e else 0) x in
  dl_doom_entry e x.

(** Source: core/vol_delta.c:647-650 [dl_doom_entry] *)
Definition drop_bytes (e : delta_staged_rec) : delta_staged_rec :=
  mkStaged (st_off e) (st_len e) None (st_prev e).

(** Newest first; the entries keep their span and lose their bytes.
    Source: core/vol_delta.c [dl_doom_locked] *)
Definition dl_doom_locked (x : dlog) : dlog :=
  let live := drop (delta_doomed x) (delta_staged x) in
  let x' := foldl doom_step x (rev live) in
  set_delta_rewrite_needed true
    (set_delta_doomed (length (delta_staged x))
      (set_delta_staged (take (delta_doomed x) (delta_staged x) ++ map drop_bytes live) x')).

(** Source: core/vol_delta.c [vol_delta_doom] *)
Definition vol_delta_doom : M V unit := on_x dl_doom_locked.

(** Source: core/vol_delta.c:1027-1044 [dl_pad_span] *)
Definition dl_pad_span (off len : Z) : M V unit :=
  mguard (INVFS_DELTA_REC_HDR_LEN + 1 <=? len) ;;;
  let pad := vol_delta_pad_build len in
  mguard (zlen pad =? len) ;;;
  io_pwrite off pad.

(** Source: core/vol_delta.c:1053-1056 [dl_staged_heal] *)
Fixpoint pad_spans (es : list delta_staged_rec) : M V unit :=
  match es with
  | [] => mret tt
  | e :: es => let* _ := mtry (dl_pad_span (st_off e) (st_len e)) in pad_spans es
  end.

(** Stops at the first failed write.
    Source: core/vol_delta.c:1057-1064 [dl_staged_heal] *)
Fixpoint rewrite_spans (es : list delta_staged_rec) : M V unit :=
  match es with
  | [] => mret tt
  | e :: es =>
      match st_bytes e with
      | None => rewrite_spans es
      | Some bs =>
          let* r := mtry (io_pwrite (st_off e) bs) in
          match r with Some _ => rewrite_spans es | None => mret tt end
      end
  end.

(** Source: core/vol_delta.c:1046-1065 [dl_staged_heal] *)
Definition dl_staged_heal : M V unit :=
  let* v := mget in
  let n := delta_doomed (v_x v) in
  pad_spans (take n (delta_staged (v_x v))) ;;;
  rewrite_spans (drop n (delta_staged (v_x v))).

(** Source: core/vol_delta.c:1306-1307 [vol_delta_append] *)
Definition heal_if_needed : M V unit :=
  let* v := mget in
  if delta_rewrite_needed (v_x v) && negb (zlen (delta_staged (v_x v)) =? 0)
  then dl_staged_heal else mret tt.

(** Called with the lock free: the [trylock] succeeds.
    Source: core/vol_delta.c [vol_delta_heal] *)
Definition vol_delta_heal : M V unit := heal_if_needed.

(** Called inside a delta operation, which holds the lock: the [trylock]
    fails and nothing happens.
    Source: core/vol_delta.c:1074-1093 [vol_delta_heal] *)
Definition heal_locked : M V unit := mret tt.

(** ** Retired content *)

Definition zero_addr (a : bytes) : bool := bool_decide (a = zeros 32).

(** Source: core/vol_delta.c [dl_retire_span] *)
Definition dl_retire_span (x : dlog) (key : bytes) : option delta_ref :=
  match d_index x with Some di => find_ref di key | None => None end.

(** Source: core/vol_delta.c [dl_retire_rebase] *)
Definition dl_retire_rebase (key : bytes) (seg off seq : Z) (x : dlog) : dlog :=
  set_delta_retire
    (map (fun o => if rt_del o || negb (bool_decide (rt_key o = key)) then o
                   else mkRetire (rt_key o) (rt_del o) seg off seq (rt_recipe o) (rt_pbas o) (rt_keep o))
       (delta_retire x)) x.

(** Source: core/vol_delta.c [dl_retire_push] *)
Definition dl_retire_push (e : delta_retire_ent) (x : dlog) : dlog :=
  if VOL_DELTA_RETIRE_MAX <=? zlen (delta_retire x)
  then set_delta_retire_dropped (delta_retire_dropped x + 1) x
  else
    let x := if negb (rt_del e) &&
                (negb (rt_seg e =? 0) || negb (rt_off e =? 0) || negb (rt_rseq e =? 0))
             then dl_retire_rebase (rt_key e) (rt_seg e) (rt_off e) (rt_rseq e) x else x in
    set_delta_retire (delta_retire x ++ [e]) x.

Definition span_of (o : option delta_ref) : Z * Z * Z :=
  match o with Some r => (r_seg r, r_off r, r_seq r) | None => (0, 0, 0) end.

(** Source: core/vol_delta.c [vol_retire_recipe] *)
Definition vol_retire_recipe (inode_id : Z) (addr : bytes) (del : bool) (x : dlog) : dlog :=
  if zero_addr addr then x
  else
    let key := ino_key inode_id in
    let '(seg, off, seq) := span_of (dl_retire_span x key) in
    dl_retire_push (mkRetire key del seg off seq (Some addr) [] []) x.

(** Source: core/vol_delta.c [vol_retire_pbas] *)
Definition vol_retire_pbas (inode_id : Z) (pbas keep : list Z) (x : dlog) : dlog :=
  match pbas with
  | [] => x
  | _ =>
      let key := ino_key inode_id in
      let '(seg, off, seq) := span_of (dl_retire_span x key) in
      dl_retire_push (mkRetire key false seg off seq None pbas keep) x
  end.

(** Is the mutation that retired the entry still the live one?
    Source: core/vol_delta.c:873-909 [dl_retire_collect] *)
Definition still_live (x : dlog) (e : delta_retire_ent) : bool :=
  match dl_retire_span x (rt_key e) with
  | None => false
  | Some s =>
      let same := (r_seg s =? rt_seg e) && (r_off s =? rt_off e) && (r_seq s =? rt_rseq e) in
      if rt_del e then
        negb (Z.land (r_flags s) INVFS_DELTA_FLAG_DELETE =? 0) &&
        (((rt_seg e =? 0) && (rt_off e =? 0) && (rt_rseq e =? 0)) || same)
      else same
  end.

(** The entries to free; the list is emptied.
    Source: core/vol_delta.c [dl_retire_collect] *)
Definition dl_retire_collect (x : dlog) : list delta_retire_ent * dlog :=
  (List.filter (still_live x) (delta_retire x), set_delta_retire [] x).

(** The blocks of one entry, [seen] being those before this one.
    Source: core/vol_delta.c:949-973 [dl_retire_free_list] *)
Fixpoint free_pbas (keep seen pbas : list Z) : M V unit :=
  match pbas with
  | [] => mret tt
  | pba :: pbas =>
      (if (pba =? 0) || existsb (Z.eqb pba) seen || existsb (Z.eqb pba) keep then mret tt
       else
         let* n := rc_ref_count RC pba in
         if negb (n =? 0) then mret tt
         else
           let* plen := mtry (rc_seg_extent RC pba) in
           match plen with
           | Some plen => if 0 <? plen then on_a (vol_free_blocks pba plen) else mret tt
           | None => mret tt
           end) ;;;
      free_pbas keep (pba :: seen) pbas
  end.

(** Source: core/vol_delta.c:942-976 [dl_retire_free_list] *)
Fixpoint free_entries (es : list delta_retire_ent) : M V unit :=
  match es with
  | [] => mret tt
  | e :: es =>
      (match rt_recipe e with
       | Some addr => let* _ := mtry (rc_free_recipe RC addr) in mret tt
       | None => free_pbas (rt_keep e) [] (rt_pbas e)
       end) ;;;
      free_entries es
  end.

(** Source: core/vol_delta.c [dl_retire_free_list] *)
Definition dl_retire_free_list (es : list delta_retire_ent) : M V unit :=
  (if existsb (fun e => negb (zlen (rt_pbas e) =? 0)) es then rc_ref_rebuild RC else mret tt) ;;;
  free_entries es.

(** Source: core/vol_delta.c [vol_retire_drain_all] *)
Definition vol_retire_drain_all : M V unit :=
  let* v := mget in
  let '(rd, x) := dl_retire_collect (v_x v) in
  on_x (fun _ => x) ;;;
  dl_retire_free_list rd.

(** ** Segments *)

(** Source: core/vol_delta.c [delta_read_hdr] *)
Definition delta_read_hdr (pba : Z) : M V invfs_delta_seg_hdr :=
  let* v := mget in
  mguard (negb ((pba =? 0) || (total_blocks (vsb v) <=? pba))) ;;;
  let* raw := io_pread (pba * INVFS_BLOCK_SIZE) INVFS_DELTA_SEG_HDR_LEN in
  match delta_hdr_decode raw with
  | Some h => mret h
  | None => mfail
  end.

(** A barrier whose refusal fails the call. *)
Definition fence_ok (b : barrier_rc) : bool := match b with BarFail => false | _ => true end.

(** Source: core/vol_delta.c [delta_new_segment] *)
Definition delta_new_segment (prev : Z) : M V Z :=
  let* v := mget in
  let* pba := on_alloc (alloc_blocks (shadow_zone_start (vsb v)) (shadow_zone_blocks (vsb v))
                          INVFS_DELTA_SEG_BLOCKS false AllocMeta) in
  on_x (fun x => set_delta_seg_gen (u64 (delta_seg_gen x + 1)) x) ;;;
  let* v := mget in
  let seg := delta_hdr_encode (delta_seg_gen (v_x v)) prev ++
             zeros (INVFS_DELTA_SEG_BYTES - INVFS_DELTA_SEG_HDR_LEN) in
  let* w := mtry (io_pwrite (pba * INVFS_BLOCK_SIZE) seg) in
  match w with
  | None => on_a (vol_free_blocks pba INVFS_DELTA_SEG_BLOCKS) ;;; mfail
  | Some _ =>
      let* b := vol_barrier in
      if fence_ok b then mret pba else on_x dl_doom_locked ;;; mfail
  end.

Definition set_rt_delta (pba : Z) (r : invfs_rt) : invfs_rt :=
  mkRt (rt_magic r) (rt_version r) (rt_page_size r) (root_slot0 r) (root_slot1 r) pba
    (rt_seq r) (rt_crc32c r).

(** The group is closed: everything staged is behind a fence.
    Source: core/vol_delta.c:1331-1334 [vol_delta_append] *)
Definition group_closed (x : dlog) : dlog :=
  set_delta_rewrite_needed false
    (set_delta_pending_bytes 0 (set_delta_pending 0 (dl_staged_free x))).

(** The rollover of an append: a new head segment, named by RT30.
    Source: core/vol_delta.c:1208-1256 [vol_delta_append] *)
Definition delta_rollover : M V unit :=
  let* v := mget in
  let old := delta_seg_pba (v_x v) in
  let* pba := delta_new_segment old in
  mmod (fun v => set_rt (set_rt_delta pba (rt v)) v) ;;;
  mmod (fun v => if rt_present v then v
                 else set_rt_present true (set_rt (set_rt_delta pba rt_fresh) v)) ;;;
  let rollback := mmod (fun v => set_rt (set_rt_delta old (rt v)) v) ;;; on_x dl_doom_locked in
  let* w := mtry (mbuf_rt30_store heal_locked) in
  match w with
  | None => rollback ;;; mfail
  | Some _ =>
      let* b := vol_barrier in
      if negb (fence_ok b) then rollback ;;; mfail
      else
        on_x (fun x =>
          let x := group_closed x in
          set_delta_ready true (set_delta_bump INVFS_DELTA_SEG_HDR_LEN
            (set_delta_seg_pba pba (set_delta_segments (delta_segments x + 1) x))))
  end.

(** ** Mount *)

(** Blocks of a replayed segment that the bitmap does not carry yet.
    Source: core/vol_delta.c [dl_reserve_segment] *)
Definition reserve_block (live : bool) (a : avol) (b : Z) : avol :=
  if bit_get (bitmap a) b then a
  else
    let a := set_bitmap (bit_set (bitmap a) b) a in
    let a := match meta_type_bitmap a with
             | Some m => set_meta_type_bitmap (Some (bit_set m b)) a
             | None => a
             end in
    let a := vol_bm_dirty b a in
    if live then
      let a := if free_blocks a =? 0 then a else set_free_blocks (free_blocks a - 1) a in
      let debit z a :=
        let zn := get_zone z a in
        if z_free zn =? 0 then a else set_zone z (mkZone (z_cursor zn) (z_free zn - 1) (z_fail_run zn)) a in
      if shadow_zone_start (sb a) <=? b then debit ZShadow a
      else if raw_zone_start (sb a) <=? b then debit ZRaw a
      else a
    else a.

(** Source: core/vol_delta.c [dl_reserve_segment] *)
Definition dl_reserve_segment (pba : Z) (a : avol) : avol :=
  let live := negb (z_cursor (shadow_z a) =? 0) || negb (z_cursor (raw_z a) =? 0) in
  if total_blocks (sb a) <=? pba then a
  else
    let end_ := Z.min (pba + INVFS_DELTA_SEG_BLOCKS) (total_blocks (sb a)) in
    foldl (reserve_block live) a (seqZ pba (end_ - pba)).

(** The payload loop of a replay: index every record that is not a pad.
    [off] is the payload offset, [n] the records accepted.
    Source: core/vol_delta.c:1945-1980 [delta_replay_segment] *)
Fixpoint replay_loop (pba : Z) (buf : bytes) (fuel : nat) (off n : Z) (x : dlog)
    : Z * Z * bool * dlog :=
  match fuel with
  | O => (off, n, false, x)
  | S fuel =>
      if negb (off <? zlen buf) then (off, n, false, x)
      else
        match vol_delta_rec_parse buf off with
        | PEnd => (off, n, false, x)
        | PBad => (off, n, true, x)
        | POk kl vl fl rl =>
            if negb (Z.land fl INVFS_DELTA_FLAG_PAD =? 0)
            then replay_loop pba buf fuel (off + rl) n x
            else
              let key := slice buf (off + INVFS_DELTA_REC_HDR_LEN) kl in
              let seq := u64 (delta_seq x + 1) in
              let x := set_delta_seq seq x in
              let x :=
                match d_index x with
                | Some di =>
                    let '(di, inserted) :=
                      di_put di key (mkRef pba (INVFS_DELTA_SEG_HDR_LEN + off) seq fl vl) in
                    let x := set_d_index (Some di) x in
                    if inserted then set_delta_records (delta_records x + 1) x else x
                | None => x
                end in
              replay_loop pba buf fuel (off + rl) (n + 1) x
        end
  end.

(** The end of the valid records, the records accepted and whether the tail
    was torn; the loop's [last] is its [off].
    Source: core/vol_delta.c [delta_replay_segment] *)
Definition delta_replay_segment (pba : Z) : M V (Z * Z * bool) :=
  let* buf := io_pread (pba * INVFS_BLOCK_SIZE) INVFS_DELTA_SEG_BYTES in
  let payload := drop (Z.to_nat INVFS_DELTA_SEG_HDR_LEN) buf in
  let* v := mget in
  let '(valid_end, n, torn, x) := replay_loop pba payload (length payload) 0 0 (v_x v) in
  on_x (fun _ => x) ;;;
  mret (valid_end, n, torn).

(** Source: core/vol_delta.c [vol_delta_close] *)
Definition vol_delta_close (x : dlog) : dlog :=
  let x := set_d_index None x in
  let x := set_delta_seg_pba 0 (set_delta_bump 0 (set_delta_ready false x)) in
  let x := set_delta_records 0 (set_delta_segments 0 (set_delta_bytes 0 x)) in
  let x := set_delta_seq 0 (set_delta_seg_gen 0 x) in
  let x := set_delta_oldest_seq 0 (set_delta_oldest_when 0 x) in
  let x := set_delta_pending 0 (set_delta_pending_bytes 0 x) in
  let x := set_delta_group_max 0 (set_delta_group_bytes 0 x) in
  set_delta_retire [] (set_delta_rewrite_needed false (dl_staged_free x)).

(** The chain from [cur] back, newest first; a header that does not decode
    ends the walk, and so does a segment that names itself.
    Source: core/vol_delta.c:2034-2056 [vol_delta_mount] *)
Fixpoint chain_walk (fuel : nat) (cur : Z) (chain : list Z) : M V (list Z) :=
  match fuel with
  | O => mret chain
  | S fuel =>
      if cur =? 0 then mret chain
      else
        let* h := mtry (delta_read_hdr cur) in
        match h with
        | None => mret chain
        | Some h =>
            on_a (dl_reserve_segment cur) ;;;
            let chain := chain ++ [cur] in
            if prev_pba h =? cur then mret chain else chain_walk fuel (prev_pba h) chain
        end
  end.

(** One segment of the replay; the newest one becomes the head.
    Source: core/vol_delta.c:2061-2083 [vol_delta_mount] *)
Definition replay_one (newest : bool) (pba : Z) : M V unit :=
  let* h := mtry (delta_read_hdr pba) in
  match h with
  | None => mret tt
  | Some h =>
      let* r := delta_replay_segment pba in
      let '(valid_end, _, _) := r in
      on_x (fun x =>
        let x := set_delta_bytes (delta_bytes x + valid_end) x in
        let x := if delta_seg_gen x <? seg_seq h then set_delta_seg_gen (seg_seq h) x else x in
        if newest
        then set_delta_bump (INVFS_DELTA_SEG_HDR_LEN + valid_end) (set_delta_seg_pba pba x) else x)
  end.

(** Oldest first.
    Source: core/vol_delta.c:2061-2084 [vol_delta_mount] *)
Fixpoint replay_chain (chain : list Z) : M V unit :=
  match chain with
  | [] => mret tt
  | pba :: rest => replay_one (match rest with [] => true | _ => false end) pba ;;; replay_chain rest
  end.

(** The reset that opens a mount.
    Source: core/vol_delta.c:1999-2013 [vol_delta_mount] *)
Definition mount_reset (x : dlog) : dlog :=
  let x := vol_delta_close x in
  let x := set_d_index (Some (di_new (g_index_inst x))) x in
  dl_group_parse E (set_g_index_inst (g_index_inst x + 1) x).

(** Source: core/vol_delta.c [vol_delta_mount] *)
Definition vol_delta_mount : M V unit :=
  on_x mount_reset ;;;
  let* v := mget in
  if negb (rt_present v) || (delta_pba (rt v) =? 0) then on_x (set_delta_ready true)
  else if total_blocks (vsb v) <=? delta_pba (rt v) then on_x (set_delta_ready true)
  else
    let* chain := chain_walk DELTA_MAX_SEGMENTS (delta_pba (rt v)) [] in
    let* r := mtry (replay_chain (rev chain)) in
    match r with
    | None => on_x (fun x => set_delta_ready false (set_d_index None x)) ;;; mfail
    | Some _ =>
        on_x (fun x =>
          let x := set_delta_ready true (set_delta_segments (zlen chain) x) in
          if 0 <? delta_seq x then set_delta_oldest_when (pe_now E) (set_delta_oldest_seq 1 x) else x)
    end.

(** ** Append *)

(** The bookkeeping of a record that is in the log and in the index.
    Source: core/vol_delta.c:1341-1375 [vol_delta_append] *)
Definition append_index (key : bytes) (rl flags vlen : Z) (x : dlog) : dlog :=
  let seq := u64 (delta_seq x + 1) in
  let x := set_delta_seq seq x in
  let '(di, inserted) :=
    match d_index x with
    | Some di =>
        let '(di, ins) := di_put di key (mkRef (delta_seg_pba x) (delta_bump x) seq flags vlen) in
        (Some di, ins)
    | None => (None, false)
    end in
  let x := set_d_index di x in
  let x := if delta_oldest_seq x =? 0
           then set_delta_oldest_when (pe_now E) (set_delta_oldest_seq seq x) else x in
  let x := set_delta_bump (delta_bump x + rl) (set_delta_bytes (delta_bytes x + rl) x) in
  if inserted then set_delta_records (delta_records x + 1) x else x.

(** Does the staged group reach one of its caps?
    Source: core/vol_delta.c:1303-1305 [vol_delta_append] *)
Definition group_full (x : dlog) : bool :=
  (delta_group_max x =? 0) || (delta_group_bytes x =? 0) ||
  (delta_group_max x <=? delta_pending x) || (delta_group_bytes x <=? delta_pending_bytes x).

(** The fence that closes a full group, answering the retired entries to
    free.  A refused fence consumes the record's span and dooms the group.
    Source: core/vol_delta.c:1306-1338 [vol_delta_append] *)
Definition close_group (rl : Z) : M V (list delta_retire_ent) :=
  heal_if_needed ;;;
  let* b := vol_barrier in
  if negb (fence_ok b) then
    on_x (fun x => dl_doom_locked
                     (set_delta_bytes (delta_bytes x + rl) (set_delta_bump (delta_bump x + rl) x))) ;;;
    mfail
  else
    let* v := mget in
    let '(rd, x) := dl_retire_collect (group_closed (v_x v)) in
    on_x (fun _ => x) ;;;
    mret rd.

(** Source: core/vol_delta.c:1257-1380 [vol_delta_append] *)
Definition delta_stage (key val : bytes) (flags : Z) : M V unit :=
  let rl := INVFS_DELTA_REC_HDR_LEN + zlen key + zlen val in
  let rec := rec_bytes (mkLrec flags key val) in
  let* v := mget in
  let abs := delta_seg_pba (v_x v) * INVFS_BLOCK_SIZE + delta_bump (v_x v) in
  let* w := mtry (io_pwrite abs rec) in
  match w with
  | None => on_x dl_doom_locked ;;; mfail
  | Some _ =>
      on_x (dl_staged_keep abs rec key) ;;;
      on_x (fun x => set_delta_pending_bytes (delta_pending_bytes x + rl)
                       (set_delta_pending (delta_pending x + 1) x)) ;;;
      let* v := mget in
      let* rd := if group_full (v_x v) then close_group rl else mret [] in
      on_x (append_index key rl flags (zlen val)) ;;;
      dl_retire_free_list rd
  end.

(** Source: core/vol_delta.c:1173-1208 [vol_delta_append] *)
Definition vol_delta_append (key val : bytes) (flags : Z) : M V unit :=
  mguard (negb (zlen key =? 0)) ;;;
  mguard (Z.land flags (u16 (Z.lnot INVFS_DELTA_FLAG_DELETE)) =? 0) ;;;
  mguard (negb (negb (Z.land flags INVFS_DELTA_FLAG_DELETE =? 0) && negb (zlen val =? 0))) ;;;
  let* v := mget in
  mguard (negb (flag_set (vsb v) VOLF_READONLY)) ;;;
  (if delta_ready (v_x v) then mret tt else vol_delta_mount) ;;;
  vol_mark_dirty ;;;
  let rl := INVFS_DELTA_REC_HDR_LEN + zlen key + zlen val in
  mguard (rl <=? INVFS_DELTA_SEG_BYTES - INVFS_DELTA_SEG_HDR_LEN) ;;;
  let* v := mget in
  (if (delta_seg_pba (v_x v) =? 0) || (INVFS_DELTA_SEG_BYTES <? delta_bump (v_x v) + rl)
   then delta_rollover else mret tt) ;;;
  delta_stage key val flags.

(** The barrier's answer is the call's: only 0 closes the group.
    Source: core/vol_delta.c [vol_delta_drain] *)
Definition vol_delta_drain : M V barrier_rc :=
  let* v := mget in
  let x := v_x v in
  let collect :=
    let* v := mget in
    let '(rd, x) := dl_retire_collect (v_x v) in
    on_x (fun _ => x) ;;;
    dl_retire_free_list rd ;;;
    mret BarOk in
  if negb (delta_ready x) then mret BarOk
  else if (delta_pending x =? 0) && (zlen (delta_staged x) =? 0) then
    on_x (set_delta_rewrite_needed false) ;;; collect
  else
    heal_if_needed ;;;
    let* b := vol_barrier in
    match b with
    | BarOk => on_x group_closed ;;; collect
    | _ => on_x dl_doom_locked ;;; mret b
    end.

(** ** Lookup *)

(** Source: core/vol_delta.c [vol_delta_pending] *)
Definition vol_delta_pending (v : V) : Z := delta_pending (v_x v).

(** Source: core/vol_delta.c [vol_delta_lookup] *)
Definition vol_delta_lookup (key : bytes) (v : V) : option delta_ref :=
  match d_index (v_x v) with Some di => find_ref di key | None => None end.

Definition DL_ONEPREAD_VMAX : Z := 1024.

(** [klen] of 0 means that the caller does not know it.
    Source: core/vol_delta.c [delta_read_value_locked] *)
Definition delta_read_value_locked (r : delta_ref) (klen : Z) : M V bytes :=
  let at_ := r_seg r * INVFS_BLOCK_SIZE + r_off r in
  if r_vlen r =? 0 then mret []
  else if negb (klen =? 0) && (klen <=? 256) && (r_vlen r <=? DL_ONEPREAD_VMAX) then
    let* buf := io_pread at_ (INVFS_DELTA_REC_HDR_LEN + klen + r_vlen r) in
    mguard ((dl_rd16be buf 0 =? klen) && (dl_rd16be buf 2 =? r_vlen r)) ;;;
    mret (slice buf (INVFS_DELTA_REC_HDR_LEN + klen) (r_vlen r))
  else
    let* hdr := io_pread at_ INVFS_DELTA_REC_HDR_LEN in
    let kl := dl_rd16be hdr 0 in
    io_pread (at_ + INVFS_DELTA_REC_HDR_LEN + kl) (r_vlen r).

(** The answers 0, -1, -2 with the length, and 1 with flags and value. *)
Inductive lookup_res := LMiss | LErr | LShort (flags vlen : Z) | LFound (flags : Z) (val : bytes).

(** Source: core/vol_delta.c [vol_delta_lookup_value] *)
Definition vol_delta_lookup_value (key : bytes) (cap : Z) : M V lookup_res :=
  if zlen key =? 0 then mret LErr
  else
    let* v := mget in
    match vol_delta_lookup key v with
    | None => mret LMiss
    | Some r =>
        if r_vlen r =? 0 then mret (LFound (r_flags r) [])
        else if cap <? r_vlen r then mret (LShort (r_flags r) (r_vlen r))
        else
          let* b := mtry (delta_read_value_locked r (zlen key)) in
          mret (match b with Some bs => LFound (r_flags r) bs | None => LErr end)
    end.

(** Source: core/vol_delta.c [vol_delta_read_value] *)
Definition vol_delta_read_value (r : delta_ref) (cap : Z) : M V bytes :=
  if r_vlen r =? 0 then mret []
  else
    mguard (negb (cap <? r_vlen r)) ;;;
    delta_read_value_locked r 0.

(** Source: core/vol_delta.c [vol_delta_count] *)
Definition vol_delta_count (v : V) : Z :=
  match d_index (v_x v) with Some di => di_used di | None => 0 end.

(** Source: core/vol_delta.c [vol_delta_stats] *)
Definition vol_delta_stats (v : V) : Z * Z * Z :=
  (delta_records (v_x v), delta_segments (v_x v), delta_bytes (v_x v)).

(** The callback has a context; it answers 0 to go on, and the first other
    answer ends the walk.
    Source: core/vol_delta.c:1651-1666 [vol_delta_iter] *)
Fixpoint iter_slots {C : Type} (cb : C -> bytes -> delta_ref -> M V (Z * C))
    (l : list (option delta_slot)) (c : C) : M V (Z * C) :=
  match l with
  | [] => mret (0, c)
  | None :: l => iter_slots cb l c
  | Some s :: l =>
      let* rc := cb c (s_key s) (s_ref s) in
      if negb (fst rc =? 0) then mret rc else iter_slots cb l (snd rc)
  end.
(** Source: core/vol_delta.c:1641-1667 [vol_delta_iter] *)
Definition vol_delta_iter {C : Type} (cb : C -> bytes -> delta_ref -> M V (Z * C)) (c : C) : M V (Z * C) :=
  let* v := mget in
  match d_index (v_x v) with
  | None => mret (0, c)
  | Some di => iter_slots cb (di_slot di) c
  end.

(** ** Truncation for a save-point rollback *)

(** Source: core/vol_delta.c [delta_head_bump] *)
Definition delta_head_bump (delta_end segs : Z) : Z :=
  let hb := if 1 <? segs then u64 (delta_end - (segs - 1) * INVFS_DELTA_SEG_BYTES) else delta_end in
  if hb <? INVFS_DELTA_SEG_HDR_LEN then INVFS_DELTA_SEG_HDR_LEN else hb.

(** Source: core/vol_delta.c:2160-2164 [delta_cut_to] *)
Fixpoint free_newer (newer : list Z) : M V unit :=
  match newer with
  | [] => mret tt
  | p :: newer =>
      let* h := mtry (delta_read_hdr p) in
      match h with
      | Some _ => on_a (vol_free_blocks p INVFS_DELTA_SEG_BLOCKS)
      | None => mret tt
      end ;;;
      free_newer newer
  end.

(** The answer is the last barrier's.  The cut is within the segment: a
    larger [trunc_off] clears memory behind the buffer.
    Source: core/vol_delta.c [delta_cut_to] *)
Definition delta_cut_to (seg_pba trunc_off : Z) (newer : list Z) : M V barrier_rc :=
  let trunc_off := if trunc_off <? INVFS_DELTA_SEG_HDR_LEN then INVFS_DELTA_SEG_HDR_LEN else trunc_off in
  let* h := delta_read_hdr seg_pba in
  let* buf := io_pread (seg_pba * INVFS_BLOCK_SIZE) INVFS_DELTA_SEG_BYTES in
  let buf := put buf trunc_off (zeros (INVFS_DELTA_SEG_BYTES - trunc_off)) in
  let buf := put buf 0 (delta_hdr_encode (seg_seq h) (prev_pba h)) in
  io_pwrite (seg_pba * INVFS_BLOCK_SIZE) buf ;;;
  mmod (fun v => set_rt (set_rt_delta seg_pba (rt v)) v) ;;;
  mbuf_rt30_store vol_delta_heal ;;;
  on_x (fun x => set_delta_bump trunc_off (set_delta_seg_pba seg_pba x)) ;;;
  free_newer newer ;;;
  vol_barrier.

(** The chain from [cur] back, newest first.
    Source: core/vol_delta.c:2209-2226 [vol_delta_truncate] *)
Fixpoint chain_list (fuel : nat) (cur : Z) (chain : list Z) : M V (list Z) :=
  match fuel with
  | O => mret chain
  | S fuel =>
      if cur =? 0 then mret chain
      else
        let* h := mtry (delta_read_hdr cur) in
        match h with
        | None => mret chain
        | Some h =>
            let chain := chain ++ [cur] in
            if prev_pba h =? cur then mret chain else chain_list fuel (prev_pba h) chain
        end
  end.

(** The first segment, from the head back, whose bytes pass [delta_end]: its
    position and the bytes counted before it; or the bytes of all.
    Source: core/vol_delta.c:2301-2324 [vol_delta_truncate] *)
Fixpoint cut_point (delta_end offset : Z) (i : nat) (sizes : list Z) : (nat * Z) + Z :=
  match sizes with
  | [] => inr offset
  | n :: sizes =>
      if delta_end <? offset + n then inl (i, offset) else cut_point delta_end (offset + n) (S i) sizes
  end.

(** Position of the first segment at [pba].
    Source: core/vol_delta.c:2255-2257 [vol_delta_truncate] *)
Fixpoint position (pba : Z) (l : list Z) : option nat :=
  match l with
  | [] => None
  | p :: l => if p =? pba then Some O else option_map S (position pba l)
  end.

(** By byte count, for a handle that does not know the captured head.
    Source: core/vol_delta.c:2281-2367 [vol_delta_truncate] *)
Definition truncate_count (delta_end : Z) (chain : list Z) : M V barrier_rc :=
  let* v := mget in
  let sizes := delta_bump (v_x v) :: replicate (length chain - 1) INVFS_DELTA_SEG_BYTES in
  match cut_point delta_end 0 0 sizes with
  | inl (i, offset) => delta_cut_to (nth i chain 0) (delta_end - offset) (take i chain)
  | inr offset =>
      if offset <? delta_end then
        let last := nth 0 chain 0 in
        let* h := delta_read_hdr last in
        let bump := if prev_pba h =? last then INVFS_DELTA_SEG_HDR_LEN
                    else u64 (delta_end - offset + INVFS_DELTA_SEG_HDR_LEN) in
        on_x (fun x => set_delta_bump (Z.min bump INVFS_DELTA_SEG_BYTES) (set_delta_seg_pba last x)) ;;;
        free_newer (rev (drop 1 chain)) ;;;
        let* b := vol_barrier in
        if fence_ok b then mret BarOk else mfail
      else mret BarOk
  end.

(** Source: core/vol_delta.c:2186-2372 [vol_delta_truncate] *)
Definition vol_delta_truncate (delta_end : Z) : M V barrier_rc :=
  let delta_end := if delta_end =? 0 then INVFS_DELTA_SEG_HDR_LEN else delta_end in
  let* v := mget in
  let x := v_x v in
  if delta_seg_pba x =? 0 then mret BarOk
  else
    let* chain := chain_list DELTA_MAX_SEGMENTS (delta_seg_pba x) [] in
    match chain with
    | [] => mret BarOk
    | _ =>
        match (if spn_delta_head x =? 0 then None else position (spn_delta_head x) chain) with
        | Some hi =>
            delta_cut_to (nth hi chain 0) (delta_head_bump delta_end (spn_delta_segs x)) (take hi chain)
        | None => truncate_count delta_end chain
        end
    end.

End delta.
End Delta.
