(* ===== verification/DeltaLog.v ===== *)
(** * The delta log as a map of records

    What a chain of segments on the storage stands for, and total-correctness
    rules for the delta operations on a storage without pending faults: every
    rule shows that the operation answers and what it leaves behind. *)

From S2P Require Import Prelude Crc32c Dev Alloc Volume Anchor Page Metabuf Keys Kv DeltaIndex DeltaRec Delta.

Module DeltaLog.
Import Crc32c Alloc Volume Anchor Page Metabuf Keys Kv DeltaIndex DeltaRec Delta.

(** ** Total runs *)

Section total.
Context {S : Type}.

Definition tot {A} (m : M S A) (s : S) (Q : A -> S -> Prop) : Prop :=
  exists a s', m s = (Some a, s') /\ Q a s'.

Lemma tot_mono {A} (m : M S A) s (P Q : A -> S -> Prop) :
  tot m s P -> (forall a s', P a s' -> Q a s') -> tot m s Q.
Proof. intros (a & s' & E & H) HQ. exists a, s'. auto. Qed.

Lemma tot_bind {A B} (m : M S A) (k : A -> M S B) s Q :
  tot m s (fun a s' => tot (k a) s' Q) -> tot (mbind' m k) s Q.
Proof.
  intros (a & s1 & E & b & s2 & E2 & H). exists b, s2. split; [|done]. by rewrite (mbind_eq _ _ _ _ _ E).
Qed.

Lemma tot_ret {A} (a : A) s (Q : A -> S -> Prop) : Q a s -> tot (mret a) s Q.
Proof. intros. by exists a, s. Qed.
Lemma tot_get s (Q : S -> S -> Prop) : Q s s -> tot mget s Q.
Proof. intros. by exists s, s. Qed.
Lemma tot_mod f s (Q : unit -> S -> Prop) : Q tt (f s) -> tot (mmod f) s Q.
Proof. intros. by exists tt, (f s). Qed.
Lemma tot_guard (b : bool) s (Q : unit -> S -> Prop) : b = true -> Q tt s -> tot (mguard b) s Q.
Proof. intros ->. by exists tt, s. Qed.
Lemma tot_try {A} (m : M S A) s (Q : option A -> S -> Prop) :
  tot m s (fun a => Q (Some a)) -> tot (mtry m) s Q.
Proof. intros (a & s' & E & H). exists (Some a), s'. unfold mtry. by rewrite E. Qed.

Lemma tot_if {A} (b : bool) (m1 m2 : M S A) s Q :
  (b = true -> tot m1 s Q) -> (b = false -> tot m2 s Q) -> tot (if b then m1 else m2) s Q.
Proof. destruct b; auto. Qed.
End total.

(** ** The storage *)

Section store.
Context {D : Type} `{!Dev D, !DevLaws D}.
Abbreviation V := (vol D dlog).
Implicit Types v : V.

(** No pending faults. *)
Definition faultless v : Prop := dquiet (v_dev v).

(** The storage stays quiet and grants what it granted. *)
Record steady v v' : Prop := {
  sy_quiet : faultless v';
  sy_cap : dcap (v_dev v') = dcap (v_dev v);
  sy_ok : forall o m, dok (v_dev v') o m <-> dok (v_dev v) o m
}.

Lemma steady_refl v : faultless v -> steady v v.
Proof. done. Qed.
Lemma steady_trans v1 v2 v3 : steady v1 v2 -> steady v2 v3 -> steady v1 v3.
Proof. intros [? ? H1] [? ? H2]. split; [done|congruence|]. intros. by rewrite H2, H1. Qed.

(** Steadiness is about the storage only. *)
Lemma steady_dev v1 v2 v : v_dev v1 = v_dev v2 -> steady v v1 -> steady v v2.
Proof. intros E [? ? ?]. by split; unfold faultless; rewrite <- E. Qed.

Lemma faultless_wf v : faultless v -> dwf (v_dev v) /\ latched v = false.
Proof. apply dquiet_wf. Qed.

(** The engine may touch the range, and it exists. *)
Definition may v (off n : Z) : Prop :=
  0 <= off /\ 0 <= n /\ off + n <= dcap (v_dev v) /\ dok (v_dev v) off n.

Lemma may_steady v v' off n : steady v v' -> may v off n -> may v' off n.
Proof. intros [_ Hc Ho] (? & ? & ? & ?). split_and!; [done|done|by rewrite Hc|by apply Ho]. Qed.

Lemma tot_pread off n v (Q : bytes -> V -> Prop) :
  faultless v -> may v off n ->
  (forall d, let v' := set_v_dev d v in
     steady v v' -> (forall a, view v' a = view v a) -> Q (vrange v off n) v') ->
  tot (io_pread off n) v Q.
Proof.
  intros Hq (Ho & Hn & Hc & Hk) HQ. destruct (dev_pread_live off n (v_dev v)) as (bs & d & E & Hq' & Hc');
    [done..|]. destruct (faultless_wf v Hq) as [Hw Hl].
  pose proof (dev_pread_law _ _ _ _ _ Hw Ho Hn Hk Hl E) as (_ & Hok & _ & Hv & Hb).
  exists bs, (set_v_dev d v). unfold io_pread, on_dev. rewrite E. split; [done|].
  rewrite (Hb bs eq_refl). by apply HQ.
Qed.

Lemma tot_pwrite off bs v (Q : unit -> V -> Prop) :
  faultless v -> may v off (zlen bs) ->
  (forall d, let v' := set_v_dev d v in
     steady v v' -> (forall a, ~ (off <= a < off + zlen bs) -> view v' a = view v a) ->
     vrange v' off (zlen bs) = bs -> Q tt v') ->
  tot (io_pwrite off bs) v Q.
Proof.
  intros Hq (Ho & Hn & Hc & Hk) HQ.
  destruct (dev_pwrite_live off bs (v_dev v)) as (d & E & Hq' & Hc'); [done..|].
  destruct (faultless_wf v Hq) as [Hw Hl].
  destruct (io_pwrite_spec off bs v (Some tt) (set_v_dev d v)) as [[_ [_ Hok]] Hv]; [done..| |].
  { unfold io_pwrite, on_dev. by rewrite E. }
  exists tt, (set_v_dev d v). unfold io_pwrite, on_dev. rewrite E. split; [done|].
  destruct (faultless_wf (set_v_dev d v) Hq') as [_ Hl']. destruct (Hv Hl') as [Hf Hr].
  apply HQ; [done|done|by apply Hr].
Qed.

Lemma tot_barrier v (Q : barrier_rc -> V -> Prop) :
  faultless v ->
  (forall d, let v' := set_v_dev d v in
     steady v v' ->
     (forall a, ~ (INVFS_DEVT_OFF <= a < INVFS_DEVT_OFF + DEVT_LEN) -> view v' a = view v a) ->
     Q BarOk v') ->
  tot vol_barrier v Q.
Proof.
  intros Hq HQ. destruct (dev_barrier_live (v_dev v) Hq) as (d & E & Hq' & Hc').
  destruct (faultless_wf v Hq) as [Hw Hl].
  pose proof (dev_barrier_law _ _ _ Hw Hl E) as (_ & Hok & Hv).
  exists BarOk, (set_v_dev d v). unfold vol_barrier. rewrite E. split; [done|].
  apply HQ; [done|]. apply Hv. by apply (faultless_wf (set_v_dev d v)).
Qed.

Lemma tot_on_x f v (Q : unit -> V -> Prop) : Q tt (set_v_x (f (v_x v)) v) -> tot (on_x f) v Q.
Proof. intros. by apply tot_mod. Qed.
Lemma tot_on_a f v (Q : unit -> V -> Prop) : Q tt (set_v_a (f (v_a v)) v) -> tot (on_a f) v Q.
Proof. intros. by apply tot_mod. Qed.

End store.
(** ** What a log stands for *)

(** A segment: its place, its sequence number, its records and what follows
    them. *)
Record seg := mkSeg { sg_pba : Z; sg_seq : Z; sg_recs : list lrec; sg_tail : bytes }.

(** A record reference without its sequence number, which replay renumbers. *)
Definition place : Type := Z * Z * Z * Z.
Definition noseq (r : delta_ref) : place := (r_seg r, r_off r, r_flags r, r_vlen r).

Definition is_padb (r : lrec) : bool := negb (Z.land (lr_flags r) INVFS_DELTA_FLAG_PAD =? 0).

(** The places of the latest record of every key, [off] being the offset of
    the first record of [rs] in the segment. *)
Fixpoint put_places (pba off : Z) (rs : list lrec) (m : gmap bytes place) : gmap bytes place :=
  match rs with
  | [] => m
  | r :: rs =>
      put_places pba (off + rec_len r) rs
        (if is_padb r then m
         else <[lr_key r := (pba, off, lr_flags r, zlen (lr_val r))]> m)
  end.

(** Newest segment first. *)
Fixpoint places (l : list seg) : gmap bytes place :=
  match l with
  | [] => ∅
  | s :: l => put_places (sg_pba s) INVFS_DELTA_SEG_HDR_LEN (sg_recs s) (places l)
  end.

(** The flags and value of the latest record of every key: the contract of
    the log. *)
Definition put_content (m : gmap bytes (Z * bytes)) (r : lrec) : gmap bytes (Z * bytes) :=
  if is_padb r then m else <[lr_key r := (lr_flags r, lr_val r)]> m.
Fixpoint content (l : list seg) : gmap bytes (Z * bytes) :=
  match l with
  | [] => ∅
  | s :: l => foldl put_content (content l) (sg_recs s)
  end.

Lemma put_places_app pba rs1 rs2 : forall off m,
  put_places pba off (rs1 ++ rs2) m
  = put_places pba (off + recs_len rs1) rs2 (put_places pba off rs1 m).
Proof.
  induction rs1 as [|r rs IH]; intros off m; cbn [put_places app].
  - by rewrite Z.add_0_r.
  - rewrite IH. change (r :: rs) with ([r] ++ rs). rewrite recs_len_app, recs_len_one. f_equal. lia.
Qed.

(** A place of the log holds the record whose content the log answers. *)
Definition placed (l : list seg) (k : bytes) (pl : place) (c : Z * bytes) : Prop :=
  exists s pre r post, s ∈ l /\ sg_recs s = pre ++ r :: post /\ lr_key r = k /\
    pl = (sg_pba s, INVFS_DELTA_SEG_HDR_LEN + recs_len pre, lr_flags r, zlen (lr_val r)) /\
    c = (lr_flags r, lr_val r).

Definition agree (l : list seg) (m : gmap bytes place) (c : gmap bytes (Z * bytes)) : Prop :=
  forall k, match m !! k, c !! k with
            | Some pl, Some x => placed l k pl x
            | None, None => True
            | _, _ => False
            end.

Lemma agree_put l s rs : forall pre m c,
  s ∈ l -> sg_recs s = pre ++ rs -> agree l m c ->
  agree l (put_places (sg_pba s) (INVFS_DELTA_SEG_HDR_LEN + recs_len pre) rs m)
    (foldl put_content c rs).
Proof.
  induction rs as [|r rs IH]; intros pre m c Hs Hrs Ha; [done|]. cbn [put_places foldl].
  replace (INVFS_DELTA_SEG_HDR_LEN + recs_len pre + rec_len r)
    with (INVFS_DELTA_SEG_HDR_LEN + recs_len (pre ++ [r])) by (rewrite recs_len_app, recs_len_one; lia).
  apply IH; [done|by rewrite <- app_assoc|]. unfold put_content. destruct (is_padb r); [done|].
  intros k. destruct (decide (k = lr_key r)) as [->|Hne].
  - rewrite !lookup_insert_eq. by exists s, pre, r, rs.
  - rewrite !lookup_insert_ne by done. apply Ha.
Qed.

Lemma agree_sub l l' m c : (forall s, s ∈ l -> s ∈ l') -> agree l m c -> agree l' m c.
Proof.
  intros Hl Ha k. specialize (Ha k). destruct (m !! k), (c !! k); try done.
  destruct Ha as (s & pre & r & post & Hs & ?). exists s, pre, r, post. auto.
Qed.

Lemma places_content l : agree l (places l) (content l).
Proof.
  induction l as [|s l IH]; [by intros k; cbn [places content]; rewrite !lookup_empty|].
  cbn [places content]. replace INVFS_DELTA_SEG_HDR_LEN with (INVFS_DELTA_SEG_HDR_LEN + recs_len []) by done.
  apply agree_put; [left|done|]. eapply agree_sub; [|exact IH]. intros s' ?. by right.
Qed.

(** ** A chain of segments on the storage *)

Section chain.
Context {D : Type} `{!Dev D, !DevLaws D}.
Abbreviation V := (vol D dlog).
Implicit Types v : V.

Definition head_pba (l : list seg) : Z := match l with [] => 0 | s :: _ => sg_pba s end.

Definition in_seg (pba a : Z) : Prop :=
  pba * INVFS_BLOCK_SIZE <= a < pba * INVFS_BLOCK_SIZE + INVFS_DELTA_SEG_BYTES.

Record seg_ok v (prev : Z) (s : seg) : Prop := {
  sk_pba : 0 < sg_pba s;
  sk_end : sg_pba s + INVFS_DELTA_SEG_BLOCKS <= total_blocks (vsb v);
  sk_seq : 0 <= sg_seq s < 2 ^ 64;
  sk_prev : 0 <= prev < 2 ^ 64;
  sk_recs : Forall rec_ok (sg_recs s);
  sk_tail : no_record (sg_tail s);
  sk_image : vrange v (sg_pba s * INVFS_BLOCK_SIZE) INVFS_DELTA_SEG_BYTES
             = delta_hdr_encode (sg_seq s) prev ++ recs_bytes (sg_recs s) ++ sg_tail s;
  sk_may : forall o m, 0 <= o -> 0 <= m -> o + m <= INVFS_DELTA_SEG_BYTES ->
             may v (sg_pba s * INVFS_BLOCK_SIZE + o) m
}.

Definition apart_segs (p q : Z) : Prop :=
  p + INVFS_DELTA_SEG_BLOCKS <= q \/ q + INVFS_DELTA_SEG_BLOCKS <= p.

Fixpoint chain_ok v (l : list seg) : Prop :=
  match l with
  | [] => True
  | s :: l =>
      seg_ok v (head_pba l) s /\ Forall (fun s' => apart_segs (sg_pba s) (sg_pba s')) l /\ chain_ok v l
  end.

(** Segments stay what they are when their bytes do. *)
Lemma seg_ok_ext v v' prev s :
  steady v v' -> total_blocks (vsb v') = total_blocks (vsb v) ->
  (forall a, in_seg (sg_pba s) a -> view v' a = view v a) ->
  seg_ok v prev s -> seg_ok v' prev s.
Proof.
  intros Hst Hsb Hv [H1 H2 H3 H4 H5 H6 H7 H8].
  split; [exact H1|by rewrite Hsb|exact H3|exact H4|exact H5|exact H6| |].
  - rewrite <- H7. apply vrange_ext. exact Hv.
  - intros o m Ho Hm Hom. eapply may_steady; [exact Hst|]. by apply H8.
Qed.

Lemma chain_ok_ext v v' l :
  steady v v' -> total_blocks (vsb v') = total_blocks (vsb v) ->
  (forall s a, s ∈ l -> in_seg (sg_pba s) a -> view v' a = view v a) ->
  chain_ok v l -> chain_ok v' l.
Proof.
  intros Hst Hsb. induction l as [|s l IH]; [done|]. intros Hv (Hs & Hn & Hc). split_and!; [|exact Hn|].
  - eapply seg_ok_ext; [exact Hst|exact Hsb| |exact Hs]. intros a. apply Hv. left.
  - apply IH; [|exact Hc]. intros s' a Hs'. apply Hv. by right.
Qed.

Lemma chain_seg v l s : chain_ok v l -> s ∈ l -> exists prev, seg_ok v prev s.
Proof.
  induction l as [|s' l IH]; [by intros _ ?%not_elem_of_nil|].
  intros (H & _ & Hc) [->|Hin]%elem_of_cons; eauto.
Qed.

(** The bytes of a record, where the log has placed it. *)
Lemma vrange_app v off n m : 0 <= n -> 0 <= m -> vrange v off (n + m) = vrange v off n ++ vrange v (off + n) m.
Proof. intros. unfold vrange. rewrite seqZ_app by done. by rewrite map_app. Qed.

Lemma vrange_sub v off n o m bs :
  vrange v off n = bs -> 0 <= o -> 0 <= m -> o + m <= n -> vrange v (off + o) m = slice bs o m.
Proof.
  intros <- Ho Hm Hn. replace n with (o + (m + (n - o - m))) by lia.
  rewrite !vrange_app by lia. rewrite slice_app_r by (rewrite length_vrange; lia).
  rewrite length_vrange by done. rewrite Z.sub_diag, slice_app_l; [done|]. by apply length_vrange.
Qed.

Lemma rec_on_disk v prev s pre r post :
  seg_ok v prev s -> sg_recs s = pre ++ r :: post ->
  vrange v (sg_pba s * INVFS_BLOCK_SIZE + (INVFS_DELTA_SEG_HDR_LEN + recs_len pre)) (rec_len r) = rec_bytes r /\
  INVFS_DELTA_SEG_HDR_LEN + recs_len pre + rec_len r <= INVFS_DELTA_SEG_BYTES /\ rec_ok r.
Proof.
  intros Hs Hr. pose proof (sk_image v prev s Hs) as Hi. pose proof (sk_recs v prev s Hs) as Hok.
  assert (Hlen : zlen (vrange v (sg_pba s * INVFS_BLOCK_SIZE) INVFS_DELTA_SEG_BYTES) = INVFS_DELTA_SEG_BYTES)
    by by apply length_vrange.
  rewrite Hr in Hi, Hok. apply Forall_app in Hok as [_ [Hrok _]%Forall_cons_iff].
  rewrite Hi, !length_app, recs_bytes_app, recs_bytes_cons, !length_app in Hlen.
  pose proof (length_hdr (sg_seq s) prev) as Hh. pose proof (length_drec_bytes r) as Hl.
  assert (H44 : INVFS_DELTA_SEG_HDR_LEN = 44) by done.
  fold (recs_len pre) in *. unfold recs_len in *. split_and!; [|lia|done].
  rewrite (vrange_sub v _ _ _ _ _ Hi) by (unfold rec_len in *; lia).
  rewrite recs_bytes_app, recs_bytes_cons, <- !app_assoc.
  rewrite slice_app_r by lia. rewrite slice_app_r by lia.
  replace (_ - _ - _) with 0 by lia. rewrite slice_app_l by done. done.
Qed.

(** ** Lookups *)

(** The index names the latest record of every key. *)
Definition indexed (x : dlog) (l : list seg) : Prop :=
  exists di, d_index x = Some di /\ di_ok di /\ noseq <$> di_map di = places l.

Lemma find_ref_map di key : di_ok di -> find_ref di key = di_map di !! key.
Proof.
  intros Hok. unfold find_ref. pose proof (di_find_spec di key Hok) as H.
  destruct (di_find di key); [|done]. by destruct H as (r & -> & ->).
Qed.

(** A reader changes nothing but, perhaps, the state of the storage. *)
Definition reads v v' : Prop :=
  v' = set_v_dev (v_dev v') v /\ steady v v' /\ forall a, view v' a = view v a.

Lemma reads_refl v : faultless v -> reads v v.
Proof. intros. split_and!; [by destruct v|by apply steady_refl|done]. Qed.

Lemma reads_step v d :
  steady v (set_v_dev d v) -> (forall a, view (set_v_dev d v) a = view v a) -> reads v (set_v_dev d v).
Proof. done. Qed.

Lemma reads_trans v1 v2 v3 : reads v1 v2 -> reads v2 v3 -> reads v1 v3.
Proof.
  intros (E1 & S1 & V1) (E2 & S2 & V2). split_and!; [|by eapply steady_trans|by intros; rewrite V2].
  rewrite E2, E1. done.
Qed.


Lemma read_value_tot v prev s pre r post ref klen :
  faultless v -> seg_ok v prev s -> sg_recs s = pre ++ r :: post ->
  noseq ref = (sg_pba s, INVFS_DELTA_SEG_HDR_LEN + recs_len pre, lr_flags r, zlen (lr_val r)) ->
  klen = 0 \/ klen = zlen (lr_key r) ->
  tot (delta_read_value_locked ref klen) v (fun bs v' => bs = lr_val r /\ reads v v').
Proof.
  intros Hq Hs Hr Href Hkl. destruct ref as [rseg roff rseq rfl rvl]. injection Href as -> -> -> ->.
  destruct (rec_on_disk v prev s pre r post Hs Hr) as (Himg & Hfit & Hok).
  destruct (rec_fields r Hok) as (Fk & Fv & _ & _ & Fval & Fhdr).
  pose proof (ro_key r Hok) as Hk0. assert (Hh : INVFS_DELTA_REC_HDR_LEN = 10) by done.
  assert (H44 : INVFS_DELTA_SEG_HDR_LEN = 44) by done. assert (Hlen : rec_len r = 10 + zlen (lr_key r) + zlen (lr_val r)) by done.
  pose proof (Zle_0_nat (length (recs_bytes pre))) as Hp0. fold (recs_len pre) in Hp0.
  assert (Hmay : forall o m, 0 <= o -> 0 <= m -> o + m <= rec_len r ->
    may v (sg_pba s * INVFS_BLOCK_SIZE + (INVFS_DELTA_SEG_HDR_LEN + recs_len pre) + o) m).
  { intros o m ? ? ?. rewrite <- Z.add_assoc. apply (sk_may v prev s Hs); lia. }
  unfold delta_read_value_locked. cbn [r_seg r_off r_vlen].
  set (at0 := sg_pba s * INVFS_BLOCK_SIZE + (INVFS_DELTA_SEG_HDR_LEN + recs_len pre)) in *.
  destruct (Z.eqb_spec (zlen (lr_val r)) 0) as [E|E].
  { apply tot_ret. split; [by destruct (lr_val r)|by apply reads_refl]. }
  apply tot_if; intros Hc.
  - zbool. destruct Hkl as [->| ->]; [done|].
    apply tot_bind, tot_pread; [done| |].
    { specialize (Hmay 0 (rec_len r)). rewrite Z.add_0_r in Hmay. rewrite Hh, <- Hlen. apply Hmay; lia. }
    intros d v' Hst Hv. rewrite Hh, <- Hlen, Himg.
    apply tot_bind, tot_guard; [by rewrite Fk, Fv, !Z.eqb_refl|]. apply tot_ret.
    rewrite <- Hh. split; [done|]. by apply reads_step.
  - apply tot_bind, tot_pread; [done| |].
    { specialize (Hmay 0 10). rewrite Z.add_0_r in Hmay. rewrite Hh. apply Hmay; lia. }
    intros d v' Hst Hv.
    assert (Eh : vrange v at0 INVFS_DELTA_REC_HDR_LEN = slice (rec_bytes r) 0 INVFS_DELTA_REC_HDR_LEN).
    { rewrite <- (vrange_sub v _ _ 0 _ _ Himg) by lia. by rewrite Z.add_0_r. }
    rewrite Eh, Fhdr. clear Eh.
    apply tot_pread; [apply Hst| |].
    { eapply may_steady; [exact Hst|]. rewrite Hh, <- Z.add_assoc. apply Hmay; lia. }
    intros d2 v2 Hst2 Hv2. split.
    + rewrite (vrange_ext v v') by (intros; apply Hv). rewrite <- Z.add_assoc.
      by rewrite (vrange_sub v _ _ _ _ _ Himg) by lia.
    + eapply reads_trans; [by apply (reads_step v d)|]. by apply (reads_step v' d2).
Qed.

(** What a lookup answers from the content of the log. *)
Definition lookup_answer (c : option (Z * bytes)) (cap : Z) : lookup_res :=
  match c with
  | None => LMiss
  | Some (fl, val) =>
      if zlen val =? 0 then LFound fl []
      else if cap <? zlen val then LShort fl (zlen val) else LFound fl val
  end.

Lemma lookup_value_tot v l key cap :
  faultless v -> chain_ok v l -> indexed (v_x v) l -> key <> [] ->
  tot (vol_delta_lookup_value key cap) v
    (fun r v' => r = lookup_answer (content l !! key) cap /\ reads v v').
Proof.
  intros Hq Hc (di & Hdi & Hok & Hm) Hk. unfold vol_delta_lookup_value.
  rewrite (proj2 (Z.eqb_neq (zlen key) 0)) by (destruct key; [done|cbn; lia]).
  apply tot_bind, tot_get. unfold vol_delta_lookup. rewrite Hdi, find_ref_map by done.
  assert (Hp : noseq <$> (di_map di !! key) = places l !! key) by by rewrite <- Hm, lookup_fmap.
  pose proof (places_content l key) as Ha. rewrite <- Hp in Ha.
  destruct (di_map di !! key) as [ref|]; cbn [fmap option_fmap option_map] in Ha.
  2: { destruct (content l !! key); [done|]. apply tot_ret. split; [done|by apply reads_refl]. }
  destruct (content l !! key) as [[fl val]|]; [|done].
  destruct Ha as (s & pre & r & post & Hs & Hr & Ek & Epl & [= -> ->]).
  destruct (chain_seg v l s Hc Hs) as [prev Hseg].
  pose proof Epl as Epl'. destruct ref as [rseg roff rseq rfl rvl]. injection Epl' as -> -> -> ->.
  cbn [r_vlen r_flags lookup_answer].
  destruct (zlen (lr_val r) =? 0); [apply tot_ret; split; [done|by apply reads_refl]|].
  destruct (cap <? zlen (lr_val r)); [apply tot_ret; split; [done|by apply reads_refl]|].
  apply tot_bind, tot_try.
  eapply tot_mono; [eapply (read_value_tot v prev s pre r post); [done..|right; by rewrite Ek]|].
  intros bs v' [-> Hrd]. by apply tot_ret.
Qed.

(** ** Writing at the end of a segment *)

Lemma image_write v v' base N A n R :
  vrange v base N = A ++ zeros n -> N = zlen A + n -> zlen R <= n ->
  (forall a, ~ (base + zlen A <= a < base + zlen A + zlen R) -> view v' a = view v a) ->
  vrange v' (base + zlen A) (zlen R) = R ->
  vrange v' base N = (A ++ R) ++ zeros (n - zlen R).
Proof.
  intros Hi -> Hn Hv HR. replace (zlen A + n) with (zlen A + (zlen R + (n - zlen R))) in * by lia.
  rewrite !vrange_app in * by lia. rewrite HR.
  rewrite !(vrange_ext v v') by (intros; apply Hv; lia).
  apply app_inj_1 in Hi as [-> Hi].
  2: { pose proof (length_vrange v base (zlen A) ltac:(lia)). lia. }
  rewrite <- app_assoc. do 2 f_equal.
  assert (Hz : zeros n = zeros (zlen R) ++ zeros (n - zlen R)).
  { unfold zeros. rewrite <- replicate_add. f_equal. lia. }
  rewrite Hz in Hi. apply app_inj_1 in Hi as [_ Hi]; [done|].
  pose proof (length_vrange v (base + zlen A) (zlen R) ltac:(lia)). rewrite length_zeros. lia.
Qed.

(** ** The session *)

Definition zero_tail (s : seg) : Prop :=
  sg_tail s = zeros (INVFS_DELTA_SEG_BYTES - (INVFS_DELTA_SEG_HDR_LEN + recs_len (sg_recs s))).

(** The cursor stands behind the last record of the head segment. *)
Definition head_ok (x : dlog) (l : list seg) : Prop :=
  delta_seg_pba x = head_pba l /\
  match l with
  | [] => True
  | s :: _ => delta_bump x = INVFS_DELTA_SEG_HDR_LEN + recs_len (sg_recs s)
  end.

(** RT30 names the head segment. *)
Definition rt_names v (l : list seg) : Prop :=
  match l with
  | [] => rt_present v = false \/ delta_pba (rt v) = 0
  | s :: _ => rt_present v = true /\ delta_pba (rt v) = sg_pba s
  end.

Definition SB_LEN : Z := 168.

(** The superblock can be written. *)
Record sb_env v : Prop := {
  se_may : may v 0 SB_LEN;
  se_magic : length (sr_magic (v_sb_rest (v_x v))) = 8%nat;
  se_uuid : length (sb_uuid (vsb v)) = 16%nat;
  se_hash : length (sr_root_ast_hash (v_sb_rest (v_x v))) = 32%nat;
  se_pad3 : length (sr_pad3 (v_sb_rest (v_x v))) = 3%nat
}.

(** A mounted handle over the log [l], nothing doomed and nothing retired. *)
Record live v (l : list seg) : Prop := {
  lv_faultless : faultless v;
  lv_chain : chain_ok v l;
  lv_index : indexed (v_x v) l;
  lv_head : head_ok (v_x v) l;
  lv_root : rt_names v l;
  lv_ready : delta_ready (v_x v) = true;
  lv_fence : delta_rewrite_needed (v_x v) = false;
  lv_retire : delta_retire (v_x v) = [];
  lv_sb : sb_env v
}.

(** Nothing beyond block 0 changed, and of the handle at most the superblock
    state and the dirty flag. *)
Record block0_only v v' : Prop := {
  bo_steady : steady v v';
  bo_view : forall a, INVFS_BLOCK_SIZE <= a -> view v' a = view v a;
  bo_total : total_blocks (vsb v') = total_blocks (vsb v);
  bo_flags : vol_flags (vsb v') = vol_flags (vsb v);
  bo_uuid : sb_uuid (vsb v') = sb_uuid (vsb v);
  bo_rt : rt v' = rt v /\ rt_present v' = rt_present v;
  bo_a : exists q, v_a v' = set_sb (set_sb_state q (vsb v)) (v_a v);
  bo_spt0 : spt0 v' = spt0 v;
  bo_x : v_x v' = set_v_dirty (v_dirty (v_x v')) (v_x v);
  bo_rest : v' = set_v_x (v_x v') (set_v_a (v_a v') (set_v_dev (v_dev v') v))
}.

Lemma block0_refl v : faultless v -> block0_only v v.
Proof.
  intros. split; try done; [|by destruct (v_x v)|by destruct v].
  exists (sb_state (vsb v)). unfold vsb. destruct (v_a v) as [s]. by destruct s.
Qed.

Lemma in_seg_block0 v prev s a : seg_ok v prev s -> in_seg (sg_pba s) a -> INVFS_BLOCK_SIZE <= a.
Proof. intros Hs [Ha _]. pose proof (sk_pba v prev s Hs). unfold INVFS_BLOCK_SIZE in *. lia. Qed.

Lemma chain_block0 v v' l :
  steady v v' -> total_blocks (vsb v') = total_blocks (vsb v) ->
  (forall a, INVFS_BLOCK_SIZE <= a -> view v' a = view v a) -> chain_ok v l -> chain_ok v' l.
Proof.
  intros Hst Ht Hv Hc. apply (chain_ok_ext v v' l Hst Ht); [|done]. intros s a Hs Ha. apply Hv.
  destruct (chain_seg v l s Hc Hs) as [prev Hseg]. by eapply in_seg_block0.
Qed.

Lemma live_block0 v v' l : block0_only v v' -> live v l -> live v' l.
Proof.
  intros [Hst Hv Ht Hf Hu [Hr Hrp] _ _ Hx _] [H1 H2 H3 H4 H5 H6 H7 H8 H9].
  split; try (rewrite Hx; assumption).
  - apply Hst.
  - by apply (chain_block0 v v').
  - unfold rt_names. by rewrite Hr, Hrp.
  - destruct H9 as [M1 M2 M3 M4 M5]. split; rewrite ?Hu; try (rewrite Hx; assumption); [|done].
    by eapply may_steady.
Qed.

End chain.
(** ** Operations *)

Section ops.
Context {D : Type} `{!Dev D, !DevLaws D} (E : penv) (RC : retire_calls (vol D dlog)).
Abbreviation V := (vol D dlog).
Implicit Types v : V.

Lemma length_sb_bytes v : sb_env v -> zlen (sb_bytes (vsb v) (v_sb_rest (v_x v))) = SB_LEN.
Proof.
  intros [_ H1 H2 H3 H4]. unfold sb_bytes, sb_head. rewrite !length_app, !length_le_bytes.
  unfold SB_LEN. lia.
Qed.

Lemma mark_dirty_tot v l :
  live v l -> flag_set (vsb v) VOLF_READONLY = false ->
  tot vol_mark_dirty v (fun _ v' => block0_only v v').
Proof.
  intros Hl Hro. pose proof (lv_faultless v l Hl) as Hq. pose proof (lv_sb v l Hl) as Hsb.
  unfold vol_mark_dirty. apply tot_bind, tot_get. apply tot_bind, tot_guard.
  { unfold vol_write_enabled. destruct (faultless_wf v Hq) as [_ Hlt]. unfold latched in Hlt.
    by rewrite Hro, (dquiet_up _ Hq), Hlt. }
  apply tot_if; intros Hd; [apply tot_ret; by apply block0_refl|].
  apply tot_bind, tot_on_a. set (v1 := set_v_a _ v).
  assert (Hsb1 : sb_env v1) by (destruct Hsb; by split).
  apply tot_bind. unfold vol_write_sb. apply tot_bind, tot_get.
  apply tot_pwrite; [done|rewrite length_sb_bytes by done; apply Hsb1|].
  rewrite length_sb_bytes by done. intros d v2 [Hs1 Hs2 Hs3] Hv _. apply tot_on_x. split; try done; [|by eexists].
  intros a Ha. apply Hv. unfold INVFS_BLOCK_SIZE, SB_LEN in *. lia.
Qed.

Lemma retire_none_tot v (Q : unit -> V -> Prop) : Q tt v -> tot (dl_retire_free_list RC []) v Q.
Proof. intros. unfold dl_retire_free_list. cbn. apply tot_bind, tot_ret. by apply tot_ret. Qed.

(** Steps of the fence change the staging bookkeeping only. *)
Record staging (x x' : dlog) : Prop := {
  sg_index : d_index x' = d_index x;
  sg_headp : delta_seg_pba x' = delta_seg_pba x;
  sg_bump : delta_bump x' = delta_bump x;
  sg_ready : delta_ready x' = delta_ready x;
  sg_fence : delta_rewrite_needed x = false -> delta_rewrite_needed x' = false;
  sg_retire : delta_retire x = [] -> delta_retire x' = [];
  sg_sb : v_sb_rest x' = v_sb_rest x;
  sg_seqn : delta_seq x' = delta_seq x
}.

Lemma staging_refl x : staging x x.
Proof. by split. Qed.

Lemma close_group_tot v rl :
  faultless v -> delta_rewrite_needed (v_x v) = false -> delta_retire (v_x v) = [] ->
  tot (close_group (D := D) rl) v (fun rd v' => rd = [] /\ staging (v_x v) (v_x v') /\
    v' = set_v_x (v_x v') (set_v_dev (v_dev v') v) /\ steady v v' /\
    forall a, INVFS_BLOCK_SIZE <= a -> view v' a = view v a).
Proof.
  intros Hq Hf Hr. unfold close_group, heal_if_needed.
  apply tot_bind, tot_bind, tot_get. rewrite Hf. apply tot_ret.
  apply tot_bind, tot_barrier; [done|]. intros d v1 Hst Hv. cbn [fence_ok negb].
  apply tot_bind, tot_get. cbn [dl_retire_collect].
  assert (Ex : v_x v1 = v_x v) by done.
  replace (delta_retire (group_closed (v_x v1))) with (delta_retire (v_x v)) by done. rewrite Hr.
  cbn [List.filter]. apply tot_bind, tot_on_x, tot_ret. split_and!; [done| | |by apply (steady_dev v1)|].
  - by split.
  - done.
  - intros a Ha. apply Hv. unfold INVFS_BLOCK_SIZE, INVFS_DEVT_OFF, DEVT_LEN in *. lia.
Qed.

Lemma noseq_insert di key r di' ins :
  di_ok di -> di_put di key r = (di', ins) ->
  di_ok di' /\ noseq <$> di_map di' = <[key := noseq r]> (noseq <$> di_map di).
Proof.
  intros Hok Hp. apply di_put_spec in Hp as (Hok' & -> & _); [|done]. split; [done|]. by rewrite fmap_insert.
Qed.

Definition add_rec (s : seg) (r : lrec) : seg :=
  mkSeg (sg_pba s) (sg_seq s) (sg_recs s ++ [r])
    (zeros (INVFS_DELTA_SEG_BYTES - (INVFS_DELTA_SEG_HDR_LEN + recs_len (sg_recs s ++ [r])))).

Lemma places_add s l r :
  is_padb r = false ->
  places (add_rec s r :: l)
  = <[lr_key r := (sg_pba s, INVFS_DELTA_SEG_HDR_LEN + recs_len (sg_recs s), lr_flags r, zlen (lr_val r))]>
      (places (s :: l)).
Proof. intros Hp. cbn [places add_rec sg_pba sg_recs]. rewrite put_places_app. cbn [put_places]. by rewrite Hp. Qed.

Lemma content_add s l r : content (add_rec s r :: l) = put_content (content (s :: l)) r.
Proof. cbn [content add_rec sg_recs]. by rewrite foldl_app. Qed.

(** The index after the record went in. *)
Lemma append_index_ok x key rl flags val s l :
  indexed x (s :: l) -> delta_seg_pba x = sg_pba s ->
  delta_bump x = INVFS_DELTA_SEG_HDR_LEN + recs_len (sg_recs s) ->
  is_padb (mkLrec flags key val) = false ->
  let x' := append_index E key rl flags (zlen val) x in
  indexed x' (add_rec s (mkLrec flags key val) :: l) /\
  delta_seg_pba x' = delta_seg_pba x /\ delta_bump x' = delta_bump x + rl /\
  delta_ready x' = delta_ready x /\ delta_rewrite_needed x' = delta_rewrite_needed x /\
  delta_retire x' = delta_retire x /\ v_sb_rest x' = v_sb_rest x.
Proof.
  intros (di & Hdi & Hok & Hm) Hp Hb Hpad. cbn zeta. unfold append_index.
  set (x0 := set_delta_seq _ x). assert (Hx0 : d_index x0 = Some di) by done. rewrite Hx0.
  destruct (di_put di key _) as [di' ins] eqn:Ep.
  apply noseq_insert in Ep as [Hok' Hm']; [|done].
  assert (Hidx : noseq <$> di_map di' = places (add_rec s (mkLrec flags key val) :: l)).
  { rewrite Hm', Hm, places_add by done. cbn [lr_key lr_flags lr_val]. f_equal. unfold noseq. cbn [r_seg r_off r_flags r_vlen].
    change (delta_seg_pba x0) with (delta_seg_pba x). change (delta_bump x0) with (delta_bump x).
    by rewrite Hp, Hb. }
  set (x1 := set_d_index (Some di') x0).
  destruct ins, (delta_oldest_seq x1 =? 0);
    (split; [exists di'; split_and!; [done|done|exact Hidx]|done]).
Qed.

(** Writing a record behind the last one of a segment with a clean tail. *)
Lemma seg_add v v' prev s r :
  seg_ok v prev s -> zero_tail s -> rec_ok r ->
  INVFS_DELTA_SEG_HDR_LEN + recs_len (sg_recs s) + rec_len r <= INVFS_DELTA_SEG_BYTES ->
  steady v v' -> total_blocks (vsb v') = total_blocks (vsb v) ->
  let at0 := sg_pba s * INVFS_BLOCK_SIZE + (INVFS_DELTA_SEG_HDR_LEN + recs_len (sg_recs s)) in
  (forall a, ~ (at0 <= a < at0 + rec_len r) -> view v' a = view v a) ->
  vrange v' at0 (rec_len r) = rec_bytes r ->
  seg_ok v' prev (add_rec s r).
Proof.
  intros [H1 H2 H3 H4 H5 H6 H7 H8] Hz Hr Hfit Hst Ht at0 Hv HR.
  split; cbn [add_rec sg_pba sg_seq sg_recs sg_tail]; [exact H1|by rewrite Ht|exact H3|exact H4| | | |].
  - apply Forall_app. split; [exact H5|by constructor].
  - exact (proj1 (zeros_tail _)).
  - rewrite Hz in H7. rewrite app_assoc in H7.
    pose proof (length_hdr (sg_seq s) prev) as Hh. pose proof (length_drec_bytes r) as Hl.
    assert (HA : zlen (delta_hdr_encode (sg_seq s) prev ++ recs_bytes (sg_recs s))
                 = INVFS_DELTA_SEG_HDR_LEN + recs_len (sg_recs s)) by (rewrite length_app; unfold recs_len; lia).
    rewrite recs_len_app, recs_len_one, recs_bytes_app, recs_bytes_cons.
    rewrite (image_write v v' _ _ _ _ (rec_bytes r) H7);
      [| |rewrite Hl; lia|by rewrite HA, Hl|by rewrite HA, Hl].
    + change (recs_bytes []) with (@nil Z). rewrite Hl, app_nil_r, <- !app_assoc. do 4 f_equal. lia.
    + rewrite HA. lia.
  - intros o m Ho Hm Hom. eapply may_steady; [exact Hst|]. by apply H8.
Qed.

(** Only the storage and the delta state changed. *)
Definition same_rest v v' : Prop := v' = set_v_x (v_x v') (set_v_dev (v_dev v') v).

Lemma same_rest_fields v v' : same_rest v v' -> v_a v' = v_a v /\ rt v' = rt v /\ rt_present v' = rt_present v.
Proof. by intros ->. Qed.
Lemma same_rest_trans v1 v2 v3 : same_rest v1 v2 -> same_rest v2 v3 -> same_rest v1 v3.
Proof. intros H1 H2. unfold same_rest. etransitivity; [exact H2|]. by rewrite H1. Qed.
Lemma same_rest_step x d v : same_rest v (set_v_x x (set_v_dev d v)).
Proof. done. Qed.

(** A record enters the log. *)
Lemma chain_add v v' s l r :
  chain_ok v (s :: l) -> zero_tail s -> rec_ok r ->
  INVFS_DELTA_SEG_HDR_LEN + recs_len (sg_recs s) + rec_len r <= INVFS_DELTA_SEG_BYTES ->
  steady v v' -> total_blocks (vsb v') = total_blocks (vsb v) ->
  let at0 := sg_pba s * INVFS_BLOCK_SIZE + (INVFS_DELTA_SEG_HDR_LEN + recs_len (sg_recs s)) in
  (forall a, ~ (at0 <= a < at0 + rec_len r) -> view v' a = view v a) ->
  vrange v' at0 (rec_len r) = rec_bytes r ->
  chain_ok v' (add_rec s r :: l).
Proof.
  intros (Hs & Hap & Hc) Hz Hr Hfit Hst Ht at0 Hv HR. split_and!; [by apply (seg_add v v')|exact Hap|].
  apply (chain_ok_ext v v' l Hst Ht); [|exact Hc]. intros s' a Hs' [Ha1 Ha2]. apply Hv.
  assert (Hd : apart_segs (sg_pba s) (sg_pba s')).
  { rewrite Forall_forall in Hap. by apply Hap, list_elem_of_In. }
  pose proof (Zle_0_nat (length (recs_bytes (sg_recs s)))) as Hp. fold (recs_len (sg_recs s)) in Hp.
  assert (H44 : INVFS_DELTA_SEG_HDR_LEN = 44) by done.
  assert (HB : INVFS_DELTA_SEG_BYTES = INVFS_DELTA_SEG_BLOCKS * INVFS_BLOCK_SIZE) by done.
  unfold at0, apart_segs, INVFS_DELTA_SEG_BLOCKS, INVFS_BLOCK_SIZE in *. lia.
Qed.

Lemma live_added v v3 s l key flags val :
  let r := mkLrec flags key val in
  live v (s :: l) -> staging (v_x v) (v_x v3) -> same_rest v v3 -> steady v v3 ->
  chain_ok v3 (add_rec s r :: l) -> is_padb r = false ->
  live (set_v_x (append_index E key (rec_len r) flags (zlen val) (v_x v3)) v3) (add_rec s r :: l).
Proof.
  intros r [Hq Hc Hi [Hp Hb] Hrt Hrd Hf Hre [S1 S2 S3 S4 S5]] [X1 X2 X3 X4 X5 X6 X7 X8] Hs3 Hst3 Hc3 Hpad.
  destruct (same_rest_fields v v3 Hs3) as (Ea & Er & Erp).
  destruct (append_index_ok (v_x v3) key (rec_len r) flags val s l) as (I1 & I2 & I3 & I4 & I5 & I6 & I7);
    [unfold indexed; by rewrite X1|by rewrite X2|by rewrite X3|done|].
  split.
  - apply Hst3.
  - apply (chain_block0 v3); [|done|done|exact Hc3]. apply (steady_dev v3); [done|]. apply steady_refl, Hst3.
  - exact I1.
  - split; cbn [v_x set_v_x]; [by rewrite I2, X2|]. rewrite I3, X3, Hb. cbn [add_rec sg_recs].
    rewrite recs_len_app, recs_len_one. lia.
  - unfold rt_names. cbn. by rewrite Er, Erp.
  - cbn [v_x set_v_x]. by rewrite I4, X4.
  - cbn [v_x set_v_x]. rewrite I5. auto.
  - cbn [v_x set_v_x]. rewrite I6. auto.
  - split; cbn [v_x set_v_x]; rewrite ?I7, ?X7; [exact (may_steady v v3 _ _ Hst3 S1)|done| |done|done].
    change (length (sb_uuid (sb (v_a v3))) = 16%nat). by rewrite Ea.
Qed.

Lemma stage_tot v s l key val flags :
  live v (s :: l) -> zero_tail s ->
  let r := mkLrec flags key val in
  rec_ok r -> is_padb r = false ->
  INVFS_DELTA_SEG_HDR_LEN + recs_len (sg_recs s) + rec_len r <= INVFS_DELTA_SEG_BYTES ->
  tot (delta_stage E RC key val flags) v (fun _ v' =>
    live v' (add_rec s r :: l) /\ same_rest v v' /\ steady v v' /\
    forall a, INVFS_BLOCK_SIZE <= a -> ~ in_seg (sg_pba s) a -> view v' a = view v a).
Proof.
  intros Hl Hz r Hr Hpad Hfit. pose proof Hl as [Hq Hc Hi [Hp Hb] Hrt Hrd Hf Hre Hsb].
  cbn [head_pba] in Hp. unfold delta_stage. fold r. apply tot_bind, tot_get.
  set (at0 := delta_seg_pba (v_x v) * INVFS_BLOCK_SIZE + delta_bump (v_x v)).
  assert (Eat : at0 = sg_pba s * INVFS_BLOCK_SIZE + (INVFS_DELTA_SEG_HDR_LEN + recs_len (sg_recs s)))
    by (unfold at0; by rewrite Hp, Hb).
  pose proof (length_drec_bytes r) as Hlen.
  assert (Hn0 : 0 <= rec_len r) by (rewrite <- Hlen; lia).
  assert (Hr0 : 0 <= recs_len (sg_recs s)) by (unfold recs_len; lia).
  assert (H44 : INVFS_DELTA_SEG_HDR_LEN = 44) by done.
  apply tot_bind, tot_try, tot_pwrite; [done| |].
  { rewrite Hlen, Eat. apply (sk_may v (head_pba l) s (proj1 Hc)); lia. }
  rewrite Hlen. intros d v1 Hst Hv HR. rewrite Eat in Hv, HR.
  pose proof (chain_add v v1 s l r Hc Hz Hr Hfit Hst eq_refl Hv HR) as Hc1.
  apply tot_bind, tot_on_x. apply tot_bind, tot_on_x. apply tot_bind, tot_get.
  set (v2 := set_v_x _ _).
  assert (Hst2 : steady v v2) by by apply (steady_dev v1).
  assert (Hx2 : staging (v_x v) (v_x v2)) by by split.
  apply tot_bind. apply (tot_mono _ _ (fun rd v' => rd = [] /\ staging (v_x v) (v_x v') /\
    same_rest v v' /\ steady v2 v' /\ forall a, INVFS_BLOCK_SIZE <= a -> view v' a = view v2 a)).
  - apply tot_if; intros Hg.
    + eapply tot_mono; [apply close_group_tot; [apply Hst2|done|done]|].
      intros rd v' (-> & Hx & Hs & Hst' & Hv'). split_and!; [done| |by apply (same_rest_trans v v2)|done|done].
      destruct Hx as [X1 X2 X3 X4 X5 X6 X7 X8]. by split; auto.
    + apply tot_ret. split_and!; [done|done|done|apply steady_refl, Hst2|done].
  - intros rd v3 (-> & Hx3 & Hs3 & Hst3 & Hv3).
    apply tot_bind, tot_on_x, retire_none_tot.
    split_and!; [|by apply (same_rest_trans v v3)|by apply (steady_dev v3); [|by apply (steady_trans v v2)]|].
    2: { intros a Ha Hn. etransitivity; [exact (Hv3 a Ha)|]. apply Hv. unfold in_seg in Hn. lia. }
    assert (Hc2 : chain_ok v2 (add_rec s r :: l)).
    { apply (chain_block0 v1 v2); [|done|done|exact Hc1]. apply (steady_dev v1); [done|]. apply steady_refl, Hst. }
    apply (live_added v v3 s l key flags val Hl Hx3 Hs3); [by eapply steady_trans| |exact Hpad].
    apply (chain_block0 v2 v3); [done| |done|exact Hc2]. unfold vsb. by destruct (same_rest_fields v v3 Hs3) as (-> & _).
Qed.

End ops.
End DeltaLog.
