(* ===== verification/Mem.v ===== *)
(** * A plain memory as storage

    A byte for every address and no faults: a storage on which whole segments
    can be written, for the examples of the delta log. *)

From S2P Require Import Prelude Dev.

Module Mem.

Record mem := mkMem { m_byte : Z -> Z }.

Definition mem_write (off : Z) (bs : bytes) (d : mem) : mem :=
  mkMem (fun a => if (off <=? a) && (a <? off + zlen bs) then nthZ bs (a - off) else m_byte d a).

#[export] Instance mem_dev : Dev mem := {
  dev_pread off n := fun d => (Some (map (m_byte d) (seqZ off n)), d);
  dev_pwrite off bs := fun d => (Some tt, mem_write off bs d);
  dev_barrier d := (BarOk, d);
  dev_degraded _ := false;
  dev_latched _ := false;
  dev_latch d := d
}.

#[export] Program Instance mem_laws : DevLaws mem := {
  dview := m_byte;
  dwf _ := True;
  dok _ _ _ := True;
  dquiet _ := True;
  dcap _ := 2 ^ 62
}.
Next Obligation. done. Qed.
Next Obligation. done. Qed.
Next Obligation. done. Qed.
Next Obligation. intros off n d r d' ? ? ? ? ? [= <- <-]. split_and!; try done. by intros bs [= <-]. Qed.
Next Obligation.
  intros off bs d r d' ? ? ? ? [= <- <-]. split_and!; try done. intros _. split.
  - intros a Ha. cbn. destruct (_ && _) eqn:Hb; [zbool; lia|done].
  - intros _ a Ha. cbn. by rewrite (proj2 (Z.leb_le _ _)), (proj2 (Z.ltb_lt _ _)) by lia.
Qed.
Next Obligation. intros d r d' ? ? [= <- <-]. by split_and!. Qed.
Next Obligation. done. Qed.
Next Obligation. intros. by eexists _, _. Qed.
Next Obligation. intros. by eexists _. Qed.
Next Obligation. intros. by eexists _. Qed.
Next Obligation. done. Qed.

End Mem.
