(* ===== verification/DeltaHeal.v ===== *)
(** * Rollback and healing of the delta log

    After a refused fence the staged group is rolled back: the overlay forgets
    its records, and their spans on the storage become pads.  Here: the
    healing step keeps the promise of Anchor.v, writes what it should, and the
    rollback of a group that lies in the first block of its segment restores
    the overlay. *)

From S2P Require Import Prelude Crc32c Dev Alloc Volume Anchor Page Metabuf Keys Kv DeltaIndex DeltaRec Delta DeltaLog Mem.

Module DeltaHeal.
Import Crc32c Alloc Volume Anchor Page Metabuf Keys Kv DeltaIndex DeltaRec Delta DeltaLog Mem.

Definition in_span (e : delta_staged_rec) (a : Z) : Prop := st_off e <= a < st_off e + st_len e.

(** An entry that still has its bytes has as many as its span. *)
Definition entry_ok (e : delta_staged_rec) : Prop :=
  0 <= st_off e /\ 0 <= st_len e < 2 ^ 64 /\ forall bs, st_bytes e = Some bs -> zlen bs = st_len e.

Lemma pad_build_len len : INVFS_DELTA_REC_HDR_LEN + 1 <= len < 2 ^ 64 -> zlen (vol_delta_pad_build len) = len.
Proof.
  intros Hl. assert (INVFS_DELTA_REC_HDR_LEN = 10) by reflexivity.
  destruct (pad_build_spec len) as (rs & _ & -> & Hr); [lia|]. exact Hr.
Qed.

(** ** The promise to the fences *)

Section laws.
Context {D : Type} `{!Dev D, !DevLaws D}.
Abbreviation V := (vol D dlog).
Implicit Types v : V.

Definition spans_ok (es : list delta_staged_rec) (d : D) : Prop :=
  Forall (fun e => entry_ok e /\ dok d (st_off e) (st_len e)) es.

Lemma spans_ok_dok es d d' :
  (forall o m, dok d' o m <-> dok d o m) -> spans_ok es d -> spans_ok es d'.
Proof. intros Hd H. eapply Forall_impl; [|exact H]. intros e [He Hk]. split; [done|by apply Hd]. Qed.

(** Writing inside some spans, on a storage that does not latch. *)
Definition heals (es : list delta_staged_rec) v v' : Prop :=
  vdev v v' /\ forall a, Forall (fun e => ~ in_span e a) es -> view v' a = view v a.

Lemma heals_refl es v : dwf (v_dev v) -> heals es v v.
Proof. intros. split; [by apply vdev_refl|done]. Qed.
Lemma heals_trans es v1 v2 v3 : heals es v1 v2 -> heals es v2 v3 -> heals es v1 v3.
Proof. intros [A1 B1] [A2 B2]. split; [by eapply vdev_trans|]. intros. by rewrite B2, B1. Qed.
Lemma heals_sub es es' v v' : (forall e, e ∈ es -> e ∈ es') -> heals es v v' -> heals es' v v'.
Proof.
  intros Hs [A B]. split; [done|]. intros a Ha. apply B. apply Forall_forall. intros e He.
  rewrite Forall_forall in Ha. by apply Ha, list_elem_of_In, Hs, list_elem_of_In.
Qed.

Lemma heal_write v e bs r v' :
  dwf (v_dev v) -> latched v' = false -> entry_ok e -> dok (v_dev v) (st_off e) (st_len e) ->
  zlen bs = st_len e -> io_pwrite (st_off e) bs v = (r, v') -> heals [e] v v' /\ latched v = false.
Proof.
  intros Hw Hl (Ho & Hn & _) Hk Hb H. pose proof (latched_pwrite _ _ _ _ _ H Hl) as Hl0.
  apply io_pwrite_spec in H as [Hd Hv]; [|done|done|done|by rewrite Hb].
  split; [|done]. split; [done|]. intros a [Ha _]%Forall_cons_iff. apply (proj1 (Hv Hl)). by rewrite Hb.
Qed.

Lemma pad_span_run off len v r v' :
  dl_pad_span off len v = (r, v') ->
  (v' = v /\ r = None) \/
  (INVFS_DELTA_REC_HDR_LEN + 1 <= len /\ io_pwrite off (vol_delta_pad_build len) v = (r, v')).
Proof.
  unfold dl_pad_span. destruct (Z.leb_spec (INVFS_DELTA_REC_HDR_LEN + 1) len); [|by intros [= <- <-]; left].
  destruct (_ =? len); [intros H'; by right|by intros [= <- <-]; left].
Qed.

Lemma latched_pad_spans es : forall v r v',
  pad_spans es v = (r, v') -> latched v' = false -> latched v = false.
Proof.
  induction es as [|e es IH]; intros v r v'; [by intros [= _ <-]|]. cbn [pad_spans].
  unfold mbind', mtry. destruct (dl_pad_span _ _ v) as [r1 v1] eqn:E1. intros H Hl.
  apply IH in H; [|done]. apply pad_span_run in E1 as [[-> _]|[_ E1]]; [done|]. by eapply latched_pwrite.
Qed.

Lemma latched_rewrite_spans es : forall v r v',
  rewrite_spans es v = (r, v') -> latched v' = false -> latched v = false.
Proof.
  induction es as [|e es IH]; intros v r v'; [by intros [= _ <-]|]. cbn [rewrite_spans].
  destruct (st_bytes e) as [bs|]; [|apply IH]. unfold mbind', mtry.
  destruct (io_pwrite _ _ v) as [[[]|] v1] eqn:E1; [|intros [= _ <-] Hl; by eapply latched_pwrite].
  intros H Hl. apply IH in H; [|done]. by eapply latched_pwrite.
Qed.

Lemma pad_spans_law es : forall v r v',
  dwf (v_dev v) -> latched v' = false -> spans_ok es (v_dev v) -> pad_spans es v = (r, v') ->
  heals es v v' /\ r = Some tt.
Proof.
  induction es as [|e es IH]; intros v r v' Hw Hl Hs; [intros [= <- <-]; by split; [apply heals_refl|]|].
  apply Forall_cons_iff in Hs as [[He Hk] Hs]. cbn [pad_spans]. unfold mbind', mtry.
  destruct (dl_pad_span _ _ v) as [r1 v1] eqn:E1. intros H. pose proof (latched_pad_spans _ _ _ _ H Hl) as Hl1.
  assert (H1 : heals [e] v v1).
  { apply pad_span_run in E1 as [[-> _]|[Hn E1]]; [by apply heals_refl|].
    eapply (heal_write v e); [done|done|done|done| |exact E1]. apply pad_build_len.
    destruct He as (_ & ? & _). lia. }
  pose proof H1 as [[_ [Hw1 Hd1]] _].
  destruct (IH v1 r v' Hw1 Hl (spans_ok_dok _ _ _ Hd1 Hs) H) as [H2 ->]. split; [|done].
  apply (heals_trans _ v v1).
  - eapply heals_sub; [|exact H1]. intros x ->%list_elem_of_singleton. left.
  - eapply heals_sub; [|exact H2]. intros x. by right.
Qed.

Lemma rewrite_spans_law es : forall v r v',
  dwf (v_dev v) -> latched v' = false -> spans_ok es (v_dev v) -> rewrite_spans es v = (r, v') -> heals es v v'.
Proof.
  induction es as [|e es IH]; intros v r v' Hw Hl Hs; [intros [= <- <-]; by apply heals_refl|].
  apply Forall_cons_iff in Hs as [[He Hk] Hs]. cbn [rewrite_spans].
  assert (Hsub : forall w w', heals es w w' -> heals (e :: es) w w').
  { intros w w'. apply heals_sub. intros x. by right. }
  destruct (st_bytes e) as [bs|] eqn:Eb; [|intros H; by eapply Hsub, IH].
  unfold mbind', mtry. destruct (io_pwrite _ _ v) as [r1 v1] eqn:E1. intros H.
  assert (Hl1 : latched v1 = false).
  { destruct r1; [by eapply latched_rewrite_spans|]. by injection H as <- <-. }
  assert (H1 : heals [e] v v1).
  { eapply (heal_write v e); [done|done|done|done| |exact E1]. by apply He. }
  pose proof H1 as [[_ [Hw1 Hd1]] _].
  apply (heals_trans _ v v1).
  - eapply heals_sub; [|exact H1]. intros x ->%list_elem_of_singleton. left.
  - destruct r1 as [[]|].
    + apply Hsub. exact (IH v1 r v' Hw1 Hl (spans_ok_dok _ _ _ Hd1 Hs) H).
    + injection H as <- <-. by apply heals_refl.
Qed.
Lemma heal_run v r v' :
  vol_delta_heal v = (r, v') ->
  (v' = v) \/
  exists v1, pad_spans (take (delta_doomed (v_x v)) (delta_staged (v_x v))) v = (Some tt, v1) /\
    rewrite_spans (drop (delta_doomed (v_x v)) (delta_staged (v_x v))) v1 = (r, v').
Proof.
  unfold vol_delta_heal, heal_if_needed. rewrite (mbind_eq _ _ _ v v) by done.
  destruct (_ && _); [|intros [= _ <-]; by left]. unfold dl_staged_heal.
  rewrite (mbind_eq _ _ _ v v) by done. intros H. right.
  assert (Hp : forall es w, exists w', pad_spans es w = (Some tt, w')).
  { induction es as [|e es IH]; intros w; [by eexists|]. cbn [pad_spans]. unfold mbind', mtry.
    destruct (dl_pad_span _ _ w) as [r1 w1]. apply IH. }
  destruct (Hp (take (delta_doomed (v_x v)) (delta_staged (v_x v))) v) as [v1 E1]. exists v1. split; [done|].
  unfold mbind' in H. by rewrite E1 in H.
Qed.

(** The healing step of the delta log is one the fences can call. *)
#[export] Program Instance delta_heal_laws : HealLaws (vol_delta_heal (D := D)) := {
  heal_area x a := Exists (fun e => in_span e a) (delta_staged x);
  heal_inv x d := spans_ok (delta_staged x) d
}.
Next Obligation. intros x d d' Hd. by apply spans_ok_dok. Qed.
Next Obligation.
  intros v r v' [->|(v1 & E1 & E2)]%heal_run Hl; [done|].
  eapply latched_pad_spans; [exact E1|]. by eapply latched_rewrite_spans.
Qed.
Next Obligation.
  intros v r v' Hw Hl Hs H. assert (Hh : heals (delta_staged (v_x v)) v v').
  { apply heal_run in H as [->|(v1 & E1 & E2)]; [by apply heals_refl|].
    set (n := delta_doomed (v_x v)) in *. set (es := delta_staged (v_x v)) in *.
    change (spans_ok es (v_dev v)) in Hs. rewrite <- (take_drop n es) in Hs. apply Forall_app in Hs as [Hs1 Hs2].
    destruct (pad_spans_law _ v _ v1 Hw (latched_rewrite_spans _ _ _ _ E2 Hl) Hs1 E1) as [H1 _].
    pose proof H1 as [[_ [Hw1 Hd1]] _].
    pose proof (rewrite_spans_law _ v1 _ v' Hw1 Hl (spans_ok_dok _ _ _ Hd1 Hs2) E2) as H2.
    apply (heals_trans _ v v1); eapply heals_sub; [|exact H1| |exact H2]; intros e He.
    - rewrite <- (take_drop n es). apply elem_of_app. by left.
    - rewrite <- (take_drop n es). apply elem_of_app. by right. }
  destruct Hh as [(Ev & Hw' & Hd) Hv]. assert (Ex : v_x v' = v_x v) by by rewrite Ev.
  split_and!; [|done|done| | |].
  - rewrite Ex. rewrite Ev at 1. by destruct v.
  - rewrite Ex. by eapply spans_ok_dok.
  - by rewrite Ex.
  - intros a Ha. apply Hv. apply Forall_forall. intros e He Hin. apply Ha. apply Exists_exists. by exists e.
Qed.

(** ** What healing writes *)

Definition apart_spans (e e' : delta_staged_rec) : Prop :=
  st_off e + st_len e <= st_off e' \/ st_off e' + st_len e' <= st_off e.
Fixpoint all_apart (es : list delta_staged_rec) : Prop :=
  match es with [] => True | e :: es => Forall (apart_spans e) es /\ all_apart es end.

Definition writable v (e : delta_staged_rec) : Prop := entry_ok e /\ may v (st_off e) (st_len e).

(** The entries' spans hold what they should, and nothing else changed. *)
Definition healed v v' (es : list delta_staged_rec) (want : delta_staged_rec -> option bytes) : Prop :=
  v' = set_v_dev (v_dev v') v /\ steady v v' /\
  (forall a, Forall (fun e => ~ in_span e a) es -> view v' a = view v a) /\
  Forall (fun e => forall bs, want e = Some bs -> vrange v' (st_off e) (st_len e) = bs) es.

Lemma healed_cons v v1 v2 e es want :
  Forall (apart_spans e) es -> healed v v1 [e] want -> healed v1 v2 es want -> healed v v2 (e :: es) want.
Proof.
  intros Hap (E1 & S1 & V1 & W1) (E2 & S2 & V2 & W2). apply Forall_cons_iff in W1 as [W1 _]. split_and!.
  - rewrite E2, E1. done.
  - by eapply steady_trans.
  - intros a [Ha Has]%Forall_cons_iff. rewrite V2, V1; [done|by constructor|done].
  - constructor; [|done]. intros bs Hb. rewrite <- (W1 bs Hb). apply vrange_ext. intros a Ha. apply V2.
    eapply Forall_impl; [|exact Hap]. intros e' Hd Hin. unfold apart_spans, in_span in *. lia.
Qed.

Lemma healed_id v e want : faultless v -> want e = None -> healed v v [e] want.
Proof.
  intros Hq Hw. split_and!; [by destruct v|by apply steady_refl|done|]. constructor; [|done].
  intros bs. by rewrite Hw.
Qed.

Lemma healed_write v e bs want d :
  let v1 := set_v_dev d v in
  steady v v1 -> (forall a, ~ (st_off e <= a < st_off e + zlen bs) -> view v1 a = view v a) ->
  vrange v1 (st_off e) (zlen bs) = bs -> zlen bs = st_len e -> want e = Some bs -> healed v v1 [e] want.
Proof.
  intros v1 Hst Hv HR Hl Hw. split_and!; [done|done| |].
  - intros a [Ha _]%Forall_cons_iff. apply Hv. by rewrite Hl.
  - constructor; [|done]. intros bs' Hb. rewrite <- Hl. congruence.
Qed.

Lemma writable_steady v v' es : steady v v' -> Forall (writable v) es -> Forall (writable v') es.
Proof. intros Hst H. eapply Forall_impl; [|exact H]. intros e [? ?]. split; [done|by eapply may_steady]. Qed.

(** A pad of the span's length, where one fits. *)
Definition want_pad (e : delta_staged_rec) : option bytes :=
  if INVFS_DELTA_REC_HDR_LEN + 1 <=? st_len e then Some (vol_delta_pad_build (st_len e)) else None.

Lemma pad_spans_tot es : forall v,
  faultless v -> Forall (writable v) es -> all_apart es ->
  tot (pad_spans es) v (fun _ v' => healed v v' es want_pad).
Proof.
  induction es as [|e es IH]; intros v Hq Hw Ha; cbn [pad_spans].
  { apply tot_ret. split_and!; [by destruct v|by apply steady_refl|done|constructor]. }
  apply Forall_cons_iff in Hw as [[He Hm] Hw]. destruct Ha as [Ha Has].
  apply tot_bind. apply (tot_mono _ _ (fun _ v1 => healed v v1 [e] want_pad)).
  - unfold dl_pad_span. destruct (Z.leb_spec (INVFS_DELTA_REC_HDR_LEN + 1) (st_len e)) as [Hn|Hn].
    + assert (Hl : zlen (vol_delta_pad_build (st_len e)) = st_len e) by (apply pad_build_len; destruct He as (_ & ? & _); lia).
      apply tot_try, tot_bind, tot_guard; [done|]. apply tot_bind, tot_guard; [by apply Z.eqb_eq|].
      apply tot_pwrite; [done|by rewrite Hl|]. intros d v1 Hst Hv HR.
      apply (healed_write v e _ want_pad d Hst Hv HR Hl). unfold want_pad. by rewrite (proj2 (Z.leb_le _ _)) by lia.
    + exists None, v. split; [done|]. apply healed_id; [done|]. unfold want_pad. by rewrite (proj2 (Z.leb_gt _ _)) by lia.
  - intros r v1 H1. pose proof H1 as (_ & Hst & _).
    eapply tot_mono; [apply IH; [apply Hst|by apply (writable_steady v)|done]|].
    intros [] v2 H2. by eapply healed_cons.
Qed.

Lemma rewrite_spans_tot es : forall v,
  faultless v -> Forall (writable v) es -> all_apart es ->
  tot (rewrite_spans es) v (fun _ v' => healed v v' es st_bytes).
Proof.
  induction es as [|e es IH]; intros v Hq Hw Ha; cbn [rewrite_spans].
  { apply tot_ret. split_and!; [by destruct v|by apply steady_refl|done|constructor]. }
  apply Forall_cons_iff in Hw as [[He Hm] Hw]. destruct Ha as [Ha Has].
  assert (Hrest : forall v1, healed v v1 [e] st_bytes ->
    tot (rewrite_spans es) v1 (fun _ v' => healed v v' (e :: es) st_bytes)).
  { intros v1 H1. pose proof H1 as (_ & Hst & _).
    eapply tot_mono; [apply IH; [apply Hst|by apply (writable_steady v)|done]|].
    intros [] v2 H2. by eapply healed_cons. }
  destruct (st_bytes e) as [bs|] eqn:Eb; [|by apply Hrest, healed_id].
  assert (Hl : zlen bs = st_len e) by by apply He.
  apply tot_bind, tot_try, tot_pwrite; [done|by rewrite Hl|]. intros d v1 Hst Hv HR.
  apply Hrest. by apply (healed_write v e bs st_bytes d).
Qed.

Lemma all_apart_app es1 es2 :
  all_apart (es1 ++ es2) ->
  all_apart es1 /\ all_apart es2 /\ Forall (fun e => Forall (apart_spans e) es2) es1.
Proof.
  induction es1 as [|e es IH]; [done|]. cbn [app all_apart]. intros [H [H1 [H2 H3]]%IH].
  apply Forall_app in H as [? ?]. split_and!; [done|done|done|by constructor].
Qed.

(** C20: healing is exact.  On a storage without faults, with retained spans
    that do not overlap, the healing step that follows a failed fence answers,
    turns every rolled-back span that can hold a pad into pad records, which
    replay skips, rewrites every live span with its retained bytes, and
    changes no other byte and nothing else of the handle. *)
Theorem delta_heal_exact v :
  let x := v_x v in
  faultless v -> Forall (writable v) (delta_staged x) -> all_apart (delta_staged x) ->
  delta_rewrite_needed x = true -> delta_staged x <> [] ->
  exists v', vol_delta_heal v = (Some tt, v') /\ v' = set_v_dev (v_dev v') v /\
    (forall a, Forall (fun e => ~ in_span e a) (delta_staged x) -> view v' a = view v a) /\
    Forall (fun e => INVFS_DELTA_REC_HDR_LEN + 1 <= st_len e ->
      exists rs, Forall is_pad rs /\ vrange v' (st_off e) (st_len e) = recs_bytes rs)
      (take (delta_doomed x) (delta_staged x)) /\
    Forall (fun e => forall bs, st_bytes e = Some bs -> vrange v' (st_off e) (st_len e) = bs)
      (drop (delta_doomed x) (delta_staged x)).
Proof.
  intros x Hq Hw Ha Hn Hne. unfold x in *. clear x.
  set (n := delta_doomed (v_x v)) in *. set (es := delta_staged (v_x v)) in *.
  pose proof Hw as Hw'. pose proof Ha as Ha'. rewrite <- (take_drop n es) in Hw', Ha'.
  apply Forall_app in Hw' as [Hw1 Hw2]. apply all_apart_app in Ha' as (Ha1 & Ha2 & Hx).
  destruct (pad_spans_tot _ v Hq Hw1 Ha1) as ([] & v1 & R1 & E1 & S1 & V1 & P1).
  destruct (rewrite_spans_tot _ v1 (sy_quiet _ _ S1) (writable_steady v v1 _ S1 Hw2) Ha2)
    as ([] & v2 & R2 & E2 & S2 & V2 & P2).
  exists v2. split_and!.
  - unfold vol_delta_heal, heal_if_needed. rewrite (mbind_eq _ _ _ v v) by done. rewrite Hn. fold es.
    destruct (Z.eqb_spec (zlen es) 0); [destruct es; [done|cbn in *; lia]|]. cbn [negb andb].
    unfold dl_staged_heal. rewrite (mbind_eq _ _ _ v v) by done. fold n es. by rewrite (mbind_eq _ _ _ _ _ R1).
  - rewrite E2, E1. done.
  - intros a Hns. rewrite <- (take_drop n es) in Hns. apply Forall_app in Hns as [N1 N2]. by rewrite V2, V1.
  - apply Forall_forall. intros e He Hl. rewrite Forall_forall in P1, Hx, Hw1.
    destruct (Hw1 e He) as [(_ & Hl2 & _) _].
    destruct (pad_build_spec (st_len e)) as (rs & Hpad & Hb & _); [unfold INVFS_DELTA_REC_HDR_LEN in *; lia|].
    exists rs. split; [done|]. rewrite <- Hb, <- (P1 e He (vol_delta_pad_build (st_len e)));
      [|unfold want_pad; by rewrite (proj2 (Z.leb_le _ _)) by lia].
    apply vrange_ext. intros a Hin. apply V2. eapply Forall_impl; [|exact (Hx e He)].
    intros e' Hd Hin'. unfold apart_spans, in_span in *. lia.
  - exact P2.
Qed.
End laws.

(** ** Rollback *)

Section rollback.
Context (E : penv).

(** A record staged behind the last one: retained, counted, indexed.
    Source: core/vol_delta.c:1274-1375 [vol_delta_append] *)
Definition stage_one (x : dlog) (r : lrec) : dlog :=
  let abs := delta_seg_pba x * INVFS_BLOCK_SIZE + delta_bump x in
  let x := dl_staged_keep abs (rec_bytes r) (lr_key r) x in
  let x := set_delta_pending_bytes (delta_pending_bytes x + rec_len r)
             (set_delta_pending (delta_pending x + 1) x) in
  append_index E (lr_key r) (rec_len r) (lr_flags r) (zlen (lr_val r)) x.

Definition map_is (x : dlog) (m : gmap bytes delta_ref) : Prop :=
  exists di, d_index x = Some di /\ di_ok di /\ di_map di = m.

Definition staged_entry (x : dlog) (m : gmap bytes delta_ref) (r : lrec) : delta_staged_rec :=
  mkStaged (delta_seg_pba x * INVFS_BLOCK_SIZE + delta_bump x) (rec_len r) (Some (rec_bytes r)) (m !! lr_key r).
Definition staged_ref (x : dlog) (r : lrec) : delta_ref :=
  mkRef (delta_seg_pba x) (delta_bump x) (u64 (delta_seq x + 1)) (lr_flags r) (zlen (lr_val r)).

Lemma stage_one_facts x m r :
  map_is x m ->
  let x' := stage_one x r in
  map_is x' (<[lr_key r := staged_ref x r]> m) /\
  delta_staged x' = delta_staged x ++ [staged_entry x m r] /\ delta_doomed x' = delta_doomed x /\
  delta_seg_pba x' = delta_seg_pba x /\ delta_bump x' = delta_bump x + rec_len r.
Proof.
  intros (di & Hd & Hok & Hm) x'. unfold x', stage_one.
  set (x1 := set_delta_pending_bytes _ _).
  assert (H1 : d_index x1 = Some di /\ delta_doomed x1 = delta_doomed x /\ delta_seg_pba x1 = delta_seg_pba x /\
    delta_bump x1 = delta_bump x /\ delta_seq x1 = delta_seq x /\
    delta_staged x1 = delta_staged x ++ [staged_entry x m r]).
  { unfold x1, dl_staged_keep. rewrite Hd, find_ref_map, Hm, length_drec_bytes by done. done. }
  clearbody x1. destruct H1 as (I1 & I2 & I3 & I4 & I5 & I6).
  unfold append_index. change (d_index (set_delta_seq _ x1)) with (d_index x1). rewrite I1.
  destruct (di_put di (lr_key r) _) as [di' ins] eqn:Ep. apply di_put_spec in Ep as (Hok' & Hm' & _); [|done].
  assert (Hmap : di_map di' = <[lr_key r := staged_ref x r]> m).
  { rewrite Hm', Hm. unfold staged_ref. cbn. by rewrite I3, I4, I5. }
  destruct ins, (delta_oldest_seq _ =? 0); (split; [by exists di'|]); cbn; by rewrite I2, I3, I4, I6.
Qed.

(** What the rollback of one entry decodes of its retained bytes. *)
Lemma doom_entry_eq x m r y di :
  rec_ok r -> is_padb r = false -> d_index y = Some di -> di_ok di ->
  let e := staged_entry x m r in
  dl_doom_entry e y =
  match di_find di (lr_key r) with
  | None => y
  | Some idx =>
      match di_slot di !! idx with
      | Some (Some s) =>
          let seg := st_off e / INVFS_BLOCK_SIZE in
          let off := st_off e - seg * INVFS_BLOCK_SIZE in
          if (r_seg (s_ref s) =? seg) && (r_off (s_ref s) =? off) then
            match m !! lr_key r with
            | Some p =>
                set_d_index (Some (mkDi (<[idx := Some (mkSlot (s_key s) p)]> (di_slot di))
                  (di_used di) (di_inst di) (di_epoch di + 1))) y
            | None =>
                let y := set_d_index (Some (di_delete_at di idx)) y in
                if 0 <? delta_records y then set_delta_records (delta_records y - 1) y else y
            end
          else y
      | _ => y
      end
  end.
Proof.
  intros Hr Hp Hd Hok e. destruct (rec_fields r Hr) as (F1 & F2 & F3 & F4 & _).
  pose proof (ro_key r Hr) as Hk.
  unfold dl_doom_entry. cbn [e staged_entry st_bytes st_len st_prev]. rewrite Hd.
  rewrite (proj2 (Z.ltb_ge _ _)) by (unfold rec_len; lia).
  rewrite F1, F2, F3, F4. rewrite (proj2 (Z.eqb_neq (zlen (lr_key r)) 0)) by lia.
  change (rec_len r) with (INVFS_DELTA_REC_HDR_LEN + zlen (lr_key r) + zlen (lr_val r)).
  rewrite Z.eqb_refl. unfold is_padb in Hp. apply negb_false_iff in Hp. rewrite Hp. done.
Qed.

(** The two halves of the absolute offset. *)
Lemma split_off seg off :
  let at_ := seg * INVFS_BLOCK_SIZE + off in
  0 <= off ->
  (if off <? INVFS_BLOCK_SIZE
   then at_ / INVFS_BLOCK_SIZE = seg /\ at_ - at_ / INVFS_BLOCK_SIZE * INVFS_BLOCK_SIZE = off
   else at_ / INVFS_BLOCK_SIZE <> seg).
Proof.
  intros at_ Ho. unfold at_, INVFS_BLOCK_SIZE.
  destruct (Z.ltb_spec off 4096) as [Hl|Hl].
  - rewrite Z.div_add_l, (Z.div_small off) by lia. lia.
  - rewrite Z.div_add_l by lia. pose proof (Z.div_le_lower_bound off 4096 1). lia.
Qed.

Lemma doom_restores x m r y :
  rec_ok r -> is_padb r = false -> 0 <= delta_bump x < INVFS_BLOCK_SIZE ->
  map_is y (<[lr_key r := staged_ref x r]> m) -> map_is (dl_doom_entry (staged_entry x m r) y) m.
Proof.
  intros Hr Hp Hb (di & Hd & Hok & Hm). rewrite (doom_entry_eq x m r y di Hr Hp Hd Hok).
  pose proof (di_find_spec di (lr_key r) Hok) as Hf. rewrite Hm, lookup_insert_eq in Hf.
  destruct (di_find di (lr_key r)) as [idx|]; [|done]. destruct Hf as (ref & Hs & [= <-]). rewrite Hs.
  pose proof (split_off (delta_seg_pba x) (delta_bump x) (proj1 Hb)) as Ho.
  rewrite (proj2 (Z.ltb_lt (delta_bump x) _)) in Ho by lia. destruct Ho as [O1 O2].
  cbn [staged_entry st_off s_ref staged_ref r_seg r_off s_key]. rewrite O2, O1, !Z.eqb_refl. cbn [andb].
  destruct (m !! lr_key r) as [p|] eqn:Em.
  - destruct (di_replace_spec di idx (lr_key r) _ p (di_epoch di + 1) Hok Hs) as [Hok' Hm'].
    eexists. split_and!; [done|exact Hok'|]. rewrite Hm', Hm, insert_insert_eq. by apply insert_id.
  - destruct (di_delete_at_spec di idx (lr_key r) _ Hok Hs) as [Hok' Hm'].
    exists (di_delete_at di idx). split_and!; [by case_match|done|].
    by rewrite Hm', Hm, delete_insert_eq, delete_id.
Qed.

Lemma doom_step_map x e m : map_is (dl_doom_entry e x) m -> map_is (doom_step x e) m.
Proof.
  intros (di & Hd & H). exists di. split; [|done]. rewrite <- Hd. unfold doom_step.
  set (x1 := set_delta_pending_bytes _ _).
  assert (Hx : exists a b, x1 = set_delta_pending_bytes b (set_delta_pending a x)).
  { unfold x1. destruct (0 <? delta_pending x); [by eexists _, _|].
    exists (delta_pending x). eexists. by destruct x. }
  destruct Hx as (a & b & ->). unfold dl_doom_entry. destruct x. cbn. repeat case_match; done.
Qed.

(** Newest first, a group unwinds. *)
Lemma doom_group rs : forall x m,
  map_is x m -> Forall rec_ok rs -> Forall (fun r => is_padb r = false) rs -> 0 <= delta_bump x ->
  (forall pre r post, rs = pre ++ r :: post -> delta_bump x + recs_len pre < INVFS_BLOCK_SIZE) ->
  exists es, delta_staged (foldl stage_one x rs) = delta_staged x ++ es /\
    delta_doomed (foldl stage_one x rs) = delta_doomed x /\
    map_is (foldl doom_step (foldl stage_one x rs) (rev es)) m.
Proof.
  induction rs as [|r rs IH]; intros x m Hm Hr Hp Hb Hfit.
  { exists []. rewrite app_nil_r. done. }
  apply Forall_cons_iff in Hr as [Hr Hrs]. apply Forall_cons_iff in Hp as [Hp Hps].
  destruct (stage_one_facts x m r Hm) as (F1 & F2 & F3 & F4 & F5).
  pose proof (rec_len_pos r Hr) as Hpos.
  destruct (IH (stage_one x r) _ F1 Hrs Hps) as (es & G1 & G2 & G3); [lia| |].
  { intros pre r' post ->. specialize (Hfit (r :: pre) r' post eq_refl).
    change (r :: pre) with ([r] ++ pre) in Hfit. rewrite recs_len_app, recs_len_one in Hfit. lia. }
  exists (staged_entry x m r :: es). cbn [foldl]. split_and!.
  - rewrite G1, F2. by rewrite <- app_assoc.
  - by rewrite G2.
  - cbn [rev]. rewrite foldl_app. cbn [foldl]. apply doom_step_map, doom_restores; [done|done| |done].
    specialize (Hfit [] r rs eq_refl). change (recs_len []) with 0 in Hfit. lia.
Qed.

Lemma map_is_lookup {D} `{!Dev D} (v : vol D dlog) x m key :
  map_is x m -> vol_delta_lookup key (set_v_x x v) = m !! key.
Proof.
  intros (di & Hd & Hok & Hm). unfold vol_delta_lookup. cbn [v_x set_v_x]. by rewrite Hd, find_ref_map, Hm.
Qed.

Lemma doom_locked_map x es m :
  delta_staged x = take (delta_doomed x) (delta_staged x) ++ es ->
  map_is (foldl doom_step x (rev es)) m -> map_is (dl_doom_locked x) m.
Proof.
  intros Hs (di & Hd & H). exists di. split; [|done]. unfold dl_doom_locked. cbn [d_index set_delta_rewrite_needed
    set_delta_doomed set_delta_staged].
  assert (Hes : drop (delta_doomed x) (delta_staged x) = es).
  { apply (app_inv_head (take (delta_doomed x) (delta_staged x))). by rewrite take_drop. }
  rewrite Hes. exact Hd.
Qed.

(** What staging does to the delta state when the group stays open. *)
Lemma stage_is_stage_one {D} `{!Dev D} (RC : retire_calls (vol D dlog)) (v : vol D dlog) r d :
  let x := v_x v in
  io_pwrite (delta_seg_pba x * INVFS_BLOCK_SIZE + delta_bump x) (rec_bytes r) v = (Some tt, set_v_dev d v) ->
  group_full (set_delta_pending_bytes (delta_pending_bytes x + rec_len r)
                (set_delta_pending (delta_pending x + 1) x)) = false ->
  delta_stage E RC (lr_key r) (lr_val r) (lr_flags r) v
  = (Some tt, set_v_x (stage_one x r) (set_v_dev d v)).
Proof.
  intros x Hw Hg. unfold delta_stage. rewrite (mbind_eq _ _ _ v v) by done.
  destruct r as [flags key val]. cbn [lr_key lr_val lr_flags] in *.
  unfold mbind' at 1. unfold mtry. unfold x in Hw. rewrite Hw.
  unfold on_x at 1. rewrite (mbind_eq _ _ _ tt (set_v_x (dl_staged_keep
    (delta_seg_pba x * INVFS_BLOCK_SIZE + delta_bump x) (rec_bytes (mkLrec flags key val)) key x) (set_v_dev d v))) by done.
  unfold on_x at 1. erewrite mbind_eq by done. erewrite mbind_eq by done. cbn [v_x set_v_x].
  assert (Hg' : forall a b y, group_full (set_delta_pending_bytes a (set_delta_pending b (dl_staged_keep y
    (rec_bytes (mkLrec flags key val)) key x))) = group_full (set_delta_pending_bytes a (set_delta_pending b x))) by done.
  rewrite Hg'. change (delta_pending_bytes (dl_staged_keep _ _ _ x)) with (delta_pending_bytes x).
  change (delta_pending (dl_staged_keep _ _ _ x)) with (delta_pending x).
  change (INVFS_DELTA_REC_HDR_LEN + zlen key + zlen val) with (rec_len (mkLrec flags key val)).
  rewrite Hg. erewrite mbind_eq by done. unfold on_x at 1. erewrite mbind_eq by done.
  unfold stage_one. cbn [lr_key lr_flags lr_val].
  change (delta_pending_bytes (dl_staged_keep _ _ _ x)) with (delta_pending_bytes x).
  change (delta_pending (dl_staged_keep _ _ _ x)) with (delta_pending x).
  generalize (append_index E key). intros f. reflexivity.
Qed.

(** C19: rollback undoes the group.  When a fence fails, every record staged
    since the last one is forgotten and each key names again the record it
    named before, as long as the records of the group start within the first
    block of their segment. *)
Theorem delta_rollback_exact {D} `{!Dev D} (v : vol D dlog) x m rs key :
  map_is x m -> delta_doomed x = length (delta_staged x) ->
  Forall rec_ok rs -> Forall (fun r => is_padb r = false) rs -> 0 <= delta_bump x ->
  (forall pre r post, rs = pre ++ r :: post -> delta_bump x + recs_len pre < INVFS_BLOCK_SIZE) ->
  vol_delta_lookup key (set_v_x (dl_doom_locked (foldl stage_one x rs)) v) = vol_delta_lookup key (set_v_x x v).
Proof.
  intros Hm Hd Hr Hp Hb Hfit. destruct (doom_group rs x m Hm Hr Hp Hb Hfit) as (es & G1 & G2 & G3).
  rewrite (map_is_lookup v x m) by done. apply map_is_lookup. apply (doom_locked_map _ es); [|done].
  rewrite G1, G2, Hd, take_app_length. done.
Qed.

(** Rollback misses late records.  A record staged behind the first block
    of its segment keeps its place in the overlay when its group is rolled
    back: the rollback compares a block number inside the segment with the
    segment's first block, and lookups go on answering the dead record. *)
Theorem delta_rollback_misses {D} `{!Dev D} (v : vol D dlog) x m r :
  map_is x m -> delta_doomed x = length (delta_staged x) -> rec_ok r -> is_padb r = false ->
  INVFS_BLOCK_SIZE <= delta_bump x ->
  vol_delta_lookup (lr_key r) (set_v_x (dl_doom_locked (stage_one x r)) v) = Some (staged_ref x r).
Proof.
  intros Hm Hd Hr Hp Hb. destruct (stage_one_facts x m r Hm) as (F1 & F2 & F3 & _ & _).
  rewrite (map_is_lookup v _ (<[lr_key r := staged_ref x r]> m)); [by rewrite lookup_insert_eq|].
  apply (doom_locked_map _ [staged_entry x m r]).
  { by rewrite F2, F3, Hd, take_app_length. }
  cbn [rev app foldl]. apply doom_step_map. destruct F1 as (di & Hdi & Hok & Hmap).
  rewrite (doom_entry_eq x m r _ di Hr Hp Hdi Hok).
  pose proof (di_find_spec di (lr_key r) Hok) as Hf. rewrite Hmap, lookup_insert_eq in Hf.
  destruct (di_find di (lr_key r)) as [idx|]; [|by exists di]. destruct Hf as (ref & Hs & [= <-]). rewrite Hs.
  pose proof (split_off (delta_seg_pba x) (delta_bump x) ltac:(unfold INVFS_BLOCK_SIZE in *; lia)) as Ho.
  rewrite (proj2 (Z.ltb_ge (delta_bump x) _)) in Ho by lia.
  cbn [staged_entry st_off s_ref staged_ref r_seg r_off]. rewrite (proj2 (Z.eqb_neq (delta_seg_pba x) _)) by done.
  cbn [andb]. by exists di.
Qed.
End rollback.

(** ** Examples *)

Definition demo_env : penv := mkPenv None None 0.
Definition demo_rec : lrec := mkLrec 0 [107] [118; 119].

(** A handle whose head segment is at block 20 and whose cursor is at [bump]. *)
Definition demo_log (bump : Z) : dlog :=
  mkDlog (Some (di_new 0)) 1 20 1 bump 0 0 1 0 true 0 0 64 262144 [] 0 false [] 0 0 0 0 0 false
    (mkSbRest (zeros 8) (zeros 32) 0 0 (zeros 3) 0).
Definition demo_at (x : dlog) : vol Mem.mem dlog :=
  mkVol (Mem.mkMem (fun _ => 0)) demo_avol 0 0 1 0 true rt_zero AnchorOk anc_zero false false
    (zeros 32) orph_init true null_ptr null_ptr x.

Lemma demo_map bump : map_is (demo_log bump) ∅.
Proof. exists (di_new 0). destruct (di_new_ok 0). by split_and!. Qed.
Lemma demo_rec_ok : rec_ok demo_rec.
Proof. split; try done; [by left|by apply bytes_okb_ok|by apply bytes_okb_ok]. Qed.

Lemma delta_rollback_exact_witness :
  vol_delta_lookup [107] (set_v_x (dl_doom_locked (foldl (stage_one demo_env) (demo_log 44) [demo_rec; demo_rec]))
    (demo_at (demo_log 44))) = None.
Proof.
  rewrite (delta_rollback_exact demo_env (demo_at (demo_log 44)) (demo_log 44) ∅ [demo_rec; demo_rec] [107]
    (demo_map 44)).
  - exact (map_is_lookup (demo_at (demo_log 44)) (demo_log 44) ∅ [107] (demo_map 44)).
  - reflexivity.
  - apply Forall_cons_iff. split; [exact demo_rec_ok|]. apply Forall_cons_iff. split; [exact demo_rec_ok|done].
  - repeat constructor.
  - done.
  - intros [|a [|b pre]] r post H.
    + reflexivity.
    + injection H as <- _ _. reflexivity.
    + injection H as _ _ H. by destruct pre.
Defined.

Lemma delta_rollback_misses_witness :
  vol_delta_lookup [107] (set_v_x (dl_doom_locked (stage_one demo_env (demo_log 5000) demo_rec))
    (demo_at (demo_log 5000))) = Some (mkRef 20 5000 1 0 2).
Proof.
  exact (delta_rollback_misses demo_env (demo_at (demo_log 5000)) (demo_log 5000) ∅ demo_rec (demo_map 5000)
    eq_refl demo_rec_ok eq_refl ltac:(done)).
Defined.

(** One rolled-back record and one live one. *)
Definition demo_sick : dlog :=
  set_delta_rewrite_needed true (set_delta_doomed 1
    (set_delta_staged [mkStaged 81964 13 None None; mkStaged 81977 13 (Some (rec_bytes demo_rec)) None] (demo_log 70))).

Lemma delta_heal_exact_witness :
  exists v', vol_delta_heal (demo_at demo_sick) = (Some tt, v') /\ vrange v' 81977 13 = rec_bytes demo_rec.
Proof.
  destruct (delta_heal_exact (demo_at demo_sick)) as (v' & H1 & _ & _ & _ & H2).
  - exact I.
  - repeat constructor; cbn; try lia; try done. by intros bs [= <-].
  - cbn. split_and!; [|constructor|done]. constructor; [|done]. left. done.
  - reflexivity.
  - done.
  - exists v'. split; [exact H1|]. apply Forall_cons_iff in H2 as [H2 _]. by apply H2.
Defined.

End DeltaHeal.
