(* ===== verification/DeltaAppend.v ===== *)
(** * Appends to the delta log

    The rollover to a new segment and the append over the chains of
    DeltaLog.v: an append on a storage without faults puts its record into the
    log, or answers a refusal and leaves the log as it was. *)

From S2P Require Import Prelude Crc32c Dev Alloc Volume Anchor Page Metabuf Keys Kv DeltaIndex DeltaRec Delta DeltaLog.

Module DeltaAppend.
Import Crc32c Alloc Volume Anchor Page Metabuf Keys Kv DeltaIndex DeltaRec Delta DeltaLog.

Section append.
Context {D : Type} `{!Dev D, !DevLaws D} (E : penv) (RC : retire_calls (vol D dlog)).
Abbreviation V := (vol D dlog).
Implicit Types v : V.

(** What a new segment needs: an allocator whose books are right and know the
    segments, a shadow zone and descriptors that can be written. *)
Record room v (l : list seg) : Prop := {
  rm_alloc : alloc_inv (v_a v);
  rm_used : forall s j, s ∈ l -> sg_pba s <= j < sg_pba s + INVFS_DELTA_SEG_BLOCKS ->
    bit_get (bitmap (v_a v)) j = true /\ j <> anchor_pba (vsb v);
  rm_zone : forall s, s ∈ l -> shadow_zone_start (vsb v) <= sg_pba s;
  rm_may : forall o m, shadow_zone_start (vsb v) * INVFS_BLOCK_SIZE <= o -> 0 <= m ->
    o + m <= (shadow_zone_start (vsb v) + shadow_zone_blocks (vsb v)) * INVFS_BLOCK_SIZE -> may v o m;
  rm_rt : may v INVFS_RT_OFF RT_LEN;
  rm_anc : may v (anchor_pba (vsb v) * INVFS_BLOCK_SIZE) ANC_LEN;
  rm_rtok : rt_ok (rt v);
  rm_uuid : length (sb_uuid (vsb v)) = 16%nat /\ bytes_ok (sb_uuid (vsb v));
  rm_format : 0 <= format_version (vsb v) < 2 ^ 32;
  rm_spt0 : length (spt0 v) = 32%nat /\ bytes_ok (spt0 v)
}.

Lemma anchor_nonneg s : 0 <= total_blocks s -> 0 <= anchor_pba s.
Proof. intros. unfold anchor_pba. destruct (_ =? 0); [done|]. destruct (Z.ltb_spec (total_blocks s) 2); lia. Qed.

Definition in_anc v (a : Z) : Prop :=
  anchor_pba (vsb v) * INVFS_BLOCK_SIZE <= a < anchor_pba (vsb v) * INVFS_BLOCK_SIZE + INVFS_BLOCK_SIZE.

(** The refresh of the anchor when nothing is to heal. *)
Lemma anchor_refresh_tot (heal : M V unit) v :
  (forall w, v_x w = v_x v -> heal w = (Some tt, w)) -> faultless v -> may v (anchor_pba (vsb v) * INVFS_BLOCK_SIZE) ANC_LEN -> anc_ok (anchor_build v) ->
  tot (anchor_refresh heal) v (fun _ v' => v' = set_v_dev (v_dev v') v /\ steady v v' /\
    forall a, INVFS_BLOCK_SIZE <= a -> ~ in_anc v a -> view v' a = view v a).
Proof.
  intros Hh Hq Hm Ha. unfold anchor_refresh. apply tot_bind, tot_get.
  assert (Hid : tot (mret tt) v (fun _ v' => v' = set_v_dev (v_dev v') v /\ steady v v' /\
    forall a, INVFS_BLOCK_SIZE <= a -> ~ in_anc v a -> view v' a = view v a)).
  { apply tot_ret. split_and!; [by destruct v|by apply steady_refl|done]. }
  destruct (anchor_state v); try exact Hid. apply tot_if; intros _; [exact Hid|]. clear Hid.
  pose proof (length_anc_bytes _ Ha) as Hlen.
  apply tot_bind, tot_try, tot_pwrite; [done|by rewrite Hlen|]. rewrite Hlen. intros d v1 Hst Hv _.
  apply tot_bind, tot_try. exists tt, v1. split; [by apply Hh|].
  apply tot_bind, tot_barrier; [apply Hst|]. intros d2 v2 Hst2 Hv2. apply tot_ret. split_and!; [done|by apply (steady_trans v v1)|].
  intros a Hb Hna. rewrite Hv2, Hv; [done| |].
  - unfold in_anc, ANC_LEN, INVFS_BLOCK_SIZE in *. lia.
  - unfold INVFS_DEVT_OFF, DEVT_LEN, INVFS_BLOCK_SIZE in *. lia.
Qed.

Lemma rt30_store_tot (heal : M V unit) v :
  (forall w, v_x w = v_x v -> heal w = (Some tt, w)) -> faultless v -> may v INVFS_RT_OFF RT_LEN ->
  may v (anchor_pba (vsb v) * INVFS_BLOCK_SIZE) ANC_LEN ->
  rt_ok (rt v) -> (forall r, rt_ok r -> anc_ok (anchor_build (set_rt r v))) ->
  tot (mbuf_rt30_store heal) v (fun _ v' =>
    v' = set_v_dev (v_dev v') (set_rt (set_rt_crc (rt_crc (rt v)) (rt v)) v) /\ steady v v' /\
    forall a, INVFS_BLOCK_SIZE <= a -> ~ in_anc v a -> view v' a = view v a).
Proof.
  intros Hh Hq Hm Hma Hr Ha. unfold mbuf_rt30_store. apply tot_bind, tot_mod. apply tot_bind, tot_get.
  set (v0 := set_rt _ v). assert (Hr0 : rt_ok (rt v0)) by by apply rt_ok_crc.
  assert (Hl : zlen (rt_bytes (rt v0)) = RT_LEN) by (rewrite (length_rt_bytes _ Hr0); done).
  apply tot_bind, tot_pwrite; [done|by rewrite Hl|]. rewrite Hl. intros d v1 Hst Hv _.
  apply tot_bind, tot_try. eapply tot_mono.
  { apply anchor_refresh_tot; [exact Hh|apply Hst|exact (may_steady v0 v1 _ _ Hst Hma)|].
    exact (Ha (rt v0) Hr0). }
  intros [] v2 (E2 & Hst2 & Hv2). apply tot_ret. split_and!.
  - rewrite E2. done.
  - apply (steady_trans v v1); [by destruct Hst; split|done].
  - intros a Hb Hna. rewrite Hv2 by done. apply Hv.
    unfold INVFS_RT_OFF, RT_LEN, INVFS_BLOCK_SIZE in *. lia.
Qed.

(** The run a new segment is given is free: no segment of the log is there. *)
Lemma fresh_run v l pba a' :
  room v l -> 
  alloc_blocks (shadow_zone_start (vsb v)) (shadow_zone_blocks (vsb v)) INVFS_DELTA_SEG_BLOCKS false AllocMeta
    (v_a v) = (Some pba, a') ->
  Forall (fun s => apart_segs pba (sg_pba s)) l /\
  0 < pba /\ pba + INVFS_DELTA_SEG_BLOCKS <= total_blocks (vsb v) /\
  shadow_zone_start (vsb v) <= pba /\
  (forall j, pba <= j < pba + INVFS_DELTA_SEG_BLOCKS -> j <> anchor_pba (vsb v)) /\
  alloc_inv a' /\ (exists f, sb a' = set_vol_flags f (vsb v)) /\
  (forall j, 0 <= j -> bit_get (bitmap a') j = in_run pba INVFS_DELTA_SEG_BLOCKS j || bit_get (bitmap (v_a v)) j).
Proof.
  intros Hr Ea. pose proof (rm_alloc v l Hr) as Hi. pose proof (ai_layout _ Hi) as Hl.
  destruct (alloc_blocks_spec ZShadow _ _ _ _ _ _ _ _ Hi (dz_shadow _) (eq_refl : 0 < INVFS_DELTA_SEG_BLOCKS) Ea)
    as (Hi' & Hsb & Hlo & Hhi & Hu & Hb & _).
  pose proof (lay_meta _ Hl). pose proof (lay_raw _ Hl). pose proof (lay_shadow _ Hl). pose proof (lay_end _ Hl).
  change (sb (v_a v)) with (vsb v) in *.
  split_and!; [|lia|lia|lia| |done|done|done].
  - apply Forall_forall. intros s Hs%list_elem_of_In. unfold apart_segs.
    destruct (decide (pba + INVFS_DELTA_SEG_BLOCKS <= sg_pba s)); [by left|].
    destruct (decide (sg_pba s + INVFS_DELTA_SEG_BLOCKS <= pba)); [by right|]. exfalso.
    destruct (Hu (Z.max pba (sg_pba s))) as [Hf _]; [unfold INVFS_DELTA_SEG_BLOCKS in *; lia|].
    destruct (rm_used v l Hr s (Z.max pba (sg_pba s)) Hs) as [Ht _];
      [unfold INVFS_DELTA_SEG_BLOCKS in *; lia|]. congruence.
  - intros j Hj ->. destruct (Hu _ Hj) as [_ Hp]. unfold anchor_block_protected in Hp.
    destruct (Z.eqb_spec (total_blocks (vsb v)) 0); [unfold INVFS_DELTA_SEG_BLOCKS in *; lia|].
    by rewrite Z.eqb_refl in Hp.
Qed.

Definition fresh_seg (gen pba : Z) : seg :=
  mkSeg pba gen [] (zeros (INVFS_DELTA_SEG_BYTES - (INVFS_DELTA_SEG_HDR_LEN + recs_len []))).

Lemma new_segment_tot v l prev pba a' :
  faultless v -> room v l ->
  alloc_blocks (shadow_zone_start (vsb v)) (shadow_zone_blocks (vsb v)) INVFS_DELTA_SEG_BLOCKS false AllocMeta
    (v_a v) = (Some pba, a') ->
  let g := u64 (delta_seg_gen (v_x v) + 1) in
  tot (delta_new_segment prev) v (fun p v' => p = pba /\
    v' = set_v_x (set_delta_seg_gen g (v_x v)) (set_v_dev (v_dev v') (set_v_a a' v)) /\ steady v v' /\
    (forall a, INVFS_BLOCK_SIZE <= a -> ~ in_seg pba a -> view v' a = view v a) /\
    vrange v' (pba * INVFS_BLOCK_SIZE) INVFS_DELTA_SEG_BYTES
      = delta_hdr_encode g prev ++ zeros (INVFS_DELTA_SEG_BYTES - INVFS_DELTA_SEG_HDR_LEN)).
Proof.
  intros Hq Hr Ea g. destruct (fresh_run v l pba a' Hr Ea) as (_ & Hp & Hend & Hlo & _ & _ & [f Hsb] & _).
  unfold delta_new_segment. apply tot_bind, tot_get. apply tot_bind.
  exists pba, (set_v_a a' v). split; [unfold on_alloc; by rewrite Ea|].
  apply tot_bind, tot_on_x. apply tot_bind, tot_get. set (v1 := set_v_x _ _).
  change (delta_seg_gen (v_x v1)) with g. set (img := _ ++ _).
  assert (Hlen : zlen img = INVFS_DELTA_SEG_BYTES).
  { unfold img. rewrite length_app, Nat2Z.inj_add, length_hdr, length_zeros. reflexivity. }
  pose proof (lay_end _ (ai_layout _ (rm_alloc v l Hr))) as Hle. change (sb (v_a v)) with (vsb v) in Hle.
  assert (HB : INVFS_DELTA_SEG_BYTES = INVFS_DELTA_SEG_BLOCKS * INVFS_BLOCK_SIZE) by reflexivity.
  apply tot_bind, tot_try, tot_pwrite; [done| |].
  { rewrite Hlen. apply (rm_may v l Hr); unfold INVFS_BLOCK_SIZE in *; lia. }
  rewrite Hlen. intros d v2 Hst Hv HR. apply tot_bind, tot_barrier; [apply Hst|].
  intros d3 v3 Hst3 Hv3. cbn [fence_ok]. apply tot_ret.
  assert (Hdt : forall a, INVFS_BLOCK_SIZE <= a -> view v3 a = view v2 a).
  { intros a Ha. apply Hv3. unfold INVFS_DEVT_OFF, DEVT_LEN, INVFS_BLOCK_SIZE in *. lia. }
  split_and!; [done|done| | |].
  - apply (steady_trans v v2); [by destruct Hst; split|done].
  - intros a Ha Hn. rewrite Hdt by done. apply Hv. exact Hn.
  - etransitivity; [|exact HR]. apply vrange_ext. intros a Ha. apply Hdt. unfold INVFS_BLOCK_SIZE in *. lia.
Qed.

(** The delta log's state survives writes outside the log. *)
Lemma chain_frame v v' l :
  steady v v' -> total_blocks (vsb v') = total_blocks (vsb v) -> room v l ->
  (forall s a, s ∈ l -> in_seg (sg_pba s) a -> INVFS_BLOCK_SIZE <= a -> ~ in_anc v a ->
     view v' a = view v a) ->
  chain_ok v l -> chain_ok v' l.
Proof.
  intros Hst Ht Hr Hv Hc. apply (chain_ok_ext v v' l Hst Ht); [|exact Hc]. intros s a Hs Ha.
  destruct (chain_seg v l s Hc Hs) as [prev Hok]. pose proof (in_seg_block0 v prev s a Hok Ha) as Hb.
  assert (Hna : ~ in_anc v a).
  { intros Hin. destruct (rm_used v l Hr s (anchor_pba (vsb v)) Hs) as [_ Hx]; [|done].
    destruct Ha as [Ha1 Ha2]. unfold in_anc, INVFS_DELTA_SEG_BYTES, INVFS_DELTA_SEG_BLOCKS, INVFS_BLOCK_SIZE in *.
    lia. }
  exact (Hv s a Hs Ha Hb Hna).
Qed.

Lemma set_rt_delta_ok pba r : 0 <= pba < 2 ^ 64 -> rt_ok r -> rt_ok (set_rt_delta pba r).
Proof. intros Hp []. by constructor. Qed.

(** The root slots of two descriptors are the same. *)
Definition same_roots (r r' : invfs_rt) : Prop :=
  root_slot0 r' = root_slot0 r /\ root_slot1 r' = root_slot1 r /\ rt_seq r' = rt_seq r /\
  rt_page_size r' = rt_page_size r.

(** The fields of the handle the records above speak of. *)
Record rolled v v' (pba : Z) (a' : avol) : Prop := {
  ro_steady : steady v v';
  ro_frame : forall a, INVFS_BLOCK_SIZE <= a -> ~ in_seg pba a -> ~ in_anc v a -> view v' a = view v a;
  ro_image : vrange v' (pba * INVFS_BLOCK_SIZE) INVFS_DELTA_SEG_BYTES
      = delta_hdr_encode (u64 (delta_seg_gen (v_x v) + 1)) (delta_seg_pba (v_x v)) ++
        zeros (INVFS_DELTA_SEG_BYTES - INVFS_DELTA_SEG_HDR_LEN);
  ro_a : v_a v' = a';
  ro_rt : rt_present v' = true /\ delta_pba (rt v') = pba /\ rt_ok (rt v');
  ro_slots : rt_present v = true -> same_roots (rt v) (rt v');
  ro_rest : v' = set_v_x (v_x v') (set_rt (rt v') (set_rt_present true (set_v_a a' (set_v_dev (v_dev v') v))));
  ro_spt0 : spt0 v' = spt0 v;
  ro_x : v_x v' =
    let x := group_closed (set_delta_seg_gen (u64 (delta_seg_gen (v_x v) + 1)) (v_x v)) in
    set_delta_ready true (set_delta_bump INVFS_DELTA_SEG_HDR_LEN
      (set_delta_seg_pba pba (set_delta_segments (delta_segments x + 1) x)))
}.

Lemma rollover_run v l pba a' :
  faultless v -> room v l ->
  alloc_blocks (shadow_zone_start (vsb v)) (shadow_zone_blocks (vsb v)) INVFS_DELTA_SEG_BLOCKS false AllocMeta
    (v_a v) = (Some pba, a') ->
  tot delta_rollover v (fun _ v' => rolled v v' pba a').
Proof.
  intros Hq Hr Ea. destruct (fresh_run v l pba a' Hr Ea) as (_ & Hp & Hend & _ & Hanc & _ & [f Hsb] & _).
  pose proof (lay_size _ (ai_layout _ (rm_alloc v l Hr))) as Hsz. change (sb (v_a v)) with (vsb v) in Hsz.
  assert (Hpr : 0 <= pba < 2 ^ 64) by (unfold INVFS_DELTA_SEG_BLOCKS in *; lia).
  unfold delta_rollover. apply tot_bind, tot_get. apply tot_bind.
  eapply tot_mono; [exact (new_segment_tot v l (delta_seg_pba (v_x v)) pba a' Hq Hr Ea)|].
  intros p v1 (-> & E1 & Hst1 & Hv1 & Hi1). apply tot_bind, tot_mod, tot_bind, tot_mod.
  set (v2 := if rt_present _ then _ else _).
  assert (H2 : exists r, v2 = set_rt_present true (set_rt r v1) /\ rt_ok r /\ delta_pba r = pba /\
    (rt_present v = true -> same_roots (rt v) r)).
  { unfold v2. assert (Hrt : rt_ok (rt v1)) by (rewrite E1; apply (rm_rtok v l Hr)).
    assert (Er1 : rt v1 = rt v /\ rt_present v1 = rt_present v) by (split; by rewrite E1). destruct Er1 as [Er1 Ep1].
    change (rt_present (set_rt _ v1)) with (rt_present v1). destruct (rt_present v1) eqn:Ep.
    - exists (set_rt_delta pba (rt v1)). split; [|split; [by apply set_rt_delta_ok|]].
      + destruct v1. cbn in Ep |- *. by rewrite Ep.
      + split; [reflexivity|]. intros _. rewrite Er1. repeat split.
    - exists (set_rt_delta pba rt_fresh). split; [reflexivity|].
      split; [apply set_rt_delta_ok; [done|apply rt_ok_fresh]|]. split; [reflexivity|]. congruence. }
  destruct H2 as (r & E2 & Hrok & Hrp & Hrs).
  assert (Hsb1 : vsb v2 = set_vol_flags f (vsb v)) by (rewrite E2, E1; exact Hsb).
  assert (Hst2 : steady v v2) by (apply (steady_dev v1); [by rewrite E2|done]).
  assert (Hanc2 : forall r0, rt_ok r0 -> anc_ok (anchor_build (set_rt r0 v2))).
  { intros r0 Hr0. destruct (rm_uuid v l Hr) as [U1 U2], (rm_spt0 v l Hr) as [S1 S2].
    assert (Es : spt0 v2 = spt0 v) by by rewrite E2, E1.
    apply anchor_build_ok; change (vsb (set_rt r0 v2)) with (vsb v2);
      change (spt0 (set_rt r0 v2)) with (spt0 v2); rewrite ?Hsb1, ?Es; [|exact (rm_format v l Hr)|exact U1|exact U2|
      exact Hr0|exact S1|exact S2].
    cbn [total_blocks set_vol_flags]. unfold INVFS_DELTA_SEG_BLOCKS in *. lia. }
  apply tot_bind, tot_try. eapply tot_mono.
  { apply rt30_store_tot; [done|apply Hst2| | |by rewrite E2|exact Hanc2].
    - eapply may_steady; [exact Hst2|apply (rm_rt v l Hr)].
    - rewrite Hsb1. eapply may_steady; [exact Hst2|exact (rm_anc v l Hr)]. }
  intros [] v3 (E3 & Hst3 & Hv3). apply tot_bind, tot_barrier; [apply Hst3|].
  intros d v4 Hst4 Hv4. cbn [fence_ok negb]. apply tot_on_x.
  assert (Hian : forall a, in_anc v2 a <-> in_anc v a) by (intros a; unfold in_anc; by rewrite Hsb1).
  assert (Hw : forall a, INVFS_BLOCK_SIZE <= a -> ~ in_anc v a -> view v4 a = view v1 a).
  { intros a Hb Hna. rewrite Hv4 by (unfold INVFS_DEVT_OFF, DEVT_LEN, INVFS_BLOCK_SIZE in *; lia).
    rewrite Hv3 by (by rewrite ?Hian). by rewrite E2. }
  assert (E4 : v_a v4 = a' /\ spt0 v4 = spt0 v /\ rt v4 = set_rt_crc (rt_crc r) r /\
    rt_present v4 = true /\ v_x v4 = set_delta_seg_gen (u64 (delta_seg_gen (v_x v) + 1)) (v_x v)).
  { unfold v4. rewrite E3, E2, E1.
    cbn [v_a spt0 rt rt_present v_x set_v_dev set_rt set_rt_present set_v_x set_v_a]. split_and!; reflexivity. }
  destruct E4 as (Ea4 & Es4 & Er4 & Ep4 & Ex4). split.
  - apply (steady_dev v4); [done|]. by apply (steady_trans v v3); [apply (steady_trans v v2)|].
  - intros a Hb Hns Hna. etransitivity; [exact (Hw a Hb Hna)|]. exact (Hv1 a Hb Hns).
  - etransitivity; [|exact Hi1]. apply vrange_ext. intros a Ha. apply Hw.
    + unfold INVFS_BLOCK_SIZE in *. lia.
    + intros Hin. apply (Hanc (anchor_pba (vsb v))); [|done].
      unfold in_anc, INVFS_DELTA_SEG_BYTES, INVFS_DELTA_SEG_BLOCKS, INVFS_BLOCK_SIZE in *. lia.
  - exact Ea4.
  - cbn [rt_present rt set_v_x]. rewrite Er4, Ep4. split_and!; [done|exact Hrp|by apply rt_ok_crc].
  - intros Hp4. cbn [rt set_v_x]. rewrite Er4. exact (Hrs Hp4).
  - cbn [v_x v_dev rt rt_present set_v_x]. unfold v4. rewrite E3, E2, E1. done.
  - exact Es4.
  - cbn [v_x set_v_x]. by rewrite Ex4.
Qed.

Lemma head_range v l : chain_ok v l -> total_blocks (vsb v) < 2 ^ 60 -> 0 <= head_pba l < 2 ^ 64.
Proof.
  destruct l as [|s l]; [done|]. intros [Hs _] Ht. cbn [head_pba].
  pose proof (sk_pba _ _ _ Hs). pose proof (sk_end _ _ _ Hs). unfold INVFS_DELTA_SEG_BLOCKS in *. lia.
Qed.

Lemma rolled_live v v' l pba a' :
  live v l -> room v l ->
  alloc_blocks (shadow_zone_start (vsb v)) (shadow_zone_blocks (vsb v)) INVFS_DELTA_SEG_BLOCKS false AllocMeta
    (v_a v) = (Some pba, a') ->
  rolled v v' pba a' ->
  let s := fresh_seg (u64 (delta_seg_gen (v_x v) + 1)) pba in
  live v' (s :: l) /\ room v' (s :: l) /\ zero_tail s.
Proof.
  intros [Hq Hc Hi [Hh Hb] Hrt Hrd Hf Hre [S1 S2 S3 S4 S5]] Hr Ea [Rst Rv Ri Ra [Rp [Rd Rok]] _ _ Rs Rx] s.
  destruct (fresh_run v l pba a' Hr Ea) as (Hap & Hp & Hend & Hlo & Hanc & Hinv & [f Hsb] & Hbit).
  pose proof (ai_layout _ (rm_alloc v l Hr)) as Hlay. change (sb (v_a v)) with (vsb v) in Hlay.
  pose proof (lay_end _ Hlay) as Hle.
  assert (Esb : vsb v' = set_vol_flags f (vsb v)) by (unfold vsb at 1; by rewrite Ra).
  assert (HB : INVFS_DELTA_SEG_BYTES = INVFS_DELTA_SEG_BLOCKS * INVFS_BLOCK_SIZE) by reflexivity.
  assert (Hz : zero_tail s) by reflexivity.
  assert (Hx : d_index (v_x v') = d_index (v_x v) /\ v_sb_rest (v_x v') = v_sb_rest (v_x v) /\
    delta_retire (v_x v') = delta_retire (v_x v)) by (rewrite Rx; split_and!; reflexivity).
  destruct Hx as (X1 & X2 & X3).
  split_and!; [|split|exact Hz].
  - split; [apply Rst| |unfold indexed; by rewrite X1|split; rewrite Rx; reflexivity|by split|
      rewrite Rx; reflexivity|rewrite Rx; reflexivity|by rewrite X3|
      split; rewrite ?X2, ?Esb; try assumption; exact (may_steady v v' _ _ Rst S1)].
    split_and!; [|exact Hap|].
    + split; cbn [s fresh_seg sg_pba sg_seq sg_recs sg_tail]; [exact Hp|by rewrite Esb|apply u64_range| |
        constructor|exact (proj1 (zeros_tail _))| |].
      * apply (head_range v); [exact Hc|]. apply (lay_size _ Hlay).
      * rewrite Ri, Hh. reflexivity.
      * intros o m Ho Hm Hom. eapply may_steady; [exact Rst|]. apply (rm_may v l Hr); unfold INVFS_BLOCK_SIZE in *; lia.
    + apply (chain_frame v v' l Rst); [by rewrite Esb|exact Hr| |exact Hc].
      intros s' a Hs' Ha Hb' Hna. apply Rv; [done| |done]. intros Ha'.
      rewrite Forall_forall in Hap. specialize (Hap s' (proj1 (list_elem_of_In _ _) Hs')).
      unfold in_seg, apart_segs, INVFS_DELTA_SEG_BYTES, INVFS_DELTA_SEG_BLOCKS, INVFS_BLOCK_SIZE in *. lia.
  - by rewrite Ra.
  - rewrite Ra, Esb. intros s' j [->|Hs']%elem_of_cons Hj.
    + split; [|by apply Hanc]. cbn [s fresh_seg sg_pba] in Hj. rewrite Hbit by lia. unfold in_run.
      by rewrite (proj2 (Z.leb_le _ _)), (proj2 (Z.ltb_lt _ _)) by lia.
    + destruct (rm_used v l Hr s' j Hs' Hj) as [Hu Hn]. split; [|exact Hn].
      destruct (chain_seg v l s' Hc Hs') as [prev Hok]. pose proof (sk_pba v prev s' Hok).
      rewrite Hbit, Hu by lia. apply orb_true_r.
  - rewrite Esb. intros s' [->|Hs']%elem_of_cons; [exact Hlo|exact (rm_zone v l Hr s' Hs')].
  - rewrite Esb. intros o m H1 H2 H3. eapply may_steady; [exact Rst|]. exact (rm_may v l Hr o m H1 H2 H3).
  - eapply may_steady; [exact Rst|apply (rm_rt v l Hr)].
  - rewrite Esb. eapply may_steady; [exact Rst|exact (rm_anc v l Hr)].
  - exact Rok.
  - rewrite Esb. exact (rm_uuid v l Hr).
  - rewrite Esb. exact (rm_format v l Hr).
  - rewrite Rs. exact (rm_spt0 v l Hr).
Qed.

(** ** Appends *)

(** A record the log accepts. *)
Record appendable (key val : bytes) (flags : Z) : Prop := {
  ap_key : 1 <= zlen key < 65536 /\ bytes_ok key;
  ap_val : zlen val < 65536 /\ bytes_ok val;
  ap_flags : flags = 0 \/ (flags = INVFS_DELTA_FLAG_DELETE /\ val = []);
  ap_fits : INVFS_DELTA_REC_HDR_LEN + zlen key + zlen val <= INVFS_DELTA_SEG_BYTES - INVFS_DELTA_SEG_HDR_LEN
}.

Lemma appendable_rec key val flags :
  appendable key val flags ->
  rec_ok (mkLrec flags key val) /\ is_padb (mkLrec flags key val) = false.
Proof.
  intros [[? ?] [? ?] Hf _]. split.
  - split; cbn; try done. destruct Hf as [->|[-> ->]]; auto.
  - by destruct Hf as [->|[-> _]].
Qed.

(** Nothing but zeros behind the records of the head segment. *)
Definition head_clean (l : list seg) : Prop := match l with [] => True | s :: _ => zero_tail s end.

Lemma room_block0 v v' l : block0_only v v' -> room v l -> room v' l.
Proof.
  intros [Hst _ _ _ _ [Hr _] [q Ha] Hs _ _] [R1 R2 R2z R3 R4 R5 R6 R7 R8 R9].
  assert (Hsb : vsb v' = set_sb_state q (vsb v)) by (unfold vsb at 1; by rewrite Ha).
  split; rewrite ?Hsb, ?Hr, ?Hs; try done.
  - rewrite Ha. destruct R1 as [[]]. by split.
  - by rewrite Ha.
  - intros o m ? ? ?. eapply may_steady; [exact Hst|]. by apply R3.
  - by eapply may_steady.
  - eapply may_steady; [exact Hst|exact R5].
Qed.

Lemma room_same_rest v v' l l' :
  same_rest v v' -> steady v v' -> map sg_pba l' = map sg_pba l -> room v l -> room v' l'.
Proof.
  intros Hs Hst Hm [R1 R2 R2z R3 R4 R5 R6 R7 R8 R9].
  assert (Hf : v_a v' = v_a v /\ rt v' = rt v /\ spt0 v' = spt0 v) by (rewrite Hs; done).
  destruct Hf as (Ea & Er & Es). assert (Esb : vsb v' = vsb v) by (unfold vsb; by rewrite Ea).
  split; rewrite ?Esb, ?Ea, ?Er, ?Es; try done.
  - intros s' j Hs' Hj.
    assert (Hin : sg_pba s' ∈ map sg_pba l) by (rewrite <- Hm; by apply list_elem_of_fmap_2).
    apply list_elem_of_fmap in Hin as (s & E1 & Hin). apply (R2 s j Hin). by rewrite <- E1.
  - intros s' Hs'.
    assert (Hin : sg_pba s' ∈ map sg_pba l) by (rewrite <- Hm; by apply list_elem_of_fmap_2).
    apply list_elem_of_fmap in Hin as (s & -> & Hin). by apply R2z.
  - intros o m ? ? ?. eapply may_steady; [exact Hst|]. by apply R3.
  - by eapply may_steady.
  - by eapply may_steady.
Qed.

(** A refused allocation changes the allocator's hints at most. *)
Lemma refused_live v l a' :
  live v l -> room v l ->
  alloc_blocks (shadow_zone_start (vsb v)) (shadow_zone_blocks (vsb v)) INVFS_DELTA_SEG_BLOCKS false AllocMeta
    (v_a v) = (None, a') ->
  live (set_v_a a' v) l /\ room (set_v_a a' v) l.
Proof.
  intros [L1 L2 L3 L4 L5 L6 L7 L8 [S1 S2 S3 S4 S5]] Hr Ea. pose proof Hr as [R1 R2 R2z R3 R4 R5 R6 R7 R8 R9].
  destruct (alloc_blocks_spec ZShadow _ _ _ _ _ _ _ _ R1 (dz_shadow _) (eq_refl : 0 < INVFS_DELTA_SEG_BLOCKS) Ea)
    as (Hi & [f Hf] & Hb & _).
  assert (Esb : vsb (set_v_a a' v) = set_vol_flags f (vsb v)) by exact Hf.
  split; split; rewrite ?Esb; try done.
  - apply (chain_block0 v); [by apply (steady_dev v), steady_refl|by rewrite Esb|done|done].
  - split; rewrite ?Esb; done.
  - intros s j Hs Hj. cbn [v_a set_v_a]. rewrite Hb. by apply (R2 s j).
Qed.

(** ** What a step of the log leaves of the volume *)

(** A block of the log. *)
Definition log_block (l : list seg) (b : Z) : Prop :=
  exists s, s ∈ l /\ sg_pba s <= b < sg_pba s + INVFS_DELTA_SEG_BLOCKS.

(** Beyond block 0 only blocks [P] were written, only they were allocated, and
    of the handle only the log, the allocator and the descriptor changed; the
    root slots of the descriptor did not. *)
Record beside (P : Z -> Prop) v v' : Prop := {
  be_steady : steady v v';
  be_view : forall a, INVFS_BLOCK_SIZE <= a -> ~ P (a / INVFS_BLOCK_SIZE) -> view v' a = view v a;
  be_sb : exists q f, vsb v' = set_sb_state q (set_vol_flags f (vsb v));
  be_bits : forall j, 0 <= j -> bit_get (bitmap (v_a v)) j = true -> bit_get (bitmap (v_a v')) j = true;
  be_new : forall j, 0 <= j -> bit_get (bitmap (v_a v')) j = true -> bit_get (bitmap (v_a v)) j = true \/ P j;
  be_len : length (bitmap (v_a v')) = length (bitmap (v_a v)) /\ bitmap_blocks (v_a v') = bitmap_blocks (v_a v);
  be_lo : lo_ok (v_a v) (v_a v');
  be_rt : rt_present v = true -> rt_present v' = true /\ same_roots (rt v) (rt v');
  be_rest : v' = set_v_x (v_x v') (set_rt (rt v') (set_rt_present (rt_present v')
                   (set_v_a (v_a v') (set_v_dev (v_dev v') v))))
}.

Lemma sb_same_state s : s = set_sb_state (sb_state s) (set_vol_flags (vol_flags s) s).
Proof. by destruct s. Qed.

Lemma same_roots_refl r : same_roots r r.
Proof. repeat split. Qed.

Lemma beside_trans P v1 v2 v3 : beside P v1 v2 -> beside P v2 v3 -> beside P v1 v3.
Proof.
  intros [S1 W1 (q1 & f1 & E1) B1 N1 [L1 K1] O1 R1 T1] [S2 W2 (q2 & f2 & E2) B2 N2 [L2 K2] O2 R2 T2]. split.
  - by eapply steady_trans.
  - intros a Ha Hn. by rewrite W2, W1.
  - exists q2, f2. by rewrite E2, E1.
  - auto.
  - intros j Hj Hb. destruct (N2 j Hj Hb) as [Hb1|?]; auto.
  - split; congruence.
  - intros H. by apply O2, O1.
  - intros Hp. destruct (R1 Hp) as [Hp1 (A1 & A2 & A3 & A4)]. destruct (R2 Hp1) as [Hp2 (C1 & C2 & C3 & C4)].
    split; [done|]. repeat split; congruence.
  - rewrite T2, T1. done.
Qed.

Lemma beside_weaken (P Q : Z -> Prop) v v' : (forall b, P b -> Q b) -> beside P v v' -> beside Q v v'.
Proof. intros H []. split; auto. intros j Hj Hb. destruct (be_new0 j Hj Hb); auto. Qed.

Lemma beside_block0 P v v' : block0_only v v' -> beside P v v'.
Proof.
  intros [Hst Hv Ht Hf Hu [Hr Hrp] [q Ha] _ _ Hre]. split; rewrite ?Ha; try done; auto.
  - exists q, (vol_flags (vsb v)). unfold vsb at 1. rewrite Ha. cbn. unfold vsb. by destruct (sb (v_a v)).
  - by intros ?.
  - intros Hp. rewrite Hr, Hrp. split; [done|]. apply same_roots_refl.
  - rewrite <- Ha, Hr, Hrp. etransitivity; [exact Hre|]. by destruct v.
Qed.

Lemma beside_rest (P : Z -> Prop) v v' :
  same_rest v v' -> steady v v' ->
  (forall a, INVFS_BLOCK_SIZE <= a -> ~ P (a / INVFS_BLOCK_SIZE) -> view v' a = view v a) -> beside P v v'.
Proof.
  intros Hs Hst Hv. assert (Hf : v_a v' = v_a v /\ rt v' = rt v /\ rt_present v' = rt_present v)
    by by apply same_rest_fields. destruct Hf as (Ea & Er & Ep).
  split; rewrite ?Ea, ?Er, ?Ep; try done; auto.
  - exists (sb_state (vsb v)), (vol_flags (vsb v)). unfold vsb at 1. rewrite Ea. apply sb_same_state.
  - by intros ?.
Qed.

(** The blocks an append may write. *)
Definition log_or_anchor v (l : list seg) (b : Z) : Prop := b = anchor_pba (vsb v) \/ log_block l b.

Lemma log_or_anchor_same v v' l l' b :
  total_blocks (vsb v') = total_blocks (vsb v) -> map sg_pba l' = map sg_pba l ->
  log_or_anchor v' l' b -> log_or_anchor v l b.
Proof.
  intros Et Em [->|(s & Hs & Hb)]; [left; unfold anchor_pba; by rewrite Et|right].
  assert (Hin : sg_pba s ∈ map sg_pba l) by (rewrite <- Em; by apply list_elem_of_fmap_2).
  apply list_elem_of_fmap in Hin as (s' & E' & Hin). exists s'. split; [done|]. by rewrite <- E'.
Qed.

Lemma in_anc_block v a : in_anc v a -> a / INVFS_BLOCK_SIZE = anchor_pba (vsb v).
Proof. intros Ha. pose proof (block_of a (anchor_pba (vsb v)) 1). unfold in_anc in *. lia. Qed.

Lemma in_seg_block pba a : in_seg pba a -> pba <= a / INVFS_BLOCK_SIZE < pba + INVFS_DELTA_SEG_BLOCKS.
Proof.
  intros Ha. apply block_of. unfold in_seg, INVFS_DELTA_SEG_BYTES, INVFS_DELTA_SEG_BLOCKS in *.
  unfold INVFS_BLOCK_SIZE in *. lia.
Qed.

Lemma beside_rolled v v' l pba a' s :
  room v l -> alloc_blocks (shadow_zone_start (vsb v)) (shadow_zone_blocks (vsb v)) INVFS_DELTA_SEG_BLOCKS false AllocMeta
    (v_a v) = (Some pba, a') ->
  rolled v v' pba a' -> sg_pba s = pba -> beside (log_or_anchor v (s :: l)) v v'.
Proof.
  intros Hr Ea [Rst Rv Ri Ra [Rp _] Rs Rre _ _] Es.
  destruct (fresh_run v l pba a' Hr Ea) as (_ & _ & _ & _ & _ & _ & [f Hsb] & Hbit).
  destruct (alloc_rest ZShadow _ _ _ _ _ _ _ _ (rm_alloc v l Hr) (dz_shadow _) (eq_refl : 0 < INVFS_DELTA_SEG_BLOCKS) Ea)
    as (Hlo & Hlen & Hbb).
  assert (Hin : forall j, pba <= j < pba + INVFS_DELTA_SEG_BLOCKS -> log_or_anchor v (s :: l) j).
  { intros j Hj. right. exists s. split; [left|]. by rewrite Es. }
  clear Ri. split; rewrite ?Ra.
  - exact Rst.
  - intros a Ha Hn. apply Rv; [done| |].
    + intros Hi%in_seg_block. by apply Hn, Hin.
    + intros Hi%in_anc_block. apply Hn. by left.
  - exists (sb_state (vsb v)), f. unfold vsb at 1. rewrite Ra, Hsb. by destruct (vsb v).
  - intros j Hj Hb. by rewrite Hbit, Hb, orb_true_r by done.
  - intros j Hj. rewrite Hbit by done. intros [Hrun|?]%orb_true_iff; [right|by left].
    apply Hin. unfold in_run in Hrun. zbool. lia.
  - by split.
  - exact Hlo.
  - intros Hp. split; [exact Rp|exact (Rs Hp)].
  - rewrite Rp. exact Rre.
Qed.

Lemma beside_refused v a' l :
  room v l -> alloc_blocks (shadow_zone_start (vsb v)) (shadow_zone_blocks (vsb v)) INVFS_DELTA_SEG_BLOCKS false AllocMeta
    (v_a v) = (None, a') -> faultless v ->
  beside (log_or_anchor v l) v (set_v_a a' v).
Proof.
  intros Hr Ea Hq. pose proof (rm_alloc v l Hr) as Hi.
  destruct (alloc_rest ZShadow _ _ _ _ _ _ _ _ Hi (dz_shadow _) (eq_refl : 0 < INVFS_DELTA_SEG_BLOCKS) Ea)
    as (Hlo & Hlen & Hbb).
  destruct (alloc_blocks_spec ZShadow _ _ _ _ _ _ _ _ Hi (dz_shadow _) (eq_refl : 0 < INVFS_DELTA_SEG_BLOCKS) Ea)
    as (_ & [f Hf] & Hb & _).
  split; cbn [v_a set_v_a]; rewrite ?Hb; try done; auto.
  - exists (sb_state (vsb v)), f. change (vsb (set_v_a a' v)) with (sb a'). rewrite Hf. unfold vsb. by destruct (sb (v_a v)).
Qed.

(** Any answer, refusals included. *)
Definition ans {S A : Type} (m : M S A) (s : S) (Q : option A -> S -> Prop) : Prop :=
  Q (fst (m s)) (snd (m s)).

Lemma ans_tot {S A} (m : M S A) s Q : tot m s (fun a => Q (Some a)) -> ans m s Q.
Proof. intros (a & s' & H & HQ). unfold ans. by rewrite H. Qed.
Lemma ans_bind {S A B} (m : M S A) (k : A -> M S B) s Q :
  tot m s (fun a s' => ans (k a) s' Q) -> ans (mbind' m k) s Q.
Proof. intros (a & s' & H & HQ). unfold ans. by rewrite (mbind_eq _ _ _ _ _ H). Qed.
Lemma ans_fail {S A B} (m : M S A) (k : A -> M S B) s s' (Q : option B -> S -> Prop) :
  m s = (None, s') -> Q None s' -> ans (mbind' m k) s Q.
Proof. intros H HQ. unfold ans, mbind'. by rewrite H. Qed.

(** A call that may fail, and what follows. *)
Lemma ans_seq {S A B} (m : M S A) (k : A -> M S B) s (R : option A -> S -> Prop) (Q : option B -> S -> Prop) :
  ans m s R -> (forall a s', R (Some a) s' -> ans (k a) s' Q) -> (forall s', R None s' -> Q None s') ->
  ans (mbind' m k) s Q.
Proof. unfold ans, mbind'. intros H1 H2 H3. destruct (m s) as [[a|] s']; cbn [fst snd] in *; auto. Qed.

(** What an append makes of the log. *)
Record appended (l l' : list seg) (key val : bytes) (flags : Z) : Prop := {
  ad_content : content l' = <[key := (flags, val)]> (content l);
  ad_length : (length l' <= S (length l))%nat;
  ad_clean : head_clean l'
}.

Lemma appended_add s l l0 key val flags :
  appendable key val flags -> content (s :: l) = content l0 -> (length l <= length l0)%nat ->
  appended l0 (add_rec s (mkLrec flags key val) :: l) key val flags.
Proof.
  intros [_ Hp]%appendable_rec Hc ?. split; [|cbn; lia|reflexivity].
  rewrite content_add, Hc. unfold put_content. by rewrite Hp.
Qed.

Definition head_room (l : list seg) (n : Z) : Prop :=
  match l with
  | [] => False
  | s :: _ => INVFS_DELTA_SEG_HDR_LEN + recs_len (sg_recs s) + n <= INVFS_DELTA_SEG_BYTES
  end.

Lemma stage_appends v s l key val flags :
  live v (s :: l) -> room v (s :: l) -> zero_tail s -> appendable key val flags ->
  head_room (s :: l) (rec_len (mkLrec flags key val)) ->
  tot (delta_stage E RC key val flags) v (fun _ v' =>
    let l' := add_rec s (mkLrec flags key val) :: l in
    live v' l' /\ room v' l' /\ beside (log_or_anchor v l') v v').
Proof.
  intros Hl Hr Hz Ha Hfit. destruct (appendable_rec key val flags Ha) as [Hok Hp].
  eapply tot_mono; [exact (stage_tot E RC v s l key val flags Hl Hz Hok Hp Hfit)|].
  intros [] v' (Hl' & Hs & Hst & Hv). split; [done|]. split; [by apply (room_same_rest v v' (s :: l))|].
  apply beside_rest; [done|done|]. intros a Hba Hn. apply Hv; [exact Hba|]. intros Hi%in_seg_block. apply Hn. right.
  eexists. split; [left|exact Hi].
Qed.

(** The log took over free blocks only. *)
Definition grown v (l l' : list seg) : Prop := forall b,
  log_block l' b -> log_block l b \/ bit_get (bitmap (v_a v)) b = false.

Lemma grown_same v l l' : map sg_pba l' = map sg_pba l -> grown v l l'.
Proof.
  intros Em b (s & Hs & Hb). left. assert (Hin : sg_pba s ∈ map sg_pba l) by (rewrite <- Em; by apply list_elem_of_fmap_2).
  apply list_elem_of_fmap in Hin as (s' & E' & Hin). exists s'. split; [done|]. by rewrite <- E'.
Qed.

Lemma grown_cons v l s pba a' :
  room v l -> alloc_blocks (shadow_zone_start (vsb v)) (shadow_zone_blocks (vsb v)) INVFS_DELTA_SEG_BLOCKS false AllocMeta
    (v_a v) = (Some pba, a') -> sg_pba s = pba -> grown v l (s :: l).
Proof.
  intros Hr Ea Es b (s' & [->|Hs]%elem_of_cons & Hb); [right|left; by exists s'].
  destruct (alloc_blocks_spec ZShadow _ _ _ _ _ _ _ _ (rm_alloc v l Hr) (dz_shadow _) (eq_refl : 0 < INVFS_DELTA_SEG_BLOCKS) Ea)
    as (_ & _ & _ & _ & Hu & _). rewrite Es in Hb. apply (Hu b Hb).
Qed.

(** The result of an append: the record is in the log, or the call was
    refused, because the volume is read-only or has no run of blocks for the
    segment the record needs, and the log is what it was. *)
Definition append_post v l key val flags (r : option unit) v' : Prop :=
  match r with
  | Some _ => exists l', live v' l' /\ room v' l' /\ appended l l' key val flags /\
      beside (log_or_anchor v l') v v' /\ grown v l l'
  | None => live v' l /\ room v' l /\ beside (log_or_anchor v l) v v' /\
      (flag_set (vsb v) VOLF_READONLY = true \/
       ~ head_room l (INVFS_DELTA_REC_HDR_LEN + zlen key + zlen val))
  end.

Lemma rollover_appends v l key val flags :
  live v l -> room v l -> appendable key val flags ->
  ~ head_room l (INVFS_DELTA_REC_HDR_LEN + zlen key + zlen val) ->
  ans (delta_rollover ;;; delta_stage E RC key val flags) v (append_post v l key val flags).
Proof.
  intros Hl Hr Ha Hfull. pose proof (lv_faultless v l Hl) as Hq.
  destruct (alloc_blocks (shadow_zone_start (vsb v)) (shadow_zone_blocks (vsb v)) INVFS_DELTA_SEG_BLOCKS
    false AllocMeta (v_a v)) as [[pba|] a'] eqn:Ea.
  - apply ans_bind. eapply tot_mono; [exact (rollover_run v l pba a' Hq Hr Ea)|].
    intros [] v1 Hro. destruct (rolled_live v v1 l pba a' Hl Hr Ea Hro) as (Hl1 & Hr1 & Hz).
    apply ans_tot. eapply tot_mono.
    { apply (stage_appends v1 _ l key val flags Hl1 Hr1 Hz Ha). pose proof (ap_fits _ _ _ Ha).
      cbn [head_room fresh_seg sg_recs]. change (recs_len []) with 0. unfold rec_len. cbn [lr_key lr_val]. lia. }
    intros [] v' (H1 & H2 & H3). eexists. split_and!; [exact H1|exact H2|by apply appended_add| |].
    + apply (beside_trans _ v v1).
      * eapply beside_weaken; [|exact (beside_rolled v v1 l pba a' (fresh_seg 0 pba) Hr Ea Hro eq_refl)].
        intros b. apply log_or_anchor_same; exact eq_refl.
      * eapply beside_weaken; [|exact H3]. intros b. apply log_or_anchor_same; [|exact eq_refl].
        destruct (fresh_run v l pba a' Hr Ea) as (_ & _ & _ & _ & _ & _ & [f Hsb] & _).
        unfold vsb at 1. by rewrite (ro_a v v1 pba a' Hro), Hsb.
    + apply (grown_cons v l _ pba a' Hr Ea). exact eq_refl.
  - apply (ans_fail _ _ v (set_v_a a' v)).
    + unfold delta_rollover, delta_new_segment. unfold mbind', mget, on_alloc. by rewrite Ea.
    + destruct (refused_live v l a' Hl Hr Ea) as [H1 H2]. split_and!; [done|done|by apply beside_refused|by right].
Qed.

Lemma append_ans v l key val flags :
  live v l -> room v l -> head_clean l -> appendable key val flags ->
  ans (vol_delta_append E RC key val flags) v (append_post v l key val flags).
Proof.
  intros Hl Hr Hcl Ha. unfold vol_delta_append.
  pose proof (ap_key _ _ _ Ha) as [Hk _]. pose proof (ap_flags _ _ _ Ha) as Hf. pose proof (ap_fits _ _ _ Ha) as Hfit.
  apply ans_bind, tot_guard; [rewrite (proj2 (Z.eqb_neq _ _)) by lia; done|].
  apply ans_bind, tot_guard; [by destruct Hf as [->|[-> _]]|].
  apply ans_bind, tot_guard; [by destruct Hf as [->|[-> ->]]|].
  apply ans_bind, tot_get. destruct (flag_set (vsb v) VOLF_READONLY) eqn:Ero.
  { apply (ans_fail _ _ v v); [done|]. split_and!; [done|done| |by left].
    apply beside_block0, block0_refl. apply (lv_faultless v l Hl). }
  apply ans_bind, tot_guard; [done|].
  apply ans_bind. rewrite (lv_ready v l Hl). apply tot_ret.
  apply ans_bind. eapply tot_mono; [exact (mark_dirty_tot v l Hl Ero)|]. intros [] v1 Hb0.
  pose proof (live_block0 v v1 l Hb0 Hl) as Hl1. pose proof (room_block0 v v1 l Hb0 Hr) as Hr1.
  apply ans_bind, tot_guard; [by apply Z.leb_le|]. apply ans_bind, tot_get.
  destruct (lv_head v1 l Hl1) as [Hp Hb].
  assert (Hpost : forall r v', append_post v1 l key val flags r v' -> append_post v l key val flags r v').
  { assert (Ebm : bitmap (v_a v1) = bitmap (v_a v)) by (destruct (bo_a v v1 Hb0) as [q ->]; done).
    assert (Han : forall l0 v2, beside (log_or_anchor v1 l0) v1 v2 -> beside (log_or_anchor v l0) v v2).
    { intros l0 v2 Hbs. apply (beside_trans _ v v1); [by apply beside_block0|].
      apply (beside_weaken (log_or_anchor v1 l0)); [|done]. intros b. apply log_or_anchor_same; [apply (bo_total v v1 Hb0)|done]. }
    intros [[]|] v' H.
    - destruct H as (l' & H1 & H2 & H3 & H4 & H5). exists l'. split_and!; [done..|by apply Han|].
      unfold grown in *. by rewrite <- Ebm.
    - destruct H as (H1 & H2 & H3 & H4). split_and!; [done|done|by apply Han|].
      unfold flag_set in *. by rewrite (bo_flags v v1 Hb0) in H4. }
  apply Hpost. destruct l as [|s l].
  - rewrite Hp. cbn [head_pba Z.eqb orb]. apply rollover_appends; auto.
  - assert (Hp0 : 0 < sg_pba s) by apply (sk_pba v1 (head_pba l) s), (lv_chain v1 _ Hl1).
    cbn [head_pba] in Hp. rewrite Hp, (proj2 (Z.eqb_neq (sg_pba s) 0)) by lia. cbn [orb].
    destruct (Z.ltb_spec INVFS_DELTA_SEG_BYTES
      (delta_bump (v_x v1) + (INVFS_DELTA_REC_HDR_LEN + zlen key + zlen val))) as [Hfull|Hroom].
    + apply rollover_appends; [done..|]. cbn [head_room]. rewrite <- Hb. lia.
    + apply ans_bind, tot_ret, ans_tot. eapply tot_mono.
      { apply (stage_appends v1 s l key val flags Hl1 Hr1 Hcl Ha). cbn [head_room]. rewrite <- Hb. exact Hroom. }
      intros [] v' (H1 & H2 & H3). eexists. split_and!; [exact H1|exact H2| |exact H3|by apply grown_same].
      apply appended_add; [done|done|cbn; lia].
Qed.

End append.
End DeltaAppend.
