(* ===== verification/DeltaSession.v ===== *)
(** * Mounts and sessions of the delta log

    Mount replay rebuilds the index of a chain; drains, lookups and remounts
    keep what the log stands for; and the refinement this adds up to: whatever
    a sequence of operations on a storage without faults does, it answers as a
    map of records would, across remounts. *)

From S2P Require Import Prelude Crc32c Dev Alloc Volume Anchor Page Metabuf Keys Kv DeltaIndex DeltaRec Delta DeltaLog DeltaAppend Mem.

Module DeltaSession.
Import Crc32c Alloc Volume Anchor Page Metabuf Keys Kv DeltaIndex DeltaRec Delta DeltaLog DeltaAppend Mem.

Section session.
Context {D : Type} `{!Dev D, !DevLaws D} (E : penv) (RC : retire_calls (vol D dlog)).
Abbreviation V := (vol D dlog).
Implicit Types v : V.

(** ** Replay *)

(** What the replay of a segment leaves alone. *)
Record replays (x x' : dlog) : Prop := {
  rp_seg : delta_seg_pba x' = delta_seg_pba x;
  rp_bump : delta_bump x' = delta_bump x;
  rp_fence : delta_rewrite_needed x' = delta_rewrite_needed x;
  rp_retire : delta_retire x' = delta_retire x;
  rp_sb : v_sb_rest x' = v_sb_rest x
}.

Lemma replays_trans x1 x2 x3 : replays x1 x2 -> replays x2 x3 -> replays x1 x3.
Proof. intros [] []. split; congruence. Qed.

Definition index_is (x : dlog) (m : gmap bytes place) : Prop :=
  exists di, d_index x = Some di /\ di_ok di /\ noseq <$> di_map di = m.

(** One record of the replay. *)
Lemma replay_put x m key pba off fl vl :
  index_is x m ->
  let seq := u64 (delta_seq x + 1) in
  let x0 := set_delta_seq seq x in
  let x' := match d_index x0 with
            | Some di => let '(di, inserted) := di_put di key (mkRef pba off seq fl vl) in
                         let x := set_d_index (Some di) x0 in
                         if inserted then set_delta_records (delta_records x + 1) x else x
            | None => x0
            end in
  index_is x' (<[key := (pba, off, fl, vl)]> m) /\ replays x x'.
Proof.
  intros (di & Hd & Hok & Hm) seq x0. change (d_index x0) with (d_index x). rewrite Hd.
  destruct (di_put di key _) as [di' ins] eqn:Ep. apply noseq_insert in Ep as [Hok' Hm']; [|done].
  rewrite Hm in Hm'. destruct ins; (split; [by exists di'|by split]).
Qed.

Lemma replay_recs pba rs tail : forall pre fuel n x m,
  Forall rec_ok rs -> no_record tail -> (length rs < fuel)%nat -> index_is x m ->
  exists n' x',
    replay_loop pba (pre ++ recs_bytes rs ++ tail) fuel (zlen pre) n x
      = (zlen pre + recs_len rs, n', torn tail, x') /\
    index_is x' (put_places pba (INVFS_DELTA_SEG_HDR_LEN + zlen pre) rs m) /\ replays x x'.
Proof.
  induction rs as [|r rs IH]; intros pre fuel n x m Hrs Ht Hf Hx; (destruct fuel as [|fuel]; [lia|]).
  - cbn [replay_loop recs_bytes map concat app put_places]. unfold recs_len. cbn.
    change (Z.of_nat 0) with 0. rewrite !Z.add_0_r. exists n, x. split; [|by split].
    destruct (negb _) eqn:En.
    + zbool. rewrite length_app in En. destruct tail; [done|cbn in En; lia].
    + rewrite parse_skip. unfold no_record, torn in *. by destruct (vol_delta_rec_parse tail 0).
  - apply Forall_cons_iff in Hrs as [Hr Hrs]. cbn [replay_loop put_places]. pose proof (rec_len_pos r Hr).
    rewrite recs_bytes_cons, <- app_assoc. pose proof (length_drec_bytes r) as Hl.
    rewrite (proj2 (Z.ltb_lt _ _)) by (rewrite !length_app; lia). cbn [negb].
    rewrite parse_at by done.
    assert (Eq : forall m', put_places pba (INVFS_DELTA_SEG_HDR_LEN + zlen (pre ++ rec_bytes r)) rs m'
      = put_places pba (INVFS_DELTA_SEG_HDR_LEN + zlen pre + rec_len r) rs m').
    { intros m'. f_equal. rewrite length_app. lia. }
    assert (El : zlen (pre ++ rec_bytes r) + recs_len rs = zlen pre + recs_len (r :: rs)).
    { change (r :: rs) with ([r] ++ rs). rewrite recs_len_app, recs_len_one, length_app. lia. }
    replace (pre ++ rec_bytes r ++ recs_bytes rs ++ tail) with ((pre ++ rec_bytes r) ++ recs_bytes rs ++ tail)
      by by rewrite <- app_assoc.
    replace (zlen pre + rec_len r) with (zlen (pre ++ rec_bytes r)) by (rewrite length_app; lia).
    fold (is_padb r). destruct (is_padb r) eqn:Ep.
    + destruct (IH (pre ++ rec_bytes r) fuel n x m) as (n' & x' & -> & Hx' & Hr'); [done|done|cbn in Hf; lia|done|].
      exists n', x'. rewrite El. split; [done|]. by rewrite Eq in Hx'.
    + assert (Hk : slice ((pre ++ rec_bytes r) ++ recs_bytes rs ++ tail) (zlen pre + INVFS_DELTA_REC_HDR_LEN)
        (zlen (lr_key r)) = lr_key r).
      { rewrite <- app_assoc, slice_app_r by (unfold INVFS_DELTA_REC_HDR_LEN; lia).
        replace (_ - _) with INVFS_DELTA_REC_HDR_LEN by lia.
        rewrite slice_app_in; [by apply rec_fields|done|lia|].
        rewrite Hl. unfold rec_len. lia. }
      rewrite Hk.
      destruct (replay_put x m (lr_key r) pba (INVFS_DELTA_SEG_HDR_LEN + zlen pre) (lr_flags r) (zlen (lr_val r)) Hx)
        as [Hx1 Hr1]. set (x1 := match d_index _ with Some _ => _ | None => _ end) in *.
      destruct (IH (pre ++ rec_bytes r) fuel (n + 1) x1 _ Hrs Ht ltac:(cbn in Hf; lia) Hx1)
        as (n' & x' & -> & Hx' & Hr'). exists n', x'. rewrite El. split; [done|]. rewrite Eq in Hx'.
      split; [done|]. by apply (replays_trans x x1).
Qed.

(** ** Mount *)

Lemma read_hdr_tot v prev s :
  faultless v -> seg_ok v prev s ->
  tot (delta_read_hdr (sg_pba s)) v (fun h v' => h = mkSegHdr (sg_seq s) prev 0 /\ reads v v').
Proof.
  intros Hq Hs. pose proof (sk_pba v prev s Hs) as Hp. pose proof (sk_end v prev s Hs) as He.
  unfold delta_read_hdr. apply tot_bind, tot_get. apply tot_bind, tot_guard.
  { rewrite (proj2 (Z.eqb_neq _ _)), (proj2 (Z.leb_gt _ _)); [done|unfold INVFS_DELTA_SEG_BLOCKS in *; lia|lia]. }
  apply tot_bind, tot_pread; [done| |].
  { pose proof (sk_may v prev s Hs 0 INVFS_DELTA_SEG_HDR_LEN) as H. rewrite Z.add_0_r in H. by apply H. }
  intros d v' Hst Hv.
  pose proof (vrange_sub v _ _ 0 INVFS_DELTA_SEG_HDR_LEN _ (sk_image v prev s Hs)) as Hi.
  rewrite Z.add_0_r in Hi. rewrite Hi by done. clear Hi.
  rewrite slice_app_l by apply length_hdr. rewrite <- (app_nil_r (delta_hdr_encode _ _)).
  rewrite hdr_roundtrip by apply Hs. apply tot_ret. split; [done|]. by apply reads_step.
Qed.

Lemma payload_image v prev s :
  seg_ok v prev s ->
  drop (Z.to_nat INVFS_DELTA_SEG_HDR_LEN) (vrange v (sg_pba s * INVFS_BLOCK_SIZE) INVFS_DELTA_SEG_BYTES)
  = recs_bytes (sg_recs s) ++ sg_tail s /\
  (length (sg_recs s) < length (recs_bytes (sg_recs s) ++ sg_tail s))%nat.
Proof.
  intros Hs. pose proof (sk_image v prev s Hs) as Hi. pose proof (length_hdr (sg_seq s) prev) as Hh.
  assert (Hlen : zlen (vrange v (sg_pba s * INVFS_BLOCK_SIZE) INVFS_DELTA_SEG_BYTES) = INVFS_DELTA_SEG_BYTES)
    by by apply length_vrange.
  split.
  - rewrite Hi. apply drop_app_length'. lia.
  - rewrite Hi, length_app in Hlen. pose proof (recs_count (sg_recs s) (sk_recs v prev s Hs)) as Hc.
    unfold recs_len in Hc. rewrite length_app in *.
    assert (INVFS_DELTA_SEG_BYTES = 131072) by reflexivity.
    assert (INVFS_DELTA_SEG_HDR_LEN = 44) by reflexivity. lia.
Qed.

(** The storage is only read; of the handle, only the delta state changes. *)
Definition replaying v v' : Prop := same_rest v v' /\ steady v v' /\ forall a, view v' a = view v a.

Lemma replaying_refl v : faultless v -> replaying v v.
Proof. intros. split_and!; [by destruct v|by apply steady_refl|done]. Qed.
Lemma replaying_trans v1 v2 v3 : replaying v1 v2 -> replaying v2 v3 -> replaying v1 v3.
Proof.
  intros (A1 & B1 & C1) (A2 & B2 & C2). split_and!; [by eapply same_rest_trans|by eapply steady_trans|].
  intros. by rewrite C2.
Qed.
Lemma replaying_reads v v' : reads v v' -> replaying v v'.
Proof. intros (E1 & H1 & H2). split_and!; [|done|done]. unfold same_rest. rewrite E1. done. Qed.
Lemma replaying_x v x : faultless v -> replaying v (set_v_x x v).
Proof. intros. split_and!; [by destruct v|by apply (steady_dev v), steady_refl|done]. Qed.

Lemma chain_replaying v v' l : replaying v v' -> chain_ok v l -> chain_ok v' l.
Proof.
  intros (Hs & Hst & Hv) Hc. apply (chain_ok_ext v v' l Hst); [|by intros|done].
  unfold vsb. by destruct (same_rest_fields v v' Hs) as (-> & _).
Qed.
Lemma seg_replaying v v' prev s : replaying v v' -> seg_ok v prev s -> seg_ok v' prev s.
Proof.
  intros (Hs & Hst & Hv) Hc. apply (seg_ok_ext v v' prev s Hst); [|by intros|done].
  unfold vsb. by destruct (same_rest_fields v v' Hs) as (-> & _).
Qed.

Lemma replay_segment_tot v prev s m :
  faultless v -> seg_ok v prev s -> index_is (v_x v) m ->
  tot (delta_replay_segment (sg_pba s)) v (fun r v' => fst (fst r) = recs_len (sg_recs s) /\
    replaying v v' /\ replays (v_x v) (v_x v') /\
    index_is (v_x v') (put_places (sg_pba s) INVFS_DELTA_SEG_HDR_LEN (sg_recs s) m)).
Proof.
  intros Hq Hs Hx. unfold delta_replay_segment. apply tot_bind, tot_pread; [done| |].
  { pose proof (sk_may v prev s Hs 0 INVFS_DELTA_SEG_BYTES) as H. rewrite Z.add_0_r in H. by apply H. }
  intros d v1 Hst Hv. destruct (payload_image v prev s Hs) as [-> Hfuel].
  apply tot_bind, tot_get. change (v_x v1) with (v_x v).
  destruct (replay_recs (sg_pba s) (sg_recs s) (sg_tail s) [] _ 0 (v_x v) m (sk_recs _ _ _ Hs) (sk_tail _ _ _ Hs)
    Hfuel Hx) as (n' & x' & Eq & Hx' & Hr).
  cbn [app] in Eq. change (zlen []) with 0 in Eq, Hx'. rewrite Eq. rewrite Z.add_0_r in Hx'.
  apply tot_bind, tot_on_x, tot_ret. split_and!; [done| |done|done].
  apply (replaying_trans v v1); [by apply replaying_reads, reads_step|]. apply replaying_x. apply Hst.
Qed.

(** What a mount leaves of the delta state while it replays. *)
Record quiet_log (x : dlog) (r : sb_rest) : Prop := {
  ql_fence : delta_rewrite_needed x = false;
  ql_retire : delta_retire x = [];
  ql_sb : v_sb_rest x = r
}.

Lemma replay_one_tot v prev s m newest r :
  faultless v -> seg_ok v prev s -> index_is (v_x v) m -> quiet_log (v_x v) r ->
  tot (replay_one newest (sg_pba s)) v (fun _ v' => replaying v v' /\ quiet_log (v_x v') r /\
    index_is (v_x v') (put_places (sg_pba s) INVFS_DELTA_SEG_HDR_LEN (sg_recs s) m) /\
    (newest = true -> delta_seg_pba (v_x v') = sg_pba s /\
       delta_bump (v_x v') = INVFS_DELTA_SEG_HDR_LEN + recs_len (sg_recs s))).
Proof.
  intros Hq Hs Hx [Q1 Q2 Q3]. unfold replay_one. apply tot_bind, tot_try.
  eapply tot_mono; [exact (read_hdr_tot v prev s Hq Hs)|]. intros h v1 [-> Hrd].
  pose proof (replaying_reads v v1 Hrd) as Hr1. pose proof Hr1 as (_ & Hst1 & _).
  assert (Ex1 : v_x v1 = v_x v) by (destruct Hrd as [-> _]; done).
  apply tot_bind. eapply tot_mono.
  { apply (replay_segment_tot v1 prev s m); [apply Hst1|by apply (seg_replaying v)|by rewrite Ex1]. }
  intros [[ve n] t] v2 (Hve & Hr2 & [P1 P2 P3 P4 P5] & Hx2). cbn [fst] in Hve. subst ve.
  apply tot_on_x. cbn [seg_seq]. set (x3 := if _ : bool then _ else _).
  pose proof Hr2 as (_ & Hst2 & _). rewrite Ex1 in *.
  split_and!.
  - apply (replaying_trans v v2); [by apply (replaying_trans v v1)|]. apply replaying_x, Hst2.
  - split; cbn [v_x set_v_x]; unfold x3; repeat case_match; cbn; congruence.
  - destruct Hx2 as (di & ? & ? & ?). exists di. split_and!; [|done|done]. cbn [v_x set_v_x].
    unfold x3. repeat case_match; done.
  - intros ->. cbn [v_x set_v_x]. unfold x3. repeat case_match; done.
Qed.

Lemma replay_chain_tot l r : forall os ds v,
  l = rev os ++ ds -> faultless v -> chain_ok v l -> index_is (v_x v) (places ds) -> quiet_log (v_x v) r ->
  tot (replay_chain (map sg_pba os)) v (fun _ v' => replaying v v' /\ quiet_log (v_x v') r /\
    index_is (v_x v') (places l) /\
    (os <> [] -> head_ok (v_x v') l)).
Proof.
  induction os as [|s os IH]; intros ds v -> Hq Hc Hx Hl; cbn [replay_chain map].
  { apply tot_ret. split_and!; [by apply replaying_refl|done|done|done]. }
  destruct (chain_seg v _ s Hc) as [prev Hs].
  { cbn [rev]. rewrite <- app_assoc. apply elem_of_app. right. left. }
  apply tot_bind. eapply tot_mono; [exact (replay_one_tot v prev s _ _ r Hq Hs Hx Hl)|].
  intros [] v1 (Hr1 & Hl1 & Hx1 & Hn1). pose proof Hr1 as (_ & Hst1 & _).
  assert (El : rev (s :: os) ++ ds = rev os ++ s :: ds) by (cbn [rev]; by rewrite <- app_assoc).
  destruct os as [|s' os].
  - cbn [map replay_chain]. apply tot_ret. split_and!; [done|done|done|]. intros _. destruct (Hn1 eq_refl).
    by split.
  - eapply tot_mono; [apply (IH (s :: ds) v1 El); [apply Hst1|by apply (chain_replaying v)|done|done]|].
    intros [] v2 (Hr2 & Hl2 & Hx2 & Hh2). split_and!; [by apply (replaying_trans v v1)|done|done|].
    intros _. by apply Hh2.
Qed.

(** The blocks of the segments are in the bitmap already. *)
Lemma reserve_id pba a :
  (forall j, pba <= j < pba + INVFS_DELTA_SEG_BLOCKS -> bit_get (bitmap a) j = true) ->
  dl_reserve_segment pba a = a.
Proof.
  intros Hb. unfold dl_reserve_segment. destruct (_ <=? _); [done|].
  assert (Hin : Forall (fun b => bit_get (bitmap a) b = true)
    (seqZ pba (Z.min (pba + INVFS_DELTA_SEG_BLOCKS) (total_blocks (sb a)) - pba))).
  { apply Forall_forall. intros j Hj%list_elem_of_In%elem_of_seqZ. apply Hb. lia. }
  revert Hin. generalize (seqZ pba (Z.min (pba + INVFS_DELTA_SEG_BLOCKS) (total_blocks (sb a)) - pba)).
  induction l as [|b bs IH]; [done|]. intros [H Hs]%Forall_cons_iff. cbn [foldl]. unfold reserve_block at 2.
  rewrite H. by apply IH.
Qed.

Lemma chain_walk_tot : forall l fuel acc v,
  faultless v -> chain_ok v l -> (length l <= fuel)%nat ->
  (forall s j, s ∈ l -> sg_pba s <= j < sg_pba s + INVFS_DELTA_SEG_BLOCKS -> bit_get (bitmap (v_a v)) j = true) ->
  tot (chain_walk fuel (head_pba l) acc) v (fun c v' => c = acc ++ map sg_pba l /\ reads v v').
Proof.
  induction l as [|s l IH]; intros fuel acc v Hq Hc Hf Hb.
  { destruct fuel; cbn; (apply tot_ret; split; [by rewrite app_nil_r|by apply reads_refl]). }
  destruct fuel as [|fuel]; [cbn in Hf; lia|]. destruct Hc as (Hs & Hap & Hc). cbn [chain_walk head_pba].
  rewrite (proj2 (Z.eqb_neq _ _)) by (pose proof (sk_pba _ _ _ Hs); lia).
  apply tot_bind, tot_try. eapply tot_mono; [exact (read_hdr_tot v _ s Hq Hs)|]. intros h v1 [-> Hrd].
  pose proof Hrd as (E1 & Hst1 & Hv1). assert (Ea : v_a v1 = v_a v) by by rewrite E1.
  apply tot_bind, tot_on_a. rewrite Ea, reserve_id; [|intros; apply (Hb s); [left|done]].
  replace (set_v_a (v_a v) v1) with v1 by (rewrite <- Ea; by destruct v1). cbn [prev_pba].
  destruct (Z.eqb_spec (head_pba l) (sg_pba s)) as [Eh|_].
  { exfalso. destruct l as [|s' l]; cbn [head_pba] in Eh; [pose proof (sk_pba _ _ _ Hs); lia|].
    apply Forall_cons_iff in Hap as [Ha _]. unfold apart_segs, INVFS_DELTA_SEG_BLOCKS in Ha. lia. }
  eapply tot_mono; [apply IH|].
  - apply Hst1.
  - apply (chain_replaying v); [by apply replaying_reads|done].
  - cbn in Hf. lia.
  - intros s' j Hs' Hj. rewrite Ea. apply (Hb s'); [by right|done].
  - intros c v2 [-> Hrd2]. split; [by rewrite <- app_assoc|by apply (reads_trans v v1)].
Qed.

(** A volume whose root descriptor names the chain [l]: what a mount finds. *)
Record mountable v (l : list seg) : Prop := {
  mt_faultless : faultless v;
  mt_chain : chain_ok v l;
  mt_root : rt_names v l;
  mt_room : room v l;
  mt_sb : sb_env v;
  mt_short : (length l <= DELTA_MAX_SEGMENTS)%nat
}.

Lemma live_mountable v l :
  live v l -> room v l -> (length l <= DELTA_MAX_SEGMENTS)%nat -> mountable v l.
Proof. intros [] ? ?. by split. Qed.

Lemma room_replaying v v' l : replaying v v' -> room v l -> room v' l.
Proof. intros (Hs & Hst & _). by apply (room_same_rest v v' l l). Qed.

(** Beyond block 0 no byte changed, and of the handle only the log. *)
Definition aside v v' : Prop :=
  same_rest v v' /\ steady v v' /\ forall a, INVFS_BLOCK_SIZE <= a -> view v' a = view v a.

Lemma aside_replaying v v' : replaying v v' -> aside v v'.
Proof. intros (? & ? & ?). split_and!; auto. Qed.

(** A replay of a mountable volume ends in a live session. *)
Lemma replayed_live v v' l :
  mountable v l -> replaying v v' -> quiet_log (v_x v') (v_sb_rest (v_x v)) ->
  index_is (v_x v') (places l) -> head_ok (v_x v') l -> delta_ready (v_x v') = true ->
  live v' l /\ room v' l /\ aside v v'.
Proof.
  intros [M1 M2 M3 M4 [S1 S2 S3 S4 S5] M6] Hr [Q1 Q2 Q3] Hi Hh Hrd.
  pose proof Hr as (Hs & Hst & Hv). destruct (same_rest_fields v v' Hs) as (Ea & Er & Ep).
  split; [|split; [by apply (room_replaying v)|by apply aside_replaying]].
  split; [apply Hst|by apply (chain_replaying v)|exact Hi|exact Hh| |exact Hrd|exact Q1|exact Q2|].
  - unfold rt_names. by rewrite Er, Ep.
  - split; rewrite ?Q3; try assumption; [by eapply may_steady|]. unfold vsb. by rewrite Ea.
Qed.

Lemma mount_reset_ok x :
  let x' := mount_reset E x in
  index_is x' (places []) /\ quiet_log x' (v_sb_rest x) /\ delta_seg_pba x' = 0.
Proof.
  cbn zeta. split; [|by split]. exists (di_new (g_index_inst x)).
  destruct (di_new_ok (g_index_inst x)) as [Hok Hm]. split_and!; [done|done|]. rewrite Hm. apply fmap_empty.
Qed.

Lemma mount_tot v l :
  mountable v l -> tot (vol_delta_mount E) v (fun _ v' => live v' l /\ room v' l /\ aside v v').
Proof.
  intros Hm. pose proof Hm as [M1 M2 M3 M4 M5 M6]. unfold vol_delta_mount.
  destruct (mount_reset_ok (v_x v)) as (Hi0 & Hq0 & Hp0).
  apply tot_bind, tot_on_x. generalize dependent (mount_reset E (v_x v)). intros x1 Hi0 Hq0 Hp0.
  apply tot_bind, tot_get. set (v1 := set_v_x x1 v).
  assert (Hr1 : replaying v v1) by by apply replaying_x.
  assert (Hst1 : steady v v1) by apply Hr1.
  unfold rt_names in M3. change (rt_present v1) with (rt_present v). change (rt v1) with (rt v).
  destruct l as [|s l].
  - clear M6. assert (Hz : negb (rt_present v) || (delta_pba (rt v) =? 0) = true)
      by (destruct M3 as [->| ->]; [done|apply orb_true_r]).
    rewrite Hz. apply tot_on_x. refine (replayed_live v _ [] Hm _ _ _ _ _).
    + apply (replaying_trans v v1 _ Hr1). apply replaying_x, Hst1.
    + destruct Hq0 as [Q1 Q2 Q3]. split; [exact Q1|exact Q2|exact Q3].
    + exact Hi0.
    + split; [exact Hp0|exact I].
    + reflexivity.
  - destruct M3 as [-> ->]. pose proof (proj1 M2) as Hs. pose proof (sk_pba _ _ _ Hs). pose proof (sk_end _ _ _ Hs).
    rewrite (proj2 (Z.eqb_neq _ _)) by lia. cbn [negb orb]. change (vsb v1) with (vsb v).
    rewrite (proj2 (Z.leb_gt _ _)) by (unfold INVFS_DELTA_SEG_BLOCKS in *; lia).
    apply tot_bind. eapply tot_mono.
    { apply (chain_walk_tot (s :: l) DELTA_MAX_SEGMENTS [] v1); [apply Hst1|exact (chain_replaying v v1 _ Hr1 M2)|exact M6|].
      intros s' j Hs' Hj. by apply (rm_used v (s :: l) M4 s' j). }
    clear M6. intros c v2 [-> Hrd]. pose proof (replaying_reads v1 v2 Hrd) as Hr2.
    pose proof Hr2 as (_ & Hst2 & _). assert (Ex2 : v_x v2 = v_x v1) by (destruct Hrd as [-> _]; done).
    cbn [app]. rewrite <- map_rev. apply tot_bind, tot_try. eapply tot_mono.
    { apply (replay_chain_tot (s :: l) (v_sb_rest (v_x v)) (rev (s :: l)) [] v2);
        [by rewrite rev_involutive, app_nil_r|apply Hst2| |by rewrite Ex2|by rewrite Ex2].
      by apply (chain_replaying v1), (chain_replaying v). }
    intros [] v3 (Hr3 & Hq3 & Hi3 & Hh3). pose proof Hr3 as (_ & Hst3 & _).
    specialize (Hh3 ltac:(cbn [rev]; by destruct (rev l))).
    apply tot_on_x. set (x4 := if _ : bool then _ else _).
    refine (replayed_live v _ (s :: l) Hm _ _ _ _ _); cbn [v_x set_v_x]; unfold x4.
    + apply (replaying_trans v v3); [|apply replaying_x, Hst3].
      by apply (replaying_trans v v2); [apply (replaying_trans v v1)|].
    + destruct Hq3. by case_match; split.
    + destruct Hi3 as (di & ? & ? & ?). exists di. by case_match.
    + destruct Hh3. by case_match; split.
    + by case_match.
Qed.

(** ** Drains and lookups *)

(** The delta state changed in its staging bookkeeping only. *)
Lemma staged_live v v' l :
  live v l -> room v l -> same_rest v v' -> steady v v' ->
  (forall a, INVFS_BLOCK_SIZE <= a -> view v' a = view v a) -> staging (v_x v) (v_x v') ->
  live v' l /\ room v' l /\ aside v v'.
Proof.
  intros [L1 L2 L3 [L4 L4'] L5 L6 L7 L8 [S1 S2 S3 S4 S5]] Hr Hs Hst Hv [X1 X2 X3 X4 X5 X6 X7 X8].
  destruct (same_rest_fields v v' Hs) as (Ea & Er & Ep).
  split; [|split; [by apply (room_same_rest v v' l l)|by split_and!]].
  split.
  - apply Hst.
  - apply (chain_block0 v v' l Hst); [unfold vsb; by rewrite Ea|done|done].
  - unfold indexed. by rewrite X1.
  - split; [by rewrite X2|]. by rewrite X3.
  - unfold rt_names. by rewrite Er, Ep.
  - by rewrite X4.
  - auto.
  - auto.
  - split; rewrite ?X7; try assumption; [by eapply may_steady|]. unfold vsb. by rewrite Ea.
Qed.

Lemma live_reads v v1 l : reads v v1 -> live v l -> room v l -> live v1 l /\ room v1 l.
Proof.
  intros (E1 & Hst & Hv) Hl Hr. destruct (staged_live v v1 l Hl Hr) as (H1 & H2 & _); [|done|by auto| |by split].
  - unfold same_rest. rewrite E1. done.
  - rewrite E1. apply staging_refl.
Qed.

Lemma drain_tot v l :
  live v l -> room v l ->
  tot (vol_delta_drain RC) v (fun b v' => b = BarOk /\ live v' l /\ room v' l /\ aside v v').
Proof.
  intros Hl Hr. pose proof (lv_faultless v l Hl) as Hq. pose proof (lv_retire v l Hl) as Hre.
  unfold vol_delta_drain. apply tot_bind, tot_get. rewrite (lv_ready v l Hl). cbn [negb].
  assert (Hcol : forall v1, steady v v1 -> same_rest v v1 -> staging (v_x v) (v_x v1) ->
    (forall a, INVFS_BLOCK_SIZE <= a -> view v1 a = view v a) ->
    tot (let* v := mget in
         let '(rd, x) := dl_retire_collect (v_x v) in
         on_x (fun _ => x) ;;; dl_retire_free_list RC rd ;;; mret BarOk) v1
      (fun b v' => b = BarOk /\ live v' l /\ room v' l /\ aside v v')).
  { intros v1 Hst Hs Hx Hv. apply tot_bind, tot_get. unfold dl_retire_collect. rewrite (sg_retire _ _ Hx Hre).
    apply tot_bind, tot_on_x. apply tot_bind, retire_none_tot, tot_ret. split; [done|].
    apply (staged_live v); [done|done|by apply (same_rest_trans v v1)|by apply (steady_dev v1)|done|].
    destruct Hx. by split. }
  apply tot_if; intros Hp.
  - apply tot_bind, tot_on_x. apply Hcol; [by apply (steady_dev v), steady_refl|by destruct v| |done].
    by split.
  - apply tot_bind. unfold heal_if_needed. apply tot_bind, tot_get. rewrite (lv_fence v l Hl). apply tot_ret.
    apply tot_bind, tot_barrier; [done|]. intros d v1 Hst Hv. apply tot_bind, tot_on_x.
    apply Hcol; [by apply (steady_dev v1)|done|by split|].
    intros a Ha. apply Hv. unfold INVFS_DEVT_OFF, DEVT_LEN, INVFS_BLOCK_SIZE in *. lia.
Qed.

Lemma lookup_tot v l key cap :
  live v l -> room v l -> key <> [] ->
  tot (vol_delta_lookup_value key cap) v (fun r v' =>
    r = lookup_answer (content l !! key) cap /\ live v' l /\ room v' l /\ reads v v').
Proof.
  intros Hl Hr Hk. eapply tot_mono; [exact (lookup_value_tot v l key cap (lv_faultless v l Hl)
    (lv_chain v l Hl) (lv_index v l Hl) Hk)|].
  intros r v' [-> Hrd]. split; [done|]. destruct (live_reads v v' l Hrd Hl Hr). by split_and!.
Qed.

(** ** Sessions *)

Inductive dop :=
  | DAppend (key val : bytes) (flags : Z)
  | DLookup (key : bytes) (cap : Z)
  | DDrain
  | DMount.

(** What the caller sees. *)
Inductive dres :=
  | RDone (ok : bool)
  | RFound (r : lookup_res)
  | RFence (b : barrier_rc)
  | RNone.

Definition answer {A} (f : A -> dres) (m : M V A) (dflt : dres) : V -> dres * V := fun v =>
  let '(r, v') := m v in (match r with Some a => f a | None => dflt end, v').

Definition exec (o : dop) : V -> dres * V :=
  match o with
  | DAppend key val flags => answer (fun _ => RDone true) (vol_delta_append E RC key val flags) (RDone false)
  | DLookup key cap => answer RFound (vol_delta_lookup_value key cap) RNone
  | DDrain => answer RFence (vol_delta_drain RC) RNone
  | DMount => answer (fun _ => RDone true) (vol_delta_mount E) (RDone false)
  end.

Fixpoint exec_all (os : list dop) (v : V) : list dres * V :=
  match os with
  | [] => ([], v)
  | o :: os => let '(r, v) := exec o v in let '(rs, v) := exec_all os v in (r :: rs, v)
  end.

(** The contract: a map from keys to the flags and value of their latest
    record.  An append may be refused, and then nothing happened. *)
Inductive spec_step (c : gmap bytes (Z * bytes)) : dop -> dres -> gmap bytes (Z * bytes) -> Prop :=
  | SAppend key val flags : spec_step c (DAppend key val flags) (RDone true) (<[key := (flags, val)]> c)
  | SRefused key val flags : spec_step c (DAppend key val flags) (RDone false) c
  | SLookup key cap : spec_step c (DLookup key cap) (RFound (lookup_answer (c !! key) cap)) c
  | SDrain : spec_step c DDrain (RFence BarOk) c
  | SMount : spec_step c DMount (RDone true) c.

Inductive spec_run : gmap bytes (Z * bytes) -> list dop -> list dres -> gmap bytes (Z * bytes) -> Prop :=
  | SNil c : spec_run c [] [] c
  | SCons c o r c' os rs c'' : spec_step c o r c' -> spec_run c' os rs c'' -> spec_run c (o :: os) (r :: rs) c''.

Definition op_ok (o : dop) : Prop :=
  match o with
  | DAppend key val flags => appendable key val flags
  | DLookup key _ => key <> []
  | _ => True
  end.

(** A session over the log [l]. *)
Definition session v (l : list seg) : Prop := live v l /\ room v l /\ head_clean l.

Lemma answer_tot {A} (f : A -> dres) (m : M V A) dflt v (Q : dres -> V -> Prop) :
  tot m v (fun a v' => Q (f a) v') -> Q (fst (answer f m dflt v)) (snd (answer f m dflt v)).
Proof. intros (a & v' & Em & H). unfold answer. by rewrite Em. Qed.

Lemma exec_step v l o :
  session v l -> op_ok o -> (length l < DELTA_MAX_SEGMENTS)%nat ->
  exists l', session (snd (exec o v)) l' /\ (length l' <= S (length l))%nat /\
    spec_step (content l) o (fst (exec o v)) (content l').
Proof.
  intros (Hl & Hr & Hc) Ho Hn. destruct o as [key val flags|key cap| |].
  - pose proof (append_ans E RC v l key val flags Hl Hr Hc Ho) as H. unfold ans, append_post in H.
    cbn [exec]. unfold answer. destruct (vol_delta_append E RC key val flags v) as [[[]|] v'].
    + destruct H as (l' & H1 & H2 & [A1 A2 A3] & _). exists l'. split_and!; [by split_and!|done|]. rewrite A1. constructor.
    + destruct H as (H1 & H2 & _). exists l. split_and!; [by split_and!|lia|]. constructor.
  - exists l. cbn [exec].
    apply (answer_tot RFound _ _ v (fun r v' => session v' l /\ (length l <= S (length l))%nat /\ spec_step _ _ r _)).
    eapply tot_mono; [exact (lookup_tot v l key cap Hl Hr Ho)|].
    intros r v' (-> & H1 & H2 & _). split_and!; [by split_and!|lia|]. constructor.
  - exists l. cbn [exec].
    apply (answer_tot RFence _ _ v (fun r v' => session v' l /\ (length l <= S (length l))%nat /\ spec_step _ _ r _)).
    eapply tot_mono; [exact (drain_tot v l Hl Hr)|].
    intros r v' (-> & H1 & H2 & _). split_and!; [by split_and!|lia|]. constructor.
  - exists l. cbn [exec].
    apply (answer_tot (fun _ => RDone true) _ _ v
      (fun r v' => session v' l /\ (length l <= S (length l))%nat /\ spec_step _ _ r _)).
    eapply tot_mono; [exact (mount_tot v l (live_mountable v l Hl Hr (Nat.lt_le_incl _ _ Hn)))|].
    intros [] v' (H1 & H2 & _). split_and!; [by split_and!|lia|]. constructor.
Qed.

Lemma exec_all_spec os : forall v l,
  session v l -> Forall op_ok os -> (length l + length os <= DELTA_MAX_SEGMENTS)%nat ->
  exists l', session (snd (exec_all os v)) l' /\ spec_run (content l) os (fst (exec_all os v)) (content l').
Proof.
  induction os as [|o os IH]; intros v l Hs Hos Hn.
  { exists l. split; [done|constructor]. }
  apply Forall_cons_iff in Hos as [Ho Hos]. cbn [length] in Hn.
  destruct (exec_step v l o Hs Ho) as (l1 & Hs1 & Hn1 & Hst); [lia|].
  cbn [exec_all]. destruct (exec o v) as [r v1]. cbn [fst snd] in *.
  destruct (IH v1 l1 Hs1 Hos) as (l' & Hs' & Hrun); [lia|].
  destruct (exec_all os v1) as [rs v']. exists l'. split; [done|]. by econstructor.
Qed.

(** ** Results *)

(** C4: the delta log is a map.  Every sequence of appends, lookups, drains
    and remounts on a storage without faults, of any length the chain limit
    allows, answers as a map from keys to the flags and value of their latest
    record: lookups answer the latest record, remounts lose and invent
    nothing, drains succeed, an append takes effect or is refused without
    one. *)
Theorem delta_session_refines os v l :
  session v l -> Forall op_ok os -> (length l + length os <= DELTA_MAX_SEGMENTS)%nat ->
  let '(rs, v') := exec_all os v in
  exists l', session v' l' /\ spec_run (content l) os rs (content l').
Proof.
  intros Hs Ho Hn. destruct (exec_all_spec os v l Hs Ho Hn) as (l' & H1 & H2).
  destruct (exec_all os v) as [rs v']. by exists l'.
Qed.

(** C15: an append to a live log, on a storage without faults, either puts
    the record into the log as the latest of its key and changes no other
    key, or answers a refusal and leaves the log as it was; a volume that is
    not read-only refuses only a record its head segment has no room for. *)
Theorem delta_append_correct v l key val flags :
  session v l -> appendable key val flags ->
  let '(r, v') := vol_delta_append E RC key val flags v in append_post v l key val flags r v'.
Proof.
  intros (Hl & Hr & Hc) Ha. pose proof (append_ans E RC v l key val flags Hl Hr Hc Ha) as H.
  unfold ans in H. by destruct (vol_delta_append E RC key val flags v).
Qed.


(** ** Torn tails *)

Lemma image_over v v' base N A T R B :
  vrange v base N = A ++ T ++ B -> 0 <= N -> zlen R = zlen T ->
  (forall a, ~ (base + zlen A <= a < base + zlen A + zlen R) -> view v' a = view v a) ->
  vrange v' (base + zlen A) (zlen R) = R ->
  vrange v' base N = A ++ R ++ B.
Proof.
  intros Hi HN Hl Hv HR. assert (Hn : N = zlen A + (zlen T + zlen B)).
  { pose proof (length_vrange v base N HN) as H. rewrite Hi, !length_app in H. lia. }
  rewrite Hn in *. rewrite !vrange_app in * by lia. rewrite <- Hl in *. rewrite HR.
  rewrite !(vrange_ext v v') by (intros; apply Hv; lia).
  apply app_inj_1 in Hi as [-> Hi].
  2: { pose proof (length_vrange v base (zlen A) ltac:(lia)). lia. }
  apply app_inj_1 in Hi as [_ ->]; [done|].
  pose proof (length_vrange v (base + zlen A) (zlen R) ltac:(lia)). lia.
Qed.

(** An append over a torn tail can bring dead records back.  A mount ends
    a segment at the first bytes that are no record and leaves what follows in
    place; when the next append is as long as those bytes, its one write makes
    the records behind them part of the segment again, so that the next mount
    replays them after the new one. *)
Theorem torn_tail_resurrects v prev s T rs tail r :
  faultless v -> seg_ok v prev s -> sg_tail s = T ++ recs_bytes rs ++ tail -> zlen T = rec_len r ->
  rec_ok r -> Forall rec_ok rs -> no_record tail ->
  let bump := INVFS_DELTA_SEG_HDR_LEN + recs_len (sg_recs s) in
  exists v', io_pwrite (sg_pba s * INVFS_BLOCK_SIZE + bump) (rec_bytes r) v = (Some tt, v') /\
    seg_ok v' prev (mkSeg (sg_pba s) (sg_seq s) (sg_recs s ++ r :: rs) tail).
Proof.
  intros Hq [H1 H2 H3 H4 H5 H6 H7 H8] Ht HT Hr Hrs Htl bump.
  pose proof (length_hdr (sg_seq s) prev) as Hh. pose proof (length_drec_bytes r) as Hl.
  assert (HB : 0 <= INVFS_DELTA_SEG_BYTES) by done.
  assert (HA : zlen (delta_hdr_encode (sg_seq s) prev ++ recs_bytes (sg_recs s)) = bump)
    by (rewrite length_app; unfold bump, recs_len; lia).
  rewrite Ht, app_assoc in H7.
  assert (Hfit : bump + rec_len r <= INVFS_DELTA_SEG_BYTES).
  { pose proof (length_vrange v (sg_pba s * INVFS_BLOCK_SIZE) INVFS_DELTA_SEG_BYTES HB) as H.
    rewrite H7, length_app, Nat2Z.inj_add, HA, length_app in H. lia. }
  assert (H44 : INVFS_DELTA_SEG_HDR_LEN = 44) by reflexivity.
  assert (Hb0 : 0 <= bump) by (unfold bump, recs_len; lia).
  cut (tot (io_pwrite (sg_pba s * INVFS_BLOCK_SIZE + bump) (rec_bytes r)) v (fun _ v' =>
    seg_ok v' prev (mkSeg (sg_pba s) (sg_seq s) (sg_recs s ++ r :: rs) tail))).
  { intros ([] & v' & Ew & Hs). by exists v'. }
  apply tot_pwrite; [done|apply H8; lia|]. intros d v' Hst Hv HR.
  split; cbn [sg_pba sg_seq sg_recs sg_tail]; [exact H1|exact H2|exact H3|exact H4| |exact Htl| |].
  - apply Forall_app. split; [exact H5|by constructor].
  - rewrite (image_over v v' _ _ _ T (rec_bytes r) _ H7 HB);
      [|lia|by rewrite HA|by rewrite HA].
    rewrite recs_bytes_app, recs_bytes_cons, <- !app_assoc. done.
  - intros o m Ho Hm Hom. eapply may_steady; [exact Hst|]. by apply H8.
Qed.
End session.

(** ** Examples *)

Definition demo_env : penv := mkPenv None None 0.
Definition demo_calls : retire_calls (vol Mem.mem dlog) :=
  mkRetireCalls _ (fun _ => mret tt) (mret tt) (fun _ => mret 0) (fun _ => mret 1).
Definition demo_sb : superblock :=
  mkSb (zeros 16) 0 4096 100 1 3 4 16 20 80 0 2 VOLF_META 0 0 0 0.
Definition demo_avol (bm : bytes) (free : Z) : avol :=
  alloc_state_reset (mkAvol demo_sb bm 1 None None (mkZone 0 0 0) (mkZone 0 0 0) (mkZone 0 0 0) 0 0 free 0 1 0
    1 0 false false false None None 0).
Definition demo_x : dlog :=
  mkDlog (Some (di_new 0)) 1 0 0 0 0 0 0 0 true 0 0 64 262144 [] 0 false [] 0 0 0 0 0 false
    (mkSbRest (zeros 8) (zeros 32) 0 0 (zeros 3) 0).

(** An empty log. *)
Definition demo_empty : vol Mem.mem dlog :=
  mkVol (Mem.mkMem (fun _ => 0)) (demo_avol (15 :: zeros 12) 96) 0 0 1 0 false rt_zero AnchorOk anc_zero false false
    (zeros 32) orph_init true null_ptr null_ptr demo_x.

(** One segment with one record. *)
Definition demo_seg : seg :=
  add_rec (fresh_seg 1 20) (mkLrec 0 [107] [118; 119]).
Definition demo_image : bytes :=
  delta_hdr_encode 1 0 ++ recs_bytes (sg_recs demo_seg) ++ sg_tail demo_seg.
Definition demo_one : vol Mem.mem dlog :=
  mkVol (Mem.mkMem (fun a => nthZ demo_image (a - 20 * INVFS_BLOCK_SIZE)))
    (demo_avol (15 :: 0 :: 240 :: 255 :: 255 :: 255 :: 15 :: zeros 6) 64) 0 0 1 0 true (set_rt_delta 20 rt_fresh)
    AnchorOk anc_zero false false (zeros 32) orph_init true null_ptr null_ptr (set_d_index None demo_x).

Lemma demo_room v l bm free :
  v_a v = demo_avol bm free -> alloc_inv (demo_avol bm free) -> spt0 v = zeros 32 -> rt_ok (rt v) ->
  (forall s j, s ∈ l -> sg_pba s <= j < sg_pba s + INVFS_DELTA_SEG_BLOCKS ->
     bit_get (bitmap (demo_avol bm free)) j = true /\ j <> 99) ->
  (forall s, s ∈ l -> 20 <= sg_pba s) ->
  room (D := Mem.mem) v l.
Proof.
  intros Ea Hi Es Hr Hb Hz. assert (Esb : vsb v = demo_sb) by (unfold vsb; by rewrite Ea).
  split; rewrite ?Esb, ?Ea, ?Es; try done.
  - intros o m H1 H2 H3. change (20 * 4096 <= o) in H1. change (o + m <= (20 + 80) * 4096) in H3.
    split_and!; [lia|lia|change (o + m <= 2 ^ 62); lia|exact I].
  - split; [done|by apply bytes_okb_ok].
  - split; [done|by apply bytes_okb_ok].
Qed.

Lemma demo_empty_inv : alloc_inv (demo_avol (15 :: zeros 12) 96).
Proof.
  constructor; try (vm_compute; reflexivity || discriminate).
  constructor; vm_compute; repeat split; discriminate.
Qed.
Lemma demo_one_inv : alloc_inv (demo_avol (15 :: 0 :: 240 :: 255 :: 255 :: 255 :: 15 :: zeros 6) 64).
Proof.
  constructor; try (vm_compute; reflexivity || discriminate).
  constructor; vm_compute; repeat split; discriminate.
Qed.

Lemma demo_session : session demo_empty [].
Proof.
  split_and!; [|apply (demo_room demo_empty [] _ _ eq_refl demo_empty_inv eq_refl); [|by intros s j ?%not_elem_of_nil|by intros s ?%not_elem_of_nil]|done].
  - split; try done; [|by left].
    exists (di_new 0). destruct (di_new_ok 0) as [Hok Hm]. split_and!; [done|done|]. rewrite Hm. apply fmap_empty.
  - constructor; try done. by apply bytes_okb_ok.
Qed.

Lemma nthZ_image img off :
  map (fun a => nthZ img (a - off)) (seqZ off (zlen img)) = img.
Proof.
  apply list_eq. intros i. rewrite list_lookup_fmap. destruct (decide (i < length img)%nat) as [Hi|Hi].
  - rewrite lookup_seqZ_lt by lia. cbn. destruct (lookup_lt_is_Some_2 img i Hi) as [x Ex]. rewrite Ex. f_equal.
    unfold nthZ. apply nth_lookup_Some. rewrite <- Ex. f_equal. lia.
  - rewrite lookup_seqZ_ge by lia. symmetry. apply lookup_ge_None. lia.
Qed.

Lemma length_demo_image : zlen demo_image = INVFS_DELTA_SEG_BYTES.
Proof.
  unfold demo_image. rewrite !length_app. pose proof (length_hdr 1 0) as Hh.
  cbn [demo_seg add_rec fresh_seg sg_recs sg_tail app]. rewrite length_zeros.
  change (recs_len [mkLrec 0 [107] [118; 119]]) with 13.
  change (length (recs_bytes [mkLrec 0 [107] [118; 119]])) with 13%nat.
  assert (INVFS_DELTA_SEG_BYTES = 131072) by reflexivity.
  assert (INVFS_DELTA_SEG_HDR_LEN = 44) by reflexivity. lia.
Qed.

Lemma demo_mountable : mountable demo_one [demo_seg].
Proof.
  assert (Hroom : room demo_one [demo_seg]).
  { apply (demo_room demo_one _ _ _ eq_refl demo_one_inv eq_refl).
    - apply set_rt_delta_ok; [done|apply rt_ok_fresh].
    - intros s j ->%list_elem_of_singleton Hj. change (20 <= j < 20 + 32) in Hj. split; [|lia].
      assert (Hall : forallb (bit_get (15 :: 0 :: 240 :: 255 :: 255 :: 255 :: 15 :: zeros 6)) (seqZ 20 32) = true)
        by (vm_compute; reflexivity).
      rewrite forallb_forall in Hall. apply Hall. apply list_elem_of_In, elem_of_seqZ. lia.
    - by intros s ->%list_elem_of_singleton. }
  split; [exact I| |by split|exact Hroom|by split|apply Nat.leb_le; vm_compute; reflexivity].
  split_and!; [|constructor|exact I].
  split; cbn [head_pba]; [done|done|done|done| |exact (proj1 (zeros_tail _))| |].
  - constructor; [|constructor]. split; try done; [by left|by apply bytes_okb_ok|by apply bytes_okb_ok].
  - rewrite <- length_demo_image. exact (nthZ_image demo_image (20 * INVFS_BLOCK_SIZE)).
  - intros o m Ho Hm Hom. assert (INVFS_DELTA_SEG_BYTES = 131072) by reflexivity.
    change (sg_pba demo_seg * INVFS_BLOCK_SIZE) with 81920.
    split_and!; [lia|lia|change (81920 + o + m <= 2 ^ 62); lia|exact I].
Qed.

Definition demo_ops : list dop :=
  [DAppend [107] [118; 119] 0; DLookup [107] 64; DMount; DLookup [107] 64; DAppend [107] [] 1; DDrain;
   DLookup [107] 64].

Lemma demo_appendable : appendable [107] [118; 119] 0.
Proof. split; [split; [done|by apply bytes_okb_ok]|split; [done|by apply bytes_okb_ok]|by left|done]. Qed.
Lemma demo_removable : appendable [107] [] 1.
Proof. split; [split; [done|by apply bytes_okb_ok]|split; [done|by apply bytes_okb_ok]|by right|done]. Qed.

Lemma demo_session_ok : Forall op_ok demo_ops.
Proof.
  apply Forall_forall. intros o. cbn.
  intros [<-|[<-|[<-|[<-|[<-|[<-|[<-|[]]]]]]]]; [exact demo_appendable|done|done|done|exact demo_removable|done|done].
Qed.

Lemma delta_session_refines_witness :
  session demo_empty [] /\ Forall op_ok demo_ops /\
  let '(rs, v') := exec_all demo_env demo_calls demo_ops demo_empty in
  exists l', session v' l' /\ spec_run ∅ demo_ops rs (content l').
Proof.
  split; [exact demo_session|]. split; [exact demo_session_ok|].
  apply (delta_session_refines demo_env demo_calls demo_ops demo_empty [] demo_session demo_session_ok).
  apply Nat.leb_le. vm_compute. reflexivity.
Defined.

Lemma delta_append_correct_witness :
  let '(r, v') := vol_delta_append demo_env demo_calls [107] [118; 119] 0 demo_empty in
  append_post demo_empty [] [107] [118; 119] 0 r v'.
Proof. exact (delta_append_correct demo_env demo_calls demo_empty [] _ _ _ demo_session demo_appendable). Defined.


(** A segment whose second record is torn and whose third is whole: another
    value of the key of the first. *)
Definition demo_torn : bytes := [0; 0; 0; 2; 0; 0; 0; 0; 0; 0; 107; 1; 1].
Definition demo_stale : lrec := mkLrec 0 [107] [1; 1].
Definition demo_torn_seg : seg :=
  mkSeg 20 1 [mkLrec 0 [107] [118; 119]]
    (demo_torn ++ recs_bytes [demo_stale] ++ zeros (INVFS_DELTA_SEG_BYTES - 83)).
Definition demo_torn_vol : vol Mem.mem dlog :=
  set_v_dev (Mem.mkMem (fun a => nthZ (delta_hdr_encode 1 0 ++ recs_bytes (sg_recs demo_torn_seg) ++
    sg_tail demo_torn_seg) (a - 20 * INVFS_BLOCK_SIZE))) demo_one.

Lemma demo_torn_tail rest : no_record (demo_torn ++ rest).
Proof.
  unfold no_record, vol_delta_rec_parse, demo_torn. rewrite length_app. cbn [length].
  rewrite (proj2 (Z.ltb_ge _ _)), (proj2 (Z.ltb_ge _ _)) by (unfold INVFS_DELTA_REC_HDR_LEN; lia). cbn [orb].
  destruct (bool_decide _); [done|]. reflexivity.
Qed.

Lemma demo_torn_ok : seg_ok demo_torn_vol 0 demo_torn_seg.
Proof.
  split; cbn [demo_torn_seg sg_pba sg_seq sg_recs]; [done|done|done|done| |apply demo_torn_tail| |].
  - constructor; [|constructor]. split; try done; [by left|by apply bytes_okb_ok|by apply bytes_okb_ok].
  - assert (Hl : zlen (delta_hdr_encode 1 0 ++ recs_bytes (sg_recs demo_torn_seg) ++ sg_tail demo_torn_seg)
      = INVFS_DELTA_SEG_BYTES).
    { pose proof (length_hdr 1 0) as Hh. cbn [demo_torn_seg sg_recs sg_tail].
      rewrite !length_app, length_zeros.
      change (length (recs_bytes [mkLrec 0 [107] [118; 119]])) with 13%nat.
      change (length (recs_bytes [demo_stale])) with 13%nat. change (length demo_torn) with 13%nat.
      assert (INVFS_DELTA_SEG_BYTES = 131072) by reflexivity.
      assert (INVFS_DELTA_SEG_HDR_LEN = 44) by reflexivity. lia. }
    rewrite <- Hl at 1. exact (nthZ_image _ (20 * INVFS_BLOCK_SIZE)).
  - intros o m Ho Hm Hom. assert (INVFS_DELTA_SEG_BYTES = 131072) by reflexivity.
    change (20 * INVFS_BLOCK_SIZE) with 81920.
    split_and!; [lia|lia|change (81920 + o + m <= 2 ^ 62); lia|exact I].
Qed.

Lemma torn_tail_resurrects_witness :
  exists v', io_pwrite (20 * 4096 + 57) (rec_bytes (mkLrec 0 [107] [5; 6])) demo_torn_vol = (Some tt, v') /\
    seg_ok v' 0 (mkSeg 20 1 [mkLrec 0 [107] [118; 119]; mkLrec 0 [107] [5; 6]; demo_stale]
      (zeros (INVFS_DELTA_SEG_BYTES - 83))).
Proof.
  apply (torn_tail_resurrects demo_torn_vol 0 demo_torn_seg demo_torn [demo_stale] (zeros (INVFS_DELTA_SEG_BYTES - 83))
    (mkLrec 0 [107] [5; 6])).
  - exact I.
  - exact demo_torn_ok.
  - reflexivity.
  - reflexivity.
  - split; try done; [by left|by apply bytes_okb_ok|by apply bytes_okb_ok].
  - constructor; [|constructor]. split; try done; [by left|by apply bytes_okb_ok|by apply bytes_okb_ok].
  - exact (proj1 (zeros_tail _)).
Defined.

End DeltaSession.
