(* ===== verification/DeltaTruncate.v ===== *)
(** * Truncation of the delta log for a rollback

    The cut of a chain back to what a save point captured: with the captured
    head known, the next mount finds exactly the captured log; by byte count
    alone it does not. *)

From S2P Require Import Prelude Crc32c Dev Alloc Volume Anchor Page Metabuf Keys Kv DeltaIndex DeltaRec Delta DeltaLog DeltaAppend Mem DeltaSession.

Module DeltaTruncate.
Import Crc32c Alloc Volume Anchor Page Metabuf Keys Kv DeltaIndex DeltaRec Delta DeltaLog DeltaAppend Mem DeltaSession.

(** A segment cut back to some of its records. *)
Definition cut_seg (s : seg) (pre : list lrec) : seg :=
  mkSeg (sg_pba s) (sg_seq s) pre (zeros (INVFS_DELTA_SEG_BYTES - (INVFS_DELTA_SEG_HDR_LEN + recs_len pre))).

(** The bytes the cut writes. *)
Lemma cut_image q p pre post tail :
  zlen (delta_hdr_encode q p ++ recs_bytes (pre ++ post) ++ tail) = INVFS_DELTA_SEG_BYTES ->
  let t := INVFS_DELTA_SEG_HDR_LEN + recs_len pre in
  put (put (delta_hdr_encode q p ++ recs_bytes (pre ++ post) ++ tail) t (zeros (INVFS_DELTA_SEG_BYTES - t)))
    0 (delta_hdr_encode q p)
  = delta_hdr_encode q p ++ recs_bytes pre ++ zeros (INVFS_DELTA_SEG_BYTES - t).
Proof.
  intros Hl t. pose proof (length_hdr q p) as Hh. pose proof (Zle_0_nat (length (recs_bytes pre))) as Hp.
  assert (Ht : t <= INVFS_DELTA_SEG_BYTES).
  { rewrite recs_bytes_app, !length_app in Hl. unfold t, recs_len. lia. }
  assert (H1 : put (delta_hdr_encode q p ++ recs_bytes (pre ++ post) ++ tail) t (zeros (INVFS_DELTA_SEG_BYTES - t))
    = (delta_hdr_encode q p ++ recs_bytes pre) ++ zeros (INVFS_DELTA_SEG_BYTES - t)).
  { assert (Hn : Z.to_nat t = length (delta_hdr_encode q p ++ recs_bytes pre)).
    { rewrite length_app. unfold t, recs_len. lia. }
    unfold put. rewrite drop_ge by (rewrite length_zeros; lia). rewrite app_nil_r. f_equal.
    rewrite recs_bytes_app, <- app_assoc, app_assoc, Hn. by rewrite take_app_length. }
  rewrite H1. unfold put. cbn [Z.to_nat take app]. rewrite Nat.add_0_l, <- app_assoc, drop_app_length. done.
Qed.

Section truncate.
Context {D : Type} `{!Dev D, !DevLaws D}.
Abbreviation V := (vol D dlog).
Implicit Types v : V.

Lemma chain_list_tot : forall l fuel acc v,
  faultless v -> chain_ok v l -> (length l <= fuel)%nat ->
  tot (chain_list fuel (head_pba l) acc) v (fun c v' => c = acc ++ map sg_pba l /\ reads v v').
Proof.
  induction l as [|s l IH]; intros fuel acc v Hq Hc Hf.
  { destruct fuel; cbn; (apply tot_ret; split; [by rewrite app_nil_r|by apply reads_refl]). }
  destruct fuel as [|fuel]; [cbn in Hf; lia|]. destruct Hc as (Hs & Hap & Hc). cbn [chain_list head_pba].
  rewrite (proj2 (Z.eqb_neq _ _)) by (pose proof (sk_pba _ _ _ Hs); lia).
  apply tot_bind, tot_try. eapply tot_mono; [exact (read_hdr_tot v _ s Hq Hs)|]. intros h v1 [-> Hrd].
  pose proof Hrd as (E1 & Hst1 & Hv1). cbn [prev_pba].
  destruct (Z.eqb_spec (head_pba l) (sg_pba s)) as [Eh|_].
  { exfalso. destruct l as [|s' l]; cbn [head_pba] in Eh; [pose proof (sk_pba _ _ _ Hs); lia|].
    apply Forall_cons_iff in Hap as [Ha _]. unfold apart_segs, INVFS_DELTA_SEG_BLOCKS in Ha. lia. }
  eapply tot_mono; [apply IH; [apply Hst1| |cbn in Hf; lia]|].
  - apply (chain_replaying v); [by apply replaying_reads|done].
  - intros c v2 [-> Hrd2]. split; [by rewrite <- app_assoc|by apply (reads_trans v v1)].
Qed.

(** A chain of which one segment was rewritten in place. *)
Lemma chain_update v v' newer s s' l :
  chain_ok v (newer ++ s :: l) -> sg_pba s' = sg_pba s ->
  steady v v' -> total_blocks (vsb v') = total_blocks (vsb v) ->
  (forall a, ~ in_seg (sg_pba s) a -> view v' a = view v a) -> seg_ok v' (head_pba l) s' ->
  chain_ok v' (newer ++ s' :: l).
Proof.
  intros Hc Hp Hst Ht Hv Hs'.
  assert (Hfar : forall t a, apart_segs (sg_pba t) (sg_pba s) -> in_seg (sg_pba t) a -> view v' a = view v a).
  { intros t a Hd Ha. apply Hv. intros Hin.
    unfold in_seg, apart_segs, INVFS_DELTA_SEG_BYTES, INVFS_DELTA_SEG_BLOCKS, INVFS_BLOCK_SIZE in *. lia. }
  induction newer as [|n newer IH]; cbn [app] in *.
  - destruct Hc as (_ & Hap & Hc). split_and!; [done|by rewrite Hp|].
    apply (chain_ok_ext v v' l Hst Ht); [|exact Hc]. intros t a Htl. apply Hfar.
    rewrite Forall_forall in Hap. apply list_elem_of_In in Htl. specialize (Hap t Htl).
    unfold apart_segs in *. lia.
  - destruct Hc as (Hs & Hap & Hc). split_and!; [| |by apply IH].
    + replace (head_pba (newer ++ s' :: l)) with (head_pba (newer ++ s :: l)) by (destruct newer; [symmetry|]; done).
      apply (seg_ok_ext v v' _ n Hst Ht); [|exact Hs]. intros a. apply Hfar.
      apply Forall_app in Hap as [_ [Hd _]%Forall_cons_iff]. exact Hd.
    + apply Forall_app in Hap as [H1 [H2 H3]%Forall_cons_iff]. apply Forall_app. split; [done|].
      constructor; [by rewrite Hp|done].
Qed.

(** A segment given back. *)
Lemma room_freed v n l :
  room v (n :: l) -> chain_ok v (n :: l) ->
  let v' := set_v_a (vol_free_blocks (sg_pba n) INVFS_DELTA_SEG_BLOCKS (v_a v)) v in
  room v' l /\ exists f, vsb v' = set_vol_flags f (vsb v).
Proof.
  intros [R1 R2 R2z R3 R4 R5 R6 R7 R8 R9] (Hs & Hap & _) v'.
  pose proof (lay_end _ (ai_layout _ R1)) as Hle. change (sb (v_a v)) with (vsb v) in Hle.
  pose proof (sk_end _ _ _ Hs) as Hend.
  destruct (vol_free_blocks_keeps ZShadow _ _ (sg_pba n) INVFS_DELTA_SEG_BLOCKS _ R1 (dz_shadow _) eq_refl)
    as (Hi & [f Hf] & Hb).
  { apply R2z. left. } { change (sb (v_a v)) with (vsb v). lia. } { intros j Hj. apply (R2 n j); [left|done]. }
  assert (Esb : vsb v' = set_vol_flags f (vsb v)) by exact Hf.
  split; [|by exists f]. split; rewrite ?Esb; try done.
  - intros s j Hsl Hj. destruct (R2 s j) as [Hu Hn]; [by right|done|]. split; [|exact Hn].
    cbn [v_a set_v_a v']. rewrite Hb; [done| |].
    + pose proof (R2z s ltac:(by right)). pose proof (lay_shadow _ (ai_layout _ R1)).
      pose proof (lay_meta _ (ai_layout _ R1)). pose proof (lay_raw _ (ai_layout _ R1)).
      unfold vsb in *. lia.
    + rewrite Forall_forall in Hap. apply list_elem_of_In in Hsl. specialize (Hap s Hsl).
      unfold in_run. destruct (Z.leb_spec (sg_pba n) j); [|done].
      rewrite (proj2 (Z.ltb_ge _ _)); [done|]. unfold apart_segs in Hap. lia.
  - intros s Hsl. apply (R2z s). by right.
Qed.

(** Giving back the segments newer than the cut. *)
Lemma free_newer_tot newer : forall l v,
  faultless v -> chain_ok v (newer ++ l) -> room v (newer ++ l) ->
  tot (free_newer (map sg_pba newer)) v (fun _ v' => exists f,
    chain_ok v' l /\ room v' l /\ steady v v' /\ vsb v' = set_vol_flags f (vsb v) /\
    v_x v' = v_x v /\ rt v' = rt v /\ rt_present v' = rt_present v).
Proof.
  induction newer as [|n newer IH]; intros l v Hq Hc Hr; cbn [map free_newer].
  { apply tot_ret. exists (vol_flags (vsb v)). split_and!; try done. apply sb_same_flags. }
  cbn [app] in *. pose proof Hc as (Hs & _ & _).
  apply tot_bind, tot_try. eapply tot_mono; [exact (read_hdr_tot v _ n Hq Hs)|]. intros h v1 [-> Hrd].
  pose proof (replaying_reads v v1 Hrd) as Hr1. pose proof Hr1 as (_ & Hst1 & _).
  pose proof (chain_replaying v v1 _ Hr1 Hc) as Hc1. pose proof (room_replaying v v1 _ Hr1 Hr) as Hrm1.
  destruct (room_freed v1 n (newer ++ l) Hrm1 Hc1) as [Hrm2 [f1 Hf1]].
  apply tot_bind, tot_on_a. set (v2 := set_v_a _ v1) in *.
  assert (Hst2 : steady v1 v2) by (by apply (steady_dev v1), steady_refl, Hst1).
  assert (Hc2 : chain_ok v2 (newer ++ l)).
  { apply (chain_block0 v1 v2); [done|by rewrite Hf1|done|apply Hc1]. }
  eapply tot_mono; [apply (IH l v2); [apply Hst2|done|done]|].
  intros [] v3 (f & H1 & H2 & H3 & H4 & H5 & H6 & H7). exists f.
  assert (E1 : vsb v1 = vsb v /\ v_x v1 = v_x v /\ rt v1 = rt v /\ rt_present v1 = rt_present v)
    by (destruct Hrd as [-> _]; done).
  destruct E1 as (A1 & A2 & A3 & A4).
  split_and!; [done|done| | |by rewrite H5|by rewrite H6|by rewrite H7].
  - apply (steady_trans v v1 _ Hst1). by apply (steady_trans v1 v2).
  - rewrite H4, Hf1, A1. done.
Qed.
Lemma heal_noop v : delta_rewrite_needed (v_x v) = false -> vol_delta_heal v = (Some tt, v).
Proof. intros H. unfold vol_delta_heal, heal_if_needed. rewrite (mbind_eq _ _ _ v v) by done. by rewrite H. Qed.

Lemma room_anc v l : room v l -> forall r, rt_ok r -> anc_ok (anchor_build (set_rt r v)).
Proof.
  intros [R1 _ _ _ _ _ _ [U1 U2] R8 [S1 S2]] r Hr. pose proof (ai_layout _ R1) as Hl.
  pose proof (lay_end _ Hl). pose proof (lay_size _ Hl). pose proof (lay_meta _ Hl). pose proof (lay_raw _ Hl).
  pose proof (lay_shadow _ Hl). change (sb (v_a v)) with (vsb v) in *.
  apply anchor_build_ok; change (vsb (set_rt r v)) with (vsb v); [lia|exact R8|exact U1|exact U2|exact Hr|exact S1|exact S2].
Qed.

(** The head published in RT30. *)
Lemma publish_tot v l pba :
  faultless v -> chain_ok v l -> room v l -> 0 <= pba < 2 ^ 64 -> delta_rewrite_needed (v_x v) = false ->
  tot (mbuf_rt30_store vol_delta_heal) (set_rt (set_rt_delta pba (rt v)) v) (fun _ v' =>
    chain_ok v' l /\ room v' l /\ steady v v' /\ vsb v' = vsb v /\ v_x v' = v_x v /\
    delta_pba (rt v') = pba /\ rt_present v' = rt_present v).
Proof.
  intros Hq Hc Hr Hp Hn. set (v0 := set_rt _ v).
  assert (Hrt0 : rt_ok (rt v0)) by (apply set_rt_delta_ok; [done|apply (rm_rtok v l Hr)]).
  eapply tot_mono.
  { apply (rt30_store_tot vol_delta_heal v0); [|done|exact (rm_rt v l Hr)|exact (rm_anc v l Hr)|exact Hrt0|].
    - intros w Hw. apply heal_noop. rewrite Hw. exact Hn.
    - intros r Hr'. exact (room_anc v l Hr r Hr'). }
  intros [] v1 (E1 & Hst & Hv).
  assert (Hst' : steady v v1) by (destruct Hst; by split).
  assert (F : vsb v1 = vsb v /\ v_a v1 = v_a v /\ v_x v1 = v_x v /\ rt_present v1 = rt_present v /\
    spt0 v1 = spt0 v /\ rt v1 = set_rt_crc (rt_crc (rt v0)) (rt v0)).
  { rewrite E1. cbn [vsb v_a v_x rt_present spt0 rt set_v_dev set_rt]. split_and!; reflexivity. }
  destruct F as (F1 & F2 & F3 & F4 & F5 & F6). split_and!; [| |done|done|done|by rewrite F6|done].
  - apply (chain_frame v v1 l Hst'); [by rewrite F1|done| |done]. intros s a _ _ Hb Hna. by apply Hv.
  - destruct Hr as [R1 R2 R2z R3 R4 R5 R6 R7 R8 R9]. split; rewrite ?F1, ?F2, ?F5; try done.
    + intros o m ? ? ?. eapply may_steady; [exact Hst'|]. by apply R3.
    + by eapply may_steady.
    + by eapply may_steady.
    + rewrite F6. by apply rt_ok_crc.
Qed.

(** The segment rewritten. *)
Lemma cut_write_tot v newer s l pre post :
  faultless v -> chain_ok v (newer ++ s :: l) -> room v (newer ++ s :: l) -> sg_recs s = pre ++ post ->
  let img := delta_hdr_encode (sg_seq s) (head_pba l) ++ recs_bytes pre ++
             zeros (INVFS_DELTA_SEG_BYTES - (INVFS_DELTA_SEG_HDR_LEN + recs_len pre)) in
  tot (io_pwrite (sg_pba s * INVFS_BLOCK_SIZE) img) v (fun _ v' =>
    chain_ok v' (newer ++ cut_seg s pre :: l) /\ room v' (newer ++ cut_seg s pre :: l) /\
    v' = set_v_dev (v_dev v') v /\ steady v v').
Proof.
  intros Hq Hc Hr Hrec img.
  assert (Hs : seg_ok v (head_pba l) s).
  { clear Hr. induction newer as [|n newer IH]; [apply Hc|]. apply IH. apply Hc. }
  pose proof Hs as [H1 H2 H3 H4 H5 H6 H7 H8].
  assert (Hlen : zlen img = INVFS_DELTA_SEG_BYTES).
  { assert (Hfit : INVFS_DELTA_SEG_HDR_LEN + recs_len pre <= INVFS_DELTA_SEG_BYTES).
    { pose proof (length_vrange v (sg_pba s * INVFS_BLOCK_SIZE) INVFS_DELTA_SEG_BYTES ltac:(done)) as Hlv.
      rewrite H7, Hrec, recs_bytes_app, !length_app in Hlv. pose proof (length_hdr (sg_seq s) (head_pba l)).
      unfold recs_len. lia. }
    pose proof (length_hdr (sg_seq s) (head_pba l)). unfold img.
    rewrite !length_app, length_zeros. unfold recs_len in *. lia. }
  apply tot_pwrite; [done|rewrite Hlen; pose proof (H8 0 INVFS_DELTA_SEG_BYTES) as H; rewrite Z.add_0_r in H; by apply H|].
  rewrite Hlen. intros d v1 Hst Hv HR.
  assert (Hrest : same_rest v v1) by (destruct v; done).
  split_and!; [| |done|done].
  - apply (chain_update v v1 newer s (cut_seg s pre) l Hc); [done|done|done| |].
    + intros a Ha. apply Hv. intros Hin. apply Ha. exact Hin.
    + split; cbn [cut_seg sg_pba sg_seq sg_recs sg_tail]; [exact H1|exact H2|exact H3|exact H4| |
        exact (proj1 (zeros_tail _))|exact HR|].
      * rewrite Hrec in H5. by apply Forall_app in H5 as [? _].
      * intros o m Ho Hm Hom. eapply may_steady; [exact Hst|]. by apply H8.
  - apply (room_same_rest v v1 (newer ++ s :: l)); [done|done| |done]. by rewrite !map_app.
Qed.

Lemma chain_at v newer s l : chain_ok v (newer ++ s :: l) -> seg_ok v (head_pba l) s.
Proof. induction newer as [|n newer IH]; [by intros [? _]|]. intros (_ & _ & ?). by apply IH. Qed.

Lemma chain_suffix v newer l : chain_ok v (newer ++ l) -> chain_ok v l.
Proof. induction newer as [|n newer IH]; [done|]. intros (_ & _ & ?). by apply IH. Qed.

Lemma live_sb_env v v' f :
  sb_env v -> steady v v' -> vsb v' = set_vol_flags f (vsb v) -> v_sb_rest (v_x v') = v_sb_rest (v_x v) -> sb_env v'.
Proof.
  intros [S1 S2 S3 S4 S5] Hst Hf Hx. split; rewrite ?Hx, ?Hf; try assumption. by eapply may_steady.
Qed.

(** Publication of the cut segment, and the end of the newer ones. *)
Lemma cut_finish_tot v newer s l (t : Z) :
  let L := newer ++ s :: l in
  faultless v -> chain_ok v L -> room v L -> delta_rewrite_needed (v_x v) = false ->
  rt_present v = true -> sb_env v -> (length l < DELTA_MAX_SEGMENTS)%nat ->
  tot (mmod (fun v => set_rt (set_rt_delta (sg_pba s) (rt v)) v) ;;;
       mbuf_rt30_store vol_delta_heal ;;;
       on_x (fun x => set_delta_bump t (set_delta_seg_pba (sg_pba s) x)) ;;;
       free_newer (map sg_pba newer) ;;;
       vol_barrier) v
    (fun b v' => b = BarOk /\ mountable v' (s :: l)).
Proof.
  intros L Hq Hc Hr Hf Hp Hsb Hn. apply tot_bind, tot_mod, tot_bind. eapply tot_mono.
  { apply (publish_tot v L (sg_pba s) Hq Hc Hr); [|exact Hf].
    apply (head_range v (s :: l)); [by apply (chain_suffix v newer)|].
    apply (lay_size _ (ai_layout _ (rm_alloc v L Hr))). }
  intros [] v4 (Hc4 & Hr4 & Hst4 & B4 & X4 & D4 & P4). apply tot_bind, tot_on_x. set (v5 := set_v_x _ v4).
  assert (Hst45 : steady v4 v5) by (apply (steady_dev v4); [done|]; apply steady_refl, Hst4).
  assert (Hc5 : chain_ok v5 L) by by apply (chain_block0 v4 v5).
  assert (Hr5 : room v5 L) by (apply (room_same_rest v4 v5 L); [by destruct v4|done|done|done]).
  apply tot_bind. eapply tot_mono; [exact (free_newer_tot newer _ v5 (sy_quiet _ _ Hst45) Hc5 Hr5)|].
  intros [] v6 (f & Hc6 & Hr6 & Hst6 & B6 & X6 & R6 & P6).
  apply tot_barrier; [apply Hst6|]. intros d7 v7 Hst7 Hv7. split; [done|].
  assert (Hdt : forall a, INVFS_BLOCK_SIZE <= a -> view v7 a = view v6 a).
  { intros a Ha. apply Hv7. unfold INVFS_DEVT_OFF, DEVT_LEN, INVFS_BLOCK_SIZE in *. lia. }
  assert (Hst07 : steady v v7).
  { apply (steady_trans v v4 _ Hst4), (steady_trans v4 v5 _ Hst45). by apply (steady_trans v5 v6). }
  split.
  - apply Hst7.
  - by apply (chain_block0 v6 v7).
  - split; cbn [rt_present rt v7 set_v_dev]; [|by rewrite R6].
    rewrite P6. cbn [rt_present v5 set_v_x]. by rewrite P4.
  - apply (room_same_rest v6 v7 (s :: l)); [by destruct v6|done|done|done].
  - apply (live_sb_env v v7 f Hsb Hst07).
    + change (vsb v7) with (vsb v6). rewrite B6. change (vsb v5) with (vsb v4). by rewrite B4.
    + change (v_x v7) with (v_x v6). rewrite X6. cbn [v_x v5 set_v_x]. by rewrite X4.
  - cbn [length]. lia.
Qed.

Lemma cut_to_tot v newer s l pre post :
  live v (newer ++ s :: l) -> room v (newer ++ s :: l) -> sg_recs s = pre ++ post ->
  (length l < DELTA_MAX_SEGMENTS)%nat ->
  tot (delta_cut_to (sg_pba s) (INVFS_DELTA_SEG_HDR_LEN + recs_len pre) (map sg_pba newer)) v
    (fun b v' => b = BarOk /\ mountable v' (cut_seg s pre :: l)).
Proof.
  intros Hl Hr Hrec Hn. pose proof Hl as [Hq Hc _ _ Hrt _ Hf _ Hsb].
  pose proof (chain_at v newer s l Hc) as Hs. unfold delta_cut_to.
  rewrite (proj2 (Z.ltb_ge (INVFS_DELTA_SEG_HDR_LEN + recs_len pre) _)) by (unfold recs_len; lia).
  apply tot_bind. eapply tot_mono; [exact (read_hdr_tot v _ s Hq Hs)|]. intros h v1 [-> Hrd].
  cbn [seg_seq prev_pba]. pose proof (replaying_reads v v1 Hrd) as Hp1. pose proof Hp1 as (_ & Hst1 & _).
  pose proof (seg_replaying v v1 _ s Hp1 Hs) as Hs1.
  apply tot_bind, tot_pread; [apply Hst1| |].
  { pose proof (sk_may v1 _ s Hs1 0 INVFS_DELTA_SEG_BYTES) as H. rewrite Z.add_0_r in H. by apply H. }
  intros d v2 Hst2 Hv2.
  assert (Hp2 : replaying v v2) by (apply (replaying_trans v v1); [done|by apply replaying_reads, reads_step]).
  rewrite (sk_image v1 _ s Hs1), Hrec, cut_image.
  2: { rewrite <- Hrec, <- (sk_image v1 _ s Hs1). by apply length_vrange. }
  apply tot_bind. eapply tot_mono.
  { apply (cut_write_tot v2 newer s l pre post); [apply Hst2|by apply (chain_replaying v)|by apply (room_replaying v)|done]. }
  intros [] v3 (Hc3 & Hr3 & E3 & Hst3).
  assert (Hst03 : steady v v3) by (apply (steady_trans v v2); [apply Hp2|done]).
  assert (F3 : v_x v3 = v_x v /\ vsb v3 = vsb v /\ rt_present v3 = rt_present v).
  { rewrite E3. destruct Hrd as [Hrd _]. unfold v2. rewrite Hrd. done. }
  destruct F3 as (X3 & B3 & P3).
  apply (cut_finish_tot v3 newer (cut_seg s pre) l); [apply Hst03|done|done|by rewrite X3| | |done].
  - rewrite P3. unfold rt_names in Hrt. destruct newer; by destruct Hrt.
  - apply (live_sb_env v v3 (vol_flags (vsb v)) Hsb Hst03); [|by rewrite X3]. rewrite B3. apply sb_same_flags.
Qed.
Lemma position_app pba a b : Forall (fun p => p <> pba) a -> position pba (a ++ pba :: b) = Some (length a).
Proof.
  induction 1 as [|p a Hp _ IH]; cbn; [by rewrite Z.eqb_refl|].
  rewrite (proj2 (Z.eqb_neq p pba)) by done. by rewrite IH.
Qed.

Lemma newer_apart v newer s l :
  chain_ok v (newer ++ s :: l) -> Forall (fun p => p <> sg_pba s) (map sg_pba newer).
Proof.
  induction newer as [|n newer IH]; [constructor|]. intros (_ & Hap & Hc). constructor; [|by apply IH].
  apply Forall_app in Hap as [_ [Hd _]%Forall_cons_iff]. unfold apart_segs, INVFS_DELTA_SEG_BLOCKS in Hd. lia.
Qed.

(** Truncation with the chain in hand. *)
Lemma truncate_walk v l (delta_end : Z) Q :
  live v l -> l <> [] -> (length l <= DELTA_MAX_SEGMENTS)%nat -> delta_end <> 0 ->
  (forall v1, reads v v1 ->
     tot (match (if spn_delta_head (v_x v) =? 0 then None else position (spn_delta_head (v_x v)) (map sg_pba l)) with
          | Some hi => delta_cut_to (nth hi (map sg_pba l) 0) (delta_head_bump delta_end (spn_delta_segs (v_x v)))
                         (take hi (map sg_pba l))
          | None => truncate_count delta_end (map sg_pba l)
          end) v1 Q) ->
  tot (vol_delta_truncate delta_end) v Q.
Proof.
  intros [Hq Hc _ [Hp _] _ _ _ _ _] Hne Hn Hz HQ. unfold vol_delta_truncate.
  rewrite (proj2 (Z.eqb_neq delta_end 0)) by done. apply tot_bind, tot_get.
  assert (Hp0 : 0 < head_pba l) by (destruct l as [|s l]; [done|]; apply (sk_pba _ _ _ (proj1 Hc))).
  rewrite Hp, (proj2 (Z.eqb_neq (head_pba l) 0)) by lia.
  apply tot_bind. eapply tot_mono; [exact (chain_list_tot l _ [] v Hq Hc Hn)|].
  intros c v1 [-> Hrd]. cbn [app]. specialize (HQ v1 Hrd). destruct l as [|s l]; [done|]. exact HQ.
Qed.


(** A rollback to an empty log keeps the older segments.  A save point of
    an empty log records no head, and its truncation cuts the head segment
    only: once the log has rolled over, the records of the segments behind the
    head are still there after the rollback and the mount that follows it. *)
Theorem truncate_keeps_older (E : penv) v s1 s0 l :
  let L := s1 :: s0 :: l in
  live v L -> room v L -> (length L <= DELTA_MAX_SEGMENTS)%nat ->
  spn_delta_head (v_x v) = 0 -> sg_recs s1 <> [] ->
  exists v1 v2, vol_delta_truncate 0 v = (Some BarOk, v1) /\
    vol_delta_mount E v1 = (Some tt, v2) /\ live v2 (cut_seg s1 [] :: s0 :: l) /\
    content (cut_seg s1 [] :: s0 :: l) = content (s0 :: l).
Proof.
  intros L Hl Hr Hn Hh Hne.
  assert (Ht : tot (vol_delta_truncate 0) v (fun b v' => b = BarOk /\ mountable v' (cut_seg s1 [] :: s0 :: l))).
  { change (vol_delta_truncate 0) with (vol_delta_truncate (D := D) INVFS_DELTA_SEG_HDR_LEN).
    apply (truncate_walk v L); [done|done|done|done|]. intros v1 Hrd.
    destruct (live_reads v v1 L Hrd Hl Hr) as [Hl1 Hr1]. rewrite Hh. cbn [Z.eqb].
    unfold truncate_count. apply tot_bind, tot_get. cbn [cut_point].
    destruct (lv_head v1 L Hl1) as [_ Hb]. cbn [L] in Hb.
    assert (Hpos : 0 < recs_len (sg_recs s1)).
    { pose proof (sk_recs _ _ _ (proj1 (lv_chain v L Hl))) as Hok. pose proof (recs_count _ Hok).
      destruct (sg_recs s1); [done|]. cbn [length] in *. lia. }
    rewrite (proj2 (Z.ltb_lt _ _)) by lia. cbn [L map nth take]. rewrite Z.sub_0_r.
    replace INVFS_DELTA_SEG_HDR_LEN with (INVFS_DELTA_SEG_HDR_LEN + recs_len []) by reflexivity.
    apply (cut_to_tot v1 [] s1 (s0 :: l) [] (sg_recs s1) Hl1 Hr1 eq_refl). cbn [L length] in *. lia. }
  destruct Ht as (b & v1 & E1 & -> & Hm). destruct (mount_tot E v1 _ Hm) as ([] & v2 & E2 & Hl2 & _).
  by exists v1, v2.
Qed.

End truncate.

(** ** Examples: two segments, the older one with key 107, the head with 108 *)

Definition demo_old : seg := add_rec (fresh_seg 1 20) (mkLrec 0 [107] [118; 119]).
Definition demo_head : seg := add_rec (fresh_seg 2 52) (mkLrec 0 [108] [120; 121]).
Definition seg_image (s : seg) (prev : Z) : bytes :=
  delta_hdr_encode (sg_seq s) prev ++ recs_bytes (sg_recs s) ++ sg_tail s.
Definition demo_index : delta_index :=
  fst (di_put (fst (di_put (di_new 0) [107] (mkRef 20 44 1 0 2))) [108] (mkRef 52 44 2 0 2)).
(** [head] and [segs] are the geometry a save point recorded. *)
Definition demo_two (head segs : Z) : vol Mem.mem dlog :=
  mkVol (Mem.mkMem (fun a => if a <? 52 * INVFS_BLOCK_SIZE then nthZ (seg_image demo_old 0) (a - 20 * INVFS_BLOCK_SIZE)
                             else nthZ (seg_image demo_head 20) (a - 52 * INVFS_BLOCK_SIZE)))
    (demo_avol (15 :: 0 :: 240 :: replicate 7 255 ++ 15 :: zeros 2) 32) 0 0 1 0 true (set_rt_delta 52 rt_fresh)
    AnchorOk anc_zero false false (zeros 32) orph_init true null_ptr null_ptr
    (mkDlog (Some demo_index) 1 52 2 57 2 2 2 26 true 0 0 64 262144 [] 0 false [] 0 1 0 head segs false
      (mkSbRest (zeros 8) (zeros 32) 0 0 (zeros 3) 0)).

Lemma length_seg_image s prev r :
  sg_recs s = [r] -> rec_len r = 13 -> sg_tail s = zeros (INVFS_DELTA_SEG_BYTES - 57) ->
  zlen (seg_image s prev) = INVFS_DELTA_SEG_BYTES.
Proof.
  intros Hrs Hr Ht. unfold seg_image. rewrite Hrs, Ht. pose proof (length_hdr (sg_seq s) prev). pose proof (length_drec_bytes r).
  rewrite recs_bytes_cons, app_nil_r, !length_app, length_zeros.
  assert (INVFS_DELTA_SEG_BYTES = 131072) by reflexivity.
  assert (INVFS_DELTA_SEG_HDR_LEN = 44) by reflexivity. lia.
Qed.

Lemma demo_cut_rec_ok k a b : bytes_okb [k; a; b] = true -> rec_ok (mkLrec 0 [k] [a; b]).
Proof.
  intros Hb. apply bytes_okb_ok in Hb. apply Forall_cons_iff in Hb as [Hk Hab].
  split; try done; [by left|]. apply Forall_cons_iff. by split.
Qed.

Lemma demo_two_chain head segs : chain_ok (demo_two head segs) [demo_head; demo_old].
Proof.
  assert (HB : INVFS_DELTA_SEG_BYTES = 131072) by reflexivity.
  assert (Hmay : forall p o m, 0 <= p <= 52 -> 0 <= o -> 0 <= m -> o + m <= INVFS_DELTA_SEG_BYTES ->
    may (demo_two head segs) (p * INVFS_BLOCK_SIZE + o) m).
  { intros p o m Hp Ho Hm Hom. unfold INVFS_BLOCK_SIZE.
    split_and!; [lia|lia|change (p * 4096 + o + m <= 2 ^ 62); lia|exact I]. }
  split; [|split; [apply Forall_cons_iff; split; [by right|done]|split; [|by split]]].
  - split; cbn [head_pba]; [done|done|done|done| |exact (proj1 (zeros_tail _))| |intros; by apply Hmay].
    + apply Forall_cons_iff. split; [by apply demo_cut_rec_ok|done].
    + etransitivity; [|exact (nthZ_image (seg_image demo_head 20) (52 * INVFS_BLOCK_SIZE))].
      rewrite (length_seg_image demo_head 20 _ eq_refl eq_refl eq_refl). apply map_ext_in.
      intros a Ha%list_elem_of_In%elem_of_seqZ. change (sg_pba demo_head) with 52 in Ha.
      change (view (demo_two head segs) a) with (if a <? 52 * INVFS_BLOCK_SIZE
        then nthZ (seg_image demo_old 0) (a - 20 * INVFS_BLOCK_SIZE)
        else nthZ (seg_image demo_head 20) (a - 52 * INVFS_BLOCK_SIZE)).
      by rewrite (proj2 (Z.ltb_ge _ _)) by lia.
  - split; cbn [head_pba]; [done|done|done|done| |exact (proj1 (zeros_tail _))| |intros; by apply Hmay].
    + apply Forall_cons_iff. split; [by apply demo_cut_rec_ok|done].
    + etransitivity; [|exact (nthZ_image (seg_image demo_old 0) (20 * INVFS_BLOCK_SIZE))].
      rewrite (length_seg_image demo_old 0 _ eq_refl eq_refl eq_refl). apply map_ext_in.
      intros a Ha%list_elem_of_In%elem_of_seqZ. change (sg_pba demo_old) with 20 in Ha.
      change (view (demo_two head segs) a) with (if a <? 52 * INVFS_BLOCK_SIZE
        then nthZ (seg_image demo_old 0) (a - 20 * INVFS_BLOCK_SIZE)
        else nthZ (seg_image demo_head 20) (a - 52 * INVFS_BLOCK_SIZE)).
      by rewrite (proj2 (Z.ltb_lt _ _)) by (unfold INVFS_BLOCK_SIZE in *; lia).
Qed.
Lemma demo_two_inv : alloc_inv (demo_avol (15 :: 0 :: 240 :: replicate 7 255 ++ 15 :: zeros 2) 32).
Proof.
  constructor; try (vm_compute; reflexivity || discriminate).
  constructor; vm_compute; repeat split; discriminate.
Qed.

Lemma demo_two_room head segs : room (demo_two head segs) [demo_head; demo_old].
Proof.
  apply (demo_room _ _ _ _ (eq_refl (v_a (demo_two head segs))) demo_two_inv eq_refl).
  - apply set_rt_delta_ok; [done|apply rt_ok_fresh].
  - intros s j Hs Hj.
    assert (Hr : 20 <= j < 84).
    { apply elem_of_cons in Hs as [->|Hs]; [change (52 <= j < 52 + 32) in Hj; lia|].
      apply list_elem_of_singleton in Hs as ->. change (20 <= j < 20 + 32) in Hj. lia. }
    split; [|lia].
    assert (Hall : forallb (bit_get (15 :: 0 :: 240 :: replicate 7 255 ++ 15 :: zeros 2)) (seqZ 20 64) = true)
      by (vm_compute; reflexivity).
    rewrite forallb_forall in Hall. apply Hall. apply list_elem_of_In, elem_of_seqZ. lia.
  - intros s Hs. apply elem_of_cons in Hs as [->|Hs]; [done|]. by apply list_elem_of_singleton in Hs as ->.
Qed.

Lemma demo_two_live head segs : live (demo_two head segs) [demo_head; demo_old].
Proof.
  split; [exact I|apply demo_two_chain| |by split|by split|done|done|done|by split].
  exists demo_index. split; [done|]. unfold demo_index.
  destruct (di_put (di_new 0) [107] (mkRef 20 44 1 0 2)) as [d1 i1] eqn:E1. cbn [fst].
  destruct (di_put d1 [108] (mkRef 52 44 2 0 2)) as [d2 i2] eqn:E2. cbn [fst].
  destruct (di_new_ok 0) as [H0 M0].
  apply di_put_spec in E1 as (H1 & M1 & _); [|done]. apply di_put_spec in E2 as (H2 & M2 & _); [|done].
  split; [done|]. rewrite M2, M1, M0, !fmap_insert, fmap_empty. reflexivity.
Qed.


Lemma truncate_keeps_older_witness :
  exists v1 v2, vol_delta_truncate 0 (demo_two 0 0) = (Some BarOk, v1) /\
    vol_delta_mount demo_env v1 = (Some tt, v2) /\ live v2 [cut_seg demo_head []; demo_old] /\
    content [cut_seg demo_head []; demo_old] = content [demo_old].
Proof.
  apply (truncate_keeps_older demo_env (demo_two 0 0) demo_head demo_old []).
  - exact (demo_two_live 0 0).
  - exact (demo_two_room 0 0).
  - apply Nat.leb_le. vm_compute. reflexivity.
  - reflexivity.
  - done.
Defined.
End DeltaTruncate.
