(* ===== verification/Overlay.v ===== *)
(** * The overlay: recent tier over base tree

    The engine surface of vol_btree.c under the namespace rows: bringing the
    page store up, the base root of RT30, publishing a new one, and the point
    operations that resolve a key in the delta log first and in the base tree
    second.  The reader announcements of vol_reclaim.c count threads in flight
    and have no effect on one of them. *)

From S2P Require Import Prelude Dev Alloc Volume Page PageLogic Metabuf Keys Node BTree Check.
From S2P Require Import DeltaIndex DeltaRec Delta.

Module Overlay.
Import Alloc Volume Page PageLogic Metabuf Keys Node BTree Check DeltaIndex DeltaRec Delta.

Section overlay.
Context {D : Type} `{!Dev D} (E : penv) (RC : retire_calls (vol D dlog)).
Abbreviation V := (vol D dlog).

(** The bootstrap pages are never handed out.
    Source: core/vol_btree.c [ready] *)
Definition ready : M V unit :=
  mmod (fun v =>
    if mbuf_ready v then v
    else
      let v := mbuf_init v in
      set_mbuf_ready true (set_mb_boot_cursor (mb_boot_end v) v)).

(** The null pointer is the empty tree.
    Source: core/vol_btree.c [base_root] *)
Definition base_root : M V invfs_blkptr :=
  let* r := mbuf_root_read in
  match r with
  | None => mret null_ptr
  | Some (pba, gen) =>
      let* page := mbuf_read pba in
      mret (mbuf_ptr_set pba page INVFS_BP_ROOT)
  end.

(** The root page of an emptied tree.
    Source: core/vol_btree.c:2750-2766 [publish] *)
Definition empty_leaf (gen : Z) : M V invfs_blkptr :=
  let* r := mtry (mbuf_alloc gen) in
  mmod (btree_orphan_note_alloc (default 0 r)) ;;;
  match r with
  | None => mfail
  | Some pba =>
      let* w := mtry (mbuf_write pba (mbuf_page_init INVFS_PAGE_LEVEL_LEAF gen)) in
      match w with
      | None => mtry (mbuf_free pba) ;;; mfail
      | Some page => mret (mbuf_ptr_set pba page (Z.lor INVFS_BP_LEAF INVFS_BP_ROOT))
      end
  end.

(** Source: core/vol_btree.c [publish] *)
Definition publish (root : invfs_blkptr) (old_gen : Z) : M V unit :=
  let* root := if bp_pba root =? 0 then empty_leaf (u64 (old_gen + 1)) else mret root in
  vol_bitmap_flush ;;;
  let* b := vol_barrier in
  mguard (fence_ok b) ;;;
  mbuf_root_publish vol_delta_heal (bp_pba root) (bp_gen root).

(** Source: core/vol_btree.c [vol_base_root] *)
Definition vol_base_root : M V invfs_blkptr := ready ;;; base_root.

(** Source: core/vol_btree.c [base_get] *)
Definition base_get (key : bytes) : M V (option bytes) :=
  let* root := base_root in btree_search root key.

(** The empty key is refused.
    Source: core/vol_btree.c [overlay_lookup] *)
Definition overlay_lookup (key : bytes) : M V (option delta_ref) :=
  mguard (negb (zlen key =? 0)) ;;;
  let* v := mget in mret (vol_delta_lookup key v).

(** Source: core/vol_btree.c [delta_put] *)
Definition delta_put (key val : bytes) : M V unit := vol_delta_append E RC key val 0.
(** Source: core/vol_btree.c [delta_del] *)
Definition delta_del (key : bytes) : M V unit := vol_delta_append E RC key [] INVFS_DELTA_FLAG_DELETE.

Definition is_delete (flags : Z) : bool := negb (Z.land flags INVFS_DELTA_FLAG_DELETE =? 0).
Definition is_some {A} (o : option A) : bool := match o with Some _ => true | None => false end.

(** Source: core/vol_btree.c [overlay_exists] *)
Definition overlay_exists (key : bytes) : M V bool :=
  let* dr := overlay_lookup key in
  match dr with
  | Some r => mret (negb (is_delete (r_flags r)))
  | None => let* val := base_get key in mret (is_some val)
  end.

(** [Some (Some val)] is 1, [Some None] is 0 and a failure is -1; [cap] is
    the size of the caller's buffer.
    Source: core/vol_btree.c [overlay_get_key] *)
Definition overlay_get_key (key : bytes) (cap : Z) : M V (option bytes) :=
  let* dr := vol_delta_lookup_value key cap in
  match dr with
  | LErr | LShort _ _ => mfail
  | LFound flags val => mret (if is_delete flags then None else Some val)
  | LMiss =>
      let* val := base_get key in
      match val with
      | None => mret None
      | Some val => mguard (negb (cap <? zlen val)) ;;; mret (Some val)
      end
  end.
End overlay.
End Overlay.
