(* ===== verification/Engine.v ===== *)
(** * The engine: two tiers as one map

    A mounted volume whose delta log lies over a published base tree.  The
    invariant says what the log, the tree and the allocator own of the volume;
    under it the point operations of Overlay.v answer, on a storage without
    faults, as operations on one finite map. *)

From S2P Require Import Prelude Dev Alloc Volume Anchor Page PageLogic Metabuf MetaLive Keys Kv Node BTree TreeSpec Check Frame.
From S2P Require Import DeltaIndex DeltaRec Delta DeltaLog DeltaAppend DeltaSession Overlay.

Module Engine.
Import Alloc Volume Anchor Page PageLogic Metabuf MetaLive Keys Kv Node BTree TreeSpec Check Frame.
Import DeltaIndex DeltaRec Delta DeltaLog DeltaAppend DeltaSession Overlay.

(** ** The map of two tiers *)

(** The record of the log decides; a delete hides the base. *)
Definition over_one (c : option (Z * bytes)) (b : option bytes) : option bytes :=
  match c with
  | Some (fl, val) => if is_delete fl then None else Some val
  | None => b
  end.
Definition over (c : gmap bytes (Z * bytes)) (base : kmap) : kmap := merge over_one c base.

Lemma lookup_over c base k : over c base !! k = over_one (c !! k) (base !! k).
Proof. unfold over. rewrite lookup_merge. by destruct (c !! k), (base !! k). Qed.

Lemma over_empty base : over ∅ base = base.
Proof. apply map_eq. intros k. by rewrite lookup_over, lookup_empty. Qed.

(** Folding the log into the base changes nothing, and a second time neither. *)
Lemma over_idem c base : over c (over c base) = over c base.
Proof. apply map_eq. intros k. rewrite !lookup_over. by destruct (c !! k) as [[fl val]|]. Qed.

Lemma over_put c base k val : over (<[k := (0, val)]> c) base = <[k := val]> (over c base).
Proof.
  apply map_eq. intros j. rewrite lookup_over. destruct (decide (j = k)) as [->|].
  - by rewrite !lookup_insert_eq.
  - by rewrite !lookup_insert_ne, lookup_over by done.
Qed.

Lemma over_del c base k : over (<[k := (INVFS_DELTA_FLAG_DELETE, [])]> c) base = delete k (over c base).
Proof.
  apply map_eq. intros j. rewrite lookup_over. destruct (decide (j = k)) as [->|].
  - by rewrite lookup_insert_eq, lookup_delete_eq.
  - by rewrite lookup_insert_ne, lookup_delete_ne, lookup_over by done.
Qed.

Section engine.
Context {D : Type} `{!Dev D, !DevLaws D} (E : penv) (RC : retire_calls (vol D dlog)).
Abbreviation V := (vol D dlog).
Implicit Types (v : V) (S : Z -> Prop) (l : list seg).

(** ** The base *)

(** The tree under [root] holds [m], none of its pages among the blocks [S]. *)
Definition tree_at v S (n : nat) (root : invfs_blkptr) (m : kmap) : Prop :=
  holds (PageStoreLaws0 := world_laws v S) n v root m.

(** What the root descriptor offers to readers. *)
Definition offered v : option (Z * Z) :=
  pick_root (rt_seq (rt v)) (slot_offer v 0) (slot_offer v 1).
Definition current_root v : invfs_blkptr :=
  match offered v with
  | None => null_ptr
  | Some (p, _) => mbuf_ptr_set p (page_at v p) INVFS_BP_ROOT
  end.

(** The slot the last publication filled. *)
Definition last_slot v : Z := 1 - Z.land (rt_seq (rt v)) 1.

Record base_at v S (n : nat) (m : kmap) : Prop := {
  ba_tree : tree_at v S n (current_root v) m;
  ba_depth : (n <= BT_MAX_DEPTH)%nat;
  ba_slots : forall i, i = 0 \/ i = 1 -> root_slot (rt v) i = 0 \/
    (Metabuf.live v (root_slot (rt v) i) /\ ~ S (root_slot (rt v) i));
  ba_last : offered v = slot_offer v (last_slot v);
  ba_named : offered v = None -> root_slot (rt v) 0 = 0 /\ root_slot (rt v) 1 = 0
}.

Lemma slot_land q : Z.land q 1 = 0 \/ Z.land q 1 = 1.
Proof.
  assert (H : Z.land q 1 = q mod 2) by (apply (Z.land_ones q 1); lia).
  pose proof (Z.mod_pos_bound q 2). lia.
Qed.

Lemma last_slot_range v : last_slot v = 0 \/ last_slot v = 1.
Proof. unfold last_slot. destruct (slot_land (rt_seq (rt v))) as [->| ->]; auto. Qed.

Lemma offer_some v i p g :
  slot_offer v i = Some (p, g) ->
  p = root_slot (rt v) i /\ p <> 0 /\ g = page_gen (page_at v p) /\ mbuf_page_validate (page_at v p) = true.
Proof.
  unfold slot_offer. generalize (root_slot (rt v) i). intros q. destruct (Z.eqb_spec q 0) as [|Hq]; [done|].
  destruct (mbuf_page_allocated v q); [|done]. cbn [andb]. destruct (mbuf_page_validate (page_at v q)) eqn:Ev; [|done].
  intros [= <- <-]. done.
Qed.

(** Pages nobody else owns carry over. *)
Definition carried v S v' S' : Prop := forall q,
  Metabuf.live v q -> ~ S q -> Metabuf.live v' q /\ ~ S' q /\ page_at v' q = page_at v q.

Lemma carried_tree v S v' S' n root m : carried v S v' S' -> tree_at v S n root m -> tree_at v' S' n root m.
Proof.
  intros Hc (kvs & Hr & Em). exists kvs. split; [|done].
  apply (root_at_change (world_laws v S) (world_laws v' S') v v' n root kvs); [|exact Hr]. intros q [Hq Hn]. destruct (Hc q Hq Hn) as (H1 & H2 & H3). exact (conj (conj H1 H2) H3).
Qed.

Lemma carried_offer v S v' S' i :
  carried v S v' S' -> root_slot (rt v') i = root_slot (rt v) i ->
  root_slot (rt v) i = 0 \/ (Metabuf.live v (root_slot (rt v) i) /\ ~ S (root_slot (rt v) i)) ->
  slot_offer v' i = slot_offer v i.
Proof.
  intros Hc Er [Hz|[Hl Hn]]; unfold slot_offer; rewrite Er; [by rewrite Hz|].
  destruct (Hc _ Hl Hn) as (Hl' & _ & ->). destruct (live_allocated _ _ Hl) as [_ ->].
  by destruct (live_allocated _ _ Hl') as [_ ->].
Qed.

Lemma same_slots (r r' : invfs_rt) i : same_roots r r' -> root_slot r' i = root_slot r i.
Proof. intros (E0 & E1 & _). unfold root_slot. by rewrite E0, E1. Qed.

Lemma carried_base v S v' S' n m :
  carried v S v' S' -> same_roots (rt v) (rt v') -> base_at v S n m ->
  base_at v' S' n m /\ current_root v' = current_root v /\ offered v' = offered v.
Proof.
  intros Hc Hr [Bt Bd Bs Bl Bn]. pose proof Hr as (_ & _ & Eq & _).
  assert (Ei : forall i, i = 0 \/ i = 1 -> slot_offer v' i = slot_offer v i).
  { intros i Hi. eapply carried_offer; [exact Hc|by apply same_slots|by apply Bs]. }
  assert (Eo : offered v' = offered v) by (unfold offered; rewrite Eq, !Ei; auto).
  assert (Ec : current_root v' = current_root v).
  { unfold current_root. rewrite Eo. destruct (offered v) as [[p g]|] eqn:Ep; [|done]. f_equal.
    symmetry in Bl. apply offer_some in Bl as (-> & Hz & _).
    destruct (Bs _ (last_slot_range v)) as [H0|[Hl Hn]]; [done|]. by destruct (Hc _ Hl Hn) as (_ & _ & ->). }
  split; [|by split]. split.
  - rewrite Ec. by eapply carried_tree.
  - done.
  - intros i Hi. rewrite (same_slots _ _ i Hr). destruct (Bs i Hi) as [?|[Hl Hn]]; [by left|right].
    by destruct (Hc _ Hl Hn) as (? & ? & _).
  - rewrite Eo, Bl. unfold last_slot. rewrite Eq. symmetry. apply Ei. apply (last_slot_range v).
  - rewrite Eo, !(same_slots _ _ _ Hr). done.
Qed.

(** ** Reading *)

Lemma reads_vsame v v' : vsame v v' -> quiet v' -> dcap (v_dev v') = dcap (v_dev v) -> reads v v'.
Proof. intros ((E1 & _ & Ho) & _ & Hv) [Hq _] Hc. by split_and!. Qed.

Lemma reads_stays v v' : sound v -> reads v v' -> stays none v v'.
Proof.
  intros Hs (E1 & [Hq Hc Ho] & Hv). rewrite E1. apply stays_dev; [done| |done|done|].
  - split; [done|]. cbn [v_dev set_v_dev]. rewrite Hc. apply (so_quiet v Hs).
  - intros a _. rewrite <- E1. apply Hv.
Qed.

Lemma reads_only v v' : sound v -> only_read v v' -> reads v v'.
Proof.
  intros Hs H. destruct (H Hs) as [M E1]. split_and!; [done| |].
  - split; [apply (so_quiet _ (sy_sound M))|apply (Frame.sy_cap M)|]. destruct (sy_geo M) as (_ & _ & _ & Ho & _). exact Ho.
  - intros a. apply (sy_view M). by intros [].
Qed.

(** A store that is only read needs no room. *)
#[program] Definition read_laws v S : @PageStoreLive V _ (world_laws v S) :=
  {| ps_quiet _ := True; ps_room _ n := n = O |}.
Next Obligation. done. Qed.
Next Obligation. simpl. intros. lia. Qed.
Next Obligation.
  simpl. intros v0 S ptr v Hw _ [Hl _] H1 H2 H3. pose proof (so_quiet v (sy_sound (proj2 Hw))) as Hq.
  destruct (mbuf_read_ptr_live ptr v _ Hq Hl eq_refl H1 H2 H3) as (pg & v' & E1 & _). eauto.
Qed.
Next Obligation. simpl. done. Qed.
Next Obligation.
  simpl. intros v0 S p pg v Hw _ [(Ht & _ & Hok & Hr & _) _] Hlen Hb.
  destruct (mbuf_write_live p pg v (so_quiet v (sy_sound (proj2 Hw)))) as (d & E1 & Hq');
    [unfold reserved in Hr; lia|done|done|]. eauto.
Qed.
Next Obligation. simpl. done. Qed.

Definition owned v S : Prop := forall p, S p -> Metabuf.live v p.

Lemma search_tot v S n root m key :
  sound v -> owned v S -> tree_at v S n root m -> (n <= BT_MAX_DEPTH)%nat ->
  tot (btree_search root key) v (fun r v' => r = m !! key /\ reads v v').
Proof.
  intros Hs Ho (kvs & Hr & Em) Hn.
  assert (Hw : wp (PageStoreLaws0 := world_laws v S) (PageStoreLive0 := read_laws v S) True 0
    (btree_search root key) v (fun r _ => r = m !! key)).
  { subst m. destruct n as [|h].
    - destruct Hr as [Hp ->]. unfold btree_search. rewrite Hp. by apply wp_ret.
    - by apply wp_btree_search with (h := h). }
  destruct (wp_run True 0 0 _ _ _ Hw I (conj Ho (moves_refl _ _ v Hs)) I eq_refl) as (r & v' & E1 & _ & _ & -> & _).
  exists (m !! key), v'. split; [done|]. split; [done|]. apply reads_only; [done|].
  exact (keeps_btree_search only_read root key v _ v' E1).
Qed.

Lemma current_ptr v S n m p g :
  base_at v S n m -> offered v = Some (p, g) -> Metabuf.live v p /\ ~ S p.
Proof.
  intros [_ _ Bs Bl _] Eo. rewrite Bl in Eo. apply offer_some in Eo as (-> & Hz & _).
  by destruct (Bs _ (last_slot_range v)).
Qed.

Lemma base_slots_ok v S n m : sound v -> rt_ok (rt v) -> base_at v S n m -> Metabuf.slots_ok v.
Proof.
  intros Hs Hr Hb i Hi. assert (H0 : 0 <= root_slot (rt v) i).
  { destruct (ba_slots _ _ _ _ Hb i Hi) as [->|[(_ & _ & _ & Hn & _) _]]; [done|]. unfold reserved in Hn. lia. }
  split; [done|]. intros Ha. by apply (so_dok v Hs).
Qed.

Lemma base_root_tot v S n m :
  sound v -> rt_ok (rt v) -> rt_present v = true -> base_at v S n m ->
  tot base_root v (fun r v' => r = current_root v /\ reads v v').
Proof.
  intros Hs Hr Hp Hb. destruct (root_read_present v) as (v1 & E1 & Hs1 & Hq1 & Hc1); [apply Hs|by eapply base_slots_ok|done| |].
  { pose proof (ba_named _ _ _ _ Hb) as Hn. pose proof (ba_last _ _ _ _ Hb) as Hl.
    destruct (offered v) eqn:Eo; [|by auto]. destruct (last_slot_range v) as [Ei|Ei]; rewrite Ei in Hl;
      rewrite <- Hl; auto. }
  fold (offered v) in E1. pose proof (reads_vsame v v1 Hs1 Hq1 Hc1) as Hrd.
  unfold base_root. apply tot_bind. exists (offered v), v1. split; [done|]. unfold current_root.
  destruct (offered v) as [[p g]|] eqn:Eo; [|by apply tot_ret].
  destruct (current_ptr _ _ _ _ _ _ Hb Eo) as [(Ht & _ & Hok & Hnr & _) _].
  destruct Hrd as (Ev & Hst & Hv). assert (Esb : vsb v1 = vsb v) by by rewrite Ev.
  destruct (mbuf_read_live p v1) as (v2 & E2 & Hs2 & Hq2 & Hc2); [done|rewrite Esb; unfold reserved in Hnr; lia|by apply Hst|].
  apply tot_bind. exists (page_at v1 p), v2. split; [done|]. apply tot_ret. split.
  - f_equal. apply vrange_ext. intros. apply Hv.
  - apply (reads_trans v v1); [by split_and!|by apply reads_vsame].
Qed.

(** ** The invariant *)

(** What may be in either tier. *)
Definition row_ok (k val : bytes) : Prop := pair_ok k val /\ k <> [].
Definition rows_ok (c : gmap bytes (Z * bytes)) : Prop :=
  map_Forall (fun k x => row_ok k x.2 /\ (x.1 = 0 \/ (x.1 = INVFS_DELTA_FLAG_DELETE /\ x.2 = []))) c.

(** A mounted volume over the log [l] and a base tree of [n] levels that
    holds [base]. *)
Record engine v l (n : nat) (base : kmap) : Prop := {
  en_live : DeltaLog.live v l;
  en_room : DeltaAppend.room v l;
  en_clean : head_clean l;
  en_rows : rows_ok (content l);
  en_sound : sound v;
  en_orph : orph_ok v;
  en_bm : bm_env v;
  en_gapless : gapless (vsb v);
  en_ready : mbuf_ready v = true;
  en_boot : forall p, ~ boot v p;
  en_rt : rt_present v = true;
  en_base : base_at v (log_block l) n base
}.

Lemma log_owned v l :
  DeltaLog.live v l -> DeltaAppend.room v l -> sound v -> (forall p, ~ boot v p) -> owned v (log_block l).
Proof.
  intros Hl Hr Hs Hb p (s & Hin & Hp). destruct (rm_used v l Hr s p Hin Hp) as [Hbit Hanc].
  destruct (chain_seg v l s (lv_chain v l Hl) Hin) as [prev Hok]. pose proof (sk_pba v prev s Hok).
  pose proof (sk_end v prev s Hok). pose proof (rm_zone v l Hr s Hin). pose proof (mw_bm v (so_wf v Hs)).
  pose proof (ai_layout _ (rm_alloc v l Hr)) as Hlay. pose proof (lay_raw _ Hlay). pose proof (lay_shadow _ Hlay).
  change (sb (v_a v)) with (vsb v) in *.
  split_and!; [lia|done| | |].
  - apply (so_dok v Hs); [lia|]. rewrite allocated_bit by lia. done.
  - intros [?|[Ha|?]]; [lia| |done]. unfold bm_area in Ha. lia.
  - apply Hb.
Qed.

(** Only the storage moved, and no byte: all is as it was. *)
Lemma engine_reads v v' l n base :
  reads v v' -> engine v l n base ->
  engine v' l n base /\ current_root v' = current_root v.
Proof.
  intros Hrd [H1 H2 H3 Hro H4 H5 H6 H7 H8 H9 H10 H11]. pose proof (reads_stays v v' H4 Hrd) as M.
  destruct (live_reads v v' l Hrd H1 H2) as [H1' H2']. pose proof Hrd as (Ev & Hst & Hv).
  destruct (carried_base v (log_block l) v' (log_block l) n base) as (Hb & Ec & _); [| |done|].
  - intros q Hq Hn. destruct (moves_live _ _ _ _ q M Hq) as [? ?]; [by intros []..|by split_and!].
  - rewrite Ev. apply same_roots_refl.
  - split; [|done]. split; try done; try (by rewrite Ev).
    + apply M.
    + destruct H6 as [Hd Hlo]. split; [|by rewrite Ev]. intros o m ? ? ?. apply Hst. apply Hd; by rewrite Ev in *.
Qed.

(** ** Point reads *)

Definition get_answer (c : option (Z * bytes)) (b : option bytes) (cap : Z) : option (option bytes) :=
  match over_one c b with
  | Some val => if cap <? zlen val then None else Some (Some val)
  | None => Some None
  end.

Lemma base_get_tot v l n base key :
  engine v l n base -> tot (base_get key) v (fun r v' => r = base !! key /\ reads v v').
Proof.
  intros He. pose proof He as [H1 H2 _ _ H4 _ _ _ _ H9 H10 H11]. unfold base_get. apply tot_bind.
  eapply tot_mono; [exact (base_root_tot v _ n base H4 (rm_rtok v l H2) H10 H11)|]. intros r v1 [-> Hrd].
  destruct (engine_reads v v1 l n base Hrd He) as [He1 Ec]. rewrite <- Ec.
  eapply tot_mono; [apply (search_tot v1 (log_block l) n (current_root v1) base key)|].
  - apply He1.
  - apply log_owned; apply He1.
  - apply (en_base _ _ _ _ He1).
  - apply (en_base _ _ _ _ He1).
  - intros r v2 [-> Hrd2]. split; [done|]. by apply (reads_trans v v1).
Qed.

Lemma rows_ok_del c k fl val :
  rows_ok c -> c !! k = Some (fl, val) ->
  (is_delete fl = false /\ fl = 0) \/ (is_delete fl = true /\ val = []).
Proof. intros H Hk. destruct (H k _ Hk) as [_ [Hf|[Hf Hv]]]; cbn in *; subst; auto. Qed.

Lemma get_tot v l n base key cap :
  engine v l n base -> key <> [] -> 0 <= cap ->
  ans (overlay_get_key key cap) v (fun r v' =>
    r = get_answer (content l !! key) (base !! key) cap /\ reads v v').
Proof.
  intros He Hk Hcap. unfold overlay_get_key. apply ans_bind.
  eapply tot_mono; [exact (lookup_tot v l key cap (en_live _ _ _ _ He) (en_room _ _ _ _ He) Hk)|].
  intros r v1 (-> & _ & _ & Hrd). destruct (engine_reads v v1 l n base Hrd He) as [He1 _].
  destruct (content l !! key) as [[fl val]|] eqn:Ec; cbn [lookup_answer get_answer over_one].
  - destruct (rows_ok_del _ _ _ _ (en_rows _ _ _ _ He) Ec) as [[Hd ->]|[Hd ->]].
    + unfold get_answer, over_one. rewrite Hd. destruct (Z.eqb_spec (zlen val) 0) as [E0|E0].
      * destruct val; [|done]. cbn [is_delete]. rewrite (proj2 (Z.ltb_ge cap _)) by done. by split.
      * destruct (cap <? zlen val); by split.
    + unfold get_answer, over_one. change (zlen [] =? 0) with true. cbv iota. rewrite Hd. by split.
  - apply ans_bind. eapply tot_mono; [exact (base_get_tot v1 l n base key He1)|]. intros r v2 [-> Hrd2].
    pose proof (reads_trans v v1 v2 Hrd Hrd2) as Hrd'. unfold get_answer, over_one.
    destruct (base !! key) as [val|]; [|by split]. unfold ans, mbind', mguard. by destruct (cap <? zlen val).
Qed.

Lemma exists_tot v l n base key :
  engine v l n base -> key <> [] ->
  tot (overlay_exists key) v (fun r v' => r = is_some (over (content l) base !! key) /\ reads v v').
Proof.
  intros He Hk. pose proof (en_live _ _ _ _ He) as Hl. unfold overlay_exists, overlay_lookup.
  rewrite lookup_over. apply tot_bind, tot_bind, tot_guard.
  { rewrite (proj2 (Z.eqb_neq _ _)); [done|]. destruct key; [done|]. cbn. lia. }
  apply tot_bind, tot_get, tot_ret. destruct (lv_index v l Hl) as (di & Hdi & Hok & Hm).
  unfold vol_delta_lookup. rewrite Hdi, find_ref_map by done.
  assert (Hp : noseq <$> (di_map di !! key) = places l !! key) by by rewrite <- Hm, lookup_fmap.
  pose proof (places_content l key) as Ha. rewrite <- Hp in Ha.
  destruct (di_map di !! key) as [ref|], (content l !! key) as [[fl val]|]; try done.
  - destruct Ha as (s & pre & r & post & _ & _ & _ & Epl & [= -> ->]). injection Epl as _ _ Efl _.
    apply tot_ret. rewrite Efl. cbn [over_one]. split; [by destruct (is_delete _)|].
    apply reads_refl, (lv_faultless v l Hl).
  - cbn. apply tot_bind. eapply tot_mono; [exact (base_get_tot v l n base key He)|].
    intros r v2 [-> Hrd]. by apply tot_ret.
Qed.

(** ** Steps of the log *)

Lemma sound_beside P v v' : beside P v v' -> sound v -> sound v'.
Proof.
  intros [Hst _ (q & f & Es) Hb _ [Hlen Hbb] _ _ Hre] [Hw Hq Hk].
  assert (Ec : mb_boot_cursor v' = mb_boot_cursor v /\ mb_boot_end v' = mb_boot_end v) by (by rewrite Hre).
  destruct Ec as [Ec Ee].
  assert (Ha : forall p, bm_area v' p <-> bm_area v p) by (intros p; unfold bm_area; by rewrite Es, Hbb).
  assert (Hr : forall p, reserved v' p <-> reserved v p) by (intros p; unfold reserved, bm_area; by rewrite Es, Hbb).
  assert (Hbk : forall p, blk_ok v p -> blk_ok v' p) by (intros p Hp; by apply Hst).
  assert (Hbf : forall p, 0 <= p -> bitv v' p = false -> bitv v p = false).
  { intros p Hp Hf. destruct (bitv v p) eqn:Ep; [|done]. unfold bitv in *. by rewrite Hb in Hf. }
  destruct Hw as [W1 W2 W3 W4 W5 W6 W7 W8 W9].
  assert (Hw' : mb_wf v').
  { constructor; rewrite ?Es, ?Hbb, ?Hlen; try done.
    - apply (dquiet_wf _ (DeltaLog.sy_quiet _ _ Hst)).
    - intros p Hp%Ha. apply Hb; [unfold bm_area in Hp; lia|]. by apply W7.
    - intros p Hp Hf. apply Hbk, W8; [exact Hp|]. apply Hbf; [lia|done].
    - intros p Hp. destruct (W9 p) as (H1 & H2 & H3 & H4); [unfold boot in *; by rewrite Ec, Ee in Hp|].
      split_and!; [done|apply Hb; [unfold reserved in H4; lia|done]|by apply Hbk|by rewrite Hr]. }
  split; [done| |].
  - split; [apply Hst|]. rewrite (DeltaLog.sy_cap _ _ Hst), Es. apply Hq.
  - intros p Hp Hal. apply Hbk. pose proof (allocated_range v' p Hp Hal) as Hrg. rewrite Es in Hrg.
    destruct (bitv v p) eqn:Ep; [|by apply W8].
    apply Hk; [done|]. by rewrite allocated_bit.
Qed.

Lemma carried_beside v v' l l' :
  beside (log_or_anchor v l') v v' -> grown v l l' -> mb_wf v -> carried v (log_block l) v' (log_block l').
Proof.
  intros [Hst Hv (q & f & Es) Hb _ [_ Hbb] _ _ Hre] Hg Hw p Hp Hn. pose proof Hp as (Ht & Hbit & Hok & Hr & Hnb).
  assert (Ec : mb_boot_cursor v' = mb_boot_cursor v /\ mb_boot_end v' = mb_boot_end v) by (by rewrite Hre).
  destruct Ec as [Ec Ee]. assert (0 < p) by (unfold reserved in Hr; lia).
  assert (Hnl : ~ log_block l' p).
  { intros Hl. destruct (Hg p Hl) as [?|Hf]; [done|]. unfold bitv in Hbit. congruence. }
  split_and!; [|done|].
  - split_and!; [by rewrite Es|apply Hb; [lia|done]|by apply Hst| |].
    + unfold reserved, bm_area in *. by rewrite Es, Hbb.
    + unfold boot in *. by rewrite Ec, Ee.
  - apply vrange_ext. intros a Ha. pose proof (proj2 (block_at p a) Ha) as Ep.
    apply Hv; [unfold INVFS_BLOCK_SIZE in *; lia|]. rewrite Ep. intros [->|?]; [|done].
    apply Hr. right. by right.
Qed.

(** What the engine needs besides its log and its base. *)
Record grounds v : Prop := {
  gr_sound : sound v;
  gr_orph : orph_ok v;
  gr_bm : bm_env v;
  gr_gapless : gapless (vsb v);
  gr_ready : mbuf_ready v = true;
  gr_boot : forall p, ~ boot v p;
  gr_rt : rt_present v = true
}.

Lemma engine_grounds v l n base : engine v l n base -> grounds v.
Proof. by intros []. Qed.

(** The log may become another one; the base is what the caller shows. *)
Lemma engine_beside_at P v v' l' n' base' :
  grounds v -> DeltaLog.live v' l' -> DeltaAppend.room v' l' -> head_clean l' -> rows_ok (content l') ->
  beside P v v' -> base_at v' (log_block l') n' base' -> engine v' l' n' base'.
Proof.
  intros [H4 H5 H6 H7 H8 H9 H10] Hl' Hr' Hc' Hro' Hbe Hb.
  pose proof Hbe as [Hst _ (q & f & Es) _ _ [_ Hbb] Hlo Hrt Hre]. destruct (Hrt H10) as [Hp Hsr].
  split; try done; try (by rewrite Hre).
  - by eapply sound_beside.
  - unfold orph_ok in *. rewrite Es. by replace (orph v') with (orph v) by by rewrite Hre.
  - destruct H6 as [Hd Hl0]. split; [|by apply Hlo]. intros o m. rewrite Es, Hbb. intros. apply Hst. by apply Hd.
  - unfold gapless. by rewrite Es.
Qed.

Lemma engine_beside v v' l l' n base :
  engine v l n base -> DeltaLog.live v' l' -> DeltaAppend.room v' l' -> head_clean l' -> rows_ok (content l') ->
  beside (log_or_anchor v l') v v' -> grown v l l' ->
  engine v' l' n base /\ current_root v' = current_root v.
Proof.
  intros He Hl' Hr' Hc' Hro' Hbe Hg. destruct (be_rt _ _ _ Hbe (en_rt _ _ _ _ He)) as [Hp Hsr].
  destruct (carried_base v (log_block l) v' (log_block l') n base) as (Hb & Ec & _);
    [apply carried_beside; [done|done|apply He]|done|apply He|].
  split; [|done]. eapply engine_beside_at; [by eapply engine_grounds|done..].
Qed.

Lemma beside_aside P v v' : aside v v' -> beside P v v'.
Proof. intros (Hs & Hst & Hv). apply beside_rest; auto. Qed.

Lemma engine_aside v v' l n base :
  engine v l n base -> DeltaLog.live v' l -> DeltaAppend.room v' l -> aside v v' ->
  engine v' l n base /\ current_root v' = current_root v.
Proof.
  intros He Hl Hr Ha. apply (engine_beside v v' l l); [done|done|done|apply He|apply He|by apply beside_aside|by apply grown_same].
Qed.

(** A mount of a volume with a chain of segments and a base. *)
Lemma engine_mount v l n base :
  mountable v l -> grounds v -> head_clean l -> rows_ok (content l) -> base_at v (log_block l) n base ->
  tot (vol_delta_mount E) v (fun _ v' => engine v' l n base /\ current_root v' = current_root v /\
    total_blocks (vsb v') = total_blocks (vsb v)).
Proof.
  intros Hm Hg Hc Hro Hb. eapply tot_mono; [exact (mount_tot E v l Hm)|]. intros [] v' (Hl & Hr & Ha).
  pose proof (beside_aside (log_or_anchor v l) v v' Ha) as Hbe. destruct (be_sb _ _ _ Hbe) as (q & f & Es).
  destruct (carried_base v (log_block l) v' (log_block l) n base) as (Hb' & Ec & _);
    [apply carried_beside; [done|by apply grown_same|apply Hg]|by apply Hbe, Hg|done|].
  split; [by eapply engine_beside_at|]. split; [done|by rewrite Es].
Qed.

(** What a write of [k] makes of the volume: the record is in the log, or the
    call was refused and the map is what it was. *)
Definition written v l n base (k val : bytes) (fl : Z) (r : option unit) v' : Prop :=
  match r with
  | Some _ => exists l', engine v' l' n base /\ content l' = <[k := (fl, val)]> (content l) /\
      (length l' <= Datatypes.S (length l))%nat
  | None => engine v' l n base
  end /\ current_root v' = current_root v /\ total_blocks (vsb v') = total_blocks (vsb v).

Lemma append_engine v l n base k val fl :
  engine v l n base -> row_ok k val -> (fl = 0 \/ (fl = INVFS_DELTA_FLAG_DELETE /\ val = [])) ->
  ans (vol_delta_append E RC k val fl) v (written v l n base k val fl).
Proof.
  intros He [Hp Hk] Hf. pose proof Hp as (Hkb & Hkl & Hvb & Hvl). unfold BT_KEY_LIM in Hkl.
  assert (Ha : appendable k val fl).
  { split; [|split; [lia|done]|done|].
    - split; [|done]. destruct k; [done|]. cbn [length] in *. lia.
    - unfold INVFS_DELTA_REC_HDR_LEN. change (INVFS_DELTA_SEG_BYTES - INVFS_DELTA_SEG_HDR_LEN) with 131028. lia. }
  pose proof (append_ans E RC v l k val fl (en_live _ _ _ _ He) (en_room _ _ _ _ He) (en_clean _ _ _ _ He) Ha) as H.
  unfold ans, append_post, written in *. destruct (vol_delta_append E RC k val fl v) as [[[]|] v']; cbn [fst snd] in *.
  - destruct H as (l' & H1 & H2 & [A1 A2 A3] & Hb & Hg). destruct (be_sb _ _ _ Hb) as (q & f & Es).
    destruct (engine_beside v v' l l' n base He H1 H2) as [He' Ec]; [done| |done|done|].
    { rewrite A1. apply map_Forall_insert_2; [by split|apply He]. }
    split; [by exists l'|]. split; [done|by rewrite Es].
  - destruct H as (H1 & H2 & Hb & _). destruct (be_sb _ _ _ Hb) as (q & f & Es).
    destruct (engine_beside v v' l l n base He H1 H2) as [He' Ec]; [apply He|apply He|done|by apply grown_same|].
    split; [done|]. split; [done|by rewrite Es].
Qed.
End engine.
End Engine.
