(* ===== verification/Fold.v ===== *)
(** * Fold and reclaim

    vol_fold.c merges the delta log into a copy of the base tree, publishes
    the new root and resets the log; vol_reclaim.c gives back the superseded
    segments and the pages no root reaches.  The drain that waits for readers
    in flight answers what other threads decide: its answer [drained] is an
    argument.  Dropping the page cache changes no byte. *)

From S2P Require Import Prelude Dev Alloc Volume Page PageLogic Metabuf Keys Node BTree Check Orphans.
From S2P Require Import DeltaIndex DeltaRec Delta Overlay.

Module Fold.
Import Alloc Volume Page PageLogic Metabuf Keys Node BTree Check Orphans DeltaIndex DeltaRec Delta Overlay.

Definition RECLAIM_MAX_DELTA_SEGMENTS : nat := Z.to_nat (2 ^ 20).
Definition FOLD_TRIGGER_BYTES : Z := 64 * 2 ^ 20.
Definition FOLD_TRIGGER_RECORDS : Z := 262144.
Definition FOLD_TRIGGER_AGE_S : Z := 3600.

(** Source: core/vol_fold.c [vol_fold_trigger] *)
Definition vol_fold_trigger : Z * Z * Z := (FOLD_TRIGGER_BYTES, FOLD_TRIGGER_RECORDS, FOLD_TRIGGER_AGE_S).

(** One live record, copied out of the index; a delete has no value.
    Source: core/vol_fold.c:161-167 [fold_ent] *)
Record fold_ent := mkFold { f_key : bytes; f_val : bytes; f_flags : Z }.

(** The inner loop of the insertion sort, over the sorted part read from its
    end.
    Source: core/vol_fold.c:279-287 [fold_sort] *)
Fixpoint shift_in (tmp : fold_ent) (back : list fold_ent) : list fold_ent :=
  match back with
  | [] => [tmp]
  | e :: back' => if vol_key_cmp (f_key tmp) (f_key e) <? 0 then e :: shift_in tmp back' else tmp :: back
  end.
(** Source: core/vol_fold.c [fold_sort] *)
Definition fold_sort (l : list fold_ent) : list fold_ent :=
  rev (foldl (fun back e => shift_in e back) [] l).

Section fold.
Context {D : Type} `{!Dev D} (E : penv) (RC : retire_calls (vol D dlog)).
(** INVFS_RECLAIM_ORPHANS and INVFS_RECLAIM_SCAN_BUDGET. *)
Context (genv senv : option bytes).
Abbreviation V := (vol D dlog).

(** ** Reclaim *)

(** Source: core/vol_reclaim.c [vol_reclaim_mark_and_free] *)
Definition vol_reclaim_mark_and_free (old_root keep_root pinned : invfs_blkptr) : M V Z :=
  let* v := mget in btree_reclaim_pinned (total_blocks (vsb v)) old_root keep_root pinned.

(** The checksum is not looked at.
    Source: core/vol_reclaim.c [reclaim_delta_read_hdr] *)
Definition reclaim_delta_read_hdr (pba : Z) : M V invfs_delta_seg_hdr :=
  let* v := mget in
  mguard (negb ((pba =? 0) || (total_blocks (vsb v) <=? pba))) ;;;
  let* raw := io_pread (pba * INVFS_BLOCK_SIZE) INVFS_DELTA_SEG_HDR_LEN in
  mguard (bool_decide (slice raw 0 4 = INVFS_DELTA_SEG_MAGIC)) ;;;
  mret (mkSegHdr (dl_rd64be raw 16) (dl_rd64be raw 24) (dl_rd64be raw 32)).

(** Source: core/vol_reclaim.c:439-443 [vol_reclaim_delta_segments] *)
Fixpoint free_span (bs : list Z) : M V unit :=
  match bs with
  | [] => mret tt
  | b :: bs => mbuf_free b ;;; free_span bs
  end.

(** Source: core/vol_reclaim.c:431-452 [vol_reclaim_delta_segments] *)
Fixpoint reclaim_loop (fuel : nat) (pba delta_end freed : Z) : M V Z :=
  match fuel with
  | O => mret freed
  | S fuel =>
      if pba =? 0 then mret freed
      else
        let* h := mtry (reclaim_delta_read_hdr pba) in
        match h with
        | None => mret freed
        | Some h =>
            let* freed :=
              if (delta_end =? 0) || (pba <? delta_end) then
                let* v := mget in
                let end_ := Z.min (pba + INVFS_DELTA_SEG_BLOCKS) (total_blocks (vsb v)) in
                free_span (seqZ pba (end_ - pba)) ;;; mret (freed + 1)
              else mret freed in
            if prev_pba h =? pba then mret freed else reclaim_loop fuel (prev_pba h) delta_end freed
        end
  end.
(** Source: core/vol_reclaim.c [vol_reclaim_delta_segments] *)
Definition vol_reclaim_delta_segments (head_pba delta_end : Z) : M V Z :=
  if head_pba =? 0 then mret 0 else reclaim_loop RECLAIM_MAX_DELTA_SEGMENTS head_pba delta_end 0.

(** ** Fold *)

(** Source: core/vol_fold.c [fold_space_ok] *)
Definition fold_space_ok (v : V) : bool :=
  reserved_blocks (vsb v) + hard_min_blocks (vsb v) <? free_blocks (v_a v).

(** Memory does not run out; a value that cannot be read aborts the walk.
    Source: core/vol_fold.c [fold_collect_cb] *)
Definition fold_collect_cb (l : list fold_ent) (key : bytes) (ref : delta_ref) : M V (Z * list fold_ent) :=
  if is_delete (r_flags ref) then mret (0, l ++ [mkFold key [] (r_flags ref)])
  else if r_vlen ref =? 0 then mret (0, l ++ [mkFold key [] (r_flags ref)])
  else
    let* val := mtry (vol_delta_read_value ref (r_vlen ref)) in
    match val with
    | None => mret (1, l)
    | Some val =>
        if zlen val =? r_vlen ref then mret (0, l ++ [mkFold key val (r_flags ref)]) else mret (1, l)
    end.

(** Step (1): every record applied to a copy of the base.
    Source: core/vol_fold.c:456-484 [vol_fold] *)
Fixpoint fold_apply (l : list fold_ent) (root : invfs_blkptr) : M V invfs_blkptr :=
  match l with
  | [] => mret root
  | e :: l =>
      if is_delete (f_flags e) then
        let* found := btree_search root (f_key e) in
        match found with
        | None => fold_apply l root
        | Some _ => let* nr := btree_delete root (f_key e) in fold_apply l nr
        end
      else let* nr := btree_upsert root (f_key e) (f_val e) in fold_apply l nr
  end.

(** The verification of the merged tree before it is named.
    Source: core/vol_fold.c:538-560 [vol_fold] *)
Definition fold_verify (root : invfs_blkptr) : M V unit :=
  let* v := mget in
  let* r := btree_check_tolerant (total_blocks (vsb v)) root in
  let '(ok, _, q, _) := r in
  mguard (ok && negb (0 <? q_bad_pages q) && negb (q_full q)).

(** Source: core/vol_fold.c [fold_reclaim_hook] *)
Definition fold_reclaim_hook (drained : bool) (old_root new_root : invfs_blkptr) : M V unit :=
  if negb drained then mret tt
  else
    let* v := mget in
    if negb (bp_pba old_root =? 0) &&
       ((bp_pba old_root =? root_slot0 (rt v)) || (bp_pba old_root =? root_slot1 (rt v)))
    then let* _ := mtry (vol_reclaim_orphans genv senv) in mret tt
    else
      let* _ := mtry (vol_reclaim_mark_and_free old_root new_root (pinned_root v)) in
      let* _ := mtry (vol_reclaim_orphans genv senv) in
      mret tt.

(** Called inside the delta lock.
    Source: core/vol_fold.c [fold_delta_reset] *)
Definition fold_delta_reset : M V unit :=
  on_x vol_delta_close ;;;
  mmod (fun v => set_rt (set_rt_delta 0 (rt v)) v) ;;;
  mmod (fun v => if rt_present v then v else set_rt_present true (set_rt rt_fresh v)) ;;;
  mbuf_rt30_store heal_locked ;;;
  let* b := vol_barrier in
  mguard (fence_ok b) ;;;
  vol_delta_mount E ;;;
  on_x (fun x => set_delta_oldest_when 0 (set_delta_oldest_seq 0 x)).

(** Steps (1) and (2): the records collected and applied, and the new root
    durable, checked and named; the answer is the old and the new root.
    Source: core/vol_fold.c:438-572 [vol_fold] *)
Definition fold_merge : M V (invfs_blkptr * invfs_blkptr) :=
  let* c := vol_delta_iter fold_collect_cb [] in
  mguard (fst c =? 0) ;;;
  let l := fold_sort (snd c) in
  let* old_root := vol_base_root in
  let* root := fold_apply l old_root in
  let* root := if bp_pba root =? 0
               then empty_leaf (u64 ((if bp_pba old_root =? 0 then 0 else bp_gen old_root) + 1))
               else mret root in
  vol_bitmap_flush ;;;
  let* b := vol_barrier in
  mguard (fence_ok b) ;;;
  fold_verify root ;;;
  mbuf_root_publish vol_delta_heal (bp_pba root) (bp_gen root) ;;;
  mret (old_root, root).

(** Step (3) and the reclaim: the log is reset, its segments are freed, and
    so are the pages no root reaches.
    Source: core/vol_fold.c:573-605 [vol_fold] *)
Definition fold_finish (drained : bool) (old_root root : invfs_blkptr) : M V unit :=
  let* v := mget in
  let old_delta_pba := delta_pba (rt v) in
  let* w := mtry fold_delta_reset in
  let* _ := mtry (vol_reclaim_delta_segments old_delta_pba 0) in
  let* _ := mtry (fold_reclaim_hook drained old_root root) in
  match w with Some _ => mret tt | None => mfail end.

(** The answer 0 is [Some tt], -1 a failure.
    Source: core/vol_fold.c [vol_fold] *)
Definition vol_fold (drained : bool) : M V unit :=
  let* v := mget in
  mguard (flag_set (vsb v) VOLF_META) ;;;
  mguard (negb (flag_set (vsb v) VOLF_READONLY)) ;;;
  if vol_delta_count v =? 0 then mret tt
  else
    vol_delta_heal ;;;
    let* v := mget in
    mguard (fold_space_ok v) ;;;
    let* roots := fold_merge in
    fold_finish drained (fst roots) (snd roots).

(** ** Scheduling *)

(** Do the counters or the age ask for a fold?
    Source: core/vol_fold.c:623-633 [vol_fold_request] *)
Definition fold_needed (v : V) : bool :=
  let x := v_x v in
  (FOLD_TRIGGER_BYTES <=? delta_bytes x) || (FOLD_TRIGGER_RECORDS <=? delta_records x) ||
  (negb (delta_oldest_when x =? 0) && (delta_oldest_when x <=? pe_now E) &&
   (FOLD_TRIGGER_AGE_S <=? pe_now E - delta_oldest_when x)).

(** [Some true] is 1, [Some false] is 0.
    Source: core/vol_fold.c [vol_fold_request] *)
Definition vol_fold_request (drained : bool) : M V bool :=
  let* v := mget in
  mguard (flag_set (vsb v) VOLF_META) ;;;
  mguard (negb (flag_set (vsb v) VOLF_READONLY)) ;;;
  if (vol_delta_count v =? 0) || negb (fold_needed v) then mret false
  else
    let* pre := mtry vol_base_root in
    mmod (set_fold_pre_root (default null_ptr pre)) ;;;
    mguard (is_some pre) ;;;
    vol_fold drained ;;;
    let* nr := mtry vol_base_root in
    let* v := mget in
    (match nr with
     | Some new_root => fold_reclaim_hook drained (fold_pre_root v) new_root
     | None => mret tt
     end) ;;;
    mret true.

(** Source: core/vol_fold.c [vol_fold_reset_age] *)
Definition vol_fold_reset_age : M V unit := on_x (set_delta_oldest_when 0).

(** Source: core/vol_fold.c [vol_reclaim_schedule] *)
Definition vol_reclaim_schedule (drained : bool) : M V unit :=
  let* v := mget in
  if bp_pba (fold_pre_root v) =? 0 then mret tt
  else
    let* nr := mtry vol_base_root in
    match nr with
    | None => mret tt
    | Some new_root =>
        let* v := mget in
        fold_reclaim_hook drained (fold_pre_root v) new_root ;;;
        mmod (fun v => set_fold_pre_root
          (mkPtr 0 (bp_checksum (fold_pre_root v)) (bp_gen (fold_pre_root v)) (bp_flags (fold_pre_root v))) v)
    end.
End fold.
End Fold.
