(* ===== verification/FoldSpec.v ===== *)
(** * The fold is invisible

    What vol_fold.c does to the map of the engine: the live records of the
    log, applied to a copy of the base, are the map of the two tiers; after the
    new root is named and the log is reset, and at every refusal, the volume
    holds the map it held before. *)

From stdpp Require Import sorting.
From S2P Require Import Prelude Dev Alloc Volume Anchor Page PageLogic Metabuf MetaLive Keys Kv Node BTree TreeSpec Check Frame Orphans.
From S2P Require Import DeltaIndex DeltaRec Delta DeltaLog DeltaAppend DeltaSession Overlay Engine Fold Mem.

Module FoldSpec.
Import Alloc Volume Anchor Page PageLogic Metabuf MetaLive Keys Kv Node BTree TreeSpec Check Frame Orphans.
Import DeltaIndex DeltaRec Delta DeltaLog DeltaAppend DeltaSession Overlay Engine Fold Mem.

(** ** Sorting *)

Definition fold_le (a b : fold_ent) : Prop := key_le (f_key a) (f_key b).

Lemma shift_in_perm e back : shift_in e back ≡ₚ e :: back.
Proof.
  induction back as [|x back IH]; cbn [shift_in]; [done|]. destruct (_ <? 0); [|done].
  rewrite IH. constructor.
Qed.

Lemma shift_in_sorted e back :
  StronglySorted (flip fold_le) back -> StronglySorted (flip fold_le) (shift_in e back).
Proof.
  induction back as [|x back IH]; intros Hs; cbn [shift_in]; [by repeat constructor|].
  apply StronglySorted_inv in Hs as [Hs Hx]. destruct (Z.ltb_spec (vol_key_cmp (f_key e) (f_key x)) 0) as [Hlt|Hge].
  - constructor; [by apply IH|]. rewrite shift_in_perm. constructor; [|done].
    apply key_lt_le. by apply key_cmp_lt.
  - assert (Hle : fold_le x e) by (apply key_le_not_lt; intros Hl%key_cmp_lt; lia).
    constructor; [by constructor|]. constructor; [done|]. eapply Forall_impl; [|exact Hx].
    intros y Hy. exact (key_le_trans _ _ _ Hy Hle).
Qed.

Lemma fold_sort_spec l : fold_sort l ≡ₚ l /\ StronglySorted fold_le (fold_sort l).
Proof.
  unfold fold_sort. cut (forall back, StronglySorted (flip fold_le) back ->
    let r := foldl (fun back e => shift_in e back) back l in r ≡ₚ back ++ l /\ StronglySorted (flip fold_le) r).
  { intros H. destruct (H [] ltac:(constructor)) as [Hp Hs]. split; [by rewrite <- (Permutation_rev (foldl _ _ _))|].
    generalize dependent (foldl (fun back e => shift_in e back) [] l). intros r _ Hs.
    induction Hs as [|x r Hs IH Hx]; [constructor|]. cbn [rev]. apply StronglySorted_app_2; [|done|by repeat constructor].
    intros a b Ha%list_elem_of_In%in_rev ->%list_elem_of_singleton. rewrite Forall_forall in Hx. by apply Hx. }
  induction l as [|e l IH]; intros back Hs; cbn [foldl]; [by rewrite app_nil_r|].
  destruct (IH (shift_in e back) (shift_in_sorted e back Hs)) as [Hp Hs']. split; [|done].
  rewrite Hp, shift_in_perm. cbn [app]. apply Permutation_middle.
Qed.

(** ** The records of the log *)

(** What a list of records makes of a map. *)
Definition apply_ent (m : kmap) (e : fold_ent) : kmap :=
  if is_delete (f_flags e) then delete (f_key e) m else <[f_key e := f_val e]> m.

Definition ent_of (k : bytes) (x : Z * bytes) : fold_ent := mkFold k (snd x) (fst x).

(** The list is the content of the log. *)
Definition lists (es : list fold_ent) (c : gmap bytes (Z * bytes)) : Prop :=
  NoDup (map f_key es) /\ forall k x, c !! k = Some x <-> ent_of k x ∈ es.

Lemma apply_lookup es m k :
  NoDup (map f_key es) ->
  foldl apply_ent m es !! k =
    match List.find (fun e => bool_decide (f_key e = k)) es with
    | Some e => if is_delete (f_flags e) then None else Some (f_val e)
    | None => m !! k
    end.
Proof.
  revert m. induction es as [|e es IH]; intros m Hn; cbn [foldl List.find]; [done|].
  cbn [map] in Hn. apply list.NoDup_cons in Hn as [Hni Hn]. rewrite IH by done.
  destruct (bool_decide_reflect (f_key e = k)) as [<-|Hne].
  - destruct (List.find _ es) as [e'|] eqn:Ef.
    + apply List.find_some in Ef as [Hin Hk%bool_decide_eq_true]. destruct Hni. apply list_elem_of_fmap.
      exists e'. split; [done|]. by apply list_elem_of_In.
    + unfold apply_ent. destruct (is_delete _); [by rewrite lookup_delete_eq|by rewrite lookup_insert_eq].
  - destruct (List.find _ es); [done|]. unfold apply_ent.
    destruct (is_delete _); [by rewrite lookup_delete_ne|by rewrite lookup_insert_ne].
Qed.

(** Applying every record to the base gives the map of the two tiers. *)
Lemma apply_over es c m : lists es c -> foldl apply_ent m es = over c m.
Proof.
  intros [Hn Hc]. apply map_eq. intros k. rewrite apply_lookup, lookup_over by done. unfold over_one.
  destruct (List.find _ es) as [e|] eqn:Ef.
  - apply List.find_some in Ef as [Hin Hk%bool_decide_eq_true]. subst k.
    assert (Ec : c !! f_key e = Some (f_flags e, f_val e)).
    { apply Hc. destruct e. by apply list_elem_of_In. }
    by rewrite Ec.
  - destruct (c !! k) as [x|] eqn:Ec; [|done]. apply Hc, list_elem_of_In in Ec.
    pose proof (List.find_none _ _ Ef _ Ec) as Hb. by apply bool_decide_eq_false in Hb.
Qed.

Lemma lists_perm es es' c : es' ≡ₚ es -> lists es c -> lists es' c.
Proof.
  intros Hp [Hn Hc]. split; [by rewrite Hp|]. intros k x. by rewrite Hp, Hc.
Qed.

Lemma lists_length es c : lists es c -> length es = size c.
Proof.
  intros [Hn Hc]. assert (Hp : map_to_list c ≡ₚ map (fun e => (f_key e, (f_flags e, f_val e))) es).
  { apply list.NoDup_Permutation; [apply NoDup_map_to_list| |].
    - apply (list.NoDup_fmap_1 fst). rewrite <- list_fmap_compose. exact Hn.
    - intros [k x]. rewrite elem_of_map_to_list, Hc, list_elem_of_fmap. split.
      + intros Hin. exists (ent_of k x). split; [by destruct x|done].
      + intros ([k' val fl] & [= -> ->] & Hin). done. }
  rewrite <- (length_map (fun e => (f_key e, (f_flags e, f_val e)))), <- Hp. apply length_map_to_list.
Qed.

(** ** Applying the records to a copy of the base *)

Section apply.
Context {D : Type} `{!Dev D} `{!PageStoreLaws (vol D dlog)} `{!PageStoreLive (vol D dlog)}.
Abbreviation V := (vol D dlog).
Implicit Types v : V.

(** The generation of a root, 0 of the empty tree. *)
Definition gen_of (root : invfs_blkptr) : Z := if bp_pba root =? 0 then 0 else bp_gen root.

Lemma next_gen_eq root : 0 <= gen_of root < 2 ^ 64 - 1 -> next_gen root = gen_of root + 1.
Proof. intros H. unfold next_gen, gen_of in *. apply u64_small. destruct (_ =? 0); lia. Qed.

Lemma holds_nonnull n v root m : ps_wf v -> holds n v root m -> m <> ∅ -> bp_pba root <> 0.
Proof.
  intros Hw (kvs & Hr & <-) Hm. destruct n as [|h]; [by destruct Hr as [_ ->]|].
  destruct Hr as (_ & es & Hn & _). by apply (node_live _ _ _ _ Hw Hn).
Qed.

(** [root'] is [root], or newer. *)
Definition newer (root root' : invfs_blkptr) (k : Z) : Prop :=
  (root' = root \/ gen_of root < gen_of root') /\ gen_of root' <= gen_of root + k.

Lemma newer_refl root k : 0 <= k -> newer root root k.
Proof. split; [by left|lia]. Qed.
Lemma newer_trans r1 r2 r3 j k : newer r1 r2 j -> newer r2 r3 k -> newer r1 r3 (j + k).
Proof. intros [[->|H1] L1] [[->|H2] L2]; (split; [|lia]); auto; right; lia. Qed.

Lemma newer_next root root' :
  bp_pba root' <> 0 -> 0 <= gen_of root < 2 ^ 64 - 1 -> bp_gen root' = next_gen root -> newer root root' 1.
Proof.
  intros Hp Hg E1. rewrite next_gen_eq in E1 by done. unfold newer.
  assert (gen_of root' = gen_of root + 1) by (unfold gen_of at 1; by rewrite (proj2 (Z.eqb_neq _ _) Hp)). lia.
Qed.

(** No prefix of the records empties the tree: it starts empty and every key
    comes once, or a row of the base is not deleted. *)
Definition rooted (m : kmap) (es : list fold_ent) : Prop :=
  (m = ∅ /\ NoDup (map f_key es)) \/
  exists k0, is_Some (m !! k0) /\ Forall (fun e => is_delete (f_flags e) = true -> f_key e <> k0) es.

Lemma rooted_step m e es :
  rooted m (e :: es) -> rooted (apply_ent m e) es /\ (is_Some (m !! f_key e) \/ is_delete (f_flags e) = false -> apply_ent m e <> ∅).
Proof.
  unfold apply_ent. intros [[-> Hn]|(k0 & Hk & Hes)].
  - cbn [map] in Hn. apply list.NoDup_cons in Hn as [Hni Hn]. destruct (is_delete (f_flags e)) eqn:Ed.
    + rewrite delete_empty. split; [left; by split|]. intros [[x Hx]|?]; [by rewrite lookup_empty in Hx|done].
    + split; [|intros _; apply insert_non_empty]. right. exists (f_key e).
      rewrite lookup_insert_eq. split; [by eexists|]. apply Forall_forall. intros e' He' _ Ek. apply Hni.
      rewrite <- Ek. apply list_elem_of_fmap. exists e'. split; [done|]. by apply list_elem_of_In.
  - apply Forall_cons_iff in Hes as [He Hes]. destruct (is_delete (f_flags e)).
    + assert (Hk' : is_Some (delete (f_key e) m !! k0)) by (rewrite lookup_delete_ne; auto).
      split; [right; by exists k0|]. intros _ E0. rewrite E0, lookup_empty in Hk'. by destruct Hk'.
    + split; [|intros _; apply insert_non_empty]. right. exists k0. split; [|done].
      destruct (decide (f_key e = k0)) as [->|]; [rewrite lookup_insert_eq; by eexists|by rewrite lookup_insert_ne].
Qed.

(** Without the claim that it answers, no room is needed. *)
Lemma wp_partial {A} n k (m : M V A) v (Q : A -> V -> Prop) : wp False n m v Q -> wp False k m v Q.
Proof. intros H Hw r v' Em. split; [apply (H Hw _ _ Em)|done]. Qed.

(** What may be in the tree. *)
Definition ent_row (e : fold_ent) : Prop := pair_ok (f_key e) (f_val e).

Lemma mono_fold_apply es root : mono (fold_apply (D := D) es root).
Proof. revert root. induction es as [|e es IH]; intros root; cbn [fold_apply]; keep_auto. Qed.

Lemma wp_fold_apply es : forall n v root m,
  holds n v root m -> Z.of_nat (n + length es) < 2 ^ 16 -> Forall ent_row es -> rooted m es ->
  0 <= gen_of root -> gen_of root + zlen es < 2 ^ 64 - 1 ->
  wp False 0 (fold_apply (D := D) es root) v (fun root' v' =>
    newer root root' (zlen es) /\
    exists n', (n' <= n + length es)%nat /\ holds n' v' root' (foldl apply_ent m es)).
Proof.
  induction es as [|e es IH]; intros n v root m Hh Hn Hrow Hro Hg0 Hg; cbn [fold_apply foldl length] in *.
  { apply wp_ret. split; [by apply newer_refl|]. exists n. split; [lia|done]. }
  apply Forall_cons_iff in Hrow as [He Hrow]. destruct (rooted_step m e es Hro) as [Hro' Hne].
  assert (Hnext : forall n1 v1 root1, (n1 <= S n)%nat -> holds n1 v1 root1 (apply_ent m e) -> newer root root1 1 ->
    wp False 0 (fold_apply (D := D) es root1) v1 (fun root' v' => newer root root' (zlen (e :: es)) /\
      exists n', (n' <= n + S (length es))%nat /\ holds n' v' root' (foldl apply_ent (apply_ent m e) es))).
  { intros n1 v1 root1 Hn1 Hh1 Hnew. eapply wp_post.
    - apply (IH n1 v1 root1 (apply_ent m e)); [done|lia|done|done| |].
      + destruct Hnew as [[->|?] ?]; lia.
      + destruct Hnew as [_ ?]. lia.
    - intros root' v' _ _ [Hnew' (n' & Hn' & Hh')]. split; [|exists n'; split; [lia|done]].
      replace (zlen (e :: es)) with (1 + zlen es) by (cbn [length]; lia). by eapply newer_trans. }
  destruct Hh as (kvs & Hr & <-). pose proof (root_at_sorted _ _ _ _ Hr) as Hs.
  assert (Hw1 : forall root1 v1 n1 kvs1, ps_wf v1 -> root_at n1 v1 root1 kvs1 -> to_map kvs1 = apply_ent (to_map kvs) e ->
    (is_Some (to_map kvs !! f_key e) \/ is_delete (f_flags e) = false) ->
    (root1 = root \/ bp_gen root1 = next_gen root) -> newer root root1 1).
  { intros root1 v1 n1 kvs1 Hwf Hr1 Em Hd [->|E1]; [by apply newer_refl|]. apply newer_next; [|lia|done].
    apply (holds_nonnull n1 v1 root1 (apply_ent (to_map kvs) e) Hwf); [by exists kvs1|by apply Hne]. }
  unfold apply_ent in *. destruct (is_delete (f_flags e)) eqn:Ed.
  - eapply wp_bind0; [intros; case_match; [keep_auto; apply mono_fold_apply|apply mono_fold_apply]| |].
    { instantiate (1 := fun r _ => r = to_map kvs !! f_key e). destruct n as [|h].
      - destruct Hr as [Hp ->]. unfold btree_search. rewrite Hp. by apply wp_ret.
      - by apply wp_btree_search with (h := h). }
    intros r v1 He1 Hwf1 ->. destruct (to_map kvs !! f_key e) as [x|] eqn:Ex.
    + eapply (wp_bind0 False); [intros; apply mono_fold_apply| |].
      { eapply wp_partial, (wp_delete False n v1 root kvs (f_key e)); [by eapply root_at_ext|lia|done]. }
      intros root1 v2 _ Hwf2 (Hgen & n1 & Hn1 & Hr1).
      apply (Hnext n1 v2 root1); [lia|eexists; split; [exact Hr1|by apply to_map_delete]|].
      eapply Hw1; [done|exact Hr1|by apply to_map_delete|left; by eexists|done].
    + apply (Hnext n v1 root); [lia| |by apply newer_refl]. exists kvs. split; [by eapply root_at_ext|].
      by rewrite delete_id.
  - eapply (wp_bind0 False); [intros; apply mono_fold_apply| |].
    { eapply wp_partial, (wp_upsert False n v root kvs (f_key e) (f_val e)); [done|lia|done|done]. }
    intros root1 v2 _ Hwf2 (Hgen & n1 & Hn1 & Hr1).
    apply (Hnext n1 v2 root1); [lia|eexists; split; [exact Hr1|by apply to_map_insert]|].
    eapply Hw1; [done|exact Hr1|by apply to_map_insert|by right|by right].
Qed.
(** An empty map has no pages. *)
Lemma holds_empty n v root : holds n v root ∅ -> bp_pba root = 0.
Proof.
  intros (kvs & Hr & Em). destruct n as [|h]; [apply Hr|]. exfalso. clear -Hr Em.
  pose proof (cell_bounded _ _ _ _ _ Hr) as (Hk & _).
  destruct kvs as [|[k x] kvs]; [done|]. pose proof (root_at_sorted (S h) _ _ _ Hr) as Hs.
  assert (Hx : to_map ((k, x) :: kvs) !! k = Some x) by (apply to_map_lookup; [done|left]).
  by rewrite Em, lookup_empty in Hx.
Qed.

(** C28: a fold that empties the tree half-way forgets its generation.  When the
    records, in key order, delete the only row of the base before they insert
    another one, the merged root has generation 1, whatever the generation [g]
    of the base was; and when [g] is above 1, a reader that finds the old root
    and this one in the two slots of the descriptor chooses the old one. *)
Theorem fold_restarts_generation v root k x k' val n :
  holds n v root {[k := x]} -> Z.of_nat n <= 2 ^ 16 -> pair_ok k' val ->
  let es := [mkFold k [] INVFS_DELTA_FLAG_DELETE; mkFold k' val 0] in
  wp (n = 1%nat /\ fits 0 [mkEnt k' val null_ptr] = true) (delete_room n + 1) (fold_apply (D := D) es root) v (fun root' v' =>
    holds 1 v' root' {[k' := val]} /\ bp_gen root' = 1 /\
    forall q p g, 1 < g ->
      pick_root q (Some (p, g)) (Some (bp_pba root', bp_gen root')) = Some (p, g) /\
      pick_root q (Some (bp_pba root', bp_gen root')) (Some (p, g)) = Some (p, g)).
Proof.
  intros (kvs & Hr & Em) Hn Hp es. unfold es. cbn [fold_apply f_flags f_key f_val].
  change (is_delete INVFS_DELTA_FLAG_DELETE) with true. change (is_delete 0) with false. cbv iota.
  pose proof (root_at_sorted _ _ _ _ Hr) as Hs. set (L := n = 1%nat /\ _).
  eapply (wp_bind0 L); [keep_auto| |].
  { instantiate (1 := fun r _ => r = to_map kvs !! k). destruct n as [|h].
    - destruct Hr as [E0 ->]. unfold btree_search. rewrite E0. by apply wp_ret.
    - apply wp_btree_search with (h := h); [done|]. intros [? _]. unfold BT_MAX_DEPTH. lia. }
  intros r v1 He1 Hw1 ->. rewrite Em, lookup_singleton_eq.
  eapply (wp_bind L (delete_room n) 1); [lia|keep_auto| |].
  { apply (wp_delete L n v1 root kvs k); [by eapply root_at_ext|done|]. intros [-> _]. exact I. }
  intros root1 v2 He2 Hw2 (_ & n1 & _ & Hr1).
  assert (E0 : bp_pba root1 = 0).
  { apply (holds_empty n1 v2). exists (kv_delete k kvs). split; [done|]. rewrite to_map_delete, Em by done. apply delete_singleton_eq. }
  eapply (wp_bind L 1 0); [lia|keep_auto| |].
  { apply (wp_upsert L 0 v2 root1 [] k' val); [by split|done|done|]. by intros [_ ?]. }
  intros root2 v3 _ _ (Hg & n2 & Hn2 & Hr2). unfold next_gen in Hg. rewrite E0 in Hg.
  assert (Hg1 : bp_gen root2 = 1) by exact Hg. clear Hg.
  apply wp_ret. split; [|split; [done|]].
  - assert (n2 = 1%nat) as ->.
    { destruct n2 as [|[|]]; [by destruct Hr2|done|lia]. }
    exists [(k', val)]. split; [exact Hr2|]. done.
  - intros q p g Hlt. rewrite Hg1. unfold pick_root. rewrite (proj2 (Z.ltb_ge g 1)), (proj2 (Z.ltb_lt 1 g)) by lia.
    by rewrite (proj2 (Z.eqb_neq 1 g)) by lia.
Qed.
End apply.

(** ** The check bounds the height *)

Section counts.
Context {V : Type} `{!PageStore V} `{!PageStoreLaws V}.
Implicit Types v : V.
Context (v0 : V) (Hwf : ps_wf v0) (St : V -> Prop).
Context (Hrd : forall ptr level es v, node_at v0 ptr level es -> St v ->
  exists v', bt_read ptr v = (Some (level, es), v') /\ St v').

(** Distinct pages the walk has marked. *)
Definition visited (c : bt_ck) (ps : list Z) : Prop :=
  NoDup ps /\ Forall (fun p => 0 <= p < ck_total c /\ bit_get (ck_seen c) p = true) ps /\
  ck_total c <= 8 * zlen (ck_seen c).

(** At least [k] more pages. *)
Definition counted (c c' : bt_ck) (k : nat) : Prop :=
  ck_total c' = ck_total c /\ forall ps, visited c ps -> exists ps', visited c' ps' /\ (length ps + k <= length ps')%nat.

Lemma counted_same c c' : ck_seen c' = ck_seen c -> ck_total c' = ck_total c -> counted c c' 0.
Proof. intros E1 E2. split; [done|]. intros ps Hv. exists ps. unfold visited in *. rewrite E1, E2. split; [done|lia]. Qed.

Lemma counted_trans c1 c2 c3 j k : counted c1 c2 j -> counted c2 c3 k -> counted c1 c3 (j + k).
Proof.
  intros [T1 H1] [T2 H2]. split; [congruence|]. intros ps Hv. destruct (H1 ps Hv) as (ps1 & Hv1 & L1). destruct (H2 ps1 Hv1) as (ps2 & Hv2 & L2).
  exists ps2. split; [done|lia].
Qed.

Lemma counted_mark c p x :
  0 <= p < ck_total c -> bit_get (ck_seen c) p = false ->
  counted c (set_ck_pages x (set_ck_seen (bit_set (ck_seen c) p) c)) 1.
Proof.
  intros Hp Hb. split; [done|]. intros ps (Hn & Hf & Hl). exists (p :: ps). cbn [length]. split; [|lia].
  unfold visited. cbn. rewrite length_bit_set. split_and!; [| |done].
  - apply list.NoDup_cons. split; [|done]. intros Hin%list_elem_of_In. rewrite Forall_forall in Hf.
    destruct (Hf p Hin) as [_ ?]. congruence.
  - constructor.
    + split; [done|]. rewrite bit_get_set by lia. by rewrite Z.eqb_refl.
    + eapply Forall_impl; [|exact Hf]. intros q [Hq Hbq]. split; [done|]. rewrite bit_get_set by lia.
      by rewrite Hbq, orb_true_r.
Qed.

(** Pages of a tree of [h] levels above its leaves, two children each. *)
Definition least (h : nat) : nat := (2 ^ S h - 1)%nat.

Lemma least_S h : least (S h) = (1 + 2 * least h)%nat.
Proof. unfold least. pose proof (Nat.pow_nonzero 2 (S h)). cbn [Nat.pow] in *. lia. Qed.

Lemma children_count h rec es hi hi' kvs :
  (forall e hi kvs lo hi' c v, cell (S h) v0 e hi kvs -> St v ->
     exists b c' v', rec (e_child e) lo hi' c v = (Some (b, c'), v') /\ St v' /\
     (b = true -> counted c c' (least h))) ->
  forest (cell (S h) v0) es hi kvs -> forall c v, St v ->
  exists b c' v', ck_children rec es hi' c v = (Some (b, c'), v') /\ St v' /\
    (b = true -> counted c c' (length es * least h)).
Proof.
  intros Hrec. revert kvs. induction es as [|e es IH]; intros kvs Hf c v Hv; cbn [ck_children].
  { exists true, c, v. split; [done|]. split; [done|]. intros _. by apply counted_same. }
  destruct Hf as (k1 & k2 & _ & Hc & Hf).
  destruct (Hrec e _ _ (e_k e) (match es with e' :: _ => e_k e' | [] => hi' end) c v Hc Hv) as (b & c1 & v1 & E1 & Hv1 & Hw).
  rewrite (mbind_eq _ _ v (b, c1) v1) by done. destruct b; [|by exists false, c1, v1].
  destruct (IH _ Hf c1 v1 Hv1) as (b2 & c2 & v2 & E2 & Hv2 & Hw2).
  exists b2, c2, v2. split; [done|]. split; [done|]. intros Hb. cbn [length Nat.mul].
  eapply counted_trans; [by apply Hw|by apply Hw2].
Qed.

Lemma walk_count tol fuel : forall h e hi kvs expect lo hi' depth c v,
  cell (S h) v0 e hi kvs -> St v ->
  exists b c' v', bt_walk tol fuel (e_child e) expect lo hi' depth c v = (Some (b, c'), v') /\ St v' /\
    (b = true -> counted c c' (least h)).
Proof.
  induction fuel as [|fuel IH]; intros h e hi kvs expect lo hi' depth c v Hc Hv; cbn [bt_walk];
    [by exists false, c, v|].
  pose proof Hc as (_ & es & Hn & Hne & _ & Hf). pose proof (ps_live_range _ _ Hwf (proj1 Hn)) as Hp.
  destruct (_ || _) eqn:Er; [by eexists false, _, v|]. destruct (bit_get _ _) eqn:Eb; [by eexists false, _, v|].
  zbool. pose proof (counted_mark c (bp_pba (e_child e)) (ck_pages c + 1) ltac:(lia) Eb) as Hmark.
  set (c1 := set_ck_pages _ _) in *. clearbody c1.
  destruct (Hrd _ _ _ v Hn Hv) as (v1 & E1 & Hv1).
  rewrite (mbind_eq _ _ v (Some (Z.of_nat h, es)) v1) by (unfold mtry; by rewrite E1).
  destruct (_ && negb _); [by eexists false, _, v1|]. destruct h as [|h].
  - cbn [Z.of_nat]. change (0 =? INVFS_PAGE_LEVEL_LEAF) with true. cbv iota.
    destruct (negb (_ =? 0) && _); [by eexists false, _, v1|]. set (c2 := if _ =? 0 then _ else _).
    assert (E2 : ck_seen c2 = ck_seen c1 /\ ck_total c2 = ck_total c1) by (unfold c2; by destruct (_ =? 0)).
    clearbody c2. destruct (zlen es <? 1); [by eexists false, _, v1|].
    destruct (ck_order _ _ _ _ _ _ _) as [m|]; [by eexists false, _, v1|].
    eexists true, _, v1. split; [done|]. split; [done|]. intros _.
    change (least 0) with (1 + 0)%nat. eapply counted_trans; [exact Hmark|]. apply counted_same; apply E2.
  - rewrite level_S. destruct (zlen es <? 2) eqn:E2; [by eexists false, _, v1|]. zbool.
    destruct (ck_order _ _ _ _ _ _ _) as [m|]; [by eexists false, _, v1|].
    destruct (children_count h (fun p lo hi => bt_walk tol fuel p (Z.of_nat (S h) - 1) lo hi (depth + 1)) es hi hi' kvs)
      with (c := c1) (v := v1) as (b & c2 & v2 & E3 & Hv2 & Hw2); [intros; by eapply IH|done|done|].
    exists b, c2, v2. split; [done|]. split; [done|]. intros Hb.
    destruct (counted_trans _ _ _ _ _ Hmark (Hw2 Hb)) as [Ht Hps]. split; [done|]. intros ps Hv0.
    destruct (Hps ps Hv0) as (ps' & Hps' & Hl). exists ps'. split; [done|].
    rewrite least_S. assert (2 <= length es)%nat by lia. nia.
Qed.

(** A tree the check accepts is not taller than its distinct pages allow. *)
Lemma check_height total n root m v :
  holds n v0 root m -> St v -> 0 <= total ->
  exists ok stat q err v', btree_check_tolerant total root v = (Some (ok, stat, q, err), v') /\ St v' /\
    (ok = true -> 2 ^ Z.of_nat n <= total + 1).
Proof.
  intros (kvs & Hr & _) Hv Ht. unfold btree_check_tolerant. destruct n as [|h].
  { destruct Hr as [-> _]. eexists _, _, _, _, v. split; [done|]. split; [done|]. intros _. cbn. lia. }
  pose proof Hr as (_ & es & Hn & _). cbn [e_child] in Hn.
  rewrite (proj2 (Z.eqb_neq _ _)) by (by apply (node_live _ _ _ _ Hwf Hn)).
  destruct (walk_count true CK_FUEL h (mkEnt [] [] root) None kvs (-1) [] [] 1 (ck_init total (Some [])) v Hr Hv)
    as (b & c & v1 & E1 & Hv1 & Hw). cbn [e_child] in E1.
  unfold bt_check_tol_rec. rewrite (mbind_eq _ _ _ _ _ E1). eexists _, _, _, _, v1. split; [done|]. split; [done|].
  cbn [fst]. intros Hb. destruct (Hw Hb) as [Et Hps]. destruct (Hps []) as (ps & (Hnd & Hf & _) & Hl).
  { split_and!; [constructor|constructor|]. cbn. by apply seen_bits. }
  rewrite Et in Hf. change (ck_total _) with total in Hf.
  assert (Hle : (length ps <= length (seqZ 0 total))%nat).
  { apply submseteq_length, NoDup_submseteq; [done|]. intros p Hp%list_elem_of_In. rewrite Forall_forall in Hf.
    apply elem_of_seqZ. destruct (Hf p Hp). lia. }
  rewrite length_seqZ in Hle. cbn [length] in Hl. unfold least in Hl.
  assert (Hpow : 2 ^ Z.of_nat (S h) = Z.of_nat (2 ^ S h)) by (rewrite Nat2Z.inj_pow; done). lia.
Qed.
End counts.

Section fold.
Context {D : Type} `{!Dev D, !DevLaws D} (E : penv) (RC : retire_calls (vol D dlog)).
Context (genv senv : option bytes).
Abbreviation V := (vol D dlog).
Implicit Types (v : V) (l : list seg).

(** ** Collecting *)

(** The record of a slot of the index. *)
Definition slot_ent l (s : delta_slot) : fold_ent := ent_of (s_key s) (default (0, []) (content l !! s_key s)).

Lemma collect_cb_tot v l acc s :
  faultless v -> chain_ok v l -> rows_ok (content l) -> places l !! s_key s = Some (noseq (s_ref s)) ->
  tot (fold_collect_cb acc (s_key s) (s_ref s)) v (fun r v' => r = (0, acc ++ [slot_ent l s]) /\ reads v v').
Proof.
  intros Hq Hc Hro Hp. pose proof (places_content l (s_key s)) as Ha. rewrite Hp in Ha.
  unfold slot_ent. destruct (content l !! s_key s) as [[fl val]|] eqn:Ec; [|done].
  destruct Ha as (sg & pre & r & post & Hs & Hr & _ & Epl & [= -> ->]).
  destruct (chain_seg v l sg Hc Hs) as [prev Hseg]. pose proof (rows_ok_del _ _ _ _ Hro Ec) as Hd.
  unfold fold_collect_cb. destruct (s_ref s) as [rseg roff rseq rfl rvl]. pose proof Epl as Epl'.
  injection Epl' as -> -> -> ->. cbn [r_flags r_vlen default ent_of fst snd].
  pose proof (reads_refl v Hq) as Hrf.
  destruct Hd as [[-> _]|[-> ->]]; [|by apply tot_ret].
  destruct (Z.eqb_spec (zlen (lr_val r)) 0) as [E0|E0].
  { apply tot_ret. split; [|done]. by destruct (lr_val r). }
  apply tot_bind, tot_try. unfold vol_delta_read_value. cbn [r_vlen].
  rewrite (proj2 (Z.eqb_neq _ _) E0). apply tot_bind, tot_guard; [by rewrite Z.ltb_irrefl|].
  eapply tot_mono; [eapply (read_value_tot v prev sg pre r post); [done..|by left]|].
  intros bs v' [-> Hrd]. rewrite Z.eqb_refl. by apply tot_ret.
Qed.

Lemma collect_slots_tot l ss : forall v acc,
  faultless v -> chain_ok v l -> rows_ok (content l) ->
  Forall (fun s => places l !! s_key s = Some (noseq (s_ref s))) (full ss) ->
  tot (iter_slots fold_collect_cb ss acc) v (fun r v' =>
    r = (0, acc ++ map (slot_ent l) (full ss)) /\ reads v v').
Proof.
  induction ss as [|[s|] ss IH]; intros v acc Hq Hc Hro Hss; cbn [iter_slots].
  - apply tot_ret. cbn. rewrite app_nil_r. split; [done|by apply reads_refl].
  - change (full (Some s :: ss)) with (s :: full ss) in *. apply Forall_cons_iff in Hss as [Hs Hss].
    apply tot_bind. eapply tot_mono; [by apply (collect_cb_tot v l acc s)|]. intros r v1 [-> Hrd].
    cbn [fst snd negb Z.eqb]. pose proof Hrd as (E1 & Hst & Hv).
    eapply tot_mono; [apply IH; [apply Hst| |done|done]|].
    + apply (chain_ok_ext v v1 l Hst); [by rewrite E1|intros; apply Hv|done].
    + intros r v2 [-> Hrd2]. split; [|by apply (reads_trans v v1)]. cbn [map]. by rewrite <- app_assoc.
  - by apply IH.
Qed.

(** The walk over the index lists the content of the log. *)
Lemma collect_tot v l :
  DeltaLog.live v l -> rows_ok (content l) ->
  tot (vol_delta_iter fold_collect_cb []) v (fun r v' =>
    fst r = 0 /\ lists (snd r) (content l) /\ reads v v').
Proof.
  intros Hl Hro. destruct (lv_index v l Hl) as (di & Hdi & Hok & Hm).
  assert (Hu : uniq (di_slot di)) by apply Hok.
  assert (Hfull : forall s, s ∈ full (di_slot di) <-> di_map di !! s_key s = Some (s_ref s)).
  { intros [k r]. rewrite di_map_lookup by done. cbn. apply elem_of_slots. }
  assert (Hplace : forall k, noseq <$> (di_map di !! k) = places l !! k) by (intros; by rewrite <- Hm, lookup_fmap).
  unfold vol_delta_iter. apply tot_bind, tot_get. rewrite Hdi.
  eapply tot_mono; [apply (collect_slots_tot l (di_slot di) v []); [apply Hl|apply Hl|done|]|].
  { apply Forall_forall. intros s Hs%list_elem_of_In%Hfull. by rewrite <- Hplace, Hs. }
  intros r v' [-> Hrd]. split; [done|]. split; [|done]. cbn [snd app]. split.
  - rewrite map_map. pose proof (uniq_NoDup _ Hu) as Hn. rewrite <- list_fmap_compose in Hn. exact Hn.
  - intros k x. rewrite list_elem_of_fmap. split.
    + intros Hx. pose proof (places_content l k) as Ha. rewrite <- Hplace, Hx in Ha.
      destruct (di_map di !! k) as [ref|] eqn:Er; [|done]. exists (mkSlot k ref). split; [|by apply Hfull].
      unfold slot_ent. cbn [s_key]. by rewrite Hx.
    + intros ([k' ref] & Ee & Hs%Hfull). cbn [s_key s_ref] in *. unfold slot_ent in Ee. cbn [s_key] in Ee.
      pose proof (places_content l k') as Ha. rewrite <- Hplace, Hs in Ha. cbn in Ha.
      destruct (content l !! k') as [[fl val]|] eqn:Ec; [|done]. injection Ee as -> E1 E2.
      destruct x. cbn in *. by subst.
Qed.

(** ** The engine under moves of the page store *)

Lemma moves_steady P F v v' : moves P F v v' -> steady v v'.
Proof.
  intros M. split; [apply (so_quiet _ (sy_sound M))|apply (Frame.sy_cap M)|].
  destruct (sy_geo M) as (_ & _ & _ & Ho & _). exact Ho.
Qed.

Lemma moves_sb P F v v' : moves P F v v' -> exists f, vsb v' = set_vol_flags f (vsb v).
Proof. intros M. by destruct (sy_geo M) as ((f & Es) & _); exists f. Qed.

Lemma live_moves P F v v' l :
  moves P F v v' -> (forall q, log_block l q -> ~ P q) -> DeltaLog.live v l -> DeltaLog.live v' l.
Proof.
  intros M HP [H1 H2 H3 H4 H5 H6 H7 H8 [S1 S2 S3 S4 S5]]. pose proof (moves_steady _ _ _ _ M) as Hst.
  destruct (moves_sb _ _ _ _ M) as [f Es]. pose proof (sy_rest M) as Hre.
  assert (Ex : v_x v' = v_x v) by by rewrite Hre.
  split; rewrite ?Ex; try done.
  - apply Hst.
  - apply (chain_ok_ext v v' l Hst); [by rewrite Es| |done]. intros s a Hs Ha. apply (sy_view M).
    apply HP. exists s. split; [done|]. by apply in_seg_block.
  - unfold rt_names. rewrite Hre. exact H5.
  - split; rewrite ?Ex, ?Es; try done. by eapply may_steady.
Qed.

Lemma room_moves P F v v' l :
  moves P F v v' -> (forall q, log_block l q -> ~ F q) -> gapless (vsb v) -> chain_ok v l ->
  DeltaAppend.room v l -> DeltaAppend.room v' l.
Proof.
  intros M HF Hg Hc [R1 R2 R2z R3 R4 R5 R6 R7 R8 R9]. pose proof (moves_steady _ _ _ _ M) as Hst.
  destruct (moves_sb _ _ _ _ M) as [f Es]. pose proof (sy_rest M) as Hre.
  assert (Hm : forall o m, may v o m -> may v' o m) by (intros; by eapply may_steady).
  split; rewrite ?Es; auto.
  - by apply (sy_inv M).
  - intros s j Hs Hj. destruct (R2 s j Hs Hj) as [Hb Ha]. split; [|done].
    apply (sy_bits M); [|by apply HF; exists s|done]. destruct (chain_seg v l s Hc Hs) as [prev Hok].
    pose proof (sk_pba v prev s Hok). lia.
  - rewrite Hre. exact R6.
  - rewrite Hre. exact R9.
Qed.

Lemma engine_moves P F v v' l n base n' base' :
  engine v l n base -> moves P F v v' -> (forall q, log_block l q -> ~ P q /\ ~ F q) ->
  base_at v' (log_block l) n' base' -> engine v' l n' base'.
Proof.
  intros [H1 H2 H3 Hro H4 H5 [Hd Hl0] H7 H8 H9 H10 H11] M HPF Hb. destruct (moves_sb _ _ _ _ M) as [f Es].
  pose proof (sy_rest M) as Hre. split; try done.
  - eapply live_moves; [exact M| |done]. intros q Hq. by apply HPF.
  - eapply room_moves; [exact M| |done|apply H1|done]. intros q Hq. by apply HPF.
  - apply (sy_sound M).
  - by apply (sy_orph M).
  - destruct (sy_geo M) as (_ & En & _ & Ho & _). split; [|by apply (sy_lo M)].
    intros o m. rewrite Es, En, Ho. apply Hd.
  - unfold gapless. by rewrite Es.
  - by rewrite Hre.
  - intros p Hp. by apply (H9 p), (sy_boot M).
  - by rewrite Hre.
Qed.

(** A step that keeps the base: the engine, and every tree beside it. *)
Record follows l v v' : Prop := {
  fo_engine : forall n base, engine v l n base -> engine v' l n base;
  fo_carried : carried v (log_block l) v' (log_block l);
  fo_rt : rt v' = rt v;
  fo_x : v_x v' = v_x v;
  fo_current : forall n base, engine v l n base -> current_root v' = current_root v /\ offered v' = offered v;
  fo_total : total_blocks (vsb v') = total_blocks (vsb v)
}.

Lemma follows_trans l v1 v2 v3 : follows l v1 v2 -> follows l v2 v3 -> follows l v1 v3.
Proof.
  intros [E1 C1 R1 X1 O1 T1] [E2 C2 R2 X2 O2 T2]. split; auto; [|congruence|congruence| |congruence].
  - intros q Hq Hn. destruct (C1 q Hq Hn) as (Hq2 & Hn2 & <-). by apply C2.
  - intros n base He. destruct (O1 n base He) as [<- <-]. by apply (O2 n base), E1.
Qed.

Lemma follows_moves P F v v' l :
  moves P F v v' -> (forall q, log_block l q -> ~ P q /\ ~ F q) ->
  carried v (log_block l) v' (log_block l) -> follows l v v'.
Proof.
  intros M HPF Hc. pose proof (sy_rest M) as Hre.
  assert (Er : rt v' = rt v) by by rewrite Hre.
  destruct (moves_sb _ _ _ _ M) as [f Es].
  assert (Hb : forall n base, engine v l n base -> base_at v' (log_block l) n base /\
    current_root v' = current_root v /\ offered v' = offered v).
  { intros n base He. apply (carried_base v (log_block l) v' (log_block l)); [done|rewrite Er; apply same_roots_refl|apply He]. }
  split; [|done|done|by rewrite Hre| |by rewrite Es].
  - intros n base He. eapply engine_moves; [exact He|exact M|done|]. by apply Hb.
  - intros n base He. by apply (Hb n base He).
Qed.

(** Writes to reserved blocks only. *)
Lemma follows_reserved P v v' l n base :
  engine v l n base -> stays P v v' -> (forall q, P q -> reserved v q) -> follows l v v'.
Proof.
  intros He M HP. pose proof (log_owned v l (en_live _ _ _ _ He) (en_room _ _ _ _ He) (en_sound _ _ _ _ He) (en_boot _ _ _ _ He)) as Ho.
  assert (Hl : forall q, Metabuf.live v q -> ~ P q) by (intros q (_ & _ & _ & Hr & _) Hp; by apply Hr, HP).
  eapply follows_moves; [exact M| |].
  - intros q Hq. split; [by apply Hl, Ho|by intros []].
  - intros q Hq Hn. destruct (moves_live _ _ _ _ q M Hq) as [? ?]; [by apply Hl|by intros []|by split_and!].
Qed.

Lemma follows_reads v v' l n base : engine v l n base -> reads v v' -> follows l v v'.
Proof.
  intros He Hrd. apply (follows_reserved none v v' l n base He); [|by intros q []].
  apply reads_stays; [apply He|done].
Qed.

(** Every tree whose pages nobody else owns goes along. *)
Lemma follows_tree v v' l n root m : follows l v v' -> tree_at v (log_block l) n root m -> tree_at v' (log_block l) n root m.
Proof. intros Hf. by apply carried_tree, Hf. Qed.

(** Ownership does not depend on where the world started. *)
Lemma world_owns v S w q : ps_live (PageStoreLaws := world_laws v S) w q <-> Metabuf.live w q /\ ~ S q.
Proof. reflexivity. Qed.

Lemma world_page v S w q : ps_page (PageStoreLaws := world_laws v S) w q = page_at w q.
Proof. cbn [ps_page world_laws]. exact eq_refl. Qed.

Lemma world_carried v S v' : ext (PageStoreLaws0 := world_laws v S) v v' -> carried v S v' S.
Proof.
  intros Hext q Hq Hn. destruct (Hext q (proj2 (world_owns v S v q) (conj Hq Hn))) as [Hl Hp].
  destruct (proj1 (world_owns v S v' q) Hl) as [H1 H2]. rewrite !world_page in Hp. exact (conj H1 (conj H2 Hp)).
Qed.

Lemma world_tree v S v' n root m : holds (PageStoreLaws0 := world_laws v S) n v' root m -> tree_at v' S n root m.
Proof.
  intros (kvs & Hr & Em). exists kvs. split; [|done].
  apply (root_at_change (world_laws v S) (world_laws v' S) v' v' n root kvs); [|exact Hr].
  intros q Hq. rewrite !world_page. split; [|exact eq_refl].
  exact (proj2 (world_owns v' S v' q) (proj1 (world_owns v S v' q) Hq)).
Qed.

Lemma fold_apply_run v l n base n0 root m0 es r v' :
  engine v l n base -> tree_at v (log_block l) n0 root m0 ->
  Z.of_nat (n0 + length es) < 2 ^ 16 -> Forall ent_row es -> rooted m0 es ->
  0 <= gen_of root -> gen_of root + zlen es < 2 ^ 64 - 1 ->
  fold_apply es root v = (r, v') ->
  follows l v v' /\ forall root', r = Some root' -> newer root root' (zlen es) /\
    exists n', (n' <= n0 + length es)%nat /\ tree_at v' (log_block l) n' root' (foldl apply_ent m0 es).
Proof.
  intros He Ht Hn Hrow Hro Hg0 Hg Er. set (S := log_block l) in *.
  pose proof (log_owned v l (en_live _ _ _ _ He) (en_room _ _ _ _ He) (en_sound _ _ _ _ He) (en_boot _ _ _ _ He)) as Ho.
  pose proof (wp_fold_apply (PageStoreLaws0 := world_laws v S) (PageStoreLive0 := read_laws v S)
    es n0 v root m0 Ht Hn Hrow Hro Hg0 Hg) as Hwp.
  destruct (Hwp (conj Ho (moves_refl _ _ v (en_sound _ _ _ _ He))) r v' Er) as [Hs _].
  destruct (Hs eq_refl) as ([_ M] & Hext & HQ). split.
  - eapply follows_moves; [exact M| |].
    + intros q Hq. split; intros Hsp; apply Hsp; by right.
    + exact (world_carried v S v' Hext).
  - intros root' ->. destruct (HQ root' eq_refl) as [Hnew (n' & Hn' & Hh)]. split; [done|].
    exists n'. split; [done|]. exact (world_tree v S v' n' root' _ Hh).
Qed.

(** ** Durable, checked, named *)

Lemma flush_tot v l n base :
  engine v l n base -> tot vol_bitmap_flush v (fun _ v' => follows l v v').
Proof.
  intros He. destruct (vol_bitmap_flush v) as [r v'] eqn:Ef.
  destruct (stays_flush v r v' (en_sound _ _ _ _ He) (en_bm _ _ _ _ He) Ef) as (-> & M & _).
  exists tt, v'. split; [done|]. eapply follows_reserved; [exact He|exact M|]. intros q Hq. right. by left.
Qed.

(** Writes to block 0 and to the anchor. *)
Lemma follows_dev v d l n base :
  engine v l n base -> steady v (set_v_dev d v) ->
  (forall a, INVFS_BLOCK_SIZE <= a -> ~ in_anc v a -> view (set_v_dev d v) a = view v a) -> follows l v (set_v_dev d v).
Proof.
  intros He Hst Hv. apply (follows_reserved (fun q => q <= 0 \/ q = anchor_pba (vsb v)) v _ l n base He).
  - apply stays_dev; [apply He| |apply Hst|apply Hst|].
    + split; [apply Hst|]. pose proof (DeltaLog.sy_cap _ _ Hst) as Ec. cbn in Ec |- *. rewrite Ec.
      apply (so_quiet _ (en_sound _ _ _ _ He)).
    + intros a Ha. apply Hv.
      * destruct (Z.le_gt_cases INVFS_BLOCK_SIZE a) as [|Hlt]; [done|]. destruct Ha. left.
        apply Z.lt_succ_r. apply Z.div_lt_upper_bound; unfold INVFS_BLOCK_SIZE in *; lia.
      * intros Hin%in_anc_block. apply Ha. by right.
  - intros q [Hq|Hq]; [by left|]. right. by right.
Qed.

Lemma devt_block0 a : INVFS_BLOCK_SIZE <= a -> ~ (INVFS_DEVT_OFF <= a < INVFS_DEVT_OFF + DEVT_LEN).
Proof. unfold INVFS_DEVT_OFF, DEVT_LEN, INVFS_BLOCK_SIZE. lia. Qed.

Lemma barrier_tot v l n base :
  engine v l n base -> tot vol_barrier v (fun b v' => b = BarOk /\ follows l v v').
Proof.
  intros He. apply tot_barrier; [apply (en_live _ _ _ _ He)|]. intros d v' Hst Hv. split; [done|].
  apply (follows_dev v d l n base He Hst). intros a Ha _. by apply Hv, devt_block0.
Qed.

Lemma node_read v S ptr level es v1 :
  sound v -> owned v S -> node_at (PageStoreLaws0 := world_laws v S) v ptr level es -> reads v v1 ->
  exists v', bt_read ptr v1 = (Some (level, es), v') /\ reads v v'.
Proof.
  intros Hs Ho Hn Hrd. pose proof (reads_stays v v1 Hs Hrd) as M. set (L := world_laws v S) in *.
  assert (Hw1 : ps_wf (PageStoreLaws := L) v1) by exact (world_read v S v v1 (conj Ho (moves_refl _ _ v Hs)) M).
  assert (Hn1 : node_at (PageStoreLaws0 := L) v1 ptr level es).
  { eapply (node_at_ext (PageStoreLaws0 := L)); [|exact Hn]. intros q Hq. unfold L. rewrite !world_page.
    apply (world_owns v S v q) in Hq as [Hq Hnq].
    destruct (moves_live _ _ _ _ q M Hq) as [Hq' Hp]; [by intros []..|]. split; [|done].
    exact (proj2 (world_owns v S v1 q) (conj Hq' Hnq)). }
  destruct (wp_run (PageStoreLive0 := read_laws v S) True 0 0 _ _ _
    (wp_bt_read (PageStoreLive0 := read_laws v S) True v1 ptr level es Hn1) I Hw1 I eq_refl) as (r & v' & E1 & _ & _ & -> & _).
  exists v'. split; [done|]. apply (reads_trans v v1); [done|]. apply reads_only; [apply (sy_sound M)|].
  exact (keeps_bt_read only_read ptr v1 _ v' E1).
Qed.

Lemma verify_run v l n base n' root m :
  engine v l n base -> tree_at v (log_block l) n' root m ->
  ans (fold_verify root) v (fun r v' => reads v v' /\ (r = Some tt -> 2 ^ Z.of_nat n' <= total_blocks (vsb v) + 1)).
Proof.
  intros He Ht. pose proof (en_sound _ _ _ _ He) as Hs.
  pose proof (log_owned v l (en_live _ _ _ _ He) (en_room _ _ _ _ He) Hs (en_boot _ _ _ _ He)) as Ho.
  pose proof (mw_size v (so_wf v Hs)) as Hsz.
  destruct (check_height (PageStoreLaws0 := world_laws v (log_block l)) v
    (conj Ho (moves_refl _ _ v Hs)) (reads v)) with (total := total_blocks (vsb v)) (n := n') (root := root) (m := m) (v := v)
    as (ok & stat & q & err & v' & E1 & Hrd & Hok).
  - intros ptr level es v1 Hn Hv1. by eapply node_read.
  - exact Ht.
  - apply reads_refl, (en_live _ _ _ _ He).
  - lia.
  - unfold ans, fold_verify, mbind', mget. rewrite E1. destruct (ok && _ && _) eqn:Eg; (split; [done|]); [|done].
    intros _. apply Hok. apply andb_prop in Eg as [Eg _]. by apply andb_prop in Eg as [Eg _].
Qed.

(** ** A new root descriptor *)

(** The descriptor is another one that names the same log. *)
Lemma engine_rt v l n base r n' base' :
  engine v l n base -> rt_ok r -> delta_pba r = delta_pba (rt v) -> base_at (set_rt r v) (log_block l) n' base' ->
  engine (set_rt r v) l n' base'.
Proof.
  intros [[L1 L2 L3 L4 L5 L6 L7 L8 [S1 S2 S3 S4 S5]] [R1 R2 R2z R3 R4 R5 R6 R7 R8 R9] H3 Hro [W Q K] H5 [B1 B2] H7 H8 H9 H10 H11] Hr Ed Hb.
  split; try done.
  - split; try done.
    + apply (chain_ok_ext v (set_rt r v) l); [by split|exact eq_refl|intros; exact eq_refl|exact L2].
    + unfold rt_names in *. cbn [rt rt_present set_rt]. by rewrite Ed.
  - split; [|exact Q|exact K]. destruct W. by split.
Qed.

Lemma store_tot (heal : M V unit) v l n base r x :
  engine v l n base -> rt_ok r -> (forall w, v_x w = x -> heal w = (Some tt, w)) ->
  tot (mbuf_rt30_store heal) (set_rt r (set_v_x x v)) (fun _ v' =>
    exists v1, v' = set_rt (set_rt_crc (rt_crc r) r) (set_v_x x v1) /\ follows l v v1).
Proof.
  intros He Hr Hh. pose proof (en_room _ _ _ _ He) as Hro. pose proof (en_live _ _ _ _ He) as Hl.
  pose proof (mw_size v (so_wf v (en_sound _ _ _ _ He))) as Hsz. eapply tot_mono.
  { apply (rt30_store_tot heal (set_rt r (set_v_x x v))); [exact Hh|exact (lv_faultless v l Hl)|exact (rm_rt v l Hro)|exact (rm_anc v l Hro)|exact Hr|].
    intros r0 Hr0. destruct (rm_uuid v l Hro) as [U1 U2], (rm_spt0 v l Hro) as [S1 S2].
    apply anchor_build_ok; [|exact (rm_format v l Hro)|exact U1|exact U2|exact Hr0|exact S1|exact S2].
    change (0 <= total_blocks (vsb v) < 256 ^ 8). lia. }
  intros [] v' (E1 & [Hst1 Hst2 Hst3] & Hv). exists (set_v_dev (v_dev v') v). split; [rewrite E1; done|].
  apply (follows_dev v (v_dev v') l n base He); [by split|]. exact Hv.
Qed.

Lemma set_x_same v : set_v_x (v_x v) v = v.
Proof. by destruct v. Qed.

Lemma seq_next q : Z.land (u64 (q + 1)) 1 = 1 - Z.land q 1.
Proof.
  assert (H : forall x, Z.land x 1 = x mod 2) by (intros x; apply (Z.land_ones x 1); lia).
  rewrite !H. unfold u64. rewrite Z.mod_mod_divide by by exists (2 ^ 63).
  pose proof (Z.mod_pos_bound q 2). pose proof (Z.mod_pos_bound (q + 1) 2).
  pose proof (Z.div_mod q 2). pose proof (Z.div_mod (q + 1) 2). lia.
Qed.

(** The pointer as a reader builds it from the page. *)
Definition reread v (p : Z) : invfs_blkptr := mbuf_ptr_set p (page_at v p) INVFS_BP_ROOT.

Lemma tree_page v S h root m :
  sound v -> tree_at v S (Datatypes.S h) root m ->
  let p := bp_pba root in
  p <> 0 /\ Metabuf.live v p /\ ~ S p /\ mbuf_page_validate (page_at v p) = true /\
  page_gen (page_at v p) = bp_gen root /\ 0 <= bp_gen root /\ tree_at v S (Datatypes.S h) (reread v p) m.
Proof.
  intros Hs (kvs & Hr & Em). pose proof Hr as (Hk & es & (Hl & Hlen & Hb & Hc & Hg & Hv & Hd) & Hne & Hlo & Hf).
  cbn [e_child] in *. rewrite !world_page in *. destruct (proj1 (world_owns v S v _) Hl) as [Hl1 Hl2].
  assert (Hp : bp_pba root <> 0).
  { destruct Hl1 as (_ & _ & _ & Hres & _). unfold reserved in Hres. lia. }
  split; [done|]. split; [done|]. split; [done|]. split; [done|]. split; [done|]. split.
  { rewrite <- Hg. unfold page_gen. apply field_range; [exact Hb|lia|lia|rewrite Hlen; unfold INVFS_BLOCK_SIZE; lia]. }
  exists kvs. split; [|done]. split; [done|]. exists es. split; [|split; [done|split; [done|exact Hf]]].
  cbn [e_child reread mbuf_ptr_set bp_pba bp_checksum bp_gen]. unfold node_at. cbn [bp_pba bp_checksum bp_gen].
  rewrite world_page. exact (conj Hl (conj Hlen (conj Hb (conj eq_refl (conj eq_refl (conj Hv Hd)))))).
Qed.

(** Pages and offers do not depend on the descriptor. *)
Lemma page_at_rt v r p : page_at (set_rt r v) p = page_at v p.
Proof. apply vrange_ext. intros a _. exact eq_refl. Qed.

Lemma offer_rt v r i :
  slot_offer (set_rt r v) i =
    (if root_slot r i =? 0 then None
     else if mbuf_page_allocated v (root_slot r i) && mbuf_page_validate (page_at v (root_slot r i))
     then Some (root_slot r i, page_gen (page_at v (root_slot r i))) else None).
Proof. unfold slot_offer. rewrite !page_at_rt. exact eq_refl. Qed.

(** The reader's choice when the slots hold the old root and a newer one. *)
Lemma pick_last q i a b p g :
  i = 0 \/ i = 1 -> a = Some (p, g) ->
  (b = None \/ b = a \/ exists p0 g0, b = Some (p0, g0) /\ g0 < g) ->
  pick_root q (if i =? 0 then a else b) (if i =? 0 then b else a) = a.
Proof.
  intros [->| ->] -> [->|[->|(p0 & g0 & -> & Hlt)]]; cbn [Z.eqb pick_root]; try done.
  - by destruct (_ || _).
  - rewrite (proj2 (Z.ltb_ge g g0)), (proj2 (Z.eqb_neq g0 g)) by lia. done.
  - by destruct (_ || _).
  - by rewrite (proj2 (Z.ltb_lt g0 g)).
Qed.

(** What a descriptor says that names [p] as the new root. *)
Definition names_root (r r' : invfs_rt) (p : Z) : Prop :=
  let i := Z.land (rt_seq r) 1 in
  root_slot r' i = p /\ root_slot r' (1 - i) = root_slot r (1 - i) /\ rt_seq r' = u64 (rt_seq r + 1) /\
  delta_pba r' = delta_pba r.

Lemma slots_pick (f : Z -> option (Z * Z)) i : i = 0 \/ i = 1 ->
  f 0 = (if i =? 0 then f i else f (1 - i)) /\ f 1 = (if i =? 0 then f (1 - i) else f i).
Proof. by intros [->| ->]. Qed.

Lemma current_gen v S n m p g : base_at v S n m -> offered v = Some (p, g) -> gen_of (current_root v) = g.
Proof.
  intros Hb Eo. unfold current_root. rewrite Eo. rewrite (ba_last _ _ _ _ Hb) in Eo.
  apply offer_some in Eo as (_ & Hp & -> & _). unfold gen_of. cbn [mbuf_ptr_set bp_pba bp_gen].
  by rewrite (proj2 (Z.eqb_neq p 0)).
Qed.

Lemma named_offer v S n m h root m' r k :
  sound v -> base_at v S n m -> tree_at v S (Datatypes.S h) root m' ->
  newer (current_root v) root k -> names_root (rt v) r (bp_pba root) ->
  let v' := set_rt r v in
  offered v' = Some (bp_pba root, bp_gen root) /\ offered v' = slot_offer v' (last_slot v').
Proof.
  intros Hs Hb Ht [Hnew _] (Ri & Rj & Rq & _) v'. set (i := Z.land (rt_seq (rt v)) 1) in *.
  destruct (tree_page v S h root m' Hs Ht) as (Hp & Hl & Hn & Hv & Hg & _ & _).
  assert (Hi : i = 0 \/ i = 1) by apply slot_land.
  assert (Ei : slot_offer v' i = Some (bp_pba root, bp_gen root)).
  { unfold v'. rewrite offer_rt, Ri, (proj2 (Z.eqb_neq _ _) Hp).
    destruct (live_allocated _ _ Hl) as [_ ->]. rewrite Hv, Hg. exact eq_refl. }
  assert (Ej : slot_offer v' (1 - i) = offered v).
  { rewrite (ba_last _ _ _ _ Hb). unfold v', slot_offer at 2, last_slot. fold i. rewrite offer_rt, Rj. exact eq_refl. }
  assert (El : last_slot v' = i) by (unfold last_slot, v'; cbn [rt set_rt]; rewrite Rq, seq_next; fold i; lia).
  clearbody v'.
  assert (Eo : offered v' = slot_offer v' i).
  { unfold offered. destruct (slots_pick (slot_offer v') i Hi) as [-> ->].
    eapply pick_last; [done|exact Ei|]. rewrite Ei, Ej. destruct (offered v) as [[p0 g0]|] eqn:Eo; [|by left]. right.
    pose proof (current_gen _ _ _ _ _ _ Hb Eo) as Hg0. destruct Hnew as [->|Hlt].
    - left. unfold current_root. by rewrite Eo, <- Hg0; unfold gen_of, current_root; rewrite Eo; cbn;
        rewrite (ba_last _ _ _ _ Hb) in Eo; apply offer_some in Eo as (_ & Hz & _); rewrite (proj2 (Z.eqb_neq p0 0) Hz).
    - right. exists p0, g0. split; [done|]. rewrite Hg0 in Hlt. unfold gen_of in Hlt.
      by rewrite (proj2 (Z.eqb_neq _ _) Hp) in Hlt. }
  rewrite El, Eo. by rewrite Ei.
Qed.

Lemma named_base v S n m n' root m' r k :
  sound v -> base_at v S n m -> tree_at v S n' root m' -> m' <> ∅ -> (n' <= BT_MAX_DEPTH)%nat ->
  newer (current_root v) root k -> names_root (rt v) r (bp_pba root) ->
  base_at (set_rt r v) S n' m' /\ gen_of (current_root (set_rt r v)) = gen_of root.
Proof.
  intros Hs Hb Ht Hne Hn' Hnew Hnm. destruct n' as [|h].
  { destruct Ht as (kvs & [_ ->] & <-). done. }
  destruct (tree_page v S h root m' Hs Ht) as (Hp & Hl & Hn & Hv & Hg & _ & Ht').
  destruct (named_offer v S n m h root m' r k Hs Hb Ht Hnew Hnm) as [Eo El].
  assert (Ec : current_root (set_rt r v) = reread v (bp_pba root))
    by (unfold current_root, reread; rewrite Eo, page_at_rt; exact eq_refl).
  split.
  - split; [|done| |exact El|by rewrite Eo].
    + rewrite Ec. apply (carried_tree v S (set_rt r v) S); [|exact Ht']. intros q Hq Hnq. rewrite page_at_rt.
      exact (conj Hq (conj Hnq eq_refl)).
    + destruct Hnm as (Ri & Rj & _). cbn [rt set_rt]. intros j Hj. destruct (slot_land (rt_seq (rt v))) as [E0|E0]; rewrite E0 in *.
      * destruct Hj as [->| ->]; [right; rewrite Ri; by split|]. change (1 - 0) with 1 in Rj. rewrite Rj.
        exact (ba_slots _ _ _ _ Hb 1 (or_intror eq_refl)).
      * destruct Hj as [->| ->]; [|right; rewrite Ri; by split]. change (1 - 1) with 0 in Rj. rewrite Rj.
        exact (ba_slots _ _ _ _ Hb 0 (or_introl eq_refl)).
  - rewrite Ec. unfold gen_of, reread. cbn [mbuf_ptr_set bp_pba bp_gen]. by rewrite Hg.
Qed.

Lemma heal_nothing v l : DeltaLog.live v l -> forall w, v_x w = v_x v -> vol_delta_heal (D := D) w = (Some tt, w).
Proof.
  intros Hl w Ex. unfold vol_delta_heal, heal_if_needed, mbind', mget. by rewrite Ex, (lv_fence v l Hl).
Qed.

Lemma names_root_set r p :
  let r' := set_root_slot (Z.land (rt_seq r) 1) p r in
  let r2 := set_rt_seq (u64 (rt_seq r' + 1)) r' in
  names_root r (set_rt_crc (rt_crc r2) r2) p /\
  (rt_ok r -> 0 <= p < 2 ^ 64 -> rt_ok r2).
Proof.
  cbv zeta. split.
  - unfold names_root, root_slot, set_root_slot. destruct (slot_land (rt_seq r)) as [->| ->]; done.
  - intros [] Hp. unfold set_root_slot. destruct (_ =? 0); (split; cbn; try done; apply u64_range).
Qed.

Lemma root_publish_tot v l n base n' root m' k :
  engine v l n base -> tree_at v (log_block l) n' root m' -> m' <> ∅ -> (n' <= BT_MAX_DEPTH)%nat ->
  newer (current_root v) root k ->
  tot (mbuf_root_publish vol_delta_heal (bp_pba root) (bp_gen root)) v (fun _ v' =>
    engine v' l n' m' /\ gen_of (current_root v') = gen_of root /\
    root_slot (rt v') (last_slot v) = root_slot (rt v) (last_slot v) /\
    total_blocks (vsb v') = total_blocks (vsb v)).
Proof.
  intros He Ht Hne Hn' Hnew. pose proof (en_sound _ _ _ _ He) as Hs. destruct n' as [|h].
  { destruct Ht as (kvs & [_ ->] & <-). done. }
  destruct (tree_page v _ h root m' Hs Ht) as (Hp & Hl & Hn & Hv & Hg & _). pose proof Hl as (Hlt & _ & Hok & Hres & _).
  assert (Hp0 : 0 < bp_pba root) by (unfold reserved in Hres; lia).
  unfold mbuf_root_publish. apply tot_bind, tot_guard; [by rewrite (proj2 (Z.eqb_neq _ _) Hp)|].
  apply tot_bind, tot_mod. rewrite (en_rt _ _ _ _ He). apply tot_bind.
  destruct (mbuf_read_live (bp_pba root) v) as (v1 & E1 & Hs1 & Hq1 & Hc1); [apply Hs|lia|done|].
  exists (page_at v (bp_pba root)), v1. split; [done|]. apply tot_bind, tot_guard; [by rewrite Hv, Hg, Z.eqb_refl|].
  pose proof (follows_reads v v1 l n base He (reads_vsame v v1 Hs1 Hq1 Hc1)) as F1.
  apply tot_bind. eapply tot_mono; [exact (flush_tot v1 l n base (fo_engine _ _ _ F1 _ _ He))|]. intros [] v2 F2.
  pose proof (follows_trans _ _ _ _ F1 F2) as F12. clear F1 F2 E1 Hs1 Hq1 Hc1 v1.
  apply tot_bind, tot_mod. destruct (names_root_set (rt v2) (bp_pba root)) as [Hnm Hrok]. cbv zeta in *.
  set (r2 := set_rt_seq _ _) in *. clearbody r2. pose proof (fo_engine _ _ _ F12 _ _ He) as He2.
  apply tot_bind. eapply tot_mono.
  { rewrite <- (set_x_same v2) at 1.
    apply (store_tot vol_delta_heal v2 l n base r2 (v_x v2) He2); [|exact (heal_nothing v2 l (en_live _ _ _ _ He2))].
    apply Hrok; [apply (en_room _ _ _ _ He2)|]. pose proof (mw_size v (so_wf v Hs)). lia. }
  intros [] v3' (v3 & -> & F3). rewrite <- (fo_x _ _ _ F3), set_x_same. pose proof (follows_trans _ _ _ _ F12 F3) as F.
  pose proof (fo_engine _ _ _ F _ _ He) as He3. rewrite <- (fo_rt _ _ _ F3) in Hnm.
  assert (Hnew3 : newer (current_root v3) root k) by (destruct (fo_current _ _ _ F _ _ He) as [-> _]; done).
  destruct (named_base v3 (log_block l) n base (S h) root m' _ k (en_sound _ _ _ _ He3) (en_base _ _ _ _ He3)
    (follows_tree _ _ _ _ _ _ F Ht) Hne Hn' Hnew3 Hnm) as [Hb3 Hg3].
  assert (He4 : engine (set_rt (set_rt_crc (rt_crc r2) r2) v3) l (S h) m').
  { apply (engine_rt v3 l n base); [done| |apply Hnm|done]. apply rt_ok_crc, Hrok; [apply (en_room _ _ _ _ He2)|].
    pose proof (mw_size v (so_wf v Hs)). lia. }
  apply tot_bind. eapply tot_mono; [exact (barrier_tot _ l _ _ He4)|]. intros b v5 [-> F5]. apply tot_guard; [done|].
  split; [by apply (fo_engine _ _ _ F5)|]. split.
  { destruct (fo_current _ _ _ F5 _ _ He4) as [-> _]. exact Hg3. }
  split; [|rewrite (fo_total _ _ _ F5); exact (fo_total _ _ _ F)].
  destruct Hnm as (_ & Hj & _). rewrite (fo_rt _ _ _ F5), (fo_rt _ _ _ F) in *. exact Hj.
Qed.

(** ** The merge *)

Lemma ready_nothing v : mbuf_ready v = true -> ready v = (Some tt, v).
Proof. intros H. unfold ready, mmod. by rewrite H. Qed.

(** What keeps the generations of the roots growing: the row [k0] is there,
    and in the base unless that is empty. *)
Definition kept_row (k0 : bytes) (c : gmap bytes (Z * bytes)) (base : kmap) : Prop :=
  is_Some (over c base !! k0) /\ (base = ∅ \/ is_Some (base !! k0)).

Lemma kept_rooted k0 c base es : kept_row k0 c base -> lists es c -> rooted base es.
Proof.
  intros [Hm [->|Hb]] [Hn Hc]; [by left|right]. exists k0. split; [done|]. apply Forall_forall.
  intros e He%list_elem_of_In Hd <-. assert (Ec : c !! f_key e = Some (f_flags e, f_val e)) by (apply Hc; by destruct e).
  rewrite lookup_over, Ec in Hm. cbn in Hm. rewrite Hd in Hm. by destruct Hm.
Qed.

(** The root is named by a slot of the descriptor. *)
Definition in_slot (r : invfs_rt) (root : invfs_blkptr) : Prop :=
  bp_pba root = 0 \/ bp_pba root = root_slot0 r \/ bp_pba root = root_slot1 r.

Lemma slot_in r i root : i = 0 \/ i = 1 -> bp_pba root = root_slot r i -> in_slot r root.
Proof. unfold in_slot, root_slot. intros [->| ->]; auto. Qed.

Lemma current_slot v S n m :
  base_at v S n m -> bp_pba (current_root v) = 0 \/ bp_pba (current_root v) = root_slot (rt v) (last_slot v).
Proof.
  intros Hb. unfold current_root. destruct (offered v) as [[p g]|] eqn:Eo; [right|by left].
  rewrite (ba_last _ _ _ _ Hb) in Eo. by apply offer_some in Eo as (-> & _).
Qed.

(** The sizes within which the levels and the generations of the tree do not
    overflow; the depth follows from the number of blocks. *)
Definition within_limits v l : Prop :=
  total_blocks (vsb v) <= 2 ^ 32 /\ Z.of_nat (BT_MAX_DEPTH + size (content l)) < 2 ^ 16 /\
  gen_of (current_root v) + Z.of_nat (size (content l)) < 2 ^ 64 - 1.

Definition merged v l n base (r : option (invfs_blkptr * invfs_blkptr)) v' : Prop :=
  match r with
  | None => engine v' l n base /\ current_root v' = current_root v
  | Some (old, _) => in_slot (rt v') old /\
      exists n', engine v' l n' (over (content l) base) /\
      gen_of (current_root v') <= gen_of (current_root v) + Z.of_nat (size (content l))
  end /\ total_blocks (vsb v') = total_blocks (vsb v).

Lemma current_gen_pos v l n base : engine v l n base -> 0 <= gen_of (current_root v).
Proof.
  intros He. pose proof (ba_tree _ _ _ _ (en_base _ _ _ _ He)) as Ht. destruct n as [|h].
  - destruct Ht as (kvs & [Hp _] & _). unfold gen_of. by rewrite Hp.
  - destruct (tree_page _ _ _ _ _ (en_sound _ _ _ _ He) Ht) as (_ & _ & _ & _ & _ & Hg & _).
    unfold gen_of. by destruct (_ =? 0).
Qed.

Lemma refused_merge v l n base v' : engine v l n base -> follows l v v' -> merged v l n base None v'.
Proof.
  intros He F. split; [|apply F]. split; [by apply F|]. by apply (fo_current _ _ _ F n base).
Qed.

(** The merged tree made durable, checked and named. *)
Lemma name_ans v0 v l n base n' root m' k :
  engine v0 l n base -> follows l v0 v -> tree_at v (log_block l) n' root m' -> m' = over (content l) base -> m' <> ∅ ->
  newer (current_root v0) root k -> k = Z.of_nat (size (content l)) -> total_blocks (vsb v0) <= 2 ^ 32 ->
  ans (vol_bitmap_flush ;;;
       let* b := vol_barrier in
       mguard (fence_ok b) ;;;
       fold_verify root ;;;
       mbuf_root_publish vol_delta_heal (bp_pba root) (bp_gen root) ;;;
       mret (current_root v0, root)) v (merged v0 l n base).
Proof.
  intros He0 F Ht Em Hne Hnew Ek Htot. pose proof (fo_engine _ _ _ F _ _ He0) as He.
  apply ans_bind. eapply tot_mono; [exact (flush_tot v l n base He)|]. intros [] v1 F1.
  apply ans_bind. eapply tot_mono; [exact (barrier_tot v1 l n base (fo_engine _ _ _ F1 _ _ He))|]. intros b v2 [-> F2].
  apply ans_bind, tot_guard; [done|]. pose proof (follows_trans _ _ _ _ F (follows_trans _ _ _ _ F1 F2)) as F'.
  pose proof (follows_tree _ _ _ _ _ _ (follows_trans _ _ _ _ F1 F2) Ht) as Ht2.
  clear F F1 F2 He Ht v v1. pose proof (fo_engine _ _ _ F' _ _ He0) as He.
  eapply ans_seq; [exact (verify_run v2 l n base n' root m' He Ht2)| |].
  2: { intros v3 [Hrd _]. apply refused_merge; [done|]. eapply follows_trans; [exact F'|]. by eapply follows_reads. }
  intros [] v3 [Hrd Hh]. specialize (Hh eq_refl). pose proof (follows_reads v2 v3 l n base He Hrd) as F3.
  pose proof (follows_trans _ _ _ _ F' F3) as F. rewrite (fo_total _ _ _ F') in Hh.
  assert (Hn' : (n' <= BT_MAX_DEPTH)%nat).
  { destruct (decide (n' <= 32)%nat) as [|Hgt]; [done|]. assert (2 ^ 33 <= 2 ^ Z.of_nat n') by (apply Z.pow_le_mono_r; lia). lia. }
  apply ans_bind. eapply tot_mono.
  { apply (root_publish_tot v3 l n base n' root m' k); [by apply (fo_engine _ _ _ F)|exact (follows_tree _ _ _ _ _ _ F3 Ht2)|done|done|].
    destruct (fo_current _ _ _ F _ _ He0) as [-> _]. done. }
  intros [] v4 (He4 & Hg4 & Hsl & Ht4). apply ans_tot, tot_ret. split; [|by rewrite Ht4; apply F]. split.
  { destruct (fo_current _ _ _ F _ _ He0) as [<- _]. pose proof (fo_engine _ _ _ F _ _ He0) as He3.
    destruct (current_slot v3 _ _ _ (en_base _ _ _ _ He3)) as [E0|E0]; [by left|].
    apply (slot_in _ (last_slot v3)); [apply last_slot_range|]. by rewrite Hsl. }
  exists n'. rewrite <- Em. split; [done|]. rewrite Hg4, <- Ek. apply Hnew.
Qed.

Lemma over_rooted k0 c base : kept_row k0 c base -> over c base <> ∅.
Proof. intros [Hm _] E0. rewrite E0, lookup_empty in Hm. by destruct Hm. Qed.

Lemma rows_ent es c : lists es c -> rows_ok c -> Forall ent_row es.
Proof.
  intros [_ Hc] Hro. apply Forall_forall. intros e He%list_elem_of_In.
  assert (Ec : c !! f_key e = Some (f_flags e, f_val e)) by (apply Hc; by destruct e).
  by destruct (Hro _ _ Ec) as [[? _] _].
Qed.

Lemma build_ans v0 v l n base k0 es :
  engine v0 l n base -> follows l v0 v -> kept_row k0 (content l) base -> within_limits v0 l -> lists es (content l) ->
  ans (let* root := fold_apply es (current_root v0) in
       let* root := if bp_pba root =? 0
                    then empty_leaf (u64 ((if bp_pba (current_root v0) =? 0 then 0 else bp_gen (current_root v0)) + 1))
                    else mret root in
       vol_bitmap_flush ;;;
       let* b := vol_barrier in
       mguard (fence_ok b) ;;;
       fold_verify root ;;;
       mbuf_root_publish vol_delta_heal (bp_pba root) (bp_gen root) ;;;
       mret (current_root v0, root)) v (merged v0 l n base).
Proof.
  intros He0 F Hk (Htot & Hh & Hg) Hls. pose proof (lists_length es _ Hls) as Hlen.
  pose proof (fo_engine _ _ _ F _ _ He0) as He. pose proof (over_rooted _ _ _ Hk) as Hne.
  pose proof (ba_depth _ _ _ _ (en_base _ _ _ _ He0)) as Hd. pose proof (current_gen_pos v0 l n base He0) as Hg0.
  assert (Ht : tree_at v (log_block l) n (current_root v0) base).
  { destruct (fo_current _ _ _ F _ _ He0) as [<- _]. apply (en_base _ _ _ _ He). }
  apply (ans_seq _ _ _ (fun r v' => follows l v v' /\ forall root', r = Some root' ->
    newer (current_root v0) root' (zlen es) /\
    exists n', (n' <= n + length es)%nat /\ tree_at v' (log_block l) n' root' (foldl apply_ent base es))).
  - unfold ans. destruct (fold_apply es (current_root v0) v) as [r v'] eqn:Ea. cbn [fst snd].
    apply (fold_apply_run v l n base n (current_root v0) base es r v'); try done; [lia| |by eapply kept_rooted|lia].
    by apply (rows_ent es (content l)), He0.
  - intros root v1 [F1 Hr]. destruct (Hr root eq_refl) as [Hnew (n' & Hn' & Ht')]. rewrite (apply_over es (content l)) in Ht' by done.
    assert (Hp : bp_pba root <> 0).
    { destruct n' as [|h]; [destruct Ht' as (kvs & [_ ->] & Em); by destruct Hne|].
      by destruct (tree_page v1 _ h root _ (en_sound _ _ _ _ (fo_engine _ _ _ F1 _ _ He)) Ht') as (Hp & _). }
    rewrite (proj2 (Z.eqb_neq _ _) Hp). apply ans_bind, tot_ret.
    apply (name_ans v0 v1 l n base n' root _ (zlen es) He0 (follows_trans _ _ _ _ F F1) Ht'); [done|done|done|lia|done].
  - intros v1 [F1 _]. apply refused_merge; [done|]. by eapply follows_trans.
Qed.

Lemma merge_ans v l n base k0 :
  engine v l n base -> kept_row k0 (content l) base -> within_limits v l ->
  ans fold_merge v (merged v l n base).
Proof.
  intros He Hk Hlim. unfold fold_merge.
  apply ans_bind. eapply tot_mono; [exact (collect_tot v l (en_live _ _ _ _ He) (en_rows _ _ _ _ He))|].
  intros [rc l0] v1 (Erc & Hls & Hrd). cbn [fst snd] in *. subst rc. cbn [Z.eqb].
  pose proof (follows_reads v v1 l n base He Hrd) as F1. pose proof (fo_engine _ _ _ F1 _ _ He) as He1.
  apply ans_bind, tot_guard; [done|]. destruct (fold_sort_spec l0) as [Hperm _].
  pose proof (lists_perm _ _ _ Hperm Hls) as Hls'. set (es := fold_sort l0) in *. clearbody es. clear Hperm Hls.
  apply ans_bind. unfold vol_base_root. apply tot_bind. exists tt, v1.
  split; [exact (ready_nothing v1 (en_ready _ _ _ _ He1))|].
  eapply tot_mono; [exact (base_root_tot v1 _ n base (en_sound _ _ _ _ He1) (rm_rtok _ _ (en_room _ _ _ _ He1)) (en_rt _ _ _ _ He1) (en_base _ _ _ _ He1))|].
  intros r v2 [-> Hrd2]. pose proof (follows_trans _ _ _ _ F1 (follows_reads v1 v2 l n base He1 Hrd2)) as F2.
  destruct (fo_current _ _ _ F1 _ _ He) as [-> _]. exact (build_ans v v2 l n base k0 es He F2 Hk Hlim Hls').
Qed.

(** ** The reset of the log *)

(** The log is empty; the old segments [l] are on the volume still, owned by
    nobody. *)
Record cleared v0 l n base v : Prop := {
  cl_engine : engine v [] n base;
  cl_base : base_at v (log_block l) n base;
  cl_owned : owned v (log_block l);
  cl_chain : chain_ok v l;
  cl_current : current_root v = current_root v0;
  cl_roots : same_roots (rt v0) (rt v);
  cl_total : total_blocks (vsb v) = total_blocks (vsb v0)
}.

Lemma no_log_block b : ~ log_block [] b.
Proof. by intros (s & ?%not_elem_of_nil & _). Qed.

(** Only the log part of the handle, block 0 and the anchor changed. *)
Lemma cleared_beside v v' l n base :
  engine v l n base -> DeltaLog.live v' [] -> DeltaAppend.room v' [] -> beside (log_or_anchor v []) v v' ->
  cleared v l n base v'.
Proof.
  intros He Hl Hr Hbe. pose proof (so_wf v (en_sound _ _ _ _ He)) as Hw.
  assert (Hc : carried v (log_block []) v' (log_block [])) by (apply carried_beside; [done|by left|done]).
  destruct (engine_beside v v' l [] n base He Hl Hr I) as [He' Ec]; [apply map_Forall_empty|done|by intros b ?%no_log_block|].
  pose proof Hbe as [Hst Hv (q & f & Es) _ _ _ _ Hrt _].
  split; [done| | | |done|by apply Hrt, He|by rewrite Es].
  - apply (carried_base v (log_block l) v' (log_block l)); [|by apply Hrt, He|apply He].
    intros p Hp Hn. destruct (Hc p Hp (no_log_block p)) as (? & _ & ?). by split_and!.
  - intros p Hp. destruct (Hc p) as (? & _); [|apply no_log_block|done].
    by apply (log_owned v l (en_live _ _ _ _ He) (en_room _ _ _ _ He) (en_sound _ _ _ _ He) (en_boot _ _ _ _ He)).
  - apply (chain_frame v v' l Hst); [by rewrite Es|apply He| |apply (en_live _ _ _ _ He)].
    intros s a Hs Ha Hb Hna. apply Hv; [done|]. intros [Hx|?%no_log_block]; [|done].
    apply Hna. unfold in_anc. apply block_at in Hx. exact Hx.
Qed.

Lemma room_nil v v' l r x :
  DeltaAppend.room v l -> rt_ok r -> v' = set_rt r (set_v_x x v) -> DeltaAppend.room v' [].
Proof.
  intros [R1 R2 R2z R3 R4 R5 R6 R7 R8 R9] Hr ->. split; try done; [by intros s j ?%not_elem_of_nil|by intros s ?%not_elem_of_nil].
Qed.

Lemma beside_reset P v r x :
  faultless v -> (rt_present v = true -> same_roots (rt v) r) -> beside P v (set_rt r (set_v_x x v)).
Proof.
  intros Hq Hr. split; try done; auto.
  - exists (sb_state (vsb v)), (vol_flags (vsb v)). apply sb_same_state.
  - by intros ?.
Qed.

Lemma reset_tot v l n base :
  engine v l n base -> tot (fold_delta_reset E) v (fun _ v' => cleared v l n base v').
Proof.
  intros He. unfold fold_delta_reset. apply tot_bind, tot_on_x. set (x := vol_delta_close (v_x v)).
  assert (Hx : v_sb_rest x = v_sb_rest (v_x v)) by done. clearbody x.
  apply tot_bind, tot_mod, tot_bind, tot_mod. change (rt_present (set_rt _ _)) with (rt_present v). rewrite (en_rt _ _ _ _ He).
  change (rt (set_v_x x v)) with (rt v). set (r := set_rt_delta 0 (rt v)).
  assert (Hr : rt_ok r) by (apply set_rt_delta_ok; [done|apply (rm_rtok _ _ (en_room _ _ _ _ He))]).
  apply tot_bind. eapply tot_mono; [apply (store_tot heal_locked v l n base r x He Hr); done|].
  intros [] w1 (v1 & -> & F1). pose proof (fo_engine _ _ _ F1 _ _ He) as He1.
  assert (Hr' : rt_ok (set_rt_crc (rt_crc r) r)) by by apply rt_ok_crc.
  assert (Hsr : same_roots (rt v1) (set_rt_crc (rt_crc r) r)) by (rewrite (fo_rt _ _ _ F1); done).
  assert (Hd0 : delta_pba (set_rt_crc (rt_crc r) r) = 0) by done.
  set (r' := set_rt_crc _ r) in *. clearbody r'. clear r Hr.
  apply tot_bind, tot_barrier; [exact (lv_faultless _ _ (en_live _ _ _ _ He1))|]. intros d w2 Hst2 Hv2.
  apply tot_bind, tot_guard; [done|].
  assert (F2 : follows l v1 (set_v_dev d v1)).
  { apply (follows_dev v1 d l n base He1); [by destruct Hst2; split|]. intros a Ha _. by apply (Hv2 a), devt_block0. }
  pose proof (fo_engine _ _ _ F2 _ _ He1) as He2. set (v2 := set_v_dev d v1) in *.
  change w2 with (set_rt r' (set_v_x x v2)). clear Hst2 Hv2 w2.
  assert (Hm : mountable (set_rt r' (set_v_x x v2)) []).
  { pose proof (lv_sb _ _ (en_live _ _ _ _ He2)) as [S1 S2 S3 S4 S5].
    split; [exact (lv_faultless _ _ (en_live _ _ _ _ He2))|exact I|by right|by eapply room_nil; [apply He2| |]| |].
    - split; cbn [v_x set_v_x set_rt]; rewrite ?Hx, <- ?(fo_x _ _ _ F1), <- ?(fo_x _ _ _ F2); done.
    - apply Nat.leb_le. reflexivity. }
  apply tot_bind. eapply tot_mono; [exact (mount_tot E _ [] Hm)|]. intros [] v3 (Hl3 & Hr3 & Ha3).
  apply tot_on_x. set (v4 := set_v_x _ v3).
  assert (Hcl : cleared v2 l n base v4).
  { apply cleared_beside; [done| | |].
    - destruct Hl3 as [L1 L2 L3 L4 L5 L6 L7 L8 []]. by split.
    - destruct Hr3. by split.
    - apply (beside_trans _ v2 (set_rt r' (set_v_x x v2))); [apply beside_reset; [apply (en_live _ _ _ _ He2)|by intros _]|].
      apply beside_aside. destruct Ha3 as (A1 & A2 & A3). split_and!; [|by apply (steady_dev v3)|done].
      unfold v4, same_rest in *. rewrite A1. done. }
  destruct Hcl as [C1 C2 C3 C4 C5 C6 C7]. pose proof (follows_trans _ _ _ _ F1 F2) as F. split; try done.
  - rewrite C5. by apply (fo_current _ _ _ F n base).
  - by rewrite <- (fo_rt _ _ _ F).
  - rewrite C7. apply F.
Qed.

(** ** The old segments given back *)

(** Nobody needs the blocks [S] any more. *)
Record idle v0 S n base v : Prop := {
  id_engine : engine v [] n base;
  id_base : base_at v S n base;
  id_owned : owned v S;
  id_current : current_root v = current_root v0;
  id_roots : same_roots (rt v0) (rt v);
  id_total : total_blocks (vsb v) = total_blocks (vsb v0)
}.

Lemma idle_sub v0 (S S' : Z -> Prop) n base v : (forall q, S' q -> S q) -> idle v0 S n base v -> idle v0 S' n base v.
Proof.
  intros HS [H1 H2 H3 H4 H5 H6]. split; [done| | |done|done|done].
  - apply (carried_base v S v S'); [|apply same_roots_refl|done]. intros q Hq Hn.
    split; [done|]. split; [|done]. intros Hs. by apply Hn, HS.
  - intros q Hq. by apply H3, HS.
Qed.

Lemma free_tot v0 S n base v p :
  idle v0 S n base v -> S p ->
  tot (mbuf_free p) v (fun _ v' => idle v0 (fun q => S q /\ q <> p) n base v' /\ steady v v' /\ forall a, view v' a = view v a).
Proof.
  intros [He Hb Ho Hc Hr Ht] Hp. destruct (mbuf_free p v) as [r v'] eqn:Ef.
  destruct (moves_free none p v r v' (en_sound _ _ _ _ He) (Ho p Hp) Ef) as (-> & M & _ & _).
  exists tt, v'. split; [done|]. pose proof (sy_rest M) as Hre. destruct (moves_sb _ _ _ _ M) as [f Es].
  assert (Hlive : forall q, Metabuf.live v q -> q <> p -> Metabuf.live v' q /\ page_at v' q = page_at v q).
  { intros q Hq Hne. apply (moves_live _ _ _ _ q M Hq); [by intros []|]. by intros ->. }
  assert (Hcar : carried v S v' (fun q => S q /\ q <> p)).
  { intros q Hq Hn. destruct (Hlive q Hq) as [H1 H2]; [by intros ->|]. 
    exact (conj H1 (conj (fun H => Hn (proj1 H)) H2)). }
  destruct (carried_base v S v' _ n base Hcar) as (Hb' & Ec & _); [rewrite Hre; apply same_roots_refl|done|].
  split; [|split; [by eapply moves_steady|]].
  - split; [|done| |congruence|by rewrite Hre|by rewrite Es].
    + eapply engine_moves; [exact He|exact M|by intros q ?%no_log_block|].
      apply (carried_base v' (fun q => S q /\ q <> p) v' (log_block [])); [|apply same_roots_refl|done].
      intros q Hq _. exact (conj Hq (conj (no_log_block q) eq_refl)).
    + intros q [Hq Hne]. by apply (Hlive q (Ho q Hq)).
  - intros a. apply (sy_view M). by intros [].
Qed.

Lemma free_span_tot v0 n base bs : forall S v,
  idle v0 S n base v -> NoDup bs -> (forall q, q ∈ bs -> S q) ->
  tot (free_span bs) v (fun _ v' => idle v0 (fun q => S q /\ q ∉ bs) n base v' /\ steady v v' /\ forall a, view v' a = view v a).
Proof.
  induction bs as [|b bs IH]; intros S v Hi Hn HS; cbn [free_span].
  - apply tot_ret. split; [|split; [apply steady_refl, (en_live _ _ _ _ (id_engine _ _ _ _ _ Hi))|done]].
    eapply idle_sub; [|exact Hi]. by intros q [? _].
  - apply list.NoDup_cons in Hn as [Hb Hn]. apply tot_bind.
    eapply tot_mono; [apply (free_tot v0 S n base v b Hi), HS; left|]. intros [] v1 (Hi1 & Hst1 & Hv1).
    eapply tot_mono; [apply (IH _ v1 Hi1 Hn)|].
    + intros q Hq. split; [apply HS; by right|]. by intros ->.
    + intros [] v2 (Hi2 & Hst2 & Hv2). split; [|split; [by eapply steady_trans|by intros; rewrite Hv2]].
      eapply idle_sub; [|exact Hi2]. intros q [Hq Hnq]. apply not_elem_of_cons in Hnq as [? ?]. done.
Qed.

Lemma hdr_fields raw h :
  delta_hdr_decode raw = Some h ->
  slice raw 0 4 = INVFS_DELTA_SEG_MAGIC /\ h = mkSegHdr (dl_rd64be raw 16) (dl_rd64be raw 24) (dl_rd64be raw 32).
Proof.
  unfold delta_hdr_decode. destruct (bool_decide_reflect (slice raw 0 4 = INVFS_DELTA_SEG_MAGIC)) as [Em|];
    [|by rewrite orb_true_r].
  repeat (case_match; [done|]). intros [= <-]. by split.
Qed.

Lemma idle_hdr_tot v prev s :
  faultless v -> seg_ok v prev s ->
  tot (reclaim_delta_read_hdr (sg_pba s)) v (fun h v' => prev_pba h = prev /\ reads v v').
Proof.
  intros Hq Hs. pose proof (sk_pba v prev s Hs) as Hp. pose proof (sk_end v prev s Hs) as Hend.
  unfold reclaim_delta_read_hdr. apply tot_bind, tot_get. apply tot_bind, tot_guard.
  { by rewrite (proj2 (Z.eqb_neq _ _)), (proj2 (Z.leb_gt _ _)) by (unfold INVFS_DELTA_SEG_BLOCKS in *; lia). }
  apply tot_bind, tot_pread; [done| |].
  { pose proof (sk_may v prev s Hs 0 INVFS_DELTA_SEG_HDR_LEN) as Hm. rewrite Z.add_0_r in Hm. by apply Hm. }
  intros d v' Hst Hv.
  assert (Eh : vrange v (sg_pba s * INVFS_BLOCK_SIZE) INVFS_DELTA_SEG_HDR_LEN = delta_hdr_encode (sg_seq s) prev).
  { pose proof (vrange_sub v _ _ 0 INVFS_DELTA_SEG_HDR_LEN _ (sk_image v prev s Hs)) as Hsub. rewrite Z.add_0_r in Hsub.
    rewrite Hsub by done. apply slice_app_l. apply length_hdr. }
  pose proof (hdr_roundtrip (sg_seq s) prev [] (sk_seq v prev s Hs) (sk_prev v prev s Hs)) as Hdec.
  rewrite app_nil_r, <- Eh in Hdec. apply hdr_fields in Hdec as [Hmag Hh].
  apply tot_bind, tot_guard; [by apply bool_decide_eq_true|]. apply tot_ret. rewrite <- Hh. split; [done|]. by apply reads_step.
Qed.

Lemma span_blocks s q : q ∈ seqZ (sg_pba s) INVFS_DELTA_SEG_BLOCKS <-> sg_pba s <= q < sg_pba s + INVFS_DELTA_SEG_BLOCKS.
Proof. rewrite elem_of_seqZ. unfold INVFS_DELTA_SEG_BLOCKS. lia. Qed.

(** The blocks of the rest of a chain are not among those of its head. *)
Lemma log_block_rest v s l q :
  chain_ok v (s :: l) -> log_block l q -> log_block (s :: l) q /\ q ∉ seqZ (sg_pba s) INVFS_DELTA_SEG_BLOCKS.
Proof.
  intros (_ & Hap & _) (s' & Hs & Hq). split; [exists s'; split; [by right|done]|]. rewrite span_blocks.
  rewrite Forall_forall in Hap. specialize (Hap s' (proj1 (list_elem_of_In _ _) Hs)). unfold apart_segs in Hap. lia.
Qed.

Lemma reclaim_tot v0 n base fuel : forall l v freed,
  idle v0 (log_block l) n base v -> chain_ok v l ->
  tot (reclaim_loop fuel (head_pba l) 0 freed) v (fun _ v' => idle v0 none n base v').
Proof.
  induction fuel as [|fuel IH]; intros l v freed Hi Hc; cbn [reclaim_loop].
  { apply tot_ret. eapply idle_sub; [|exact Hi]. by intros q []. }
  destruct l as [|s l].
  { apply tot_ret. eapply idle_sub; [|exact Hi]. by intros q []. }
  pose proof Hc as (Hs & Hap & Hc'). pose proof (sk_pba _ _ _ Hs) as Hp. pose proof (sk_end _ _ _ Hs) as Hend.
  cbn [head_pba]. rewrite (proj2 (Z.eqb_neq (sg_pba s) 0)) by lia.
  apply tot_bind, tot_try. eapply tot_mono; [exact (idle_hdr_tot v _ s (lv_faultless _ _ (en_live _ _ _ _ (id_engine _ _ _ _ _ Hi))) Hs)|].
  intros h v1 [Eh Hrd]. pose proof Hrd as (Ev1 & Hst1 & Hv1). cbn [Z.eqb orb].
  assert (Hi1 : idle v0 (log_block (s :: l)) n base v1).
  { destruct Hi as [He Hb Ho Hcur Hro Ht]. pose proof (reads_stays v v1 (en_sound _ _ _ _ He) Hrd) as M.
    assert (Hcar : carried v (log_block (s :: l)) v1 (log_block (s :: l))).
    { intros q Hq Hn. destruct (moves_live _ _ _ _ q M Hq) as [H1 H2]; [by intros []..|]. exact (conj H1 (conj Hn H2)). }
    destruct (carried_base _ _ _ _ n base Hcar) as (Hb1 & Ec1 & _); [rewrite Ev1; apply same_roots_refl|done|].
    split; [by apply (engine_reads v v1)|exact Hb1| |congruence|by rewrite Ev1|by rewrite Ev1].
    intros q Hq. destruct (moves_live _ _ _ _ q M (Ho q Hq)) as [H1 _]; [by intros []..|exact H1]. }
  apply tot_bind, tot_bind, tot_get. rewrite Ev1 at 1. change (vsb (set_v_dev _ v)) with (vsb v).
  rewrite Z.min_l by done. replace (sg_pba s + INVFS_DELTA_SEG_BLOCKS - sg_pba s) with INVFS_DELTA_SEG_BLOCKS by lia.
  apply tot_bind. eapply tot_mono; [apply (free_span_tot v0 n base _ _ v1 Hi1 (NoDup_seqZ _ _))|].
  { intros q Hq%span_blocks. exists s. split; [left|done]. }
  intros [] v2 (Hi2 & Hst2 & Hv2). apply tot_ret. rewrite Eh.
  destruct (head_pba l =? sg_pba s).
  { apply tot_ret. eapply idle_sub; [|exact Hi2]. by intros q []. }
  apply IH.
  - eapply idle_sub; [|exact Hi2]. intros q Hq. by eapply log_block_rest.
  - apply (chain_ok_ext v v2 l); [by eapply steady_trans| |by intros; rewrite Hv2, Hv1|done].
    rewrite (id_total _ _ _ _ _ Hi2), (id_total _ _ _ _ _ Hi). done.
Qed.

(** ** The fold *)

Lemma names_head v l n base : engine v l n base -> delta_pba (rt v) = head_pba l.
Proof.
  intros He. pose proof (lv_root _ _ (en_live _ _ _ _ He)) as Hn. destruct l as [|s l]; [|by destruct Hn].
  destruct Hn as [Hn|?]; [|done]. by rewrite (en_rt _ _ _ _ He) in Hn.
Qed.

(** No collection of orphans: readers are in flight, or it is switched off. *)
Definition no_collection (drained : bool) : Prop := drained = false \/ orphan_gate genv = false.

Lemma hook_tot v old root drained :
  no_collection drained -> in_slot (rt v) old ->
  tot (fold_reclaim_hook genv senv drained old root) v (fun _ v' => v' = v).
Proof.
  intros Hd Hs. unfold fold_reclaim_hook. destruct drained; cbn [negb]; [|by apply tot_ret].
  destruct Hd as [?|Hd]; [done|].
  assert (Hno : forall w : V, tot (let* _ := mtry (vol_reclaim_orphans genv senv) in mret tt) w (fun _ v' => v' = w)).
  { intros w. unfold vol_reclaim_orphans, orph_gated. rewrite Hd. apply tot_bind, tot_try. by apply tot_ret, tot_ret. }
  apply tot_bind, tot_get. destruct (_ && _) eqn:Eb; [apply Hno|].
  assert (E0 : bp_pba old = 0).
  { destruct Hs as [?|[Hs|Hs]]; [done|..]; rewrite Hs, Z.eqb_refl in Eb; cbn in Eb; rewrite ?orb_true_r, andb_true_r in Eb;
      apply negb_false_iff, Z.eqb_eq in Eb; congruence. }
  apply tot_bind, tot_try. unfold vol_reclaim_mark_and_free, btree_reclaim_pinned. rewrite E0.
  apply tot_bind, tot_get, tot_ret. apply Hno.
Qed.

Lemma finish_tot v l n base old root drained :
  engine v l n base -> no_collection drained -> in_slot (rt v) old ->
  tot (fold_finish E genv senv drained old root) v (fun _ v' => engine v' [] n base /\
    current_root v' = current_root v /\ total_blocks (vsb v') = total_blocks (vsb v)).
Proof.
  intros He Hd Hs. unfold fold_finish. apply tot_bind, tot_get. rewrite (names_head v l n base He).
  apply tot_bind, tot_try. eapply tot_mono; [exact (reset_tot v l n base He)|]. intros [] v1 [C1 C2 C3 C4 C5 C6 C7].
  assert (Hi : idle v (log_block l) n base v1) by done.
  apply tot_bind, tot_try. apply (tot_mono _ _ (fun _ v' => idle v none n base v')).
  { unfold vol_reclaim_delta_segments. destruct (_ =? 0); [|by apply (reclaim_tot v n base _ l)].
    apply tot_ret. eapply idle_sub; [|exact Hi]. by intros q []. }
  intros _ v2 [I1 I2 _ I4 I5 I6].
  apply tot_bind, tot_try. eapply tot_mono; [apply (hook_tot v2 old root drained Hd)|].
  { destruct I5 as (E0 & E1 & _). unfold in_slot in *. by rewrite E0, E1. }
  intros [] v3 ->. by apply tot_ret.
Qed.

(** What a fold makes of the volume: the log is empty and the base is the map
    of both tiers, or nothing happened. *)
Definition folded v l n base (r : option unit) v' : Prop :=
  exists l' n' base', engine v' l' n' base' /\ over (content l') base' = over (content l) base /\
    (match r with Some _ => content l' = ∅ | None => l' = l /\ base' = base /\ n' = n end) /\
    (l' = l \/ l' = []) /\
    gen_of (current_root v') + Z.of_nat (size (content l')) <= gen_of (current_root v) + Z.of_nat (size (content l)) /\
    total_blocks (vsb v') = total_blocks (vsb v) /\ (base' = base \/ base' = over (content l) base).

Lemma count_content v l n base : engine v l n base -> vol_delta_count v = 0 -> content l = ∅.
Proof.
  intros He. destruct (lv_index _ _ (en_live _ _ _ _ He)) as (di & Hdi & Hok & Hm). unfold vol_delta_count. rewrite Hdi.
  rewrite <- di_size by done. intros E0. apply map_eq. intros k. rewrite lookup_empty.
  pose proof (places_content l k) as Ha. rewrite <- Hm, lookup_fmap in Ha.
  assert (Ei : di_map di = ∅) by (apply map_size_empty_inv; lia). rewrite Ei, lookup_empty in Ha. cbn in Ha.
  by destruct (content l !! k).
Qed.

Lemma fold_ans v l n base k0 drained :
  engine v l n base -> kept_row k0 (content l) base -> within_limits v l -> no_collection drained ->
  ans (vol_fold E genv senv drained) v (folded v l n base).
Proof.
  intros He Hk Hlim Hd.
  assert (Hsame : forall r, match r with Some _ => content l = ∅ | None => True end -> folded v l n base r v).
  { intros r Hr. exists l, n, base. split_and!; auto; [by destruct r|lia]. }
  unfold vol_fold. apply ans_bind, tot_get.
  destruct (flag_set (vsb v) VOLF_META); [|by apply (ans_fail _ _ _ v), Hsame]. apply ans_bind, tot_guard; [done|].
  destruct (flag_set (vsb v) VOLF_READONLY); [by apply (ans_fail _ _ _ v), Hsame|]. apply ans_bind, tot_guard; [done|].
  destruct (Z.eqb_spec (vol_delta_count v) 0) as [E0|_].
  { apply ans_tot, tot_ret, Hsame. by eapply count_content. }
  apply ans_bind. exists tt, v. split; [exact (heal_nothing v l (en_live _ _ _ _ He) v eq_refl)|].
  apply ans_bind, tot_get. destruct (fold_space_ok v); [|by apply (ans_fail _ _ _ v), Hsame]. apply ans_bind, tot_guard; [done|].
  eapply ans_seq; [exact (merge_ans v l n base k0 He Hk Hlim)| |].
  - intros [old root] v1 [(Hsl & n' & He1 & Hg) Ht]. cbn [fst snd]. apply ans_tot.
    eapply tot_mono; [exact (finish_tot v1 l n' _ old root drained He1 Hd Hsl)|]. intros [] v2 (He2 & Ec2 & Ht2).
    exists [], n', (over (content l) base). split_and!; auto; [by apply over_empty| |congruence]. rewrite Ec2.
    change (content []) with (∅ : gmap bytes (Z * bytes)). rewrite map_size_empty. lia.
  - intros v1 [[He1 Ec1] Ht]. exists l, n, base. split_and!; auto. rewrite Ec1. lia.
Qed.

(** ** Results *)


End fold.

(** ** Examples *)

(** Blocks 2 to 24 are free metadata. *)
Definition demo_meta_sb : superblock :=
  mkSb (zeros 16) 0 4096 100 1 24 25 5 30 70 0 2 VOLF_META 0 0 0 0.
Definition demo_meta : vol Mem.mem dlog :=
  mkVol (Mem.mkMem (fun _ => 0)) (alloc_state_reset (mkAvol demo_meta_sb (3 :: zeros 12) 1 None None (mkZone 0 0 0)
    (mkZone 0 0 0) (mkZone 0 0 0) 0 0 98 0 1 0 1 0 false false false None None 0)) 0 0 1 0 true rt_fresh AnchorOk anc_zero
    false false (zeros 32) orph_init true null_ptr null_ptr demo_x.

Lemma demo_meta_wf : ps_wf demo_meta.
Proof.
  split; try done.
  - intros p [H1 H2]. change (1 <= p) in H1. change (p < 1 + 1) in H2. by replace p with 1 by lia.
  - by intros p [? _].
Qed.

Lemma demo_meta_room : ps_room demo_meta 20.
Proof.
  split; [done|]. split; [done|]. exists (seqZ 2 20). split; [apply NoDup_seqZ|]. split; [|rewrite length_seqZ; lia].
  apply Forall_forall. intros p Hp%list_elem_of_In%elem_of_seqZ. split; [change (1 <= p < 1 + 24); lia|].
  assert (Hall : forallb (fun p => negb (bitv demo_meta p)) (seqZ 2 20) = true) by (vm_compute; reflexivity).
  rewrite forallb_forall in Hall. apply negb_true_iff, Hall, list_elem_of_In, elem_of_seqZ. lia.
Qed.

Lemma demo_meta_quiet : ps_quiet demo_meta.
Proof. by split. Qed.

(** A volume whose base is a tree of one pair. *)
Lemma demo_tree :
  exists root (v : vol Mem.mem dlog), ps_wf v /\ ps_quiet v /\ ps_room v 10 /\ holds 1 v root {[ [1] := [7] ]}.
Proof.
  destruct (wp_run _ 1 19 _ _ _ (wp_upsert True 0 demo_meta null_ptr [] [1] [7] (conj eq_refl eq_refl)
    eq_refl (demo_pair_ok 1 7 eq_refl) (fun _ => eq_refl)) I demo_meta_wf demo_meta_quiet demo_meta_room)
    as (root & v & _ & Hw & _ & (_ & n & Hn & Hh) & Hq & Hr).
  exists root, v. split; [done|]. split; [done|]. split; [eapply ps_room_le; [|exact Hr]; lia|].
  destruct n as [|[|n]]; [by destruct Hh| |lia]. by exists [([1], [7])].
Qed.

Lemma fold_restarts_generation_witness :
  exists root (v : vol Mem.mem dlog) root' v',
    holds 1 v root {[ [1] := [7] ]} /\
    fold_apply [mkFold [1] [] INVFS_DELTA_FLAG_DELETE; mkFold [2] [8] 0] root v = (Some root', v') /\
    holds 1 v' root' {[ [2] := [8] ]} /\ bp_gen root' = 1.
Proof.
  destruct demo_tree as (root & v & Hw & Hq & Hr & Hh). exists root, v.
  destruct (wp_run _ (delete_room 1 + 1) 5 _ _ _ (fold_restarts_generation v root [1] [7] [2] [8] 1 Hh ltac:(lia)
    (demo_pair_ok 2 8 eq_refl)) (conj eq_refl eq_refl) Hw Hq Hr) as (root' & v' & E & _ & _ & (H & Hg & _) & _).
  by exists root', v'.
Defined.

(** The log of one record over the empty base, mounted. *)
Definition demo_mounted : vol Mem.mem dlog := snd (vol_delta_mount demo_env demo_one).

Lemma demo_grounds : grounds demo_one.
Proof.
  split; try done; [|by intros p [? _]]. split; [|done|done]. split; try done.
  - intros p [H1 H2]. change (1 <= p) in H1. change (p < 1 + 1) in H2. by replace p with 1 by lia.
  - by intros p [? _].
Qed.

Lemma demo_base S : base_at demo_one S 0 ∅.
Proof.
  split.
  - exists []. split; [by split|done].
  - apply Nat.leb_le. reflexivity.
  - intros i [->| ->]; by left.
  - reflexivity.
  - by split.
Qed.

Lemma demo_rows : rows_ok (content [demo_seg]).
Proof.
  assert (E1 : content [demo_seg] = {[ [107] := (0, [118; 119]) ]}) by (vm_compute; reflexivity). rewrite E1.
  apply map_Forall_singleton. split; [|by left]. split; [|done].
  split_and!; [by apply bytes_okb_ok|done|by apply bytes_okb_ok|done].
Qed.

Lemma demo_engine : engine demo_mounted [demo_seg] 0 ∅ /\ current_root demo_mounted = null_ptr /\
  total_blocks (vsb demo_mounted) = 100.
Proof.
  destruct (engine_mount demo_env demo_one [demo_seg] 0 ∅ demo_mountable demo_grounds) as ([] & v & Em & He & Ec & Et);
    [reflexivity|exact demo_rows|apply demo_base|].
  unfold demo_mounted. rewrite Em. split; [exact He|]. split; [exact Ec|exact Et].
Qed.

Lemma demo_kept : kept_row [107] (content [demo_seg]) ∅.
Proof. split; [exists [118; 119]; vm_compute; reflexivity|by left]. Qed.

Lemma demo_limits : within_limits demo_mounted [demo_seg].
Proof.
  destruct demo_engine as (_ & Ec & Et). unfold within_limits. rewrite Ec, Et.
  split; [done|]. split; vm_compute; reflexivity.
Qed.


End FoldSpec.
