(* ===== verification/EngineSession.v ===== *)
(** * Sessions of the engine

    Sequences of the point operations of the overlay, with drains, remounts and
    folds between them, against one finite map from keys to values. *)

From S2P Require Import Prelude Dev Mem Alloc Volume Anchor Page PageLogic Metabuf MetaLive Keys Kv Node BTree TreeSpec Check Frame Orphans.
From S2P Require Import DeltaIndex DeltaRec Delta DeltaLog DeltaAppend DeltaSession Overlay Engine Fold FoldSpec.

Module EngineSession.
Import Alloc Volume Anchor Page PageLogic Metabuf MetaLive Keys Kv Node BTree TreeSpec Check Frame Orphans.
Import DeltaIndex DeltaRec Delta DeltaLog DeltaAppend DeltaSession Overlay Engine Fold FoldSpec Mem.

Section session.
Context {D : Type} `{!Dev D, !DevLaws D} (E : penv) (RC : retire_calls (vol D dlog)).
Context (genv senv : option bytes).
(** A row that is never deleted, as that of the root directory. *)
Context (k0 : bytes).
Abbreviation V := (vol D dlog).
Implicit Types (v : V) (l : list seg).

Inductive eop :=
  | EPut (key val : bytes)
  | EDel (key : bytes)
  | EGet (key : bytes) (cap : Z)
  | EExists (key : bytes)
  | EDrain
  | EMount
  | EFold (drained : bool).

(** What the caller sees: [EDone] of the calls that only succeed or fail. *)
Inductive eres :=
  | EDone (ok : bool)
  | EValue (r : option bytes)
  | EAnswer (b : bool)
  | EFence (b : barrier_rc).

Definition reply {A} (f : A -> eres) (m : M V A) : V -> eres * V := fun v =>
  let '(r, v') := m v in (match r with Some a => f a | None => EDone false end, v').

Definition perform (o : eop) : V -> eres * V :=
  match o with
  | EPut key val => reply (fun _ => EDone true) (delta_put E RC key val)
  | EDel key => reply (fun _ => EDone true) (delta_del E RC key)
  | EGet key cap => reply EValue (overlay_get_key key cap)
  | EExists key => reply EAnswer (overlay_exists key)
  | EDrain => reply EFence (vol_delta_drain RC)
  | EMount => reply (fun _ => EDone true) (vol_delta_mount E)
  | EFold drained => reply (fun _ => EDone true) (vol_fold E genv senv drained)
  end.

Fixpoint perform_all (os : list eop) (v : V) : list eres * V :=
  match os with
  | [] => ([], v)
  | o :: os => let '(r, v) := perform o v in let '(rs, v) := perform_all os v in (r :: rs, v)
  end.

(** The contract: a map from keys to values.  A write may be refused, and
    then nothing happened; a value that does not fit the caller's buffer is an
    error; a fold, whether done or refused, is not visible. *)
Inductive map_step (m : kmap) : eop -> eres -> kmap -> Prop :=
  | MPut key val : map_step m (EPut key val) (EDone true) (<[key := val]> m)
  | MPutRefused key val : map_step m (EPut key val) (EDone false) m
  | MDel key : map_step m (EDel key) (EDone true) (delete key m)
  | MDelRefused key : map_step m (EDel key) (EDone false) m
  | MMiss key cap : m !! key = None -> map_step m (EGet key cap) (EValue None) m
  | MGet key cap val : m !! key = Some val -> zlen val <= cap -> map_step m (EGet key cap) (EValue (Some val)) m
  | MLong key cap val : m !! key = Some val -> cap < zlen val -> map_step m (EGet key cap) (EDone false) m
  | MExists key : map_step m (EExists key) (EAnswer (is_some (m !! key))) m
  | MDrain : map_step m EDrain (EFence BarOk) m
  | MMount : map_step m EMount (EDone true) m
  | MFold drained ok : map_step m (EFold drained) (EDone ok) m.

Inductive map_run : kmap -> list eop -> list eres -> kmap -> Prop :=
  | MNil m : map_run m [] [] m
  | MCons m o r m' os rs m'' : map_step m o r m' -> map_run m' os rs m'' -> map_run m (o :: os) (r :: rs) m''.

Definition eop_ok (o : eop) : Prop :=
  match o with
  | EPut key val => row_ok key val
  | EDel key => row_ok key [] /\ key <> k0
  | EGet key cap => key <> [] /\ 0 <= cap
  | EExists key => key <> []
  | EDrain | EMount => True
  | EFold drained => no_collection genv drained
  end.

(** The volume holds the map [m]; [l] is how it is split. *)
Definition holds_map v l (m : kmap) : Prop :=
  exists n base, engine v l n base /\ m = over (content l) base /\ kept_row k0 (content l) base.

(** Room for [N] more calls: in the chain of segments, in the levels and in
    the generations of the tree. *)
Definition budget v l (N : nat) : Prop :=
  (length l + N <= DELTA_MAX_SEGMENTS)%nat /\ total_blocks (vsb v) <= 2 ^ 32 /\
  Z.of_nat (BT_MAX_DEPTH + size (content l) + N) < 2 ^ 16 /\
  gen_of (current_root v) + Z.of_nat (size (content l) + N) < 2 ^ 64 - 1.

(** One call: the volume holds what the contract says, and one call's room
    is used at most. *)
Definition stepped v l (m : kmap) (o : eop) (rv : eres * V) : Prop :=
  exists l' m', holds_map (snd rv) l' m' /\ map_step m o (fst rv) m' /\
    forall N, budget v l (S N) -> budget (snd rv) l' N.

Lemma reply_tot {A} (f : A -> eres) (m : M V A) v l mp o (Q : A -> V -> Prop) :
  tot m v Q -> (forall a v', Q a v' -> stepped v l mp o (f a, v')) -> stepped v l mp o (reply f m v).
Proof. intros (a & v' & Em & HQ) H. unfold reply. rewrite Em. by apply H. Qed.

Lemma budget_same v v' l N :
  current_root v' = current_root v -> total_blocks (vsb v') = total_blocks (vsb v) -> budget v l (S N) -> budget v' l N.
Proof. unfold budget. intros -> -> (H1 & H2 & H3 & H4). split_and!; [lia|done|lia|lia]. Qed.

Lemma stepped_same v l m o r v' n base :
  engine v' l n base -> m = over (content l) base -> kept_row k0 (content l) base ->
  current_root v' = current_root v -> total_blocks (vsb v') = total_blocks (vsb v) ->
  map_step m o r m -> stepped v l m o (r, v').
Proof.
  intros He -> Hk Ec Et Hs. exists l, (over (content l) base). split_and!; [by exists n, base|done|].
  intros N. by apply budget_same.
Qed.

Lemma stepped_reads v l m o r v' n base :
  engine v l n base -> reads v v' -> m = over (content l) base -> kept_row k0 (content l) base ->
  map_step m o r m -> stepped v l m o (r, v').
Proof.
  intros He Hrd Em Hk Hs. destruct (engine_reads v v' l n base Hrd He) as [He' Ec].
  eapply stepped_same; [exact He'|done|done|done| |done]. destruct Hrd as (-> & _). done.
Qed.

Lemma stepped_aside v l m o r v' n base :
  engine v l n base -> DeltaLog.live v' l -> DeltaAppend.room v' l -> aside v v' -> m = over (content l) base ->
  kept_row k0 (content l) base -> map_step m o r m -> stepped v l m o (r, v').
Proof.
  intros He Hl Hr Ha Em Hk Hs. destruct (engine_aside v v' l n base He Hl Hr Ha) as [He' Ec].
  eapply stepped_same; [exact He'|done|done|done| |done]. destruct Ha as (Hre & _). by rewrite Hre.
Qed.

Lemma write_step v l n base k val fl o :
  engine v l n base -> kept_row k0 (content l) base -> row_ok k val ->
  (fl = 0 \/ (fl = INVFS_DELTA_FLAG_DELETE /\ val = [] /\ k <> k0)) ->
  map_step (over (content l) base) o (EDone true) (over (<[k := (fl, val)]> (content l)) base) ->
  map_step (over (content l) base) o (EDone false) (over (content l) base) ->
  stepped v l (over (content l) base) o (reply (fun _ => EDone true) (vol_delta_append E RC k val fl) v).
Proof.
  intros He [Hk Hkb] Hr Hf H1 H2.
  pose proof (append_engine E RC v l n base k val fl He Hr) as H. unfold ans, written in H.
  unfold reply. destruct (vol_delta_append E RC k val fl v) as [[[]|] v']; cbn [fst snd] in H;
    (destruct H as (H & Ec & Et); [destruct Hf as [?|(? & ? & _)]; auto|]).
  - destruct H as (l' & He' & Hc & Hl). exists l', (over (content l') base).
    split_and!; [|by rewrite Hc|].
    + exists n, base. split_and!; [done|done|split; [|done]]. rewrite Hc, lookup_over.
      destruct (decide (k = k0)) as [->|Hne].
      * rewrite lookup_insert_eq. cbn. destruct Hf as [->|(_ & _ & ?)]; [by eexists|done].
      * by rewrite lookup_insert_ne, <- lookup_over.
    + intros N (B1 & B2 & B3 & B4). unfold budget. cbn [snd]. rewrite Ec, Et, Hc.
      assert (Hs : (size (<[k := (fl, val)]> (content l)) <= S (size (content l)))%nat)
        by (rewrite map_size_insert; destruct (content l !! k); cbn; lia).
      split_and!; [lia|done|lia|lia].
  - exact (stepped_same v l _ _ _ v' n base H eq_refl (conj Hk Hkb) Ec Et H2).
Qed.

Lemma get_step v l n base key cap :
  engine v l n base -> kept_row k0 (content l) base -> key <> [] -> 0 <= cap ->
  stepped v l (over (content l) base) (EGet key cap) (reply EValue (overlay_get_key key cap) v).
Proof.
  intros He Hkr Hk Hc. pose proof (get_tot v l n base key cap He Hk Hc) as H. unfold ans in H.
  unfold reply. destruct (overlay_get_key key cap v) as [r v']. cbn [fst snd] in H. destruct H as [-> Hrd].
  unfold get_answer. rewrite <- lookup_over.
  destruct (over (content l) base !! key) as [val|] eqn:Eo.
  - destruct (Z.ltb_spec cap (zlen val)); (eapply stepped_reads; [done|done|done|done|]).
    + by eapply MLong.
    + by apply MGet.
  - eapply stepped_reads; [done|done|done|done|]. by apply MMiss.
Qed.

Lemma fold_step v l n base drained :
  engine v l n base -> kept_row k0 (content l) base -> within_limits v l -> no_collection genv drained ->
  stepped v l (over (content l) base) (EFold drained) (reply (fun _ => EDone true) (vol_fold E genv senv drained) v).
Proof.
  intros He Hk Hlim Hd. pose proof (fold_ans E genv senv v l n base k0 drained He Hk Hlim Hd) as H. unfold ans in H.
  unfold reply. destruct (vol_fold E genv senv drained v) as [r v']. cbn [fst snd] in H.
  destruct H as (l' & n' & base' & He' & Em & Hr & Hl & Hg & Ht & Hb).
  exists l', (over (content l) base). split_and!; cbn [fst snd].
  - exists n', base'. split_and!; [done|done|]. destruct Hk as [Hk1 Hk2]. split; [by rewrite Em|].
    destruct Hb as [->| ->]; [done|by right].
  - destruct r; constructor.
  - intros N (B1 & B2 & B3 & B4). unfold budget. rewrite Ht.
    assert (Hsz : (size (content l') <= size (content l))%nat).
    { destruct Hl as [->| ->]; [done|]. change (content []) with (∅ : gmap bytes (Z * bytes)). rewrite map_size_empty. lia. }
    split_and!; [destruct Hl as [->| ->]; cbn; lia|done|lia|lia].
Qed.

Lemma perform_step v l m o :
  holds_map v l m -> eop_ok o -> budget v l 1 -> stepped v l m o (perform o v).
Proof.
  intros (n & base & He & -> & Hk) Ho (B1 & B2 & B3 & B4).
  pose proof (en_live _ _ _ _ He) as Hl. pose proof (en_room _ _ _ _ He) as Hr.
  destruct o as [key val|key|key cap|key| | |drained]; cbn [perform eop_ok] in *.
  - apply (write_step v l n base key val 0); [done|done|done|by left| |constructor]. rewrite over_put. constructor.
  - destruct Ho. apply (write_step v l n base key [] INVFS_DELTA_FLAG_DELETE); [done|done|done|by right| |constructor].
    rewrite over_del. constructor.
  - destruct Ho. by apply (get_step v l n base).
  - eapply reply_tot; [exact (exists_tot v l n base key He Ho)|]. intros r v' [-> Hrd].
    eapply stepped_reads; [done|done|done|done|constructor].
  - eapply reply_tot; [exact (drain_tot RC v l Hl Hr)|]. intros r v' (-> & H1 & H2 & Ha).
    eapply stepped_aside; [done|done|done|done|done|done|constructor].
  - eapply reply_tot; [exact (mount_tot E v l (live_mountable v l Hl Hr ltac:(lia)))|].
    intros [] v' (H1 & H2 & Ha). eapply stepped_aside; [done|done|done|done|done|done|constructor].
  - apply (fold_step v l n base drained); [done|done| |done]. split_and!; [done|lia|lia].
Qed.

Lemma perform_all_spec os : forall v l m,
  holds_map v l m -> Forall eop_ok os -> budget v l (length os) ->
  exists l' m', holds_map (snd (perform_all os v)) l' m' /\ map_run m os (fst (perform_all os v)) m'.
Proof.
  induction os as [|o os IH]; intros v l m Hs Hos Hn.
  { exists l, m. split; [done|constructor]. }
  apply Forall_cons_iff in Hos as [Ho Hos]. cbn [length] in Hn.
  destruct (perform_step v l m o Hs Ho) as (l1 & m1 & Hs1 & Hst & Hn1).
  { destruct Hn as (? & ? & ? & ?). unfold budget. split_and!; [lia|done|lia|lia]. }
  cbn [perform_all]. destruct (perform o v) as [r v1]. cbn [fst snd] in *.
  destruct (IH v1 l1 m1 Hs1 Hos) as (l' & m' & Hs' & Hrun); [auto|].
  destruct (perform_all os v1) as [rs v']. exists l', m'. split; [done|]. by econstructor.
Qed.

End session.

(** ** Examples *)

Definition demo_map : kmap := over (content [demo_seg]) ∅.

Lemma demo_holds : holds_map [107] demo_mounted [demo_seg] demo_map.
Proof.
  exists O, ∅. split; [apply demo_engine|]. split; [done|]. split; [|by left].
  exists [118; 119]. vm_compute. reflexivity.
Qed.

Definition demo_eops : list eop :=
  [EPut [108] [120]; EGet [108] 64; EFold false; EMount; EExists [108]; EDel [108]; EDrain; EGet [107] 64].

Lemma demo_eops_ok : Forall (eop_ok None [107]) demo_eops.
Proof.
  assert (H : forall val, bytes_okb val = true -> zlen val <= 64 -> row_ok [108] val).
  { intros val Hv Hl. split; [|done]. split_and!; [by apply bytes_okb_ok|done|by apply bytes_okb_ok|lia]. }
  repeat constructor; try done; by apply H.
Qed.

Lemma demo_budget : budget demo_mounted [demo_seg] (length demo_eops).
Proof.
  destruct demo_engine as (_ & Ec & Et). unfold budget. rewrite Ec, Et.
  split; [apply Nat.leb_le; vm_compute; reflexivity|]. split; [done|]. split; [vm_compute; reflexivity|].
  vm_compute. reflexivity.
Qed.

End EngineSession.
