(* ===== verification/Rows.v ===== *)
(** * Namespace rows

    The rows vol_btree.c keeps in the two tiers: inode rows, directory entries
    and extended attributes, with their operations (Keys.v has the key layouts
    and row codecs).  The [delta] forms append to the recent tier and are what the
    namespace calls; the others rewrite the base tree and publish a root.
    Point reads resolve a key in the recent tier first; the scans merge both
    tiers.  The fault-injection seams are test hooks and are not modelled, and
    memory does not run out. *)

From stdpp Require Import sorting.
From S2P Require Import Prelude Dev Alloc Volume Page PageLogic Metabuf Keys Node BTree.
From S2P Require Import DeltaIndex DeltaRec Delta Overlay.

Module Rows.
Import Alloc Volume Page PageLogic Metabuf Keys Node BTree DeltaIndex DeltaRec Delta Overlay.

Definition INVFS_ROOT_INO : Z := 1.
Definition INVFS_RECIPE_ADDR_LEN : Z := 32.
Definition XATTR_CHUNK_DATA : Z := 1024.
Definition XATTR_MAX_CHUNKS : Z := 130.
Definition XATTR_MAX_TOTAL : Z := 64 * 1024.

(** Source: core/vol_btree.c [vol_inode_row_key] *)
Definition vol_inode_row_key (id : Z) : bytes := ino_key id.

(** The key of chunk [idx]; chunk 0 is at the canonical key.
    Source: core/vol_btree.c:3174-3177 [vol_xattr_delta_set] *)
Definition xattr_idx_key (ino : Z) (name : bytes) (idx : Z) : bytes :=
  if idx =? 0 then xattr_key ino name else xattr_chunk_key ino name idx.

(** Source: core/vol_btree.c [xattr_inline_cap] *)
Definition xattr_inline_cap (nlen : Z) : Z := u16 (INVFS_BLOCK_SIZE - (20 + 4 + (XATTR_FIXED + nlen))).
(** Source: core/vol_btree.c [xattr_chunk_cap] *)
Definition xattr_chunk_cap (nlen : Z) : Z := u16 (xattr_inline_cap nlen - XATTR_CHUNK_EXTRA).
(** The size of the chunks a value is cut into.
    Source: core/vol_btree.c:3155-3159 [vol_xattr_delta_set] *)
Definition chunk_size (nlen : Z) : Z := Z.min (xattr_chunk_cap nlen) XATTR_CHUNK_DATA.

(** The name of a canonical key.
    Source: core/vol_btree.c [xa_canon_name] *)
Definition xa_canon_name (key : bytes) : option bytes :=
  match xattr_key_decode key with Some (name, false, _) => Some name | _ => None end.

(** ** The handle *)

(** The volume with the namespace fields of its handle. *)
Record rows (V : Type) := mkRows {
  rw_vol : V;
  pba_ref_stale : bool;
  next_inode_id : Z;
  id_recovered : bool;
  rcache : option (bytes * bytes) * option (bytes * bytes)
}.
#[global] Arguments mkRows {V} _ _ _ _ _.
#[global] Arguments rw_vol {V} _.
#[global] Arguments pba_ref_stale {V} _.
#[global] Arguments next_inode_id {V} _.
#[global] Arguments id_recovered {V} _.
#[global] Arguments rcache {V} _.
Definition set_rw_vol {V} x (s : rows V) : rows V := mkRows x (pba_ref_stale s) (next_inode_id s) (id_recovered s) (rcache s).
Definition set_pba_ref_stale {V} x (s : rows V) : rows V := mkRows (rw_vol s) x (next_inode_id s) (id_recovered s) (rcache s).
Definition set_next_inode_id {V} x (s : rows V) : rows V := mkRows (rw_vol s) (pba_ref_stale s) x (id_recovered s) (rcache s).
Definition set_id_recovered {V} x (s : rows V) : rows V := mkRows (rw_vol s) (pba_ref_stale s) (next_inode_id s) x (rcache s).
Definition set_rcache {V} x (s : rows V) : rows V := mkRows (rw_vol s) (pba_ref_stale s) (next_inode_id s) (id_recovered s) x.

(** An engine call on the volume of the handle. *)
Definition on_vol {V A} (m : M V A) : M (rows V) A := fun s =>
  let '(r, v) := m (rw_vol s) in (r, set_rw_vol v s).

(** [m], or the answer [e] when it fails. *)
Definition or_answer {S A B : Type} (m : M S A) (e : B) (k : A -> M S B) : M S B :=
  let* r := mtry m in match r with Some a => k a | None => mret e end.
Notation "'let?' x ':=' m 'else' e 'in' k" := (or_answer m e (fun x => k))
  (at level 10, x name, m at level 100, e at level 100, k at level 200).

Section rows.
Context {D : Type} `{!Dev D} (E : penv) (RC : retire_calls (vol D dlog)).
Abbreviation V := (vol D dlog).
Abbreviation R := (rows V).

Definition put (key val : bytes) : M R unit := on_vol (delta_put E RC key val).
Definition del (key : bytes) : M R unit := on_vol (delta_del E RC key).
Definition exists_key (key : bytes) : M R bool := on_vol (overlay_exists key).
Definition readonly (s : R) : bool := flag_set (vsb (rw_vol s)) VOLF_READONLY.

(** Source: core/volume.c [pba_ref_invalidate] *)
Definition pba_ref_invalidate : M R unit := mmod (set_pba_ref_stale true).

(** ** Inodes *)

(** [Some (Some i)] is 1, [Some None] is 0 and a failure is -1; the buffer for
    the recent tier holds the fixed row.
    Source: core/vol_btree.c [vol_inode_get] *)
Definition vol_inode_get (id : Z) : M R (option invfs_inode) :=
  on_vol ready ;;;
  let kb := ino_key id in
  let* dr := on_vol (vol_delta_lookup_value kb INVFS_INODE_ROW_FIXED) in
  match dr with
  | LErr | LShort _ _ => mfail
  | LFound flags rb =>
      if is_delete flags then mret None
      else match ino_decode rb with Some i => mret (Some i) | None => mfail end
  | LMiss =>
      let* val := on_vol (base_get kb) in
      match val with
      | None => mret None
      | Some val => match ino_decode val with Some i => mret (Some i) | None => mfail end
      end
  end.

(** Source: core/vol_btree.c [vol_inode_put] *)
Definition vol_inode_put (id : Z) (i : invfs_inode) : M R unit :=
  mguard (negb (i_nlink i =? 0)) ;;;
  on_vol ready ;;;
  let* root := on_vol base_root in
  let* nr := on_vol (btree_upsert root (ino_key id) (ino_encode i)) in
  on_vol (publish nr (bp_gen root)).

(** A row that appears, or names another recipe, makes the reference map
    stale.
    Source: core/vol_btree.c [vol_inode_delta_put] *)
Definition vol_inode_delta_put (id : Z) (i : invfs_inode) : M R unit :=
  mguard (negb (i_nlink i =? 0)) ;;;
  on_vol ready ;;;
  let* old := mtry (vol_inode_get id) in
  (match old with
   | Some (Some o) =>
       if bool_decide (i_recipe_addr o = i_recipe_addr i) then mret tt else pba_ref_invalidate
   | _ => pba_ref_invalidate
   end) ;;;
  put (ino_key id) (ino_encode i).

(** ** Chained mutations of the base tree *)

(** Source: core/vol_btree.c:3053-3058 [xmut] *)
Record xmut := mkXmut { m_root : invfs_blkptr; m_old_gen : Z; m_changed : bool }.

(** Source: core/vol_btree.c [xmut_upsert] *)
Definition xmut_upsert (m : xmut) (k val : bytes) : M R xmut :=
  let* nr := on_vol (btree_upsert (m_root m) k val) in
  mret (mkXmut nr (m_old_gen m) true).
(** Source: core/vol_btree.c [xmut_delete] *)
Definition xmut_delete (m : xmut) (k : bytes) : M R (xmut * bool) :=
  let* f := on_vol (btree_search (m_root m) k) in
  match f with
  | None => mret (m, false)
  | Some _ =>
      let* nr := on_vol (btree_delete (m_root m) k) in
      mret (mkXmut nr (m_old_gen m) true, true)
  end.
(** Source: core/vol_btree.c [xmut_commit] *)
Definition xmut_commit (m : xmut) : M R unit :=
  if negb (m_changed m) then mret tt else on_vol (publish (m_root m) (m_old_gen m)).

(** Source: core/vol_btree.c:3107-3114 [xattr_delete_name] *)
Fixpoint delete_chunks (fuel : nat) (m : xmut) (ino : Z) (name : bytes) (idx : Z) (any : bool)
    : M R (xmut * bool) :=
  match fuel with
  | O => mret (m, any)
  | S fuel =>
      if XATTR_MAX_CHUNKS <? idx then mret (m, any)
      else
        let* r := xmut_delete m (xattr_chunk_key ino name idx) in
        if snd r then delete_chunks fuel (fst r) ino name (idx + 1) true else mret (fst r, any)
  end.
(** Source: core/vol_btree.c [xattr_delete_name] *)
Definition xattr_delete_name (m : xmut) (ino : Z) (name : bytes) : M R (xmut * bool) :=
  let* r := xmut_delete m (xattr_key ino name) in
  delete_chunks (Z.to_nat XATTR_MAX_CHUNKS) (fst r) ino name 1 (snd r).

(** ** Extended attributes *)

(** The answers of the attribute operations. *)
Inductive xattr_rc := XOk | XErr | XRange | XInval | XRofs | XIo | XNoData.

Definition name_ok (name : bytes) : bool := (0 <? zlen name) && (zlen name <=? INVFS_MAX_NAME).

(** The chunks of a longer value, canonical key first.
    Source: core/vol_btree.c:3170-3183 [vol_xattr_delta_set] *)
Fixpoint put_chunks (fuel : nat) (ino : Z) (name val : bytes) (cap idx : Z) : M R (bytes * Z) :=
  match fuel with
  | O => mret (val, idx)
  | S fuel =>
      put (xattr_idx_key ino name idx) (take (Z.to_nat cap) val) ;;;
      let val := drop (Z.to_nat cap) val in
      let idx := idx + 1 in
      if negb (zlen val =? 0) && (idx <=? XATTR_MAX_CHUNKS) then put_chunks fuel ino name val cap idx
      else mret (val, idx)
  end.

(** The stale chunks of a longer old value.
    Source: core/vol_btree.c:3191-3202 [vol_xattr_delta_set] *)
Fixpoint shadow_tail (fuel : nat) (ino : Z) (name : bytes) (idx : Z) : M R unit :=
  match fuel with
  | O => mret tt
  | S fuel =>
      if XATTR_MAX_CHUNKS <? idx then mret tt
      else
        let key := xattr_chunk_key ino name idx in
        let* ex := exists_key key in
        if ex then del key ;;; shadow_tail fuel ino name (idx + 1) else mret tt
  end.

(** Source: core/vol_btree.c [vol_xattr_delta_set] *)
Definition vol_xattr_delta_set (ino : Z) (name val : bytes) : M R xattr_rc :=
  let* s := mget in
  if readonly s then mret XErr
  else if negb (name_ok name) then mret XErr
  else if XATTR_MAX_TOTAL <? zlen val then mret XRange
  else
    on_vol ready ;;;
    let cap := chunk_size (zlen name) in
    if cap =? 0 then mret XErr
    else
      let? r := if zlen val <=? cap
                then put (xattr_key ino name) val ;;; mret ([], 1)
                else put_chunks (Z.to_nat (XATTR_MAX_CHUNKS + 1)) ino name val cap 0 else XErr in
      if negb (zlen (fst r) =? 0) then mret XRange
      else
        let? _ := shadow_tail (Z.to_nat XATTR_MAX_CHUNKS) ino name (snd r) else XErr in
        mret XOk.

(** Source: core/vol_btree.c [vol_xattr_delta_del] *)
Definition vol_xattr_delta_del (ino : Z) (name : bytes) : M R xattr_rc :=
  let* s := mget in
  if readonly s then mret XRofs
  else if negb (name_ok name) then mret XInval
  else
    on_vol ready ;;;
    let? ex := exists_key (xattr_key ino name) else XIo in
    if negb ex then mret XNoData
    else
      let? _ := del (xattr_key ino name) ;;; shadow_tail (Z.to_nat XATTR_MAX_CHUNKS) ino name 1 else XErr in
      mret XOk.

(** Source: core/vol_btree.c:3305-3319 [vol_xattr_set] *)
Fixpoint upsert_chunks (fuel : nat) (m : xmut) (ino : Z) (name val : bytes) (cap idx : Z) : M R (xmut * bytes) :=
  match fuel with
  | O => mret (m, val)
  | S fuel =>
      let* m := xmut_upsert m (xattr_idx_key ino name idx) (take (Z.to_nat cap) val) in
      let val := drop (Z.to_nat cap) val in
      let idx := idx + 1 in
      if negb (zlen val =? 0) && (idx <=? XATTR_MAX_CHUNKS) then upsert_chunks fuel m ino name val cap idx
      else mret (m, val)
  end.

(** The base-tree form.
    Source: core/vol_btree.c [vol_xattr_set] *)
Definition vol_xattr_set (ino : Z) (name val : bytes) : M R xattr_rc :=
  let* s := mget in
  if readonly s then mret XErr
  else if negb (name_ok name) then mret XErr
  else if XATTR_MAX_TOTAL <? zlen val then mret XRange
  else
    on_vol ready ;;;
    let? root := on_vol base_root else XErr in
    let? r := xattr_delete_name (mkXmut root (bp_gen root) false) ino name else XErr in
    let cap := chunk_size (zlen name) in
    if cap =? 0 then mret XErr
    else
      let? r := (if zlen val <=? cap
                 then let* m := xmut_upsert (fst r) (xattr_key ino name) val in mret (m, [])
                 else upsert_chunks (Z.to_nat (XATTR_MAX_CHUNKS + 1)) (fst r) ino name val cap 0) else XErr in
      if negb (zlen (snd r) =? 0) then mret XRange
      else let? _ := xmut_commit (fst r) else XErr in mret XOk.

(** Source: core/vol_btree.c [vol_xattr_del] *)
Definition vol_xattr_del (ino : Z) (name : bytes) : M R unit :=
  let* s := mget in
  mguard (negb (readonly s)) ;;;
  mguard (name_ok name) ;;;
  on_vol ready ;;;
  let* root := on_vol base_root in
  let* r := xattr_delete_name (mkXmut root (bp_gen root) false) ino name in
  mguard (snd r) ;;;
  xmut_commit (fst r).

(** The chunks read back and joined; [acc] is what chunks below [idx] gave.
    Source: core/vol_btree.c:3403-3455 [vol_xattr_get] *)
Fixpoint get_chunks (fuel : nat) (ino : Z) (name acc : bytes) (idx : Z) : M R (xattr_rc * bytes) :=
  match fuel with
  | O => mret (XOk, acc)
  | S fuel =>
      let? r := on_vol (overlay_get_key (xattr_idx_key ino name idx) (XATTR_CHUNK_DATA + 1)) else (XIo, []) in
      match r with
      | None => mret (if idx =? 0 then (XNoData, []) else (XOk, acc))
      | Some one =>
          if XATTR_MAX_TOTAL <? zlen acc + zlen one then mret (XIo, [])
          else if XATTR_MAX_CHUNKS <=? idx then mret (XOk, acc ++ one)
          else get_chunks fuel ino name (acc ++ one) (idx + 1)
      end
  end.

(** The value and its length; [cap] is [*vlen] on entry, and 0 asks for the
    size alone.
    Source: core/vol_btree.c [vol_xattr_get] *)
Definition vol_xattr_get (ino : Z) (name : bytes) (cap : Z) : M R (xattr_rc * bytes * Z) :=
  if negb (name_ok name) then mret (XInval, [], cap)
  else
    on_vol ready ;;;
    let* r := get_chunks (Z.to_nat (XATTR_MAX_CHUNKS + 1)) ino name [] 0 in
    let '(rc, acc) := r in
    match rc with
    | XOk =>
        if cap =? 0 then mret (XOk, [], zlen acc)
        else if cap <? zlen acc then mret (XRange, [], cap)
        else mret (XOk, acc, zlen acc)
    | _ => mret (rc, [], cap)
    end.

(** ** Scans of both tiers *)

(** A range of the recent tier with a callback that may read; [sv] is the
    calling thread's view of the index.
    Source: core/vol_delta.c:1816-1905 [vol_delta_range] *)
Fixpoint run_range_m {C : Type} (cb : C -> bytes -> delta_ref -> M V (Z * C))
    (l : list (bytes * delta_ref)) (c : C) : M V (Z * C) :=
  match l with
  | [] => mret (0, c)
  | (k, r) :: l => let* rc := cb c k r in if negb (fst rc =? 0) then mret rc else run_range_m cb l (snd rc)
  end.
(** Source: core/vol_delta.c:1816-1905 [vol_delta_range] *)
Definition delta_range {C : Type} (cb : C -> bytes -> delta_ref -> M V (Z * C)) (sv : di_sorted)
    (lo hi : bytes) (c : C) : M V (Z * C) :=
  let* v := mget in
  match d_index (v_x v) with
  | None => mret (0, c)
  | Some di =>
      let sv := if negb (sv_inst sv =? di_inst di) || negb (sv_epoch sv =? di_epoch di)
                then di_sorted_build di else sv in
      run_range_m cb (range_entries di sv lo hi) c
  end.

(** One attribute name of the merge, and whether the recent tier deletes it.
    Source: core/vol_btree.c:3485-3488 [xa_ent] *)
Record xa_ent := mkXa { xa_name : bytes; xa_deleted : bool }.

(** Source: core/vol_btree.c [xa_find] *)
Definition xa_find (l : list xa_ent) (nm : bytes) : option nat :=
  fst <$> list_find (fun e => xa_name e = nm) l.
(** Source: core/vol_btree.c [xa_add] *)
Definition xa_add (l : list xa_ent) (nm : bytes) : list xa_ent := l ++ [mkXa nm false].

(** Source: core/vol_btree.c [xa_delta_cb] *)
Definition xa_delta_cb (l : list xa_ent) (key : bytes) (ref : delta_ref) : M V (Z * list xa_ent) :=
  match xa_canon_name key with
  | None => mret (0, l)
  | Some nm =>
      let l := match xa_find l nm with Some _ => l | None => xa_add l nm end in
      mret (0, match xa_find l nm with
               | Some i => <[i := mkXa nm (is_delete (r_flags ref))]> l
               | None => l
               end)
  end.

(** Source: core/vol_btree.c [xa_base_cb] *)
Definition xa_base_cb (l : list xa_ent) (k val : bytes) : Z * list xa_ent :=
  match xa_canon_name k with
  | None => (0, l)
  | Some nm => match xa_find l nm with Some _ => (0, l) | None => (0, xa_add l nm) end
  end.

(** Name length, then bytes; a name has no NUL in it.
    Source: core/vol_btree.c [xa_ent_cmp] *)
Definition xa_le (a b : xa_ent) : Prop :=
  zlen (xa_name a) < zlen (xa_name b) \/
  (zlen (xa_name a) = zlen (xa_name b) /\ vol_key_cmp (xa_name a) (xa_name b) <= 0).
#[export] Instance xa_le_dec a b : Decision (xa_le a b).
Proof. unfold xa_le. apply _. Defined.

Section emit.
Context {C : Type} (cb : C -> bytes -> Z * C).

(** Source: core/vol_btree.c:3636-3642 [vol_xattr_scan] *)
Fixpoint xa_emit (l : list xa_ent) (c : C) : Z * C :=
  match l with
  | [] => (0, c)
  | e :: l =>
      if xa_deleted e then xa_emit l c
      else let '(rc, c) := cb c (xa_name e) in if negb (rc =? 0) then (rc, c) else xa_emit l c
  end.

(** qsort gives some order along [xa_ent_cmp]; names are distinct, so there
    is only one.
    Source: core/vol_btree.c [vol_xattr_scan] *)
Definition vol_xattr_scan (sv : di_sorted) (ino : Z) (c : C) : M R (Z * C) :=
  on_vol ready ;;;
  let lo := xattr_key ino [] in
  let hi := xattr_key (u64 (ino + 1)) [] in
  let* d := on_vol (delta_range xa_delta_cb sv lo hi []) in
  if negb (fst d =? 0) then mret (-1, c)
  else
    let? root := on_vol base_root else (-1, c) in
    let* b := on_vol (btree_scan xa_base_cb root lo hi (snd d)) in
    if negb (fst b =? 0) then mret (-1, c)
    else mret (xa_emit (merge_sort xa_le (snd b)) c).
End emit.

(** The keys of an inode's attributes; the C code packs them into one buffer
    with a length before each.
    Source: core/vol_btree.c [xattr_collect_cb] *)
Definition xattr_collect_cb (b : list bytes) (k val : bytes) : Z * list bytes :=
  match xattr_key_decode k with None => (0, b) | Some _ => (0, b ++ [k]) end.
(** Source: core/vol_btree.c [xattr_collect_delta_cb] *)
Definition xattr_collect_delta_cb (b : list bytes) (key : bytes) (ref : delta_ref) : M V (Z * list bytes) :=
  mret (0, b ++ [key]).

(** Source: core/vol_btree.c:3739-3751 [delta_shadow_xattr_keys] *)
Fixpoint del_keys (b : list bytes) : M R unit :=
  match b with
  | [] => mret tt
  | k :: b => del k ;;; del_keys b
  end.
(** Source: core/vol_btree.c [delta_shadow_xattr_keys] *)
Definition delta_shadow_xattr_keys (sv : di_sorted) (ino : Z) : M R unit :=
  let lo := xattr_key ino [] in
  let hi := xattr_key (u64 (ino + 1)) [] in
  let* root := on_vol base_root in
  let* b := on_vol (btree_scan xattr_collect_cb root lo hi []) in
  mguard (fst b =? 0) ;;;
  let* b := on_vol (delta_range xattr_collect_delta_cb sv lo hi (snd b)) in
  mguard (fst b =? 0) ;;;
  del_keys (snd b).

(** Source: core/vol_btree.c:3774-3786 [xattr_remove_all] *)
Fixpoint delete_keys (m : xmut) (b : list bytes) : M R xmut :=
  match b with
  | [] => mret m
  | k :: b => let* r := xmut_delete m k in delete_keys (fst r) b
  end.
(** Source: core/vol_btree.c [xattr_remove_all] *)
Definition xattr_remove_all (m : xmut) (ino : Z) : M R xmut :=
  let lo := xattr_key ino [] in
  let hi := xattr_key (u64 (ino + 1)) [] in
  let* b := on_vol (btree_scan xattr_collect_cb (m_root m) lo hi []) in
  mguard (fst b =? 0) ;;;
  delete_keys m (snd b).

(** The base-tree form: the attributes go with the row.
    Source: core/vol_btree.c [vol_inode_delete] *)
Definition vol_inode_delete (id : Z) : M R unit :=
  on_vol ready ;;;
  let* root := on_vol base_root in
  let* found := on_vol (btree_search root (ino_key id)) in
  match found with
  | None => mret tt
  | Some _ =>
      let* m := xattr_remove_all (mkXmut root (bp_gen root) false) id in
      let* r := xmut_delete m (ino_key id) in
      xmut_commit (fst r)
  end.

(** Source: core/vol_btree.c [vol_inode_delta_delete] *)
Definition vol_inode_delta_delete (sv : di_sorted) (id : Z) : M R unit :=
  on_vol ready ;;;
  let* ex := exists_key (ino_key id) in
  if negb ex then mret tt
  else delta_shadow_xattr_keys sv id ;;; del (ino_key id).

(** ** Directory operations *)

(** [Some (Some child)] is 1, [Some None] is 0.
    Source: core/vol_btree.c [vol_dirent_get] *)
Definition vol_dirent_get (parent : Z) (name : bytes) : M R (option Z) :=
  mguard (zlen name <=? INVFS_MAX_NAME) ;;;
  on_vol ready ;;;
  let kb := dirent_key parent name in
  let* dr := on_vol (vol_delta_lookup_value kb 8) in
  match dr with
  | LErr | LShort _ _ => mfail
  | LFound flags vb =>
      if is_delete flags then mret None
      else mguard (zlen vb =? 8) ;;; mret (Some (dirent_val_get vb))
  | LMiss =>
      let* val := on_vol (base_get kb) in
      mret (option_map dirent_val_get val)
  end.

(** Source: core/vol_btree.c [vol_dirent_put] *)
Definition vol_dirent_put (parent : Z) (name : bytes) (child : Z) : M R unit :=
  mguard ((zlen name <=? INVFS_MAX_NAME) && negb (child =? 0)) ;;;
  on_vol ready ;;;
  let* root := on_vol base_root in
  let* nr := on_vol (btree_upsert root (dirent_key parent name) (dirent_val child)) in
  on_vol (publish nr (bp_gen root)).

(** Source: core/vol_btree.c [vol_dirent_del] *)
Definition vol_dirent_del (parent : Z) (name : bytes) : M R unit :=
  mguard (zlen name <=? INVFS_MAX_NAME) ;;;
  on_vol ready ;;;
  let* root := on_vol base_root in
  let* found := on_vol (btree_search root (dirent_key parent name)) in
  match found with
  | None => mret tt
  | Some _ =>
      let* nr := on_vol (btree_delete root (dirent_key parent name)) in
      on_vol (publish nr (bp_gen root))
  end.

(** Source: core/vol_btree.c [vol_dirent_delta_put] *)
Definition vol_dirent_delta_put (parent : Z) (name : bytes) (child : Z) : M R unit :=
  mguard ((zlen name <=? INVFS_MAX_NAME) && negb (child =? 0)) ;;;
  on_vol ready ;;;
  put (dirent_key parent name) (dirent_val child).

(** Source: core/vol_btree.c [vol_dirent_delta_del] *)
Definition vol_dirent_delta_del (parent : Z) (name : bytes) : M R unit :=
  mguard (zlen name <=? INVFS_MAX_NAME) ;;;
  on_vol ready ;;;
  let* ex := exists_key (dirent_key parent name) in
  if negb ex then mret tt else del (dirent_key parent name).

(** ** Directory scan: the merge of both tiers *)

Section merge.
Context {C : Type} (cb : C -> bytes -> Z -> Z * C).

(** Source: core/vol_btree.c [emit_dirent] *)
Definition emit_dirent (c : C) (key : bytes) (child : Z) : Z * C :=
  if zlen key <? DIRENT_KEY_FIXED then (0, c)
  else if negb (dirent_key_len key =? zlen key) then (0, c)
  else
    let nlen := dl_rd16be key 8 in
    if (nlen =? 0) || (INVFS_MAX_NAME <? nlen) then (0, c)
    else cb c (slice key DIRENT_KEY_FIXED nlen) child.

(** Source: core/vol_btree.c:4643-4648 [merge_ent] *)
Record merge_ent := mkMerge { g_key : bytes; g_deleted : bool; g_child : Z }.

(** Source: core/vol_btree.c [merge_collect] *)
Definition merge_collect (l : list merge_ent) (key : bytes) (ref : delta_ref) : M V (Z * list merge_ent) :=
  let hidden := mret (0, l ++ [mkMerge key true 0]) in
  if (DIRENT_KEY_FIXED <=? zlen key) && (dirent_key_len key =? zlen key) then
    let nlen := dl_rd16be key 8 in
    if (1 <=? nlen) && (nlen <=? INVFS_MAX_NAME) && negb (is_delete (r_flags ref)) && (r_vlen ref =? 8) then
      let* vb := mtry (vol_delta_read_value ref 8) in
      match vb with
      | Some vb => if zlen vb =? 8 then mret (0, l ++ [mkMerge key false (dirent_val_get vb)]) else mret (1, l)
      | None => mret (1, l)
      end
    else hidden
  else hidden.

(** Source: core/vol_btree.c [merge_emit] *)
Definition merge_emit (c : C) (e : merge_ent) : Z * C :=
  if g_deleted e then (0, c) else emit_dirent c (g_key e) (g_child e).

(** The delta entries ordered before a base key; the rest is handed back.
    Source: core/vol_btree.c:4743-4749 [merge_base_cb] *)
Fixpoint emit_before (k : bytes) (l : list merge_ent) (c : C) : Z * (list merge_ent * C) :=
  match l with
  | [] => (0, ([], c))
  | e :: l' =>
      if vol_key_cmp (g_key e) k <? 0 then
        let '(rc, c) := merge_emit c e in
        if negb (rc =? 0) then (rc, (l', c)) else emit_before k l' c
      else (0, (l, c))
  end.

(** On an equal key the delta's entry wins.
    Source: core/vol_btree.c [merge_base_cb] *)
Definition merge_base_cb (m : list merge_ent * C) (k val : bytes) : Z * (list merge_ent * C) :=
  let '(rc, (l, c)) := emit_before k (fst m) (snd m) in
  if negb (rc =? 0) then (rc, (l, c))
  else
    match l with
    | e :: l' =>
        if vol_key_cmp (g_key e) k =? 0 then let '(rc, c) := merge_emit c e in (rc, (l', c))
        else let '(rc, c) := emit_dirent c k (dirent_val_get val) in (rc, (l, c))
    | [] => let '(rc, c) := emit_dirent c k (dirent_val_get val) in (rc, (l, c))
    end.

(** The delta's tail.
    Source: core/vol_btree.c:4810-4819 [vol_dirent_scan] *)
Fixpoint merge_tail (l : list merge_ent) (c : C) : Z * C :=
  match l with
  | [] => (0, c)
  | e :: l => let '(rc, c) := merge_emit c e in if negb (rc =? 0) then (rc, c) else merge_tail l c
  end.

(** Source: core/vol_btree.c [vol_dirent_scan] *)
Definition vol_dirent_scan (sv : di_sorted) (parent : Z) (c : C) : M R (Z * C) :=
  on_vol ready ;;;
  let lo := dirent_key parent [] in
  let hi := dirent_key (u64 (parent + 1)) [] in
  let* d := on_vol (delta_range merge_collect sv lo hi []) in
  if negb (fst d =? 0) then mret (-1, c)
  else
    let? root := on_vol base_root else (-1, c) in
    let* b := on_vol (btree_scan merge_base_cb root lo hi (snd d, c)) in
    let '(rc, (l, c)) := b in
    if rc =? 0 then mret (merge_tail l c) else mret (rc, c).
End merge.

(** ** Inode numbers *)

(** Source: core/vol_btree.c [max_inode_cb] *)
Definition max_inode_cb (max : Z) (k val : bytes) : Z * Z :=
  if negb (zlen k =? 8) then (0, max) else (0, Z.max max (be_val k)).
(** Source: core/vol_btree.c [max_inode_delta_cb] *)
Definition max_inode_delta_cb (max : Z) (key : bytes) (ref : delta_ref) : M V (Z * Z) :=
  if negb (zlen key =? 8) then mret (0, max) else mret (0, Z.max max (be_val key)).

(** The high-water mark, once per mount.
    Source: core/vol_btree.c:4878-4909 [vol_inode_alloc] *)
Definition recover_ids (sv : di_sorted) : M R unit :=
  on_vol ready ;;;
  let* root := on_vol base_root in
  let* b := on_vol (btree_scan max_inode_cb root [] [] 0) in
  mguard (fst b =? 0) ;;;
  let* d := on_vol (delta_range max_inode_delta_cb sv [] [] (snd b)) in
  mguard (fst d =? 0) ;;;
  mmod (fun s =>
    let max := if u64 (snd d + 1) <? next_inode_id s then next_inode_id s - 1 else snd d in
    let next := u64 (max + 1) in
    set_id_recovered true
      (set_next_inode_id (if next <=? INVFS_ROOT_INO then INVFS_ROOT_INO + 1 else next) s)).

(** The answer 0 is a failure.
    Source: core/vol_btree.c [vol_inode_alloc] *)
Definition vol_inode_alloc (sv : di_sorted) : M R Z :=
  let* s := mget in
  let* r := if id_recovered s then mret (Some tt) else mtry (recover_ids sv) in
  match r with
  | None => mret 0
  | Some _ =>
      let* s := mget in
      mmod (set_next_inode_id (u64 (next_inode_id s + 1))) ;;;
      mret (next_inode_id s)
  end.
End rows.
End Rows.
