(* ===== verification/Recipes.v ===== *)
(** * Recipe blobs

    Immutable recipes in the base tree, keyed by the BLAKE3 of their bytes
    (vol_btree.c): storing, with one record or a descriptor and chunks,
    loading from either tier with the address checked, and the two-slot cache
    of the handle.  The hash is code the sources only call: it is a parameter
    [blake3]. *)

From S2P Require Import Prelude Dev Alloc Volume Page PageLogic Metabuf Keys Node BTree.
From S2P Require Import DeltaIndex DeltaRec Delta Overlay Rows.

Module Recipes.
Import Alloc Volume Page PageLogic Metabuf Keys Node BTree DeltaIndex DeltaRec Delta Overlay Rows.

Definition INVFS_RECIPE_BLOB_MAX : Z := 3800.
Definition INVFS_RECIPE_STREAM_MAX : Z := 64 * 1024 * 1024.
Definition INVFS_RECIPE_CHUNK_DATA : Z := 3072.
Definition INVFS_RECIPE_MAGIC_RMC1 : Z := 0x31434D52.
Definition RECIPE_DESC_LEN : Z := 10.
Definition RCACHE_MAX : Z := 64 * 2 ^ 20.

(** The descriptor of a recipe in chunks, packed.
    Source: core/invarifs.h:1489-1495 [invfs_recipe_desc] *)
Definition recipe_desc (total_len n_chunks : Z) : bytes :=
  le_bytes 4 INVFS_RECIPE_MAGIC_RMC1 ++ le_bytes 4 total_len ++ le_bytes 2 n_chunks.

(** The first matching slot.
    Source: core/vol_btree.c [rcache_get] *)
Definition rcache_get {V} (s : rows V) (addr : bytes) : option bytes :=
  let hit o := match o with Some (a, b) => bool_decide (a = addr) | None => false end in
  if hit (fst (rcache s)) then option_map snd (fst (rcache s))
  else if hit (snd (rcache s)) then option_map snd (snd (rcache s))
  else None.

(** A free slot, else the first one.
    Source: core/vol_btree.c [rcache_put] *)
Definition rcache_put {V} (addr blob : bytes) (s : rows V) : rows V :=
  if RCACHE_MAX <? zlen blob then s
  else
    match rcache s with
    | (None, b) => set_rcache (Some (addr, blob), b) s
    | (a, None) => set_rcache (a, Some (addr, blob)) s
    | (_, b) => set_rcache (Some (addr, blob), b) s
    end.

Section recipes.
Context {D : Type} `{!Dev D} (blake3 : bytes -> bytes).
Abbreviation V := (vol D dlog).
Abbreviation R := (rows V).

(** Source: core/vol_btree.c [blake3_addr] *)
Definition blake3_addr (buf : bytes) : bytes := blake3 buf.

(** The chunks of [blob] from index [i] on.
    Source: core/vol_btree.c:4109-4123 [vol_recipe_store] *)
Fixpoint store_chunks (n : nat) (i : Z) (addr blob : bytes) (root : invfs_blkptr) : M R invfs_blkptr :=
  match n with
  | O => mret root
  | S n =>
      let* nr := on_vol (btree_upsert root (recipe_chunk_key addr i)
                           (slice blob (i * INVFS_RECIPE_CHUNK_DATA) INVFS_RECIPE_CHUNK_DATA)) in
      store_chunks n (i + 1) addr blob nr
  end.

(** The answer is the address.
    Source: core/vol_btree.c [vol_recipe_store] *)
Definition vol_recipe_store (blob : bytes) : M R bytes :=
  mguard (negb (zlen blob =? 0) && (zlen blob <=? INVFS_RECIPE_STREAM_MAX)) ;;;
  on_vol ready ;;;
  let* root := on_vol base_root in
  let addr := blake3_addr blob in
  let kb := recipe_key addr in
  let* found := on_vol (btree_search root kb) in
  (match found with
   | Some _ => mret tt
   | None =>
       if zlen blob <=? INVFS_RECIPE_BLOB_MAX then
         let* nr := on_vol (btree_upsert root kb blob) in
         on_vol (publish nr (bp_gen root))
       else
         let n_chunks := (zlen blob + INVFS_RECIPE_CHUNK_DATA - 1) / INVFS_RECIPE_CHUNK_DATA in
         mguard (n_chunks <=? 0xFFFF) ;;;
         let* cur := store_chunks (Z.to_nat n_chunks) 0 addr blob root in
         let* nr := on_vol (btree_upsert cur kb (recipe_desc (zlen blob) n_chunks)) in
         on_vol (publish nr (bp_gen root))
   end) ;;;
  mret addr.

(** The chunks read back; each has the length the descriptor implies.
    Source: core/vol_btree.c:4338-4354 [recipe_base_blob] *)
Fixpoint load_chunks (n : nat) (i total_len : Z) (addr acc : bytes) (root : invfs_blkptr) : M R bytes :=
  match n with
  | O => mret acc
  | S n =>
      let exp_len := Z.min INVFS_RECIPE_CHUNK_DATA (u64 (total_len - i * INVFS_RECIPE_CHUNK_DATA)) in
      let* c := on_vol (btree_search root (recipe_chunk_key addr i)) in
      match c with
      | Some val => mguard (zlen val =? exp_len) ;;; load_chunks n (i + 1) total_len addr (acc ++ val) root
      | None => mfail
      end
  end.

(** Bytes whose address is not [addr] are refused; the others are cached.
    Source: core/vol_btree.c:4378-4389 [recipe_base_blob] *)
Definition verified (addr blob : bytes) : M R bytes :=
  mguard (bool_decide (blake3_addr blob = addr)) ;;;
  mmod (rcache_put addr blob) ;;;
  mret blob.

(** Source: core/vol_btree.c [recipe_base_blob] *)
Definition recipe_base_blob (addr kb : bytes) : M R bytes :=
  let* root := on_vol base_root in
  let* found := on_vol (btree_search root kb) in
  match found with
  | None => mfail
  | Some val =>
      if (zlen val =? RECIPE_DESC_LEN) && (field val 0 4 =? INVFS_RECIPE_MAGIC_RMC1) then
        let total_len := field val 4 4 in
        mguard (negb ((total_len =? 0) || (INVFS_RECIPE_STREAM_MAX <? total_len))) ;;;
        let* blob := load_chunks (Z.to_nat (field val 8 2)) 0 total_len addr [] root in
        verified addr (take (Z.to_nat total_len) (blob ++ zeros total_len))
      else verified addr val
  end.

(** A value larger than the stack buffer is read a second time at its size.
    Source: core/vol_btree.c [vol_recipe_load] *)
Definition vol_recipe_load (addr : bytes) : M R bytes :=
  on_vol ready ;;;
  let* s := mget in
  match rcache_get s addr with
  | Some blob => mret blob
  | None =>
      let kb := recipe_key addr in
      let* dr := on_vol (vol_delta_lookup_value kb XATTR_CHUNK_DATA) in
      let* dr := match dr with
                 | LShort _ dlen => on_vol (vol_delta_lookup_value kb dlen)
                 | _ => mret dr
                 end in
      match dr with
      | LErr | LShort _ _ => mfail
      | LFound flags blob => if is_delete flags then mfail else verified addr blob
      | LMiss => recipe_base_blob addr kb
      end
  end.
End recipes.
End Recipes.
