(* ===== verification/RowsSpec.v ===== *)
(** * The namespace over the engine

    Inode rows, directory entries and extended attributes (Rows.v) on a mounted
    volume whose two tiers hold one map of rows: every operation of the
    namespace answers, and changes the map, as an operation on three abstract
    tables. *)

From stdpp Require Import sorting.
From S2P Require Import Prelude Dev Mem Alloc Volume Anchor Page PageLogic Metabuf MetaLive Keys Kv Node BTree TreeSpec Check Frame.
From S2P Require Import DeltaIndex DeltaRec Delta DeltaLog DeltaAppend DeltaSession Overlay Engine Rows.

Module RowsSpec.
Import Alloc Volume Anchor Page PageLogic Metabuf MetaLive Keys Kv Node BTree TreeSpec Check Frame.
Import DeltaIndex DeltaRec Delta DeltaLog DeltaAppend DeltaSession Overlay Engine Rows.

(** ** Keys of the namespace *)

Definition INO_LIM : Z := 3 * 2 ^ 56.
Definition ino_ok (id : Z) : Prop := 0 <= id < INO_LIM.
Definition file_name (nm : bytes) : Prop := bytes_ok nm /\ zlen nm <= INVFS_MAX_NAME.

Lemma xattr_idx_bytes ino nm idx :
  xattr_idx_key ino nm idx = key_bytes (if idx =? 0 then KXattr ino nm else KXattrChunk ino nm idx).
Proof. unfold xattr_idx_key. by destruct (idx =? 0). Qed.

Lemma index_bytes_ok i : bytes_ok [u8 (Z.shiftr i 8); Z.land i 255].
Proof.
  assert (Hm : forall x, is_byte (u8 x)) by (intros; unfold u8, is_byte; apply Z.mod_pos_bound; lia).
  constructor; [done|]. constructor; [|done]. change 255 with (Z.ones 8). rewrite Z.land_ones by lia. apply Hm.
Qed.

Lemma dirent_key_ok p nm : bytes_ok nm -> bytes_ok (dirent_key p nm).
Proof.
  intros Hn. unfold dirent_key. apply Forall_app_2; [apply put_be64_ok|].
  apply Forall_app_2; [apply index_bytes_ok|done].
Qed.

Lemma row_ok_ino id val : bytes_ok val -> zlen val < 2 ^ 16 -> row_ok (ino_key id) val.
Proof.
  intros Hv Hl. pose proof (length_put_be64 id) as Hn. split.
  - split_and!; [apply put_be64_ok| |done|done]. unfold ino_key. rewrite Hn. done.
  - intros E. unfold ino_key in E. by rewrite E in Hn.
Qed.

Lemma row_ok_dirent p nm val : file_name nm -> bytes_ok val -> zlen val < 2 ^ 16 -> row_ok (dirent_key p nm) val.
Proof.
  intros [Hb Hn] Hv Hl. pose proof (length_dirent_key p nm) as Hk. unfold INVFS_MAX_NAME, DIRENT_KEY_FIXED in *. split.
  - split_and!; [by apply dirent_key_ok| |done|done]. unfold BT_KEY_LIM. lia.
  - intros E. rewrite E in Hk. cbn in Hk. lia.
Qed.

Lemma row_ok_xattr ino nm idx val :
  file_name nm -> bytes_ok val -> zlen val < 2 ^ 16 -> row_ok (xattr_idx_key ino nm idx) val.
Proof.
  intros [Hb Hn] Hv Hl. pose proof (length_xattr_key ino nm) as Hk. unfold INVFS_MAX_NAME, XATTR_FIXED in *.
  assert (Hx : bytes_ok (xattr_key ino nm)).
  { rewrite xattr_key_dirent. constructor; [done|by apply dirent_key_ok]. }
  unfold xattr_idx_key, xattr_chunk_key. split; [|destruct (idx =? 0); by rewrite xattr_key_dirent].
  destruct (idx =? 0); [split_and!; [done|unfold BT_KEY_LIM; lia|done|done]|]. split_and!; [| |done|done].
  - apply Forall_app_2; [done|]. constructor; [done|apply index_bytes_ok].
  - rewrite length_app. cbn [length]. unfold BT_KEY_LIM. lia.
Qed.
(** The keys of the six kinds of rows. *)
Definition keyed (k : bytes) : Prop := row_ok k [] /\ exists b, key_ok b = true /\ k = key_bytes b.

Lemma keyed_row k val : keyed k -> bytes_ok val -> zlen val < 2 ^ 16 -> row_ok k val.
Proof. intros [[(H1 & H2 & _) H3] _] Hv Hl. by split_and!. Qed.
Lemma keyed_ne k : keyed k -> k <> [].
Proof. by intros [[_ H] _]. Qed.
Lemma keyed_ino id : ino_ok id -> keyed (ino_key id).
Proof.
  unfold ino_ok, INO_LIM. intros H. split; [by apply row_ok_ino|]. exists (KIno id). cbn [key_ok]. split; [lia|done].
Qed.
Lemma keyed_dirent p nm : ino_ok p -> file_name nm -> keyed (dirent_key p nm).
Proof.
  unfold ino_ok, INO_LIM. intros H Hn. split; [by apply row_ok_dirent|]. exists (KDirent p nm). destruct Hn. cbn [key_ok]. split; [lia|done].
Qed.
Lemma keyed_xattr ino nm i : ino_ok ino -> file_name nm -> 0 <= i < 2 ^ 16 -> keyed (xattr_idx_key ino nm i).
Proof.
  unfold ino_ok, INO_LIM. intros H Hn Hi. split; [by apply row_ok_xattr|]. eexists. split; [|apply xattr_idx_bytes].
  destruct Hn. destruct (i =? 0); cbn [key_ok]; lia.
Qed.

(** ** Calls on the handle *)

Ltac branch := match goal with |- ans (if ?b then _ else _) _ _ => destruct b end.

Section calls.
Context {D : Type} `{!Dev D, !DevLaws D} (E : penv) (RC : retire_calls (vol D dlog)).
Abbreviation V := (vol D dlog).
Abbreviation R := (rows V).
Implicit Types (v : V) (s : R) (l : list seg) (m : kmap).

(** The two tiers of the volume hold the rows [m]. *)
Definition tiers_keyed l (base : kmap) : Prop :=
  (forall k, is_Some (content l !! k) -> keyed k) /\ (forall k, is_Some (base !! k) -> keyed k).
Definition at_map s m : Prop :=
  exists l n base, engine (rw_vol s) l n base /\ over (content l) base = m /\ tiers_keyed l base.

(** What row operations leave of the handle. *)
Definition kept s s' : Prop :=
  next_inode_id s' = next_inode_id s /\ id_recovered s' = id_recovered s /\ rcache s' = rcache s.

Lemma kept_refl s : kept s s.
Proof. done. Qed.
Lemma kept_trans s1 s2 s3 : kept s1 s2 -> kept s2 s3 -> kept s1 s3.
Proof. intros (H1 & H2 & H3) (H4 & H5 & H6). split_and!; congruence. Qed.
Lemma kept_vol s v : kept s (set_rw_vol v s).
Proof. done. Qed.

Lemma vol_tot {A} (c : M V A) s (Q : A -> R -> Prop) :
  tot c (rw_vol s) (fun a v' => Q a (set_rw_vol v' s)) -> tot (on_vol c) s Q.
Proof. intros (a & v' & Ec & H). exists a, (set_rw_vol v' s). split; [|done]. unfold on_vol. by rewrite Ec. Qed.
Lemma vol_ans {A} (c : M V A) s (Q : option A -> R -> Prop) :
  ans c (rw_vol s) (fun r v' => Q r (set_rw_vol v' s)) -> ans (on_vol c) s Q.
Proof. unfold ans, on_vol. by destruct (c (rw_vol s)). Qed.
Lemma or_ans {A B} (c : M R A) (e : B) (k : A -> M R B) s (P : option A -> R -> Prop) (Q : option B -> R -> Prop) :
  ans c s P -> (forall a s', P (Some a) s' -> ans (k a) s' Q) -> (forall s', P None s' -> Q (Some e) s') ->
  ans (or_answer c e k) s Q.
Proof. unfold ans, or_answer, mbind', mtry. intros H1 H2 H3. destruct (c s) as [[a|] s']; cbn [fst snd] in *; auto. Qed.
Lemma or_tot {A B} (c : M R A) (e : B) (k : A -> M R B) s (Q : B -> R -> Prop) :
  tot c s (fun a s' => tot (k a) s' Q) -> tot (or_answer c e k) s Q.
Proof. intros (a & s' & Ec & H). unfold or_answer. apply tot_bind, tot_try. by exists a, s'. Qed.
Lemma or_bind {A B} (c : M R A) (e : B) (k : A -> M R B) s (Q : option B -> R -> Prop) :
  tot c s (fun a s' => ans (k a) s' Q) -> ans (or_answer c e k) s Q.
Proof. intros (a & s' & Ec & H). unfold or_answer. apply ans_bind, tot_try. by exists a, s'. Qed.
Lemma ans_ret {A} (a : A) s (Q : option A -> R -> Prop) : Q (Some a) s -> ans (mret a) s Q.
Proof. done. Qed.

Lemma ready_tot s m (Q : unit -> R -> Prop) : at_map s m -> Q tt s -> tot (on_vol ready) s Q.
Proof.
  intros (l & n & base & He & _ & _) HQ. apply vol_tot, tot_mod. rewrite (en_ready _ _ _ _ He). by destruct s.
Qed.

Lemma reads_at s m v' l n base :
  engine (rw_vol s) l n base -> over (content l) base = m -> tiers_keyed l base -> reads (rw_vol s) v' ->
  at_map (set_rw_vol v' s) m.
Proof.
  intros He Hm Ht Hrd. destruct (engine_reads _ v' l n base Hrd He) as [He' _]. by exists l, n, base.
Qed.

Lemma write_ans s m k val fl :
  at_map s m -> keyed k -> bytes_ok val -> zlen val < 2 ^ 16 -> (fl = 0 \/ (fl = INVFS_DELTA_FLAG_DELETE /\ val = [])) ->
  ans (on_vol (vol_delta_append E RC k val fl)) s (fun r s' =>
    at_map s' (match r with Some _ => if is_delete fl then delete k m else <[k := val]> m | None => m end) /\ kept s s').
Proof.
  intros (l & n & base & He & <- & Ht) Hk Hv Hl Hf. apply vol_ans.
  pose proof (append_engine E RC (rw_vol s) l n base k val fl He (keyed_row k val Hk Hv Hl) Hf) as H. unfold ans, written in *.
  destruct (vol_delta_append E RC k val fl (rw_vol s)) as [[[]|] v']; cbn [fst snd] in *; destruct H as (H & _); (split; [|done]).
  - destruct H as (l' & He' & Hc & _). exists l', n, base. split; [done|]. rewrite Hc.
    split; [destruct Hf as [->|[-> ->]]; [apply over_put|apply over_del]|]. split; [|apply Ht]. rewrite Hc.
    intros k' [x [[<- _]|[_ Hx]]%lookup_insert_Some]; [done|]. apply (proj1 Ht). by exists x.
  - by exists l, n, base.
Qed.

Lemma put_ans s m k val :
  at_map s m -> keyed k -> bytes_ok val -> zlen val < 2 ^ 16 ->
  ans (put E RC k val) s (fun r s' => at_map s' (match r with Some _ => <[k := val]> m | None => m end) /\ kept s s').
Proof. intros Hm Hk Hv Hl. apply (write_ans s m k val 0 Hm Hk Hv Hl). by left. Qed.
Lemma del_ans s m k :
  at_map s m -> keyed k ->
  ans (del E RC k) s (fun r s' => at_map s' (match r with Some _ => delete k m | None => m end) /\ kept s s').
Proof. intros Hm Hk. apply (write_ans s m k [] INVFS_DELTA_FLAG_DELETE Hm Hk); [done|done|by right]. Qed.

Lemma exists_row s m k :
  at_map s m -> k <> [] ->
  tot (exists_key k) s (fun r s' => r = is_some (m !! k) /\ at_map s' m /\ kept s s').
Proof.
  intros (l & n & base & He & Em & Ht) Hk. apply vol_tot. eapply tot_mono; [exact (exists_tot _ l n base k He Hk)|].
  intros r v' [-> Hrd]. rewrite Em. split; [done|]. split; [by eapply reads_at|apply kept_vol].
Qed.

Lemma get_row s m k cap :
  at_map s m -> k <> [] -> 0 <= cap -> (forall val, m !! k = Some val -> zlen val <= cap) ->
  tot (on_vol (overlay_get_key k cap)) s (fun r s' => r = m !! k /\ at_map s' m /\ kept s s').
Proof.
  intros (l & n & base & He & Em & Ht) Hk Hc Hv. apply vol_tot.
  pose proof (get_tot _ l n base k cap He Hk Hc) as H. unfold ans in H. unfold tot.
  destruct (overlay_get_key k cap (rw_vol s)) as [r v']. cbn [fst snd] in H. destruct H as [-> Hrd].
  unfold get_answer. rewrite <- lookup_over, Em. exists (m !! k), v'.
  assert (Hz : at_map (set_rw_vol v' s) m) by by eapply reads_at.
  destruct (m !! k) as [val|] eqn:Ek; [rewrite (proj2 (Z.ltb_ge cap (zlen val))) by auto|]; by split_and!.
Qed.
End calls.

(** ** Attributes as chains of rows *)

(** The value in the rows from index [idx] on. *)
Fixpoint chain (m : kmap) (ino : Z) (nm : bytes) (fuel : nat) (idx : Z) : bytes :=
  match fuel with
  | O => []
  | S fuel =>
      match m !! xattr_idx_key ino nm idx with
      | None => []
      | Some c => c ++ chain m ino nm fuel (idx + 1)
      end
  end.
Definition ATTR_CHUNKS : nat := Z.to_nat (XATTR_MAX_CHUNKS + 1).
Definition attr_of (m : kmap) (ino : Z) (nm : bytes) : option bytes :=
  match m !! xattr_key ino nm with
  | None => None
  | Some _ => Some (chain m ino nm ATTR_CHUNKS 0)
  end.

(** The rows of an attribute have at most 1024 bytes and indices below 64,
    which a value of 64 KiB needs. *)
Definition attr_bounded (m : kmap) (ino : Z) (nm : bytes) : Prop :=
  forall i c, 0 <= i < 2 ^ 16 -> m !! xattr_idx_key ino nm i = Some c -> i < 64 /\ zlen c <= 1024.

(** Only rows of the attribute from index [j] on changed. *)
Definition attr_from (ino : Z) (nm : bytes) (j : Z) (m m' : kmap) : Prop :=
  (forall k, (forall i, j <= i < 2 ^ 16 -> k <> xattr_idx_key ino nm i) -> m' !! k = m !! k) /\
  (attr_bounded m ino nm -> attr_bounded m' ino nm).

Section attrs.
Context (ino : Z) (nm : bytes).
Hypothesis (Hino : ino_ok ino) (Hnm : file_name nm).
Abbreviation xk := (xattr_idx_key ino nm).

Lemma xk_inj i j : 0 <= i < 2 ^ 16 -> 0 <= j < 2 ^ 16 -> xk i = xk j -> i = j.
Proof.
  intros Hi Hj. rewrite !xattr_idx_bytes. destruct Hnm as [_ Hl]. unfold ino_ok, INO_LIM in *.
  intros H%base_keys_inj; destruct (Z.eqb_spec i 0), (Z.eqb_spec j 0); cbn [key_ok] in *; try lia; congruence.
Qed.

Lemma attr_refl j m : attr_from ino nm j m m.
Proof. by split. Qed.
Lemma attr_trans j m1 m2 m3 : attr_from ino nm j m1 m2 -> attr_from ino nm j m2 m3 -> attr_from ino nm j m1 m3.
Proof. intros [H1 B1] [H2 B2]. split; [|auto]. intros k Hk. by rewrite H2, H1. Qed.
Lemma attr_weaken j j' m m' : j' <= j -> attr_from ino nm j m m' -> attr_from ino nm j' m m'.
Proof. intros Hj [H B]. split; [|done]. intros k Hk. apply H. intros i Hi. apply Hk. lia. Qed.

Lemma attr_below j m m' i : attr_from ino nm j m m' -> 0 <= i < j -> j <= 2 ^ 16 -> m' !! xk i = m !! xk i.
Proof. intros [H _] Hi Hj. apply H. intros i' Hi' Ei. apply xk_inj in Ei; lia. Qed.

Lemma attr_put j i c m :
  0 <= j <= i -> i < 64 -> zlen c <= 1024 -> attr_from ino nm j m (<[xk i := c]> m).
Proof.
  intros Hj Hi Hc. split.
  - intros k Hk. apply lookup_insert_ne. intros <-. apply (Hk i); [lia|done].
  - intros Hb i' c' Hi'. destruct (decide (xk i = xk i')) as [Ei|Hn].
    + rewrite <- Ei, lookup_insert_eq. intros [= <-]. apply xk_inj in Ei; lia.
    + rewrite lookup_insert_ne by done. by apply Hb.
Qed.
Lemma attr_del j i m : 0 <= j <= i -> i < 2 ^ 16 -> attr_from ino nm j m (delete (xk i) m).
Proof.
  intros Hj Hi. split.
  - intros k Hk. apply lookup_delete_ne. intros <-. apply (Hk i); [lia|done].
  - intros Hb i' c' Hi' [_ Hl]%lookup_delete_Some. by apply Hb in Hl.
Qed.

(** [cs] are the rows from index [idx] on. *)
Definition rows_at (m : kmap) (idx : Z) (cs : list bytes) : Prop :=
  forall (j : nat) c, cs !! j = Some c -> m !! xk (idx + Z.of_nat j) = Some c.

Lemma rows_chain cs : forall m fuel idx,
  rows_at m idx cs -> m !! xk (idx + zlen cs) = None -> (length cs < fuel)%nat -> chain m ino nm fuel idx = concat cs.
Proof.
  induction cs as [|c cs IH]; intros m [|fuel] idx Hr Hn Hf; try (cbn in Hf; lia); cbn [chain concat].
  { cbn in Hn. by rewrite Z.add_0_r in Hn; rewrite Hn. }
  pose proof (Hr O c eq_refl) as H0. rewrite Z.add_0_r in H0. rewrite H0. f_equal. apply IH; [| |cbn in Hf; lia].
  - intros j c' Hc'. replace (idx + 1 + Z.of_nat j) with (idx + Z.of_nat (S j)) by lia. by apply Hr.
  - rewrite <- Hn. do 2 f_equal. cbn [length]. lia.
Qed.
End attrs.

(** ** The operations on one attribute *)

Section attr_ops.
Context {D : Type} `{!Dev D, !DevLaws D} (E : penv) (RC : retire_calls (vol D dlog)).
Context (ino : Z) (nm : bytes).
Hypothesis (Hino : ino_ok ino) (Hnm : file_name nm).
Abbreviation V := (vol D dlog).
Abbreviation R := (rows V).
Abbreviation xk := (xattr_idx_key ino nm).
Implicit Types (s : R) (m : kmap).

Lemma chunk_size_eq : chunk_size (zlen nm) = 1024.
Proof.
  destruct Hnm as [_ Hl]. unfold INVFS_MAX_NAME in Hl.
  unfold chunk_size, xattr_chunk_cap, xattr_inline_cap, XATTR_FIXED, XATTR_CHUNK_EXTRA, XATTR_CHUNK_DATA, INVFS_BLOCK_SIZE.
  rewrite (u16_small (4096 - _)), u16_small by lia. lia.
Qed.

(** A step of a write: the rows of the attribute from [j] on may have changed. *)
Definition attr_step (j : Z) s m s' m' : Prop := at_map s' m' /\ kept s s' /\ attr_from ino nm j m m'.

Lemma attr_step_trans j s1 m1 s2 m2 s3 m3 :
  attr_step j s1 m1 s2 m2 -> attr_step j s2 m2 s3 m3 -> attr_step j s1 m1 s3 m3.
Proof.
  intros (_ & K1 & A1) (H & K2 & A2). split; [done|]. split; [by eapply kept_trans|by eapply attr_trans].
Qed.

Lemma put_chunk s m i c :
  at_map s m -> 0 <= i < 64 -> bytes_ok c -> zlen c <= 1024 ->
  ans (put E RC (xk i) c) s (fun r s' => exists m', attr_step i s m s' m' /\ (is_Some r -> m' !! xk i = Some c)).
Proof.
  intros Hm Hi Hb Hc. pose proof (put_ans E RC s m (xk i) c Hm (keyed_xattr ino nm i Hino Hnm ltac:(lia)) Hb ltac:(lia)) as H.
  unfold ans in *. destruct (put E RC (xk i) c s) as [[[]|] s']; cbn [fst snd] in *; destruct H as [H K]; eexists.
  - split; [split; [exact H|split; [done|by apply attr_put; lia || auto]]|]. intros _. apply lookup_insert_eq.
  - split; [split; [exact H|split; [done|apply attr_refl]]|]. by intros [].
Qed.

Lemma del_chunk s m i :
  at_map s m -> 0 <= i < 2 ^ 16 ->
  ans (del E RC (xk i)) s (fun r s' => exists m', attr_step i s m s' m' /\ (is_Some r -> m' !! xk i = None)).
Proof.
  intros Hm Hi. pose proof (del_ans E RC s m (xk i) Hm (keyed_xattr ino nm i Hino Hnm Hi)) as H.
  unfold ans in *. destruct (del E RC (xk i) s) as [[[]|] s']; cbn [fst snd] in *; destruct H as [H K]; eexists.
  - split; [split; [exact H|split; [done|apply attr_del; lia]]|]. intros _. apply lookup_delete_eq.
  - split; [split; [exact H|split; [done|apply attr_refl]]|]. by intros [].
Qed.

(** The rows that hold [val]. *)
Definition chunked m idx (val : bytes) k : Prop :=
  exists cs, rows_at ino nm m idx cs /\ concat cs = val /\ k = idx + zlen cs /\ cs <> [].

Lemma chunked_one m idx c : m !! xk idx = Some c -> chunked m idx c (idx + 1).
Proof.
  intros H. exists [c]. split_and!; [|apply app_nil_r|done|done].
  intros [|j] c' Hc'; [|done]. injection Hc' as <-. by rewrite Z.add_0_r.
Qed.

Lemma chunked_cons m idx c val k :
  m !! xk idx = Some c -> chunked m (idx + 1) val k -> chunked m idx (c ++ val) k.
Proof.
  intros H (cs & Hr & <- & -> & _). exists (c :: cs). split_and!; [|done|cbn [length]; lia|done].
  intros [|j] c' Hc'; [injection Hc' as <-; by rewrite Z.add_0_r|].
  replace (idx + Z.of_nat (S j)) with (idx + 1 + Z.of_nat j) by lia. by apply Hr.
Qed.

Lemma put_chunks_ans fuel : forall s m val idx,
  at_map s m -> bytes_ok val -> 0 < zlen val -> 0 <= idx -> 1024 * idx + zlen val <= 65536 ->
  zlen val <= 1024 * Z.of_nat fuel ->
  ans (put_chunks E RC fuel ino nm val 1024 idx) s (fun r s' => exists m', attr_step idx s m s' m' /\
    forall rest k, r = Some (rest, k) -> rest = [] /\ k <= 64 /\ chunked m' idx val k).
Proof.
  induction fuel as [|fuel IH]; intros s m val idx Hm Hb Hv Hi Ht Hf; [lia|]. cbn [put_chunks].
  set (c := take (Z.to_nat 1024) val). set (rest := drop (Z.to_nat 1024) val).
  assert (Hcr : c ++ rest = val) by apply take_drop.
  assert (Hlr : zlen rest = Z.max 0 (zlen val - 1024)) by (unfold rest; rewrite length_drop; lia).
  assert (Hlc : zlen c <= 1024) by (unfold c; rewrite length_take; lia).
  rewrite <- Hcr in Hb. apply Forall_app in Hb as [Hbc Hbr].
  eapply ans_seq; [exact (put_chunk s m idx c Hm ltac:(lia) Hbc Hlc)| |].
  2: { intros s' (m' & H & _). exists m'. split; [done|]. intros ? ? [=]. }
  intros [] s1 (m1 & H1 & Hrow). specialize (Hrow (ltac:(by eexists))).
  destruct (negb (zlen rest =? 0) && (idx + 1 <=? XATTR_MAX_CHUNKS)) eqn:Ego.
  - zbool. pose proof (IH s1 m1 rest (idx + 1) (proj1 H1) Hbr ltac:(lia) ltac:(lia) ltac:(lia) ltac:(lia)) as Hrec.
    unfold ans in *. destruct (put_chunks _ _ _ _ _ _ _ _ s1) as [r s']. cbn [fst snd] in *. destruct Hrec as (m' & H2 & Hr).
    exists m'. split.
    + eapply attr_step_trans; [exact H1|]. destruct H2 as (A & B & C). split; [done|]. split; [done|].
      by eapply attr_weaken; [|exact C]; lia.
    + intros rest' k Er. destruct (Hr rest' k Er) as (-> & Hk & Hch). split; [done|]. split; [done|].
      rewrite <- Hcr. apply chunked_cons; [|done].
      rewrite (attr_below ino nm Hino Hnm (idx + 1) m1 m' idx); [done|apply H2|lia|lia].
  - assert (rest = []) as Er. { apply nil_length_inv. unfold XATTR_MAX_CHUNKS in *. zbool; lia. }
    rewrite Er in *. apply ans_ret. exists m1. split; [done|]. intros rest' k [= <- <-]. split; [done|]. split; [lia|].
    rewrite <- Hcr, app_nil_r. by apply chunked_one.
Qed.

Lemma shadow_tail_ans fuel : forall s m idx,
  at_map s m -> 1 <= idx <= XATTR_MAX_CHUNKS ->
  ans (shadow_tail E RC fuel ino nm idx) s (fun r s' => exists m', attr_step idx s m s' m' /\
    (is_Some r -> (0 < fuel)%nat -> m' !! xk idx = None)).
Proof.
  induction fuel as [|fuel IH]; intros s m idx Hm Hi; cbn [shadow_tail].
  { apply ans_ret. exists m. split; [by split_and!|lia]. }
  unfold XATTR_MAX_CHUNKS in *. rewrite (proj2 (Z.ltb_ge 130 idx)) by lia.
  assert (Exk : xattr_chunk_key ino nm idx = xk idx).
  { unfold xattr_idx_key. by rewrite (proj2 (Z.eqb_neq idx 0)) by lia. }
  rewrite Exk. apply ans_bind. pose proof (row_ok_xattr ino nm idx [] Hnm ltac:(done) ltac:(done)) as Hrow.
  eapply tot_mono; [exact (exists_row s m (xk idx) Hm (proj2 Hrow))|]. intros ex s1 (-> & Hm1 & K1).
  destruct (m !! xk idx) as [c|] eqn:Ec; cbn [is_some].
  2: { apply ans_ret. exists m. split; [by split_and!|done]. }
  assert (Hk0 : forall s' m', attr_step idx s1 m s' m' -> attr_step idx s m s' m').
  { intros s' m'. apply attr_step_trans. by split_and!. }
  eapply ans_seq; [exact (del_chunk s1 m idx Hm1 ltac:(lia))| |].
  2: { intros s' (m' & H & _). exists m'. split; [auto|]. by intros []. }
  intros [] s2 (m2 & H2 & Hn). specialize (Hn (ltac:(by eexists))).
  destruct (decide (idx + 1 <= 130)) as [Hle|Hgt].
  - pose proof (IH s2 m2 (idx + 1) (proj1 H2) ltac:(lia)) as H. unfold ans in *.
    destruct (shadow_tail _ _ _ _ _ _ s2) as [r s']. cbn [fst snd] in *. destruct H as (m' & H3 & Hr). exists m'. split.
    + apply Hk0. eapply attr_step_trans; [exact H2|]. destruct H3 as (A & B & C). split_and!; [done..|].
      by eapply attr_weaken; [|exact C]; lia.
    + intros _ _. rewrite (attr_below ino nm Hino Hnm (idx + 1) m2 m' idx); [done|apply H3|lia|lia].
  - assert (Eend : shadow_tail E RC fuel ino nm (idx + 1) s2 = (Some tt, s2)).
    { destruct fuel; [done|]. cbn [shadow_tail]. unfold XATTR_MAX_CHUNKS. by rewrite (proj2 (Z.ltb_lt 130 _)) by lia. }
    unfold ans. rewrite Eend. exists m2. split; [auto|done].
Qed.

(** The rows of a value, and none behind them: that is the value. *)
Lemma chunked_attr m val k :
  chunked m 0 val k -> k <= 64 -> m !! xk k = None -> attr_of m ino nm = Some val.
Proof.
  intros (cs & Hr & <- & Ek & Hne) Hk Hn. unfold attr_of. destruct cs as [|c cs]; [done|].
  pose proof (Hr O c eq_refl) as H0. change (xk (0 + Z.of_nat 0)) with (xattr_key ino nm) in H0. rewrite H0.
  f_equal. apply rows_chain; [done|by rewrite Ek in Hn|]. unfold ATTR_CHUNKS, XATTR_MAX_CHUNKS. lia.
Qed.

Lemma chunked_kept m m' j val k :
  chunked m 0 val k -> attr_from ino nm j m m' -> k <= j -> j <= 2 ^ 16 -> chunked m' 0 val k.
Proof.
  intros (cs & Hr & Ec & Ek & Hne) Ha Hk Hj. exists cs. split_and!; [|done..]. intros i c Hc.
  pose proof (lookup_lt_Some _ _ _ Hc). rewrite (attr_below ino nm Hino Hnm j m m'); [by apply Hr|done|lia|done].
Qed.

(** What an attempt to write the attribute leaves: it is [o] when the call
    said so, and nothing else changed. *)
Definition attr_written s m (done : bool) (o : option bytes) s' : Prop :=
  exists m', attr_step 0 s m s' m' /\ (done = true -> attr_of m' ino nm = o).

Definition is_xok (r : option xattr_rc) : bool := match r with Some XOk => true | _ => false end.

(** The first of two steps. *)
Lemma put_value_ans s m val :
  at_map s m -> bytes_ok val -> zlen val <= XATTR_MAX_TOTAL ->
  ans (if zlen val <=? 1024 then put E RC (xattr_key ino nm) val ;;; mret ([], 1)
       else put_chunks E RC (Z.to_nat (XATTR_MAX_CHUNKS + 1)) ino nm val 1024 0) s (fun r s' =>
    exists m', attr_step 0 s m s' m' /\
      forall rest k, r = Some (rest, k) -> rest = [] /\ 1 <= k <= 64 /\ chunked m' 0 val k).
Proof.
  intros Hm Hb Hl. unfold XATTR_MAX_TOTAL in *. destruct (Z.leb_spec (zlen val) 1024) as [Hle|Hgt].
  - eapply ans_seq; [exact (put_chunk s m 0 val Hm ltac:(lia) Hb Hle)| |].
    + intros [] s' (m' & H & Hr). apply ans_ret. exists m'. split; [done|]. intros rest k [= <- <-].
      split; [done|]. split; [lia|]. apply chunked_one, Hr. by eexists.
    + intros s' (m' & H & _). exists m'. split; [done|]. by intros ? ?.
  - unfold XATTR_MAX_CHUNKS.
    pose proof (put_chunks_ans (Z.to_nat (130 + 1)) s m val 0 Hm Hb ltac:(lia) ltac:(lia) ltac:(lia) ltac:(lia)) as H.
    unfold ans in *. destruct (put_chunks _ _ _ _ _ _ _ _ s) as [r s']. destruct H as (m' & H & Hr). exists m'.
    split; [done|]. intros rest k Er. destruct (Hr rest k Er) as (-> & Hk & Hc). split; [done|]. split; [|done].
    destruct Hc as (cs & _ & _ & -> & Hne). destruct cs; [done|]. cbn [length] in *. lia.
Qed.

Lemma xattr_set_ans s m val :
  at_map s m -> bytes_ok val ->
  ans (vol_xattr_delta_set E RC ino nm val) s (fun r s' => attr_written s m (is_xok r) (Some val) s').
Proof.
  intros Hm Hb. assert (Hno : forall e, is_xok (Some e) = false -> attr_written s m (is_xok (Some e)) (Some val) s).
  { intros e He. exists m. split; [by split_and!|]. by rewrite He. }
  unfold vol_xattr_delta_set. apply ans_bind, tot_get. branch; [by apply ans_ret, Hno|].
  branch; [by apply ans_ret, Hno|].
  destruct (Z.ltb_spec XATTR_MAX_TOTAL (zlen val)) as [Hgt|Hl]; [by apply ans_ret, Hno|].
  apply ans_bind, (ready_tot s m); [done|]. rewrite chunk_size_eq. change (1024 =? 0) with false. cbv iota.
  eapply or_ans; [exact (put_value_ans s m val Hm Hb Hl)| |].
  2: { intros s' (m' & H' & _). by exists m'. }
  intros [rest k] s1 (m1 & H1 & Hr). destruct (Hr rest k eq_refl) as (-> & Hk & Hc). cbn [fst snd length Z.of_nat Z.eqb negb].
  unfold XATTR_MAX_CHUNKS.
  eapply or_ans; [exact (shadow_tail_ans (Z.to_nat 130) s1 m1 k (proj1 H1) ltac:(unfold XATTR_MAX_CHUNKS; lia))| |].
  - intros [] s2 (m2 & H2 & Hn). apply ans_ret. exists m2. split.
    + eapply attr_step_trans; [exact H1|]. destruct H2 as (A & B & C). split_and!; [done..|].
      by eapply attr_weaken; [|exact C]; lia.
    + intros _. apply (chunked_attr m2 val k); [|lia|apply Hn; [by eexists|lia]].
      eapply chunked_kept; [exact Hc|apply H2|lia|lia].
  - intros s2 (m2 & (A & B & C) & _). exists m2. split; [|done]. eapply attr_step_trans; [exact H1|]. split_and!; [done..|].
    by eapply attr_weaken; [|exact C]; lia.
Qed.

Lemma xattr_del_ans s m :
  at_map s m ->
  ans (vol_xattr_delta_del E RC ino nm) s (fun r s' =>
    attr_written s m (is_xok r) None s' /\
    (r = Some XNoData -> attr_of m ino nm = None /\ at_map s' m) /\ (is_xok r = true -> is_Some (attr_of m ino nm))).
Proof.
  intros Hm. assert (Hno : forall e s', is_xok (Some e) = false -> at_map s' m -> kept s s' ->
    attr_written s m (is_xok (Some e)) None s').
  { intros e s' He Ha Hk. exists m. split; [by split_and!|]. by rewrite He. }
  unfold vol_xattr_delta_del. apply ans_bind, tot_get. branch; [apply ans_ret; split_and!; [by apply Hno|done|done]|].
  branch; [apply ans_ret; split_and!; [by apply Hno|done|done]|].
  apply ans_bind, (ready_tot s m); [done|]. pose proof (row_ok_xattr ino nm 0 [] Hnm ltac:(done) ltac:(done)) as [_ Hrow].
  apply or_bind. eapply tot_mono; [exact (exists_row s m (xk 0) Hm Hrow)|].
  intros ex s1 (-> & Hm1 & K1). change (xk 0) with (xattr_key ino nm) in *.
  destruct (m !! xattr_key ino nm) as [c|] eqn:Ec; cbn [is_some negb].
  2: { apply ans_ret. split_and!; [by apply Hno| |done]. intros _. split; [|done]. unfold attr_of. by rewrite Ec. }
  eapply (or_ans _ _ _ _ (fun r s' => exists m', attr_step 0 s1 m s' m' /\ (is_Some r -> m' !! xk 0 = None))).
  - eapply ans_seq; [exact (del_chunk s1 m 0 Hm1 ltac:(lia))| |].
    2: { intros s' (m' & H' & _). exists m'. split; [done|]. by intros []. }
    intros [] s2 (m2 & H2 & Hn). unfold XATTR_MAX_CHUNKS.
    pose proof (shadow_tail_ans (Z.to_nat 130) s2 m2 1 (proj1 H2) ltac:(unfold XATTR_MAX_CHUNKS; lia)) as Ht.
    unfold ans in *. destruct (shadow_tail _ _ _ _ _ _ s2) as [r s']. destruct Ht as (m' & H3 & _). exists m'. split.
    + eapply attr_step_trans; [exact H2|]. destruct H3 as (A & B & C). split_and!; [done..|].
      by eapply attr_weaken; [|exact C]; lia.
    + intros _. rewrite (attr_below ino nm Hino Hnm 1 m2 m' 0); [apply Hn; by eexists|apply H3|lia|lia].
  - intros [] s2 (m2 & H2 & Hn). apply ans_ret. split_and!; [|done|intros _; unfold attr_of; by rewrite Ec]. exists m2. split.
    + eapply attr_step_trans; [|exact H2]. by split_and!.
    + intros _. unfold attr_of. change (xattr_key ino nm) with (xk 0). rewrite Hn; [done|by eexists].
  - intros s2 (m2 & H2 & _). split_and!; [|done|done]. exists m2. split; [|done]. eapply attr_step_trans; [|exact H2]. by split_and!.
Qed.

Lemma get_chunks_tot fuel : forall s m acc idx,
  at_map s m -> attr_bounded m ino nm -> 0 <= idx <= 64 -> Z.of_nat fuel = 131 - idx -> zlen acc <= 1024 * idx ->
  tot (get_chunks fuel ino nm acc idx) s (fun r s' =>
    r = (if (idx =? 0) && negb (is_some (m !! xk 0)) then (XNoData, []) else (XOk, acc ++ chain m ino nm fuel idx)) /\
    at_map s' m /\ kept s s').
Proof.
  induction fuel as [|fuel IH]; intros s m acc idx Hm Hb Hi Hf Ha; [lia|]. cbn [get_chunks chain].
  pose proof (row_ok_xattr ino nm idx [] Hnm ltac:(done) ltac:(done)) as [_ Hrow]. unfold XATTR_CHUNK_DATA, XATTR_MAX_TOTAL, XATTR_MAX_CHUNKS.
  apply or_tot. eapply tot_mono; [apply (get_row s m (xk idx) (1024 + 1) Hm Hrow); [lia|]|].
  { intros val Hv. apply Hb in Hv; lia. }
  intros r s1 (-> & Hm1 & K1). destruct (m !! xk idx) as [c|] eqn:Ec.
  - destruct (Hb idx c ltac:(lia) Ec) as [Hlt Hc].
    rewrite (proj2 (Z.ltb_ge (64 * 1024) _)), (proj2 (Z.leb_gt 130 idx)) by lia.
    eapply tot_mono; [apply (IH s1 m (acc ++ c) (idx + 1)); [done|done|lia|lia|rewrite length_app; lia]|].
    intros r s2 (-> & Hm2 & K2). rewrite (proj2 (Z.eqb_neq (idx + 1) 0)) by lia. cbn [andb].
    assert (E0 : (idx =? 0) && negb (is_some (m !! xk 0)) = false).
    { destruct (Z.eqb_spec idx 0) as [->|]; [by rewrite Ec|done]. }
    rewrite E0, <- app_assoc. split; [done|]. split; [done|by eapply kept_trans].
  - apply tot_ret. rewrite app_nil_r. destruct (Z.eqb_spec idx 0) as [->|]; [rewrite Ec|]; by split_and!.
Qed.

Definition get_attr (o : option bytes) (cap : Z) : xattr_rc * bytes * Z :=
  match o with
  | None => (XNoData, [], cap)
  | Some val =>
      if cap =? 0 then (XOk, [], zlen val)
      else if cap <? zlen val then (XRange, [], cap) else (XOk, val, zlen val)
  end.

Lemma xattr_get_tot s m cap :
  at_map s m -> attr_bounded m ino nm -> nm <> [] ->
  tot (vol_xattr_get ino nm cap) s (fun r s' => r = get_attr (attr_of m ino nm) cap /\ at_map s' m /\ kept s s').
Proof.
  intros Hm Hb Hne. unfold vol_xattr_get. assert (Hn : name_ok nm = true).
  { destruct Hnm as [_ Hl]. unfold name_ok. destruct nm; [done|]. cbn [length]. cbn [length] in Hl.
    rewrite (proj2 (Z.ltb_lt 0 _)), (proj2 (Z.leb_le _ _)) by lia. done. }
  rewrite Hn. cbn [negb]. apply tot_bind, (ready_tot s m); [done|]. unfold XATTR_MAX_CHUNKS. apply tot_bind.
  eapply tot_mono; [apply (get_chunks_tot (Z.to_nat (130 + 1)) s m [] 0 Hm Hb); cbn [length]; lia|].
  intros r s' (-> & Hm' & K). unfold attr_of. change (xk 0) with (xattr_key ino nm). cbn [Z.eqb andb app].
  destruct (m !! xattr_key ino nm) as [c|]; cbn [is_some negb get_attr]; [|by apply tot_ret].
  change (Z.to_nat (130 + 1)) with ATTR_CHUNKS. destruct (cap =? 0); [by apply tot_ret|].
  destruct (cap <? _); by apply tot_ret.
Qed.
End attr_ops.

(** ** Rows of fixed size *)

Lemma length_ino_encode i : length (i_recipe_addr i) = 32%nat -> zlen (ino_encode i) = INVFS_INODE_ROW_FIXED.
Proof.
  intros Ha. unfold ino_encode. rewrite !length_app, !length_le_bytes, length_ptr_bytes, Ha. done.
Qed.

Section fixed.
Context {D : Type} `{!Dev D, !DevLaws D} (E : penv) (RC : retire_calls (vol D dlog)).
Abbreviation V := (vol D dlog).
Abbreviation R := (rows V).
Implicit Types (s : R) (m : kmap).

(** A read that looks a row of [sz] bytes up in the recent tier, and in the
    base when the recent tier says nothing. *)
Lemma tiers_tot {A} (s : R) m k sz (f : bool -> bytes -> M R A) (g : option bytes -> M R A) (Q : A -> R -> Prop) :
  at_map s m -> k <> [] -> (forall val, m !! k = Some val -> 0 < zlen val <= sz) ->
  (forall s', at_map s' m -> kept s s' ->
     tot (match m !! k with Some val => f false val | None => f true [] end) s' Q /\ tot (g (m !! k)) s' Q) ->
  tot (let* dr := on_vol (vol_delta_lookup_value k sz) in
       match dr with
       | LErr | LShort _ _ => mfail
       | LFound flags rb => f (is_delete flags) rb
       | LMiss => let* val := on_vol (base_get k) in g val
       end) s Q.
Proof.
  intros (l & n & base & He & Em & Ht) Hk Hsz HQ. apply tot_bind, vol_tot.
  eapply tot_mono; [exact (lookup_tot _ l k sz (en_live _ _ _ _ He) (en_room _ _ _ _ He) Hk)|].
  intros r v1 (-> & _ & _ & Hrd). destruct (engine_reads _ v1 l n base Hrd He) as [He1 _].
  assert (H1 : at_map (set_rw_vol v1 s) m) by by exists l, n, base.
  assert (Eo : m !! k = over_one (content l !! k) (base !! k)) by (rewrite <- Em; apply lookup_over).
  destruct (content l !! k) as [[fl val]|] eqn:Ec; cbn [lookup_answer over_one] in *.
  - destruct (HQ _ H1 (kept_vol _ _)) as [Hf _].
    destruct (rows_ok_del _ _ _ _ (en_rows _ _ _ _ He) Ec) as [[Hd ->]|[Hd ->]]; rewrite Hd in Eo; rewrite Eo in Hf.
    + pose proof (Hsz _ Eo). rewrite (proj2 (Z.eqb_neq _ 0)), (proj2 (Z.ltb_ge sz _)) by lia. by rewrite Hd.
    + change (zlen [] =? 0) with true. cbv iota. by rewrite Hd.
  - apply tot_bind, vol_tot. eapply tot_mono; [exact (base_get_tot v1 l n base k He1)|]. intros r v2 [-> Hrd2].
    rewrite <- Eo. apply HQ; [|done]. apply (reads_at (set_rw_vol v1 s) m v2 l n base He1 Em Ht Hrd2).
Qed.

Lemma inode_get_tot s m id oi :
  at_map s m -> m !! ino_key id = ino_encode <$> oi -> (forall i, oi = Some i -> inode_ok i) ->
  tot (vol_inode_get id) s (fun r s' => r = oi /\ at_map s' m /\ kept s s').
Proof.
  intros Hm Ek Hok. unfold vol_inode_get. apply tot_bind, (ready_tot s m); [done|].
  apply (tiers_tot s m (ino_key id) INVFS_INODE_ROW_FIXED
    (fun d rb => if d then mret None else match ino_decode rb with Some i => mret (Some i) | None => mfail end)
    (fun val => match val with None => mret None
       | Some val => match ino_decode val with Some i => mret (Some i) | None => mfail end end)); [done| | |].
  - apply (row_ok_ino id []); done.
  - intros val. rewrite Ek. destruct oi as [i|]; [|done]. intros [= <-].
    rewrite length_ino_encode by (by apply (io_addr _ (Hok i eq_refl))). done.
  - intros s' Hm' K. rewrite Ek. destruct oi as [i|]; cbn [fmap option_fmap option_map];
      [rewrite (ino_decode_encode i) by auto|]; split; by apply tot_ret.
Qed.

Lemma dirent_get_tot s m p nm oc :
  at_map s m -> file_name nm -> m !! dirent_key p nm = dirent_val <$> oc -> (forall c, oc = Some c -> 0 <= c < 2 ^ 64) ->
  tot (vol_dirent_get p nm) s (fun r s' => r = oc /\ at_map s' m /\ kept s s').
Proof.
  intros Hm Hnm Ek Hok. unfold vol_dirent_get. apply tot_bind, tot_guard; [apply Z.leb_le, Hnm|].
  apply tot_bind, (ready_tot s m); [done|].
  apply (tiers_tot s m (dirent_key p nm) 8
    (fun d vb => if d then mret None else mguard (zlen vb =? 8) ;;; mret (Some (dirent_val_get vb)))
    (fun val => mret (option_map dirent_val_get val))); [done| | |].
  - by apply (row_ok_dirent p nm []).
  - intros val. rewrite Ek. destruct oc as [c|]; [|done]. intros [= <-]. unfold dirent_val. by rewrite length_put_be64.
  - intros s' Hm' K. rewrite Ek. destruct oc as [c|]; cbn [fmap option_fmap option_map]; [|split; by apply tot_ret].
    rewrite (dirent_val_roundtrip c) by auto. split; [|by apply tot_ret].
    apply tot_bind, tot_guard; [|by apply tot_ret]. unfold dirent_val. by rewrite length_put_be64.
Qed.
End fixed.
End RowsSpec.
