(* ===== verification/ScanSpec.v ===== *)
(** * Scans of the two tiers

    The range queries of both tiers on a mounted volume, and the merges built on
    them: a directory scan, the scan of attribute names, the keys of an inode's
    attributes and the highest inode number in use. *)

From stdpp Require Import sorting.
From S2P Require Import Prelude Dev Mem Alloc Volume Anchor Page PageLogic Metabuf MetaLive Keys Kv Node BTree TreeSpec Check Frame.
From S2P Require Import DeltaIndex DeltaRec Delta DeltaLog DeltaAppend DeltaSession Overlay Engine Rows RowsSpec.

Module ScanSpec.
Import Alloc Volume Anchor Page PageLogic Metabuf MetaLive Keys Kv Node BTree TreeSpec Check Frame.
Import DeltaIndex DeltaRec Delta DeltaLog DeltaAppend DeltaSession Overlay Engine Rows RowsSpec.

(** ** Ranges *)

(** [rows] lists the part of [m] in [[lo, hi)], in key order. *)
Definition range_of {A} (lo hi : bytes) (m : gmap bytes A) (rows : list (bytes * A)) : Prop :=
  ksorted (map fst rows) /\ forall k x, (k, x) ∈ rows <-> m !! k = Some x /\ in_range lo hi k.

Lemma range_of_filter lo hi (kvs : list kv) :
  ksorted (map fst kvs) -> range_of lo hi (to_map kvs) (range lo hi kvs).
Proof.
  intros Hs. split.
  - clear -Hs. induction kvs as [|[k x] kvs IH]; [done|]. cbn [map fst] in Hs. apply ksorted_cons in Hs as [Hs Hk].
    unfold range. rewrite filter_cons. destruct (decide _); [|by apply IH]. cbn [map fst]. apply ksorted_cons.
    split; [by apply IH|]. apply Forall_forall. intros y Hy. rewrite Forall_forall in Hk. apply Hk.
    apply in_map_iff in Hy as (p & <- & Hp). apply in_map_iff. exists p. split; [done|].
    apply list_elem_of_In in Hp. by apply list_elem_of_filter in Hp as [_ Hp%list_elem_of_In].
  - intros k x. unfold range. rewrite list_elem_of_filter, to_map_lookup by done. cbn. tauto.
Qed.

Lemma range_unique {A} (lo hi : bytes) (m : gmap bytes A) (r1 r2 : list (bytes * A)) :
  range_of lo hi m r1 -> range_of lo hi m r2 -> r1 = r2.
Proof.
  intros [S1 M1] [S2 M2].
  assert (Hd : forall r, ksorted (map fst r) -> NoDup r /\ StronglySorted (fun a b : bytes * A => key_lt a.1 b.1) r).
  { induction r as [|[k x] r IH]; [split; constructor|]. cbn [map fst]. intros [Hs Hk]%ksorted_cons.
    destruct (IH Hs) as [Hn Hr]. rewrite Forall_forall in Hk. split.
    - apply list.NoDup_cons. split; [|done]. intros Hin. apply (key_lt_irrefl k), Hk, (in_map fst _ (k, x)), list_elem_of_In, Hin.
    - constructor; [done|]. apply Forall_forall. intros e He. apply Hk. by apply in_map. }
  apply (StronglySorted_unique_strong (fun a b : bytes * A => key_lt a.1 b.1)); [|apply Hd, S1|apply Hd, S2|].
  - intros x1 x2 _ _ H1 H2. exfalso. by apply (key_lt_irrefl _ (key_lt_trans _ _ _ H1 H2)).
  - apply list.NoDup_Permutation; [apply Hd, S1|apply Hd, S2|]. intros [k x]. by rewrite M1, M2.
Qed.

Section scans.
Context {D : Type} `{!Dev D, !DevLaws D}.
Abbreviation V := (vol D dlog).
Abbreviation R := (rows V).
Implicit Types (v : V) (l : list seg) (s : R).

(** The view of the index a thread scans through: current, or found stale. *)
Definition good_view (sv : di_sorted) v : Prop := forall di, d_index (v_x v) = Some di -> view_ok sv di.

(** A callback that does [F] to its context, and reads at most. *)
Definition acts {C} l n base (cb : C -> bytes -> delta_ref -> M V (Z * C)) (F : C -> bytes -> Z * bytes -> C) : Prop :=
  forall v c k r x, engine v l n base -> places l !! k = Some (noseq r) -> content l !! k = Some x ->
    tot (cb c k r) v (fun rc v' => rc = (0, F c k x) /\ reads v v').

Lemma run_range_tot {C} l n base cb (F : C -> bytes -> Z * bytes -> C) es : forall v c,
  acts l n base cb F -> engine v l n base ->
  Forall (fun e => places l !! e.1 = Some (noseq e.2)) es ->
  tot (run_range_m cb es c) v (fun rc v' =>
    rc = (0, foldl (fun c e => F c e.1 e.2) c (map (fun e => (e.1, default (0, []) (content l !! e.1))) es)) /\ reads v v').
Proof.
  induction es as [|[k r] es IH]; intros v c Hcb He Hes; cbn [run_range_m].
  { apply tot_ret. split; [done|]. apply reads_refl, (en_live _ _ _ _ He). }
  apply Forall_cons_iff in Hes as [Hk Hes]. cbn [fst snd] in Hk.
  pose proof (places_content l k) as Ha. rewrite Hk in Ha. destruct (content l !! k) as [x|] eqn:Ec; [|done].
  apply tot_bind. eapply tot_mono; [exact (Hcb v c k r x He Hk Ec)|]. intros rc v1 [-> Hrd]. cbn [fst snd Z.eqb negb].
  destruct (engine_reads v v1 l n base Hrd He) as [He1 _].
  eapply tot_mono; [exact (IH v1 (F c k x) Hcb He1 Hes)|]. intros rc v2 [-> Hrd2]. split; [|by eapply reads_trans].
  cbn [map foldl fst snd]. by rewrite Ec.
Qed.

Lemma delta_range_tot {C} v l n base cb (F : C -> bytes -> Z * bytes -> C) sv lo hi :
  engine v l n base -> acts l n base cb F -> good_view sv v ->
  exists rows, range_of lo hi (content l) rows /\ forall c,
    tot (delta_range cb sv lo hi c) v (fun rc v' =>
      rc = (0, foldl (fun c e => F c e.1 e.2) c rows) /\ reads v v').
Proof.
  intros He Hcb Hsv. destruct (lv_index v l (en_live _ _ _ _ He)) as (di & Hdi & Hok & Hm).
  destruct (view_refresh sv di (Hsv di Hdi)) as [_ Ev].
  destruct (range_entries_spec di lo hi _ Hok Ev) as [Hs Hin]. set (es := range_entries di _ lo hi) in *.
  assert (Hplace : forall k, noseq <$> (di_map di !! k) = places l !! k) by (intros; by rewrite <- Hm, lookup_fmap).
  exists (map (fun e => (e.1, default (0, []) (content l !! e.1))) es). split; [split|].
  - by rewrite map_map.
  - intros k x. rewrite list_elem_of_fmap. split.
    + intros ([k' r] & [= -> ->] & Hr%Hin). destruct Hr as [Hr Hrg]. cbn [fst]. split; [|done].
      pose proof (places_content l k') as Ha. rewrite <- Hplace, Hr in Ha. cbn in Ha. by destruct (content l !! k').
    + intros [Hx Hrg]. pose proof (places_content l k) as Ha. rewrite <- Hplace, Hx in Ha.
      destruct (di_map di !! k) as [r|] eqn:Er; [|done]. exists (k, r). cbn [fst]. rewrite Hx. split; [done|]. by apply Hin.
  - intros c. unfold delta_range. apply tot_bind, tot_get. rewrite Hdi. apply (run_range_tot l n base cb F es v c Hcb He).
    apply Forall_forall. intros [k r] Hr%list_elem_of_In%Hin. cbn [fst snd]. by rewrite <- Hplace, (proj1 Hr).
Qed.

Lemma base_scan_tot {C} v l n base (cb : C -> bytes -> bytes -> Z * C) lo hi :
  engine v l n base ->
  exists rows, range_of lo hi base rows /\ forall c,
    tot (btree_scan cb (current_root v) lo hi c) v (fun r v' => r = run_cb cb rows c /\ reads v v').
Proof.
  intros He. destruct (ba_tree _ _ _ _ (en_base _ _ _ _ He)) as (kvs & Hr & Em).
  exists (range lo hi kvs). split; [rewrite <- Em; apply range_of_filter; exact (root_at_sorted (PageStoreLaws0 := world_laws v (log_block l)) _ _ _ _ Hr)|]. intros c.
  pose proof (wp_btree_scan (PageStoreLaws0 := world_laws v (log_block l)) (PageStoreLive0 := read_laws v (log_block l))
    cb True n v (current_root v) kvs lo hi c Hr) as Hw.
  pose proof (ba_depth _ _ _ _ (en_base _ _ _ _ He)) as Hd.
  destruct (wp_run True 0 0 _ _ _ (Hw ltac:(unfold BT_MAX_DEPTH in Hd; lia)) I
    (conj (log_owned v l (en_live _ _ _ _ He) (en_room _ _ _ _ He) (en_sound _ _ _ _ He) (en_boot _ _ _ _ He))
      (moves_refl _ _ v (en_sound _ _ _ _ He))) I eq_refl) as (r & v' & E1 & _ & _ & Hs & _).
  exists r, v'. split; [done|]. split.
  - destruct Hs as [->|[_ Hn]]; [done|]. exfalso. by apply Hn.
  - apply reads_only; [apply He|]. exact (keeps_btree_scan only_read cb (current_root v) lo hi c v _ v' E1).
Qed.
(** The rows of both tiers in a range; every scan of it sees them. *)
Lemma ranges_exist v l n base lo hi :
  engine v l n base -> exists dl bl, range_of lo hi (content l) dl /\ range_of lo hi base bl.
Proof.
  intros He. destruct (base_scan_tot v l n base (fun (c : unit) _ _ => (0, c)) lo hi He) as (bl & Hb & _).
  destruct (lv_index v l (en_live _ _ _ _ He)) as (di & Hdi & _).
  destruct (delta_range_tot v l n base (fun (c : unit) _ _ => mret (0, c)) (fun c _ _ => c) (di_sorted_build di) lo hi He)
    as (dl & Hd & _).
  - intros v' c k r x He' _ _. apply tot_ret. split; [done|]. apply reads_refl, (en_live _ _ _ _ He').
  - intros di' E'. rewrite Hdi in E'. injection E' as <-. apply view_build.
  - by exists dl, bl.
Qed.

Lemma delta_pass {C} v l n base cb (F : C -> bytes -> Z * bytes -> C) sv lo hi dl c :
  engine v l n base -> acts l n base cb F -> good_view sv v -> range_of lo hi (content l) dl ->
  tot (delta_range cb sv lo hi c) v (fun rc v' => rc = (0, foldl (fun c e => F c e.1 e.2) c dl) /\ reads v v').
Proof.
  intros He Hcb Hsv Hd. destruct (delta_range_tot v l n base cb F sv lo hi He Hcb Hsv) as (dl' & Hd' & H).
  by rewrite (range_unique lo hi _ dl dl' Hd Hd').
Qed.

Lemma base_pass {C} v l n base (cb : C -> bytes -> bytes -> Z * C) lo hi bl c :
  engine v l n base -> range_of lo hi base bl ->
  tot (btree_scan cb (current_root v) lo hi c) v (fun r v' => r = run_cb cb bl c /\ reads v v').
Proof.
  intros He Hb. destruct (base_scan_tot v l n base cb lo hi He) as (bl' & Hb' & H).
  by rewrite (range_unique lo hi _ bl bl' Hb Hb').
Qed.

Lemma root_pass v l n base :
  engine v l n base -> tot base_root v (fun r v' => r = current_root v' /\ reads v v').
Proof.
  intros He. eapply tot_mono; [exact (base_root_tot v _ n base (en_sound _ _ _ _ He) (rm_rtok _ _ (en_room _ _ _ _ He))
    (en_rt _ _ _ _ He) (en_base _ _ _ _ He))|]. intros r v' [-> Hrd]. split; [|done].
  by destruct (engine_reads v v' l n base Hrd He) as [_ ->].
Qed.

(** A step that only reads. *)
Lemma read_step {A} (c : M V A) s l n base (Q : A -> R -> Prop) (T : A -> V -> Prop) :
  engine (rw_vol s) l n base -> tot c (rw_vol s) (fun a v' => T a v' /\ reads (rw_vol s) v') ->
  (forall a v', T a v' -> engine v' l n base -> reads (rw_vol s) v' -> Q a (set_rw_vol v' s)) -> tot (on_vol c) s Q.
Proof.
  intros He Hc HQ. apply vol_tot. eapply tot_mono; [exact Hc|]. intros a v' [HT Hrd].
  destruct (engine_reads _ v' l n base Hrd He) as [He' _]. auto.
Qed.
End scans.

(** ** The merge of a directory scan *)

(** A key that [emit_dirent] takes for a directory entry, and its name. *)
Definition dirent_shape (k : bytes) : bool :=
  (DIRENT_KEY_FIXED <=? zlen k) && (dirent_key_len k =? zlen k) &&
  negb ((dl_rd16be k 8 =? 0) || (INVFS_MAX_NAME <? dl_rd16be k 8)).
Definition dirent_name (k : bytes) : bytes := slice k DIRENT_KEY_FIXED (dl_rd16be k 8).

(** What a record of the recent tier, and a row of the base, put into the
    merge. *)
Definition merge_of (e : bytes * (Z * bytes)) : merge_ent :=
  if dirent_shape e.1 && negb (is_delete e.2.1) && (zlen e.2.2 =? 8)
  then mkMerge e.1 false (dirent_val_get e.2.2) else mkMerge e.1 true 0.
Definition base_of (e : kv) : merge_ent := mkMerge e.1 false (dirent_val_get e.2).

Lemma merge_of_key e : g_key (merge_of e) = e.1.
Proof. unfold merge_of. by destruct (_ && _). Qed.

Fixpoint before (k : bytes) (l : list merge_ent) : list merge_ent :=
  match l with
  | e :: l => if vol_key_cmp (g_key e) k <? 0 then e :: before k l else []
  | [] => []
  end.
Fixpoint after (k : bytes) (l : list merge_ent) : list merge_ent :=
  match l with
  | e :: l' => if vol_key_cmp (g_key e) k <? 0 then after k l' else l
  | [] => []
  end.

(** The merge of the recent entries [l] with the rows [b] of the base. *)
Fixpoint weave (l : list merge_ent) (b : list kv) : list merge_ent :=
  match b with
  | [] => l
  | (k, val) :: b =>
      before k l ++
      match after k l with
      | e :: l' => if vol_key_cmp (g_key e) k =? 0 then e :: weave l' b else base_of (k, val) :: weave (e :: l') b
      | [] => base_of (k, val) :: weave [] b
      end
  end.

Section merge.
Context {C : Type} (cb : C -> bytes -> Z -> Z * C).

(** The callback over the entries, up to its first non-zero answer. *)
Fixpoint run_names (l : list (bytes * Z)) (c : C) : Z * C :=
  match l with
  | [] => (0, c)
  | (nm, child) :: l => let '(rc, c) := cb c nm child in if negb (rc =? 0) then (rc, c) else run_names l c
  end.

Definition visible (e : merge_ent) : option (bytes * Z) :=
  if negb (g_deleted e) && dirent_shape (g_key e) then Some (dirent_name (g_key e), g_child e) else None.

Lemma emit_shape c k child :
  emit_dirent cb c k child = if dirent_shape k then cb c (dirent_name k) child else (0, c).
Proof.
  unfold emit_dirent, dirent_shape. rewrite (Z.ltb_antisym DIRENT_KEY_FIXED). destruct (_ <=? zlen k); [|done]. cbn [negb andb].
  destruct (dirent_key_len k =? zlen k); [|done]. cbn [negb andb]. by destruct (_ || _).
Qed.

Lemma merge_emit_visible c e :
  merge_emit cb c e = match visible e with Some (nm, child) => cb c nm child | None => (0, c) end.
Proof. unfold merge_emit, visible. destruct (g_deleted e); [done|]. cbn [negb andb]. rewrite emit_shape. by destruct (dirent_shape _). Qed.

Lemma tail_names l c : merge_tail cb l c = run_names (omap visible l) c.
Proof.
  revert c. induction l as [|e l IH]; intros c; [done|]. cbn [merge_tail omap list_omap]. rewrite merge_emit_visible.
  destruct (visible e) as [[nm child]|]; cbn [run_names Z.eqb negb]; [|apply IH].
  destruct (cb c nm child) as [rc c1]. by rewrite IH.
Qed.

Lemma run_names_app a b c :
  run_names (a ++ b) c = let '(rc, c') := run_names a c in if negb (rc =? 0) then (rc, c') else run_names b c'.
Proof.
  revert c. induction a as [|[nm child] a IH]; intros c; cbn [run_names app]; [done|].
  destruct (cb c nm child) as [rc c1]. by destruct (negb (rc =? 0)) eqn:Erc; [rewrite Erc|].
Qed.

(** The entries before a key, up to a non-zero answer. *)
Lemma emit_before_names k l : forall c,
  let '(rc, c') := run_names (omap visible (before k l)) c in
  exists l', emit_before cb k l c = (rc, (l', c')) /\ (rc = 0 -> l' = after k l).
Proof.
  induction l as [|e l IH]; intros c; cbn [before after emit_before omap list_omap run_names]; [by exists []|].
  destruct (vol_key_cmp (g_key e) k <? 0); [|by exists (e :: l)].
  rewrite merge_emit_visible. cbn [omap list_omap]. destruct (visible e) as [[nm child]|]; cbn [run_names]; [|apply IH].
  destruct (cb c nm child) as [rc c1]. destruct (negb (rc =? 0)) eqn:Erc; [|apply IH].
  exists l. split; [done|]. intros ->. done.
Qed.

(** The scan of the base with its callback, and the tail: the callback over
    the visible entries of the merge. *)
Lemma merge_names b : forall l c,
  (let '(rc, (l', c')) := run_cb (merge_base_cb cb) b (l, c) in if rc =? 0 then merge_tail cb l' c' else (rc, c'))
  = run_names (omap visible (weave l b)) c.
Proof.
  induction b as [|[k val] b IH]; intros l c; cbn [run_cb weave]; [apply tail_names|].
  rewrite omap_app, run_names_app. unfold merge_base_cb at 1. cbn [fst snd].
  pose proof (emit_before_names k l c) as Hb. destruct (run_names (omap visible (before k l)) c) as [rc c1].
  destruct Hb as (l' & -> & Hl). destruct (Z.eqb_spec rc 0) as [->|Hrc]; cbn [negb].
  2: { rewrite (proj2 (Z.eqb_neq _ _) Hrc). cbn [negb]. by rewrite (proj2 (Z.eqb_neq _ _) Hrc). }
  rewrite (Hl eq_refl). clear Hl l'.
  assert (Hgo : forall e l', (let '(rc, (l', c')) := (let '(rc, c) := merge_emit cb c1 e in
        if negb (rc =? 0) then (rc, (l', c)) else run_cb (merge_base_cb cb) b (l', c)) in
      if rc =? 0 then merge_tail cb l' c' else (rc, c')) = run_names (omap visible (e :: weave l' b)) c1).
  { intros e l'. rewrite merge_emit_visible. cbn [omap list_omap].
    destruct (visible e) as [[nm child]|]; cbn [run_names Z.eqb negb]; [|apply IH].
    destruct (cb c1 nm child) as [rc c2]. destruct (Z.eqb_spec rc 0) as [->|Hrc]; cbn [negb]; [apply IH|].
    by rewrite (proj2 (Z.eqb_neq _ _) Hrc). }
  assert (Hemit : emit_dirent cb c1 k (dirent_val_get val) = merge_emit cb c1 (base_of (k, val))) by done.
  destruct (after k l) as [|e l']; rewrite ?Hemit.
  - rewrite <- Hgo. by destruct (merge_emit cb c1 (base_of (k, val))) as [rc c2].
  - destruct (vol_key_cmp (g_key e) k =? 0); rewrite <- Hgo.
    + by destruct (merge_emit cb c1 e) as [rc c2].
    + by destruct (merge_emit cb c1 (base_of (k, val))) as [rc c2].
Qed.
End merge.

(** *** The merge lists both tiers *)

Abbreviation gsorted l := (ksorted (map g_key l)).

Lemma before_after k l : before k l ++ after k l = l.
Proof. induction l as [|e l IH]; cbn [before after]; [done|]. destruct (_ <? 0); [|done]. cbn [app]. by rewrite IH. Qed.

Lemma before_lt k l e : e ∈ before k l -> key_lt (g_key e) k.
Proof.
  induction l as [|e' l IH]; cbn [before]; [by intros ?%not_elem_of_nil|].
  destruct (Z.ltb_spec (vol_key_cmp (g_key e') k) 0) as [Hlt|]; [|by intros ?%not_elem_of_nil].
  intros [->|?]%elem_of_cons; [by apply key_cmp_lt|auto].
Qed.

Lemma after_ge k l e : gsorted l -> e ∈ after k l -> key_le k (g_key e).
Proof.
  induction l as [|e' l IH]; cbn [after map]; [by intros _ ?%not_elem_of_nil|]. intros [Hs Hk]%ksorted_cons.
  destruct (Z.ltb_spec (vol_key_cmp (g_key e') k) 0) as [|Hge]; [auto|]. intros Hin.
  assert (Hke : key_le k (g_key e')) by (apply key_le_not_lt; rewrite <- key_cmp_lt; lia).
  apply elem_of_cons in Hin as [->|Hin]; [done|]. eapply key_le_trans; [exact Hke|]. apply key_lt_le.
  rewrite Forall_forall in Hk. apply Hk, in_map, list_elem_of_In, Hin.
Qed.

(** [w] lists [l] and the rows of [b] whose keys [l] does not have. *)
Definition weaves (l : list merge_ent) (b : list kv) (w : list merge_ent) : Prop :=
  gsorted w /\ forall e, e ∈ w <-> e ∈ l \/ exists x, x ∈ b /\ e = base_of x /\ forall e', e' ∈ l -> g_key e' <> x.1.

Lemma weaves_cons a e l b w k val :
  gsorted a -> gsorted l -> ksorted (map fst b) -> weaves l b w ->
  (forall e', e' ∈ a -> key_lt (g_key e') k) -> (forall e', e' ∈ l -> key_lt k (g_key e')) ->
  (forall x, x ∈ b -> key_lt k x.1) -> g_key e = k ->
  gsorted (a ++ e :: w) /\
  (forall e', e' ∈ a ++ e :: w <-> e' ∈ a ++ e :: l \/
     exists x, x ∈ (k, val) :: b /\ e' = base_of x /\ forall e'', e'' ∈ a ++ e :: l -> g_key e'' <> x.1) /\
  (e = base_of (k, val) -> weaves (a ++ l) ((k, val) :: b) (a ++ e :: w)).
Proof.
  intros Ha Hl Hb [Hw Hm] Hak Hlk Hbk He.
  assert (Hwk : forall e', e' ∈ w -> key_lt k (g_key e')).
  { intros e' [?|(x & Hx & -> & _)]%Hm; [auto|]. by apply Hbk. }
  assert (Hne : forall k1, key_lt k1 k -> k1 <> k) by (intros k1 H ->; by eapply key_lt_irrefl).
  assert (Hne' : forall k1, key_lt k k1 -> k1 <> k) by (intros k1 H ->; by eapply key_lt_irrefl).
  assert (Hax : forall x e', x ∈ b -> e' ∈ a -> g_key e' <> x.1).
  { intros x e' Hx Hin Ek. apply (key_lt_irrefl k), (key_lt_trans k x.1 k); [auto|]. rewrite <- Ek. auto. }
  assert (Hex : forall x, x ∈ b -> g_key e <> x.1).
  { intros x Hx Ek. specialize (Hbk x Hx). rewrite <- Ek, He in Hbk. by apply key_lt_irrefl in Hbk. }
  assert (Hs : gsorted (a ++ e :: w)).
  { rewrite map_app. cbn [map]. apply ksorted_app. split; [done|]. split.
    - apply ksorted_cons. split; [done|]. apply Forall_forall. intros y (e' & <- & Hi)%in_map_iff. rewrite He.
      apply Hwk, list_elem_of_In, Hi.
    - intros x y (e' & -> & Hi)%list_elem_of_fmap. rewrite elem_of_cons. intros [->|(e'' & -> & Hj)%list_elem_of_fmap].
      + rewrite He. auto.
      + eapply key_lt_trans; [by apply Hak|auto]. }
  split; [done|]. split; [|intros Eb; split; [done|]].
  - intros e'. rewrite !elem_of_app, !elem_of_cons, Hm. split.
    + intros [?|[?|[?|(x & Hx & -> & Hno)]]]; [by left; auto..|]. right. exists x. split; [by right|]. split; [done|].
      intros e''. rewrite elem_of_app, elem_of_cons. intros [?|[->|?]]; auto.
    + intros [H|(x & Hx & -> & Hno)]; [tauto|]. apply elem_of_cons in Hx as [->|Hx].
      * destruct (Hno e); [rewrite elem_of_app, elem_of_cons; tauto|done].
      * right. right. right. exists x. split; [done|]. split; [done|]. intros e'' Hi. apply Hno. rewrite elem_of_app, elem_of_cons. tauto.
  - intros e'. rewrite !elem_of_app, !elem_of_cons, Hm. split.
    + intros [?|[->|[?|(x & Hx & -> & Hno)]]]; [by left; auto| |by left; auto|]; right.
      * exists (k, val). split; [by left|]. split; [done|]. intros e''. rewrite elem_of_app. intros [?|?]; auto.
      * exists x. split; [by right|]. split; [done|]. intros e''. rewrite elem_of_app. intros [?|?]; auto.
    + intros [H|(x & Hx & -> & Hno)]; [tauto|]. apply elem_of_cons in Hx as [->|Hx]; [by right; left|].
      right. right. right. exists x. split; [done|]. split; [done|]. intros e'' Hi. apply Hno. rewrite elem_of_app. tauto.
Qed.

Lemma weave_spec b : forall l, gsorted l -> ksorted (map fst b) -> weaves l b (weave l b).
Proof.
  induction b as [|[k val] b IH]; intros l Hl Hb; cbn [weave].
  { split; [done|]. intros e. split; [by left|]. intros [?|(x & Hx%not_elem_of_nil & _)]; done. }
  cbn [map fst] in Hb. apply ksorted_cons in Hb as [Hb Hk].
  assert (Hbk : forall x, x ∈ b -> key_lt k x.1).
  { intros x Hx. rewrite Forall_forall in Hk. apply Hk, in_map, list_elem_of_In, Hx. }
  pose proof (before_after k l) as El. pose proof (fun e => before_lt k l e) as Hbe. pose proof (fun e => after_ge k l e Hl) as Haf.
  rewrite <- El in Hl. rewrite map_app in Hl. apply ksorted_app in Hl as (Ha & Hz & _).
  set (a := before k l) in *. set (z := after k l) in *. clearbody a z. subst l.
  destruct z as [|e l'].
  - by apply (weaves_cons a (base_of (k, val)) [] b (weave [] b) k val Ha Hz Hb (IH [] Hz Hb) Hbe); [intros ? ?%not_elem_of_nil|..].
  - pose proof (Haf e (list_elem_of_here _ _)) as Hke. cbn [map] in Hz. apply ksorted_cons in Hz as [Hz Hez].
    assert (Hlt : forall e', e' ∈ l' -> key_lt (g_key e) (g_key e')).
    { intros e' Hi. rewrite Forall_forall in Hez. apply Hez, in_map, list_elem_of_In, Hi. }
    destruct (Z.eqb_spec (vol_key_cmp (g_key e) k) 0) as [Ek|Hnk].
    + apply key_cmp_eq in Ek. rewrite Ek in Hlt.
      destruct (weaves_cons a e l' b (weave l' b) k val Ha Hz Hb (IH l' Hz Hb) Hbe Hlt Hbk Ek) as (H1 & H2 & _). by split.
    + assert (Hgt : key_lt k (g_key e)).
      { apply key_le_lt_eq in Hke as [?|Ek]; [done|]. destruct Hnk. by apply key_cmp_eq. }
      assert (Hz' : gsorted (e :: l')) by (cbn [map]; by apply ksorted_cons).
      apply (weaves_cons a (base_of (k, val)) (e :: l') b (weave (e :: l') b) k val Ha Hz' Hb (IH _ Hz' Hb) Hbe); [|done..].
      intros e' [->|Hi]%elem_of_cons; [done|]. by eapply key_lt_trans; [|apply Hlt].
Qed.

(** ** The directory scan *)

Lemma rd16_bytes k : bytes_ok k -> 0 <= dl_rd16be k 8.
Proof.
  intros Hk. assert (Hn : forall i, 0 <= nthZ k i).
  { intros i. unfold nthZ. destruct (nth_in_or_default (Z.to_nat i) k 0) as [Hin| ->]; [|done].
    rewrite Forall_forall in Hk. apply Hk in Hin. unfold is_byte in Hin. lia. }
  unfold dl_rd16be. apply Z.lor_nonneg. split; [apply Z.shiftl_nonneg|]; apply Hn.
Qed.

Definition shown (e : merge_ent) : option (bytes * Z) :=
  if negb (g_deleted e) && dirent_shape (g_key e) then Some (g_key e, g_child e) else None.

Lemma visible_shown l : omap visible l = map (fun e => (dirent_name e.1, e.2)) (omap shown l).
Proof.
  induction l as [|e l IH]; [done|]. cbn [omap list_omap]. unfold visible at 1, shown at 1.
  destruct (negb (g_deleted e) && dirent_shape (g_key e)); cbn [map fst snd]; by rewrite IH.
Qed.

Lemma shown_sorted l : gsorted l -> ksorted (map fst (omap shown l)).
Proof.
  induction l as [|e l IH]; [done|]. cbn [map]. intros [Hs Hk]%ksorted_cons. cbn [omap list_omap]. unfold shown at 1.
  destruct (negb (g_deleted e) && dirent_shape (g_key e)); [|by apply IH]. cbn [map fst]. apply ksorted_cons.
  split; [by apply IH|]. apply Forall_forall. intros y (p & <- & Hp%list_elem_of_In)%in_map_iff.
  apply list_elem_of_omap in Hp as (e' & He' & Es). unfold shown in Es. destruct (_ && _); [|done]. injection Es as <-.
  rewrite Forall_forall in Hk. cbn [fst]. apply Hk, in_map, list_elem_of_In, He'.
Qed.

Section dirents.
Context {D : Type} `{!Dev D, !DevLaws D}.
Abbreviation V := (vol D dlog).
Abbreviation R := (rows V).
Implicit Types (v : V) (l : list seg) (s : R).

Lemma merge_collect_acts l n base :
  acts l n base merge_collect (fun c k x => c ++ [merge_of (k, x)]).
Proof.
  intros v c k r [fl val] He Hp Hc. pose proof (places_content l k) as Ha. rewrite Hp, Hc in Ha.
  destruct Ha as (sg & pre & rc & post & Hs & Hr & _ & Epl & [= -> ->]).
  destruct (chain_seg v l sg (lv_chain _ _ (en_live _ _ _ _ He)) Hs) as [prev Hseg].
  pose proof (lv_faultless _ _ (en_live _ _ _ _ He)) as Hq. pose proof (reads_refl v Hq) as Hrf.
  destruct (en_rows _ _ _ _ He k _ Hc) as [[[Hkb _] _] _]. pose proof (rd16_bytes k Hkb) as Hn.
  unfold merge_collect, merge_of, dirent_shape. cbn [fst snd].
  destruct r as [rseg roff rseq rfl rvl]. pose proof Epl as Epl'. injection Epl' as -> -> -> ->. cbn [r_flags r_vlen].
  destruct ((DIRENT_KEY_FIXED <=? zlen k) && (dirent_key_len k =? zlen k)); cbn [andb]; [|by apply tot_ret].
  assert (Et : (1 <=? dl_rd16be k 8) && (dl_rd16be k 8 <=? INVFS_MAX_NAME)
    = negb ((dl_rd16be k 8 =? 0) || (INVFS_MAX_NAME <? dl_rd16be k 8))).
  { unfold INVFS_MAX_NAME. destruct (Z.leb_spec 1 (dl_rd16be k 8)), (Z.leb_spec (dl_rd16be k 8) 255),
      (Z.eqb_spec (dl_rd16be k 8) 0), (Z.ltb_spec 255 (dl_rd16be k 8)); cbn; lia || done. }
  rewrite Et. destruct (negb (_ || _)); cbn [andb]; [|by apply tot_ret].
  destruct (negb (is_delete _)); cbn [andb]; [|by apply tot_ret].
  destruct (Z.eqb_spec (zlen (lr_val rc)) 8) as [E8|]; [|by apply tot_ret].
  apply tot_bind, tot_try. unfold vol_delta_read_value. cbn [r_vlen]. rewrite E8. cbn [Z.eqb]. cbv iota.
  apply tot_bind, tot_guard; [done|].
  eapply tot_mono; [eapply (read_value_tot v prev sg pre rc post); [done..| |by left]|].
  { rewrite <- E8. exact Epl. }
  intros bs v' [-> Hrd]. rewrite E8. by apply tot_ret.
Qed.

Lemma foldl_snoc {A B} (f : A -> B) (l : list A) : forall acc, foldl (fun c e => c ++ [f e]) acc l = acc ++ map f l.
Proof.
  induction l as [|a l IH]; intros acc; cbn [foldl map]; [by rewrite app_nil_r|]. by rewrite IH, <- app_assoc.
Qed.

(** The rows of the merged map that the scan of [[lo, hi)] shows. *)
Definition shown_rows (lo hi : bytes) (m : kmap) (es : list (bytes * Z)) : Prop :=
  ksorted (map fst es) /\ forall k c, (k, c) ∈ es <->
    dirent_shape k = true /\ in_range lo hi k /\ exists val, m !! k = Some val /\ c = dirent_val_get val.

Lemma weave_shown lo hi c base dl bl :
  rows_ok c -> range_of lo hi c dl -> range_of lo hi base bl ->
  (forall k val, over c base !! k = Some val -> in_range lo hi k -> dirent_shape k = true -> zlen val = 8) ->
  shown_rows lo hi (over c base) (omap shown (weave (map merge_of dl) bl)).
Proof.
  intros Hro [Hds Hd] [Hbs Hb] H8.
  assert (Hms : gsorted (map merge_of dl)).
  { rewrite map_map, (map_ext _ fst); [done|]. apply merge_of_key. }
  destruct (weave_spec bl (map merge_of dl) Hms Hbs) as [Hs Hm]. split; [by apply shown_sorted|].
  intros k ch. rewrite list_elem_of_omap. split.
  - intros (e & He & Es). unfold shown in Es. destruct (g_deleted e) eqn:Edel; [done|]. cbn [negb andb] in Es.
    destruct (dirent_shape (g_key e)) eqn:Esh; [|done]. injection Es as <- <-. split; [done|].
    apply Hm in He as [He|(x & Hx & -> & Hno)].
    + apply list_elem_of_fmap in He as ([k' [fl val]] & -> & Hi). apply Hd in Hi as [Hc Hr].
      rewrite merge_of_key in *. cbn [fst] in *. split; [done|]. unfold merge_of in *. cbn [fst snd] in *.
      destruct (dirent_shape k' && negb (is_delete fl) && (zlen val =? 8)) eqn:Et; [|done]. zbool.
      exists val. split; [|done]. rewrite lookup_over, Hc. cbn. destruct (is_delete fl); [done|done].
    + destruct x as [k' val]. cbn [base_of g_key g_child fst snd] in *. apply Hb in Hx as [Hx Hr]. split; [done|].
      exists val. split; [|done]. rewrite lookup_over. destruct (c !! k') as [y|] eqn:Ec; [|done]. exfalso.
      apply (Hno (merge_of (k', y))); [apply list_elem_of_fmap; exists (k', y); split; [done|by apply Hd]|apply merge_of_key].
  - intros (Hsh & Hr & val & Hk & ->). pose proof (H8 k val Hk Hr Hsh) as Hl8. rewrite lookup_over in Hk.
    destruct (c !! k) as [[fl val']|] eqn:Ec; cbn [over_one] in Hk.
    + destruct (is_delete fl) eqn:Ed; [done|]. injection Hk as ->.
      assert (Em : merge_of (k, (fl, val)) = mkMerge k false (dirent_val_get val)).
      { unfold merge_of. cbn [fst snd]. by rewrite Hsh, Ed, Hl8. }
      exists (merge_of (k, (fl, val))). rewrite Em. split; [|unfold shown; cbn [g_deleted g_key negb andb g_child]; by rewrite Hsh].
      apply Hm. left. apply list_elem_of_fmap. exists (k, (fl, val)). rewrite Em. split; [done|by apply Hd].
    + exists (base_of (k, val)). split; [|unfold shown; cbn [base_of g_deleted g_key fst snd negb andb g_child]; by rewrite Hsh].
      apply Hm. right. exists (k, val). split; [by apply Hb|]. split; [done|].
      intros e' ([k' x] & -> & Hi%Hd)%list_elem_of_fmap. rewrite merge_of_key. cbn [fst]. intros ->. destruct Hi as [Hi _]. congruence.
Qed.

Lemma dirent_scan_tot {C} (cb : C -> bytes -> Z -> Z * C) sv p s m c :
  at_map s m -> good_view sv (rw_vol s) ->
  (forall k val, m !! k = Some val -> in_range (dirent_key p []) (dirent_key (u64 (p + 1)) []) k ->
     dirent_shape k = true -> zlen val = 8) ->
  exists es, shown_rows (dirent_key p []) (dirent_key (u64 (p + 1)) []) m es /\
    tot (vol_dirent_scan cb sv p c) s (fun r s' =>
      r = run_names cb (map (fun e => (dirent_name e.1, e.2)) es) c /\ at_map s' m /\ kept s s').
Proof.
  intros Hm Hsv H8. pose proof Hm as (l & n & base & He & Em & Ht). set (lo := dirent_key p []) in *. set (hi := dirent_key (u64 (p + 1)) []) in *.
  destruct (ranges_exist (rw_vol s) l n base lo hi He) as (dl & bl & Hd & Hb).
  exists (omap shown (weave (map merge_of dl) bl)). split.
  { rewrite <- Em. apply (weave_shown lo hi); [apply He|done|done|]. by rewrite Em. }
  unfold vol_dirent_scan. apply tot_bind, (ready_tot s m); [done|]. fold lo hi.
  apply tot_bind. eapply (read_step _ s); [exact He|by apply (delta_pass _ l n base merge_collect _ sv lo hi dl [] He (merge_collect_acts l n base))|].
  intros d v1 -> He1 _. rewrite (foldl_snoc (fun e => merge_of (e.1, e.2)) dl []). cbn [fst snd Z.eqb negb app].
  replace (map (fun e => merge_of (e.1, e.2)) dl) with (map merge_of dl) by (apply map_ext; by intros []).
  apply or_tot. eapply read_step; [exact He1|exact (root_pass v1 l n base He1)|]. intros root v2 -> He2 _.
  apply tot_bind. eapply read_step; [exact He2|exact (base_pass v2 l n base _ lo hi bl (map merge_of dl, c) He2 Hb)|].
  intros b v3 -> He3 _. rewrite <- visible_shown, <- (merge_names cb bl (map merge_of dl) c).
  assert (Hend : at_map (set_rw_vol v3 (set_rw_vol v2 (set_rw_vol v1 s))) m) by by exists l, n, base.
  destruct (run_cb (merge_base_cb cb) bl (map merge_of dl, c)) as [rc [l' c']].
  destruct (rc =? 0); apply tot_ret; (split; [done|]; split; [exact Hend|done]).
Qed.
End dirents.

(** ** Which rows a range holds *)

Lemma lex_be64 a b x y :
  0 <= a < 2 ^ 64 -> 0 <= b < 2 ^ 64 ->
  lex (put_be64 a ++ x) (put_be64 b ++ y) = match a ?= b with Eq => lex x y | c => c end.
Proof.
  intros Ha Hb. rewrite lex_app, !put_be64_be by done.
  rewrite lex_be by (change (256 ^ Z.of_nat 8) with (2 ^ 64); done). by destruct (a ?= b).
Qed.

(** An inode's rows under one prefix are between the bounds of its scan. *)
Lemma prefix_range pre i j x :
  0 <= i < 2 ^ 64 - 1 -> 0 <= j < 2 ^ 64 -> lex x [0; 0] <> Lt ->
  in_range (pre ++ put_be64 i ++ [0; 0]) (pre ++ put_be64 (i + 1) ++ [0; 0]) (pre ++ put_be64 j ++ x) <-> j = i.
Proof.
  intros Hi Hj Hx.
  assert (Hp : forall a b, lex (pre ++ a) (pre ++ b) = lex a b).
  { intros a b. rewrite lex_app by done. by rewrite lex_refl. }
  unfold in_range, key_le, key_lt. rewrite !Hp, !lex_be64 by lia. split.
  - intros [H1 [H2|H2]].
    { apply (f_equal length) in H2. rewrite !length_app, length_put_be64 in H2. cbn in H2. lia. }
    destruct (Z.compare_spec i j), (Z.compare_spec j (i + 1)); done || lia.
  - intros ->. rewrite Z.compare_refl, (proj2 (Z.compare_lt_iff i (i + 1))) by lia.
    split; [|by right]. rewrite lex_opp. by destruct (lex x [0; 0]).
Qed.

Lemma head_lt (a b : bytes) x y : head a = Some x -> head b = Some y -> x < y -> key_lt a b.
Proof.
  destruct a as [|x' a], b as [|y' b]; try done. intros [= ->] [= ->] H. unfold key_lt. cbn [lex].
  by rewrite (proj2 (Z.compare_lt_iff x y)).
Qed.

Lemma name_rest nm t : zlen nm <= INVFS_MAX_NAME ->
  lex ([u8 (Z.shiftr (zlen nm) 8); Z.land (zlen nm) 255] ++ nm ++ t) [0; 0] <> Lt.
Proof.
  intros H. rewrite name_len_be by done. cbn [app lex]. change (0 ?= 0) with Eq. cbv iota.
  destruct (Z.compare_spec (zlen nm) 0) as [E0| |]; [|lia|done].
  destruct nm; [|cbn in E0; lia]. by destruct t.
Qed.

(** The scan of a directory. *)
Lemma dirent_range p k :
  ino_ok p -> p + 1 < INO_LIM -> keyed k ->
  dirent_shape k = true /\ in_range (dirent_key p []) (dirent_key (u64 (p + 1)) []) k <->
  exists nm, nm <> [] /\ file_name nm /\ k = dirent_key p nm.
Proof.
  intros Hp Hp1 [Hrow (b & Hb & ->)]. unfold ino_ok, INO_LIM in *. rewrite u64_small by lia.
  assert (Hd : forall q nm, zlen nm <= INVFS_MAX_NAME -> dirent_shape (dirent_key q nm) = negb (zlen nm =? 0)).
  { intros q nm Hn. unfold dirent_shape. rewrite length_dirent_key.
    assert (E16 : dl_rd16be (dirent_key q nm) 8 = zlen nm) by (unfold dirent_key; by rewrite name_len_be).
    rewrite E16. unfold dirent_key_len, dirent_key. rewrite name_len_be by done.
    change (nthZ _ 8) with 0. change (nthZ _ 9) with (zlen nm).
    change (Z.lor (u16 (Z.shiftl 0 8)) (zlen nm)) with (zlen nm). unfold DIRENT_KEY_FIXED, INVFS_MAX_NAME in *.
    rewrite u16_small by lia. rewrite (proj2 (Z.leb_le 10 _)), Z.eqb_refl, (proj2 (Z.ltb_ge 255 _)) by lia.
    cbn [andb]. by rewrite orb_false_r. }
  assert (Hin : forall q nm, 0 <= q < 2 ^ 64 -> zlen nm <= INVFS_MAX_NAME ->
    in_range (dirent_key p []) (dirent_key (p + 1) []) (dirent_key q nm) <-> q = p).
  { intros q nm Hq Hn. pose proof (name_rest nm [] Hn) as Hx. rewrite app_nil_r in Hx.
    exact (prefix_range [] p q _ ltac:(lia) Hq Hx). }
  split.
  - intros [Hsh Hr]. assert (Hs0 : space b = 0).
    { destruct (key_space b Hb) as (x & Hx & Hsp). destruct Hr as [_ [H|Hlt]].
      { apply (f_equal length) in H. unfold dirent_key in H. rewrite !length_app, length_put_be64 in H. cbn in H. lia. }
      destruct (decide (space b = 0)) as [|Hns]; [done|]. rewrite (proj2 (Z.eqb_neq _ _) Hns) in Hsp. exfalso.
      apply (key_lt_irrefl (dirent_key (p + 1) [])), (fun H => key_lt_trans _ _ _ H Hlt).
      apply (head_lt _ _ ((p + 1) / 2 ^ 56) x); [apply head_be64; lia|done|]. pose proof (head_below (p + 1) ltac:(lia)).
      destruct b; cbn in *; lia. }
    destruct b as [i|i nm|i nm|i nm c|a|a c]; try discriminate Hs0; cbn [key_bytes key_ok] in *; zbool.
    + assert (E8 : zlen (ino_key i) = 8) by done. unfold dirent_shape in Hsh. by rewrite E8 in Hsh.
    + apply Hin in Hr as ->; [|lia|done]. rewrite Hd in Hsh by done. exists nm. split; [by intros ->|]. split; [|done].
      split; [|done]. destruct Hrow as [[Hbo _] _]. unfold dirent_key in Hbo. by apply Forall_app in Hbo as [_ [_ ?]%Forall_app].
  - intros (nm & Hne & [Hbn Hn] & ->). rewrite Hd by done. split; [|apply Hin; [lia|done|done]].
    destruct nm; [done|]. rewrite (proj2 (Z.eqb_neq _ 0)); [done|]. cbn [length]. lia.
Qed.

Lemma dirent_name_key p nm : zlen nm <= INVFS_MAX_NAME -> dirent_name (dirent_key p nm) = nm.
Proof.
  intros Hn. unfold dirent_name. assert (E16 : dl_rd16be (dirent_key p nm) 8 = zlen nm) by (unfold dirent_key; by rewrite name_len_be).
  rewrite E16. unfold dirent_key. rewrite app_assoc. rewrite slice_app_r; [|done].
  change (DIRENT_KEY_FIXED - _) with 0. unfold slice. change (Z.to_nat 0) with O. rewrite drop_0, take_ge; [done|lia].
Qed.

(** The scan of an inode's attributes. *)
Abbreviation xlo ino := (xattr_key ino []).
Abbreviation xhi ino := (xattr_key (u64 (ino + 1)) []).

Lemma xattr_range ino k :
  ino_ok ino -> keyed k -> in_range (xlo ino) (xhi ino) k ->
  exists nm, file_name nm /\ (k = xattr_key ino nm \/ exists i, 0 <= i < 2 ^ 16 /\ k = xattr_chunk_key ino nm i).
Proof.
  intros Hi [Hrow (b & Hb & ->)] Hr. unfold ino_ok, INO_LIM in *. rewrite u64_small in Hr by lia.
  assert (Hsp : space b = 3).
  { destruct (key_space b Hb) as (x & Hx & Hs). destruct Hr as [Hlo [H|Hhi]]; [done|].
    destruct (decide (space b = 0)) as [E0|Hn].
    - rewrite E0 in Hs. cbn in Hs. exfalso. apply key_le_not_lt in Hlo. apply Hlo. by apply (head_lt _ _ x 3).
    - rewrite (proj2 (Z.eqb_neq _ _) Hn) in Hs. destruct (decide (space b = 3)) as [|H3]; [done|]. exfalso.
      apply (key_lt_irrefl (xattr_key (ino + 1) [])), (fun H => key_lt_trans _ _ _ H Hhi).
      apply (head_lt _ _ 3 x); [done|done|]. destruct b; cbn in *; lia. }
  assert (Hbn : forall j nm t, bytes_ok (xattr_key j nm ++ t) -> bytes_ok nm).
  { intros j nm t H. rewrite xattr_key_dirent in H. apply Forall_app in H as [H _]. apply Forall_cons_iff in H as [_ H].
    unfold dirent_key in H. by apply Forall_app in H as [_ [_ ?]%Forall_app]. }
  assert (Hj : forall j nm t, 0 <= j < 2 ^ 64 -> zlen nm <= INVFS_MAX_NAME ->
    in_range (xattr_key ino []) (xattr_key (ino + 1) []) (xattr_key j nm ++ t) -> j = ino).
  { intros j nm t Hj Hn H. apply (prefix_range [INVFS_XATTR_KEY_PREFIX] ino j _ ltac:(lia) Hj (name_rest nm t Hn)).
    unfold xattr_key in H. cbn [app] in *. by rewrite <- !app_assoc in H. }
  destruct Hrow as [[Hbo _] _].
  destruct b as [i|i nm|i nm|i nm c|a|a c]; try discriminate Hsp; cbn [key_bytes key_ok] in *; zbool.
  - rewrite <- (app_nil_r (xattr_key i nm)) in Hr, Hbo. apply Hj in Hr as ->; [|lia|done].
    exists nm. split; [split; [by apply Hbn in Hbo|done]|by left].
  - unfold xattr_chunk_key in *. apply Hj in Hr as ->; [|lia|done].
    exists nm. split; [split; [by apply Hbn in Hbo|done]|right]. exists c. split; [lia|done].
Qed.

Lemma xattr_in_range ino nm t : ino_ok ino -> zlen nm <= INVFS_MAX_NAME -> in_range (xlo ino) (xhi ino) (xattr_key ino nm ++ t).
Proof.
  intros Hi Hn. unfold ino_ok, INO_LIM in *. rewrite u64_small by lia. unfold xattr_key. cbn [app].
  rewrite <- !app_assoc. by apply (prefix_range [INVFS_XATTR_KEY_PREFIX] ino ino _ ltac:(lia) ltac:(lia) (name_rest nm t Hn)).
Qed.

Lemma canon_name_key ino nm : nm <> [] -> zlen nm <= INVFS_MAX_NAME -> xa_canon_name (xattr_key ino nm) = Some nm.
Proof.
  intros Hne Hn. unfold xa_canon_name. rewrite <- (app_nil_r (xattr_key ino nm)), xattr_decode_key; [done|].
  destruct nm; [done|]. cbn [length] in *. lia.
Qed.

(** Only canonical keys have a name to show. *)
Lemma canon_name_inv ino k nm :
  ino_ok ino -> keyed k -> in_range (xlo ino) (xhi ino) k -> xa_canon_name k = Some nm ->
  k = xattr_key ino nm /\ nm <> [] /\ file_name nm.
Proof.
  intros Hi Hk Hr Hc. destruct (xattr_range ino k Hi Hk Hr) as (nm' & [Hb Hn] & Hkey). unfold xa_canon_name in Hc.
  assert (Hne : nm' <> []).
  { intros ->. destruct Hkey as [->|(i & Hj & ->)]; [done|].
    unfold xattr_key_decode in Hc. change (nthZ (xattr_chunk_key ino [] i) 9) with 0 in Hc.
    change (nthZ (xattr_chunk_key ino [] i) 10) with 0 in Hc. by destruct (_ || _) in Hc. }
  assert (H1 : 1 <= zlen nm' <= INVFS_MAX_NAME) by (destruct nm'; [done|cbn [length] in *; lia]).
  destruct Hkey as [->|(i & Hj & ->)].
  - rewrite <- (app_nil_r (xattr_key ino nm')), xattr_decode_key in Hc by done. by injection Hc as <-.
  - unfold xattr_chunk_key in Hc. by rewrite xattr_decode_key in Hc.
Qed.

Lemma decodes ino nm t :
  nm <> [] -> zlen nm <= INVFS_MAX_NAME -> (t = [] \/ exists i, t = [0; u8 (Z.shiftr i 8); Z.land i 255]) ->
  is_Some (xattr_key_decode (xattr_key ino nm ++ t)).
Proof.
  intros Hne Hn Ht. rewrite xattr_decode_key by (destruct nm; [done|cbn [length] in *; lia]).
  destruct Ht as [->|(i & ->)]; by eexists.
Qed.

(** ** The scan of attribute names *)

(** The list of the merge as a table: a name, and whether it is deleted. *)
Definition tabled (l : list xa_ent) (T : gmap bytes bool) : Prop :=
  NoDup (map xa_name l) /\ forall nm d, mkXa nm d ∈ l <-> T !! nm = Some d.

Definition xa_put (l : list xa_ent) (nm : bytes) (d : bool) : list xa_ent :=
  let l := match xa_find l nm with Some _ => l | None => xa_add l nm end in
  match xa_find l nm with Some i => <[i := mkXa nm d]> l | None => l end.

Lemma xa_find_some l nm i : xa_find l nm = Some i -> exists d, l !! i = Some (mkXa nm d).
Proof.
  unfold xa_find. destruct (list_find _ l) as [[j [n d]]|] eqn:Ef; [|done]. intros [= <-].
  apply list_find_Some in Ef as (Hl & Hn & _). cbn in Hn. subst. eauto.
Qed.
Lemma xa_find_none l nm : xa_find l nm = None -> forall d, mkXa nm d ∉ l.
Proof.
  unfold xa_find. destruct (list_find _ l) as [[j e]|] eqn:Ef; [done|]. intros _ d Hin.
  apply list_find_None in Ef. rewrite Forall_forall in Ef. by apply (Ef (mkXa nm d)); [apply list_elem_of_In|].
Qed.

Lemma tabled_same l T nm d d' : tabled l T -> mkXa nm d ∈ l -> mkXa nm d' ∈ l -> d = d'.
Proof. intros [_ H] H1%H H2%H. congruence. Qed.

Lemma tabled_add l T nm d : tabled l T -> T !! nm = None -> tabled (l ++ [mkXa nm d]) (<[nm := d]> T).
Proof.
  intros [Hn Hm] HT. split.
  - rewrite map_app. cbn [map]. apply list.NoDup_app. split; [done|]. split; [|apply list.NoDup_singleton].
    intros x Hx Ex%list_elem_of_singleton. apply list_elem_of_fmap in Hx as ([n d'] & Ex' & Hi%Hm). cbn in *. congruence.
  - intros n d'. rewrite elem_of_app, list_elem_of_singleton, Hm. destruct (decide (n = nm)) as [->|Hne].
    + rewrite lookup_insert_eq, HT. split; [intros [|[= ->]]; done|intros [= ->]; by right].
    + rewrite lookup_insert_ne by done. split; [intros [|[= -> ->]]; done|by left].
Qed.

Lemma tabled_set l T nm d d0 i : tabled l T -> l !! i = Some (mkXa nm d0) -> tabled (<[i := mkXa nm d]> l) (<[nm := d]> T).
Proof.
  intros [Hn Hm] Hi. pose proof (lookup_lt_Some _ _ _ Hi) as Hlt. split.
  - assert (E1 : map xa_name (<[i := mkXa nm d]> l) = map xa_name l); [|by rewrite E1].
    change (xa_name <$> <[i := mkXa nm d]> l = xa_name <$> l). rewrite list_fmap_insert. apply list_insert_id.
    by rewrite list_lookup_fmap, Hi.
  - intros n d'. rewrite list_elem_of_lookup. split.
    + intros (j & Hj). apply list_lookup_insert_Some in Hj as [(<- & [= -> ->] & _)|[Hne Hj]]; [by rewrite lookup_insert_eq|].
      rewrite lookup_insert_ne; [apply Hm, list_elem_of_lookup; eauto|]. intros ->. apply Hne.
      eapply (list.NoDup_lookup (map xa_name l)); [done|..]; (etransitivity; [apply list_lookup_fmap|]); [by rewrite Hi|by rewrite Hj].
    + destruct (decide (n = nm)) as [->|Hne].
      * rewrite lookup_insert_eq. intros [= ->]. exists i. by apply list_lookup_insert_eq.
      * rewrite lookup_insert_ne by done. intros [j Hj]%Hm%list_elem_of_lookup. exists j.
        rewrite list_lookup_insert_ne; [done|]. intros ->. congruence.
Qed.

Lemma tabled_put l T nm d : tabled l T -> tabled (xa_put l nm d) (<[nm := d]> T).
Proof.
  intros Ht. unfold xa_put. destruct (xa_find l nm) as [i|] eqn:Ef; cbv zeta.
  - rewrite Ef. destruct (xa_find_some _ _ _ Ef) as [d0 Hi]. by eapply tabled_set.
  - assert (HT : T !! nm = None).
    { destruct (T !! nm) as [b|] eqn:Eb; [|done]. by apply Ht, (xa_find_none l nm Ef) in Eb. }
    pose proof (tabled_add l T nm false Ht HT) as Ha. unfold xa_add.
    destruct (xa_find (l ++ [mkXa nm false]) nm) as [i|] eqn:Ef2.
    + destruct (xa_find_some _ _ _ Ef2) as [d0 Hi]. rewrite <- (insert_insert_eq T nm d false). by eapply tabled_set.
    + exfalso. eapply (xa_find_none _ _ Ef2 false). apply elem_of_app. right. left.
Qed.

Lemma tabled_base l T k val nm :
  tabled l T -> xa_canon_name k = Some nm ->
  exists l', xa_base_cb l k val = (0, l') /\ tabled l' (match T !! nm with Some _ => T | None => <[nm := false]> T end).
Proof.
  intros Ht Hc. unfold xa_base_cb. rewrite Hc. destruct (xa_find l nm) as [i|] eqn:Ef.
  - destruct (xa_find_some _ _ _ Ef) as [d0 Hi]. exists l. split; [done|].
    rewrite (proj1 (proj2 Ht nm d0)); [done|]. apply list_elem_of_lookup. eauto.
  - assert (HT : T !! nm = None).
    { destruct (T !! nm) as [b|] eqn:Eb; [|done]. by apply Ht, (xa_find_none l nm Ef) in Eb. }
    eexists. split; [done|]. rewrite HT. by apply tabled_add.
Qed.

(** What the records of the recent tier and the rows of the base make of the
    table. *)
Definition note_delta (T : gmap bytes bool) (e : bytes * (Z * bytes)) : gmap bytes bool :=
  match xa_canon_name e.1 with Some nm => <[nm := is_delete e.2.1]> T | None => T end.
Definition note_base (T : gmap bytes bool) (e : kv) : gmap bytes bool :=
  match xa_canon_name e.1 with
  | Some nm => match T !! nm with Some _ => T | None => <[nm := false]> T end
  | None => T
  end.

Lemma tabled_deltas dl : forall l T, tabled l T ->
  tabled (foldl (fun c e => match xa_canon_name e.1 with Some nm => xa_put c nm (is_delete e.2.1) | None => c end) l dl)
    (foldl note_delta T dl).
Proof.
  induction dl as [|e dl IH]; intros l T Ht; [done|]. cbn [foldl]. apply IH. unfold note_delta.
  destruct (xa_canon_name e.1); [by apply tabled_put|done].
Qed.
Lemma tabled_bases bl : forall l T, tabled l T ->
  exists l', run_cb xa_base_cb bl l = (0, l') /\ tabled l' (foldl note_base T bl).
Proof.
  induction bl as [|[k val] bl IH]; intros l T Ht; cbn [run_cb foldl]; [by exists l|]. unfold note_base at 2. cbn [fst].
  destruct (xa_canon_name k) as [nm|] eqn:Ec.
  - destruct (tabled_base l T k val nm Ht Ec) as (l1 & -> & H1). by apply IH.
  - unfold xa_base_cb at 1. rewrite Ec. by apply IH.
Qed.

Section names.
Context (ino : Z) (nm : bytes).
Hypothesis (Hne : nm <> []) (Hnm : zlen nm <= INVFS_MAX_NAME).
Abbreviation key := (xattr_key ino nm).

Lemma deltas_lookup dl : forall T,
  NoDup (map fst dl) -> (forall k x, (k, x) ∈ dl -> xa_canon_name k = Some nm -> k = key) ->
  foldl note_delta T dl !! nm =
    match (list_to_map dl : gmap bytes (Z * bytes)) !! key with Some x => Some (is_delete x.1) | None => T !! nm end.
Proof.
  pose proof (canon_name_key ino nm Hne Hnm) as Hck.
  induction dl as [|[k x] dl IH]; intros T Hn Hk; [done|]. cbn [map fst] in Hn. apply list.NoDup_cons in Hn as [Hnk Hn].
  cbn [foldl]. rewrite IH; [|done|intros k' x' Hi; apply (Hk k' x'); by right]. rewrite list_to_map_cons.
  destruct (decide (k = key)) as [->|Hkk].
  - rewrite lookup_insert_eq, (not_elem_of_list_to_map_1 _ _ Hnk). unfold note_delta. cbn [fst snd]. by rewrite Hck, lookup_insert_eq.
  - rewrite lookup_insert_ne by done. destruct (list_to_map dl !! key); [done|]. unfold note_delta. cbn [fst snd].
    destruct (xa_canon_name k) as [n'|] eqn:Ec; [|done]. apply lookup_insert_ne. intros ->. apply Hkk. eapply Hk; [left|done].
Qed.

Lemma bases_lookup bl : forall T,
  NoDup (map fst bl) -> (forall k x, (k, x) ∈ bl -> xa_canon_name k = Some nm -> k = key) ->
  foldl note_base T bl !! nm =
    match T !! nm with Some d => Some d | None => match (list_to_map bl : kmap) !! key with Some _ => Some false | None => None end end.
Proof.
  pose proof (canon_name_key ino nm Hne Hnm) as Hck.
  induction bl as [|[k x] bl IH]; intros T Hn Hk.
  { change (list_to_map [] : kmap) with (∅ : kmap). rewrite lookup_empty. cbn [foldl]. by destruct (T !! nm). }
  cbn [map fst] in Hn. apply list.NoDup_cons in Hn as [Hnk Hn].
  cbn [foldl]. rewrite IH; [|done|intros k' x' Hi; apply (Hk k' x'); by right]. rewrite list_to_map_cons.
  destruct (decide (k = key)) as [->|Hkk].
  - rewrite lookup_insert_eq. unfold note_base. cbn [fst]. rewrite Hck. destruct (T !! nm) eqn:ET; [by rewrite ET|].
    by rewrite lookup_insert_eq.
  - rewrite lookup_insert_ne by done. assert (Es : note_base T (k, x) !! nm = T !! nm); [|by rewrite Es].
    unfold note_base. cbn [fst]. destruct (xa_canon_name k) as [n'|] eqn:Ec; [|done].
    destruct (T !! n') eqn:ET; [done|]. apply lookup_insert_ne. intros ->. apply Hkk. eapply Hk; [left|done].
Qed.
End names.

Lemma range_lookup {A} (lo hi : bytes) (m : gmap bytes A) (rows : list (bytes * A)) (k : bytes) :
  range_of lo hi m rows -> in_range lo hi k -> (list_to_map rows : gmap bytes A) !! k = m !! k.
Proof.
  intros [Hs Hm] Hr. destruct (m !! k) as [x|] eqn:Ek.
  - apply elem_of_list_to_map; [by apply ksorted_NoDup|]. by apply Hm.
  - apply not_elem_of_list_to_map_1. intros ([k' x] & -> & Hi)%list_elem_of_fmap. apply Hm in Hi as [Hi _]. cbn in *. congruence.
Qed.

(** The table of the merge: a name is shown if the map has its row. *)
Lemma names_table ino c base dl bl nm :
  ino_ok ino -> (forall k, is_Some (c !! k) -> keyed k) -> (forall k, is_Some (base !! k) -> keyed k) ->
  range_of (xlo ino) (xhi ino) c dl -> range_of (xlo ino) (xhi ino) base bl ->
  foldl note_base (foldl note_delta ∅ dl) bl !! nm = Some false <->
  nm <> [] /\ file_name nm /\ is_Some (over c base !! xattr_key ino nm).
Proof.
  intros Hi Hkc Hkb Hd Hb.
  assert (Hcd : forall k x n', (k, x) ∈ dl -> xa_canon_name k = Some n' -> k = xattr_key ino n' /\ n' <> [] /\ file_name n').
  { intros k x n' Hx Hc. apply Hd in Hx as [Hx Hr]. by apply canon_name_inv; [|apply Hkc; eexists|..]. }
  assert (Hcb : forall k x n', (k, x) ∈ bl -> xa_canon_name k = Some n' -> k = xattr_key ino n' /\ n' <> [] /\ file_name n').
  { intros k x n' Hx Hc. apply Hb in Hx as [Hx Hr]. by apply canon_name_inv; [|apply Hkb; eexists|..]. }
  destruct (decide (nm <> [] /\ zlen nm <= INVFS_MAX_NAME)) as [[Hne Hn]|Hbad].
  - pose proof (xattr_in_range ino nm [] Hi Hn) as Hr. rewrite app_nil_r in Hr.
    rewrite (bases_lookup ino nm Hne Hn); [|apply ksorted_NoDup, Hb|by intros k x Hx Hc; apply (Hcb k x nm)].
    rewrite (deltas_lookup ino nm Hne Hn); [|apply ksorted_NoDup, Hd|by intros k x Hx Hc; apply (Hcd k x nm)].
    rewrite (range_lookup _ _ _ _ _ Hd Hr), (range_lookup _ _ _ _ _ Hb Hr), lookup_over, lookup_empty.
    assert (Hfn : is_Some (over c base !! xattr_key ino nm) -> file_name nm).
    { rewrite lookup_over. intros Hs. assert (Hk : keyed (xattr_key ino nm)).
      { destruct (c !! xattr_key ino nm) eqn:Ec; [by apply Hkc; eexists|]. cbn in Hs. by apply Hkb. }
      by destruct (canon_name_inv ino _ nm Hi Hk Hr (canon_name_key ino nm Hne Hn)) as (_ & _ & ?). }
    rewrite lookup_over in Hfn. destruct (c !! xattr_key ino nm) as [[fl val]|]; cbn [over_one fst] in *.
    + destruct (is_delete fl); [split; [done|]; by intros (_ & _ & [])|]. split; [|done]. intros _. split; [done|].
      split; [apply Hfn|]; by eexists.
    + destruct (base !! xattr_key ino nm); [|split; [done|]; by intros (_ & _ & [])]. split; [|done]. intros _.
      split; [done|]. split; [apply Hfn|]; by eexists.
  - split; [|intros (? & [_ ?] & _); by destruct Hbad]. intros HT. exfalso. revert HT.
    assert (H1 : foldl note_delta ∅ dl !! nm = None).
    { assert (Hg : forall dl' T, (forall e, e ∈ dl' -> e ∈ dl) -> T !! nm = None -> foldl note_delta T dl' !! nm = None);
        [|by apply Hg]. induction dl' as [|[k x] dl' IH]; intros T Hsub HT; [done|]. cbn [foldl]. apply IH; [intros; apply Hsub; by right|].
      unfold note_delta. cbn [fst]. destruct (xa_canon_name k) as [n'|] eqn:Ec; [|done]. rewrite lookup_insert_ne; [done|].
      intros ->. destruct (Hcd k x nm (Hsub _ (list_elem_of_here _ _)) Ec) as (_ & ? & [_ ?]). by apply Hbad. }
    assert (Hg : forall bl' T, (forall e, e ∈ bl' -> e ∈ bl) -> T !! nm = None -> foldl note_base T bl' !! nm = None);
      [|by rewrite Hg]. induction bl' as [|[k x] bl' IH]; intros T Hsub HT; [done|]. cbn [foldl]. apply IH; [intros; apply Hsub; by right|].
    unfold note_base. cbn [fst]. destruct (xa_canon_name k) as [n'|] eqn:Ec; [|done]. destruct (T !! n'); [done|].
    rewrite lookup_insert_ne; [done|]. intros ->. destruct (Hcb k x nm (Hsub _ (list_elem_of_here _ _)) Ec) as (_ & ? & [_ ?]). by apply Hbad.
Qed.

(** The order the names come in: by length, then by bytes. *)
Definition name_lt (a b : bytes) : Prop := zlen a < zlen b \/ (zlen a = zlen b /\ key_lt a b).

#[local] Instance xa_le_total : Total xa_le.
Proof.
  intros a b. unfold xa_le. rewrite !key_cmp_le, !key_le_not_lt.
  destruct (Z.lt_total (zlen (xa_name a)) (zlen (xa_name b))) as [?|[?|?]]; auto.
  destruct (decide (key_lt (xa_name b) (xa_name a))) as [Hlt|]; [|by auto].
  right. right. split; [done|]. intros Hlt'. by apply (key_lt_irrefl _ (key_lt_trans _ _ _ Hlt Hlt')).
Qed.
#[local] Instance xa_le_trans : Transitive xa_le.
Proof.
  intros a b c. unfold xa_le. rewrite !key_cmp_le. intros [?|[? ?]] [?|[? ?]]; [left; lia..|].
  right. split; [lia|]. by eapply key_le_trans.
Qed.

Definition shown_name (e : xa_ent) : option bytes := if xa_deleted e then None else Some (xa_name e).

Section emit_names.
Context {C : Type} (cb : C -> bytes -> Z * C).

Fixpoint run_list (l : list bytes) (c : C) : Z * C :=
  match l with
  | [] => (0, c)
  | nm :: l => let '(rc, c) := cb c nm in if negb (rc =? 0) then (rc, c) else run_list l c
  end.

Lemma emit_list l c : xa_emit cb l c = run_list (omap shown_name l) c.
Proof.
  revert c. induction l as [|e l IH]; intros c; [done|]. cbn [xa_emit omap list_omap]. unfold shown_name at 1.
  destruct (xa_deleted e); [apply IH|]. cbn [run_list]. destruct (cb c (xa_name e)) as [rc c1]. by rewrite IH.
Qed.
End emit_names.

(** The names a table shows, in order. *)
Definition names_of (T : gmap bytes bool) (names : list bytes) : Prop :=
  StronglySorted name_lt names /\ forall nm, nm ∈ names <-> T !! nm = Some false.

Lemma shown_names_sorted l :
  StronglySorted xa_le l -> NoDup (map xa_name l) -> StronglySorted name_lt (omap shown_name l).
Proof.
  induction 1 as [|e l Hs IH Hf]; [constructor|]. cbn [map]. intros [Hni Hn]%list.NoDup_cons. cbn [omap list_omap]. unfold shown_name at 1.
  destruct (xa_deleted e); [by apply IH|]. constructor; [by apply IH|]. apply Forall_forall. intros nm Hin%list_elem_of_In.
  apply list_elem_of_omap in Hin as (e' & He' & Es). unfold shown_name in Es. destruct (xa_deleted e'); [done|]. injection Es as <-.
  rewrite Forall_forall in Hf. specialize (Hf e' (proj1 (list_elem_of_In _ _) He')). destruct Hf as [?|[? Hle]]; [by left|right].
  split; [done|]. apply key_cmp_le, key_le_lt_eq in Hle as [?|E]; [done|]. exfalso. apply Hni. rewrite E.
  apply list_elem_of_fmap. by exists e'.
Qed.

Lemma sorted_names l T : tabled l T -> names_of T (omap shown_name (merge_sort xa_le l)).
Proof.
  intros [Hn Hm]. pose proof (merge_sort_Permutation xa_le l) as Hp. split.
  - apply shown_names_sorted; [apply StronglySorted_merge_sort; apply _|].
    by rewrite (Permutation_map xa_name Hp).
  - intros nm. rewrite list_elem_of_omap. split.
    + intros ([n d] & He & Es). rewrite Hp in He. unfold shown_name in Es. cbn in Es. destruct d; [done|].
      injection Es as ->. by apply Hm.
    + intros H%Hm. exists (mkXa nm false). by rewrite Hp.
Qed.

Section xattrs.
Context {D : Type} `{!Dev D, !DevLaws D}.
Abbreviation V := (vol D dlog).
Abbreviation R := (rows V).
Implicit Types (v : V) (l : list seg) (s : R).

Lemma ref_flags l k r x : places l !! k = Some (noseq r) -> content l !! k = Some x -> r_flags r = x.1.
Proof.
  intros Hp Hc. pose proof (places_content l k) as Ha. rewrite Hp, Hc in Ha.
  destruct Ha as (sg & pre & rc & post & _ & _ & _ & Epl & ->). by injection Epl.
Qed.

Lemma xa_delta_acts l n base :
  acts l n base xa_delta_cb (fun c k x => match xa_canon_name k with Some nm => xa_put c nm (is_delete x.1) | None => c end).
Proof.
  intros v c k r x He Hp Hc. unfold xa_delta_cb. pose proof (reads_refl v (lv_faultless _ _ (en_live _ _ _ _ He))) as Hrf.
  destruct (xa_canon_name k) as [nm|]; [|by apply tot_ret]. rewrite (ref_flags l k r x Hp Hc). by apply tot_ret.
Qed.

(** The names of an inode's attributes. *)
Definition attr_names (m : kmap) (ino : Z) (names : list bytes) : Prop :=
  StronglySorted name_lt names /\
  forall nm, nm ∈ names <-> nm <> [] /\ file_name nm /\ is_Some (m !! xattr_key ino nm).

Lemma xattr_scan_tot {C} (cb : C -> bytes -> Z * C) sv ino s m c :
  at_map s m -> good_view sv (rw_vol s) -> ino_ok ino ->
  exists names, attr_names m ino names /\
    tot (vol_xattr_scan cb sv ino c) s (fun r s' => r = run_list cb names c /\ at_map s' m /\ kept s s').
Proof.
  intros Hm Hsv Hi. pose proof Hm as (l & n & base & He & Em & Ht). set (lo := xlo ino) in *. set (hi := xhi ino) in *.
  destruct (ranges_exist (rw_vol s) l n base lo hi He) as (dl & bl & Hd & Hb).
  assert (Ht0 : tabled [] ∅). { split; [constructor|]. intros nm d. rewrite lookup_empty. split; [by intros ?%not_elem_of_nil|done]. }
  pose proof (tabled_deltas dl [] ∅ Ht0) as Ht1. destruct (tabled_bases bl _ _ Ht1) as (l2 & Erun & Ht2).
  exists (omap shown_name (merge_sort xa_le l2)). split.
  { destruct (sorted_names l2 _ Ht2) as [H1 H2]. split; [done|]. intros nm. rewrite H2, <- Em.
    by apply names_table; [done|apply Ht|apply Ht|..]. }
  unfold vol_xattr_scan. apply tot_bind, (ready_tot s m); [done|]. fold lo hi.
  apply tot_bind. eapply (read_step _ s); [exact He|by apply (delta_pass _ l n base xa_delta_cb _ sv lo hi dl [] He (xa_delta_acts l n base))|].
  intros d v1 -> He1 _. cbn [fst snd Z.eqb negb].
  apply or_tot. eapply read_step; [exact He1|exact (root_pass v1 l n base He1)|]. intros root v2 -> He2 _.
  apply tot_bind. eapply read_step; [exact He2|exact (base_pass v2 l n base _ lo hi bl _ He2 Hb)|].
  intros b v3 -> He3 _. cbv beta. rewrite Erun. cbn [fst snd Z.eqb negb]. apply tot_ret. rewrite emit_list.
  split; [done|]. split; [by exists l, n, base|done].
Qed.
End xattrs.

(** ** Deleting an inode *)

Section inodes.
Context {D : Type} `{!Dev D, !DevLaws D} (E : penv) (RC : retire_calls (vol D dlog)).
Abbreviation V := (vol D dlog).
Abbreviation R := (rows V).
Implicit Types (v : V) (l : list seg) (s : R) (m : kmap).

(** Some of the rows of [ks] are gone. *)
Definition pruned (ks : list bytes) m m' : Prop :=
  forall k, (m' !! k = m !! k) \/ (k ∈ ks /\ m' !! k = None).

Lemma pruned_refl ks m : pruned ks m m.
Proof. by left. Qed.

Lemma del_keys_ans ks : forall s m,
  at_map s m -> Forall keyed ks ->
  ans (del_keys E RC ks) s (fun r s' => exists m', at_map s' m' /\ kept s s' /\ pruned ks m m' /\
    (is_Some r -> forall k, k ∈ ks -> m' !! k = None)).
Proof.
  induction ks as [|k ks IH]; intros s m Hm Hk; cbn [del_keys].
  { apply ans_ret. exists m. split_and!; [done|done|apply pruned_refl|]. by intros _ k ?%not_elem_of_nil. }
  apply Forall_cons_iff in Hk as [Hk Hks]. eapply ans_seq; [exact (del_ans E RC s m k Hm Hk)| |].
  - intros [] s1 [Hm1 K1]. pose proof (IH s1 _ Hm1 Hks) as H. unfold ans in *. destruct (del_keys E RC ks s1) as [r s'].
    destruct H as (m' & Hm' & K' & Hp & Hr). exists m'. split_and!; [done|by eapply kept_trans| |].
    + intros k'. destruct (Hp k') as [Ek|[Hin En]]; [|right; split; [by right|done]]. rewrite Ek.
      destruct (decide (k' = k)) as [->|Hne]; [right; split; [left|apply lookup_delete_eq]|left; by apply lookup_delete_ne].
    + intros Hs k' [->|Hin]%elem_of_cons; [|by apply Hr]. destruct (Hp k) as [->|[_ ->]]; [apply lookup_delete_eq|done].
  - intros s1 [Hm1 K1]. exists m. split_and!; [done|done|apply pruned_refl|]. by intros [].
Qed.

Lemma collect_keys bl : forall acc,
  run_cb xattr_collect_cb bl acc = (0, acc ++ omap (fun e => match xattr_key_decode e.1 with Some _ => Some e.1 | None => None end) bl).
Proof.
  induction bl as [|[k val] bl IH]; intros acc; cbn [run_cb omap list_omap fst]; [by rewrite app_nil_r|].
  unfold xattr_collect_cb at 1. destruct (xattr_key_decode k); [|apply IH]. cbn [Z.eqb negb]. rewrite IH. by rewrite <- app_assoc.
Qed.

Lemma collect_delta_acts l n base : acts (D := D) l n base xattr_collect_delta_cb (fun c k _ => c ++ [k]).
Proof.
  intros v c k r x He _ _. apply tot_ret. split; [done|]. apply reads_refl, (en_live _ _ _ _ He).
Qed.

(** No row of any attribute of [ino]. *)
Definition no_attrs m ino : Prop :=
  forall nm i, nm <> [] -> file_name nm -> 0 <= i < 2 ^ 16 -> m !! xattr_idx_key ino nm i = None.
(** Only rows of attributes of [ino] are gone. *)
Definition attrs_pruned ino m m' : Prop :=
  forall k, m' !! k = m !! k \/ (m' !! k = None /\ keyed k /\ in_range (xlo ino) (xhi ino) k).

(** The keys the deletion collects. *)
Definition collected (bl : list kv) (dl : list (bytes * (Z * bytes))) : list bytes :=
  omap (fun e : kv => match xattr_key_decode e.1 with Some _ => Some e.1 | None => None end) bl ++ map fst dl.

Lemma collected_in l base ino dl bl k :
  tiers_keyed l base -> range_of (xlo ino) (xhi ino) (content l) dl -> range_of (xlo ino) (xhi ino) base bl ->
  k ∈ collected bl dl -> keyed k /\ in_range (xlo ino) (xhi ino) k.
Proof.
  intros [Hkc Hkb] Hd Hb [Hk|Hk]%elem_of_app.
  - apply list_elem_of_omap in Hk as ([k' x] & [Hx Hr]%Hb & Ek). cbn [fst] in Ek. destruct (xattr_key_decode k'); [|done].
    injection Ek as <-. split; [|done]. apply Hkb. by exists x.
  - apply list_elem_of_fmap in Hk as ([k' x] & -> & [Hx Hr]%Hd). split; [|done]. apply Hkc. by exists x.
Qed.

Lemma collected_all l base ino dl bl nm i :
  range_of (xlo ino) (xhi ino) (content l) dl -> range_of (xlo ino) (xhi ino) base bl -> ino_ok ino ->
  nm <> [] -> file_name nm -> is_Some (over (content l) base !! xattr_idx_key ino nm i) ->
  xattr_idx_key ino nm i ∈ collected bl dl.
Proof.
  intros Hd Hb Hi Hne [_ Hl] Hs. assert (Hx : exists t, xattr_idx_key ino nm i = xattr_key ino nm ++ t /\
    (t = [] \/ exists i, t = [0; u8 (Z.shiftr i 8); Z.land i 255])).
  { unfold xattr_idx_key, xattr_chunk_key. destruct (i =? 0); [exists []; rewrite app_nil_r|eexists]; eauto. }
  destruct Hx as (t & Ek & Ht). rewrite Ek in *. pose proof (xattr_in_range ino nm t Hi Hl) as Hr.
  rewrite lookup_over in Hs. apply elem_of_app. destruct (content l !! (xattr_key ino nm ++ t)) as [x|] eqn:Ec.
  - right. apply list_elem_of_fmap. exists (xattr_key ino nm ++ t, x). split; [done|]. by apply Hd.
  - left. cbn [over_one] in Hs. destruct Hs as [val Hval]. apply list_elem_of_omap. exists (xattr_key ino nm ++ t, val).
    split; [by apply Hb|]. cbn [fst]. by destruct (decodes ino nm t Hne Hl Ht) as [? ->].
Qed.

Lemma shadow_keys_ans sv s m ino :
  at_map s m -> good_view sv (rw_vol s) -> ino_ok ino ->
  ans (delta_shadow_xattr_keys E RC sv ino) s (fun r s' => exists m', at_map s' m' /\ kept s s' /\
    attrs_pruned ino m m' /\ (is_Some r -> no_attrs m' ino)).
Proof.
  intros Hm Hsv Hi. pose proof Hm as (l & n & base & He & Em & Ht). unfold delta_shadow_xattr_keys. set (lo := xlo ino). set (hi := xhi ino).
  destruct (ranges_exist (rw_vol s) l n base lo hi He) as (dl & bl & Hd & Hb). set (ks := collected bl dl).
  pose proof (fun k => collected_in l base ino dl bl k Ht Hd Hb) as Hin.
  apply ans_bind. eapply (read_step _ s); [exact He|exact (root_pass _ l n base He)|]. intros root v1 -> He1 R1.
  apply ans_bind. eapply read_step; [exact He1|exact (base_pass v1 l n base _ lo hi bl [] He1 Hb)|]. intros b v2 -> He2 R2.
  rewrite collect_keys. cbn [fst snd app rw_vol set_rw_vol] in *. apply ans_bind, tot_guard; [done|].
  assert (Hsv2 : good_view sv v2).
  { destruct (reads_trans _ _ _ R1 R2) as (-> & _). exact Hsv. }
  apply ans_bind. eapply read_step; [exact He2|exact (delta_pass v2 l n base _ _ sv lo hi dl _ He2 (collect_delta_acts l n base) Hsv2 Hd)|].
  intros d v3 -> He3 _. rewrite (foldl_snoc fst dl). cbn [fst snd]. apply ans_bind, tot_guard; [done|]. fold (collected bl dl). fold ks.
  set (s3 := set_rw_vol v3 _). assert (Hm3 : at_map s3 m) by by exists l, n, base.
  pose proof (del_keys_ans ks s3 m Hm3) as H. unfold ans in *. destruct (del_keys E RC ks s3) as [r s'].
  destruct H as (m' & Hm' & K' & Hp & Hr); [apply Forall_forall; intros k Hk%list_elem_of_In; by apply Hin|].
  exists m'. split_and!; [done|done| |].
  - intros k. destruct (Hp k) as [?|[Hk ?]]; [by left|right]. split; [done|by apply Hin].
  - intros Hs nm i Hne Hn _. destruct (m' !! xattr_idx_key ino nm i) as [c|] eqn:Ec; [|done].
    rewrite <- Ec. apply Hr; [done|]. apply (collected_all l base); [done..|]. rewrite Em.
    destruct (Hp (xattr_idx_key ino nm i)) as [Ek|[_ Ek]]; [|congruence]. exists c. congruence.
Qed.

Lemma inode_delete_ans sv s m id :
  at_map s m -> good_view sv (rw_vol s) -> ino_ok id ->
  ans (vol_inode_delta_delete E RC sv id) s (fun r s' => exists m', at_map s' m' /\ kept s s' /\
    (forall k, m' !! k = m !! k \/ (m' !! k = None /\ ((is_Some r /\ k = ino_key id) \/ keyed k /\ in_range (xlo id) (xhi id) k))) /\
    (is_Some r -> m' !! ino_key id = None /\ (is_Some (m !! ino_key id) -> no_attrs m' id)) /\
    (m !! ino_key id = None -> m' = m)).
Proof.
  intros Hm Hsv Hi. pose proof (keyed_ino id Hi) as Hk. unfold vol_inode_delta_delete. apply ans_bind, (ready_tot s m); [done|].
  apply ans_bind, vol_tot. pose proof Hm as (l & n & base & He & Em & Ht).
  eapply tot_mono; [exact (exists_tot _ l n base _ He (keyed_ne _ Hk))|]. intros r v1 [-> Hrd]. rewrite Em.
  pose proof (reads_at s m v1 l n base He Em Ht Hrd) as Hm1. destruct (m !! ino_key id) as [row|] eqn:Er; cbn [is_some negb].
  2: { apply ans_ret. exists m. split_and!; [done|done|by left| |done]. intros _. split; [done|]. by intros []. }
  assert (Hsv1 : good_view sv v1) by (destruct Hrd as (-> & _); exact Hsv).
  eapply ans_seq; [exact (shadow_keys_ans sv _ m id Hm1 Hsv1 Hi)| |].
  2: { intros s' (m' & Hm' & K' & Hp & _). exists m'. split_and!; [done|done| |by intros []|done].
    intros k. destruct (Hp k) as [?|(? & ? & ?)]; [by left|right; tauto]. }
  intros [] s2 (m2 & Hm2 & K2 & Hp & Hno). specialize (Hno ltac:(by eexists)).
  pose proof (del_ans E RC s2 m2 (ino_key id) Hm2 Hk) as H. unfold ans in *.
  destruct (del E RC (ino_key id) s2) as [[[]|] s']; destruct H as [Hm' K']; cbn [fst snd] in *.
  - eexists. split_and!; [exact Hm'|by eapply kept_trans| | |done].
    + intros k. destruct (decide (k = ino_key id)) as [->|Hne]; [right; split; [apply lookup_delete_eq|left; split; [by eexists|done]]|].
      rewrite lookup_delete_ne by done. destruct (Hp k) as [?|(? & ? & ?)]; [by left|right; tauto].
    + intros _. split; [apply lookup_delete_eq|]. intros _ nm i Hne Hn Hi16. apply lookup_delete_None. right. by apply Hno.
  - exists m2. split_and!; [done|by eapply kept_trans| |by intros []|done].
    intros k. destruct (Hp k) as [?|(? & ? & ?)]; [by left|right; tauto].
Qed.
End inodes.

(** ** Inode numbers *)

Lemma keyed_eight k : keyed k -> zlen k = 8 -> exists id, ino_ok id /\ k = ino_key id.
Proof.
  intros [_ (b & Hb & ->)] H8. destruct b as [i|i nm|i nm|i nm c|a|a c]; cbn [key_bytes key_ok] in *; zbool.
  - exists i. split; [|done]. unfold ino_ok, INO_LIM. lia.
  - rewrite length_dirent_key in H8. unfold DIRENT_KEY_FIXED in H8. lia.
  - rewrite length_xattr_key in H8. unfold XATTR_FIXED in H8. lia.
  - unfold xattr_chunk_key in H8. rewrite length_app, Nat2Z.inj_add, length_xattr_key in H8. unfold XATTR_FIXED in H8. lia.
  - unfold recipe_key in H8. cbn [length] in H8. lia.
  - unfold recipe_chunk_key in H8. cbn [length] in H8. rewrite length_app in H8. lia.
Qed.

Lemma be_val_ino id : ino_ok id -> be_val (ino_key id) = id.
Proof.
  intros H. unfold ino_key. rewrite put_be64_be. apply be_val_bytes_small. unfold ino_ok, INO_LIM in H.
  change (256 ^ Z.of_nat 8) with (2 ^ 64). lia.
Qed.

Lemma foldl_keys {A B} (f : B -> bytes -> B) (l : list (bytes * A)) : forall c,
  foldl f c (map fst l) = foldl (fun c e => f c e.1) c l.
Proof. induction l as [|e l IH]; intros c; [done|]. apply IH. Qed.

(** The highest number in a list of keys. *)
Definition max_id (c : Z) (k : bytes) : Z := if negb (zlen k =? 8) then c else Z.max c (be_val k).

Lemma max_base bl : forall c, run_cb max_inode_cb bl c = (0, foldl (fun c e => max_id c e.1) c bl).
Proof.
  induction bl as [|[k val] bl IH]; intros c; cbn [run_cb foldl fst]; [done|]. unfold max_inode_cb at 1, max_id at 2.
  destruct (negb (zlen k =? 8)); cbn [Z.eqb negb]; apply IH.
Qed.

Lemma max_id_spec c k :
  c <= max_id c k /\ (zlen k = 8 -> be_val k <= max_id c k) /\ (max_id c k = c \/ (zlen k = 8 /\ max_id c k = be_val k)).
Proof. unfold max_id. destruct (Z.eqb_spec (zlen k) 8); cbn [negb]; lia. Qed.

Lemma max_ids ks : forall c,
  let M := foldl max_id c ks in
  c <= M /\ (forall k, k ∈ ks -> zlen k = 8 -> be_val k <= M) /\ (M = c \/ exists k, k ∈ ks /\ zlen k = 8 /\ M = be_val k).
Proof.
  induction ks as [|k ks IH]; intros c; cbn [foldl].
  { split; [done|]. split; [by intros k ?%not_elem_of_nil|by left]. }
  destruct (IH (max_id c k)) as (H1 & H2 & H3). destruct (max_id_spec c k) as (K1 & K2 & K3). split; [lia|]. split.
  - intros k' [->|Hi]%elem_of_cons H8; [specialize (K2 H8); lia|auto].
  - destruct H3 as [->|(k' & Hk & H8 & E3)]; [|right; exists k'; split; [by right|done]].
    destruct K3 as [->|[H8 ->]]; [by left|right; exists k; split; [left|done]].
Qed.

Section alloc.
Context {D : Type} `{!Dev D, !DevLaws D}.
Abbreviation V := (vol D dlog).
Abbreviation R := (rows V).
Implicit Types (v : V) (l : list seg) (s : R) (m : kmap).

(** Every inode row is below [n]. *)
Definition ids_below m (n : Z) : Prop := forall id, ino_ok id -> is_Some (m !! ino_key id) -> id < n.

Lemma max_delta_acts l n base : acts (D := D) l n base max_inode_delta_cb (fun c k _ => max_id c k).
Proof.
  intros v c k r x He _ _. pose proof (reads_refl v (lv_faultless _ _ (en_live _ _ _ _ He))) as Hrf.
  unfold max_inode_delta_cb, max_id. destruct (negb _); by apply tot_ret.
Qed.

(** The scan of all rows finds a number no row is above. *)
Lemma recover_tot sv s m :
  at_map s m -> good_view sv (rw_vol s) -> 0 <= next_inode_id s < INO_LIM ->
  tot (recover_ids sv) s (fun _ s' => at_map s' m /\ id_recovered s' = true /\ next_inode_id s <= next_inode_id s' <= INO_LIM /\
    2 <= next_inode_id s' /\ ids_below m (next_inode_id s')).
Proof.
  intros Hm Hsv Hn. pose proof Hm as (l & n & base & He & Em & Hkc & Hkb). unfold recover_ids.
  destruct (ranges_exist (rw_vol s) l n base [] [] He) as (dl & bl & Hd & Hb).
  apply tot_bind, (ready_tot s m); [done|].
  apply tot_bind. eapply (read_step _ s); [exact He|exact (root_pass _ l n base He)|]. intros root v1 -> He1 R1.
  apply tot_bind. eapply read_step; [exact He1|exact (base_pass v1 l n base _ [] [] bl 0 He1 Hb)|]. intros b v2 -> He2 R2.
  rewrite max_base. cbn [fst snd rw_vol set_rw_vol] in *. apply tot_bind, tot_guard; [done|].
  assert (Hsv2 : good_view sv v2).
  { destruct (reads_trans _ _ _ R1 R2) as (-> & _). exact Hsv. }
  apply tot_bind. eapply read_step; [exact He2|exact (delta_pass v2 l n base _ _ sv [] [] dl _ He2 (max_delta_acts l n base) Hsv2 Hd)|].
  intros d v3 -> He3 _. cbn [fst snd]. apply tot_bind, tot_guard; [done|].
  pose proof (max_ids (map fst bl ++ map fst dl) 0) as HM. cbv zeta in HM. rewrite foldl_app, !foldl_keys in HM. set (M := foldl _ _ dl) in *.
  destruct HM as (H0 & Hle & Hex).
  assert (HMlt : M < INO_LIM).
  { destruct Hex as [->|(k & Hk & H8 & ->)]; [done|]. assert (Hkk : keyed k).
    { apply elem_of_app in Hk as [Hk|Hk]; apply list_elem_of_fmap in Hk as ([k' x] & -> & Hx).
      - apply Hb in Hx as [Hx _]. apply Hkb. by exists x.
      - apply Hd in Hx as [Hx _]. apply Hkc. by exists x. }
    destruct (keyed_eight k Hkk H8) as (id & Hid & ->). rewrite be_val_ino by done. apply Hid. }
  assert (Hbelow : ids_below m (M + 1)).
  { intros id Hid [val Hv]. enough (be_val (ino_key id) <= M) by (rewrite be_val_ino in *; [lia|done]).
    apply Hle; [|done]. rewrite <- Em, lookup_over in Hv. assert (Hr : in_range [] [] (ino_key id)) by (split; [apply key_nil_le|by left]).
    apply elem_of_app. destruct (content l !! ino_key id) as [x|] eqn:Ec.
    - right. apply list_elem_of_fmap. exists (ino_key id, x). split; [done|by apply Hd].
    - left. apply list_elem_of_fmap. exists (ino_key id, val). split; [done|by apply Hb]. }
  apply tot_mod. cbn [next_inode_id id_recovered set_next_inode_id set_id_recovered set_rw_vol].
  unfold INVFS_ROOT_INO. assert (HL : INO_LIM = 3 * 2 ^ 56) by done. rewrite (u64_small (M + 1)) by lia.
  set (mx := if _ <? _ then _ else _). assert (Hmx : mx + 1 = Z.max (M + 1) (next_inode_id s)).
  { unfold mx. destruct (Z.ltb_spec (M + 1) (next_inode_id s)); lia. }
  rewrite u64_small by lia. rewrite Hmx. split_and!; [by exists l, n, base|done|..].
  - destruct (Z.leb_spec (Z.max (M + 1) (next_inode_id s)) 1); lia.
  - destruct (Z.leb_spec (Z.max (M + 1) (next_inode_id s)) 1); lia.
  - destruct (Z.leb_spec (Z.max (M + 1) (next_inode_id s)) 1); lia.
  - intros id Hid Hs. specialize (Hbelow id Hid Hs). destruct (Z.leb_spec (Z.max (M + 1) (next_inode_id s)) 1); lia.
Qed.

(** A handle whose counter is above every row once it has looked. *)
Definition ids_ok s m : Prop := id_recovered s = true -> 2 <= next_inode_id s /\ ids_below m (next_inode_id s).

Lemma alloc_tot sv s m :
  at_map s m -> good_view sv (rw_vol s) -> 0 <= next_inode_id s < INO_LIM -> ids_ok s m ->
  tot (vol_inode_alloc sv) s (fun id s' => at_map s' m /\ id_recovered s' = true /\ next_inode_id s' = id + 1 /\
    next_inode_id s <= id <= INO_LIM /\ 2 <= id /\ ids_below m id).
Proof.
  intros Hm Hsv Hn Hok. unfold vol_inode_alloc. apply tot_bind, tot_get.
  assert (Hfin : forall s1, at_map s1 m -> id_recovered s1 = true -> next_inode_id s <= next_inode_id s1 <= INO_LIM ->
    2 <= next_inode_id s1 -> ids_below m (next_inode_id s1) ->
    tot (let* s := mget in mmod (set_next_inode_id (u64 (next_inode_id s + 1))) ;;; mret (next_inode_id s)) s1 (fun id s' =>
      at_map s' m /\ id_recovered s' = true /\ next_inode_id s' = id + 1 /\ next_inode_id s <= id <= INO_LIM /\ 2 <= id /\ ids_below m id)).
  { intros s1 H1 H2 H3 H4 H5. apply tot_bind, tot_get, tot_bind, tot_mod, tot_ret. unfold INO_LIM in *.
    cbn [next_inode_id id_recovered set_next_inode_id]. rewrite u64_small by lia. done. }
  apply tot_bind. destruct (id_recovered s) eqn:Er.
  - apply tot_ret. destruct (Hok Er) as [H2 Hb]. apply Hfin; [done|done|lia|done|done].
  - apply tot_try. eapply tot_mono; [exact (recover_tot sv s m Hm Hsv Hn)|]. intros [] s1 (H1 & H2 & H3 & H4 & H5). by apply Hfin.
Qed.
End alloc.
End ScanSpec.
