(* ===== verification/Namespace.v ===== *)
(** * The namespace as three tables

    The contract of the namespace rows: a table of inodes, a table of directory
    entries and a table of extended attributes.  Sequences of the operations of
    Rows.v on a mounted volume answer as operations on these tables. *)

From stdpp Require Import sorting.
From S2P Require Import Prelude Dev Mem Alloc Volume Anchor Page PageLogic Metabuf MetaLive Keys Kv Node BTree TreeSpec Check Frame.
From S2P Require Import DeltaIndex DeltaRec Delta DeltaLog DeltaAppend DeltaSession Overlay Engine Rows RowsSpec ScanSpec.

Module Namespace.
Import Alloc Volume Anchor Page PageLogic Metabuf MetaLive Keys Kv Node BTree TreeSpec Check Frame.
Import DeltaIndex DeltaRec Delta DeltaLog DeltaAppend DeltaSession Overlay Engine Rows RowsSpec ScanSpec Mem.

(** ** Tables and rows *)

Record namespace := mkNs {
  ns_inodes : gmap Z invfs_inode;
  ns_dirents : gmap (Z * bytes) Z;
  ns_xattrs : gmap (Z * bytes) bytes
}.

Definition inode_row (i : invfs_inode) : Prop := inode_ok i /\ bytes_ok (i_recipe_addr i).
Definition attr_name (nm : bytes) : Prop := file_name nm /\ nm <> [].

(** The rows [m] hold the tables [N]. *)
Record represents (N : namespace) (m : kmap) : Prop := {
  rp_inode : forall id, ino_ok id -> m !! ino_key id = ino_encode <$> ns_inodes N !! id;
  rp_dirent : forall p nm, ino_ok p -> file_name nm -> m !! dirent_key p nm = dirent_val <$> ns_dirents N !! (p, nm);
  rp_xattr : forall ino nm, ino_ok ino -> attr_name nm -> attr_of m ino nm = ns_xattrs N !! (ino, nm);
  rp_bounded : forall ino nm, ino_ok ino -> attr_name nm -> attr_bounded m ino nm;
  rp_inodes : forall id i, ns_inodes N !! id = Some i -> ino_ok id /\ inode_row i;
  rp_dirents : forall p nm c, ns_dirents N !! (p, nm) = Some c -> ino_ok p /\ file_name nm /\ 0 <= c < 2 ^ 64;
  rp_xattrs : forall ino nm val, ns_xattrs N !! (ino, nm) = Some val -> ino_ok ino /\ attr_name nm
}.

(** ** Rows of different objects are different *)

#[local] Ltac apart :=
  let H := fresh in
  unfold ino_ok, INO_LIM, attr_name, file_name in *; rewrite ?xattr_idx_bytes;
  intros H; apply base_keys_inj in H; [|repeat case_match; cbn [key_ok]; lia..].

Lemma ino_dirent_ne id p nm : ino_ok id -> ino_ok p -> file_name nm -> ino_key id <> dirent_key p nm.
Proof. intros H1 H2 H3. change (key_bytes (KIno id) <> key_bytes (KDirent p nm)). by apart. Qed.
Lemma ino_xattr_ne id ino nm i :
  ino_ok id -> ino_ok ino -> file_name nm -> 0 <= i < 2 ^ 16 -> ino_key id <> xattr_idx_key ino nm i.
Proof. intros H1 H2 H3 H4. change (key_bytes (KIno id) <> xattr_idx_key ino nm i). apart. by destruct (i =? 0). Qed.
Lemma dirent_xattr_ne p nm' ino nm i :
  ino_ok p -> file_name nm' -> ino_ok ino -> file_name nm -> 0 <= i < 2 ^ 16 -> dirent_key p nm' <> xattr_idx_key ino nm i.
Proof. intros H1 H2 H3 H4 H5. change (key_bytes (KDirent p nm') <> xattr_idx_key ino nm i). apart. by destruct (i =? 0). Qed.
Lemma ino_inj id id' : ino_ok id -> ino_ok id' -> ino_key id = ino_key id' -> id = id'.
Proof. intros H1 H2. change (key_bytes (KIno id) = key_bytes (KIno id') -> id = id'). apart. congruence. Qed.
Lemma dirent_inj p nm p' nm' :
  ino_ok p -> file_name nm -> ino_ok p' -> file_name nm' -> dirent_key p nm = dirent_key p' nm' -> p = p' /\ nm = nm'.
Proof.
  intros H1 H2 H3 H4. change (key_bytes (KDirent p nm) = key_bytes (KDirent p' nm') -> p = p' /\ nm = nm'). apart.
  by injection H.
Qed.
Lemma xattr_inj ino nm i ino' nm' i' :
  ino_ok ino -> file_name nm -> 0 <= i < 2 ^ 16 -> ino_ok ino' -> file_name nm' -> 0 <= i' < 2 ^ 16 ->
  xattr_idx_key ino nm i = xattr_idx_key ino' nm' i' -> ino = ino' /\ nm = nm'.
Proof. intros H1 H2 H3 H4 H5 H6. apart. destruct (i =? 0), (i' =? 0); try done; by injection H. Qed.

(** ** What updates of the rows do to the tables *)

Lemma chain_same m m' ino nm fuel : forall idx,
  0 <= idx -> idx + Z.of_nat fuel <= 2 ^ 16 ->
  (forall i, 0 <= i < 2 ^ 16 -> m' !! xattr_idx_key ino nm i = m !! xattr_idx_key ino nm i) ->
  chain m' ino nm fuel idx = chain m ino nm fuel idx.
Proof.
  induction fuel as [|fuel IH]; intros idx Hi Hf Hs; cbn [chain]; [done|]. rewrite Hs by lia.
  destruct (m !! _); [|done]. f_equal. apply IH; [lia|lia|done].
Qed.

Lemma attr_same m m' ino nm :
  (forall i, 0 <= i < 2 ^ 16 -> m' !! xattr_idx_key ino nm i = m !! xattr_idx_key ino nm i) ->
  attr_of m' ino nm = attr_of m ino nm /\ (attr_bounded m ino nm -> attr_bounded m' ino nm).
Proof.
  intros Hs. split.
  - unfold attr_of. change (xattr_key ino nm) with (xattr_idx_key ino nm 0). rewrite Hs by lia.
    destruct (m !! _); [|done]. f_equal. apply chain_same; [lia| |done]. unfold ATTR_CHUNKS, XATTR_MAX_CHUNKS. lia.
  - intros Hb i c Hi. rewrite Hs by done. by apply Hb.
Qed.

Definition set_inodes f N := mkNs (f (ns_inodes N)) (ns_dirents N) (ns_xattrs N).
Definition set_dirents f N := mkNs (ns_inodes N) (f (ns_dirents N)) (ns_xattrs N).
Definition set_xattrs f N := mkNs (ns_inodes N) (ns_dirents N) (f (ns_xattrs N)).

(** An update of one row of a table. *)
Definition alter_row {A B} (enc : A -> B) (k : bytes) (o : option A) (m : gmap bytes B) : gmap bytes B :=
  match o with Some a => <[k := enc a]> m | None => delete k m end.
Definition alter_table {K A} `{Countable K} (k : K) (o : option A) (T : gmap K A) : gmap K A :=
  match o with Some a => <[k := a]> T | None => delete k T end.

Lemma alter_row_eq {A B} (enc : A -> B) k o m : alter_row enc k o m !! k = enc <$> o.
Proof. destruct o; [apply lookup_insert_eq|apply lookup_delete_eq]. Qed.
Lemma alter_row_ne {A B} (enc : A -> B) k k' o m : k <> k' -> alter_row enc k o m !! k' = m !! k'.
Proof. intros. destruct o; [by apply lookup_insert_ne|by apply lookup_delete_ne]. Qed.
Lemma alter_table_eq {K A} `{Countable K} (k : K) (o : option A) T : alter_table k o T !! k = o.
Proof. destruct o; [apply lookup_insert_eq|apply lookup_delete_eq]. Qed.
Lemma alter_table_ne {K A} `{Countable K} (k k' : K) (o : option A) T : k <> k' -> alter_table k o T !! k' = T !! k'.
Proof. intros. destruct o; [by apply lookup_insert_ne|by apply lookup_delete_ne]. Qed.

Lemma rep_inode_row N m id o :
  represents N m -> ino_ok id -> (forall i, o = Some i -> inode_row i) ->
  represents (set_inodes (alter_table id o) N) (alter_row ino_encode (ino_key id) o m).
Proof.
  intros [R1 R2 R3 R4 R5 R6 R7] Hid Ho.
  assert (Hx : forall ino nm i, ino_ok ino -> attr_name nm -> 0 <= i < 2 ^ 16 ->
    alter_row ino_encode (ino_key id) o m !! xattr_idx_key ino nm i = m !! xattr_idx_key ino nm i).
  { intros ino nm i H1 [H2 _] H3. apply alter_row_ne. by apply ino_xattr_ne. }
  split; cbn [set_inodes ns_inodes ns_dirents ns_xattrs].
  - intros id' Hid'. destruct (decide (id = id')) as [<-|Hne]; [by rewrite alter_row_eq, alter_table_eq|].
    rewrite alter_row_ne, alter_table_ne by (done || intros ?%ino_inj; done). auto.
  - intros p nm Hp Hn. rewrite alter_row_ne; [auto|]. by apply ino_dirent_ne.
  - intros ino nm H1 H2. rewrite <- R3 by done. apply attr_same. auto.
  - intros ino nm H1 H2. apply (attr_same m); auto.
  - intros id' i. destruct (decide (id = id')) as [<-|Hne]; [rewrite alter_table_eq; auto|].
    rewrite alter_table_ne by done. apply R5.
  - done.
  - done.
Qed.

Lemma rep_dirent_row N m p nm o :
  represents N m -> ino_ok p -> file_name nm -> (forall c, o = Some c -> 0 <= c < 2 ^ 64) ->
  represents (set_dirents (alter_table (p, nm) o) N) (alter_row dirent_val (dirent_key p nm) o m).
Proof.
  intros [R1 R2 R3 R4 R5 R6 R7] Hp Hn Ho.
  assert (Hx : forall ino nm' i, ino_ok ino -> attr_name nm' -> 0 <= i < 2 ^ 16 ->
    alter_row dirent_val (dirent_key p nm) o m !! xattr_idx_key ino nm' i = m !! xattr_idx_key ino nm' i).
  { intros ino nm' i H1 [H2 _] H3. apply alter_row_ne. by apply dirent_xattr_ne. }
  split; cbn [set_dirents ns_inodes ns_dirents ns_xattrs].
  - intros id Hid. rewrite alter_row_ne; [auto|]. intros E. by apply (ino_dirent_ne id p nm).
  - intros p' nm' Hp' Hn'. destruct (decide ((p, nm) = (p', nm'))) as [[= <- <-]|Hne]; [by rewrite alter_row_eq, alter_table_eq|].
    rewrite alter_row_ne, alter_table_ne by (done || intros [-> ->]%dirent_inj; done). auto.
  - intros ino nm' H1 H2. rewrite <- R3 by done. apply attr_same. auto.
  - intros ino nm' H1 H2. apply (attr_same m); auto.
  - done.
  - intros p' nm' c. destruct (decide ((p, nm) = (p', nm'))) as [[= <- <-]|Hne]; [rewrite alter_table_eq; auto|].
    rewrite alter_table_ne by done. apply R6.
  - done.
Qed.

(** A change of the rows of some attributes: every attribute that is there
    afterwards was there, or is the one named. *)
Lemma rep_xattr_rows N m m' X :
  represents N m ->
  (forall id, ino_ok id -> m' !! ino_key id = m !! ino_key id) ->
  (forall p nm, ino_ok p -> file_name nm -> m' !! dirent_key p nm = m !! dirent_key p nm) ->
  (forall ino nm, ino_ok ino -> attr_name nm -> attr_of m' ino nm = X !! (ino, nm) /\ attr_bounded m' ino nm) ->
  (forall ino nm val, X !! (ino, nm) = Some val -> ino_ok ino /\ attr_name nm) ->
  represents (set_xattrs (fun _ => X) N) m'.
Proof.
  intros [R1 R2 R3 R4 R5 R6 R7] H1 H2 H3 H4. split; cbn [set_xattrs ns_inodes ns_dirents ns_xattrs]; try done.
  - intros id Hid. rewrite H1 by done. auto.
  - intros p nm Hp Hn. rewrite H2 by done. auto.
  - intros ino nm Hi Hn. by apply H3.
  - intros ino nm Hi Hn. by apply H3.
Qed.

(** The rows of one attribute changed. *)
Lemma rep_attr_step N m m' ino nm :
  represents N m -> ino_ok ino -> attr_name nm -> attr_from ino nm 0 m m' ->
  represents (set_xattrs (alter_table (ino, nm) (attr_of m' ino nm)) N) m'.
Proof.
  intros HR Hi [Hn Hne] [Hs Hb]. pose proof HR as [R1 R2 R3 R4 R5 R6 R7].
  apply (rep_xattr_rows N m m' (alter_table (ino, nm) (attr_of m' ino nm) (ns_xattrs N)) HR).
  - intros id Hid. apply Hs. intros i Hi16. by apply ino_xattr_ne.
  - intros p nm' Hp Hn'. apply Hs. intros i Hi16. by apply dirent_xattr_ne.
  - intros ino' nm' Hi' [Hn' Hne']. destruct (decide ((ino, nm) = (ino', nm'))) as [[= <- <-]|Hdiff].
    + rewrite alter_table_eq. split; [done|]. by apply Hb, (R4 ino nm Hi (conj Hn Hne)).
    + rewrite alter_table_ne by done. rewrite <- (R3 ino' nm' Hi' (conj Hn' Hne')).
      assert (Hsame : forall i, 0 <= i < 2 ^ 16 -> m' !! xattr_idx_key ino' nm' i = m !! xattr_idx_key ino' nm' i).
      { intros i Hi16. apply Hs. intros i' Hi16'. intros [-> ->]%xattr_inj; done. }
      destruct (attr_same m m' ino' nm' Hsame) as [E1 E2]. split; [done|]. by apply E2, (R4 ino' nm' Hi' (conj Hn' Hne')).
  - intros ino' nm' val. destruct (decide ((ino, nm) = (ino', nm'))) as [[= <- <-]|Hdiff]; [by rewrite alter_table_eq|].
    rewrite alter_table_ne by done. apply R7.
Qed.

(** *** The deletion of an inode *)

(** A key in the range of an inode's attributes is a row of one of them. *)
Lemma attr_zone id k :
  ino_ok id -> keyed k -> in_range (xlo id) (xhi id) k ->
  (forall id', ino_ok id' -> k <> ino_key id') /\
  (forall p nm, ino_ok p -> file_name nm -> k <> dirent_key p nm) /\
  (forall ino nm i, ino_ok ino -> file_name nm -> 0 <= i < 2 ^ 16 -> k = xattr_idx_key ino nm i -> ino = id).
Proof.
  intros Hi Hk Hr. destruct (xattr_range id k Hi Hk Hr) as (nm & Hn & Hkey).
  assert (Hb : exists b, k = key_bytes b /\ key_ok b = true /\ (b = KXattr id nm \/ exists i, b = KXattrChunk id nm i)).
  { unfold ino_ok, INO_LIM, file_name in *. destruct Hkey as [->|(i & Hi16 & ->)].
    - exists (KXattr id nm). cbn [key_ok]. split; [done|]. split; [lia|by left].
    - exists (KXattrChunk id nm i). cbn [key_ok]. split; [done|]. split; [lia|right; by exists i]. }
  destruct Hb as (b & -> & Hok & Hb). unfold ino_ok, INO_LIM, file_name in *. split_and!.
  - intros id' Hid'. change (key_bytes b <> key_bytes (KIno id')). intros ->%base_keys_inj; [|done|cbn [key_ok]; lia].
    by destruct Hb as [?|[? ?]].
  - intros p nm' Hp Hn'. change (key_bytes b <> key_bytes (KDirent p nm')). intros ->%base_keys_inj; [|done|cbn [key_ok]; lia].
    by destruct Hb as [?|[? ?]].
  - intros ino nm' i Hi' Hn' Hi16. rewrite xattr_idx_bytes. intros ->%base_keys_inj; [|done|destruct (i =? 0); cbn [key_ok]; lia].
    destruct (i =? 0), Hb as [?|[? ?]]; congruence.
Qed.

(** Rows of attributes of [id], and its own row, may be gone. *)
Definition inode_pruned (id : Z) (own : Prop) (m m' : kmap) : Prop :=
  forall k, m' !! k = m !! k \/ (m' !! k = None /\ ((own /\ k = ino_key id) \/ keyed k /\ in_range (xlo id) (xhi id) k)).

(** The attributes of [id] as the rows [m'] have them. *)
Definition reread_attrs (id : Z) (m' : kmap) (T : gmap (Z * bytes) bytes) : gmap (Z * bytes) bytes :=
  map_imap (fun k val => if decide (k.1 = id) then attr_of m' k.1 k.2 else Some val) T.

Lemma reread_lookup id m' T ino nm :
  reread_attrs id m' T !! (ino, nm) =
    match T !! (ino, nm) with Some val => if decide (ino = id) then attr_of m' ino nm else Some val | None => None end.
Proof. unfold reread_attrs. rewrite map_lookup_imap. by destruct (T !! (ino, nm)). Qed.

Section pruned.
Context (N : namespace) (m m' : kmap) (id : Z) (own : Prop).
Hypothesis (HR : represents N m) (Hid : ino_ok id) (Hp : inode_pruned id own m m').

Lemma pruned_dirent p nm : ino_ok p -> file_name nm -> m' !! dirent_key p nm = m !! dirent_key p nm.
Proof.
  intros Hpo Hn. destruct (Hp (dirent_key p nm)) as [?|[_ [[_ E]|[Hk Hr]]]]; [done|exfalso..].
  - by apply (ino_dirent_ne id p nm).
  - by apply (proj1 (proj2 (attr_zone id _ Hid Hk Hr)) p nm).
Qed.
Lemma pruned_ino id' : ino_ok id' -> id' <> id \/ ~ own -> m' !! ino_key id' = m !! ino_key id'.
Proof.
  intros Hi Hne. destruct (Hp (ino_key id')) as [?|[_ [[Ho E]|[Hk Hr]]]]; [done|exfalso..].
  - apply ino_inj in E; [|done..]. subst. by destruct Hne.
  - by apply (proj1 (attr_zone id _ Hid Hk Hr) id').
Qed.
Lemma pruned_attr ino nm i :
  ino_ok ino -> file_name nm -> 0 <= i < 2 ^ 16 ->
  m' !! xattr_idx_key ino nm i = m !! xattr_idx_key ino nm i \/ (ino = id /\ m' !! xattr_idx_key ino nm i = None).
Proof.
  intros Hi Hn Hi16. destruct (Hp (xattr_idx_key ino nm i)) as [?|[E0 [[_ E]|[Hk Hr]]]]; [by left|exfalso|right].
  - by apply (ino_xattr_ne id ino nm i).
  - split; [|done]. by apply (proj2 (proj2 (attr_zone id _ Hid Hk Hr)) ino nm i).
Qed.

Lemma pruned_xattrs ino nm :
  ino_ok ino -> attr_name nm ->
  attr_of m' ino nm = reread_attrs id m' (ns_xattrs N) !! (ino, nm) /\ attr_bounded m' ino nm.
Proof.
  intros Hi [Hn Hne]. pose proof (rp_bounded _ _ HR ino nm Hi (conj Hn Hne)) as Hb. split.
  - rewrite reread_lookup, <- (rp_xattr _ _ HR ino nm Hi (conj Hn Hne)).
    assert (Hnone : attr_of m ino nm = None -> attr_of m' ino nm = None).
    { unfold attr_of. change (xattr_key ino nm) with (xattr_idx_key ino nm 0).
      destruct (pruned_attr ino nm 0 Hi Hn ltac:(lia)) as [->|[_ ->]]; [|done]. by destruct (m !! _). }
    destruct (decide (ino = id)) as [->|Hd].
    + destruct (attr_of m id nm); [done|auto].
    + assert (E1 : attr_of m' ino nm = attr_of m ino nm).
      { apply attr_same. intros i Hi16. by destruct (pruned_attr ino nm i Hi Hn Hi16) as [?|[? _]]. }
      rewrite E1. by destruct (attr_of m ino nm).
  - intros i c Hi16 Hc. destruct (pruned_attr ino nm i Hi Hn Hi16) as [E1|[_ E1]]; rewrite E1 in Hc; [by apply Hb|done].
Qed.

Lemma reread_ok ino nm val :
  reread_attrs id m' (ns_xattrs N) !! (ino, nm) = Some val -> ino_ok ino /\ attr_name nm.
Proof.
  rewrite reread_lookup. destruct (ns_xattrs N !! (ino, nm)) as [x|] eqn:Ex; [|done]. intros _. by apply (rp_xattrs _ _ HR ino nm x).
Qed.

(** The deletion stopped half-way. *)
Lemma rep_pruned_stays : ~ own -> represents (set_xattrs (reread_attrs id m') N) m'.
Proof.
  intros Ho. apply (rep_xattr_rows N m m' (reread_attrs id m' (ns_xattrs N)) HR).
  - intros id' Hi. apply pruned_ino; auto.
  - apply pruned_dirent.
  - apply pruned_xattrs.
  - apply reread_ok.
Qed.

Definition drop_attrs (T : gmap (Z * bytes) bytes) : gmap (Z * bytes) bytes := filter (fun e => e.1.1 <> id) T.

(** The deletion is complete. *)
Lemma rep_pruned_gone :
  m' !! ino_key id = None -> no_attrs m' id ->
  represents (set_inodes (alter_table id None) (set_xattrs drop_attrs N)) m'.
Proof.
  intros Hgone Hno.
  assert (Ex : reread_attrs id m' (ns_xattrs N) = drop_attrs (ns_xattrs N)).
  { apply map_eq. intros [ino nm]. rewrite reread_lookup. unfold drop_attrs. rewrite map_lookup_filter.
    destruct (ns_xattrs N !! (ino, nm)) as [val|] eqn:Ev; [|done]. cbn [mbind option_bind fst].
    destruct (rp_xattrs _ _ HR ino nm val Ev) as [Hi [Hn Hne]].
    destruct (decide (ino = id)) as [->|Hd].
    - rewrite option_guard_False by (intros Hx; by apply Hx). unfold attr_of. change (xattr_key id nm) with (xattr_idx_key id nm 0).
      by rewrite Hno by (done || lia).
    - by rewrite option_guard_True. }
  pose proof HR as [R1 R2 R3 R4 R5 R6 R7].
  split; cbn [set_inodes set_xattrs ns_inodes ns_dirents ns_xattrs alter_table]; rewrite <- ?Ex.
  - intros id' Hi. destruct (decide (id' = id)) as [->|Hd]; [by rewrite lookup_delete_eq|].
    rewrite lookup_delete_ne by done. rewrite pruned_ino by auto. auto.
  - intros p nm Hpo Hn. rewrite pruned_dirent by done. auto.
  - intros ino nm Hi Hn. by apply pruned_xattrs.
  - intros ino nm Hi Hn. by apply pruned_xattrs.
  - intros id' i [_ Hl]%lookup_delete_Some. by apply R5.
  - done.
  - apply reread_ok.
Qed.
End pruned.

(** ** Sessions *)

Inductive nop :=
  | NInodeGet (id : Z)
  | NInodePut (id : Z) (i : invfs_inode)
  | NInodeDelete (id : Z)
  | NDirentGet (p : Z) (nm : bytes)
  | NDirentPut (p : Z) (nm : bytes) (child : Z)
  | NDirentDel (p : Z) (nm : bytes)
  | NDirentScan (p : Z)
  | NXattrGet (ino : Z) (nm : bytes) (cap : Z)
  | NXattrSet (ino : Z) (nm val : bytes)
  | NXattrDel (ino : Z) (nm : bytes)
  | NXattrScan (ino : Z).

(** What the caller sees; the scans collect what their callback is given. *)
Inductive nres :=
  | RDone (ok : bool)
  | RInode (o : option invfs_inode)
  | RChild (o : option Z)
  | REntries (rc : Z) (l : list (bytes * Z))
  | RAttr (a : xattr_rc * bytes * Z)
  | RRc (rc : xattr_rc)
  | RNames (rc : Z) (l : list bytes).

(** A directory as its scan shows it. *)
Definition entries (N : namespace) (p : Z) (l : list (bytes * Z)) : Prop :=
  StronglySorted name_lt (map fst l) /\
  forall nm c, (nm, c) ∈ l <-> nm <> [] /\ ns_dirents N !! (p, nm) = Some c.
Definition names (N : namespace) (ino : Z) (l : list bytes) : Prop :=
  StronglySorted name_lt l /\ forall nm, nm ∈ l <-> is_Some (ns_xattrs N !! (ino, nm)).

(** The contract.  A refused write of a row leaves everything as it was; an
    operation on several rows that is refused half-way may leave the attribute,
    or the attributes of the inode, in another state, and nothing else. *)
Inductive ns_step (N : namespace) : nop -> nres -> namespace -> Prop :=
  | SInodeGet id : ns_step N (NInodeGet id) (RInode (ns_inodes N !! id)) N
  | SInodePut id i : i_nlink i <> 0 -> ns_step N (NInodePut id i) (RDone true) (set_inodes (alter_table id (Some i)) N)
  | SInodePutRefused id i : ns_step N (NInodePut id i) (RDone false) N
  | SInodeMissing id : ns_inodes N !! id = None -> ns_step N (NInodeDelete id) (RDone true) N
  | SInodeDelete id : is_Some (ns_inodes N !! id) ->
      ns_step N (NInodeDelete id) (RDone true) (set_inodes (alter_table id None) (set_xattrs (drop_attrs id) N))
  | SInodeDeleteRefused id X : (forall ino nm, ino <> id -> X !! (ino, nm) = ns_xattrs N !! (ino, nm)) ->
      ns_step N (NInodeDelete id) (RDone false) (set_xattrs (fun _ => X) N)
  | SDirentGet p nm : ns_step N (NDirentGet p nm) (RChild (ns_dirents N !! (p, nm))) N
  | SDirentPut p nm c : c <> 0 -> ns_step N (NDirentPut p nm c) (RDone true) (set_dirents (alter_table (p, nm) (Some c)) N)
  | SDirentPutRefused p nm c : ns_step N (NDirentPut p nm c) (RDone false) N
  | SDirentDel p nm : ns_step N (NDirentDel p nm) (RDone true) (set_dirents (alter_table (p, nm) None) N)
  | SDirentDelRefused p nm : ns_step N (NDirentDel p nm) (RDone false) N
  | SDirentScan p l : entries N p l -> ns_step N (NDirentScan p) (REntries 0 l) N
  | SXattrGet ino nm cap : ns_step N (NXattrGet ino nm cap) (RAttr (get_attr (ns_xattrs N !! (ino, nm)) cap)) N
  | SXattrSet ino nm val : ns_step N (NXattrSet ino nm val) (RRc XOk) (set_xattrs (alter_table (ino, nm) (Some val)) N)
  | SXattrSetRefused ino nm val r o : r <> RRc XOk ->
      ns_step N (NXattrSet ino nm val) r (set_xattrs (alter_table (ino, nm) o) N)
  | SXattrDel ino nm : is_Some (ns_xattrs N !! (ino, nm)) ->
      ns_step N (NXattrDel ino nm) (RRc XOk) (set_xattrs (alter_table (ino, nm) None) N)
  | SXattrMissing ino nm : ns_xattrs N !! (ino, nm) = None -> ns_step N (NXattrDel ino nm) (RRc XNoData) N
  | SXattrDelRefused ino nm r o : r <> RRc XOk -> r <> RRc XNoData ->
      ns_step N (NXattrDel ino nm) r (set_xattrs (alter_table (ino, nm) o) N)
  | SXattrScan ino l : names N ino l -> ns_step N (NXattrScan ino) (RNames 0 l) N.

Inductive ns_run : namespace -> list nop -> list nres -> namespace -> Prop :=
  | SNil N : ns_run N [] [] N
  | SCons N o r N' os rs N'' : ns_step N o r N' -> ns_run N' os rs N'' -> ns_run N (o :: os) (r :: rs) N''.

Definition nop_ok (o : nop) : Prop :=
  match o with
  | NInodeGet id | NInodeDelete id => ino_ok id
  | NInodePut id i => ino_ok id /\ inode_row i
  | NDirentGet p nm | NDirentDel p nm => ino_ok p /\ file_name nm
  | NDirentPut p nm c => ino_ok p /\ file_name nm /\ 0 <= c < 2 ^ 64
  | NDirentScan p => ino_ok p /\ p + 1 < INO_LIM
  | NXattrGet ino nm _ | NXattrDel ino nm => ino_ok ino /\ attr_name nm
  | NXattrSet ino nm val => ino_ok ino /\ attr_name nm /\ bytes_ok val
  | NXattrScan ino => ino_ok ino
  end.

Section session.
Context {D : Type} `{!Dev D, !DevLaws D} (E : penv) (RC : retire_calls (vol D dlog)).
Abbreviation V := (vol D dlog).
Abbreviation R := (rows V).
(** The view of the index the calling thread scans through. *)
Context (view : R -> di_sorted).
Hypothesis (view_good : forall s, good_view (view s) (rw_vol s)).
Implicit Types (s : R) (m : kmap) (N : namespace).

Definition nreply {A} (f : A -> nres) (c : M R A) : R -> nres * R := fun s =>
  let '(r, s') := c s in (match r with Some a => f a | None => RDone false end, s').

Definition nperform (o : nop) : R -> nres * R :=
  match o with
  | NInodeGet id => nreply RInode (vol_inode_get id)
  | NInodePut id i => nreply (fun _ => RDone true) (vol_inode_delta_put E RC id i)
  | NInodeDelete id => fun s => nreply (fun _ => RDone true) (vol_inode_delta_delete E RC (view s) id) s
  | NDirentGet p nm => nreply RChild (vol_dirent_get p nm)
  | NDirentPut p nm c => nreply (fun _ => RDone true) (vol_dirent_delta_put E RC p nm c)
  | NDirentDel p nm => nreply (fun _ => RDone true) (vol_dirent_delta_del E RC p nm)
  | NDirentScan p => fun s => nreply (fun r => REntries (fst r) (snd r))
      (vol_dirent_scan (fun c nm ch => (0, c ++ [(nm, ch)])) (view s) p []) s
  | NXattrGet ino nm cap => nreply RAttr (vol_xattr_get ino nm cap)
  | NXattrSet ino nm val => nreply RRc (vol_xattr_delta_set E RC ino nm val)
  | NXattrDel ino nm => nreply RRc (vol_xattr_delta_del E RC ino nm)
  | NXattrScan ino => fun s => nreply (fun r => RNames (fst r) (snd r))
      (vol_xattr_scan (fun c nm => (0, c ++ [nm])) (view s) ino []) s
  end.

Fixpoint nperform_all (os : list nop) (s : R) : list nres * R :=
  match os with
  | [] => ([], s)
  | o :: os => let '(r, s) := nperform o s in let '(rs, s) := nperform_all os s in (r :: rs, s)
  end.

(** The volume of the handle holds the tables [N]. *)
Definition holds_ns s N : Prop := exists m, at_map s m /\ represents N m.

Definition nstepped N o (rs : nres * R) : Prop := exists N', holds_ns (snd rs) N' /\ ns_step N o (fst rs) N'.

Lemma nreply_tot {A} (f : A -> nres) (c : M R A) s N o (Q : A -> R -> Prop) :
  tot c s Q -> (forall a s', Q a s' -> nstepped N o (f a, s')) -> nstepped N o (nreply f c s).
Proof. intros (a & s' & Ec & HQ) H. unfold nreply. rewrite Ec. by apply H. Qed.
Lemma nreply_ans {A} (f : A -> nres) (c : M R A) s N o (Q : option A -> R -> Prop) :
  ans c s Q -> (forall r s', Q r s' -> nstepped N o (match r with Some a => f a | None => RDone false end, s')) ->
  nstepped N o (nreply f c s).
Proof. unfold ans, nreply. intros HQ H. destruct (c s) as [r s']. by apply H. Qed.

Lemma inode_bytes i : inode_row i -> bytes_ok (ino_encode i) /\ zlen (ino_encode i) < 2 ^ 16.
Proof.
  intros [Hi Ha]. split; [|by rewrite (length_ino_encode i (io_addr i Hi))].
  unfold ino_encode, ptr_bytes. repeat (apply Forall_app_2; [apply le_bytes_ok || (repeat (apply Forall_app_2; [apply le_bytes_ok|]); apply le_bytes_ok)|]). done.
Qed.

Lemma get_inode_step s N id : holds_ns s N -> ino_ok id -> nstepped N (NInodeGet id) (nperform (NInodeGet id) s).
Proof.
  intros (m & Hm & HR) Hid. eapply nreply_tot.
  { apply (inode_get_tot s m id (ns_inodes N !! id) Hm); [by apply HR|]. intros i Hi. by apply (rp_inodes _ _ HR id i). }
  intros r s' (-> & Hm' & _). exists N. split; [by exists m|constructor].
Qed.

Lemma get_dirent_step s N p nm :
  holds_ns s N -> ino_ok p -> file_name nm -> nstepped N (NDirentGet p nm) (nperform (NDirentGet p nm) s).
Proof.
  intros (m & Hm & HR) Hp Hn. eapply nreply_tot.
  { apply (dirent_get_tot s m p nm (ns_dirents N !! (p, nm)) Hm Hn); [by apply HR|]. intros c Hc. by apply (rp_dirents _ _ HR p nm c). }
  intros r s' (-> & Hm' & _). exists N. split; [by exists m|constructor].
Qed.

Lemma put_inode_step s N id i :
  holds_ns s N -> ino_ok id -> inode_row i -> nstepped N (NInodePut id i) (nperform (NInodePut id i) s).
Proof.
  intros (m & Hm & HR) Hid Hi. destruct (inode_bytes i Hi) as [Hb Hl].
  eapply (nreply_ans _ _ _ _ _ (fun r s' => match r with
    | Some _ => i_nlink i <> 0 /\ at_map s' (<[ino_key id := ino_encode i]> m) | None => at_map s' m end)).
  - unfold vol_inode_delta_put. destruct (Z.eqb_spec (i_nlink i) 0) as [E0|Hn]; cbn [negb]; [by apply (ans_fail _ _ _ s)|].
    apply ans_bind, tot_guard; [done|]. apply ans_bind, (ready_tot s m); [done|].
    apply ans_bind, tot_try. eapply tot_mono.
    { apply (inode_get_tot s m id (ns_inodes N !! id) Hm); [by apply HR|]. intros i' Hi'. by apply (rp_inodes _ _ HR id i'). }
    intros old s1 (-> & Hm1 & _). apply ans_bind.
    apply (tot_mono _ _ (fun _ s' => at_map s' m)).
    { destruct (ns_inodes N !! id) as [o|]; [destruct (bool_decide _); [by apply tot_ret|]|]; apply tot_mod; exact Hm1. }
    intros [] s2 Hm2. pose proof (put_ans E RC s2 m (ino_key id) (ino_encode i) Hm2 (keyed_ino id Hid) Hb Hl) as H.
    unfold ans in *. destruct (put E RC (ino_key id) (ino_encode i) s2) as [[[]|] s']; cbn [fst snd] in *; [split; [done|]|]; apply H.
  - intros [[]|] s' H.
    + destruct H as [Hn H]. eexists. split; [|by apply SInodePut]. eexists. split; [exact H|].
      apply (rep_inode_row N m id (Some i) HR Hid). by intros ? [= <-].
    + exists N. split; [by exists m|constructor].
Qed.

Lemma put_dirent_step s N p nm c :
  holds_ns s N -> ino_ok p -> file_name nm -> 0 <= c < 2 ^ 64 -> nstepped N (NDirentPut p nm c) (nperform (NDirentPut p nm c) s).
Proof.
  intros (m & Hm & HR) Hp Hn Hc. assert (Hle : (zlen nm <=? INVFS_MAX_NAME) = true) by apply Z.leb_le, Hn.
  eapply (nreply_ans _ _ _ _ _ (fun r s' => match r with
    | Some _ => c <> 0 /\ at_map s' (<[dirent_key p nm := dirent_val c]> m) | None => at_map s' m end)).
  - unfold vol_dirent_delta_put. rewrite Hle. destruct (Z.eqb_spec c 0) as [E0|Hc0]; cbn [negb andb]; [by apply (ans_fail _ _ _ s)|].
    apply ans_bind, tot_guard; [done|]. apply ans_bind, (ready_tot s m); [done|].
    pose proof (put_ans E RC s m (dirent_key p nm) (dirent_val c) Hm (keyed_dirent p nm Hp Hn) (put_be64_ok c)) as H.
    unfold dirent_val in H at 1. rewrite length_put_be64 in H. specialize (H ltac:(done)).
    unfold ans in *. destruct (put E RC _ _ s) as [[[]|] s']; cbn [fst snd] in *; [split; [done|]|]; apply H.
  - intros [[]|] s' H.
    + destruct H as [Hc0 H]. eexists. split; [|by apply SDirentPut]. eexists. split; [exact H|].
      apply (rep_dirent_row N m p nm (Some c) HR Hp Hn). by intros ? [= <-].
    + exists N. split; [by exists m|constructor].
Qed.

Lemma del_dirent_step s N p nm :
  holds_ns s N -> ino_ok p -> file_name nm -> nstepped N (NDirentDel p nm) (nperform (NDirentDel p nm) s).
Proof.
  intros (m & Hm & HR) Hp Hn. pose proof (keyed_dirent p nm Hp Hn) as Hk.
  eapply (nreply_ans _ _ _ _ _ (fun r s' => match r with Some _ => at_map s' (delete (dirent_key p nm) m) | None => at_map s' m end)).
  - unfold vol_dirent_delta_del. apply ans_bind, tot_guard; [apply Z.leb_le, Hn|]. apply ans_bind, (ready_tot s m); [done|].
    apply ans_bind. eapply tot_mono; [exact (exists_row s m _ Hm (keyed_ne _ Hk))|]. intros ex s1 (-> & Hm1 & _).
    destruct (m !! dirent_key p nm) as [row|] eqn:Er; cbn [is_some negb].
    + pose proof (del_ans E RC s1 m _ Hm1 Hk) as H. unfold ans in *. destruct (del E RC _ s1) as [[[]|] s']; apply H.
    + apply ans_ret. by rewrite delete_id.
  - intros [[]|] s' H.
    + eexists. split; [|constructor]. eexists. split; [exact H|]. by apply (rep_dirent_row N m p nm None HR Hp Hn).
    + exists N. split; [by exists m|constructor].
Qed.

Lemma at_keyed s m k : at_map s m -> is_Some (m !! k) -> keyed k.
Proof.
  intros (l & n & base & _ & <- & Hc & Hb). rewrite lookup_over. destruct (content l !! k) as [x|] eqn:Ec; cbn [over_one].
  - intros _. apply Hc. by exists x.
  - apply Hb.
Qed.

Lemma collect_names l : forall acc, run_names (fun c nm ch => (0, c ++ [(nm, ch)])) l acc = (0, acc ++ l).
Proof.
  induction l as [|[nm ch] l IH]; intros acc; cbn [run_names]; [by rewrite app_nil_r|]. cbn [Z.eqb negb]. by rewrite IH, <- app_assoc.
Qed.
Lemma collect_list l : forall acc, run_list (fun c nm => (0, c ++ [nm])) l acc = (0, acc ++ l).
Proof.
  induction l as [|nm l IH]; intros acc; cbn [run_list]; [by rewrite app_nil_r|]. cbn [Z.eqb negb]. by rewrite IH, <- app_assoc.
Qed.

Lemma dirent_lt_name p a b :
  ino_ok p -> zlen a <= INVFS_MAX_NAME -> zlen b <= INVFS_MAX_NAME -> key_lt (dirent_key p a) (dirent_key p b) -> name_lt a b.
Proof.
  unfold ino_ok, INO_LIM. intros Hp Ha Hb. unfold key_lt. rewrite lex_dirent by (done || lia). unfold dirent_compare, name_lt.
  rewrite Z.compare_refl. destruct (Z.compare_spec (zlen a) (zlen b)); [by right|by left|done].
Qed.

(** What the scan shows of a directory is the directory. *)
Lemma shown_entries s N m p es :
  at_map s m -> represents N m -> ino_ok p -> p + 1 < INO_LIM ->
  shown_rows (dirent_key p []) (dirent_key (u64 (p + 1)) []) m es ->
  entries N p (map (fun e => (dirent_name e.1, e.2)) es).
Proof.
  intros Hm HR Hp Hp1 [Hs Hin].
  assert (Hkey : forall e, e ∈ es -> exists nm, nm <> [] /\ file_name nm /\ e.1 = dirent_key p nm).
  { intros [k c] He. apply Hin in He as (Hsh & Hr & val & Hk & ->). cbn [fst].
    apply (dirent_range p k Hp Hp1); [|done]. by apply (at_keyed s m k Hm); exists val. }
  split.
  - clear Hin. rewrite map_map. cbn [fst]. induction es as [|e es IH]; [constructor|]. cbn [map] in *.
    apply ksorted_cons in Hs as [Hs Hlt]. constructor; [apply IH; [done|intros; apply Hkey; by right]|].
    apply Forall_forall. intros nm' (e' & <- & He')%in_map_iff.
    destruct (Hkey e (list_elem_of_here _ _)) as (n1 & _ & [_ L1] & E1).
    destruct (Hkey e' ltac:(right; by apply list_elem_of_In)) as (n2 & _ & [_ L2] & E2).
    rewrite E1, E2, !dirent_name_key by done. apply (dirent_lt_name p); [done..|]. rewrite <- E1, <- E2.
    rewrite Forall_forall in Hlt. by apply Hlt, in_map.
  - intros nm c. rewrite list_elem_of_fmap. split.
    + intros ([k c'] & [= -> ->] & He). destruct (Hkey _ He) as (n1 & Hne & Hn & E1). cbn [fst snd] in *. subst k.
      apply Hin in He as (_ & _ & val & Hk & ->). rewrite dirent_name_key by apply Hn. split; [done|].
      rewrite (rp_dirent _ _ HR) in Hk by done. destruct (ns_dirents N !! (p, n1)) as [c|] eqn:Ec; [|done]. injection Hk as <-.
      rewrite dirent_val_roundtrip; [done|]. by apply (rp_dirents _ _ HR p n1 c).
    + intros [Hne Hc]. destruct (rp_dirents _ _ HR p nm c Hc) as (_ & Hn & Hcr). exists (dirent_key p nm, c).
      cbn [fst snd]. rewrite dirent_name_key by apply Hn. split; [done|]. apply Hin.
      assert (Hk : m !! dirent_key p nm = Some (dirent_val c)) by by rewrite (rp_dirent _ _ HR), Hc.
      destruct (proj2 (dirent_range p (dirent_key p nm) Hp Hp1 (keyed_dirent p nm Hp Hn))) as [Hsh Hr]; [by exists nm|].
      split; [done|]. split; [done|]. exists (dirent_val c). by rewrite dirent_val_roundtrip.
Qed.

Lemma scan_dirent_step s N p :
  holds_ns s N -> ino_ok p -> p + 1 < INO_LIM -> nstepped N (NDirentScan p) (nperform (NDirentScan p) s).
Proof.
  intros (m & Hm & HR) Hp Hp1.
  destruct (dirent_scan_tot (fun c nm ch => (0, c ++ [(nm, ch)])) (view s) p s m [] Hm (view_good s)) as (es & Hes & Ht).
  - intros k val Hk Hr Hsh.
    destruct (proj1 (dirent_range p k Hp Hp1 (at_keyed s m k Hm ltac:(by exists val))) (conj Hsh Hr)) as (nm & _ & Hn & ->).
    rewrite (rp_dirent _ _ HR) in Hk by done. destruct (ns_dirents N !! (p, nm)); [|done]. injection Hk as <-.
    unfold dirent_val. by rewrite length_put_be64.
  - cbn [nperform]. eapply nreply_tot; [exact Ht|]. intros r s' (-> & Hm' & _). rewrite collect_names. cbn [fst snd app].
    exists N. split; [by exists m|]. constructor. by apply (shown_entries s N m).
Qed.

Lemma scan_xattr_step s N ino :
  holds_ns s N -> ino_ok ino -> nstepped N (NXattrScan ino) (nperform (NXattrScan ino) s).
Proof.
  intros (m & Hm & HR) Hi.
  destruct (xattr_scan_tot (fun c nm => (0, c ++ [nm])) (view s) ino s m [] Hm (view_good s) Hi) as (l & [Hs Hl] & Ht).
  cbn [nperform]. eapply nreply_tot; [exact Ht|]. intros r s' (-> & Hm' & _). rewrite collect_list. cbn [fst snd app].
  exists N. split; [by exists m|]. constructor. split; [done|]. intros nm. rewrite Hl. split.
  - intros (Hne & Hn & [c Hc]). rewrite <- (rp_xattr _ _ HR ino nm Hi (conj Hn Hne)). unfold attr_of. by rewrite Hc.
  - intros [val Hv]. destruct (rp_xattrs _ _ HR ino nm val Hv) as [_ [Hn Hne]]. split; [done|]. split; [done|].
    rewrite <- (rp_xattr _ _ HR ino nm Hi (conj Hn Hne)) in Hv. unfold attr_of in Hv. by destruct (m !! xattr_key ino nm).
Qed.

Lemma get_xattr_step s N ino nm cap :
  holds_ns s N -> ino_ok ino -> attr_name nm -> nstepped N (NXattrGet ino nm cap) (nperform (NXattrGet ino nm cap) s).
Proof.
  intros (m & Hm & HR) Hi [Hn Hne]. eapply nreply_tot.
  { apply (xattr_get_tot ino nm Hn s m cap Hm); [|done]. by apply (rp_bounded _ _ HR). }
  intros r s' (-> & Hm' & _). rewrite (rp_xattr _ _ HR) by done. exists N. split; [by exists m|constructor].
Qed.

Lemma set_xattr_step s N ino nm val :
  holds_ns s N -> ino_ok ino -> attr_name nm -> bytes_ok val ->
  nstepped N (NXattrSet ino nm val) (nperform (NXattrSet ino nm val) s).
Proof.
  intros (m & Hm & HR) Hi Hn Hb. eapply nreply_ans; [exact (xattr_set_ans E RC ino nm Hi (proj1 Hn) s m val Hm Hb)|].
  intros r s' (m' & (Hm' & _ & Ha) & Hv). pose proof (rep_attr_step N m m' ino nm HR Hi Hn Ha) as HR'.
  eexists. split; [exists m'; split; [exact Hm'|exact HR']|]. destruct (is_xok r) eqn:Ex.
  - destruct r as [[]|]; try done. rewrite Hv by done. constructor.
  - apply SXattrSetRefused. by destruct r as [[]|].
Qed.

Lemma del_xattr_step s N ino nm :
  holds_ns s N -> ino_ok ino -> attr_name nm -> nstepped N (NXattrDel ino nm) (nperform (NXattrDel ino nm) s).
Proof.
  intros (m & Hm & HR) Hi Hn. eapply nreply_ans; [exact (xattr_del_ans E RC ino nm Hi (proj1 Hn) s m Hm)|].
  intros r s' ((m' & (Hm' & _ & Ha) & Hv) & Hnd & Hok). rewrite (rp_xattr _ _ HR ino nm Hi Hn) in Hnd, Hok.
  pose proof (rep_attr_step N m m' ino nm HR Hi Hn Ha) as HR'.
  assert (Hd : r = Some XNoData \/ r <> Some XNoData) by (destruct r as [[]|]; (by left) || by right).
  destruct Hd as [->|Hr].
  - destruct (Hnd eq_refl) as [HN Hms]. exists N. split; [by exists m|]. by constructor.
  - eexists. split; [exists m'; split; [exact Hm'|exact HR']|]. destruct (is_xok r) eqn:Ex.
    + destruct r as [[]|]; try done. rewrite Hv by done. constructor. by apply Hok.
    + apply SXattrDelRefused; by destruct r as [[]|].
Qed.

Lemma delete_inode_step s N id :
  holds_ns s N -> ino_ok id -> nstepped N (NInodeDelete id) (nperform (NInodeDelete id) s).
Proof.
  intros (m & Hm & HR) Hid. cbn [nperform].
  eapply nreply_ans; [exact (inode_delete_ans E RC (view s) s m id Hm (view_good s) Hid)|].
  intros r s' (m' & Hm' & _ & Hp & Hr & Hmiss). assert (Hpr : inode_pruned id (is_Some r) m m') by exact Hp.
  pose proof (rp_inode _ _ HR id Hid) as Hrow. destruct r as [[]|].
  - destruct (Hr ltac:(by eexists)) as [Hg Hno]. rewrite Hrow in Hno, Hmiss. destruct (ns_inodes N !! id) as [i|] eqn:Ei.
    + eexists. split; [|apply SInodeDelete; by rewrite Ei]. exists m'. split; [done|].
      apply (rep_pruned_gone N m m' id _ HR Hid Hpr Hg). apply Hno. by eexists.
    + rewrite Hmiss in Hm' by done. exists N. split; [by exists m|by constructor].
  - exists (set_xattrs (reread_attrs id m') N). split.
    + exists m'. split; [done|]. apply (rep_pruned_stays N m m' id _ HR Hid Hpr). by intros [].
    + apply (SInodeDeleteRefused N id (reread_attrs id m' (ns_xattrs N))). intros ino nm Hne. rewrite reread_lookup.
      destruct (ns_xattrs N !! (ino, nm)); [|done]. by rewrite decide_False.
Qed.

Lemma nperform_step s N o : holds_ns s N -> nop_ok o -> nstepped N o (nperform o s).
Proof.
  intros Hs Ho. destruct o; cbn [nop_ok] in Ho; destruct_and?.
  - by apply get_inode_step.
  - by apply put_inode_step.
  - by apply delete_inode_step.
  - by apply get_dirent_step.
  - by apply put_dirent_step.
  - by apply del_dirent_step.
  - by apply scan_dirent_step.
  - by apply get_xattr_step.
  - by apply set_xattr_step.
  - by apply del_xattr_step.
  - by apply scan_xattr_step.
Qed.

Lemma nperform_all_spec os : forall s N,
  holds_ns s N -> Forall nop_ok os ->
  exists N', holds_ns (snd (nperform_all os s)) N' /\ ns_run N os (fst (nperform_all os s)) N'.
Proof.
  induction os as [|o os IH]; intros s N Hs Hos.
  { exists N. split; [done|constructor]. }
  apply Forall_cons_iff in Hos as [Ho Hos]. destruct (nperform_step s N o Hs Ho) as (N1 & Hs1 & Hst).
  cbn [nperform_all]. destruct (nperform o s) as [r s1]. cbn [fst snd] in *.
  destruct (IH s1 N1 Hs1 Hos) as (N' & Hs' & Hrun). destruct (nperform_all os s1) as [rs s']. exists N'.
  split; [done|]. by econstructor.
Qed.

(** C0: the namespace is three tables.  Every sequence of reads, writes and
    deletions of inodes, directory entries and extended attributes, and of
    directory and attribute scans, on a mounted volume whose two tiers hold the
    rows of the tables, on a storage without faults, answers as the tables do:
    a read gives what the latest write left, also of a value that is cut into
    chunks; a scan lists each entry of the directory, or each attribute name,
    once and in order, whichever tier holds its row; deleting an inode takes
    its attributes with it; an operation on one row that is refused changes
    nothing, and one on several rows that is refused half-way changes nothing
    outside the attributes it is about. *)
Theorem namespace_session_refines os s N :
  holds_ns s N -> Forall nop_ok os ->
  let '(rs, s') := nperform_all os s in
  exists N', holds_ns s' N' /\ ns_run N os rs N'.
Proof.
  intros Hs Ho. destruct (nperform_all_spec os s N Hs Ho) as (N' & H1 & H2).
  destruct (nperform_all os s) as [rs s']. by exists N'.
Qed.
End session.

(** ** Inode numbers *)

Section numbers.
Context {D : Type} `{!Dev D, !DevLaws D}.
Abbreviation R := (rows (vol D dlog)).
Context (view : R -> di_sorted).
Hypothesis (view_good : forall s, good_view (view s) (rw_vol s)).
Implicit Types (s : R) (N : namespace).

Fixpoint alloc_all (n : nat) (s : R) : list (option Z) * R :=
  match n with
  | O => ([], s)
  | S n => let '(r, s) := vol_inode_alloc (view s) s in let '(rs, s) := alloc_all n s in (r :: rs, s)
  end.

Lemma alloc_run n : forall s m,
  at_map s m -> id_recovered s = true -> 0 <= next_inode_id s -> next_inode_id s + Z.of_nat n < 2 ^ 64 ->
  fst (alloc_all n s) = map Some (seqZ (next_inode_id s) (Z.of_nat n)) /\ at_map (snd (alloc_all n s)) m.
Proof.
  induction n as [|n IH]; intros s m Hm Hr H0 Hn; [done|]. cbn [alloc_all]. unfold vol_inode_alloc, mbind', mget, mret, mmod.
  rewrite Hr. rewrite (u64_small (next_inode_id s + 1)) by lia. set (s1 := set_next_inode_id (next_inode_id s + 1) s).
  destruct (IH s1 m) as [H1 H2]; [exact Hm|exact Hr|cbn; lia|cbn; lia|]. change (next_inode_id s1) with (next_inode_id s + 1) in H1.
  destruct (alloc_all n s1) as [rs s']. cbn [fst snd] in *. split; [|done]. rewrite H1.
  rewrite (seqZ_cons (next_inode_id s)) by lia. cbn [map]. do 3 f_equal; lia.
Qed.

(** C0: a new inode number is new.  After a mount, the numbers handed out are
    consecutive, above the counter of the handle and above the number of every
    inode that has a row in either tier, and never that of the root directory;
    the tables are not changed. *)
Theorem inode_alloc_fresh n s N :
  holds_ns s N -> id_recovered s = false -> 0 <= next_inode_id s < INO_LIM -> 0 < Z.of_nat n <= 2 ^ 62 ->
  let '(rs, s') := alloc_all n s in
  exists first, rs = map Some (seqZ first (Z.of_nat n)) /\ INVFS_ROOT_INO < first /\ next_inode_id s <= first /\
    (forall id, is_Some (ns_inodes N !! id) -> id < first) /\ holds_ns s' N.
Proof.
  intros (m & Hm & HR) Hrec Hnext Hn. destruct n as [|n]; [lia|]. cbn [alloc_all].
  destruct (alloc_tot (view s) s m Hm (view_good s) Hnext) as (id & s1 & E1 & Hm1 & Hr1 & En & Hid & H2 & Hb); [unfold ids_ok; by rewrite Hrec|].
  rewrite E1. destruct (alloc_run n s1 m Hm1 Hr1) as [H3 H4]; [lia|unfold INO_LIM in *; lia|].
  destruct (alloc_all n s1) as [rs s']. cbn [fst snd] in *. exists id. split_and!.
  - rewrite H3, En, (seqZ_cons id) by lia. cbn [map]. do 3 f_equal; lia.
  - unfold INVFS_ROOT_INO. lia.
  - lia.
  - intros id' Hi. destruct Hi as [i Hi]. destruct (rp_inodes _ _ HR id' i Hi) as [Hok _]. apply Hb; [done|].
    rewrite (rp_inode _ _ HR id' Hok), Hi. by eexists.
  - by exists m.
Qed.
End numbers.

(** ** Examples *)

(** An empty volume. *)
Definition demo_ns_vol : vol Mem.mem dlog := set_rt_present true (set_rt rt_fresh demo_empty).
Definition demo_handle : rows (vol Mem.mem dlog) := mkRows demo_ns_vol false 0 false (None, None).
Definition demo_view (s : rows (vol Mem.mem dlog)) : di_sorted :=
  match d_index (v_x (rw_vol s)) with Some di => di_sorted_build di | None => sorted_zero end.

Lemma demo_view_good s : good_view (demo_view s) (rw_vol s).
Proof. intros di Hdi. unfold demo_view. rewrite Hdi. apply view_build. Qed.

Lemma demo_ns_engine : engine demo_ns_vol [] 0 ∅.
Proof.
  split; try done.
  - split; try done; [|by right]. exists (di_new 0). destruct (di_new_ok 0) as [Hok Hm]. split_and!; [done|done|].
    rewrite Hm. apply fmap_empty.
  - apply (demo_room demo_ns_vol [] _ _ eq_refl demo_empty_inv eq_refl); [|by intros s j ?%not_elem_of_nil|by intros s ?%not_elem_of_nil].
    constructor; try done. by apply bytes_okb_ok.
  - split; [|done|done]. split; try done.
    + intros p [H1 H2]. change (1 <= p) in H1. change (p < 1 + 1) in H2. by replace p with 1 by lia.
    + by intros p [? _].
  - by intros p [? _].
  - split; [exists []; split; [by split|done]|apply Nat.leb_le; reflexivity|intros i [->| ->]; by left|reflexivity|by split].
Qed.

Definition no_namespace : namespace := mkNs ∅ ∅ ∅.

Lemma demo_ns_holds : holds_ns demo_handle no_namespace.
Proof.
  exists ∅. split.
  - exists [], O, ∅. split; [exact demo_ns_engine|]. split; [apply over_empty|].
    split; intros k [x Hx]; [change (content []) with (∅ : gmap bytes (Z * bytes)) in Hx|]; by rewrite lookup_empty in Hx.
  - split; intros *; cbn [no_namespace ns_inodes ns_dirents ns_xattrs]; rewrite ?lookup_empty; try done.
Qed.

Definition demo_nops : list nop :=
  [NInodePut 2 demo_inode; NDirentPut 1 [97] 2; NXattrSet 2 [98] [1; 2; 3]; NDirentScan 1; NXattrGet 2 [98] 64;
   NXattrScan 2; NInodeDelete 2; NXattrGet 2 [98] 64; NDirentGet 1 [97]].

Lemma demo_nops_ok : Forall nop_ok demo_nops.
Proof.
  assert (Hn : forall x, is_byte x -> file_name [x]) by (intros x Hx; split; [by constructor|done]).
  assert (Hi : forall i, 0 <= i < 3 -> ino_ok i) by (unfold ino_ok, INO_LIM; lia).
  repeat constructor; try (by apply Hi); try (by apply Hn); try done; try apply demo_inode_ok; by apply bytes_okb_ok.
Qed.

Lemma namespace_session_refines_witness :
  holds_ns demo_handle no_namespace /\ Forall nop_ok demo_nops /\
  let '(rs, s') := nperform_all demo_env demo_calls demo_view demo_nops demo_handle in
  exists N', holds_ns s' N' /\ ns_run no_namespace demo_nops rs N'.
Proof.
  split; [exact demo_ns_holds|]. split; [exact demo_nops_ok|].
  exact (namespace_session_refines demo_env demo_calls demo_view demo_view_good demo_nops demo_handle no_namespace
    demo_ns_holds demo_nops_ok).
Defined.

Lemma inode_alloc_fresh_witness :
  let '(rs, s') := alloc_all demo_view 3 demo_handle in
  exists first, rs = map Some (seqZ first 3) /\ INVFS_ROOT_INO < first /\ 0 <= first /\
    (forall id, is_Some (ns_inodes no_namespace !! id) -> id < first) /\ holds_ns s' no_namespace.
Proof.
  apply (inode_alloc_fresh demo_view demo_view_good 3 demo_handle no_namespace demo_ns_holds); [reflexivity|unfold INO_LIM; cbn; lia|lia].
Defined.
End Namespace.
